(* ===== verification/_CoqProject ===== *)
-Q . S2P
Prelude.v
Graph.v
Values.v
Json.v
CanonicalJson.v
Models.v
Workflow.v
Compiler.v
SafeEval.v
ToolRegistry.v
PluginLoader.v
AuditBundle.v
Guardrails.v
Policy.v
PointerStore.v
PostgresStore.v
StateManager.v
TokenBucket.v
SqliteSchema.v
Migrations.v
MigrationsProofs.v
FileSystem.v
FileTools.v
FileToolsProofs.v
StateBackup.v
StateBackupProofs.v
Executor.v
ExecutorSamples.v
WorkflowHelpers.v
ExecutorProofs.v
ExecutorResolve.v
ExecutorRuns.v
Settings.v
ExecutorFrame.v
ExecutorProgress.v
ExecutorTermination.v
ExecutorEnds.v
Distributed.v
DistributedProofs.v
Text.v
Url.v
WebTools.v
WebToolsProofs.v
BuiltinTools.v
Providers.v
AgentClient.v
McpClient.v
McpClientProofs.v
OpenClaw.v
StateFiles.v
Logging.v
LoggingProofs.v
Doctor.v
DoctorProofs.v
HttpApi.v
HttpApiProofs.v
HttpServer.v
HttpRuns.v
