(* ===== verification/Prelude.v ===== *)
(** * Efficient Agent Protocol: a verified model of the runtime

    The program (a Python package, [src/eap], with scripts to operate it) takes
    batches of tool calls ("macros"), validates them, runs their steps
    concurrently under limits, stores every output behind a pointer so that
    steps pass references instead of payloads, and serves all this over HTTP and
    over a queue for distributed workers.  This library models its decisions:
    the engine, its stores and servers, the tools and clients around it, and the
    backup of its state.  What the outside does (servers, disks, clocks, SQLite
    files, processes) is a parameter or a state that a component works on.

    ** How the parts fit

    An agent asks a language model for a plan ([agent/agent_client.py] over
    [agent/providers]), and [agent/compiler.py] makes a macro of the answer;
    others write macros with [workflow_helpers.py] or store workflow graphs
    ([protocol/models.py]) that compile to macros.  A macro reaches
    [runtime/http_api.py], which authenticates the request ([auth_scopes],
    [policy_profiles]), checks its rate and takes a concurrency slot
    ([guardrails]), has the macro validated ([protocol/models.py]) and hands it
    to [environment/executor.py].  The executor runs one task per step: it
    resolves references to other steps' outputs, evaluates branch conditions
    ([environment/safe_eval.py]), looks tools up and validates their arguments
    ([environment/tool_registry.py], filled by [plugin_loader.py] and with the
    tools of [environment/tools]), waits for semaphores and token buckets, calls
    the tool, and records outputs, trace events, checkpoints and summaries
    through [protocol/state_manager.py], which sits on a pointer store
    ([protocol/storage]) and a database whose schema [protocol/migrations.py]
    upgrades.  [environment/distributed_executor.py] runs the steps of a macro
    through leases on a shared queue instead.  [protocol/settings.py] reads the
    configuration of all this from the environment; [runtime/audit_bundle.py]
    and [scripts/eap_state_backup.py] export, verify and restore its records.

    ** Files

    Data and support:
    - [Prelude]: exceptions, the [result] and [stm] (state and exception)
      monads with their rules, Python strings and insertion-ordered
      dictionaries; the hint database [eap].
    - [Values], [Json], [CanonicalJson], [Text]: JSON-shaped values, their texts
      ([repr], [json.dumps] in its variants), percent decoding and the text of
      an instant.
    - [Graph]: directed graphs and Kahn's algorithm as the program writes it,
      correct and complete for acyclicity.
    - [FileSystem]: directories, files and symbolic links, with the resolution of
      paths and the calls the tools use.

    The engine (each with its theorems unless a second file is named):
    - [Models]: [protocol/models.py], records, validators, reference scanning and
      the dependency graph of a macro; [Workflow]: the stored workflow graphs of
      that file, their validation and compilation.
    - [Compiler], [WorkflowHelpers]: [agent/compiler.py], [workflow_helpers.py].
    - [SafeEval]: [environment/safe_eval.py], the allow-listed expression AST.
    - [ToolRegistry], [PluginLoader]: [environment/tool_registry.py] and
      [plugin_loader.py]; [BuiltinTools]: the schemas and signatures of the
      bundled tools and the binding of a call's arguments.
    - [TokenBucket]: [_AsyncTokenBucket] of the executor.
    - [Executor]: [environment/executor.py].  A step's task is a value of [pc],
      one constructor per point where [run_step] can be suspended, and a
      [choice] is one switch of the event loop ([fire]); [start_run] and
      [finish_run] are the code before and after the tasks.  The proofs are in
      [ExecutorProofs] (what each task step does and the invariant of a run),
      [ExecutorResolve] (reference resolution), [ExecutorRuns] (safety),
      [ExecutorFrame] (what a run leaves alone), [ExecutorProgress] (no
      deadlock), [ExecutorTermination] (bounds on the switches, completion) and
      [ExecutorEnds] (accounting, timeout, resuming); [ExecutorSamples] has a
      macro to try them on.
    - [Distributed], [DistributedProofs]: [environment/distributed_executor.py],
      each call a sequence of atomic actions on the database, so that calls of
      several processes interleave between a read and the write it leads to.

    State:
    - [PointerStore]: [protocol/storage/base.py], [sqlite_store.py] and
      [redis_store.py]; the class [PointerStoreBackend] is the interface and
      [PointerStoreLaws] its contract.  [PostgresStore]: [postgres_store.py].  All
      three backends are instances, and clients are proved against the laws.
    - [StateManager], [StateFiles]: [protocol/state_manager.py], over any backend;
      the second has opening the database and the export of metrics.
    - [SqliteSchema], [Migrations], [MigrationsProofs]: SQLite's transactions on a
      schema, [protocol/migrations.py], and the tables each store creates.
    - [AuditBundle]: [runtime/audit_bundle.py]; [StateBackup],
      [StateBackupProofs]: [scripts/eap_state_backup.py], on a disk where any
      operation can fail half-way.

    Servers and configuration:
    - [Guardrails], [Policy]: [runtime/guardrails.py], [runtime/policy_profiles.py]
      and [runtime/auth_scopes.py].
    - [HttpApi], [HttpApiProofs], [HttpServer], [HttpRuns]: [runtime/http_api.py],
      the handlers, their guarantees, the server with many requests in flight,
      and macros run and resumed over HTTP, through the executor's model.
    - [Settings]: [protocol/settings.py], with the limits that
      [scripts/eap_runtime_service.py] builds from it.
    - [Logging], [LoggingProofs]: [protocol/logging_config.py].
    - [Doctor], [DoctorProofs]: [scripts/eap_doctor.py].

    Tools and clients:
    - [FileTools], [FileToolsProofs]: [environment/tools/file_tools.py].
    - [Url], [WebTools], [WebToolsProofs]: [environment/tools/web_tools.py].
    - [Providers], [AgentClient]: [agent/providers], [protocol/http_client.py],
      [agent/agent_client.py].
    - [McpClient], [McpClientProofs]: [environment/mcp_client.py] and
      [tools/mcp_tools.py]; [OpenClaw]: [environment/openclaw_client.py] and
      [tools/openclaw_tools.py].

    ** What the theorems show

    - Validation and compilation: a macro is accepted exactly when it is well
      formed and acyclic; a validated workflow graph compiles to a valid order;
      a compiled answer has the steps of its payload, healed as documented.
    - Runs: a tool is called only when approved and selected, with inputs that
      are outputs of succeeded steps; limits on concurrency hold on every
      schedule and slots are never lost; outcomes never change; retries are
      bounded and back off; there is no deadlock, any partial run can be
      completed, and a number computed from the macro bounds its switches; the
      summary counts every step once; a timeout frees everything; resuming
      restores the checkpoint and never repeats a finished step; other runs are
      not touched.
    - Stores: the three backends refine one map of pointers, cleanup is exact,
      what the state manager writes is read back, exported metrics are those of
      the store; a database of any version is brought to any target, and a crash
      is recoverable everywhere but in one place.
    - Backups: whatever fails, a restore leaves the target as it was or holds
      what the backup held, each read with the write-ahead log that lies beside
      it (a log left there is merged into a restored database); a database backed
      up and restored without such a log reads the same; a verified bundle is the
      one that was built.
    - Distribution: however the actions of any number of calls interleave, a
      started step is held by an active lease that carries its attempt, and is
      given back once its leases have run out; leases are exclusive where calls do
      not overlap (overlapping claims can share a step); a worker that asks is
      given a step unless every open step of the run is blocked by a failure or
      an answer that cannot come; outcomes are final.
    - HTTP: nothing happens without the endpoint's scope, runs answer to their
      owners only, bodies are bounded however they are chunked, the requests in
      flight are accounted for, and submitted and resumed runs belong to whom
      they should.
    - Configuration, expressions, tools: loaded settings have their types and
      ranges (a float may be NaN, which the loader lets through); least privilege of token policies; the exact language of safe
      expressions; argument validation equivalent to the schema's reading, and
      validated calls of bundled tools bind, with [jsonschema] and without; rate limits per window and bucket;
      no secret the redaction recognises survives it; the doctor's exit code
      names the categories that failed, and an environment file it generates
      passes its checks.
    - Tools and clients: file tools stay in their sandbox whatever links there
      are; every URL the web tools fetch was checked; a streamed chat returns
      what its callback was told and leaves no response open; a plan is a
      well-formed macro compiled from the model's answer; an MCP request whose
      message is taken ends by its timeout with the answer to it and frames are
      read back; an OpenClaw call is one post, sent three times at most and along
      its redirects, and reports every failure by its kind and message.

    ** Conventions, bounds and fuel

    - Texts are Latin-1 (one [ascii] per character).  Integers are unbounded, as
      Python's; a float is its exact rational value, so rounding, infinities and
      NaN are left out (but for [Settings], which reads them).  An instant is its
      microseconds since the epoch where the program keeps ISO-8601 text;
      [Text.isoformat] is that text.
    - A dictionary whose order shows is an association list ([dict_get],
      [dict_set]); one whose order does not is a [gmap].  A JSON column holds the
      value it encodes.
    - Third-party code is a parameter: [jsonschema], pydantic's reading of fields,
      [model_dump] and [model_validate] (only the validators of [src] are
      modelled), the parsers of Python expressions, JSON and HTML, SHA-256 and
      HMAC, name resolution, which HTTP
      failures are passing and where redirects lead (retrying and following them
      is modelled in [Providers]), SQLite's backup and recovery, shortest
      float texts, and what a tool returns.
    - Recursion is structural except in Kahn's loop and reference scanning (fuel:
      the number of nodes; the configured depth limit, as in the program), the
      resolution of links (the size of the file system), and the reading loops of
      [McpClient] (the bytes under way and two more turns; one message per byte):
      each is shown to be enough.  Schedules are lists of choices, and completion
      is proved, not assumed.
    - The event loop may switch to any task that is ready and deliver results in
      any order: more schedules than asyncio's FIFO queue allows.
    - The file system has no permissions, limits on names or NULs, and resolves
      links as CPython 3.10 to 3.12 do.  A backup sees a database as its main file
      and write-ahead log; disk operations fail by faults given at each call.

    ** Not modelled

    - Each operation of the state manager is one atomic step; two processes
      sharing one executor are outside.  Waiting (for a retry, for a process to
      end) takes no time where no clock is modelled.  Rows that tie on
      every ORDER BY column come in an unspecified order.
    - Aliasing of tool schemas between caller and registry; printing; log
      records; the uvicorn thread; an exception that ends one task of a run ends
      the model's run.
    - The Streamlit application, the other scripts (telemetry, scorecards,
      release gates), starter packs and examples: user interface, reporting and
      glue around the parts above. *)
From stdpp Require Export base tactics option list strings gmap fin_sets sorting relations pretty.
From stdpp Require Import options.
From Stdlib Require Export ZArith Lia.
From Stdlib Require Ascii.
#[global] Delimit Scope char_scope with char.
Abbreviation ascii := Stdlib.Strings.Ascii.ascii.
String Notation Stdlib.Strings.Ascii.ascii Ascii.ascii_of_byte Ascii.byte_of_ascii : char_scope.
#[export] Set Warnings "-clear-no-such-hyp,-register-all".

(** * Exceptions and the result monad

    A Python function that may raise is a function into [result]; the
    exception carries the class that [except] clauses dispatch on and the
    message it was raised with. *)
Inductive exn_class :=
  | ValueError
  | KeyError
  | TypeError
  | RuntimeError
  | PermissionError
  | FileNotFoundError
  | NotADirectoryError
  | InputValidationError   (* subclass of ValueError *)
  | PluginManifestError    (* subclass of ValueError *)
  | UnsafeExpressionError  (* subclass of ValueError *)
  | ValidationError        (* pydantic's, subclass of ValueError *)
  | OtherError (name : string).

#[global] Instance exn_class_eq_dec : EqDecision exn_class.
Proof. solve_decision. Defined.

Record exn := Exn { exn_cls : exn_class; exn_msg : string }.

#[global] Instance exn_eq_dec : EqDecision exn.
Proof. solve_decision. Defined.

(** [exc.__class__.__name__] *)
Definition class_name (c : exn_class) : string :=
  match c with
  | ValueError => "ValueError"
  | KeyError => "KeyError"
  | TypeError => "TypeError"
  | RuntimeError => "RuntimeError"
  | PermissionError => "PermissionError"
  | FileNotFoundError => "FileNotFoundError"
  | NotADirectoryError => "NotADirectoryError"
  | InputValidationError => "InputValidationError"
  | PluginManifestError => "PluginManifestError"
  | UnsafeExpressionError => "UnsafeExpressionError"
  | ValidationError => "ValidationError"
  | OtherError n => n
  end.

(** [isinstance(exc, ValueError)] for the classes the program raises. *)
Definition is_value_error (c : exn_class) : bool :=
  match c with
  | ValueError | InputValidationError | PluginManifestError
  | UnsafeExpressionError | ValidationError => true
  | _ => false
  end.

Inductive result (A : Type) : Type :=
  | Ok (a : A)
  | Raise (e : exn).
Arguments Ok {_} _.
Arguments Raise {_} _.

#[global] Instance result_ret : MRet result := @Ok.
#[global] Instance result_bind : MBind result := λ A B f r,
  match r with Ok a => f a | Raise e => Raise e end.
#[global] Instance result_fmap : FMap result := λ A B f r,
  match r with Ok a => Ok (f a) | Raise e => Raise e end.

Definition is_None {A} (o : option A) : bool := match o with None => true | _ => false end.

Definition is_ok {A} (r : result A) : bool :=
  match r with Ok _ => true | Raise _ => false end.

(** [if b: raise e] *)
Definition raise_if (b : bool) (e : exn) : result unit :=
  if b then Raise e else Ok tt.

Definition value_error (m : string) : exn := Exn ValueError m.
(** [json.JSONDecodeError], a subclass of ValueError *)
Definition JSONDecodeError : exn_class := OtherError "JSONDecodeError".

(** [for x in l: f(x)], where [f] may raise. *)
Section loops.
Context {A B : Type}.

Section for_each.
Variable f : A → result unit.
Fixpoint for_each (l : list A) : result unit :=
  match l with
  | [] => Ok tt
  | x :: l => f x ≫= λ _, for_each l
  end.
End for_each.

(** [for x in l: acc = f(acc, x)], where [f] may raise. *)
Section fold_result.
Variable f : B → A → result B.
Fixpoint fold_result (acc : B) (l : list A) : result B :=
  match l with
  | [] => Ok acc
  | x :: l => f acc x ≫= λ acc', fold_result acc' l
  end.
End fold_result.

(** [[f(x) for x in l]], where [f] may raise. *)
Section map_result.
Variable f : A → result B.
Fixpoint map_result (l : list A) : result (list B) :=
  match l with
  | [] => Ok []
  | x :: l => f x ≫= λ y, map_result l ≫= λ ys, Ok (y :: ys)
  end.
End map_result.
End loops.

Section result_lemmas.
Context {A B : Type}.
Implicit Types (r : result A) (k : A → result B).

Lemma bind_Ok r k (b : B) : r ≫= k = Ok b ↔ ∃ a, r = Ok a ∧ k a = Ok b.
Proof.
  destruct r as [a|e]; simpl; split; try naive_solver.
Qed.

Lemma bind_Raise r k e :
  r ≫= k = Raise e ↔ r = Raise e ∨ ∃ a, r = Ok a ∧ k a = Raise e.
Proof. destruct r as [a|e']; simpl; naive_solver. Qed.

Lemma is_ok_true r : is_ok r = true ↔ ∃ a, r = Ok a.
Proof. destruct r; naive_solver. Qed.

Lemma is_ok_false r : is_ok r = false ↔ ∃ e, r = Raise e.
Proof. destruct r; naive_solver. Qed.
End result_lemmas.

Lemma raise_if_Ok b e u : raise_if b e = Ok u ↔ b = false.
Proof. destruct b, u; naive_solver. Qed.

Lemma raise_if_Raise b e e' : raise_if b e = Raise e' ↔ b = true ∧ e = e'.
Proof. destruct b; naive_solver. Qed.

Lemma for_each_Ok {A} (f : A → result unit) l u :
  for_each f l = Ok u ↔ Forall (λ x, f x = Ok tt) l.
Proof.
  destruct u. induction l as [|x l IH]; simpl.
  - split; [constructor | done].
  - rewrite bind_Ok, Forall_cons, <- IH. split.
    + intros ([] & ? & ?); done.
    + intros [? ?]; by exists tt.
Qed.

Lemma for_each_Raise {A} (f : A → result unit) l e :
  for_each f l = Raise e →
  ∃ l1 x l2, l = l1 ++ x :: l2 ∧ Forall (λ y, f y = Ok tt) l1 ∧ f x = Raise e.
Proof.
  induction l as [|x l IH]; simpl; [done|].
  rewrite bind_Raise. intros [H | ([] & Hx & H)].
  - by exists [], x, l.
  - destruct (IH H) as (l1 & y & l2 & -> & Hl1 & Hy).
    exists (x :: l1), y, l2. by repeat constructor.
Qed.

Lemma map_result_Ok {A B} (f : A → result B) l ys :
  map_result f l = Ok ys ↔ Forall2 (λ x y, f x = Ok y) l ys.
Proof.
  revert ys. induction l as [|x l IH]; intros ys; simpl.
  - split; [intros [= <-]; constructor | by inversion 1].
  - rewrite bind_Ok. setoid_rewrite bind_Ok. setoid_rewrite IH. split.
    + intros (y & Hy & ys' & Hl & [= <-]). by constructor.
    + inversion 1; subst. eauto 6.
Qed.

Lemma fold_result_Ok_inv {A B} (P : B → Prop) (f : B → A → result B) l acc b :
  P acc →
  (∀ acc x acc', x ∈ l → P acc → f acc x = Ok acc' → P acc') →
  fold_result f acc l = Ok b → P b.
Proof.
  revert acc. induction l as [|x l IH]; simpl; intros acc HP Hf.
  - by intros [= <-].
  - rewrite bind_Ok. intros (acc' & Hx & Hl).
    apply (IH acc'); [| |done].
    + eapply Hf; eauto. constructor.
    + intros ????. apply Hf. by constructor.
Qed.

Lemma fold_result_Raise {A B} (f : B → A → result B) l acc e :
  fold_result f acc l = Raise e → ∃ acc' x, x ∈ l ∧ f acc' x = Raise e.
Proof.
  revert acc. induction l as [|x l IH]; intros acc; simpl; [done|].
  rewrite bind_Raise. intros [H|(acc' & _ & H)].
  - exists acc, x. by split; [left|].
  - destruct (IH acc' H) as (acc'' & y & ? & ?). exists acc'', y. by split; [right|].
Qed.

(** Decompose a successful or failing run into its steps. *)
Ltac inv_result :=
  repeat (simpl in *; simplify_eq; match goal with
  | H : _ ≫= _ = Ok _ |- _ => apply bind_Ok in H; destruct H as (? & ? & ?)
  | H : raise_if _ _ = Ok _ |- _ => apply raise_if_Ok in H
  | H : raise_if _ _ = Raise _ |- _ => apply raise_if_Raise in H; destruct H as [? ?]
  | H : mret _ = Ok _ |- _ => injection H as H
  | H : Ok _ = Ok _ |- _ => injection H as H
  | H : negb _ = true |- _ => apply negb_true_iff in H
  | H : negb _ = false |- _ => apply negb_false_iff in H
  | H : (_ || _) = false |- _ => apply orb_false_iff in H; destruct H as [? ?]
  | H : (_ && _) = true |- _ => apply andb_true_iff in H; destruct H as [? ?]
  | H : bool_decide _ = true |- _ => apply bool_decide_eq_true in H
  | H : bool_decide _ = false |- _ => apply bool_decide_eq_false in H
  end); simplify_eq.

(** * Stateful code that may raise

    A method that changes [self] and may raise is a function from the state to
    the new state and its outcome: what was written before an exception stays
    written. *)
Definition stm (St A : Type) : Type := St → St * result A.

#[global] Instance stm_ret St : MRet (stm St) := λ A a s, (s, Ok a).
#[global] Instance stm_bind St : MBind (stm St) := λ A B f m s,
  match m s with
  | (s, Ok a) => f a s
  | (s, Raise e) => (s, Raise e)
  end.

Definition st_get {St} : stm St St := λ s, (s, Ok s).
Definition st_modify {St} (f : St → St) : stm St unit := λ s, (f s, Ok tt).
Definition st_lift {St A} (r : result A) : stm St A := λ s, (s, r).
Definition st_raise {St A} (e : exn) : stm St A := st_lift (Raise e).
Definition st_raise_if {St} (b : bool) (e : exn) : stm St unit := st_lift (raise_if b e).

(** [for x in l: f(x)] *)
Fixpoint st_for_each {St A} (f : A → stm St unit) (l : list A) : stm St unit :=
  match l with
  | [] => mret tt
  | x :: l => f x ≫= λ _, st_for_each f l
  end.

Lemma st_bind_eq {St A B} (m : stm St A) (f : A → stm St B) s s' a :
  m s = (s', Ok a) → (m ≫= f) s = f a s'.
Proof. intros H. unfold mbind, stm_bind. by rewrite H. Qed.

Lemma st_bind_raise {St A B} (m : stm St A) (f : A → stm St B) s s' e :
  m s = (s', Raise e) → (m ≫= f) s = (s', Raise e).
Proof. intros H. unfold mbind, stm_bind. by rewrite H. Qed.

Lemma st_bind_Ok {St A B} (m : stm St A) (f : A → stm St B) s s' b :
  (m ≫= f) s = (s', Ok b) ↔ ∃ s1 a, m s = (s1, Ok a) ∧ f a s1 = (s', Ok b).
Proof.
  unfold mbind, stm_bind. destruct (m s) as [s1 [a|e]]; naive_solver.
Qed.

Lemma st_bind_Raise {St A B} (m : stm St A) (f : A → stm St B) s s' e :
  (m ≫= f) s = (s', Raise e) ↔
  m s = (s', Raise e) ∨ ∃ s1 a, m s = (s1, Ok a) ∧ f a s1 = (s', Raise e).
Proof.
  unfold mbind, stm_bind. destruct (m s) as [s1 [a|e']]; naive_solver.
Qed.

(** What a stateful computation ensures: [wp m Q s] says that [m], run in [s],
    ends in a state and with an outcome that [Q] accepts. *)
Section wp.
Context {St : Type}.

Definition wp {A} (m : stm St A) (Q : St → result A → Prop) (s : St) : Prop := Q (m s).1 (m s).2.

(** What [Q] has to accept after [m] when [f] follows. *)
Definition wp_next {A B} (f : A → stm St B) (Q : St → result B → Prop) (s : St) (r : result A) : Prop :=
  match r with Ok a => wp (f a) Q s | Raise e => Q s (Raise e) end.

Lemma wp_mono {A} (m : stm St A) (P Q : St → result A → Prop) s :
  wp m P s → (∀ s' r, P s' r → Q s' r) → wp m Q s.
Proof. unfold wp. auto. Qed.

Lemma wp_bind {A B} (m : stm St A) (f : A → stm St B) Q s :
  wp m (wp_next f Q) s → wp (m ≫= f) Q s.
Proof. unfold wp, wp_next, mbind, stm_bind. destruct (m s) as [s' [a|e]]; auto. Qed.

Lemma wp_ret {A} (a : A) (Q : St → result A → Prop) s : Q s (Ok a) → wp (mret a) Q s.
Proof. done. Qed.

Lemma wp_get (Q : St → result St → Prop) s : Q s (Ok s) → wp st_get Q s.
Proof. done. Qed.

Lemma wp_modify f (Q : St → result unit → Prop) s : Q (f s) (Ok tt) → wp (st_modify f) Q s.
Proof. done. Qed.

Lemma wp_lift {A} (r : result A) (Q : St → result A → Prop) s : Q s r → wp (st_lift r) Q s.
Proof. done. Qed.

Lemma wp_raise {A} e (Q : St → result A → Prop) s : Q s (Raise e) → wp (st_raise e) Q s.
Proof. done. Qed.
End wp.

(** One step of a [wp] goal. *)
Ltac wp_step :=
  lazymatch goal with
  | |- wp (_ ≫= _) _ _ => apply wp_bind
  | |- wp (mret _) _ _ => apply wp_ret
  | |- wp st_get _ _ => apply wp_get
  | |- wp (st_modify _) _ _ => apply wp_modify
  | |- wp (st_raise _) _ _ => apply wp_raise
  | |- wp (st_lift _) _ _ => apply wp_lift
  | |- wp_next _ _ _ (Ok _) => unfold wp_next at 1; cbv beta
  | |- wp_next _ _ _ (Raise _) => unfold wp_next at 1
  | |- wp (let _ := _ in _) _ _ => cbv zeta
  end.

Lemma filter_Permutation_bool {A} (f : A → bool) l l' :
  l ≡ₚ l' → List.filter f l ≡ₚ List.filter f l'.
Proof.
  induction 1 as [|x l l' _ IH|x y l|l1 l2 l3 _ IH1 _ IH2]; simpl; [done|..].
  - destruct (f x); [by f_equiv|done].
  - destruct (f x), (f y); try done. apply Permutation_swap.
  - by trans (List.filter f l2).
Qed.

(** * Python strings

    A [str] is a Rocq [string] whose characters are code points below 256. *)

(** [c.isspace()] on those code points. *)
Definition py_isspace (c : ascii) : bool :=
  let n := Ascii.nat_of_ascii c in
  ((9 <=? n) && (n <=? 13)) || ((28 <=? n) && (n <=? 32)) || (n =? 133) || (n =? 160).

Fixpoint py_lstrip (s : string) : string :=
  match s with
  | EmptyString => EmptyString
  | String c s' => if py_isspace c then py_lstrip s' else s
  end.

Fixpoint py_rstrip (s : string) : string :=
  match s with
  | EmptyString => EmptyString
  | String c s' =>
      match py_rstrip s' with
      | EmptyString => if py_isspace c then EmptyString else String c EmptyString
      | r => String c r
      end
  end.

(** [s.strip()] *)
Definition py_strip (s : string) : string := py_rstrip (py_lstrip s).

(** [not s.strip()] *)
Definition py_blank (s : string) : bool := bool_decide (py_strip s = "").

(** [c.lower()] on code points below 256: A-Z and the Latin-1 capitals. *)
Definition py_lower_char (c : ascii) : ascii :=
  let n := Ascii.nat_of_ascii c in
  if ((65 <=? n) && (n <=? 90)) || ((192 <=? n) && (n <=? 222) && negb (n =? 215))
  then Ascii.ascii_of_nat (n + 32) else c.

Fixpoint py_lower (s : string) : string :=
  match s with
  | EmptyString => EmptyString
  | String c s' => String (py_lower_char c) (py_lower s')
  end.

(** [s.startswith(p)], returning what follows the prefix. *)
Fixpoint strip_prefix (p s : string) : option string :=
  match p, s with
  | EmptyString, _ => Some s
  | String a p', String b s' => if decide (a = b) then strip_prefix p' s' else None
  | String _ _, EmptyString => None
  end.

Definition py_startswith (s p : string) : bool :=
  match strip_prefix p s with Some _ => true | None => false end.

(** [s.endswith(p)] *)
Fixpoint py_endswith (s p : string) : bool :=
  bool_decide (s = p) ||
  match s with EmptyString => false | String _ s' => py_endswith s' p end.

(** [s.partition(sep)] for a one-character separator: head and, when the
    separator occurs, what follows its first occurrence. *)
Fixpoint py_partition (sep : ascii) (s : string) : string * option string :=
  match s with
  | EmptyString => (EmptyString, None)
  | String c s' =>
      if decide (c = sep) then (EmptyString, Some s')
      else let '(h, t) := py_partition sep s' in (String c h, t)
  end.

(** [s.split(sep)] for a one-character separator. *)
Fixpoint py_split (sep : ascii) (s : string) : list string :=
  match s with
  | EmptyString => [EmptyString]
  | String c s' =>
      if decide (c = sep) then EmptyString :: py_split sep s'
      else match py_split sep s' with
           | [] => [String c EmptyString]
           | h :: t => String c h :: t
           end
  end.

(** [sep.join(l)] *)
Fixpoint py_join (sep : string) (l : list string) : string :=
  match l with
  | [] => ""
  | [s] => s
  | s :: l => s +:+ sep +:+ py_join sep l
  end.

(** [[p.strip() for p in s.split(sep) if p.strip()]] *)
Definition split_strip (sep : ascii) (s : string) : list string :=
  filter (λ p, p ≠ "") (py_strip <$> py_split sep s).

(** [s.rstrip("/")] *)
Fixpoint rstrip_slashes (s : string) : string :=
  match s with
  | "" => ""
  | String c s => match rstrip_slashes s with "" => if decide (c = "/"%char) then "" else String c "" | r => String c r end
  end.

Lemma rstrip_slashes_idemp s : rstrip_slashes (rstrip_slashes s) = rstrip_slashes s.
Proof.
  induction s as [|c s IH]; [done|]. cbn [rstrip_slashes]. destruct (rstrip_slashes s) as [|d r] eqn:E.
  - case_decide; cbn [rstrip_slashes]; [done|]. by rewrite decide_False.
  - change (match rstrip_slashes (String d r) with "" => if decide (c = "/"%char) then "" else String c "" | r0 => String c r0 end = String c (String d r)).
    by rewrite IH.
Qed.

(** [x or y] on optional strings: the empty string is falsy. *)
Definition str_or (x : option string) (y : string) : string :=
  match x with
  | Some s => if decide (s = "") then y else s
  | None => y
  end.

Lemma str_length_app s t : String.length (s +:+ t) = String.length s + String.length t.
Proof. induction s as [|c s IH]; simpl; [done|]. by rewrite IH. Qed.

Lemma str_app_nil s : s +:+ "" = s.
Proof. induction s as [|c s IH]; [done|]. change (String c (s +:+ "") = String c s). by rewrite IH. Qed.
Lemma str_app_assoc s t u : (s +:+ t) +:+ u = s +:+ (t +:+ u).
Proof. induction s as [|c s IH]; [done|]. exact (f_equal (String c) IH). Qed.

Lemma strip_prefix_Some p s t : strip_prefix p s = Some t ↔ s = p +:+ t.
Proof.
  revert s. induction p as [|a p IH]; intros s; simpl.
  - split; [by intros [= ->] | by intros ->].
  - destruct s as [|b s]; [by split|]. case_decide as Hab.
    + subst. rewrite IH. split; [by intros -> | by intros [= ->]].
    + split; [done | by intros [= ??]].
Qed.

Lemma py_startswith_spec s p : py_startswith s p = true ↔ ∃ t, s = p +:+ t.
Proof.
  unfold py_startswith. destruct (strip_prefix p s) as [t|] eqn:H.
  - apply strip_prefix_Some in H. naive_solver.
  - split; [done|]. intros [t Ht]. apply strip_prefix_Some in Ht. congruence.
Qed.

Lemma py_rstrip_idemp s : py_rstrip (py_rstrip s) = py_rstrip s.
Proof.
  induction s as [|c s IH]; simpl; [done|].
  destruct (py_rstrip s) as [|c' r] eqn:Hr; simpl.
  - destruct (py_isspace c) eqn:Hc; simpl; [done|]. by rewrite Hc.
  - simpl in IH. by rewrite IH.
Qed.

Lemma py_lstrip_rstrip s :
  py_lstrip s = s → py_lstrip (py_rstrip s) = py_rstrip s.
Proof.
  destruct s as [|c s]; simpl; [done|].
  destruct (py_isspace c) eqn:Hc; intros H.
  - exfalso. assert (String.length (py_lstrip s) ≤ String.length s) as Hl.
    { clear. induction s as [|c s IH]; simpl; [done|].
      destruct (py_isspace c); simpl; lia. }
    rewrite H in Hl. simpl in Hl. lia.
  - destruct (py_rstrip s); simpl; by rewrite Hc.
Qed.

Lemma py_lstrip_idemp s : py_lstrip (py_lstrip s) = py_lstrip s.
Proof.
  induction s as [|c s IH]; simpl; [done|].
  destruct (py_isspace c) eqn:Hc; simpl; [done|]. by rewrite Hc.
Qed.

Lemma py_strip_idemp s : py_strip (py_strip s) = py_strip s.
Proof.
  unfold py_strip. rewrite py_lstrip_rstrip by apply py_lstrip_idemp.
  apply py_rstrip_idemp.
Qed.

Lemma split_strip_nonempty sep s : Forall (λ p, p ≠ "") (split_strip sep s).
Proof. apply Forall_forall. intros p. unfold split_strip. rewrite list_elem_of_filter. tauto. Qed.

(** * Sorted lists of strings: [sorted(...)] *)
Definition py_sorted (l : list string) : list string := merge_sort String.le l.

(** [sorted(X)] for a set [X] *)
Definition sorted_set (X : gset string) : list string := py_sorted (elements X).

Lemma py_sorted_perm l : py_sorted l ≡ₚ l.
Proof. apply merge_sort_Permutation. Qed.

Lemma py_sorted_sorted l : StronglySorted String.le (py_sorted l).
Proof. apply StronglySorted_merge_sort; apply _. Qed.

Lemma elem_of_py_sorted x l : x ∈ py_sorted l ↔ x ∈ l.
Proof. by rewrite py_sorted_perm. Qed.

Lemma elem_of_sorted_set x X : x ∈ sorted_set X ↔ x ∈ X.
Proof. unfold sorted_set. rewrite elem_of_py_sorted. set_solver. Qed.

Lemma NoDup_py_sorted l : NoDup (py_sorted l) ↔ NoDup l.
Proof. by rewrite py_sorted_perm. Qed.

Lemma NoDup_sorted_set X : NoDup (sorted_set X).
Proof. apply NoDup_py_sorted, NoDup_elements. Qed.

Lemma list_to_set_sorted_set X : list_to_set (sorted_set X) = X.
Proof. apply set_eq. intros x. rewrite elem_of_list_to_set. apply elem_of_sorted_set. Qed.

Lemma py_sorted_unique l1 l2 : l1 ≡ₚ l2 → py_sorted l1 = py_sorted l2.
Proof.
  intros H. apply (StronglySorted_unique String.le); try apply py_sorted_sorted.
  by rewrite !py_sorted_perm.
Qed.

(** * Insertion-ordered dictionaries

    A [dict] whose order matters is an association list: [d[k] = v] overwrites
    in place or appends. *)
Section dict.
Context {V : Type}.
Implicit Types (d : list (string * V)) (k : string) (v : V).

(** [d.get(k)] *)
Fixpoint dict_get d k : option V :=
  match d with
  | [] => None
  | (k', v) :: d => if decide (k' = k) then Some v else dict_get d k
  end.

(** [d[k] = v] *)
Fixpoint dict_set d k v : list (string * V) :=
  match d with
  | [] => [(k, v)]
  | (k', v') :: d => if decide (k' = k) then (k, v) :: d else (k', v') :: dict_set d k v
  end.

(** [d.pop(k, None)] *)
Definition dict_del d k : list (string * V) := filter (λ kv, kv.1 ≠ k) d.

(** [d.update(e)] *)
Definition dict_update d (e : list (string * V)) : list (string * V) :=
  foldl (λ d kv, dict_set d kv.1 kv.2) d e.

Lemma dict_get_set d k v k' :
  dict_get (dict_set d k v) k' = if decide (k = k') then Some v else dict_get d k'.
Proof.
  induction d as [|[k1 v1] d IH]; simpl; [done|].
  repeat (case_decide; simplify_eq; simpl); rewrite ?decide_True by done;
    rewrite ?IH; repeat case_decide; congruence.
Qed.

Lemma dict_get_set_eq d k v : dict_get (dict_set d k v) k = Some v.
Proof. by rewrite dict_get_set, decide_True. Qed.

Lemma dict_get_set_ne d k v k' : k ≠ k' → dict_get (dict_set d k v) k' = dict_get d k'.
Proof. intros. by rewrite dict_get_set, decide_False. Qed.

Lemma dict_get_elem d k v : dict_get d k = Some v → (k, v) ∈ d.
Proof.
  induction d as [|[k1 v1] d IH]; simpl; [done|].
  case_decide; [intros [= ->]; subst; left | right; auto].
Qed.

Lemma dict_get_None d k : dict_get d k = None ↔ k ∉ d.*1.
Proof.
  induction d as [|[k1 v1] d IH]; simpl; [split; [set_solver|done]|].
  rewrite not_elem_of_cons. case_decide; [naive_solver|]. rewrite IH. naive_solver.
Qed.

Lemma dict_get_Some d k v : NoDup d.*1 → dict_get d k = Some v ↔ (k, v) ∈ d.
Proof.
  intros HND. split; [apply dict_get_elem|].
  induction d as [|[k1 v1] d IH]; simpl in *; [set_solver|].
  apply NoDup_cons in HND as [Hk1 HND]. intros [[= <- <-]|H]%elem_of_cons.
  - by rewrite decide_True.
  - rewrite decide_False; [auto|]. intros ->. apply Hk1, list_elem_of_fmap. by exists (k, v).
Qed.

Lemma dict_set_keys d k v : (dict_set d k v).*1 ⊆ k :: d.*1 ∧ k ∈ (dict_set d k v).*1.
Proof.
  induction d as [|[k1 v1] d [IH1 IH2]]; simpl; [set_solver|].
  case_decide; simpl; set_solver.
Qed.

Lemma dict_set_NoDup d k v : NoDup d.*1 → NoDup (dict_set d k v).*1.
Proof.
  induction d as [|[k1 v1] d IH]; simpl; intros HND.
  - repeat constructor. set_solver.
  - apply NoDup_cons in HND as [Hk1 HND]. case_decide; simpl; subst; constructor; auto.
    intros Hin. apply (dict_set_keys d k v) in Hin. set_solver.
Qed.
End dict.

Lemma string_app_inv_suffix s1 s2 t1 t2 :
  String.length t1 = String.length t2 → s1 +:+ t1 = s2 +:+ t2 → s1 = s2 ∧ t1 = t2.
Proof.
  assert (Hlen : ∀ a b, String.length (a +:+ b) = String.length a + String.length b).
  { induction a; simpl; auto. }
  intros Ht. revert s2. induction s1 as [|c s1 IH]; intros [|c2 s2] H.
  - done.
  - apply (f_equal String.length) in H. rewrite !Hlen in H. simpl in H. lia.
  - apply (f_equal String.length) in H. rewrite !Hlen in H. simpl in H. lia.
  - injection H as -> H. by destruct (IH _ H) as [-> ->].
Qed.

Lemma substring_length n s : n ≤ String.length s → String.length (String.substring 0 n s) = n.
Proof.
  revert s. induction n as [|n IH]; intros [|c s]; simpl; intros; try lia.
  rewrite IH; lia.
Qed.

Lemma dict_set_keys_eq {V} (d : list (string * V)) k v :
  (dict_set d k v).*1 = if decide (k ∈ d.*1) then d.*1 else d.*1 ++ [k].
Proof.
  induction d as [|[k1 v1] d IH]; [done|]. rewrite fmap_cons. cbn [dict_set fst].
  destruct (decide (k1 = k)) as [->|Hk1]; rewrite ?fmap_cons; cbn [fst].
  - by rewrite decide_True by apply list_elem_of_here.
  - rewrite IH. destruct (decide (k ∈ d.*1)) as [Hd|Hd].
    + by rewrite decide_True by (by apply list_elem_of_further).
    + rewrite decide_False; [done|]. intros [?|?]%elem_of_cons; congruence.
Qed.

Lemma dict_get_del {V} (d : list (string * V)) k k' :
  dict_get (dict_del d k) k' = if decide (k' = k) then None else dict_get d k'.
Proof.
  unfold dict_del. induction d as [|[k1 v1] d IH]; simpl; [by destruct (decide _)|].
  rewrite filter_cons. simpl. repeat (case_decide; simplify_eq; simpl); try done;
    rewrite ?IH; repeat case_decide; simplify_eq; done.
Qed.

Lemma dict_get_is_Some {V} (d : list (string * V)) k : is_Some (dict_get d k) ↔ k ∈ d.*1.
Proof.
  rewrite <- not_eq_None_Some, dict_get_None. split; [|tauto].
  intros H. destruct (decide (k ∈ d.*1)); naive_solver.
Qed.

(** * Lists *)
Lemma elem_of_concat_list {A} (x : A) (ls : list (list A)) :
  x ∈ concat ls ↔ ∃ l, x ∈ l ∧ l ∈ ls.
Proof. rewrite list_elem_of_In, in_concat. setoid_rewrite list_elem_of_In. naive_solver. Qed.

(** * Automation *)
Create HintDb eap.
Create Rewrite HintDb eap.
#[export] Hint Resolve py_sorted_perm py_sorted_sorted NoDup_sorted_set
  split_strip_nonempty : eap.
#[export] Hint Rewrite elem_of_py_sorted elem_of_sorted_set NoDup_py_sorted
  @bind_Ok raise_if_Ok : eap.
