(* ===== verification/Graph.v ===== *)
(** Kahn's algorithm with a sorted frontier, as [eap/protocol/models.py] writes
    it three times: [BatchedMacroRequest._validate_dependency_graph_acyclic],
    [PersistedWorkflowGraph._validate_dependency_acyclic] and
    [PersistedWorkflowGraph.to_batched_macro_request].  The file has the two
    dictionaries the loops work on, the loop, and the theorem shared by the
    three callers: the loop terminates, its output is a topological order of
    what it visits, and it visits every node exactly when the graph is
    acyclic. *)
From stdpp Require Import options.
From S2P Require Import Prelude.

(** ** The two dictionaries of the loop *)

(** [adjacency: Dict[str, set[str]]] and [in_degree: Dict[str, int]] *)
Record digraph := Digraph {
  adjacency : gmap string (gset string);
  in_degree : gmap string Z;
}.

(** [{step_id: set() for ...}] and [{step_id: 0 for ...}] *)
Definition empty_digraph (ids : gset string) : digraph :=
  {| adjacency := gset_to_gmap ∅ ids; in_degree := gset_to_gmap 0%Z ids |}.

Definition targets (adj : gmap string (gset string)) (source : string) : gset string :=
  default ∅ (adj !! source).

(** [if target not in adjacency[source]: adjacency[source].add(target);
    in_degree[target] += 1] *)
Definition add_arc (g : digraph) (source target : string) : digraph :=
  if decide (target ∈ targets (adjacency g) source) then g
  else {| adjacency := <[source := {[target]} ∪ targets (adjacency g) source]> (adjacency g);
          in_degree := <[target := (default 0 (in_degree g !! target) + 1)%Z]> (in_degree g) |}.

(** ** The loop *)

(** [in_degree[target] -= 1; if in_degree[target] == 0: frontier.append(target)] *)
Definition relax (st : gmap string Z * list string) (target : string)
    : gmap string Z * list string :=
  let d := (default 0 (st.1 !! target) - 1)%Z in
  (<[target := d]> st.1, if decide (d = 0%Z) then st.2 ++ [target] else st.2).

(** [while frontier: ...]; [None] when the fuel runs out. *)
Fixpoint kahn_loop (fuel : nat) (adj : gmap string (gset string))
    (indeg : gmap string Z) (frontier ordered : list string) : option (list string) :=
  match fuel with
  | 0 => None
  | S fuel =>
      match frontier with
      | [] => Some ordered
      | current :: rest =>
          let '(indeg', frontier') :=
            foldl relax (indeg, rest) (sorted_set (targets adj current)) in
          kahn_loop fuel adj indeg' (py_sorted frontier') (ordered ++ [current])
      end
  end.

(** [sorted(step_id for step_id, degree in in_degree.items() if degree == 0)] *)
Definition initial_frontier (indeg : gmap string Z) : list string :=
  py_sorted (map_to_list (filter (λ kv, kv.2 = 0%Z) indeg)).*1.

(** The loop from its initial frontier.  Every iteration orders one more node,
    so one unit of fuel per node and one for the exit test are enough. *)
Definition kahn_order (g : digraph) : option (list string) :=
  kahn_loop (S (size (adjacency g))) (adjacency g) (in_degree g)
    (initial_frontier (in_degree g)) [].

(** ** What a graph and an order mean *)

Definition edge (g : digraph) (a b : string) : Prop := b ∈ targets (adjacency g) a.
#[export] Instance edge_dec g : RelDecision (edge g).
Proof. intros a b. unfold edge. apply _. Defined.
Definition nodes (g : digraph) : gset string := dom (adjacency g).
Definition preds (g : digraph) (b : string) : gset string :=
  filter (λ a, b ∈ targets (adjacency g) a) (nodes g).

(** No node reaches itself along one or more arcs. *)
Definition acyclic (g : digraph) : Prop := ∀ a, ¬ tc (edge g) a a.

(** Every arc that enters an element of [l] comes from an earlier element. *)
Definition topological (g : digraph) (l : list string) : Prop :=
  ∀ l1 b l2, l = l1 ++ b :: l2 → ∀ a, edge g a b → a ∈ l1.

(** The dictionaries agree: both are keyed by the nodes, arcs join nodes, and
    [in_degree] counts the arcs that enter a node. *)
Record graph_wf (g : digraph) : Prop := {
  wf_dom : dom (in_degree g) = nodes g;
  wf_arc : ∀ a b, edge g a b → b ∈ nodes g;
  wf_deg : ∀ b, b ∈ nodes g → in_degree g !! b = Some (Z.of_nat (size (preds g b)));
}.

Lemma edge_source g a b : edge g a b → a ∈ nodes g.
Proof.
  unfold edge, targets, nodes. rewrite elem_of_dom.
  destruct (adjacency g !! a); simpl; [eauto|set_solver].
Qed.

Lemma elem_of_preds g a b : a ∈ preds g b ↔ edge g a b.
Proof.
  unfold preds. rewrite elem_of_filter. split; [by intros [? _]|].
  intros H. split; [done|]. by eapply edge_source.
Qed.

(** ** Building a graph keeps it well formed *)

Lemma targets_empty ids a : targets (gset_to_gmap ∅ ids) a = ∅.
Proof. unfold targets. rewrite lookup_gset_to_gmap. by destruct (guard _) eqn:H. Qed.

Lemma empty_digraph_wf ids : graph_wf (empty_digraph ids).
Proof.
  split.
  - unfold nodes; simpl. by rewrite !dom_gset_to_gmap.
  - intros a b. unfold edge; simpl. rewrite targets_empty. set_solver.
  - unfold nodes; simpl. intros b. rewrite dom_gset_to_gmap. intros Hb.
    rewrite lookup_gset_to_gmap_Some. split; [done|].
    enough (preds (empty_digraph ids) b = ∅) as -> by done.
    apply set_eq. intros a. rewrite elem_of_preds. unfold edge; simpl.
    rewrite targets_empty. set_solver.
Qed.

Lemma targets_insert adj a X b :
  targets (<[a := X]> adj) b = if decide (a = b) then X else targets adj b.
Proof. unfold targets. rewrite lookup_insert. by case_decide. Qed.

Lemma add_arc_edge g s t a b :
  edge (add_arc g s t) a b ↔ edge g a b ∨ (a = s ∧ b = t).
Proof.
  unfold add_arc. case_decide as Ht; unfold edge in *; simpl.
  - naive_solver.
  - rewrite targets_insert. case_decide; set_solver.
Qed.

Lemma add_arc_nodes g s t : s ∈ nodes g → nodes (add_arc g s t) = nodes g.
Proof.
  unfold add_arc, nodes. case_decide; simpl; [done|].
  rewrite dom_insert_L. set_solver.
Qed.

Lemma add_arc_wf g s t :
  graph_wf g → s ∈ nodes g → t ∈ nodes g → graph_wf (add_arc g s t).
Proof.
  intros [Hdom Harc Hdeg] Hs Ht. pose proof (add_arc_nodes g s t Hs) as Hn.
  split.
  - rewrite Hn. unfold add_arc. case_decide; simpl; [done|].
    rewrite dom_insert_L. set_solver.
  - intros a b. rewrite Hn, add_arc_edge. naive_solver.
  - rewrite Hn. intros b Hb. destruct (decide (edge g s t)) as [He|He].
    + unfold add_arc. rewrite decide_True by exact He. auto.
    + unfold add_arc at 1. rewrite decide_False by exact He. simpl.
      destruct (decide (t = b)) as [<-|Hne].
      * rewrite lookup_insert_eq, Hdeg by done. simpl. f_equal.
        assert (preds (add_arc g s t) t = {[s]} ∪ preds g t) as ->.
        { apply set_eq. intros a. rewrite elem_of_union, elem_of_singleton,
            !elem_of_preds, add_arc_edge. naive_solver. }
        rewrite size_union.
        -- rewrite size_singleton. lia.
        -- intros a Ha%elem_of_singleton Ha'%elem_of_preds. by subst.
      * rewrite lookup_insert_ne, Hdeg by done. do 3 f_equal.
        apply set_eq. intros a. rewrite !elem_of_preds, add_arc_edge. naive_solver.
Qed.

(** Adding a list of arcs between nodes. *)
Definition add_arcs (g : digraph) (arcs : list (string * string)) : digraph :=
  foldl (λ g st, add_arc g st.1 st.2) g arcs.

Lemma add_arcs_spec g arcs :
  graph_wf g → Forall (λ st, st.1 ∈ nodes g ∧ st.2 ∈ nodes g) arcs →
  graph_wf (add_arcs g arcs) ∧ nodes (add_arcs g arcs) = nodes g ∧
  ∀ a b, edge (add_arcs g arcs) a b ↔ edge g a b ∨ (a, b) ∈ arcs.
Proof.
  revert g. induction arcs as [|[s t] arcs IH]; intros g Hwf Hall; simpl.
  - split_and!; [done..|]. set_solver.
  - apply Forall_cons in Hall as [[Hs Ht] Hall]. simpl in *.
    pose proof (add_arc_nodes g s t Hs) as Hn.
    destruct (IH (add_arc g s t)) as (H1 & H2 & H3).
    + by apply add_arc_wf.
    + by rewrite Hn.
    + split_and!; [done|congruence|]. intros a b.
      rewrite H3, add_arc_edge, elem_of_cons. naive_solver.
Qed.

(** ** The inner loop *)

(** The targets whose degree drops to zero. *)
Definition released (indeg : gmap string Z) (T : list string) : list string :=
  filter (λ t, default 0 (indeg !! t) = 1)%Z T.

Lemma released_insert indeg t d T :
  t ∉ T → released (<[t := d]> indeg) T = released indeg T.
Proof.
  unfold released. induction T as [|u T IH]; intros Ht; [done|].
  rewrite !filter_cons, IH, lookup_insert_ne by set_solver. done.
Qed.

Lemma relax_fold T indeg fr :
  NoDup T →
  (∀ x, (foldl relax (indeg, fr) T).1 !! x =
        if decide (x ∈ T) then Some (default 0 (indeg !! x) - 1)%Z else indeg !! x) ∧
  (foldl relax (indeg, fr) T).2 = fr ++ released indeg T.
Proof.
  revert indeg fr. induction T as [|t T IH]; intros indeg fr HND; simpl.
  - split; [|by rewrite app_nil_r]. done.
  - apply NoDup_cons in HND as [Ht HND].
    unfold relax at 2 4; simpl.
    set (d := (default 0 (indeg !! t) - 1)%Z).
    destruct (IH (<[t := d]> indeg)
                (if decide (d = 0%Z) then fr ++ [t] else fr) HND) as [IH1 IH2].
    split.
    + intros x. rewrite IH1. destruct (decide (x = t)) as [->|Hx].
      * rewrite decide_False by done. rewrite lookup_insert_eq.
        by rewrite decide_True by set_solver.
      * rewrite lookup_insert_ne by done.
        destruct (decide (x ∈ T)); [rewrite decide_True by set_solver; done|].
        by rewrite decide_False by set_solver.
    + rewrite IH2, released_insert by done. unfold released. rewrite filter_cons.
      repeat case_decide; [by rewrite <- app_assoc|lia|lia|done].
Qed.

(** ** The invariant of the outer loop *)

Record kahn_inv (g : digraph) (indeg : gmap string Z) (frontier ordered : list string) : Prop := {
  ki_deg : ∀ b, b ∈ nodes g →
    indeg !! b = Some (Z.of_nat (size (preds g b ∖ list_to_set ordered)));
  ki_nodup : NoDup (ordered ++ frontier);
  ki_nodes : ∀ b, b ∈ ordered ++ frontier → b ∈ nodes g;
  ki_ready : ∀ b, b ∈ nodes g →
    b ∈ ordered ++ frontier ↔ preds g b ⊆ list_to_set ordered;
  ki_topo : topological g ordered;
}.

Lemma difference_empty_subseteq (X Y : gset string) : X ∖ Y = ∅ ↔ X ⊆ Y.
Proof.
  split; intros H; [|set_solver]. intros a Ha.
  destruct (decide (a ∈ Y)); set_solver.
Qed.

Lemma topological_snoc g l x :
  topological g l → (∀ a, edge g a x → a ∈ l) → topological g (l ++ [x]).
Proof.
  intros Hl Hx l1 b l2 Heq a Ha.
  destruct l2 as [|y l2 _] using rev_ind.
  - apply app_inj_tail in Heq as [-> ->]. by apply Hx.
  - rewrite app_comm_cons, app_assoc in Heq. apply app_inj_tail in Heq as [-> _].
    by eapply Hl.
Qed.

Lemma size_difference_snoc (P : gset string) l x :
  x ∈ P → x ∉ l →
  size (P ∖ list_to_set l) = S (size (P ∖ list_to_set (l ++ [x]))).
Proof.
  intros HP Hl.
  assert (P ∖ list_to_set l = {[x]} ∪ P ∖ list_to_set (l ++ [x])) as ->.
  { apply set_eq. intros y. rewrite list_to_set_app_L. simpl.
    destruct (decide (y = x)); set_solver. }
  rewrite size_union, size_singleton; [lia|].
  rewrite list_to_set_app_L. set_solver.
Qed.

Lemma difference_snoc_eq (P : gset string) l x :
  x ∉ P → P ∖ list_to_set (l ++ [x]) = P ∖ list_to_set l.
Proof. intros Hx. rewrite list_to_set_app_L. set_solver. Qed.

Lemma initial_frontier_elem indeg b :
  b ∈ initial_frontier indeg ↔ indeg !! b = Some 0%Z.
Proof.
  unfold initial_frontier. rewrite elem_of_py_sorted, list_elem_of_fmap. split.
  - intros ([k d] & -> & H). apply elem_of_map_to_list in H.
    apply map_lookup_filter_Some in H as [? ?]. naive_solver.
  - intros H. exists (b, 0%Z). split; [done|]. apply elem_of_map_to_list.
    by apply map_lookup_filter_Some.
Qed.

Lemma NoDup_initial_frontier indeg : NoDup (initial_frontier indeg).
Proof. apply NoDup_py_sorted, NoDup_fst_map_to_list. Qed.

Lemma kahn_inv_init g :
  graph_wf g → kahn_inv g (in_degree g) (initial_frontier (in_degree g)) [].
Proof.
  intros [Hdom Harc Hdeg]. split; simpl.
  - intros b Hb. rewrite Hdeg by done. by rewrite difference_empty_L.
  - apply NoDup_initial_frontier.
  - intros b Hb%initial_frontier_elem. rewrite <- Hdom. by eapply elem_of_dom_2.
  - intros b Hb. rewrite initial_frontier_elem, Hdeg by done. split.
    + intros [= H]. assert (size (preds g b) = 0) as H0%size_empty_inv by lia. set_solver.
    + intros H. assert (preds g b = ∅) as -> by set_solver. done.
  - intros [|? ?] ? ? ?; done.
Qed.

Lemma elem_of_released g indeg frontier ordered current t :
  kahn_inv g indeg frontier ordered → graph_wf g → current ∉ ordered →
  t ∈ released indeg (sorted_set (targets (adjacency g) current)) ↔
  edge g current t ∧ preds g t ∖ list_to_set (ordered ++ [current]) = ∅.
Proof.
  intros Hinv Hwf Hc. unfold released.
  rewrite list_elem_of_filter, elem_of_sorted_set.
  change (t ∈ targets (adjacency g) current) with (edge g current t).
  split; intros [H1 H2]; [split; [done|] | split; [|done]].
  - rewrite (ki_deg _ _ _ _ Hinv t) in H1 by (by eapply wf_arc). simpl in H1.
    rewrite (size_difference_snoc _ _ current) in H1
      by (by rewrite ?elem_of_preds).
    apply leibniz_equiv, size_empty_inv. lia.
  - rewrite (ki_deg _ _ _ _ Hinv t) by (by eapply wf_arc). simpl.
    rewrite (size_difference_snoc _ _ current) by (by rewrite ?elem_of_preds).
    rewrite H2, size_empty. done.
Qed.

Lemma kahn_inv_deg_step g indeg current rest ordered b :
  graph_wf g → kahn_inv g indeg (current :: rest) ordered → b ∈ nodes g →
  (foldl relax (indeg, rest) (sorted_set (targets (adjacency g) current))).1 !! b =
  Some (Z.of_nat (size (preds g b ∖ list_to_set (ordered ++ [current])))).
Proof.
  intros Hwf Hinv Hb.
  assert (current ∉ ordered) as Hco.
  { pose proof (ki_nodup _ _ _ _ Hinv) as H. apply NoDup_app in H. set_solver. }
  destruct (relax_fold (sorted_set (targets (adjacency g) current)) indeg rest
              (NoDup_sorted_set _)) as [-> _].
  rewrite (ki_deg _ _ _ _ Hinv b Hb). simpl. case_decide as Ht.
  - apply elem_of_sorted_set in Ht. f_equal.
    rewrite (size_difference_snoc _ _ current); [lia| |done].
    by apply elem_of_preds.
  - rewrite elem_of_sorted_set in Ht. by rewrite difference_snoc_eq by
      (by rewrite elem_of_preds).
Qed.

Lemma kahn_inv_step g indeg current rest ordered :
  graph_wf g → kahn_inv g indeg (current :: rest) ordered →
  let st := foldl relax (indeg, rest) (sorted_set (targets (adjacency g) current)) in
  kahn_inv g st.1 (py_sorted st.2) (ordered ++ [current]).
Proof.
  intros Hwf Hinv. simpl.
  pose proof (λ b, kahn_inv_deg_step g indeg current rest ordered b Hwf Hinv) as Hdeg.
  destruct (relax_fold (sorted_set (targets (adjacency g) current)) indeg rest
              (NoDup_sorted_set _)) as [_ Hfr].
  revert Hdeg Hfr. generalize (foldl relax (indeg, rest)
    (sorted_set (targets (adjacency g) current))). intros [ind' fr'] Hdeg Hfr.
  simpl in *. subst fr'.
  pose proof Hinv as [_ HND Hnodes Hready Htopo].
  assert (current ∈ nodes g) as Hcn by (apply Hnodes; set_solver).
  assert (preds g current ⊆ list_to_set ordered) as Hcp by (apply Hready; set_solver).
  assert (current ∉ ordered) as Hco by (apply NoDup_app in HND; set_solver).
  pose proof (λ t, elem_of_released g indeg _ _ current t Hinv Hwf Hco) as Hrel.
  assert (∀ t, t ∈ released indeg (sorted_set (targets (adjacency g) current)) →
               t ∉ ordered ++ current :: rest) as Hfresh.
  { intros t [Ht _]%Hrel Hin. apply Hready in Hin; [|by eapply wf_arc].
    apply Hco. apply elem_of_preds in Ht. set_solver. }
  assert (NoDup ((ordered ++ [current]) ++ rest ++
            released indeg (sorted_set (targets (adjacency g) current)))) as HND'.
  { rewrite <- app_assoc. simpl. rewrite app_comm_cons, app_assoc.
    apply NoDup_app. split_and!; [done|set_solver|].
    unfold released. apply NoDup_filter, NoDup_sorted_set. }
  split.
  - done.
  - by rewrite py_sorted_perm.
  - intros b. rewrite py_sorted_perm, !elem_of_app. intros [[?|?]|[?|Hb]].
    1-3: apply Hnodes; set_solver.
    apply Hrel in Hb as [? _]. by eapply wf_arc.
  - intros b Hb. rewrite py_sorted_perm, !elem_of_app, Hrel.
    specialize (Hready b Hb). rewrite list_to_set_app_L. simpl.
    rewrite elem_of_app, elem_of_cons in Hready.
    rewrite list_elem_of_singleton. split.
    + intros H. destruct (decide (b ∈ ordered ∨ b = current ∨ b ∈ rest)) as [Hd|Hd].
      * etrans; [by apply Hready | apply union_subseteq_l].
      * assert (preds g b ∖ (list_to_set ordered ∪ ({[current]} ∪ ∅)) = ∅) as He by tauto.
        by apply difference_empty_subseteq.
    + intros Hsub. destruct (decide (edge g current b)) as [He|He].
      * right; right. split; [done|]. by apply difference_empty_subseteq.
      * assert (preds g b ⊆ list_to_set ordered) as Hin.
        { intros a Ha. assert (a ≠ current) by
            (intros ->; by apply elem_of_preds in Ha).
          clear -Hsub Ha H. set_solver. }
        apply Hready in Hin. tauto.
  - apply topological_snoc; [done|]. intros a Ha%elem_of_preds.
    apply Hcp in Ha. by apply elem_of_list_to_set in Ha.
Qed.

(** ** A finite set in which every element has a predecessor holds a cycle *)

Section cycle.
Context (R : relation string).

(** [l] is a walk backwards along [R]: each element is entered from the next. *)
Fixpoint walk (l : list string) : Prop :=
  match l with
  | x :: ((y :: _) as l') => R y x ∧ walk l'
  | _ => True
  end.

Lemma walk_tc x l y : walk (x :: l ++ [y]) → tc R y x.
Proof.
  revert x. induction l as [|z l IH]; intros x; simpl.
  - intros [? _]. by apply tc_once.
  - intros [Hzx Hw]. apply tc_r with z; [|done]. by apply IH.
Qed.

Lemma walk_app_r l1 l2 : walk (l1 ++ l2) → walk l2.
Proof.
  induction l1 as [|x [|y l1] IH]; simpl; [done| |].
  - destruct l2; simpl; naive_solver.
  - intros [_ H]. by apply IH.
Qed.

Lemma walk_app_l l1 l2 : walk (l1 ++ l2) → walk l1.
Proof.
  induction l1 as [|x [|y l1] IH]; simpl; [done|done|].
  intros [? H]. split; [done|]. by apply IH.
Qed.

Lemma walk_exists (X : gset string) x n :
  (∀ x, x ∈ X → ∃ y, y ∈ X ∧ R y x) → x ∈ X →
  ∃ l, walk (x :: l) ∧ length l = n ∧ ∀ y, y ∈ x :: l → y ∈ X.
Proof.
  intros HX. revert x. induction n as [|n IH]; intros x Hx.
  - exists []. set_solver.
  - destruct (HX x Hx) as (y & Hy & Hyx). destruct (IH y Hy) as (l & Hw & Hl & Hin).
    exists (y :: l). split_and!; [done|simpl; lia|]. set_solver.
Qed.

Lemma not_NoDup_split (l : list string) :
  ¬ NoDup l → ∃ x l1 l2 l3, l = l1 ++ x :: l2 ++ x :: l3.
Proof.
  induction l as [|x l IH]; intros HND; [by destruct HND; constructor|].
  destruct (decide (x ∈ l)) as [Hx|Hx].
  - apply list_elem_of_split in Hx as (l1 & l2 & ->). by exists x, [], l1, l2.
  - destruct IH as (y & l1 & l2 & l3 & ->).
    + intros H. by destruct HND; constructor.
    + by exists y, (x :: l1), l2, l3.
Qed.

Lemma finite_cycle (X : gset string) x :
  (∀ x, x ∈ X → ∃ y, y ∈ X ∧ R y x) → x ∈ X → ∃ z, tc R z z.
Proof.
  intros HX Hx. destruct (walk_exists X x (size X) HX Hx) as (l & Hw & Hl & Hin).
  destruct (decide (NoDup (x :: l))) as [HND|HND].
  - exfalso. assert (length (x :: l) ≤ size X) as Hle.
    { rewrite <- (size_list_to_set (C:=gset string)) by done.
      apply subseteq_size. intros y Hy. apply Hin. by apply elem_of_list_to_set in Hy. }
    simpl in Hle. lia.
  - apply not_NoDup_split in HND as (z & l1 & l2 & l3 & Heq).
    exists z. apply (walk_tc z l2 z).
    rewrite Heq in Hw. apply walk_app_r in Hw.
    apply (walk_app_l _ l3). simpl. by rewrite <- app_assoc.
Qed.
End cycle.

(** ** The loop as a whole *)

Lemma kahn_inv_length g indeg frontier ordered :
  kahn_inv g indeg frontier ordered → length ordered + length frontier ≤ size (nodes g).
Proof.
  intros Hinv. rewrite <- length_app.
  rewrite <- (size_list_to_set (C:=gset string)) by apply (ki_nodup _ _ _ _ Hinv).
  apply subseteq_size. intros b Hb%elem_of_list_to_set. by eapply ki_nodes.
Qed.

Lemma kahn_loop_result fuel g indeg frontier ordered :
  graph_wf g → kahn_inv g indeg frontier ordered →
  size (nodes g) < fuel + length ordered →
  ∃ l ind', kahn_loop fuel (adjacency g) indeg frontier ordered = Some l ∧
            kahn_inv g ind' [] l.
Proof.
  intros Hwf. revert indeg frontier ordered.
  induction fuel as [|fuel IH]; intros indeg frontier ordered Hinv Hfuel; simpl.
  - pose proof (kahn_inv_length _ _ _ _ Hinv). simpl in *. lia.
  - destruct frontier as [|current rest]; [eauto|].
    pose proof (kahn_inv_step _ _ _ _ _ Hwf Hinv) as Hstep. simpl in Hstep.
    destruct (foldl relax _ _) as [ind' fr']. simpl in Hstep.
    apply IH; [done|]. rewrite length_app. simpl. lia.
Qed.

(** The loop ends within its fuel; what it returns has no repetition, lists
    nodes only, respects the arcs, and contains exactly the nodes whose
    predecessors it contains. *)
Lemma kahn_order_result g :
  graph_wf g →
  ∃ l, kahn_order g = Some l ∧ NoDup l ∧ (∀ b, b ∈ l → b ∈ nodes g) ∧
       topological g l ∧
       (∀ b, b ∈ nodes g → b ∈ l ↔ preds g b ⊆ list_to_set l).
Proof.
  intros Hwf.
  destruct (kahn_loop_result (S (size (adjacency g))) g _ _ [] Hwf
              (kahn_inv_init g Hwf)) as (l & ind' & Hl & Hinv).
  { unfold nodes. rewrite size_dom. simpl. lia. }
  destruct Hinv as [_ HND Hn Hr Ht]. rewrite app_nil_r in HND.
  setoid_rewrite app_nil_r in Hn. setoid_rewrite app_nil_r in Hr.
  exists l. split_and!; done.
Qed.

Lemma tc_last {R : relation string} x y : tc R x y → ∃ z, R z y.
Proof. induction 1; eauto. Qed.

Lemma topological_acyclic g l :
  topological g l → NoDup l → (∀ b, b ∈ nodes g → b ∈ l) → graph_wf g → acyclic g.
Proof.
  intros Htop HND Hall Hwf a Hcyc.
  assert (∀ x y, tc (edge g) x y → ∀ l1 l2, l = l1 ++ y :: l2 → x ∈ l1) as Hbefore.
  { intros x y Hxy. induction Hxy as [x y Hxy|x y z Hxy Hyz IH]; intros l1 l2 ->.
    - by eapply Htop.
    - specialize (IH l1 l2 eq_refl). apply list_elem_of_split in IH as (l3 & l4 & ->).
      apply elem_of_app. left. eapply (Htop l3 y (l4 ++ z :: l2)); [|done].
      by rewrite <- app_assoc. }
  assert (a ∈ l) as Ha.
  { apply Hall. destruct (tc_last _ _ Hcyc) as [y Hy]. by eapply wf_arc. }
  apply list_elem_of_split in Ha as (l1 & l2 & ->).
  pose proof (Hbefore a a Hcyc l1 l2 eq_refl) as Hin.
  apply NoDup_app in HND as (_ & Hdisj & _). by apply (Hdisj a Hin); left.
Qed.

(** Every node is ordered exactly when there is no cycle. *)
Theorem kahn_order_acyclic g :
  graph_wf g →
  ∃ l, kahn_order g = Some l ∧ NoDup l ∧ topological g l ∧
       (∀ b, b ∈ l → b ∈ nodes g) ∧
       (length l = size (nodes g) ↔ acyclic g) ∧
       (length l = size (nodes g) → ∀ b, b ∈ nodes g → b ∈ l).
Proof.
  intros Hwf. destruct (kahn_order_result g Hwf) as (l & Hl & HND & Hn & Ht & Hr).
  assert (length l = size (nodes g) → ∀ b, b ∈ nodes g → b ∈ l) as Hfull.
  { intros Hlen b Hb. rewrite <- (elem_of_list_to_set (C:=gset string)).
    assert (list_to_set l = nodes g) as ->; [|done].
    apply set_subseteq_size_eq; [intros x Hx%elem_of_list_to_set; by apply Hn|].
    by rewrite size_list_to_set, Hlen. }
  exists l. split_and!; try done. split.
  - intros Hlen. eapply topological_acyclic; eauto.
  - intros Hac. rewrite <- (size_list_to_set (C:=gset string)) by done.
    f_equal. apply set_eq. intros b. rewrite elem_of_list_to_set. split; [by apply Hn|].
    intros Hb. destruct (decide (b ∈ l)) as [|Hnin]; [done|]. exfalso.
    destruct (finite_cycle (edge g) (nodes g ∖ list_to_set l) b) as [z Hz].
    + intros x [Hx Hxl]%elem_of_difference. rewrite elem_of_list_to_set in Hxl.
      rewrite Hr in Hxl by done.
      destruct (decide (preds g x ∖ list_to_set l = ∅)) as [He|He].
      { by apply difference_empty_subseteq in He. }
      apply set_choose_L in He as [y Hy]. apply elem_of_difference in Hy as [Hy1 Hy2].
      apply elem_of_preds in Hy1. exists y. split; [|done].
      apply elem_of_difference. split; [by eapply edge_source|done].
    + set_solver.
    + by apply (Hac z).
Qed.

(** ** Position in an order *)

(** [a] occurs in [l] before an occurrence of [b]. *)
Definition before {A} (l : list A) (a b : A) : Prop :=
  ∃ l1 l2 l3, l = l1 ++ a :: l2 ++ b :: l3.

Lemma topological_before g l a b : topological g l → edge g a b → b ∈ l → before l a b.
Proof.
  intros Ht He Hb. apply list_elem_of_split in Hb as (l1 & l2 & ->).
  assert (a ∈ l1) as Ha by (by eapply Ht).
  apply list_elem_of_split in Ha as (l3 & l4 & ->).
  exists l3, l4, l2. by rewrite <- app_assoc.
Qed.

Lemma before_NoDup_asym {A} (l : list A) a b : NoDup l → before l a b → ¬ before l b a.
Proof.
  intros HND (l1 & l2 & l3 & ->) (k1 & k2 & k3 & Heq).
  assert (∀ i j : nat, (l1 ++ a :: l2 ++ b :: l3) !! i = Some a →
    (l1 ++ a :: l2 ++ b :: l3) !! j = Some b → i < j) as H.
  { intros i j Hi Hj.
    assert (i = length l1) as -> by (eapply NoDup_lookup; [done..|by rewrite lookup_app_r, Nat.sub_diag]).
    assert (j = length l1 + S (length l2)) as ->; [|lia].
    eapply NoDup_lookup; [done..|]. rewrite lookup_app_r by lia.
    replace (length l1 + S (length l2) - length l1) with (S (length l2)) by lia. simpl.
    by rewrite lookup_app_r, Nat.sub_diag. }
  specialize (H (length k1 + S (length k2)) (length k1)). rewrite Heq in H.
  assert (length k1 + S (length k2) < length k1) as Hlt; [|lia]. apply H.
  - rewrite lookup_app_r by lia.
    replace (length k1 + S (length k2) - length k1) with (S (length k2)) by lia. simpl.
    by rewrite lookup_app_r, Nat.sub_diag.
  - by rewrite lookup_app_r, Nat.sub_diag.
Qed.
