(* ===== verification/Values.v ===== *)
(** JSON-shaped Python values: what tool arguments, schemas, checkpoint
    payloads and HTTP bodies are made of.  A [float] is its exact rational
    value (the infinities and NaN, which JSON does not have, are not values
    here); a [dict] keeps its insertion order. *)
From stdpp Require Import options.
From Stdlib Require Export QArith Qround Qminmax.
From S2P Require Import Prelude.
Close Scope Q_scope.

Inductive pyval : Type :=
  | PNone
  | PBool (b : bool)
  | PInt (z : Z)
  | PFloat (q : Q)
  | PStr (s : string)
  | PList (l : list pyval)
  | PDict (d : list (string * pyval)).

(** Induction with the hypothesis for every element of a list or dict. *)
Section pyval_ind.
Variable P : pyval → Prop.
Hypothesis HNone : P PNone.
Hypothesis HBool : ∀ b, P (PBool b).
Hypothesis HInt : ∀ z, P (PInt z).
Hypothesis HFloat : ∀ q, P (PFloat q).
Hypothesis HStr : ∀ s, P (PStr s).
Hypothesis HList : ∀ l, Forall P l → P (PList l).
Hypothesis HDict : ∀ d, Forall (λ kv, P kv.2) d → P (PDict d).

Fixpoint pyval_rect_nested (v : pyval) : P v :=
  match v with
  | PNone => HNone
  | PBool b => HBool b
  | PInt z => HInt z
  | PFloat q => HFloat q
  | PStr s => HStr s
  | PList l => HList l
      ((fix go l : Forall P l :=
        match l with
        | [] => Forall_nil_2 _
        | v :: l => Forall_cons_2 _ _ _ (pyval_rect_nested v) (go l)
        end) l)
  | PDict d => HDict d
      ((fix go d : Forall (λ kv, P kv.2) d :=
        match d with
        | [] => Forall_nil_2 _
        | kv :: d => Forall_cons_2 _ kv d (pyval_rect_nested kv.2) (go d)
        end) d)
  end.
End pyval_ind.

#[global] Instance Q_eq_dec_leibniz : EqDecision Q.
Proof. solve_decision. Defined.

#[global] Instance pyval_eq_dec : EqDecision pyval.
Proof.
  refine (fix go (v w : pyval) : {v = w} + {v ≠ w} :=
    match v, w with
    | PNone, PNone => left _
    | PBool a, PBool b => cast_if (decide (a = b))
    | PInt a, PInt b => cast_if (decide (a = b))
    | PFloat a, PFloat b => cast_if (decide (a = b))
    | PStr a, PStr b => cast_if (decide (a = b))
    | PList a, PList b =>
        cast_if ((fix lgo (a b : list pyval) : {a = b} + {a ≠ b} :=
          match a, b with
          | [], [] => left _
          | x :: a, y :: b => cast_if_and (go x y) (lgo a b)
          | _, _ => right _
          end) a b)
    | PDict a, PDict b =>
        cast_if ((fix dgo (a b : list (string * pyval)) : {a = b} + {a ≠ b} :=
          match a, b with
          | [], [] => left _
          | (k, x) :: a, (k', y) :: b =>
              cast_if_and3 (decide (k = k')) (go x y) (dgo a b)
          | _, _ => right _
          end) a b)
    | _, _ => right _
    end); try clear lgo; try clear dgo; clear go; abstract congruence.
Defined.

(** [bool(v)] *)
Definition py_truthy (v : pyval) : bool :=
  match v with
  | PNone => false
  | PBool b => b
  | PInt z => negb (z =? 0)%Z
  | PFloat q => negb (Qeq_bool q 0)
  | PStr s => negb (bool_decide (s = ""))
  | PList l => match l with [] => false | _ => true end
  | PDict d => match d with [] => false | _ => true end
  end.

(** The number a value stands for in comparisons: [True == 1 == 1.0]. *)
Definition py_num (v : pyval) : option Q :=
  match v with
  | PBool b => Some (if b then 1 else 0)%Q
  | PInt z => Some (inject_Z z)
  | PFloat q => Some q
  | _ => None
  end.

(** [v == w] *)
Fixpoint py_eqb (v w : pyval) {struct v} : bool :=
  match v, w with
  | PNone, PNone => true
  | PStr a, PStr b => bool_decide (a = b)
  | PList a, PList b =>
      (fix go a b :=
        match a, b with
        | [], [] => true
        | x :: a, y :: b => py_eqb x y && go a b
        | _, _ => false
        end) a b
  | PDict a, PDict b =>
      (length a =? length b) &&
      (fix go a :=
        match a with
        | [] => true
        | (k, x) :: a =>
            match dict_get b k with Some y => py_eqb x y | None => false end && go a
        end) a
  | _, _ =>
      match py_num v, py_num w with
      | Some p, Some q => Qeq_bool p q
      | _, _ => false
      end
  end.

(** [d.get(k)] on a value that [isinstance(_, dict)] *)
Definition py_get (v : pyval) (k : string) : option pyval :=
  match v with PDict d => dict_get d k | _ => None end.

Definition is_dict (v : pyval) : bool := match v with PDict _ => true | _ => false end.
Definition is_list (v : pyval) : bool := match v with PList _ => true | _ => false end.
Definition is_str (v : pyval) : bool := match v with PStr _ => true | _ => false end.

(** [value.get(part) if isinstance(value, dict) else None], part after part:
    once a part does not apply the value is [None] and the walk stops. *)
Fixpoint py_walk (v : pyval) (parts : list string) : pyval :=
  match parts with
  | [] => v
  | part :: parts =>
      match v with
      | PDict d => py_walk (default PNone (dict_get d part)) parts
      | _ => PNone
      end
  end.

(** [type(v).__name__] *)
Definition type_name (v : pyval) : string :=
  match v with
  | PNone => "NoneType" | PBool _ => "bool" | PInt _ => "int" | PFloat _ => "float"
  | PStr _ => "str" | PList _ => "list" | PDict _ => "dict"
  end.

Definition py_type_error (m : string) : exn := Exn TypeError m.
Definition attribute_error (m : string) : exn := Exn (OtherError "AttributeError") m.

(** [v.get(k)]: only dictionaries have it. *)
Definition attr_get (v : pyval) (k : string) : result (option pyval) :=
  match v with
  | PDict d => Ok (dict_get d k)
  | _ => Raise (attribute_error ("'" +:+ type_name v +:+ "' object has no attribute 'get'"))
  end.

(** The values a [for] loop over [v] takes. *)
Definition py_iter (v : pyval) : result (list pyval) :=
  match v with
  | PList l => Ok l
  | PDict d => Ok ((λ kv, PStr kv.1) <$> d)
  | PStr s => Ok ((λ c, PStr (String c "")) <$> String.list_ascii_of_string s)
  | _ => Raise (py_type_error ("'" +:+ type_name v +:+ "' object is not iterable"))
  end.

(** [s in t] on strings *)
Fixpoint py_substring (s t : string) : bool :=
  py_startswith t s ||
  match t with EmptyString => false | String _ t' => py_substring s t' end.

Lemma substring_app s t : py_substring s t = true → ∃ a b, t = a +:+ s +:+ b.
Proof.
  induction t as [|c t IH]; cbn [py_substring]; rewrite orb_true_iff; intros [H|H]; try (apply py_startswith_spec in H as [b ->]; by exists "", b); [done|].
  destruct (IH H) as (a & b & ->). by exists (String c a), b.
Qed.
Lemma app_substring a s b : py_substring s (a +:+ s +:+ b) = true.
Proof.
  induction a as [|c a IH].
  - change ("" +:+ s +:+ b) with (s +:+ b). destruct (s +:+ b) as [|c t] eqn:E; cbn [py_substring]; apply orb_true_iff; left; apply py_startswith_spec; exists b; by rewrite E.
  - change (String c a +:+ s +:+ b) with (String c (a +:+ s +:+ b)). cbn [py_substring]. by rewrite IH, orb_true_r.
Qed.

(** [x in v] *)
Definition py_in (x v : pyval) : result bool :=
  match v with
  | PList l => Ok (existsb (py_eqb x) l)
  | PDict d =>
      match x with
      | PStr k => Ok (negb (is_None (dict_get d k)))
      | PList _ | PDict _ => Raise (py_type_error ("unhashable type: '" +:+ type_name x +:+ "'"))
      | _ => Ok false
      end
  | PStr t =>
      match x with
      | PStr s => Ok (py_substring s t)
      | _ => Raise (py_type_error "'in <string>' requires string as left operand")
      end
  | _ => Raise (py_type_error ("argument of type '" +:+ type_name v +:+ "' is not iterable"))
  end.

(** [v < w] between a number and a value; text has no order with numbers. *)
Definition py_lt_num (v w : pyval) : result bool :=
  match py_num v, py_num w with
  | Some p, Some q => Ok (negb (Qle_bool q p))
  | _, _ => Raise (py_type_error "'<' not supported between these types")
  end.

(** [len(v)] of a string, list or dictionary. *)
Definition py_len (v : pyval) : Z :=
  match v with
  | PStr s => Z.of_nat (String.length s)
  | PList l => Z.of_nat (length l)
  | PDict d => Z.of_nat (length d)
  | _ => 0
  end.

Lemma py_eqb_str a b : py_eqb (PStr a) (PStr b) = bool_decide (a = b).
Proof. reflexivity. Qed.
