(* ===== verification/Json.v ===== *)
(** Texts of JSON-shaped values: [repr], [str] and [json.dumps], with the
    canonical form [json.dumps(_, sort_keys=True)] that the program hashes.
    Python's shortest decimal text of a [float] is a parameter. *)
From stdpp Require Import options.
From S2P Require Import Prelude Values.
From Stdlib Require Ascii.

(** ** Characters *)
Definition code (c : ascii) : nat := Ascii.nat_of_ascii c.

Definition hex_digit (n : nat) : ascii :=
  Ascii.ascii_of_nat (if n <? 10 then 48 + n else 87 + n).

(** [f"{n:02x}"] *)
Definition hex2 (n : nat) : string :=
  String (hex_digit (n / 16)) (String (hex_digit (n mod 16)) "").

Definition char_str (c : ascii) : string := String c "".

(** Python string concatenation of a text per character. *)
Fixpoint concat_map_str (f : ascii → string) (s : string) : string :=
  match s with
  | EmptyString => ""
  | String c s => f c +:+ concat_map_str f s
  end.

(** [str.isprintable] on code points below 256. *)
Definition printable (c : ascii) : bool :=
  let n := code c in
  ((32 <=? n) && (n <=? 126)) || ((161 <=? n) && negb (n =? 173)).

Definition has_char (n : nat) (s : string) : bool :=
  existsb (λ c, code c =? n) (String.list_ascii_of_string s).

(** [repr(s)] for a string: single quotes unless it contains one and no
    double quote. *)
Definition repr_char (quote : nat) (c : ascii) : string :=
  let n := code c in
  if (n =? quote) || (n =? 92) then String (Ascii.ascii_of_nat 92) (char_str c)
  else if n =? 9 then "\t" else if n =? 10 then "\n" else if n =? 13 then "\r"
  else if printable c then char_str c else "\x" +:+ hex2 n.

Definition repr_str (s : string) : string :=
  let quote := if has_char 39 s && negb (has_char 34 s) then 34 else 39 in
  let q := char_str (Ascii.ascii_of_nat quote) in
  q +:+ concat_map_str (repr_char quote) s +:+ q.

(** [str(exc)]: a [KeyError] shows the [repr] of its message. *)
Definition exn_str (e : exn) : string :=
  match exn_cls e with KeyError => repr_str (exn_msg e) | _ => exn_msg e end.

(** A JSON string, non-ASCII escaped ([ensure_ascii=True]). *)
Definition json_char (c : ascii) : string :=
  let n := code c in
  if (n =? 34) || (n =? 92) then String (Ascii.ascii_of_nat 92) (char_str c)
  else if n =? 8 then "\b" else if n =? 9 then "\t" else if n =? 10 then "\n"
  else if n =? 12 then "\f" else if n =? 13 then "\r"
  else if (32 <=? n) && (n <=? 126) then char_str c else "\u00" +:+ hex2 n.

Definition json_str (s : string) : string :=
  let q := char_str (Ascii.ascii_of_nat 34) in q +:+ concat_map_str json_char s +:+ q.

(** [d[k] for k in sorted(d)] on rendered entries. *)
Definition sort_entries (d : list (string * string)) : list (string * string) :=
  omap (λ k, (λ v, (k, v)) <$> dict_get d k) (py_sorted d.*1).

Section texts.
Context (float_repr : Q → string).

Definition bool_repr (b : bool) : string := if b then "True" else "False".

(** [repr(v)] *)
Fixpoint py_repr (v : pyval) : string :=
  match v with
  | PNone => "None"
  | PBool b => bool_repr b
  | PInt z => pretty z
  | PFloat q => float_repr q
  | PStr s => repr_str s
  | PList l => "[" +:+ py_join ", " (py_repr <$> l) +:+ "]"
  | PDict d => "{" +:+ py_join ", " ((λ kv, repr_str kv.1 +:+ ": " +:+ py_repr kv.2) <$> d) +:+ "}"
  end.

(** [str(v)] *)
Definition py_str (v : pyval) : string :=
  match v with PStr s => s | _ => py_repr v end.

(** [json.dumps(v, sort_keys=sort, separators=(comma, colon))], with the text
    of a string. *)
Section dumps.
Context (text : string → string) (sort : bool) (comma colon : string).
Fixpoint json_dumps_as (v : pyval) : string :=
  match v with
  | PNone => "null"
  | PBool b => if b then "true" else "false"
  | PInt z => pretty z
  | PFloat q => float_repr q
  | PStr s => text s
  | PList l => "[" +:+ py_join comma (json_dumps_as <$> l) +:+ "]"
  | PDict d =>
      let entries := (λ kv, (kv.1, json_dumps_as kv.2)) <$> d in
      let entries := if sort then sort_entries entries else entries in
      "{" +:+ py_join comma ((λ kv, text kv.1 +:+ colon +:+ kv.2) <$> entries) +:+ "}"
  end.
End dumps.
Definition json_dumps_with := json_dumps_as json_str.

(** [json.dumps(v)], and with [sort_keys=True]. *)
Definition json_dumps := json_dumps_with false ", " ": ".
Definition json_dumps_sorted := json_dumps_with true ", " ": ".
End texts.

(** ** [int(text)] *)

(** The digits of [int(text)]: underscores may separate digits. *)
Fixpoint int_digits (acc : Z) (after_digit : bool) (s : string) : option Z :=
  match s with
  | EmptyString => if after_digit then Some acc else None
  | String c s =>
      let n := Z.of_nat (code c) in
      if ((48 <=? n) && (n <=? 57))%Z then int_digits (acc * 10 + (n - 48)) true s
      else if (n =? 95)%Z && after_digit then
        match s with EmptyString => None | _ => int_digits acc false s end
      else None
  end.

(** [int(text)] for stripped text; [None] is a [ValueError]. *)
Definition int_of_str (s : string) : option Z :=
  match s with
  | String "-"%char s => Z.opp <$> int_digits 0 false s
  | String "+"%char s => int_digits 0 false s
  | s => int_digits 0 false s
  end.

Lemma int_digits_char acc b n s :
  (n < 10)%N →
  int_digits acc b (String (pretty_N_char n) s) = int_digits (acc * 10 + Z.of_N n) true s.
Proof.
  intros Hn.
  assert (n ∈ [0;1;2;3;4;5;6;7;8;9])%N as Hin.
  { rewrite !elem_of_cons. lia. }
  repeat (apply elem_of_cons in Hin as [->|Hin]; [reflexivity|]). by apply elem_of_nil in Hin.
Qed.

Lemma int_digits_go x s b : (0 < x)%N →
  int_digits 0 b (pretty_N_go x s) = int_digits (Z.of_N x) true s.
Proof.
  revert s b. induction (N.lt_wf_0 x) as [x _ IH]. intros s b Hx.
  rewrite pretty_N_go_step by done.
  assert (Hm : (x `mod` 10 < 10)%N) by (apply N.mod_lt; lia).
  pose proof (N.div_mod x 10 ltac:(lia)) as Hdm.
  destruct (decide (x `div` 10 = 0)%N) as [Hz|Hnz].
  - rewrite Hz, pretty_N_go_0, int_digits_char by done. f_equal. lia.
  - rewrite IH; [|apply N.div_lt; lia|lia]. rewrite int_digits_char by done. f_equal. lia.
Qed.

Lemma pretty_N_go_head x s : (0 < x)%N → ∃ n s', (n < 10)%N ∧
  pretty_N_go x s = String (pretty_N_char n) s'.
Proof.
  revert s. induction (N.lt_wf_0 x) as [x _ IH]. intros s Hx.
  rewrite pretty_N_go_step by done.
  assert (Hm : (x `mod` 10 < 10)%N) by (apply N.mod_lt; lia).
  destruct (decide (x `div` 10 = 0)%N) as [Hz|Hnz].
  - rewrite Hz, pretty_N_go_0. eauto.
  - apply IH; [apply N.div_lt; lia|by apply N.neq_0_lt_0].
Qed.

Lemma int_of_str_digit n s : (n < 10)%N →
  int_of_str (String (pretty_N_char n) s) = int_digits 0 false (String (pretty_N_char n) s).
Proof.
  intros Hn.
  assert (n ∈ [0;1;2;3;4;5;6;7;8;9])%N as Hin.
  { rewrite !elem_of_cons. lia. }
  repeat (apply elem_of_cons in Hin as [->|Hin]; [reflexivity|]). by apply elem_of_nil in Hin.
Qed.

(** [int(str(z)) == z] *)
Lemma int_of_str_pretty (z : Z) : int_of_str (pretty z) = Some z.
Proof.
  destruct z as [|p|p]; [reflexivity| |].
  - change (pretty (Z.pos p)) with (pretty (N.pos p)). unfold pretty, pretty_N.
    rewrite decide_False by done.
    destruct (pretty_N_go_head (N.pos p) "" ltac:(lia)) as (n & s' & Hn & Hs).
    rewrite Hs, int_of_str_digit, <- Hs, int_digits_go by (done || lia). done.
  - change (pretty (Z.neg p)) with ("-" +:+ pretty (N.pos p)). unfold pretty, pretty_N.
    rewrite decide_False by done.
    change (Z.opp <$> int_digits 0 false (pretty_N_go (N.pos p) "") = Some (Z.neg p)).
    rewrite int_digits_go by lia. done.
Qed.

(** [str(z)] is never empty. *)
Lemma pretty_Z_nonempty (z : Z) : pretty z ≠ "".
Proof. intros H. pose proof (int_of_str_pretty z) as Hz. by rewrite H in Hz. Qed.

(** No character of the text is white space. *)
Definition no_space (s : string) : bool :=
  forallb (λ c, negb (py_isspace c)) (String.list_ascii_of_string s).

Lemma py_strip_no_space s : no_space s = true → py_strip s = s.
Proof.
  unfold py_strip. intros H.
  assert (Hl : py_lstrip s = s).
  { destruct s as [|c s]; [done|]. unfold no_space in H. simpl in *.
    apply andb_true_iff in H as [Hc _]. apply negb_true_iff in Hc. by rewrite Hc. }
  rewrite Hl. clear Hl. induction s as [|c s IH]; [done|].
  unfold no_space in *. simpl in *. apply andb_true_iff in H as [Hc H].
  rewrite IH by done. apply negb_true_iff in Hc. destruct s; [by rewrite Hc|done].
Qed.

(** The characters of a number's text: digits and a sign. *)
Lemma pretty_N_go_chars (p : ascii → bool) x s : forallb (λ n, p (pretty_N_char n)) [0;1;2;3;4;5;6;7;8;9]%N = true →
  forallb p (String.list_ascii_of_string s) = true → forallb p (String.list_ascii_of_string (pretty_N_go x s)) = true.
Proof.
  intros Hp. revert s. induction (N.lt_wf_0 x) as [x _ IH]. intros s Hs.
  destruct (decide (x = 0)%N) as [->|Hx]; [by rewrite pretty_N_go_0|].
  rewrite pretty_N_go_step by lia. apply IH; [apply N.div_lt; lia|].
  simpl. rewrite Hs, andb_true_r. rewrite forallb_forall in Hp. apply Hp, list_elem_of_In.
  assert (Hm : (x `mod` 10 < 10)%N) by (apply N.mod_lt; lia). revert Hm. generalize (x `mod` 10)%N. intros n Hn.
  rewrite !elem_of_cons. lia.
Qed.

Lemma pretty_chars (p : ascii → bool) (z : Z) : forallb (λ n, p (pretty_N_char n)) [0;1;2;3;4;5;6;7;8;9]%N = true →
  p "-"%char = true → forallb p (String.list_ascii_of_string (pretty z)) = true.
Proof.
  intros Hp Hminus. destruct z as [|n|n].
  - change (p (pretty_N_char 0) && true = true). by apply andb_true_iff in Hp as [-> _].
  - change (pretty (Z.pos n)) with (pretty (N.pos n)). unfold pretty, pretty_N.
    rewrite decide_False by done. by apply pretty_N_go_chars.
  - change (pretty (Z.neg n)) with ("-" +:+ pretty (N.pos n)). unfold pretty, pretty_N.
    rewrite decide_False by done. simpl. rewrite Hminus. by apply pretty_N_go_chars.
Qed.

Lemma py_strip_pretty (z : Z) : py_strip (pretty z) = pretty z.
Proof. apply py_strip_no_space. by apply pretty_chars. Qed.

(** ** Equality up to the order of dictionary entries *)
Inductive same_json : pyval → pyval → Prop :=
  | same_scalar v : is_list v = false → is_dict v = false → same_json v v
  | same_list l l' : Forall2 same_json l l' → same_json (PList l) (PList l')
  | same_dict d d' e :
      NoDup d.*1 → Forall2 (λ x y, x.1 = y.1 ∧ same_json x.2 y.2) d e → e ≡ₚ d' →
      same_json (PDict d) (PDict d').

(** Every dictionary in the value has distinct keys, as a [dict] does. *)
Fixpoint wf_pyval (v : pyval) : bool :=
  match v with
  | PList l => forallb wf_pyval l
  | PDict d => bool_decide (NoDup d.*1) && forallb (λ kv, wf_pyval kv.2) d
  | _ => true
  end.

Lemma same_json_refl v : wf_pyval v = true → same_json v v.
Proof.
  induction v as [| | | | |l IH|d IH] using pyval_rect_nested; simpl; intros Hwf;
    try by constructor.
  - apply same_list. rewrite forallb_forall in Hwf. apply Forall_Forall2_diag.
    rewrite Forall_forall in *. intros x Hx. apply IH; [done|]. by apply Hwf, list_elem_of_In.
  - apply andb_true_iff in Hwf as [Hd Hwf]. apply bool_decide_eq_true in Hd.
    rewrite forallb_forall in Hwf.
    eapply same_dict; [done| |reflexivity]. apply Forall_Forall2_diag.
    rewrite Forall_forall in *. intros x Hx. split; [done|]. apply IH; [done|].
    by apply Hwf, list_elem_of_In.
Qed.

Lemma dict_get_perm {V} (d e : list (string * V)) k :
  NoDup d.*1 → d ≡ₚ e → dict_get d k = dict_get e k.
Proof.
  intros Hd He. assert (NoDup e.*1) by (by rewrite <- He).
  apply option_eq. intros v. rewrite !dict_get_Some by done. by rewrite He.
Qed.

Lemma sort_entries_perm d e : NoDup d.*1 → d ≡ₚ e → sort_entries d = sort_entries e.
Proof.
  intros Hd He. unfold sort_entries.
  rewrite (py_sorted_unique d.*1 e.*1) by (by rewrite He).
  apply list_omap_ext, Forall_Forall2_diag, Forall_forall. intros k _.
  by rewrite (dict_get_perm d e).
Qed.

(** The canonical text does not depend on the order of entries. *)
Lemma json_dumps_sorted_same float_repr comma colon v w :
  same_json v w → json_dumps_with float_repr true comma colon v =
                  json_dumps_with float_repr true comma colon w.
Proof.
  unfold json_dumps_with. revert w. induction v as [| | | | |l IH|d IH] using pyval_rect_nested;
    intros w Hvw; inversion Hvw as [| ? l' Hl|? d' e Hd He Hp]; subst; simpl in *; try done.
  - do 3 f_equal. clear Hvw. revert IH.
    induction Hl as [|x y l l' Hxy _ IHl]; intros IH; [done|].
    apply Forall_cons in IH as [Hx IH]. csimpl. f_equal; auto.
  - do 4 f_equal.
    assert (Hrender : (λ kv, (kv.1, json_dumps_as float_repr json_str true comma colon kv.2)) <$> d =
            (λ kv, (kv.1, json_dumps_as float_repr json_str true comma colon kv.2)) <$> e).
    { clear Hvw Hp Hd. revert IH. induction He as [|x y d e [Hk Hxy] _ IHd]; intros IH; [done|].
      apply Forall_cons in IH as [Hx IH]. csimpl. rewrite Hk, (Hx _ Hxy). f_equal. auto. }
    rewrite Hrender. apply sort_entries_perm; [|by rewrite Hp].
    rewrite <- Hrender. by rewrite <- list_fmap_compose.
Qed.
