(* ===== verification/CanonicalJson.v ===== *)
(** The canonical JSON text of a value, as UTF-8 bytes, and that it determines
    the value: two values with one text are equal but for the order of the
    entries of their dictionaries. *)
From stdpp Require Import options.
From S2P Require Import Prelude Values Json.
Unset Default Proof Using.

(** A JSON string with [ensure_ascii=False]. *)
Definition raw_char (c : ascii) : string :=
  let n := code c in
  if (n =? 34) || (n =? 92) then String (Ascii.ascii_of_nat 92) (char_str c)
  else if n =? 8 then "\b" else if n =? 9 then "\t" else if n =? 10 then "\n"
  else if n =? 12 then "\f" else if n =? 13 then "\r"
  else if n <? 32 then "\u00" +:+ hex2 n else char_str c.
Definition quote : ascii := Ascii.ascii_of_nat 34.
Definition raw_str (s : string) : string := String quote (concat_map_str raw_char s +:+ char_str quote).

(** [s.encode("utf-8")]: code points below 256 in one byte or two. *)
Definition utf8_char (c : ascii) : string :=
  if code c <? 128 then char_str c
  else String (Ascii.ascii_of_nat (192 + code c / 64)) (char_str (Ascii.ascii_of_nat (128 + code c mod 64))).
Definition utf8 (s : string) : string := concat_map_str utf8_char s.

(** [json.dumps(v, sort_keys=True, separators=(",", ":"), ensure_ascii=False)] *)
Definition canonical_text (float_repr : Q → string) : pyval → string := json_dumps_as float_repr raw_str true "," ":".

(** [json.dumps(v, indent=2, sort_keys=True)] *)
Definition indent (level : nat) : string := String (Ascii.ascii_of_nat 10) (concat_map_str (λ _, "  ") (String.concat "" (replicate level "."))).
Fixpoint json_indented (float_repr : Q → string) (level : nat) (v : pyval) : string :=
  match v with
  | PNone => "null"
  | PBool b => if b then "true" else "false"
  | PInt z => pretty z
  | PFloat q => float_repr q
  | PStr s => json_str s
  | PList [] => "[]"
  | PList l =>
      "[" +:+ indent (S level) +:+ py_join ("," +:+ indent (S level)) (json_indented float_repr (S level) <$> l) +:+ indent level +:+ "]"
  | PDict [] => "{}"
  | PDict d =>
      let entries := sort_entries ((λ kv, (kv.1, json_indented float_repr (S level) kv.2)) <$> d) in
      "{" +:+ indent (S level) +:+ py_join ("," +:+ indent (S level)) ((λ kv, json_str kv.1 +:+ ": " +:+ kv.2) <$> entries)
        +:+ indent level +:+ "}"
  end.

(** ** Codes of characters *)

(** No code is the beginning of another. *)
Definition all_chars : list ascii := Ascii.ascii_of_nat <$> seq 0 256.
Definition prefix_code (f : ascii → string) : bool :=
  forallb (λ a, negb (String.eqb (f a) "") && forallb (λ b, Ascii.eqb a b || negb (String.prefix (f a) (f b))) all_chars) all_chars.

Lemma in_all_chars c : c ∈ all_chars.
Proof.
  apply list_elem_of_fmap. exists (Ascii.nat_of_ascii c). split; [by rewrite Ascii.ascii_nat_embedding|].
  apply elem_of_seq. pose proof (Ascii.nat_ascii_bounded c). lia.
Qed.

Lemma prefix_code_spec f a b : prefix_code f = true → f a ≠ "" ∧ (a ≠ b → String.prefix (f a) (f b) = false).
Proof.
  intros Hf. unfold prefix_code in Hf. rewrite forallb_forall in Hf.
  specialize (Hf a (proj1 (list_elem_of_In _ _) (in_all_chars a))). apply andb_true_iff in Hf as [H1 H2].
  split; [by apply negb_true_iff, String.eqb_neq in H1|]. intros Hne. rewrite forallb_forall in H2.
  specialize (H2 b (proj1 (list_elem_of_In _ _) (in_all_chars b))). apply orb_true_iff in H2 as [H2|H2].
  - by apply Ascii.eqb_eq in H2.
  - by apply negb_true_iff in H2.
Qed.

Lemma app_prefix x y s t : x +:+ s = y +:+ t → String.prefix x y = true ∨ String.prefix y x = true.
Proof.
  revert y. induction x as [|c x IH]; intros y H; [left; by destruct y|]. destruct y as [|d y]; [by right|].
  injection H as -> H. destruct (IH y H) as [Hp|Hp]; [left|right]; simpl; case_match; congruence.
Qed.

Lemma code_inj f a b s t : prefix_code f = true → f a +:+ s = f b +:+ t → a = b ∧ s = t.
Proof.
  intros Hf H. destruct (decide (a = b)) as [->|Hne].
  - split; [done|]. clear Hf. induction (f b) as [|c x IH]; [done|]. injection H as H. auto.
  - destruct (app_prefix _ _ _ _ H) as [Hp|Hp]; exfalso;
      [rewrite (proj2 (prefix_code_spec f a b Hf) Hne) in Hp|rewrite (proj2 (prefix_code_spec f b a Hf)) in Hp]; done.
Qed.

Lemma raw_code : prefix_code raw_char = true.
Proof. vm_compute. reflexivity. Qed.
Lemma utf8_code : prefix_code utf8_char = true.
Proof. vm_compute. reflexivity. Qed.

Lemma code_map_inj f s t : prefix_code f = true → concat_map_str f s = concat_map_str f t → s = t.
Proof.
  intros Hf. assert (∀ c u, f c +:+ u ≠ "") as Hne.
  { intros c u H. apply (proj1 (prefix_code_spec f c c Hf)). by destruct (f c). }
  revert t. induction s as [|c s IH]; intros [|d t] H; cbn [concat_map_str] in H.
  - reflexivity.
  - by destruct (Hne d (concat_map_str f t)).
  - by destruct (Hne c (concat_map_str f s)).
  - destruct (code_inj f _ _ _ _ Hf H) as [-> H']. by rewrite (IH t H').
Qed.

Lemma utf8_inj s t : utf8 s = utf8 t → s = t.
Proof. exact (code_map_inj utf8_char s t utf8_code). Qed.

Lemma raw_char_unquoted c : ∃ d r, raw_char c = String d r ∧ d ≠ quote.
Proof.
  assert (forallb (λ c, match raw_char c with String d _ => negb (Ascii.eqb d quote) | "" => false end) all_chars = true) as Hall
    by (vm_compute; reflexivity).
  rewrite forallb_forall in Hall. specialize (Hall c (proj1 (list_elem_of_In _ _) (in_all_chars c))).
  destruct (raw_char c) as [|d r]; [done|]. exists d, r. split; [done|]. by apply negb_true_iff, Ascii.eqb_neq in Hall.
Qed.

Lemma raw_str_inj a b s t : raw_str a +:+ s = raw_str b +:+ t → a = b ∧ s = t.
Proof.
  intros [= H]. revert b H. induction a as [|c a IH]; intros [|d b] H; cbn [concat_map_str] in H.
  - by injection H.
  - destruct (raw_char_unquoted d) as (x & r & E & Hx). rewrite E in H. by injection H as H' _.
  - destruct (raw_char_unquoted c) as (x & r & E & Hx). rewrite E in H. by injection H as H' _.
  - rewrite !str_app_assoc in H. apply (code_inj _ _ _ _ _ raw_code) in H as [-> H].
    rewrite <- !str_app_assoc in H. destruct (IH b H) as [-> ->]. done.
Qed.

(** ** Values from their texts *)

Definition number_char (c : ascii) : bool :=
  let n := code c in ((48 <=? n) && (n <=? 57)) || existsb (Nat.eqb n) [43; 45; 46; 69; 101].
Definition all_number (s : string) : bool := forallb number_char (String.list_ascii_of_string s).
Definition starts_number (s : string) : bool := match s with String c _ => number_char c | _ => false end.

(** What the texts of floats are relied on for: they are numbers, of which a
    float is no integer and equal texts come from equal floats. *)
Record float_texts (float_repr : Q → string) : Prop := {
  ft_number q : all_number (float_repr q) = true ∧ float_repr q ≠ "";
  ft_not_int q (z : Z) : float_repr q ≠ pretty z;
  ft_inj q q' : float_repr q = float_repr q' → (q == q')%Q
}.

Inductive same_value : pyval → pyval → Prop :=
  | sv_none : same_value PNone PNone
  | sv_bool b : same_value (PBool b) (PBool b)
  | sv_int z : same_value (PInt z) (PInt z)
  | sv_float q q' : (q == q')%Q → same_value (PFloat q) (PFloat q')
  | sv_str s : same_value (PStr s) (PStr s)
  | sv_list l l' : Forall2 same_value l l' → same_value (PList l) (PList l')
  | sv_dict d d' e e' : d ≡ₚ e → d' ≡ₚ e' → Forall2 (λ x y, x.1 = y.1 ∧ same_value x.2 y.2) e e' →
      same_value (PDict d) (PDict d').

Definition head_is (p : ascii → bool) (s : string) : bool := match s with String c _ => p c | "" => false end.

Lemma token_split (p : ascii → bool) a b s t : forallb p (String.list_ascii_of_string a) = true →
  forallb p (String.list_ascii_of_string b) = true → head_is p s = false → head_is p t = false → a +:+ s = b +:+ t → a = b ∧ s = t.
Proof.
  intros Ha Hb Hs Ht. revert b Hb. induction a as [|c a IH]; intros [|d b] Hb H; simpl in Ha, Hb.
  - done.
  - apply andb_true_iff in Hb as [Hd _]. change (s = String d (b +:+ t)) in H. rewrite H in Hs. simpl in Hs. congruence.
  - apply andb_true_iff in Ha as [Hc _]. change (String c (a +:+ s) = t) in H. rewrite <- H in Ht. simpl in Ht. congruence.
  - injection H as -> H. apply andb_true_iff in Ha as [_ Ha]. apply andb_true_iff in Hb as [_ Hb].
    by destruct (IH Ha b Hb H) as [-> ->].
Qed.

Lemma number_split a b s t : all_number a = true → all_number b = true → starts_number s = false → starts_number t = false →
  a +:+ s = b +:+ t → a = b ∧ s = t.
Proof. exact (token_split number_char a b s t). Qed.

Lemma pretty_number (z : Z) : all_number (pretty z) = true.
Proof. by apply pretty_chars. Qed.

(** A value's text tells its kind by its first character. *)
Definition kind (v : pyval) : nat :=
  match v with PNone => 0 | PBool true => 1 | PBool false => 2 | PInt _ | PFloat _ => 3 | PStr _ => 4 | PList _ => 5 | PDict _ => 6 end.
Definition kind_char (c : ascii) : nat :=
  let n := code c in
  if n =? 110 then 0 else if n =? 116 then 1 else if n =? 102 then 2 else if number_char c then 3
  else if n =? 34 then 4 else if n =? 91 then 5 else if n =? 123 then 6 else 7.

Lemma number_kind s : all_number s = true → s ≠ "" → ∃ c r, s = String c r ∧ kind_char c = 3.
Proof.
  destruct s as [|c r]; [done|]. intros H _. exists c, r. split; [done|]. unfold all_number in H. simpl in H.
  apply andb_true_iff in H as [Hc _].
  assert (forallb (λ c, negb (number_char c) || (kind_char c =? 3)) all_chars = true) as Hall by (vm_compute; reflexivity).
  rewrite forallb_forall in Hall. specialize (Hall c (proj1 (list_elem_of_In _ _) (in_all_chars c))).
  rewrite Hc in Hall. by apply Nat.eqb_eq in Hall.
Qed.

Section injectivity.
Context (float_repr : Q → string) (Hfloat : float_texts float_repr).
Abbreviation text := (canonical_text float_repr).

Lemma text_kind v : ∃ c r, text v = String c r ∧ kind_char c = kind v.
Proof.
  destruct v as [|[]|z|q|s|l|d]; try by eexists _, _.
  - apply number_kind; [apply pretty_number|apply pretty_Z_nonempty].
  - apply number_kind; apply Hfloat.
Qed.

Lemma same_kind v w s t : text v +:+ s = text w +:+ t → kind v = kind w.
Proof.
  destruct (text_kind v) as (c & r & -> & <-), (text_kind w) as (c' & r' & -> & <-). by intros [= -> _].
Qed.

Lemma text_head v : ∃ c r, text v = String c r ∧ kind_char c ≠ 7.
Proof. destruct (text_kind v) as (c & r & -> & Hk). exists c, r. split; [done|]. rewrite Hk. by destruct v as [|[]| | | | |]. Qed.

(** ** Items between commas *)

Definition items_tail (close : string) (l : list string) (s : string) : string :=
  match l with [] => close +:+ s | _ => "," +:+ py_join "," l +:+ close +:+ s end.

Lemma join_cons x l close s : py_join "," (x :: l) +:+ close +:+ s = x +:+ items_tail close l s.
Proof. destruct l as [|y l]; [done|]. unfold items_tail. change (py_join "," (x :: y :: l)) with (x +:+ "," +:+ py_join "," (y :: l)). by rewrite !str_app_assoc. Qed.

Lemma items_inj {A} (R : A → A → Prop) (enc : A → string) (c : ascii) (l l' : list A) s t :
  kind_char c = 7 → code c ≠ 44 → (∀ a, ∃ d r, enc a = String d r ∧ kind_char d ≠ 7) →
  (∀ a b s t, a ∈ l → b ∈ l' → starts_number s = false → starts_number t = false →
     enc a +:+ s = enc b +:+ t → R a b ∧ s = t) →
  py_join "," (enc <$> l) +:+ char_str c +:+ s = py_join "," (enc <$> l') +:+ char_str c +:+ t → Forall2 R l l' ∧ s = t.
Proof.
  intros Hc Hcomma Henc. assert (number_char c = false) as Hnum.
  { unfold kind_char in Hc. repeat case_match; try done. }
  assert (∀ l s, starts_number (items_tail (char_str c) (enc <$> l) s) = false) as Hstart by (by intros [] ?).
  revert l'. induction l as [|a l IH]; intros [|b l'] Hinj H.
  - cbn in H. injection H as H. split; [constructor|exact H].
  - rewrite fmap_cons, join_cons in H. destruct (Henc b) as (d & r & Hd & Hk). rewrite Hd in H. cbn in H. injection H as <- _.
    by rewrite Hc in Hk.
  - rewrite fmap_cons, join_cons in H. destruct (Henc a) as (d & r & Hd & Hk). rewrite Hd in H. cbn in H. injection H as -> _.
    by rewrite Hc in Hk.
  - rewrite !fmap_cons, !join_cons in H.
    destruct (Hinj a b _ _ ltac:(left) ltac:(left) (Hstart _ _) (Hstart _ _) H) as [Hab Htail].
    assert (Forall2 R l l' ∧ s = t) as [? ->]; [|split; [by constructor|done]].
    destruct l as [|x l], l' as [|y l']; cbn [fmap list_fmap items_tail] in Htail.
    + cbn in Htail. injection Htail as Htail. split; [constructor|exact Htail].
    + cbn in Htail. injection Htail as -> _. done.
    + cbn in Htail. injection Htail as <- _. done.
    + injection Htail as Htail. apply IH; [|exact Htail]. intros; eapply Hinj; try done; by right.
Qed.

(** ** Dictionaries, sorted *)

Definition sorted_dict {V} (d : list (string * V)) : list (string * V) :=
  omap (λ k, (λ v, (k, v)) <$> dict_get d k) (py_sorted d.*1).

Lemma sorted_dict_map {V} (g : V → string) (d : list (string * V)) :
  sort_entries ((λ kv, (kv.1, g kv.2)) <$> d) = (λ kv, (kv.1, g kv.2)) <$> sorted_dict d.
Proof.
  unfold sort_entries, sorted_dict.
  assert (((λ kv : string * V, (kv.1, g kv.2)) <$> d).*1 = d.*1) as -> by (rewrite <- list_fmap_compose; by apply list_fmap_ext).
  assert (∀ k, dict_get ((λ kv : string * V, (kv.1, g kv.2)) <$> d) k = g <$> dict_get d k) as Hget.
  { intros k. induction d as [|[k' v] d IH]; [done|]. csimpl. cbn [dict_get fst]. case_decide; [done|exact IH]. }
  generalize (py_sorted d.*1). intros ks.
  induction ks as [|k ks IH]; [done|]. csimpl. rewrite Hget, IH. by destruct (dict_get d k).
Qed.

Lemma sorted_dict_perm {V} (d : list (string * V)) : NoDup d.*1 → sorted_dict d ≡ₚ d.
Proof.
  intros Hd. assert (∀ ks : list string, ks ≡ₚ d.*1 → omap (λ k, (λ v, (k, v)) <$> dict_get d k) ks ≡ₚ d) as H;
    [|by apply H, py_sorted_perm].
  intros ks ->. assert (∀ d' : list (string * V), d' ⊆ d → omap (λ k, (λ v, (k, v)) <$> dict_get d k) d'.*1 = d') as H.
  { induction d' as [|[k v] d' IH]; intros Hsub; [done|]. csimpl.
    assert (dict_get d k = Some v) as -> by (apply dict_get_Some; [done|]; apply Hsub; left).
    csimpl. rewrite IH; [done|]. intros x Hx. apply Hsub. by right. }
  by rewrite H.
Qed.

Lemma sorted_dict_unique {V} (d e : list (string * V)) : NoDup d.*1 → d ≡ₚ e → sorted_dict d = sorted_dict e.
Proof.
  intros Hd He. unfold sorted_dict. rewrite (py_sorted_unique d.*1 e.*1) by (by rewrite He).
  apply list_omap_ext, Forall_Forall2_diag, Forall_forall. intros k _. by rewrite (dict_get_perm d e).
Qed.

Lemma sorted_dict_nil {V} (d : list (string * V)) : NoDup d.*1 → sorted_dict d = [] → d = [].
Proof. intros Hd H. pose proof (sorted_dict_perm d Hd) as Hp. rewrite H in Hp. by apply Permutation_nil in Hp. Qed.

(** A text followed by the end of a number or of the input is one value's. *)
Theorem text_inj v w s t : wf_pyval v = true → wf_pyval w = true → starts_number s = false → starts_number t = false →
  text v +:+ s = text w +:+ t → same_value v w ∧ s = t.
Proof.
  revert w s t. induction v as [|b|z|q|x|l IH|d IH] using pyval_rect_nested; intros w s t Hv Hw Hs Ht H;
    pose proof (same_kind _ _ _ _ H) as Hkind.
  - destruct w as [|[]| | | | |]; try done. cbn in H. injection H as H. split; [constructor|exact H].
  - destruct b, w as [|[]| | | | |]; try done; cbn in H; injection H as H; (split; [constructor|exact H]).
  - destruct w as [|[]|z'|q'| | |]; try done.
    + destruct (number_split _ _ _ _ (pretty_number z) (pretty_number z') Hs Ht H) as [Hz ->].
      split; [|done]. apply (inj pretty) in Hz as ->. constructor.
    + destruct (number_split _ _ _ _ (pretty_number z) (proj1 (ft_number _ Hfloat q')) Hs Ht H) as [Hz _].
      by destruct (ft_not_int _ Hfloat q' z).
  - destruct w as [|[]|z'|q'| | |]; try done.
    + destruct (number_split _ _ _ _ (proj1 (ft_number _ Hfloat q)) (pretty_number z') Hs Ht H) as [Hz _].
      by destruct (ft_not_int _ Hfloat q z').
    + destruct (number_split _ _ _ _ (proj1 (ft_number _ Hfloat q)) (proj1 (ft_number _ Hfloat q')) Hs Ht H) as [Hz ->].
      split; [|done]. constructor. by apply (ft_inj _ Hfloat).
  - destruct w as [|[]| | |y| |]; try done. destruct (raw_str_inj x y s t H) as [-> ->]. split; [constructor|done].
  - destruct w as [|[]| | | |l'|]; try done. change (("[" +:+ py_join "," (text <$> l) +:+ "]") +:+ s =
      ("[" +:+ py_join "," (text <$> l') +:+ "]") +:+ t) in H.
    rewrite !str_app_assoc in H. injection H as H. simpl in Hv, Hw. rewrite forallb_forall in Hv, Hw.
    assert (Forall2 same_value l l' ∧ s = t) as [? ->]; [|split; [by constructor|done]].
    apply (items_inj same_value text "]"%char); [reflexivity|done|exact text_head| |exact H].
    intros a b s' t' Ha Hb. rewrite Forall_forall in IH. apply (IH a Ha); [apply Hv|apply Hw]; by apply list_elem_of_In.
  - destruct w as [|[]| | | | |d']; try done.
    change (("{" +:+ py_join "," ((λ kv, raw_str kv.1 +:+ ":" +:+ kv.2) <$> sort_entries ((λ kv, (kv.1, text kv.2)) <$> d)) +:+ "}") +:+ s =
      ("{" +:+ py_join "," ((λ kv, raw_str kv.1 +:+ ":" +:+ kv.2) <$> sort_entries ((λ kv, (kv.1, text kv.2)) <$> d')) +:+ "}") +:+ t) in H.
    rewrite !str_app_assoc in H. injection H as H. rewrite !sorted_dict_map, <- !list_fmap_compose in H.
    simpl in Hv, Hw. apply andb_true_iff in Hv as [Hd%bool_decide_eq_true Hv], Hw as [Hd'%bool_decide_eq_true Hw].
    rewrite forallb_forall in Hv, Hw.
    assert (Forall2 (λ x y, x.1 = y.1 ∧ same_value x.2 y.2) (sorted_dict d) (sorted_dict d') ∧ s = t) as [? ->].
    2: { split; [|done]. eapply sv_dict; [symmetry; by apply sorted_dict_perm..|done]. }
    apply (items_inj _ (λ kv : string * pyval, raw_str kv.1 +:+ ":" +:+ text kv.2) "}"%char); [reflexivity|done|by eexists _, _| |exact H].
    intros [k a] [k' b] s' t' Ha Hb Hs' Ht' Hab. cbn [fst snd] in Hab. rewrite !str_app_assoc in Hab. apply raw_str_inj in Hab as [-> Hab]. injection Hab as Hab.
    rewrite sorted_dict_perm in Ha, Hb by done. rewrite Forall_forall in IH.
    destruct (IH (k', a) Ha b s' t') as [? ->]; [by apply (Hv (k', a)), list_elem_of_In|by apply (Hw (k', b)), list_elem_of_In|done..|].
    done.
Qed.

(** The bytes that are hashed determine the value. *)
Theorem canonical_inj v w : wf_pyval v = true → wf_pyval w = true → utf8 (text v) = utf8 (text w) → same_value v w.
Proof.
  intros Hv Hw H%utf8_inj. apply (text_inj v w "" ""); [done..|]. by rewrite H.
Qed.
End injectivity.

(** Texts of floats that are as relied on. *)
Definition sample_float_repr (q : Q) : string := pretty (Qnum q) +:+ "e" +:+ pretty (Z.pos (Qden q)).

Lemma all_number_app a b : all_number (a +:+ b) = all_number a && all_number b.
Proof. induction a as [|c a IH]; [done|]. change (number_char c && all_number (a +:+ b) = (number_char c && all_number a) && all_number b). by rewrite IH, andb_assoc. Qed.

Lemma sample_float_texts : float_texts sample_float_repr.
Proof.
  set (p := λ c, negb (code c =? 101)). assert (∀ z : Z, forallb p (String.list_ascii_of_string (pretty z)) = true) as Hp
    by (intros z; by apply pretty_chars). split; unfold sample_float_repr.
  - intros q. split; [|by destruct (pretty (Qnum q))]. rewrite !all_number_app, !pretty_number. done.
  - intros q z H. pose proof (Hp z) as Hz. rewrite <- H in Hz. clear H.
    induction (pretty (Qnum q)) as [|c s IH]; [done|]. simpl in Hz. apply andb_true_iff in Hz as [_ Hz]. auto.
  - intros q q' H. destruct (token_split p _ _ ("e" +:+ pretty (Z.pos (Qden q))) ("e" +:+ pretty (Z.pos (Qden q')))
      (Hp (Qnum q)) (Hp (Qnum q')) eq_refl eq_refl H) as [Hn Hd].
    apply (inj pretty) in Hn. assert (Qden q = Qden q') as Hd'.
    { assert (pretty (Z.pos (Qden q)) = pretty (Z.pos (Qden q'))) as Heq by (by injection Hd). apply (inj pretty) in Heq. lia. }
    destruct q, q'. simpl in *. subst. reflexivity.
Qed.
