(* ===== verification/Models.v ===== *)
(** The protocol models of [eap/protocol/models.py]: the records, the
    validators pydantic runs after construction, the scanners that find step
    references in argument values and branch conditions, and the dependency
    graph a macro must have.  Field bounds ([ge=], [gt=], [le=]) are the
    [validate_*_fields] definitions. *)
From stdpp Require Import options.
From S2P Require Import Prelude Graph Values.

(** ** Payloads *)

Record ToolErrorPayload := {
  error_type : string;
  message : string;
  err_step_id : string;
  err_tool_name : string;
  details : option pyval;
}.

Record StepApprovalCheckpoint := { required : bool; prompt : option string }.

Inductive StepApprovalDecisionType := APPROVE | REJECT.

#[global] Instance StepApprovalDecisionType_eq_dec : EqDecision StepApprovalDecisionType.
Proof. solve_decision. Defined.

Record StepApprovalDecision := {
  decision : StepApprovalDecisionType;
  reason : option string;
}.

(** [StepApprovalDecision.validate_reason] *)
Definition validate_reason (d : StepApprovalDecision) : result unit :=
  match decision d with
  | REJECT =>
      raise_if (match reason d with None => true | Some r => py_blank r end)
        (value_error "reject decisions require a non-empty reason")
  | APPROVE => Ok tt
  end.

Record BranchingRule := {
  condition : string;
  true_target_step_ids : list string;
  false_target_step_ids : list string;
  fallback_target_step_ids : list string;
  allow_early_exit : bool;
}.

(** [true_target_step_ids + false_target_step_ids + fallback_target_step_ids] *)
Definition all_targets (b : BranchingRule) : list string :=
  true_target_step_ids b ++ false_target_step_ids b ++ fallback_target_step_ids b.

Definition is_nil {A} (l : list A) : bool := match l with [] => true | _ => false end.

(** [BranchingRule.validate_branch_rule] *)
Definition validate_branch_rule (b : BranchingRule) : result unit :=
  _ ← raise_if (py_blank (condition b)) (value_error "branching condition cannot be empty");
  let has_targets := negb (is_nil (true_target_step_ids b)) ||
                     negb (is_nil (false_target_step_ids b)) ||
                     negb (is_nil (fallback_target_step_ids b)) in
  raise_if (negb has_targets && negb (allow_early_exit b))
    (value_error "branching rule requires at least one branch target or allow_early_exit=true").

Record ToolCall := {
  tool_name : string;
  arguments : list (string * pyval);
  step_id : string;
  branching : option BranchingRule;
  approval : option StepApprovalCheckpoint;
}.

(** [step.approval and step.approval.required] *)
Definition approval_required (s : ToolCall) : bool :=
  match approval s with Some a => required a | None => false end.

Record RetryPolicy := {
  max_attempts : Z;
  initial_delay_seconds : Q;
  backoff_multiplier : Q;
  retryable_error_types : list string;
}.

Definition default_retry_policy : RetryPolicy := {|
  max_attempts := 3;
  initial_delay_seconds := 1 # 4;
  backoff_multiplier := 2 # 1;
  retryable_error_types := ["RuntimeError"; "TimeoutError"; "ConnectionError"];
|}.

(** [max_attempts: ge=1, initial_delay_seconds: ge=0.0, backoff_multiplier: ge=1.0] *)
Definition validate_retry_fields (r : RetryPolicy) : bool :=
  (1 <=? max_attempts r)%Z && Qle_bool 0 (initial_delay_seconds r) &&
  Qle_bool 1 (backoff_multiplier r).

Record ToolExecutionLimit := {
  max_concurrency : option Z;
  requests_per_second : option Q;
  burst_capacity : option Z;
}.

Definition Qlt_bool (a b : Q) : bool := negb (Qle_bool b a).
Definition opt_all {A} (f : A → bool) (o : option A) : bool :=
  match o with Some a => f a | None => true end.

(** [max_concurrency: ge=1, requests_per_second: gt=0.0, burst_capacity: ge=1] *)
Definition validate_tool_limit_fields (l : ToolExecutionLimit) : bool :=
  opt_all (Z.leb 1) (max_concurrency l) && opt_all (Qlt_bool 0) (requests_per_second l) &&
  opt_all (Z.leb 1) (burst_capacity l).

(** [ToolExecutionLimit.validate_bucket_contract] *)
Definition validate_bucket_contract (l : ToolExecutionLimit) : result unit :=
  raise_if (negb (is_None (burst_capacity l)) && is_None (requests_per_second l))
    (value_error "burst_capacity requires requests_per_second").

Record ExecutionLimits := {
  max_global_concurrency : Z;
  max_total_runtime_seconds : option Q;
  max_reference_resolution_depth : Z;
  global_requests_per_second : option Q;
  global_burst_capacity : option Z;
  per_tool : list (string * ToolExecutionLimit);
}.

Definition default_execution_limits : ExecutionLimits := {|
  max_global_concurrency := 8;
  max_total_runtime_seconds := None;
  max_reference_resolution_depth := 32;
  global_requests_per_second := None;
  global_burst_capacity := None;
  per_tool := [];
|}.

Definition validate_limits_fields (l : ExecutionLimits) : bool :=
  (1 <=? max_global_concurrency l)%Z && opt_all (Qlt_bool 0) (max_total_runtime_seconds l) &&
  (1 <=? max_reference_resolution_depth l)%Z && (max_reference_resolution_depth l <=? 256)%Z &&
  opt_all (Qlt_bool 0) (global_requests_per_second l) &&
  opt_all (Z.leb 1) (global_burst_capacity l).

(** [ExecutionLimits.validate_execution_limits] *)
Definition validate_execution_limits (l : ExecutionLimits) : result unit :=
  _ ← raise_if (negb (is_None (global_burst_capacity l)) && is_None (global_requests_per_second l))
        (value_error "global_burst_capacity requires global_requests_per_second");
  for_each (λ kv, raise_if (py_blank kv.1)
                    (value_error "per_tool keys must be non-empty tool names")) (per_tool l).

(** ** Trace events *)

Inductive ExecutionTraceEventType :=
  | REPLAYED | QUEUED | APPROVAL_REQUIRED | APPROVED | REJECTED
  | STARTED | RETRIED | FAILED | COMPLETED.

#[global] Instance ExecutionTraceEventType_eq_dec : EqDecision ExecutionTraceEventType.
Proof. solve_decision. Defined.

Record ExecutionTraceEvent := {
  run_id : string;
  ev_step_id : string;
  ev_tool_name : string;
  event_type : ExecutionTraceEventType;
  timestamp_utc : Z;
  attempt : Z;
  resolved_arguments : option (list (string * pyval));
  input_pointer_ids : option (list (string * string));
  output_pointer_id : option string;
  duration_ms : option Q;
  retry_delay_seconds : option Q;
  error : option ToolErrorPayload;
  actor_id : option string;
  actor_scopes : option (list string);
  operation : option string;
}.

Definition set_actor_scopes (e : ExecutionTraceEvent) (s : option (list string)) :
    ExecutionTraceEvent := {|
  run_id := run_id e; ev_step_id := ev_step_id e; ev_tool_name := ev_tool_name e;
  event_type := event_type e; timestamp_utc := timestamp_utc e; attempt := attempt e;
  resolved_arguments := resolved_arguments e; input_pointer_ids := input_pointer_ids e;
  output_pointer_id := output_pointer_id e; duration_ms := duration_ms e;
  retry_delay_seconds := retry_delay_seconds e; error := error e;
  actor_id := actor_id e; actor_scopes := s; operation := operation e;
|}.

(** Truth of an optional string and of an optional model. *)
Definition opt_str_truthy (o : option string) : bool :=
  match o with Some s => negb (bool_decide (s = "")) | None => false end.
Definition opt_truthy {A} (o : option A) : bool := negb (is_None o).

(** The clauses of [validate_event_contract] on one event type: whether the
    event breaks the contract, and the message raised. *)
Definition event_contract (e : ExecutionTraceEvent) : list (bool * string) :=
  let has_out := opt_str_truthy (output_pointer_id e) in
  let has_err := opt_truthy (error e) in
  let has_dur := opt_truthy (duration_ms e) in
  match event_type e with
  | REPLAYED =>
      [(negb has_out, "replayed events must include output_pointer_id");
       (has_err, "replayed events cannot include error")]
  | QUEUED =>
      [(has_out || has_err || has_dur,
        "queued events cannot include output_pointer_id, error, or duration_ms")]
  | APPROVAL_REQUIRED =>
      [(has_out || has_err || has_dur,
        "approval_required events cannot include output_pointer_id, error, or duration_ms")]
  | APPROVED =>
      [(has_out || has_err || has_dur,
        "approved events cannot include output_pointer_id, error, or duration_ms")]
  | REJECTED =>
      [(negb has_err, "rejected events must include error");
       (has_out, "rejected events cannot include output_pointer_id")]
  | STARTED =>
      [(has_out || has_err, "started events cannot include output_pointer_id or error")]
  | RETRIED =>
      [(negb has_err, "retried events must include error");
       (is_None (retry_delay_seconds e), "retried events must include retry_delay_seconds");
       (has_out, "retried events cannot include output_pointer_id")]
  | FAILED =>
      [(negb has_err, "failed events must include error");
       (has_out, "failed events cannot include output_pointer_id")]
  | COMPLETED =>
      [(negb has_out, "completed events must include output_pointer_id");
       (has_err, "completed events cannot include error")]
  end.

(** [ExecutionTraceEvent.validate_event_contract] *)
Definition validate_event_contract (e : ExecutionTraceEvent) : result ExecutionTraceEvent :=
  e ← match actor_scopes e with
      | Some scopes =>
          let normalized_scopes :=
            sorted_set (list_to_set (filter (λ s, s ≠ "") (py_strip <$> scopes))) in
          _ ← raise_if (is_nil normalized_scopes)
                (value_error "actor_scopes must include at least one non-empty scope when provided");
          Ok (set_actor_scopes e (Some normalized_scopes))
      | None => Ok e
      end;
  _ ← raise_if (match operation e with
                | Some o => bool_decide (o ∉ ["execute"; "resume"])
                | None => false
                end) (value_error "operation must be one of: execute, resume");
  _ ← for_each (λ cm : bool * string, raise_if cm.1 (value_error cm.2)) (event_contract e);
  Ok e.

(** [attempt: ge=1, duration_ms: ge=0.0, retry_delay_seconds: ge=0.0] *)
Definition validate_event_fields (e : ExecutionTraceEvent) : bool :=
  (1 <=? attempt e)%Z && opt_all (Qle_bool 0) (duration_ms e) &&
  opt_all (Qle_bool 0) (retry_delay_seconds e).

(** ** Conversations *)

Inductive MemoryStrategy := FULL | WINDOW | SUMMARY.

#[global] Instance MemoryStrategy_eq_dec : EqDecision MemoryStrategy.
Proof. solve_decision. Defined.

Record ConversationSession := {
  session_id : string;
  session_created_at_utc : Z;
  session_updated_at_utc : Z;
  memory_strategy : MemoryStrategy;
  window_turn_limit : option Z;
  summary_text : option string;
  session_metadata : option pyval;
}.

(** [window_turn_limit: ge=1] *)
Definition validate_session_fields (s : ConversationSession) : bool :=
  opt_all (Z.leb 1) (window_turn_limit s).

Record ConversationTurn := {
  turn_id : string;
  turn_session_id : string;
  role : string;
  content : string;
  turn_created_at_utc : Z;
  pointer_ids : list string;
  macro_run_id : option string;
  turn_metadata : option pyval;
}.

(** [ConversationTurn.validate_role] *)
Definition validate_role (t : ConversationTurn) : result unit :=
  raise_if (bool_decide (role t ∉ ["user"; "assistant"; "system"]))
    (value_error "role must be one of: user, assistant, system").

(** ** Macros *)

Record BatchedMacroRequest := {
  steps : list ToolCall;
  return_final_state_only : bool;
  retry_policy : RetryPolicy;
  execution_limits : option ExecutionLimits;
  approvals : list (string * StepApprovalDecision);
}.

(** *** Step references in argument values *)

(** [ref.split(".", 1)[0]] *)
Definition ref_head (ref : string) : string := (py_partition "."%char ref).1.

(** The reference a string argument makes, if it makes one. *)
Definition string_reference (s : string) : option string :=
  match strip_prefix "$step:" s with
  | Some ref => if decide (ref = "") then None else Some (ref_head ref)
  | None =>
      match strip_prefix "$" s with
      | Some ref => if decide (ref = "") then None else Some (ref_head ref)
      | None => None
      end
  end.

(** [BatchedMacroRequest._extract_argument_step_references] *)
Fixpoint extract_argument_step_references (max_depth depth : nat) (value : pyval)
    {struct value} : result (gset string) :=
  _ ← raise_if (max_depth <? depth)
        (value_error ("macro argument nesting exceeds max reference depth " +:+ pretty max_depth));
  match value with
  | PStr s => Ok (match string_reference s with Some r => {[r]} | None => ∅ end)
  | PDict d =>
      fold_result (λ refs kv,
        r ← extract_argument_step_references max_depth (S depth) kv.2; Ok (refs ∪ r)) ∅ d
  | PList l =>
      fold_result (λ refs nested_value,
        r ← extract_argument_step_references max_depth (S depth) nested_value;
        Ok (refs ∪ r)) ∅ l
  | _ => Ok ∅
  end.

(** *** Step references in branch conditions *)

Definition char_in (lo hi : nat) (c : ascii) : bool :=
  let n := Ascii.nat_of_ascii c in (lo <=? n) && (n <=? hi).

(** [[A-Za-z0-9_\-]] and [[A-Za-z0-9_\.]] *)
Definition is_ident_char (c : ascii) : bool :=
  char_in 65 90 c || char_in 97 122 c || char_in 48 57 c || char_in 95 95 c || char_in 45 45 c.
Definition is_path_char (c : ascii) : bool :=
  char_in 65 90 c || char_in 97 122 c || char_in 48 57 c || char_in 95 95 c || char_in 46 46 c.

(** The longest prefix of characters satisfying [f], and the rest. *)
Fixpoint span (f : ascii → bool) (s : string) : string * string :=
  match s with
  | EmptyString => (EmptyString, EmptyString)
  | String c s' =>
      if f c then let '(a, b) := span f s' in (String c a, b) else (EmptyString, s)
  end.

(** One match of the reference pattern at the head of [s]: the step id, the
    optional path, and the text after the match. *)
Definition match_reference (s : string) : option (string * option string * string) :=
  match strip_prefix "$step:" s with
  | None => None
  | Some r =>
      let '(ident, r1) := span is_ident_char r in
      if decide (ident = "") then None else
      match r1 with
      | String c r2 =>
          if decide (c = "."%char) then
            let '(path, r3) := span is_path_char r2 in
            if decide (path = "") then Some (ident, None, r1)
            else Some (ident, Some path, r3)
          else Some (ident, None, r1)
      | EmptyString => Some (ident, None, r1)
      end
  end.

Inductive segment :=
  | Lit (c : ascii)
  | Ref (ident : string) (path : option string).

(** The text cut into characters and references, left to right, as
    [re.findall] and [re.sub] scan it. *)
Fixpoint scan_references (fuel : nat) (s : string) : list segment :=
  match fuel with
  | 0 => []
  | S fuel =>
      match match_reference s with
      | Some (ident, path, rest) => Ref ident path :: scan_references fuel rest
      | None =>
          match s with
          | EmptyString => []
          | String c s' => Lit c :: scan_references fuel s'
          end
      end
  end.

Definition segments (s : string) : list segment := scan_references (S (String.length s)) s.

(** [BatchedMacroRequest._extract_condition_step_references] *)
Definition extract_condition_step_references (condition : string) : gset string :=
  list_to_set (omap (λ x, match x with Ref i _ => Some i | Lit _ => None end)
                 (segments condition)).

(** *** The dependency graph *)

Definition step_ids (m : BatchedMacroRequest) : gset string :=
  list_to_set (step_id <$> steps m).

(** [add_edge] of [_validate_dependency_graph_acyclic] *)
Definition add_edge (ids : gset string) (g : digraph) (source target : string) : result digraph :=
  _ ← raise_if (bool_decide (source ∉ ids))
        (value_error ("step reference '" +:+ source +:+ "' is not a valid step_id"));
  _ ← raise_if (bool_decide (target ∉ ids))
        (value_error ("step reference target '" +:+ target +:+ "' is not a valid step_id"));
  Ok (add_arc g source target).

(** The body of [for step in self.steps]. *)
Definition add_argument_edges (ids : gset string) (sid : string) (g : digraph)
    (argument_value : pyval) : result digraph :=
  refs ← extract_argument_step_references 32 0 argument_value;
  fold_result (λ g dep, if decide (dep ∈ ids) then add_edge ids g dep sid else Ok g)
    g (elements refs).

Definition add_step_edges (ids : gset string) (g : digraph) (step : ToolCall) : result digraph :=
  g ← fold_result (add_argument_edges ids (step_id step)) g (arguments step).*2;
  match branching step with
  | None => Ok g
  | Some b =>
      g ← fold_result (λ g dep,
            if decide (dep = step_id step) then Ok g
            else if decide (dep ∈ ids) then add_edge ids g dep (step_id step) else Ok g)
          g (elements (extract_condition_step_references (condition b)));
      fold_result (λ g target, add_edge ids g (step_id step) target) g (all_targets b)
  end.

Definition dependency_graph (m : BatchedMacroRequest) : result digraph :=
  fold_result (add_step_edges (step_ids m)) (empty_digraph (step_ids m)) (steps m).

(** The exception of a loop stopped by its fuel; no program run raises it. *)
Definition out_of_fuel : exn := Exn (OtherError "OutOfFuel") "".

(** [BatchedMacroRequest._validate_dependency_graph_acyclic] *)
Definition validate_dependency_graph_acyclic (m : BatchedMacroRequest) : result unit :=
  g ← dependency_graph m;
  match kahn_order g with
  | None => Raise out_of_fuel
  | Some ordered =>
      raise_if (negb (length ordered =? size (step_ids m)))
        (value_error "macro dependency graph contains a cycle")
  end.

(** [{step.step_id: step for step in self.steps}[sid]] *)
Definition step_by_id (m : BatchedMacroRequest) (sid : string) : option ToolCall :=
  last (filter (λ s, step_id s = sid) (steps m)).

(** The two loops of [BatchedMacroRequest.validate_branch_targets]. *)
Definition check_step_targets (ids : gset string) (step : ToolCall) : result unit :=
  match branching step with
  | None => Ok tt
  | Some b =>
      for_each (λ target,
        _ ← raise_if (bool_decide (target ∉ ids))
              (value_error ("branch target '" +:+ target +:+ "' in step '" +:+
                 step_id step +:+ "' is not a valid step_id"));
        raise_if (bool_decide (target = step_id step))
              (value_error ("branch target '" +:+ target +:+ "' in step '" +:+
                 step_id step +:+ "' cannot self-reference")))
        (all_targets b)
  end.

Definition check_approval (m : BatchedMacroRequest) (approval_step_id : string) : result unit :=
  _ ← raise_if (bool_decide (approval_step_id ∉ step_ids m))
        (value_error ("approval decision step_id '" +:+ approval_step_id +:+
           "' is not a valid step_id"));
  raise_if (match step_by_id m approval_step_id with
            | Some s => negb (approval_required s)
            | None => true
            end)
    (value_error ("approval decision provided for step '" +:+ approval_step_id +:+
       "' without approval.required=true")).

(** [BatchedMacroRequest.validate_branch_targets] *)
Definition validate_branch_targets (m : BatchedMacroRequest) : result unit :=
  _ ← raise_if (negb (size (step_ids m) =? length (steps m)))
        (value_error "macro step_id values must be unique");
  _ ← for_each (check_step_targets (step_ids m)) (steps m);
  _ ← for_each (check_approval m) (approvals m).*1;
  validate_dependency_graph_acyclic m.

(** ** What the scanners find *)

(** The references in the leaves of a value, and how deep its leaves are. *)
Fixpoint refs_of (v : pyval) : gset string :=
  match v with
  | PStr s => match string_reference s with Some r => {[r]} | None => ∅ end
  | PList l => ⋃ (refs_of <$> l)
  | PDict d => ⋃ ((λ kv, refs_of kv.2) <$> d)
  | _ => ∅
  end.

Fixpoint nesting (v : pyval) : nat :=
  match v with
  | PList l => max_list ((λ v, S (nesting v)) <$> l)
  | PDict d => max_list ((λ kv, S (nesting kv.2)) <$> d)
  | _ => 0
  end.

Lemma max_list_le l n : max_list l ≤ n ↔ Forall (λ x, x ≤ n) l.
Proof.
  induction l as [|x l IH]; simpl; [split; [constructor|lia]|].
  rewrite Forall_cons, <- IH. lia.
Qed.

Section extract.
Context {A : Type} (proj : A → pyval) (max_depth depth : nat).

(** Both container cases at once: the elements are read one level deeper. *)
Lemma extract_elements (l : list A) acc :
  Forall (λ x,
    (depth + nesting (proj x) ≤ max_depth →
     extract_argument_step_references max_depth depth (proj x) = Ok (refs_of (proj x))) ∧
    (max_depth < depth + nesting (proj x) →
     is_ok (extract_argument_step_references max_depth depth (proj x)) = false)) l →
  (Forall (λ x, depth + nesting (proj x) ≤ max_depth) l →
   fold_result (λ refs x,
     r ← extract_argument_step_references max_depth depth (proj x); Ok (refs ∪ r)) acc l = Ok (acc ∪ ⋃ ((λ x, refs_of (proj x)) <$> l))) ∧
  (¬ Forall (λ x, depth + nesting (proj x) ≤ max_depth) l →
   is_ok (fold_result (λ refs x,
     r ← extract_argument_step_references max_depth depth (proj x); Ok (refs ∪ r)) acc l) = false).
Proof.
  intros Hl. revert acc. induction Hl as [|x l [H1 H2] Hl IH]; intros acc; simpl.
  - split; [intros _; f_equal; set_solver|]. intros []. constructor.
  - rewrite Forall_cons.
    destruct (decide (depth + nesting (proj x) ≤ max_depth)) as [Hd|Hd].
    + rewrite H1 by done. simpl. destruct (IH (acc ∪ refs_of (proj x))) as [IH1 IH2].
      split; [intros [_ Hf]; rewrite IH1 by done; f_equal; set_solver|].
      intros Hn. apply IH2. tauto.
    + split; [tauto|]. intros _. specialize (H2 ltac:(lia)).
      by destruct (extract_argument_step_references max_depth depth (proj x)).
Qed.
End extract.

(** The scanner returns the references of the leaves, and raises exactly when
    a leaf is deeper than the limit. *)
Lemma extract_spec max_depth v : ∀ depth,
  (depth + nesting v ≤ max_depth →
   extract_argument_step_references max_depth depth v = Ok (refs_of v)) ∧
  (max_depth < depth + nesting v →
   is_ok (extract_argument_step_references max_depth depth v) = false).
Proof.
  assert (∀ d n, (d + n <= max_depth ↔ n ≤ max_depth - d ∧ d ≤ max_depth)) as Harith by lia.
  assert (∀ depth {A} (proj : A → pyval) (l : list A), depth ≤ max_depth →
    depth + max_list ((λ x, S (nesting (proj x))) <$> l) ≤ max_depth ↔
    Forall (λ x, S depth + nesting (proj x) ≤ max_depth) l) as Hmax.
  { intros depth A proj l Hd. rewrite Harith, max_list_le, Forall_fmap.
    split.
    - intros [H _]. eapply Forall_impl; [exact H|]. simpl. lia.
    - intros H. split; [|done]. eapply Forall_impl; [exact H|]. simpl. lia. }
  induction v as [| | | | s | l IH | d IH] using pyval_rect_nested; intros depth;
    simpl extract_argument_step_references; simpl nesting;
    (destruct (max_depth <? depth) eqn:Hd;
      [apply Nat.ltb_lt in Hd; split; [lia|done]
      |apply Nat.ltb_ge in Hd; simpl]);
    try (split; [done|lia]).
  - destruct (extract_elements id max_depth (S depth) l ∅) as [H1 H2].
    { eapply Forall_impl; [exact IH|]. intros x Hx. apply (Hx (S depth)). }
    specialize (Hmax depth _ id l Hd). simpl in *. split; intros H.
    + rewrite H1 by (by apply Hmax). f_equal. set_solver.
    + apply H2. rewrite <- Hmax. lia.
  - destruct (extract_elements snd max_depth (S depth) d ∅) as [H1 H2].
    { eapply Forall_impl; [exact IH|]. intros x Hx. apply (Hx (S depth)). }
    specialize (Hmax depth _ snd d Hd). simpl in *. split; intros H.
    + rewrite H1 by (by apply Hmax). f_equal. set_solver.
    + apply H2. rewrite <- Hmax. lia.
Qed.

Lemma extract_Ok max_depth v X :
  extract_argument_step_references max_depth 0 v = Ok X ↔
  nesting v ≤ max_depth ∧ X = refs_of v.
Proof.
  destruct (extract_spec max_depth v 0) as [H1 H2]. split.
  - intros H. destruct (decide (nesting v ≤ max_depth)) as [Hd|Hd].
    + split; [done|]. rewrite H1 in H by done. congruence.
    + rewrite H in H2. simpl in H2. specialize (H2 ltac:(lia)). done.
  - intros [Hd ->]. by apply H1.
Qed.

(** ** The arcs of a macro *)

(** The arcs one step contributes: from the steps its arguments mention, from
    the steps its condition mentions, and to its branch targets. *)
Definition argument_arcs (ids : gset string) (sid : string) (v : pyval) : list (string * string) :=
  (λ dep, (dep, sid)) <$> filter (λ dep, dep ∈ ids) (elements (refs_of v)).
Definition condition_arcs (ids : gset string) (sid : string) (b : BranchingRule) :
    list (string * string) :=
  (λ dep, (dep, sid)) <$> filter (λ dep, dep ≠ sid ∧ dep ∈ ids)
                            (elements (extract_condition_step_references (condition b))).
Definition target_arcs (sid : string) (b : BranchingRule) : list (string * string) :=
  (λ target, (sid, target)) <$> all_targets b.
Definition step_arcs (ids : gset string) (s : ToolCall) : list (string * string) :=
  concat (argument_arcs ids (step_id s) <$> (arguments s).*2) ++
  match branching s with
  | Some b => condition_arcs ids (step_id s) b ++ target_arcs (step_id s) b
  | None => []
  end.
Definition macro_arcs (m : BatchedMacroRequest) : list (string * string) :=
  concat (step_arcs (step_ids m) <$> steps m).

Definition targets_valid (ids : gset string) (s : ToolCall) : Prop :=
  match branching s with
  | Some b => Forall (λ t, t ∈ ids) (all_targets b)
  | None => True
  end.
Definition nesting_ok (s : ToolCall) : Prop := Forall (λ kv, nesting kv.2 ≤ 32) (arguments s).

#[export] Instance nesting_ok_dec s : Decision (nesting_ok s).
Proof. unfold nesting_ok. apply _. Defined.

Lemma add_arcs_app g l1 l2 : add_arcs g (l1 ++ l2) = add_arcs (add_arcs g l1) l2.
Proof. apply foldl_app. Qed.

Lemma add_edge_ok ids g a b : a ∈ ids → b ∈ ids → add_edge ids g a b = Ok (add_arc g a b).
Proof. intros. unfold add_edge. by rewrite !bool_decide_eq_false_2 by tauto. Qed.

(** Guarded calls of [add_edge] over a list of dependencies. *)
Lemma fold_add_edge ids sid (P : string → Prop) `{!∀ x, Decision (P x)} l g :
  sid ∈ ids → (∀ dep, P dep → dep ∈ ids) →
  fold_result (λ g dep, if decide (P dep) then add_edge ids g dep sid else Ok g) g l =
  Ok (add_arcs g ((λ dep, (dep, sid)) <$> filter P l)).
Proof.
  intros Hs HP. revert g. induction l as [|dep l IH]; intros g; simpl; [done|].
  rewrite filter_cons. case_decide as Hd; simpl; [|by apply IH].
  rewrite add_edge_ok by auto. simpl. by rewrite IH.
Qed.

Lemma fold_add_targets ids sid l g :
  sid ∈ ids → Forall (λ t, t ∈ ids) l →
  fold_result (λ g target, add_edge ids g sid target) g l =
  Ok (add_arcs g ((λ target, (sid, target)) <$> l)).
Proof.
  intros Hs Hl. revert g. induction Hl as [|t l Ht Hl IH]; intros g; simpl; [done|].
  rewrite add_edge_ok by done. simpl. by rewrite IH.
Qed.

Lemma add_argument_edges_spec ids sid g v :
  sid ∈ ids →
  (nesting v ≤ 32 → add_argument_edges ids sid g v = Ok (add_arcs g (argument_arcs ids sid v))) ∧
  (¬ nesting v ≤ 32 → is_ok (add_argument_edges ids sid g v) = false).
Proof.
  intros Hs. destruct (extract_spec 32 v 0) as [H1 H2]. unfold add_argument_edges. split; intros H.
  - rewrite H1 by done. simpl. rewrite fold_add_edge; done.
  - specialize (H2 ltac:(lia)). by destruct (extract_argument_step_references 32 0 v).
Qed.

Lemma fold_argument_edges ids sid g l :
  sid ∈ ids →
  (Forall (λ v, nesting v ≤ 32) l →
   fold_result (add_argument_edges ids sid) g l =
   Ok (add_arcs g (concat (argument_arcs ids sid <$> l)))) ∧
  (¬ Forall (λ v, nesting v ≤ 32) l →
   is_ok (fold_result (add_argument_edges ids sid) g l) = false).
Proof.
  intros Hs. revert g. induction l as [|v l IH]; intros g; simpl.
  { split; [done|]. intros []. constructor. }
  rewrite Forall_cons. destruct (add_argument_edges_spec ids sid g v Hs) as [H1 H2].
  destruct (decide (nesting v ≤ 32)) as [Hd|Hd].
  - rewrite H1 by done. simpl. rewrite add_arcs_app.
    destruct (IH (add_arcs g (argument_arcs ids sid v))) as [IH1 IH2].
    split; intros H; [apply IH1|apply IH2]; tauto.
  - split; [tauto|]. intros _. specialize (H2 Hd).
    by destruct (add_argument_edges ids sid g v).
Qed.

Lemma add_step_edges_spec ids g s :
  step_id s ∈ ids → targets_valid ids s →
  (nesting_ok s → add_step_edges ids g s = Ok (add_arcs g (step_arcs ids s))) ∧
  (¬ nesting_ok s → is_ok (add_step_edges ids g s) = false).
Proof.
  intros Hs Ht. unfold nesting_ok, add_step_edges.
  destruct (fold_argument_edges ids (step_id s) g (arguments s).*2 Hs) as [H1 H2].
  rewrite Forall_fmap in H1, H2. unfold compose in *.
  split; intros H.
  - rewrite H1 by done. simpl. unfold step_arcs, targets_valid in *.
    rewrite add_arcs_app. destruct (branching s) as [b|]; [|done].
    rewrite add_arcs_app.
    assert (∀ g l, fold_result (λ g dep,
      if decide (dep = step_id s) then Ok g
      else if decide (dep ∈ ids) then add_edge ids g dep (step_id s) else Ok g) g l =
      fold_result (λ g dep, if decide (dep ≠ step_id s ∧ dep ∈ ids)
        then add_edge ids g dep (step_id s) else Ok g) g l) as ->.
    { intros g' l. revert g'. induction l as [|x l IH]; intros g'; simpl; [done|].
      repeat case_decide; try tauto; simpl; [apply IH| |apply IH].
      by destruct (add_edge ids g' x (step_id s)); simpl. }
    rewrite fold_add_edge by tauto. simpl. by apply fold_add_targets.
  - specialize (H2 H). by destruct (fold_result _ _ _).
Qed.

Lemma fold_step_edges ids g l :
  Forall (λ s, step_id s ∈ ids ∧ targets_valid ids s) l →
  (Forall nesting_ok l →
   fold_result (add_step_edges ids) g l = Ok (add_arcs g (concat (step_arcs ids <$> l)))) ∧
  (¬ Forall nesting_ok l → is_ok (fold_result (add_step_edges ids) g l) = false).
Proof.
  intros Hl. revert g. induction Hl as [|s l [Hs Ht] Hl IH]; intros g; simpl.
  { split; [done|]. intros []. constructor. }
  rewrite Forall_cons. destruct (add_step_edges_spec ids g s Hs Ht) as [H1 H2].
  destruct (decide (nesting_ok s)) as [Hd|Hd].
  - rewrite H1 by done. simpl. rewrite add_arcs_app.
    destruct (IH (add_arcs g (step_arcs ids s))) as [IH1 IH2].
    split; intros H; [apply IH1|apply IH2]; tauto.
  - split; [tauto|]. intros _. specialize (H2 Hd). by destruct (add_step_edges ids g s).
Qed.

Lemma elem_of_step_ids m x : x ∈ step_ids m ↔ ∃ s, s ∈ steps m ∧ step_id s = x.
Proof.
  unfold step_ids. rewrite elem_of_list_to_set, list_elem_of_fmap. naive_solver.
Qed.

Lemma step_arcs_nodes ids s :
  step_id s ∈ ids → targets_valid ids s →
  Forall (λ st, st.1 ∈ ids ∧ st.2 ∈ ids) (step_arcs ids s).
Proof.
  intros Hs Ht. unfold step_arcs. rewrite Forall_app. split.
  - apply Forall_concat, Forall_fmap, Forall_forall. intros v _. unfold compose.
    apply Forall_fmap, Forall_forall. simpl. intros dep Hd%list_elem_of_filter. tauto.
  - unfold targets_valid in Ht. destruct (branching s) as [b|]; [|constructor].
    rewrite Forall_app. split; apply Forall_fmap, Forall_forall; simpl; intros dep.
    + rewrite list_elem_of_filter. tauto.
    + intros Hd. rewrite Forall_forall in Ht. unfold compose. simpl. auto.
Qed.

(** ** The dependency relation of a macro *)

(** [depends m a b]: step [b] waits for step [a]. *)
Definition depends (m : BatchedMacroRequest) (a b : string) : Prop :=
  a ∈ step_ids m ∧ ∃ s, s ∈ steps m ∧
    ((step_id s = b ∧ ∃ k v, (k, v) ∈ arguments s ∧ a ∈ refs_of v) ∨
     ∃ br, branching s = Some br ∧
       ((step_id s = b ∧ a ≠ b ∧ a ∈ extract_condition_step_references (condition br)) ∨
        (step_id s = a ∧ b ∈ all_targets br))).

Lemma macro_arcs_depends m a b : (a, b) ∈ macro_arcs m ↔ depends m a b.
Proof.
  unfold macro_arcs, depends. rewrite elem_of_concat_list. setoid_rewrite list_elem_of_fmap.
  unfold step_arcs. split.
  - intros (? & Hin & s & -> & Hs). apply elem_of_app in Hin as [Hin|Hin].
    + apply elem_of_concat_list in Hin as (l & Hin & Hl).
      apply list_elem_of_fmap in Hl as (v & -> & Hv).
      apply list_elem_of_fmap in Hv as ([k v'] & -> & Hkv).
      apply list_elem_of_fmap in Hin as (dep & [= -> ->] & Hd).
      apply list_elem_of_filter in Hd as [Hd1 Hd2]. rewrite elem_of_elements in Hd2.
      split; [done|]. exists s. split; [done|]. left. eauto.
    + destruct (branching s) as [br|] eqn:Hbr; [|set_solver].
      apply elem_of_app in Hin as [Hin|Hin];
        apply list_elem_of_fmap in Hin as (dep & [= -> ->] & Hd).
      * apply list_elem_of_filter in Hd as [[Hd1 Hd2] Hd3]. rewrite elem_of_elements in Hd3.
        split; [done|]. exists s. naive_solver.
      * split; [apply elem_of_step_ids; eauto|]. exists s. naive_solver.
  - intros (Ha & s & Hs & Hcase). eexists. split; [|exists s; split; [reflexivity|done]].
    apply elem_of_app. destruct Hcase as [(<- & k & v & Hkv & Hr) | (br & -> & Hcase)].
    + left. apply elem_of_concat_list. exists (argument_arcs (step_ids m) (step_id s) v). split.
      * apply list_elem_of_fmap. exists a. split; [done|].
        apply list_elem_of_filter. by rewrite elem_of_elements.
      * apply list_elem_of_fmap. exists v. split; [done|].
        apply list_elem_of_fmap. by exists (k, v).
    + right. apply elem_of_app. destruct Hcase as [(<- & Hne & Hr)|[<- Hb]]; [left|right];
        apply list_elem_of_fmap.
      * exists a. split; [done|]. apply list_elem_of_filter. by rewrite elem_of_elements.
      * by exists b.
Qed.

Definition macro_targets_valid (m : BatchedMacroRequest) : Prop :=
  Forall (targets_valid (step_ids m)) (steps m).

Lemma macro_targets_valid_steps m :
  macro_targets_valid m →
  Forall (λ s, step_id s ∈ step_ids m ∧ targets_valid (step_ids m) s) (steps m).
Proof.
  intros H. apply Forall_forall. intros s Hs. split; [apply elem_of_step_ids; eauto|].
  by eapply Forall_forall in H.
Qed.

(** The graph the validator builds: it exists exactly when no argument nests
    too deep, and its arcs are the dependency relation. *)
Lemma dependency_graph_spec m :
  macro_targets_valid m →
  (Forall nesting_ok (steps m) → ∃ g, dependency_graph m = Ok g ∧ graph_wf g ∧
     nodes g = step_ids m ∧ ∀ a b, edge g a b ↔ depends m a b) ∧
  (¬ Forall nesting_ok (steps m) → is_ok (dependency_graph m) = false).
Proof.
  intros Ht%macro_targets_valid_steps. unfold dependency_graph.
  destruct (fold_step_edges (step_ids m) (empty_digraph (step_ids m)) (steps m) Ht) as [H1 H2].
  split; [|done]. intros Hn. rewrite H1 by done. fold (macro_arcs m).
  eexists. split; [done|].
  assert (nodes (empty_digraph (step_ids m)) = step_ids m) as Hnodes.
  { unfold nodes. simpl. by rewrite dom_gset_to_gmap. }
  destruct (add_arcs_spec (empty_digraph (step_ids m)) (macro_arcs m)) as (Hwf & Hd & He).
  { apply empty_digraph_wf. }
  { rewrite Hnodes. apply Forall_concat, Forall_fmap. eapply Forall_impl; [exact Ht|].
    intros s [??]. by apply step_arcs_nodes. }
  split_and!; [done|by rewrite Hd|]. intros a b. rewrite He, macro_arcs_depends.
  unfold edge at 1. simpl. rewrite targets_empty. set_solver.
Qed.

(** ** What a valid macro is *)

(** The reachability of the dependency relation: [a] is needed, directly or
    not, by [b]. *)
Definition macro_acyclic (m : BatchedMacroRequest) : Prop := ∀ a, ¬ tc (depends m) a a.

Record macro_wf (m : BatchedMacroRequest) : Prop := {
  mw_unique : NoDup (step_id <$> steps m);
  mw_targets : ∀ s b t, s ∈ steps m → branching s = Some b → t ∈ all_targets b →
    t ∈ step_ids m ∧ t ≠ step_id s;
  mw_approvals : ∀ sid d, (sid, d) ∈ approvals m →
    ∃ s, s ∈ steps m ∧ step_id s = sid ∧ approval_required s = true;
  mw_nesting : Forall nesting_ok (steps m);
  mw_acyclic : macro_acyclic m;
}.

Lemma tc_iff {A} (R S : relation A) x y : (∀ a b, R a b ↔ S a b) → tc R x y ↔ tc S x y.
Proof.
  intros H. split; induction 1.
  all: try (by apply tc_once, H).
  all: eapply tc_l; [by apply H | done].
Qed.

Lemma size_step_ids m :
  (size (step_ids m) =? length (steps m)) = true ↔ NoDup (step_id <$> steps m).
Proof.
  rewrite Nat.eqb_eq. unfold step_ids.
  rewrite <- (length_fmap step_id). generalize (step_id <$> steps m) as l. intros l.
  split; [|by apply size_list_to_set].
  induction l as [|x l IH]; simpl; [constructor|].
  intros Hsize. destruct (decide (x ∈ l)) as [Hx|Hx].
  - rewrite subseteq_union_1_L in Hsize by (by apply singleton_subseteq_l, elem_of_list_to_set).
    exfalso. assert (size (list_to_set l : gset string) ≤ length l) as Hle; [|lia].
    clear. induction l as [|x l IH]; [done|]. cbn [length]. rewrite list_to_set_cons.
    rewrite size_union_alt, size_singleton.
    pose proof (subseteq_size (list_to_set l ∖ {[x]} : gset string) (list_to_set l)
                  ltac:(set_solver)). lia.
  - constructor; [done|]. apply IH. rewrite size_union, size_singleton in Hsize; [lia|].
    intros y ->%elem_of_singleton Hy%elem_of_list_to_set. done.
Qed.

Lemma step_by_id_spec m sid s :
  NoDup (step_id <$> steps m) → step_by_id m sid = Some s ↔ s ∈ steps m ∧ step_id s = sid.
Proof.
  unfold step_by_id. intros HND. split.
  - intros H. apply last_Some_elem_of, list_elem_of_filter in H. tauto.
  - intros [Hs Hid]. apply list_elem_of_split in Hs as (l1 & l2 & Heq).
    rewrite Heq in HND |- *. rewrite fmap_app, fmap_cons in HND.
    rewrite filter_app, filter_cons, decide_True by done.
    assert (∀ l, sid ∉ step_id <$> l → filter (λ s, step_id s = sid) l = []) as Hnil.
    { induction l as [|x l IH]; intros Hl; [done|]. rewrite fmap_cons, not_elem_of_cons in Hl.
      rewrite filter_cons, decide_False by naive_solver. apply IH. tauto. }
    apply NoDup_app in HND as (_ & _ & HND). apply NoDup_cons in HND as [Hn _].
    rewrite (Hnil l2) by (by rewrite <- Hid). by rewrite last_snoc.
Qed.

Lemma validate_acyclic_Ok m :
  macro_targets_valid m →
  validate_dependency_graph_acyclic m = Ok tt ↔
  Forall nesting_ok (steps m) ∧ macro_acyclic m.
Proof.
  intros Ht. destruct (dependency_graph_spec m Ht) as [H1 H2].
  unfold validate_dependency_graph_acyclic.
  destruct (decide (Forall nesting_ok (steps m))) as [Hn|Hn].
  - destruct (H1 Hn) as (g & -> & Hwf & Hnodes & Hedge). simpl.
    destruct (kahn_order_acyclic g Hwf) as (l & -> & _ & _ & _ & Hac & _).
    rewrite raise_if_Ok, negb_false_iff, Nat.eqb_eq, <- Hnodes, Hac.
    unfold acyclic, macro_acyclic. split; [intros H; split; [done|]|intros [_ H]];
      intros a Ha; apply (H a); revert Ha; by apply tc_iff.
  - specialize (H2 Hn). destruct (dependency_graph m); [done|]. simpl. naive_solver.
Qed.

Lemma check_step_targets_Ok ids l :
  for_each (check_step_targets ids) l = Ok tt ↔
  ∀ s b t, s ∈ l → branching s = Some b → t ∈ all_targets b → t ∈ ids ∧ t ≠ step_id s.
Proof.
  rewrite for_each_Ok, Forall_forall. unfold check_step_targets. split.
  - intros H s b t Hs Hb Ht. specialize (H s Hs). rewrite Hb in H.
    rewrite for_each_Ok, Forall_forall in H. specialize (H t Ht).
    inv_result. destruct (decide (t ∈ ids)); naive_solver.
  - intros H s Hs. destruct (branching s) as [b|] eqn:Hb; [|done].
    rewrite for_each_Ok, Forall_forall. intros t Ht. destruct (H s b t Hs Hb Ht).
    by rewrite !bool_decide_eq_false_2 by tauto.
Qed.

Lemma check_approvals_Ok m :
  NoDup (step_id <$> steps m) →
  for_each (check_approval m) (approvals m).*1 = Ok tt ↔
  ∀ sid d, (sid, d) ∈ approvals m →
    ∃ s, s ∈ steps m ∧ step_id s = sid ∧ approval_required s = true.
Proof.
  intros HND. rewrite for_each_Ok, Forall_fmap, Forall_forall.
  unfold compose, check_approval. split.
  - intros H sid d Hd. specialize (H _ Hd). simpl in H. inv_result.
    destruct (step_by_id m sid) as [s|] eqn:Hs; [|done].
    apply step_by_id_spec in Hs as [? ?]; [|done]. inv_result. eauto.
  - intros H [sid d] Hd. destruct (H sid d Hd) as (s & Hs & Hid & Hr). simpl.
    assert (sid ∈ step_ids m) by (rewrite elem_of_step_ids; eauto).
    rewrite bool_decide_eq_false_2 by tauto. simpl.
    assert (step_by_id m sid = Some s) as -> by (by apply step_by_id_spec). by rewrite Hr.
Qed.

Lemma check_targets_valid m :
  for_each (check_step_targets (step_ids m)) (steps m) = Ok tt → macro_targets_valid m.
Proof.
  rewrite check_step_targets_Ok. intros H. apply Forall_forall. intros s Hs.
  unfold targets_valid. destruct (branching s) as [b|] eqn:Hb; [|done].
  apply Forall_forall. naive_solver.
Qed.

Lemma validate_branch_targets_spec m : validate_branch_targets m = Ok tt ↔ macro_wf m.
Proof.
  unfold validate_branch_targets. rewrite bind_Ok. setoid_rewrite bind_Ok.
  setoid_rewrite bind_Ok. setoid_rewrite raise_if_Ok.
  setoid_rewrite negb_false_iff. setoid_rewrite size_step_ids. split.
  - intros ([] & HND & [] & Ht & [] & Ha & Hg).
    pose proof (check_targets_valid m Ht) as Hv.
    apply validate_acyclic_Ok in Hg as [Hn Hac]; [|done].
    pose proof (proj1 (check_approvals_Ok m HND) Ha).
    split; try done. by apply check_step_targets_Ok.
  - intros [HND Ht Ha Hn Hac]. apply check_step_targets_Ok in Ht.
    exists tt. split; [done|]. exists tt. split; [done|].
    exists tt. split; [by apply check_approvals_Ok|].
    apply validate_acyclic_Ok; [by apply check_targets_valid|done].
Qed.

(** Everything the graph construction raises is a [ValueError]. *)
Lemma extract_Raise max_depth v e : ∀ depth,
  extract_argument_step_references max_depth depth v = Raise e → exn_cls e = ValueError.
Proof.
  induction v as [| | | | s | l IH | d IH] using pyval_rect_nested; intros depth;
    simpl; rewrite bind_Raise; intros [H|([] & _ & H)]; inv_result; try done;
    apply fold_result_Raise in H as (acc & x & Hx & H);
    rewrite Forall_forall in IH; specialize (IH x Hx);
    apply bind_Raise in H as [H|(r & _ & H)]; inv_result; eauto.
Qed.

Lemma dependency_graph_Raise m e : dependency_graph m = Raise e → exn_cls e = ValueError.
Proof.
  assert (∀ ids g a b e, add_edge ids g a b = Raise e → exn_cls e = ValueError) as Hadd.
  { intros ids g a b e'. unfold add_edge. rewrite bind_Raise.
    intros [H|([] & _ & H)]; [by inv_result|].
    apply bind_Raise in H as [H|([] & _ & H)]; by inv_result. }
  intros H. apply fold_result_Raise in H as (g & s & _ & H). unfold add_step_edges in H.
  apply bind_Raise in H as [H|(g' & _ & H)].
  - apply fold_result_Raise in H as (g' & v & _ & H). unfold add_argument_edges in H.
    apply bind_Raise in H as [H|(refs & _ & H)]; [by eapply extract_Raise|].
    apply fold_result_Raise in H as (g'' & dep & _ & H). case_decide; [by eapply Hadd|done].
  - destruct (branching s); [|done].
    apply bind_Raise in H as [H|(g'' & _ & H)];
      apply fold_result_Raise in H as (? & dep & _ & H);
      repeat case_decide; first [done | by eapply Hadd].
Qed.

(** ** Properties *)

(** C8: a macro passes validation exactly when its step ids are unique, every
    branch target is another step of the macro, every approval decision is for
    a step that requires one, no argument nests deeper than 32, and no step
    needs itself through argument references, condition references and branch
    arcs. The cycle check always ends: the loop of Kahn's algorithm never runs
    out of fuel. *)
Theorem macro_validation_correct m :
  (validate_branch_targets m = Ok tt ↔ macro_wf m) ∧
  validate_branch_targets m ≠ Raise out_of_fuel.
Proof.
  split; [apply validate_branch_targets_spec|].
  unfold validate_branch_targets. intros H.
  apply bind_Raise in H as [H|([] & Hids & H)]; [by inv_result|].
  apply bind_Raise in H as [H|([] & Ht & H)].
  { apply for_each_Raise in H as (? & s & ? & _ & _ & H).
    unfold check_step_targets in H. destruct (branching s); [|done].
    apply for_each_Raise in H as (? & t & ? & _ & _ & H).
    apply bind_Raise in H as [H|([] & _ & H)]; by inv_result. }
  apply bind_Raise in H as [H|([] & _ & H)].
  { apply for_each_Raise in H as (? & s & ? & _ & _ & H).
    apply bind_Raise in H as [H|([] & _ & H)]; by inv_result. }
  apply check_targets_valid in Ht.
  apply bind_Raise in H as [H|(g & Hg & H)].
  - by apply dependency_graph_Raise in H.
  - destruct (dependency_graph_spec m Ht) as [H1 H2].
    destruct (decide (Forall nesting_ok (steps m))) as [Hn|Hn].
    + destruct (H1 Hn) as (g' & Hg' & Hwf & _).
      rewrite Hg in Hg'. injection Hg' as <-.
      destruct (kahn_order_acyclic g Hwf) as (l & Hl & _).
      rewrite Hl in H. by inv_result.
    + rewrite Hg in H2. by apply H2 in Hn.
Qed.
