(* ===== verification/Workflow.v ===== *)
(** Persisted workflow graphs ([WorkflowGraphNode], [WorkflowGraphEdge] and
    [PersistedWorkflowGraph] of [eap/protocol/models.py]): the graph validator,
    and the compilation of a graph into a macro whose step order respects the
    dependency edges. *)
From stdpp Require Import options.
From S2P Require Import Prelude Graph Values Models.

Inductive WorkflowEdgeKind := DEPENDENCY | BRANCH_TRUE | BRANCH_FALSE | BRANCH_FALLBACK.

#[global] Instance WorkflowEdgeKind_eq_dec : EqDecision WorkflowEdgeKind.
Proof. solve_decision. Defined.

(** [kind.value] *)
Definition kind_value (k : WorkflowEdgeKind) : string :=
  match k with
  | DEPENDENCY => "dependency"
  | BRANCH_TRUE => "branch_true"
  | BRANCH_FALSE => "branch_false"
  | BRANCH_FALLBACK => "branch_fallback"
  end.

Record WorkflowGraphNode := {
  node_id : string;
  node_step : ToolCall;
  label : option string;
  position_x : Q;
  position_y : Q;
}.

(** [WorkflowGraphNode.validate_node] *)
Definition validate_node (n : WorkflowGraphNode) : result unit :=
  raise_if (py_blank (node_id n)) (value_error "node_id cannot be empty").

Record WorkflowGraphEdge := {
  source_node_id : string;
  target_node_id : string;
  edge_kind : WorkflowEdgeKind;
}.

(** [WorkflowGraphEdge.validate_edge] *)
Definition validate_edge (e : WorkflowGraphEdge) : result unit :=
  raise_if (bool_decide (source_node_id e = target_node_id e))
    (value_error "workflow edges cannot self-reference a node").

Record PersistedWorkflowGraph := {
  workflow_id : string;
  version : Z;
  graph_nodes : list WorkflowGraphNode;
  graph_edges : list WorkflowGraphEdge;
  graph_created_at_utc : Z;
  graph_updated_at_utc : Z;
  graph_metadata : option pyval;
}.

(** ** The dependency check *)

Definition key_error (m : string) : exn := Exn KeyError m.

(** The body of [for edge in dependency_edges]: indexing [adjacency] or
    [in_degree] by a node that is not there raises [KeyError]. *)
Definition add_dependency_edge (node_ids : gset string) (g : digraph) (e : WorkflowGraphEdge) :
    result digraph :=
  _ ← raise_if (bool_decide (source_node_id e ∉ node_ids)) (key_error (source_node_id e));
  if decide (target_node_id e ∈ targets (adjacency g) (source_node_id e)) then Ok g else
  _ ← raise_if (bool_decide (target_node_id e ∉ node_ids)) (key_error (target_node_id e));
  Ok (add_arc g (source_node_id e) (target_node_id e)).

Definition build_dependency_graph (node_ids : gset string) (es : list WorkflowGraphEdge) :
    result digraph :=
  fold_result (add_dependency_edge node_ids) (empty_digraph node_ids) es.

(** [PersistedWorkflowGraph._validate_dependency_acyclic] *)
Definition validate_dependency_acyclic (node_ids : gset string) (es : list WorkflowGraphEdge) :
    result unit :=
  g ← build_dependency_graph node_ids es;
  match kahn_order g with
  | None => Raise out_of_fuel
  | Some ordered =>
      raise_if (negb (length ordered =? size node_ids))
        (value_error "dependency edges contain a cycle; workflow graph must be acyclic")
  end.

(** ** The graph validator *)

(** [node_ids], [step_ids] and [node_id_to_step_id]. *)
Record node_index := {
  ni_nodes : list (string * WorkflowGraphNode);
  ni_steps : gset string;
}.

Definition index_node (ix : node_index) (n : WorkflowGraphNode) : result node_index :=
  _ ← raise_if (bool_decide (node_id n ∈ (ni_nodes ix).*1))
        (value_error ("duplicate node_id '" +:+ node_id n +:+ "' in workflow graph"));
  _ ← raise_if (bool_decide (step_id (node_step n) ∈ ni_steps ix))
        (value_error ("duplicate step_id '" +:+ step_id (node_step n) +:+
           "' in workflow graph nodes"));
  Ok {| ni_nodes := dict_set (ni_nodes ix) (node_id n) n;
        ni_steps := {[step_id (node_step n)]} ∪ ni_steps ix |}.

(** One entry of [branch_edges_by_source]. *)
Record branch_sets := { bs_true : gset string; bs_false : gset string; bs_fallback : gset string }.
Definition no_branches : branch_sets := {| bs_true := ∅; bs_false := ∅; bs_fallback := ∅ |}.
Definition add_branch (k : WorkflowEdgeKind) (sid : string) (b : branch_sets) : branch_sets :=
  match k with
  | BRANCH_TRUE => {| bs_true := {[sid]} ∪ bs_true b; bs_false := bs_false b;
                      bs_fallback := bs_fallback b |}
  | BRANCH_FALSE => {| bs_true := bs_true b; bs_false := {[sid]} ∪ bs_false b;
                       bs_fallback := bs_fallback b |}
  | BRANCH_FALLBACK => {| bs_true := bs_true b; bs_false := bs_false b;
                          bs_fallback := {[sid]} ∪ bs_fallback b |}
  | DEPENDENCY => b
  end.

(** [branch_edges_by_source] and [dependency_edges]. *)
Record edge_index := {
  ei_branches : gmap string branch_sets;
  ei_dependencies : list WorkflowGraphEdge;
}.

Definition index_edge (node_map : list (string * WorkflowGraphNode)) (ix : edge_index)
    (e : WorkflowGraphEdge) : result edge_index :=
  match dict_get node_map (source_node_id e) with
  | None => Raise (value_error ("edge source '" +:+ source_node_id e +:+ "' is not a valid node_id"))
  | Some source_node =>
      match dict_get node_map (target_node_id e) with
      | None => Raise (value_error ("edge target '" +:+ target_node_id e +:+
                         "' is not a valid node_id"))
      | Some target_node =>
          if decide (edge_kind e = DEPENDENCY) then
            Ok {| ei_branches := ei_branches ix; ei_dependencies := ei_dependencies ix ++ [e] |}
          else
          _ ← raise_if (is_None (branching (node_step source_node)))
                (value_error ("branch edge from '" +:+ source_node_id e +:+
                   "' requires source step branching metadata"));
          Ok {| ei_branches :=
                  <[source_node_id e :=
                      add_branch (edge_kind e) (step_id (node_step target_node))
                        (default no_branches (ei_branches ix !! source_node_id e))]>
                    (ei_branches ix);
                ei_dependencies := ei_dependencies ix |}
      end
  end.

(** The loop that compares drawn branch edges with the branching rule. *)
Definition check_branch_sets (branches : gmap string branch_sets) (n : WorkflowGraphNode) :
    result unit :=
  match branching (node_step n) with
  | None => Ok tt
  | Some b =>
      let actual := default no_branches (branches !! node_id n) in
      for_each (λ '(k, a, x),
        raise_if (bool_decide (a ≠ list_to_set (C:=gset string) x))
          (value_error ("branch edges for node '" +:+ node_id n +:+ "' and kind '" +:+
             kind_value k +:+ "' must exactly match branching target step_ids")))
        [(BRANCH_TRUE, bs_true actual, true_target_step_ids b);
         (BRANCH_FALSE, bs_false actual, false_target_step_ids b);
         (BRANCH_FALLBACK, bs_fallback actual, fallback_target_step_ids b)]
  end.

(** [PersistedWorkflowGraph.validate_graph] *)
Definition validate_graph (w : PersistedWorkflowGraph) : result unit :=
  _ ← raise_if (py_blank (workflow_id w)) (value_error "workflow_id cannot be empty");
  _ ← raise_if (is_nil (graph_nodes w)) (value_error "workflow graph requires at least one node");
  nix ← fold_result index_node {| ni_nodes := []; ni_steps := ∅ |} (graph_nodes w);
  eix ← fold_result (index_edge (ni_nodes nix))
          {| ei_branches := ∅; ei_dependencies := [] |} (graph_edges w);
  _ ← for_each (check_branch_sets (ei_branches eix)) (graph_nodes w);
  validate_dependency_acyclic (list_to_set (ni_nodes nix).*1) (ei_dependencies eix).

(** ** Compilation *)

(** [BatchedMacroRequest(...)]: pydantic wraps what the validator raises. *)
Definition construct_macro (m : BatchedMacroRequest) : result BatchedMacroRequest :=
  match validate_branch_targets m with
  | Ok _ => Ok m
  | Raise e => Raise (Exn ValidationError (exn_msg e))
  end.

(** [{node.node_id: node for node in self.nodes}] *)
Definition node_map (w : PersistedWorkflowGraph) : list (string * WorkflowGraphNode) :=
  foldl (λ d n, dict_set d (node_id n) n) [] (graph_nodes w).

(** [PersistedWorkflowGraph.to_batched_macro_request] *)
Definition to_batched_macro_request (w : PersistedWorkflowGraph) (return_final : bool)
    (retry : option RetryPolicy) (limits : option ExecutionLimits) : result BatchedMacroRequest :=
  let node_ids := list_to_set (node_id <$> graph_nodes w) in
  g ← build_dependency_graph node_ids
        (filter (λ e, edge_kind e = DEPENDENCY) (graph_edges w));
  match kahn_order g with
  | None => Raise out_of_fuel
  | Some ordered =>
      _ ← raise_if (negb (length ordered =? length (graph_nodes w)))
            (value_error "cannot compile workflow graph with cyclic dependency edges");
      macro_steps ← map_result (λ nid,
        match dict_get (node_map w) nid with
        | Some n => Ok (node_step n)
        | None => Raise (key_error nid)
        end) ordered;
      construct_macro {|
        steps := macro_steps;
        return_final_state_only := return_final;
        retry_policy := default default_retry_policy retry;
        execution_limits := limits;
        approvals := [];
      |}
  end.

(** ** What a validated graph guarantees *)

Definition edge_pair (e : WorkflowGraphEdge) : string * string :=
  (source_node_id e, target_node_id e).
Definition edge_inside (ids : gset string) (e : WorkflowGraphEdge) : Prop :=
  source_node_id e ∈ ids ∧ target_node_id e ∈ ids.

Lemma add_dependency_edge_inside ids g e :
  edge_inside ids e →
  add_dependency_edge ids g e = Ok (add_arc g (source_node_id e) (target_node_id e)).
Proof.
  intros [Hs Ht]. unfold add_dependency_edge, add_arc.
  rewrite bool_decide_eq_false_2 by tauto. simpl.
  repeat case_decide; try done; by rewrite bool_decide_eq_false_2 by tauto.
Qed.

Lemma build_dependency_graph_spec ids es :
  Forall (edge_inside ids) es →
  ∃ g, build_dependency_graph ids es = Ok g ∧ graph_wf g ∧ Graph.nodes g = ids ∧
       ∀ a b, edge g a b ↔ (a, b) ∈ edge_pair <$> es.
Proof.
  intros Hes. unfold build_dependency_graph.
  assert (∀ g, fold_result (add_dependency_edge ids) g es =
               Ok (add_arcs g (edge_pair <$> es))) as ->.
  { clear -Hes. induction Hes as [|e es He Hes IH]; intros g; simpl; [done|].
    rewrite add_dependency_edge_inside by done. simpl. by rewrite IH. }
  eexists. split; [done|].
  assert (Graph.nodes (empty_digraph ids) = ids) as Hn.
  { unfold Graph.nodes. simpl. by rewrite dom_gset_to_gmap. }
  destruct (add_arcs_spec (empty_digraph ids) (edge_pair <$> es)) as (Hwf & Hd & He).
  { apply empty_digraph_wf. }
  { rewrite Hn. apply Forall_fmap. eapply Forall_impl; [exact Hes|].
    intros e [??]. by split. }
  split_and!; [done|by rewrite Hd|]. intros a b. rewrite He.
  unfold edge at 1. simpl. rewrite targets_empty. set_solver.
Qed.

Lemma index_nodes_Ok ns ix ix' :
  fold_result index_node ix ns = Ok ix' → NoDup (ni_nodes ix).*1 →
  ni_nodes ix' = ni_nodes ix ++ ((λ n, (node_id n, n)) <$> ns) ∧ NoDup (ni_nodes ix').*1.
Proof.
  revert ix. induction ns as [|n ns IH]; intros ix H HND; simpl in H.
  - injection H as <-. by rewrite app_nil_r.
  - apply bind_Ok in H as (ix1 & H1 & H). unfold index_node in H1. inv_result.
    assert (∀ d : list (string * WorkflowGraphNode), node_id n ∉ d.*1 →
      dict_set d (node_id n) n = d ++ [(node_id n, n)]) as Hset.
    { induction d as [|[k v] d IHd]; simpl; intros Hd; [done|].
      rewrite not_elem_of_cons in Hd. rewrite decide_False by naive_solver.
      f_equal. apply IHd. tauto. }
    apply IH in H as [Heq HND']; simpl in *; [|by apply dict_set_NoDup].
    split; [|done]. rewrite Heq, Hset by done. by rewrite <- app_assoc.
Qed.

Lemma index_edges_Ok nm es ix ix' :
  fold_result (index_edge nm) ix es = Ok ix' →
  Forall (edge_inside (list_to_set nm.*1)) es ∧
  ei_dependencies ix' = ei_dependencies ix ++ filter (λ e, edge_kind e = DEPENDENCY) es.
Proof.
  revert ix. induction es as [|e es IH]; intros ix H; simpl in H.
  - injection H as <-. by rewrite app_nil_r.
  - apply bind_Ok in H as (ix1 & H1 & H). apply IH in H as [Hall Hdep].
    unfold index_edge in H1.
    destruct (dict_get nm (source_node_id e)) as [sn|] eqn:Hs; [|done].
    destruct (dict_get nm (target_node_id e)) as [tn|] eqn:Ht; [|done].
    assert (edge_inside (list_to_set nm.*1) e) as He.
    { apply dict_get_elem in Hs, Ht. split; apply elem_of_list_to_set, list_elem_of_fmap.
      - by exists (source_node_id e, sn).
      - by exists (target_node_id e, tn). }
    split; [by constructor|]. rewrite Hdep, filter_cons.
    case_decide; inv_result; simpl; by rewrite <- ?app_assoc.
Qed.

Lemma node_map_NoDup w :
  NoDup (node_id <$> graph_nodes w) →
  node_map w = (λ n, (node_id n, n)) <$> graph_nodes w.
Proof.
  unfold node_map. generalize (graph_nodes w) as ns. intros ns.
  assert (∀ acc : list (string * WorkflowGraphNode),
    NoDup (acc.*1 ++ (node_id <$> ns)) →
    foldl (λ d n, dict_set d (node_id n) n) acc ns =
    acc ++ ((λ n, (node_id n, n)) <$> ns)) as Hgen; [|by apply (Hgen [])].
  induction ns as [|n ns IH]; intros acc HND; simpl; [by rewrite app_nil_r|].
  rewrite fmap_cons in HND.
  assert (dict_set acc (node_id n) n = acc ++ [(node_id n, n)]) as ->.
  { clear IH. apply NoDup_app in HND as (_ & Hd & _).
    assert (node_id n ∉ acc.*1) as Hn by (intros H; by apply (Hd _ H); left).
    clear Hd. induction acc as [|[k v] acc IHa]; simpl in *; [done|].
    rewrite not_elem_of_cons in Hn. rewrite decide_False by naive_solver.
    f_equal. apply IHa. tauto. }
  rewrite IH; [by rewrite <- app_assoc|].
  rewrite fmap_app. simpl. by rewrite <- app_assoc.
Qed.

(** The facts a validated graph carries. *)
Record graph_valid (w : PersistedWorkflowGraph) : Prop := {
  gv_unique : NoDup (node_id <$> graph_nodes w);
  gv_edges : Forall (edge_inside (list_to_set (node_id <$> graph_nodes w))) (graph_edges w);
  gv_acyclic : validate_dependency_acyclic (list_to_set (node_id <$> graph_nodes w))
    (filter (λ e, edge_kind e = DEPENDENCY) (graph_edges w)) = Ok tt;
}.

Lemma validate_graph_valid w : validate_graph w = Ok tt → graph_valid w.
Proof.
  unfold validate_graph. intros H.
  apply bind_Ok in H as ([] & _ & H). apply bind_Ok in H as ([] & _ & H).
  apply bind_Ok in H as (nix & Hn & H). apply bind_Ok in H as (eix & He & H).
  apply bind_Ok in H as ([] & _ & H).
  apply index_nodes_Ok in Hn as [Hn HND]; [|constructor]. simpl in Hn.
  apply index_edges_Ok in He as [Hes Hdep]. simpl in Hdep.
  assert ((ni_nodes nix).*1 = node_id <$> graph_nodes w) as Hkeys.
  { rewrite Hn, <- list_fmap_compose. done. }
  rewrite Hkeys in *. rewrite Hdep in H. by split.
Qed.

Lemma map_result_nodes (l : list WorkflowGraphNode) d : (∀ n, n ∈ l → dict_get d (node_id n) = Some n) →
  map_result (λ k, match dict_get d k with
                   | Some n => Ok (node_step n) | None => Raise (key_error k) end) (node_id <$> l) = Ok (node_step <$> l).
Proof.
  induction l as [|n l IH]; intros Hl; [done|]. rewrite !fmap_cons. cbn [map_result]. rewrite (Hl n) by left.
  cbn [mbind result_bind]. rewrite IH; [done|]. intros ? ?. apply Hl. by right.
Qed.

(** ** Properties *)

(** A graph that passed validation compiles: [to_batched_macro_request] reports
    neither a cycle nor a missing node, and builds the macro whose steps are the
    steps of all the nodes, each once, in an order in which the source of every
    dependency edge precedes its target; only the validation of that macro can
    still refuse it. *)
Lemma graph_compiles w return_final retry limits : validate_graph w = Ok tt →
  ∃ ordered, ordered ≡ₚ graph_nodes w ∧
    (∀ e, e ∈ graph_edges w → edge_kind e = DEPENDENCY →
       before (node_id <$> ordered) (source_node_id e) (target_node_id e)) ∧
    to_batched_macro_request w return_final retry limits =
    construct_macro {|
      steps := node_step <$> ordered;
      return_final_state_only := return_final;
      retry_policy := default default_retry_policy retry;
      execution_limits := limits;
      approvals := [] |}.
Proof.
  intros Hvalid. apply validate_graph_valid in Hvalid as [HND Hes Hac].
  set (deps := filter (λ e, edge_kind e = DEPENDENCY) (graph_edges w)) in *.
  assert (Forall (edge_inside (list_to_set (node_id <$> graph_nodes w))) deps) as Hdeps.
  { apply Forall_forall. intros e He%list_elem_of_filter. rewrite Forall_forall in Hes.
    apply Hes. tauto. }
  destruct (build_dependency_graph_spec _ _ Hdeps) as (g & Hg & Hwf & Hn & Hedge).
  destruct (kahn_order_acyclic g Hwf) as (l & Hl & HNDl & Htop & Hin & _ & Hfull).
  unfold validate_dependency_acyclic in Hac. rewrite Hg in Hac. simpl in Hac.
  rewrite Hl in Hac. apply raise_if_Ok, negb_false_iff, Nat.eqb_eq in Hac.
  rewrite <- Hn in Hac. specialize (Hfull Hac).
  assert (l ≡ₚ (node_id <$> graph_nodes w)) as Hperm.
  { apply NoDup_Permutation; [done..|]. intros x. split.
    - intros Hx%Hin. rewrite Hn in Hx. by apply elem_of_list_to_set in Hx.
    - intros Hx. apply Hfull. rewrite Hn. by apply elem_of_list_to_set. }
  destruct (Permutation_map_inv _ _ Hperm) as (ordered & -> & Hord). change (map node_id ordered) with (node_id <$> ordered) in *.
  assert (∀ n, n ∈ ordered → dict_get (node_map w) (node_id n) = Some n) as Hget.
  { intros n Hn'. rewrite node_map_NoDup by done. apply dict_get_Some.
    - by rewrite <- list_fmap_compose.
    - apply list_elem_of_fmap. exists n. by rewrite Hord. }
  exists ordered. split_and!; [done| |].
  - intros e He Hk. eapply topological_before; [done| |].
    + apply Hedge, list_elem_of_fmap. exists e. split; [done|]. by apply list_elem_of_filter.
    + apply Hfull. rewrite Hn. rewrite Forall_forall in Hes. by apply Hes.
  - unfold to_batched_macro_request. fold deps. rewrite Hg. simpl. rewrite Hl.
    rewrite (proj2 (Nat.eqb_eq _ _)) by (by rewrite length_fmap, Hord).
    simpl. by rewrite (map_result_nodes ordered _ Hget).
Qed.

(** Two nodes, the second drawn after the first. *)
Definition sample_step (sid : string) (args : list (string * pyval)) : ToolCall := {|
  tool_name := "tool"; arguments := args; step_id := sid; branching := None; approval := None |}.
Definition sample_graph : PersistedWorkflowGraph := {|
  workflow_id := "wf"; version := 1;
  graph_nodes :=
    [{| node_id := "n2"; node_step := sample_step "b" [("x", PStr "$step:a")];
        label := None; position_x := 0; position_y := 0 |};
     {| node_id := "n1"; node_step := sample_step "a" [];
        label := None; position_x := 0; position_y := 0 |}];
  graph_edges := [{| source_node_id := "n1"; target_node_id := "n2"; edge_kind := DEPENDENCY |}];
  graph_created_at_utc := 0; graph_updated_at_utc := 0; graph_metadata := None |}.
