(* ===== verification/Compiler.v ===== *)
(** Compiling what a language model or an editor wrote into macros
    ([eap/agent/compiler.py]): finding the JSON object in a text, healing its
    steps, and building the macro or the workflow graph.

    The JSON decoder, pydantic's reading of a dict's fields and SHA-256 are
    parameters; the validators of the models are those of [Models] and
    [Workflow]. *)
From stdpp Require Import options.
From S2P Require Import Prelude Graph Values Json Models Workflow.
Unset Default Proof Using.


Section compiler.
Context (float_repr : Q → string) (sha256_hex : string → string).
(** [decoder.raw_decode(raw_payload, start)], the value it finds there. *)
Context (raw_decode : string → nat → result pyval).
(** Pydantic's reading of the fields, before the models' own validators. *)
Context (read_macro : list (string * pyval) → result BatchedMacroRequest).
Context (read_graph : list (string * pyval) → result PersistedWorkflowGraph).
Context (read_retry : list (string * pyval) → result RetryPolicy).
Context (read_limits : list (string * pyval) → result ExecutionLimits).

(** The loop of [_extract_first_json_object] over the braces of what is left. *)
Fixpoint extract_from (raw_payload error_message : string) (start_index : nat) (rest : string) : result (list (string * pyval)) :=
  match rest with
  | "" => Raise (value_error error_message)
  | String c rest =>
      if decide (c = "{"%char) then
        match raw_decode raw_payload start_index with
        | Ok (PDict parsed) => Ok parsed
        | Ok _ => extract_from raw_payload error_message (S start_index) rest
        | Raise e => if decide (exn_cls e = JSONDecodeError) then extract_from raw_payload error_message (S start_index) rest else Raise e
        end
      else extract_from raw_payload error_message (S start_index) rest
  end.
Definition _extract_first_json_object (raw_payload error_message : string) : result (list (string * pyval)) :=
  extract_from raw_payload error_message 0 raw_payload.

(** ** Healing *)

(** [if "tool" in step and "tool_name" not in step: step["tool_name"] = step.pop("tool")] *)
Definition rename_tool (step : list (string * pyval)) : list (string * pyval) :=
  match dict_get step "tool", dict_get step "tool_name" with
  | Some v, None => dict_set (dict_del step "tool") "tool_name" v
  | _, _ => step
  end.
(** [f"auto_step_{digest}"] *)
Definition auto_step_id (step : list (string * pyval)) : string :=
  "auto_step_" +:+ String.substring 0 12 (sha256_hex (json_dumps_sorted float_repr (PDict step))).
(** The body of [for step in parsed_data["steps"]] on a dict. *)
Definition heal_dict (step : list (string * pyval)) : list (string * pyval) :=
  let step := rename_tool step in
  match dict_get step "step_id" with
  | None => dict_set step "step_id" (PStr (auto_step_id step))
  | Some _ => step
  end.

(** On any value: a text or a list answers [in], but can be neither popped from
    nor assigned to by name. *)
Definition heal_step (step : pyval) : result pyval :=
  match step with
  | PDict d => Ok (PDict (heal_dict d))
  | _ =>
      has_tool ← py_in (PStr "tool") step;
      has_name ← (if has_tool : bool then py_in (PStr "tool_name") step else Ok true);
      _ ← raise_if (negb has_name)
            (if is_str step then attribute_error "'str' object has no attribute 'pop'"
             else py_type_error "'str' object cannot be interpreted as an integer");
      has_id ← py_in (PStr "step_id") step;
      _ ← raise_if (negb has_id)
            (py_type_error (if is_str step then "'str' object does not support item assignment"
                            else "list indices must be integers or slices, not str"));
      Ok step
  end.

(** The loop, on the list it changes in place. *)
Fixpoint heal_steps (l : list pyval) : list pyval * result unit :=
  match l with
  | [] => ([], Ok tt)
  | step :: l =>
      match heal_step step with
      | Ok step => let '(l, r) := heal_steps l in (step :: l, r)
      | Raise e => (step :: l, Raise e)
      end
  end.

(** The healed payload; the loop over a text or a dict changes nothing. *)
Definition heal (parsed_data : list (string * pyval)) : list (string * pyval) * result unit :=
  match dict_get parsed_data "steps" with
  | None => (parsed_data, Ok tt)
  | Some (PList l) => let '(l, r) := heal_steps l in (dict_set parsed_data "steps" (PList l), r)
  | Some v => (parsed_data, l ← py_iter v; (heal_steps l).2)
  end.

(** ** Building the models *)

Definition as_validation_error (r : result unit) : result unit :=
  match r with Ok _ => Ok tt | Raise e => Raise (Exn ValidationError (exn_msg e)) end.
Definition check_step (s : ToolCall) : result unit :=
  match branching s with Some b => validate_branch_rule b | None => Ok tt end.
Definition check_retry (r : RetryPolicy) : result unit := raise_if (negb (validate_retry_fields r)) (value_error "RetryPolicy").
Definition check_limits (l : ExecutionLimits) : result unit :=
  _ ← for_each (λ kv : string * ToolExecutionLimit,
        _ ← raise_if (negb (validate_tool_limit_fields kv.2)) (value_error "ToolExecutionLimit"); validate_bucket_contract kv.2) (per_tool l);
  _ ← raise_if (negb (validate_limits_fields l)) (value_error "ExecutionLimits");
  validate_execution_limits l.
(** The validators of the models inside a macro. *)
Definition check_parts (m : BatchedMacroRequest) : result unit :=
  _ ← for_each check_step (steps m);
  _ ← check_retry (retry_policy m);
  _ ← (match execution_limits m with Some l => check_limits l | None => Ok tt end);
  for_each (λ kv : string * StepApprovalDecision, validate_reason kv.2) (approvals m).

(** The constructor of [BatchedMacroRequest] on a dict. *)
Definition macro_of (parsed_data : list (string * pyval)) : result BatchedMacroRequest :=
  m ← read_macro parsed_data;
  _ ← as_validation_error (check_parts m);
  construct_macro m.

(** The constructor of [PersistedWorkflowGraph] on a dict. *)
Definition graph_of (parsed : list (string * pyval)) : result PersistedWorkflowGraph :=
  g ← read_graph parsed;
  _ ← as_validation_error (for_each (λ n, _ ← check_step (node_step n); validate_node n) (graph_nodes g));
  _ ← as_validation_error (for_each validate_edge (graph_edges g));
  _ ← as_validation_error (validate_graph g);
  Ok g.

(** [except Exception as e: raise ValueError(f"{prefix}{e}")] *)
Definition rewrapped {A} (prefix : string) (r : result A) : result A :=
  match r with Ok a => Ok a | Raise e => Raise (value_error (prefix +:+ exn_str e)) end.

Inductive llm_output := Text (s : string) | Payload (d : list (string * pyval)).

(** [MacroCompiler.compile] of a dict, and what is left in that dict. *)
Definition compile_payload (parsed_data : list (string * pyval)) : list (string * pyval) * result BatchedMacroRequest :=
  let '(healed, r) := heal parsed_data in
  (healed, rewrapped "Compiler Error: " (_ ← r; macro_of healed)).

(** [MacroCompiler.compile] *)
Definition compile (raw_llm_output : llm_output) : result BatchedMacroRequest :=
  match raw_llm_output with
  | Text s =>
      match _extract_first_json_object s "No JSON object found in output." with
      | Ok parsed_data => (compile_payload parsed_data).2
      | Raise e => rewrapped "Compiler Error: " (Raise e)
      end
  | Payload d => (compile_payload d).2
  end.

(** ** Workflow graphs *)

Inductive raw_graph := GraphModel (g : PersistedWorkflowGraph) | GraphText (s : string) | GraphDict (d : list (string * pyval)) | GraphOther.

Definition _coerce_graph_payload (raw : raw_graph) : result PersistedWorkflowGraph :=
  match raw with
  | GraphModel g => Ok g
  | GraphText s => parsed ← _extract_first_json_object s "No JSON object found in workflow graph payload."; graph_of parsed
  | GraphDict d => graph_of d
  | GraphOther => Raise (value_error "Unsupported workflow graph payload type.")
  end.

Definition compile_graph (raw : raw_graph) : result PersistedWorkflowGraph :=
  rewrapped "Workflow graph validation failed: " (_coerce_graph_payload raw).

(** A model, or a dict for one. *)
Inductive model_or_dict (A : Type) := Model (a : A) | Dict (d : list (string * pyval)).
Arguments Model {_} _.
Arguments Dict {_} _.
Definition model_of {A} (read : list (string * pyval) → result A) (check : A → result unit) (x : model_or_dict A) : result A :=
  match x with
  | Model a => Ok a
  | Dict d => a ← read d; _ ← as_validation_error (check a); Ok a
  end.
Definition optional {A B} (f : A → result B) (o : option A) : result (option B) :=
  match o with Some a => Some <$> f a | None => Ok None end.

Definition compile_to_macro (raw : raw_graph) (return_final_state_only : bool) (retry_policy : option (model_or_dict RetryPolicy))
    (execution_limits : option (model_or_dict ExecutionLimits)) : result BatchedMacroRequest :=
  graph ← compile_graph raw;
  rewrapped "Workflow graph compile failed: " (
    retry_policy_model ← optional (model_of read_retry check_retry) retry_policy;
    execution_limits_model ← optional (model_of read_limits check_limits) execution_limits;
    to_batched_macro_request graph return_final_state_only retry_policy_model execution_limits_model).

(** ** Extraction *)

Definition brace_at (raw_payload : string) (i : nat) : Prop := String.get i raw_payload = Some "{"%char.
(** A brace that starts no object. *)
Definition passed_over (raw_payload : string) (i : nat) : Prop := brace_at raw_payload i →
  (∃ v, raw_decode raw_payload i = Ok v ∧ is_dict v = false) ∨ (∃ e, raw_decode raw_payload i = Raise e ∧ exn_cls e = JSONDecodeError).

Lemma extract_from_spec raw msg rest start : (∀ k, String.get k rest = String.get (start + k) raw) →
  (∀ j, j < start → passed_over raw j) →
  match extract_from raw msg start rest with
  | Ok d => ∃ i, brace_at raw i ∧ raw_decode raw i = Ok (PDict d) ∧ ∀ j, j < i → passed_over raw j
  | Raise e => (e = value_error msg ∧ ∀ j, passed_over raw j) ∨ ∃ i, raw_decode raw i = Raise e ∧ exn_cls e ≠ JSONDecodeError
  end.
Proof.
  revert start. induction rest as [|c rest IH]; intros start Hget Hpast; cbn [extract_from].
  - left. split; [done|]. intros j Hb. destruct (decide (j < start)) as [Hj|Hj]; [by apply Hpast|].
    specialize (Hget (j - start)). replace (start + (j - start)) with j in Hget by lia. unfold brace_at in Hb. rewrite Hb in Hget.
    by destruct (j - start).
  - assert (passed_over raw start → match extract_from raw msg (S start) rest with
      | Ok d => ∃ i, brace_at raw i ∧ raw_decode raw i = Ok (PDict d) ∧ ∀ j, j < i → passed_over raw j
      | Raise e => (e = value_error msg ∧ ∀ j, passed_over raw j) ∨ ∃ i, raw_decode raw i = Raise e ∧ exn_cls e ≠ JSONDecodeError
      end) as Hnext.
    { intros Hs. apply IH; [|intros j Hj; destruct (decide (j = start)) as [->|]; [done|apply Hpast; lia]].
      intros k. specialize (Hget (S k)). cbn in Hget. rewrite Hget. f_equal. lia. }
    assert (String.get start raw = Some c) as Hc by (specialize (Hget 0); cbn in Hget; by rewrite Nat.add_0_r in Hget).
    destruct (decide (c = "{"%char)) as [->|Hne].
    + destruct (raw_decode raw start) as [v|e] eqn:Ev.
      * destruct v as [| | | | | |d]; [apply Hnext; intros _; left; by eexists..|]. by exists start.
      * destruct (decide (exn_cls e = JSONDecodeError)) as [He|He]; [|right; by exists start].
        apply Hnext. intros _. right. by exists e.
    + apply Hnext. unfold passed_over, brace_at. rewrite Hc. by intros [= ->].
Qed.

(** When the decoder fails only with [JSONDecodeError], the object
    extracted from a text is the one its first decodable brace starts, every
    brace before it starting none; a text with no such brace is refused with
    the given message. *)
Theorem extraction_first raw_payload error_message :
  (∀ i e, raw_decode raw_payload i = Raise e → exn_cls e = JSONDecodeError) →
  match _extract_first_json_object raw_payload error_message with
  | Ok d => ∃ i, brace_at raw_payload i ∧ raw_decode raw_payload i = Ok (PDict d) ∧ ∀ j, j < i → passed_over raw_payload j
  | Raise e => e = value_error error_message ∧ ∀ j, passed_over raw_payload j
  end.
Proof.
  intros Hdoc. pose proof (extract_from_spec raw_payload error_message raw_payload 0) as H. unfold _extract_first_json_object.
  destruct (extract_from _ _ _ _) as [d|e]; [apply H; [done|lia]|].
  destruct H as [?|(i & Hi & He)]; [done|lia|done|]. destruct He. by eapply Hdoc.
Qed.

(** ** Healing *)

(** What pydantic reads of a step. *)
Definition step_read (v : pyval) (t : ToolCall) : Prop := ∃ e, v = PDict e ∧ dict_get e "tool_name" = Some (PStr (tool_name t)) ∧
  dict_get e "step_id" = Some (PStr (step_id t)) ∧ default (PDict []) (dict_get e "arguments") = PDict (arguments t).
Definition reads_steps : Prop := ∀ d m, read_macro d = Ok m → ∃ l, dict_get d "steps" = Some (PList l) ∧ Forall2 step_read l (steps m).

(** What the step of a payload means before it is healed. *)
Definition step_meant (v : pyval) (t : ToolCall) : Prop := ∃ e, v = PDict e ∧
  (dict_get e "tool_name" = Some (PStr (tool_name t)) ∨ dict_get e "tool_name" = None ∧ dict_get e "tool" = Some (PStr (tool_name t))) ∧
  (dict_get e "step_id" = Some (PStr (step_id t)) ∨ dict_get e "step_id" = None ∧ step_id t = auto_step_id (rename_tool e)) ∧
  default (PDict []) (dict_get e "arguments") = PDict (arguments t).

Lemma dict_get_rename e k : k ≠ "tool" → k ≠ "tool_name" → dict_get (rename_tool e) k = dict_get e k.
Proof.
  intros H1 H2. unfold rename_tool. destruct (dict_get e "tool"), (dict_get e "tool_name"); try done.
  by rewrite dict_get_set_ne, dict_get_del, decide_False.
Qed.
Lemma rename_tool_name e : dict_get (rename_tool e) "tool_name" =
  match dict_get e "tool_name" with Some v => Some v | None => dict_get e "tool" end.
Proof.
  unfold rename_tool. destruct (dict_get e "tool") eqn:E1, (dict_get e "tool_name") eqn:E2; try done. apply dict_get_set_eq.
Qed.
Lemma rename_settled e : dict_get (rename_tool e) "tool" ≠ None → dict_get (rename_tool e) "tool_name" ≠ None.
Proof.
  unfold rename_tool. destruct (dict_get e "tool") eqn:E1, (dict_get e "tool_name") eqn:E2; rewrite ?E1, ?E2; try done.
  by rewrite dict_get_set_eq.
Qed.
Lemma rename_nothing e : (dict_get e "tool" ≠ None → dict_get e "tool_name" ≠ None) → rename_tool e = e.
Proof. unfold rename_tool. destruct (dict_get e "tool"), (dict_get e "tool_name"); try done. intros H. by destruct H. Qed.

Lemma heal_dict_get e k : k ≠ "step_id" → dict_get (heal_dict e) k = dict_get (rename_tool e) k.
Proof. intros Hk. unfold heal_dict. destruct (dict_get (rename_tool e) "step_id"); [done|]. by rewrite dict_get_set_ne. Qed.
Lemma heal_dict_id e : dict_get (heal_dict e) "step_id" =
  match dict_get e "step_id" with Some v => Some v | None => Some (PStr (auto_step_id (rename_tool e))) end.
Proof.
  rewrite <- (dict_get_rename e "step_id") by done. unfold heal_dict.
  destruct (dict_get (rename_tool e) "step_id") eqn:E; [by rewrite E|]. apply dict_get_set_eq.
Qed.

Lemma heal_dict_idemp e : heal_dict (heal_dict e) = heal_dict e.
Proof.
  unfold heal_dict at 1. rewrite rename_nothing.
  - rewrite heal_dict_id. by destruct (dict_get e "step_id").
  - rewrite !heal_dict_get by done. apply rename_settled.
Qed.

Lemma healed_meant e t : step_read (PDict (heal_dict e)) t → step_meant (PDict e) t.
Proof.
  intros (e' & [= <-] & Hn & Hid & Ha). exists e. split; [done|].
  rewrite heal_dict_get, rename_tool_name in Hn by done. rewrite heal_dict_id in Hid. rewrite heal_dict_get, dict_get_rename in Ha by done.
  split_and!; [|destruct (dict_get e "step_id"); [by left|right; by simplify_eq]|done].
  destruct (dict_get e "tool_name"); [by left|by right].
Qed.

Lemma heal_step_other v v' : is_dict v = false → heal_step v = Ok v' → v' = v.
Proof.
  destruct v; try done; intros _; cbn [heal_step]; intros H; do 5 (apply bind_Ok in H as (? & _ & H)); by injection H.
Qed.
Lemma heal_step_Ok v v' : heal_step v = Ok v' → heal_step v' = Ok v' ∧ ∀ t, step_read v' t → step_meant v t.
Proof.
  intros H. destruct (is_dict v) eqn:Ev.
  - destruct v as [| | | | | |e]; try done. injection H as <-. cbn. rewrite heal_dict_idemp. split; [done|apply healed_meant].
  - pose proof (heal_step_other _ _ Ev H) as ->. split; [done|]. by intros t (e & -> & _).
Qed.

Lemma heal_steps_spec l : let '(l', r) := heal_steps l in heal_steps l' = (l', r) ∧
  (r = Ok tt → ∀ ts, Forall2 step_read l' ts → Forall2 step_meant l ts).
Proof.
  induction l as [|v l IH]; cbn [heal_steps]; [split; [done|]; by intros _ ts ->%Forall2_nil_inv_l|].
  destruct (heal_step v) as [v'|e] eqn:Ev; [|cbn [heal_steps]; rewrite Ev; by split].
  apply heal_step_Ok in Ev as [Hv Hmeant]. destruct (heal_steps l) as [l' r]. destruct IH as [IH1 IH2].
  cbn [heal_steps]. rewrite Hv, IH1. split; [done|]. intros Hr ts (t & ts' & Ht & Hts & ->)%Forall2_cons_inv_l. constructor; eauto.
Qed.

Lemma dict_set_same {V} (d : list (string * V)) k v : dict_get d k = Some v → dict_set d k v = d.
Proof.
  induction d as [|[k' v'] d IH]; [done|]. cbn [dict_get dict_set]. case_decide; [by intros [= ->]; subst|].
  intros Hd. by rewrite IH.
Qed.

Lemma heal_spec d : let '(d', r) := heal d in heal d' = (d', r) ∧ (∀ k, k ≠ "steps" → dict_get d' k = dict_get d k) ∧
  (r = Ok tt → ∀ l' ts, dict_get d' "steps" = Some (PList l') → Forall2 step_read l' ts →
     ∃ l, dict_get d "steps" = Some (PList l) ∧ Forall2 step_meant l ts).
Proof.
  unfold heal at 1. destruct (dict_get d "steps") as [v|] eqn:Ed; [|split_and!; [unfold heal; by rewrite Ed|done|congruence]].
  destruct v as [| | | | |l|e]; try (split_and!; [unfold heal; by rewrite Ed|done|congruence]).
  pose proof (heal_steps_spec l) as Hl. destruct (heal_steps l) as [l' r]. destruct Hl as [H1 H2]. split_and!.
  - unfold heal. rewrite dict_get_set_eq, H1. f_equal. by rewrite dict_set_same by apply dict_get_set_eq.
  - intros k Hk. by apply dict_get_set_ne.
  - intros Hr l0 ts. rewrite dict_get_set_eq. intros [= <-] Hts. eauto.
Qed.

Lemma macro_of_Ok d m : macro_of d = Ok m → read_macro d = Ok m ∧ check_parts m = Ok tt ∧ macro_wf m.
Proof.
  intros (m' & Hm & H)%bind_Ok. apply bind_Ok in H as (? & Hc & H). unfold construct_macro in H.
  destruct (validate_branch_targets m') as [[]|] eqn:Ev; [|done]. injection H as <-. split_and!; [done| |by apply validate_branch_targets_spec].
  unfold as_validation_error in Hc. by destruct (check_parts m') as [[]|].
Qed.

Lemma rewrapped_Ok {A} prefix (r : result A) a : rewrapped prefix r = Ok a ↔ r = Ok a.
Proof. by destruct r. Qed.

Lemma compile_payload_Ok d m : reads_steps → (compile_payload d).2 = Ok m →
  macro_wf m ∧ check_parts m = Ok tt ∧ ∃ l, dict_get d "steps" = Some (PList l) ∧ Forall2 step_meant l (steps m).
Proof.
  intros Hreads. unfold compile_payload. pose proof (heal_spec d) as H. destruct (heal d) as [d' h]. destruct H as (_ & _ & H3). intros E.
  apply rewrapped_Ok in E. apply bind_Ok in E as ([] & -> & Hm%macro_of_Ok). destruct Hm as (Hm & Hc & Hwf). split_and!; [done..|].
  destruct (Hreads _ _ Hm) as (l & Hl & Hts). by eapply H3.
Qed.
Lemma rewrapped_Raise {A} prefix (r : result A) e : rewrapped prefix r = Raise e → ∃ m, e = value_error (prefix +:+ m).
Proof. destruct r; [done|]. intros [= <-]. by eexists. Qed.

(** C25: When pydantic reads a macro's steps from its payload, a compiled macro
    is well formed, its parts are valid, and it has the payload's steps in
    order: the tool is the one named by [tool_name] or, without it, by [tool],
    and a step without an id gets the one its content determines.  Any failure
    is a [ValueError].  The payload is left healed, and compiling what is left
    gives the same answer and changes nothing more. *)
Theorem compile_exact d : reads_steps →
  let '(d', r) := compile_payload d in
  match r with
  | Ok m => macro_wf m ∧ check_parts m = Ok tt ∧ ∃ l, dict_get d "steps" = Some (PList l) ∧ Forall2 step_meant l (steps m)
  | Raise e => ∃ m, e = value_error ("Compiler Error: " +:+ m)
  end ∧
  compile_payload d' = (d', r) ∧ (∀ k, k ≠ "steps" → dict_get d' k = dict_get d k).
Proof.
  intros Hreads. pose proof (compile_payload_Ok d) as HOk. unfold compile_payload in *. pose proof (heal_spec d) as H.
  destruct (heal d) as [d' h]. destruct H as (H1 & H2 & _). rewrite H1. split_and!; [|done|done].
  destruct (rewrapped _ _) as [m|e] eqn:E; [by apply HOk|by apply rewrapped_Raise in E].
Qed.

(** ** Graphs *)

Lemma graph_of_Ok d g : graph_of d = Ok g → validate_graph g = Ok tt.
Proof.
  intros (g' & _ & H)%bind_Ok. apply bind_Ok in H as (? & _ & H). apply bind_Ok in H as (? & _ & H).
  apply bind_Ok in H as (? & Hv & [= <-]). unfold as_validation_error in Hv. by destruct (validate_graph g') as [[]|].
Qed.
Lemma compile_graph_Ok raw g : (∀ g, raw = GraphModel g → validate_graph g = Ok tt) →
  compile_graph raw = Ok g → validate_graph g = Ok tt.
Proof.
  intros Hmodel. unfold compile_graph. rewrite rewrapped_Ok. destruct raw as [g'|s|d|]; cbn [_coerce_graph_payload]; [|..|done].
  - intros [= <-]. by apply Hmodel.
  - intros (parsed & _ & H)%bind_Ok. by eapply graph_of_Ok.
  - apply graph_of_Ok.
Qed.

(** C24: For a graph that is validated or given as a text or dict, compiling to
    a macro gives the steps of all its nodes, each once, the source of every
    dependency edge before its target, with the given or default retry policy,
    as a well-formed macro; otherwise it raises a [ValueError] that says whether
    the graph was invalid or the macro: after validation the graph itself is
    never refused as cyclic or incomplete, only the options or the macro of its
    steps. *)
Theorem graph_to_macro raw return_final retry limits :
  (∀ g, raw = GraphModel g → validate_graph g = Ok tt) →
  match compile_to_macro raw return_final retry limits with
  | Ok m => ∃ g ordered, compile_graph raw = Ok g ∧ ordered ≡ₚ graph_nodes g ∧ steps m = node_step <$> ordered ∧
      (∀ e, e ∈ graph_edges g → edge_kind e = DEPENDENCY → before (node_id <$> ordered) (source_node_id e) (target_node_id e)) ∧
      macro_wf m ∧ return_final_state_only m = return_final ∧ approvals m = [] ∧
      (retry = None → retry_policy m = default_retry_policy) ∧ (limits = None → execution_limits m = None)
  | Raise x => (∃ e, compile_graph raw = Raise x ∧ _coerce_graph_payload raw = Raise e ∧ x = value_error ("Workflow graph validation failed: " +:+ exn_str e)) ∨
      (∃ g e, compile_graph raw = Ok g ∧ x = value_error ("Workflow graph compile failed: " +:+ exn_str e) ∧
        (optional (model_of read_retry check_retry) retry = Raise e ∨ optional (model_of read_limits check_limits) limits = Raise e ∨
         ∃ m, (∃ ordered, ordered ≡ₚ graph_nodes g ∧ steps m = node_step <$> ordered) ∧ construct_macro m = Raise e))
  end.
Proof.
  intros Hmodel. unfold compile_to_macro. destruct (compile_graph raw) as [g|x] eqn:Eg.
  2:{ left. revert Eg. unfold compile_graph, rewrapped. destruct (_coerce_graph_payload raw) as [|e]; [done|]. intros [= <-]. by exists e. }
  pose proof (compile_graph_Ok raw g Hmodel Eg) as Hvalid. cbn [mbind result_bind].
  destruct (optional _ retry) as [retry'|e] eqn:Er; [|right; exists g, e; auto].
  destruct (optional _ limits) as [limits'|e] eqn:El; [|right; exists g, e; auto]. cbn [mbind result_bind].
  destruct (graph_compiles g return_final retry' limits' Hvalid) as (ordered & Hperm & Hbefore & ->).
  set (m := Build_BatchedMacroRequest _ _ _ _ _). destruct (construct_macro m) as [m'|e] eqn:Em.
  - unfold construct_macro in Em. destruct (validate_branch_targets m) as [[]|] eqn:Ev; [|done]. injection Em as <-. cbn [rewrapped].
    exists g, ordered. split_and!; [done..|by apply validate_branch_targets_spec|done|done| |].
    + intros ->. by injection Er as <-.
    + intros ->. by injection El as <-.
  - right. exists g, e. split_and!; [done..|]. right. right. exists m. split; [by exists ordered|done].
Qed.
End compiler.

(** ** Concrete payloads *)

(** Pydantic's reading of what the examples hold. *)
Definition sample_read_step (v : pyval) : result ToolCall :=
  match v with
  | PDict e =>
      match dict_get e "tool_name", dict_get e "step_id", default (PDict []) (dict_get e "arguments") with
      | Some (PStr t), Some (PStr i), PDict a => Ok {| tool_name := t; arguments := a; step_id := i; branching := None; approval := None |}
      | _, _, _ => Raise (Exn ValidationError "steps")
      end
  | _ => Raise (Exn ValidationError "steps")
  end.
Definition sample_read_macro (d : list (string * pyval)) : result BatchedMacroRequest :=
  match dict_get d "steps" with
  | Some (PList l) =>
      s ← map_result sample_read_step l;
      Ok {| steps := s; return_final_state_only := true; retry_policy := default_retry_policy; execution_limits := None; approvals := [] |}
  | _ => Raise (Exn ValidationError "steps")
  end.
Definition sample_payload : list (string * pyval) :=
  [("steps", PList [PDict [("step_id", PStr "a"); ("tool", PStr "fetch")];
                    PDict [("tool_name", PStr "analyze"); ("arguments", PDict [("data", PStr "$step:a")])]])].
(** A decoder that knows the object at position 5. *)
Definition sample_decode (raw : string) (i : nat) : result pyval :=
  if i =? 5 then Ok (PDict sample_payload) else Raise (Exn JSONDecodeError "Expecting value").
Definition sample_compile := compile (λ _, "") (λ _, "0123456789abcdef") sample_decode sample_read_macro.

Lemma sample_reads : reads_steps sample_read_macro.
Proof.
  intros d m. unfold sample_read_macro. destruct (dict_get d "steps") as [[| | | | |l|]|]; try done.
  intros (s & Hs & [= <-])%bind_Ok. exists l. split; [done|]. cbn [steps]. revert s Hs. induction l as [|v l IH]; intros s.
  - intros [= <-]. constructor.
  - cbn [map_result]. intros (t & Ht & H)%bind_Ok. apply bind_Ok in H as (ts & Hts & [= <-]). constructor; [|by apply IH].
    unfold sample_read_step in Ht. destruct v as [| | | | | |e]; try done. exists e. split; [done|].
    destruct (dict_get e "tool_name") as [[| | | |n| |]|], (dict_get e "step_id") as [[| | | |i| |]|]; try done.
    destruct (default (PDict []) (dict_get e "arguments")) as [| | | | | |a]; try done. by injection Ht as <-.
Qed.

Example compiled_text : (λ m, (λ s, (step_id s, tool_name s)) <$> steps m) <$> sample_compile (Text "x { y{...}") =
  Ok [("a", "fetch"); ("auto_step_0123456789ab", "analyze")].
Proof. vm_compute. reflexivity. Qed.

(** Two equal steps without ids get the same id, and the macro is refused. *)
Example equal_steps_refused : sample_compile (Payload [("steps", PList [PDict [("tool", PStr "ping")]; PDict [("tool", PStr "ping")]])]) =
  Raise (value_error "Compiler Error: macro step_id values must be unique").
Proof. vm_compute. reflexivity. Qed.

(** The order a dependency edge asks for is only the order of the steps: the
    macro's dependencies are those of its arguments and branches. *)
Definition edge_only_graph : PersistedWorkflowGraph :=
  {| workflow_id := "wf"; version := 1;
     graph_nodes := [{| node_id := "n2"; node_step := sample_step "b" []; label := None; position_x := 0; position_y := 0 |};
                     {| node_id := "n1"; node_step := sample_step "a" []; label := None; position_x := 0; position_y := 0 |}];
     graph_edges := [{| source_node_id := "n1"; target_node_id := "n2"; edge_kind := DEPENDENCY |}];
     graph_created_at_utc := 0; graph_updated_at_utc := 0; graph_metadata := None |}.
Definition sample_to_macro (g : PersistedWorkflowGraph) :=
  compile_to_macro (λ _ _, Raise (Exn JSONDecodeError "")) (λ _, Raise (Exn ValidationError "")) (λ _, Raise (Exn ValidationError ""))
    (λ _, Raise (Exn ValidationError "")) (GraphModel g) true None None.
Example edge_lost :
  (λ m, (map step_id (steps m), match dependency_graph m with Ok g => elements (targets (adjacency g) "a") | Raise _ => ["none"] end)) <$>
    sample_to_macro edge_only_graph = Ok (["a"; "b"], []).
Proof. vm_compute. reflexivity. Qed.

Lemma extraction_first_witness : ∃ i, brace_at "x { y{...}" i ∧ sample_decode "x { y{...}" i = Ok (PDict sample_payload).
Proof.
  pose proof (extraction_first sample_decode "x { y{...}" "none") as H.
  destruct (H ltac:(intros i e; unfold sample_decode; destruct (i =? 5); [discriminate|intros [= <-]; reflexivity])) as (i & Hb & Hd & _).
  exists i. exact (conj Hb Hd).
Defined.

Lemma compile_exact_witness : ∃ m l, (compile_payload (λ _, "") (λ _, "0123456789abcdef") sample_read_macro sample_payload).2 = Ok m ∧
  macro_wf m ∧ dict_get sample_payload "steps" = Some (PList l) ∧ Forall2 (step_meant (λ _, "") (λ _, "0123456789abcdef")) l (steps m).
Proof.
  pose proof (compile_exact (λ _, "") (λ _, "0123456789abcdef") sample_read_macro sample_payload sample_reads) as H. revert H.
  destruct (compile_payload _ _ _ _) as [d' r] eqn:E. vm_compute in E. injection E as _ <-. intros [(Hwf & _ & l & Hl) _]. eexists _, l.
  exact (conj eq_refl (conj Hwf Hl)).
Defined.

Lemma graph_to_macro_witness : ∃ ordered m, sample_to_macro sample_graph = Ok m ∧ ordered ≡ₚ graph_nodes sample_graph ∧
  before (node_id <$> ordered) "n1" "n2" ∧ macro_wf m.
Proof.
  pose proof (graph_to_macro (λ _ _, Raise (Exn JSONDecodeError "")) (λ _, Raise (Exn ValidationError "")) (λ _, Raise (Exn ValidationError ""))
    (λ _, Raise (Exn ValidationError "")) (GraphModel sample_graph) true None None) as H. fold (sample_to_macro sample_graph) in H.
  destruct (sample_to_macro sample_graph) as [m|e] eqn:E; [|vm_compute in E; discriminate].
  destruct H as (g & ordered & Hg & Hperm & _ & Hb & Hwf & _); [intros g [= <-]; vm_compute; reflexivity|].
  injection Hg as <-. exists ordered, m. refine (conj eq_refl (conj Hperm (conj _ Hwf))).
  exact (Hb _ (list_elem_of_here _ _) eq_refl).
Defined.
