(* ===== verification/SafeEval.v ===== *)
(** The branch-condition evaluator of [eap/environment/safe_eval.py]: a
    validator that walks a parsed Python expression and refuses every
    construct outside a whitelist, and an evaluator for what is left.  The
    parser ([ast.parse]) and the identity of non-singleton objects are
    parameters; everything the file itself decides is defined here. *)
From stdpp Require Import options.
From S2P Require Import Prelude Values.

Definition MAX_EXPRESSION_LENGTH : nat := 2048.
Definition MAX_AST_NODES : nat := 256.
Definition MAX_CONTAINER_ITEMS : nat := 128.

Definition unsafe (m : string) : exn := Exn UnsafeExpressionError m.

(** ** Syntax trees

    The [ast] classes the file names, and [Unsupported] for every other
    expression class, which the validator stops at without looking inside. *)
Inductive constant :=
  | CStr (s : string) | CInt (z : Z) | CFloat (q : Q) | CBool (b : bool) | CNone
  | COther (type_name : string). (* bytes, complex, Ellipsis *)

Inductive boolop := And | Or.
Inductive unaryop := Not | OtherUnary (name : string). (* UAdd, USub, Invert *)
Inductive cmpop := Eq | NotEq | Lt | LtE | Gt | GtE | In | NotIn | Is | IsNot.

Inductive node :=
  | Constant (c : constant)
  | EList (elts : list node)
  | ETuple (elts : list node)
  | ESet (elts : list node)
  | EDict (items : list (option node * node)) (* zip(keys, values); a None key is ** *)
  | BoolOp (op : boolop) (values : list node)
  | UnaryOp (op : unaryop) (operand : node)
  | Compare (lhs : node) (ops : list cmpop) (comparators : list node)
  | Unsupported (class_name : string).

(** ** The validator: [_SafeExpressionValidator]

    [visit] threads [self.node_count].  [generic_visit] visits the operator
    and context nodes too ([And], [Not], [Lt], [Load], ...), each of which
    counts as one node. *)

(** [self.node_count += 1; if self.node_count > self.max_nodes: raise] *)
Definition count_node (max_nodes count : nat) : result nat :=
  _ ← raise_if (max_nodes <? S count) (unsafe "Branch expression is too complex.");
  Ok (S count).

Fixpoint count_nodes (max_nodes count n : nat) : result nat :=
  match n with
  | 0 => Ok count
  | S n => count ← count_node max_nodes count; count_nodes max_nodes count n
  end.

Fixpoint visit (max_nodes count : nat) (n : node) {struct n} : result nat :=
  count ← count_node max_nodes count;
  match n with
  | Constant (COther t) =>
      Raise (unsafe ("Unsupported literal type in branch expression: " +:+ t +:+ "."))
  | Constant _ => Ok count
  | EList elts | ETuple elts =>
      count ← fold_result (visit max_nodes) count elts;
      count_node max_nodes count (* Load *)
  | ESet elts => fold_result (visit max_nodes) count elts
  | EDict items =>
      _ ← raise_if (existsb (λ kv, is_None kv.1) items)
            (unsafe "Dict unpacking is not supported in branch expressions.");
      count ← fold_result (λ count kv,
                match kv.1 with Some k => visit max_nodes count k | None => Ok count end)
              count items;
      fold_result (λ count kv, visit max_nodes count kv.2) count items
  | BoolOp op values =>
      count ← count_node max_nodes count;
      fold_result (visit max_nodes) count values
  | UnaryOp Not operand =>
      count ← count_node max_nodes count;
      visit max_nodes count operand
  | UnaryOp (OtherUnary _) _ =>
      Raise (unsafe "Unsupported unary operator in branch expression.")
  | Compare lhs ops comparators =>
      count ← visit max_nodes count lhs;
      count ← count_nodes max_nodes count (length ops);
      fold_result (visit max_nodes) count comparators
  | Unsupported c =>
      Raise (unsafe ("Unsupported branch expression construct: " +:+ c +:+ "."))
  end.

(** ** Values *)

Inductive value :=
  | VNone | VBool (b : bool) | VInt (z : Z) | VFloat (q : Q) | VStr (s : string)
  | VList (l : list value)
  | VTuple (l : list value)
  | VSet (l : list value)                 (* insertion order, no two equal *)
  | VDict (d : list (value * value)).     (* insertion order, no two keys equal *)

(** [bool(v)] *)
Definition truthy (v : value) : bool :=
  match v with
  | VNone => false
  | VBool b => b
  | VInt z => negb (z =? 0)%Z
  | VFloat q => negb (Qeq_bool q 0)
  | VStr s => negb (bool_decide (s = ""))
  | VList l | VTuple l | VSet l => match l with [] => false | _ => true end
  | VDict d => match d with [] => false | _ => true end
  end.

(** Booleans, integers and floats compare as numbers. *)
Definition num (v : value) : option Q :=
  match v with
  | VBool b => Some (if b then 1 else 0)%Q
  | VInt z => Some (inject_Z z)
  | VFloat q => Some q
  | _ => None
  end.

(** [left == right] on scalars and [None]; [false] when either is a container. *)
Definition scalar_eqb (v w : value) : bool :=
  match v, w with
  | VNone, VNone => true
  | VStr a, VStr b => bool_decide (a = b)
  | _, _ =>
      match num v, num w with
      | Some p, Some q => Qeq_bool p q
      | _, _ => false
      end
  end.

(** [left == right].  Sets and dictionary keys hold scalars only. *)
Fixpoint eqb (v w : value) {struct v} : bool :=
  match v, w with
  | VList a, VList b | VTuple a, VTuple b =>
      (fix go a b :=
        match a, b with
        | [], [] => true
        | x :: a, y :: b => eqb x y && go a b
        | _, _ => false
        end) a b
  | VSet a, VSet b =>
      (length a =? length b) && forallb (λ x, existsb (scalar_eqb x) b) a
  | VDict a, VDict b =>
      (length a =? length b) &&
      (fix go a :=
        match a with
        | [] => true
        | (k, x) :: a =>
            match find (λ ky, scalar_eqb k ky.1) b with
            | Some ky => eqb x ky.2
            | None => false
            end && go a
        end) a
  | _, _ => scalar_eqb v w
  end.

(** [isinstance(v, (str, int, float, bool, type(None)))] *)
Definition is_primitive (v : value) : bool :=
  match v with VNone | VBool _ | VInt _ | VFloat _ | VStr _ => true | _ => false end.

(** [hash(v)] does not raise. *)
Fixpoint hashable (v : value) : bool :=
  match v with
  | VTuple l => forallb hashable l
  | VList _ | VSet _ | VDict _ => false
  | _ => true
  end.

(** [set(values)] of scalars: the first of equal elements stays. *)
Definition make_set (l : list value) : list value :=
  foldl (λ s v, if existsb (scalar_eqb v) s then s else s ++ [v]) [] l.

(** [result[key] = v]: an equal key keeps its first spelling. *)
Fixpoint vdict_set (d : list (value * value)) (k v : value) : list (value * value) :=
  match d with
  | [] => [(k, v)]
  | (k', v') :: d => if scalar_eqb k k' then (k', v) :: d else (k', v') :: vdict_set d k v
  end.

(** [s in t] on strings *)
Fixpoint substring (s t : string) : bool :=
  py_startswith t s ||
  match t with EmptyString => false | String _ t' => substring s t' end.

Definition type_error (m : string) : exn := Exn TypeError m.

(** [left in right] as Python answers it: a list or tuple is searched by
    equality, a set or dict by hash (an unhashable left operand raises, except
    that a set is looked up in a set as a frozen set), a string by substring. *)
Definition contains (lhs rhs : value) : result bool :=
  match rhs with
  | VList l | VTuple l => Ok (existsb (eqb lhs) l)
  | VSet l =>
      match lhs with
      | VSet _ => Ok false
      | _ => if hashable lhs then Ok (existsb (eqb lhs) l) else Raise (type_error "unhashable type")
      end
  | VDict d =>
      if hashable lhs then Ok (existsb (eqb lhs) d.*1) else Raise (type_error "unhashable type")
  | VStr t =>
      match lhs with
      | VStr s => Ok (substring s t)
      | _ => Raise (type_error "'in <string>' requires string as left operand")
      end
  | _ => Raise (type_error "argument is not iterable")
  end.

(** ** The evaluator *)

(** [_to_scalar] *)
Definition to_scalar (v : value) : result value :=
  match v with
  | VInt _ | VFloat _ | VStr _ | VBool _ => Ok v
  | _ => Raise (unsafe "Ordered comparisons require scalar operands.")
  end.

(** [comparator(left, right)] for operands of one type. *)
Definition num_compare (op : cmpop) (a b : Q) : option bool :=
  match op with
  | Lt => Some (negb (Qle_bool b a))
  | LtE => Some (Qle_bool a b)
  | Gt => Some (negb (Qle_bool a b))
  | GtE => Some (Qle_bool b a)
  | _ => None
  end.
Definition str_compare (op : cmpop) (a b : string) : option bool :=
  match op with
  | Lt => Some (negb (bool_decide (String.le b a)))
  | LtE => Some (bool_decide (String.le a b))
  | Gt => Some (negb (bool_decide (String.le a b)))
  | GtE => Some (bool_decide (String.le b a))
  | _ => None
  end.

(** [_evaluate_ordered_comparison] *)
Definition evaluate_ordered_comparison (op : cmpop) (lhs rhs : value) : result bool :=
  left_scalar ← to_scalar lhs;
  right_scalar ← to_scalar rhs;
  outcome ← match left_scalar, right_scalar with
            | VInt a, VInt b => Ok (num_compare op (inject_Z a) (inject_Z b))
            | VFloat a, VFloat b => Ok (num_compare op a b)
            | VBool a, VBool b =>
                Ok (num_compare op (if a then 1 else 0)%Q (if b then 1 else 0)%Q)
            | VStr a, VStr b => Ok (str_compare op a b)
            | _, _ => Raise (unsafe "Ordered comparisons require matching operand types.")
            end;
  match outcome with
  | Some b => Ok b
  | None => Raise (unsafe "Unsupported ordered comparison operator.")
  end.

(** [_evaluate_membership] *)
Definition evaluate_membership (op : cmpop) (lhs rhs : value) : result bool :=
  _ ← match rhs with
      | VList _ | VTuple _ | VSet _ | VDict _ | VStr _ => Ok tt
      | _ => Raise (unsafe "Membership comparisons require container/string right operand.")
      end;
  match op with
  | In => contains lhs rhs
  | NotIn => negb <$> contains lhs rhs
  | _ => Raise (unsafe "Unsupported membership comparison operator.")
  end.

Section evaluator.
(** [a is b] for two objects of which neither is [None], [True] or [False]. *)
Context (same_object : value → value → bool).

(** [left is right] *)
Definition identical (v w : value) : bool :=
  match v, w with
  | VNone, VNone => true
  | VBool a, VBool b => Bool.eqb a b
  | VNone, _ | _, VNone | VBool _, _ | _, VBool _ => false
  | _, _ => same_object v w
  end.

(** One link of a comparison chain. *)
Definition compare_values (op : cmpop) (lhs rhs : value) : result bool :=
  match op with
  | Eq => Ok (eqb lhs rhs)
  | NotEq => Ok (negb (eqb lhs rhs))
  | Lt | LtE | Gt | GtE => evaluate_ordered_comparison op lhs rhs
  | In | NotIn => evaluate_membership op lhs rhs
  | Is => Ok (identical lhs rhs)
  | IsNot => Ok (negb (identical lhs rhs))
  end.

Definition constant_value (c : constant) : result value :=
  match c with
  | CStr s => Ok (VStr s)
  | CInt z => Ok (VInt z)
  | CFloat q => Ok (VFloat q)
  | CBool b => Ok (VBool b)
  | CNone => Ok VNone
  | COther t => Raise (unsafe ("Unsupported literal type in branch expression: " +:+ t +:+ "."))
  end.

Definition too_many {A} (l : list A) : bool := MAX_CONTAINER_ITEMS <? length l.

(** [_evaluate_node] *)
Fixpoint evaluate_node (n : node) {struct n} : result value :=
  match n with
  | Constant c => constant_value c
  | EList elts =>
      _ ← raise_if (too_many elts) (unsafe "Branch list literal exceeds max item limit.");
      VList <$> map_result evaluate_node elts
  | ETuple elts =>
      _ ← raise_if (too_many elts) (unsafe "Branch tuple literal exceeds max item limit.");
      VTuple <$> map_result evaluate_node elts
  | ESet elts =>
      _ ← raise_if (too_many elts) (unsafe "Branch set literal exceeds max item limit.");
      resolved_values ← map_result evaluate_node elts;
      _ ← raise_if (negb (forallb is_primitive resolved_values))
            (unsafe "Set literals only support scalar/None values.");
      Ok (VSet (make_set resolved_values))
  | EDict items =>
      _ ← raise_if (too_many items) (unsafe "Branch dict literal exceeds max item limit.");
      VDict <$> fold_result (λ acc kv,
        match kv.1 with
        | None => Raise (unsafe "Dict unpacking is not supported in branch expressions.")
        | Some key_node =>
            resolved_key ← evaluate_node key_node;
            _ ← raise_if (negb (is_primitive resolved_key))
                  (unsafe "Dict keys must be scalar/None values.");
            v ← evaluate_node kv.2;
            Ok (vdict_set acc resolved_key v)
        end) [] items
  | BoolOp op values =>
      bool_values ← map_result evaluate_node values;
      Ok (VBool (match op with
                 | And => forallb truthy bool_values
                 | Or => existsb truthy bool_values
                 end))
  | UnaryOp Not operand => v ← evaluate_node operand; Ok (VBool (negb (truthy v)))
  | UnaryOp (OtherUnary _) _ => Raise (unsafe "Unsupported unary operator in branch expression.")
  | Compare lhs ops comparators =>
      lv ← evaluate_node lhs;
      (fix go (ops : list cmpop) comparators (lv : value) {struct comparators} : result value :=
        match ops, comparators with
        | op :: ops, comparator :: comparators =>
            rv ← evaluate_node comparator;
            outcome ← compare_values op lv rv;
            if outcome : bool then go ops comparators rv else Ok (VBool false)
        | _, _ => Ok (VBool true)
        end) ops comparators lv
  | Unsupported c => Raise (unsafe ("Unsupported expression node: " +:+ c +:+ "."))
  end.

(** [ast.parse(expression, mode="eval").body]; [None] is a [SyntaxError]. *)
Context (parse : string → option node).

(** [evaluate_safe_expression] *)
Definition evaluate_safe_expression (expression : string) : result bool :=
  _ ← raise_if (py_blank expression) (unsafe "Branch expression must be a non-empty string.");
  _ ← raise_if (MAX_EXPRESSION_LENGTH <? String.length expression)
        (unsafe ("Branch expression length exceeds limit (" +:+ pretty MAX_EXPRESSION_LENGTH +:+ ")."));
  match parse expression with
  | None => Raise (unsafe "Branch expression is not valid syntax.")
  | Some body =>
      count ← count_node MAX_AST_NODES 0; (* Expression *)
      _ ← visit MAX_AST_NODES count body;
      v ← evaluate_node body;
      match v with
      | VBool b => Ok b
      | _ => Raise (unsafe "Branch expression must evaluate to a boolean value.")
      end
  end.
End evaluator.

(** ** What the validator accepts *)

(** Every construct of the tree is on the whitelist. *)
Fixpoint allowed (n : node) : bool :=
  match n with
  | Constant (COther _) => false
  | Constant _ => true
  | EList l | ETuple l | ESet l | BoolOp _ l => forallb allowed l
  | EDict items =>
      forallb (λ kv, match kv.1 with Some k => allowed k | None => false end && allowed kv.2) items
  | UnaryOp Not n => allowed n
  | UnaryOp (OtherUnary _) _ => false
  | Compare lhs _ cs => allowed lhs && forallb allowed cs
  | Unsupported _ => false
  end.

(** The [ast] nodes of the tree: operators and [Load] contexts included. *)
Fixpoint weight (n : node) : nat :=
  match n with
  | Constant _ | Unsupported _ => 1
  | EList l | ETuple l | BoolOp _ l => 2 + list_sum (weight <$> l)
  | ESet l => 1 + list_sum (weight <$> l)
  | EDict items =>
      1 + list_sum ((λ kv, match kv.1 with Some k => weight k | None => 0 end) <$> items)
        + list_sum ((λ kv, weight kv.2) <$> items)
  | UnaryOp _ n => 2 + weight n
  | Compare lhs ops cs => 1 + weight lhs + length ops + list_sum (weight <$> cs)
  end.

Section node_ind.
Variable P : node → Prop.
Hypothesis HConstant : ∀ c, P (Constant c).
Hypothesis HList : ∀ l, Forall P l → P (EList l).
Hypothesis HTuple : ∀ l, Forall P l → P (ETuple l).
Hypothesis HSet : ∀ l, Forall P l → P (ESet l).
Hypothesis HDict : ∀ l,
  Forall (λ kv, (∀ k, kv.1 = Some k → P k) ∧ P kv.2) l → P (EDict l).
Hypothesis HBoolOp : ∀ op l, Forall P l → P (BoolOp op l).
Hypothesis HUnaryOp : ∀ op n, P n → P (UnaryOp op n).
Hypothesis HCompare : ∀ lhs ops cs, P lhs → Forall P cs → P (Compare lhs ops cs).
Hypothesis HUnsupported : ∀ c, P (Unsupported c).

Fixpoint node_nested_ind (n : node) : P n :=
  let go := fix go l : Forall P l :=
    match l with
    | [] => Forall_nil_2 _
    | n :: l => Forall_cons_2 _ _ _ (node_nested_ind n) (go l)
    end in
  match n with
  | Constant c => HConstant c
  | EList l => HList l (go l)
  | ETuple l => HTuple l (go l)
  | ESet l => HSet l (go l)
  | EDict l => HDict l
      ((fix goD l : Forall (λ kv : option node * node, (∀ k, kv.1 = Some k → P k) ∧ P kv.2) l :=
        match l with
        | [] => Forall_nil_2 _
        | kv :: l => Forall_cons_2 _ kv l
            (conj (λ k, match kv.1 as o return o = Some k → P k with
                        | None => λ H, match eq_ind None
                            (λ o, match o with None => True | Some _ => False end) I _ H
                            with end
                        | Some k0 => λ H, eq_ind k0 P (node_nested_ind k0) k
                            (f_equal (default k) H)
                        end) (node_nested_ind kv.2)) (goD l)
        end) l)
  | BoolOp op l => HBoolOp op l (go l)
  | UnaryOp op n => HUnaryOp op n (node_nested_ind n)
  | Compare lhs ops cs => HCompare lhs ops cs (node_nested_ind lhs) (go cs)
  | Unsupported c => HUnsupported c
  end.
End node_ind.

Lemma count_node_Ok max c c' : count_node max c = Ok c' ↔ c' = S c ∧ c' ≤ max.
Proof.
  unfold count_node, raise_if. destruct (Nat.ltb_spec max (S c)) as [H|H]; simpl; split.
  - done.
  - intros [-> ?]. lia.
  - intros [= <-]. done.
  - by intros [-> _].
Qed.

(** Visiting a list of children, when visiting one is understood. *)
Lemma fold_visit_Ok {A} (f : nat → A → result nat) (ok : A → bool) (w : A → nat) max l :
  Forall (λ x, ∀ c c', f c x = Ok c' ↔ ok x = true ∧ c' = c + w x ∧ (w x = 0 ∨ c' ≤ max)) l →
  ∀ c c', fold_result f c l = Ok c' ↔
    forallb ok l = true ∧ c' = c + list_sum (w <$> l) ∧ (list_sum (w <$> l) = 0 ∨ c' ≤ max).
Proof.
  induction 1 as [|x l Hx _ IH]; intros c c'; csimpl.
  - split; [intros [= ->]; split_and!; [done|lia|by left] | intros (_ & -> & _); f_equal; lia].
  - rewrite bind_Ok, andb_true_iff. setoid_rewrite Hx. setoid_rewrite IH. split.
    + intros (? & (? & -> & ?) & ? & -> & ?). split; [done|]. lia.
    + intros ([??] & -> & ?). eexists. repeat split; try done; lia.
Qed.

Lemma weight_pos n : 0 < weight n.
Proof. destruct n; simpl; lia. Qed.

(** A step that succeeds exactly when [p] holds and then returns [d]. *)
Lemma bind_step {A} (r : result A) (k : A → result nat) (p : Prop) (d : A) c' :
  (∀ a, r = Ok a ↔ a = d ∧ p) → r ≫= k = Ok c' ↔ p ∧ k d = Ok c'.
Proof.
  intros Hr. rewrite bind_Ok. setoid_rewrite Hr. naive_solver.
Qed.

Ltac split_counts :=
  let H := fresh in
  split; intros H; decompose [and or] H; clear H; subst; split_and?; try done; lia.

(** What visiting one child, and a list of children, amounts to. *)
Definition visits (max : nat) (n : node) : Prop := ∀ c c',
  visit max c n = Ok c' ↔ c' = c + weight n ∧ allowed n = true ∧ c + weight n ≤ max.

Lemma visits_list max l : Forall (visits max) l → ∀ c c',
  fold_result (visit max) c l = Ok c' ↔ c' = c + list_sum (weight <$> l) ∧
    forallb allowed l = true ∧
    (list_sum (weight <$> l) = 0 ∨ c + list_sum (weight <$> l) ≤ max).
Proof.
  intros Hl c c'.
  rewrite (fold_visit_Ok _ allowed weight max).
  - split_counts.
  - eapply Forall_impl; [exact Hl|]. intros n Hn d d'. rewrite (Hn d d').
    pose proof (weight_pos n). split_counts.
Qed.

Lemma visits_keys max (l : list (option node * node)) :
  Forall (λ kv, (∀ k, kv.1 = Some k → visits max k) ∧ visits max kv.2) l →
  let wk := list_sum ((λ kv, match kv.1 with Some k => weight k | None => 0 end) <$> l) in
  let wv := list_sum ((λ kv : option node * node, weight kv.2) <$> l) in
  (∀ c c', fold_result (λ c kv,
      match kv.1 with Some k => visit max c k | None => Ok c end) c l = Ok c' ↔
    c' = c + wk ∧ forallb (λ kv, match kv.1 with Some k => allowed k | None => true end) l = true
      ∧ (wk = 0 ∨ c + wk ≤ max)) ∧
  (∀ c c', fold_result (λ c kv, visit max c kv.2) c l = Ok c' ↔
    c' = c + wv ∧ forallb (λ kv, allowed kv.2) l = true ∧ (wv = 0 ∨ c + wv ≤ max)).
Proof.
  intros Hl wk wv. split; intros c c'.
  - rewrite (fold_visit_Ok _
      (λ kv, match kv.1 with Some k => allowed k | None => true end)
      (λ kv, match kv.1 with Some k => weight k | None => 0 end) max); [split_counts|].
    eapply Forall_impl; [exact Hl|]. intros [[k|] v] [Hk _] d d'; simpl.
    + rewrite (Hk k eq_refl d d'). pose proof (weight_pos k). split_counts.
    + split; [intros [= ->]; split_and!; [done|lia|by left] | intros (_ & -> & _); f_equal; lia].
  - rewrite (fold_visit_Ok _ (λ kv, allowed kv.2) (λ kv, weight kv.2) max); [split_counts|].
    eapply Forall_impl; [exact Hl|]. intros [k v] [_ Hv] d d'; simpl.
    rewrite (Hv d d'). pose proof (weight_pos v). split_counts.
Qed.

Lemma allowed_items (l : list (option node * node)) :
  forallb (λ kv, match kv.1 with Some k => allowed k | None => false end && allowed kv.2) l = true ↔
  existsb (λ kv, is_None kv.1) l = false ∧
  forallb (λ kv, match kv.1 with Some k => allowed k | None => true end) l = true ∧
  forallb (λ kv, allowed kv.2) l = true.
Proof.
  induction l as [|[[k|] v] l IH]; simpl; [done| |naive_solver].
  rewrite !andb_true_iff, IH. naive_solver.
Qed.

Lemma count_node_step max c a : count_node max c = Ok a ↔ a = S c ∧ S c ≤ max.
Proof. rewrite count_node_Ok. split_counts. Qed.

Lemma count_nodes_step max c n a :
  count_nodes max c n = Ok a ↔ a = c + n ∧ (n = 0 ∨ c + n ≤ max).
Proof.
  revert c. induction n as [|n IH]; intros c; simpl.
  - split; [intros [= ->]; lia | intros [-> _]; f_equal; lia].
  - rewrite (bind_step _ _ _ _ _ (count_node_step max c)), IH. split_counts.
Qed.

(** The validator accepts exactly the whitelisted trees within the budget,
    and its counter ends at the number of nodes. *)
Lemma visit_Ok max n : visits max n.
Proof.
  induction n as [k|l IH|l IH|l IH|l IH|op l IH|op n IH|lhs ops cs IHl IHc|k]
    using node_nested_ind; intros c c'; cbn [visit allowed weight];
    rewrite (bind_step _ _ _ _ _ (count_node_step max c)).
  - destruct k; try (split; [naive_solver lia|intros (-> & _ & ?); split; [|f_equal]; lia]).
    naive_solver.
  - rewrite (bind_step _ _ _ _ _ (visits_list max l IH _)), count_node_step. split_counts.
  - rewrite (bind_step _ _ _ _ _ (visits_list max l IH _)), count_node_step. split_counts.
  - rewrite (visits_list max l IH). split_counts.
  - destruct (visits_keys max l IH) as [Hk Hv]. rewrite allowed_items.
    rewrite (bind_step _ _ (existsb (λ kv, is_None kv.1) l = false) tt).
    2: { intros []. rewrite raise_if_Ok. naive_solver. }
    rewrite (bind_step _ _ _ _ _ (Hk _)), Hv. split_counts.
  - rewrite (bind_step _ _ _ _ _ (count_node_step max _)), (visits_list max l IH). split_counts.
  - destruct op; [|naive_solver].
    rewrite (bind_step _ _ _ _ _ (count_node_step max _)), (IH _ _). split_counts.
  - rewrite (bind_step _ _ _ _ _ (IHl _)), (bind_step _ _ _ _ _ (count_nodes_step max _ _)).
    rewrite (visits_list max cs IHc), andb_true_iff. split_counts.
  - naive_solver.
Qed.

(** ** What evaluation of an accepted tree can raise *)

Definition runtime_errors : list exn := [
  unsafe "Branch list literal exceeds max item limit.";
  unsafe "Branch tuple literal exceeds max item limit.";
  unsafe "Branch set literal exceeds max item limit.";
  unsafe "Branch dict literal exceeds max item limit.";
  unsafe "Set literals only support scalar/None values.";
  unsafe "Dict keys must be scalar/None values.";
  unsafe "Ordered comparisons require scalar operands.";
  unsafe "Ordered comparisons require matching operand types.";
  unsafe "Membership comparisons require container/string right operand.";
  type_error "unhashable type";
  type_error "'in <string>' requires string as left operand" ].

Ltac solve_error := by subst; repeat (left || right).

Section evaluation.
Context (same_object : value → value → bool).
Abbreviation evaluate_node := (evaluate_node same_object).

Lemma fmap_Raise {A B} (f : A → B) (r : result A) e : f <$> r = Raise e ↔ r = Raise e.
Proof. destruct r; simpl; naive_solver. Qed.

Lemma map_result_Raise {A B} (f : A → result B) l e :
  map_result f l = Raise e → ∃ x, x ∈ l ∧ f x = Raise e.
Proof.
  induction l as [|x l IH]; simpl; [done|].
  rewrite bind_Raise. setoid_rewrite bind_Raise.
  intros [?|(y & _ & [?|(? & _ & ?)])]; [exists x; by split; [left|]| |done].
  destruct IH as (x' & ? & ?); [done|]. exists x'. by split; [right|].
Qed.

Lemma membership_errors op lhs rhs e :
  op = In ∨ op = NotIn → evaluate_membership op lhs rhs = Raise e → e ∈ runtime_errors.
Proof.
  intros [-> | ->]; unfold evaluate_membership; destruct rhs; simpl;
    rewrite ?fmap_Raise; unfold contains; intros H; repeat case_match; simplify_eq; solve_error.
Qed.

Lemma ordered_errors op lhs rhs e :
  op = Lt ∨ op = LtE ∨ op = Gt ∨ op = GtE →
  evaluate_ordered_comparison op lhs rhs = Raise e → e ∈ runtime_errors.
Proof.
  intros [->|[->|[->| ->]]] H; unfold evaluate_ordered_comparison in H;
    destruct lhs, rhs; simpl in H; simplify_eq; solve_error.
Qed.

Lemma compare_values_errors op lhs rhs e :
  compare_values same_object op lhs rhs = Raise e → e ∈ runtime_errors.
Proof.
  destruct op; simpl; try done;
    first [apply ordered_errors; naive_solver | apply membership_errors; naive_solver].
Qed.

Lemma compare_chain_errors ops comparators lv e :
  Forall (λ n, ∀ e, evaluate_node n = Raise e → e ∈ runtime_errors) comparators →
  (fix go (ops : list cmpop) comparators (lv : value) {struct comparators} : result value :=
    match ops, comparators with
    | op :: ops, comparator :: comparators =>
        rv ← evaluate_node comparator;
        outcome ← compare_values same_object op lv rv;
        if outcome : bool then go ops comparators rv else Ok (VBool false)
    | _, _ => Ok (VBool true)
    end) ops comparators lv = Raise e → e ∈ runtime_errors.
Proof.
  intros Hcs. revert ops lv. induction Hcs as [|c cs Hc _ IH]; intros [|op ops] lv; simpl; try done.
  rewrite bind_Raise. setoid_rewrite bind_Raise.
  intros [?|(rv & _ & [?|([] & _ & H)])]; [eauto|by eapply compare_values_errors|eauto|done].
Qed.

(** Once a tree is accepted, the evaluator's own whitelist tests never fire:
    what is left are size limits and operand types. *)
Lemma evaluate_node_errors n e :
  allowed n = true → evaluate_node n = Raise e → e ∈ runtime_errors.
Proof.
  assert (∀ l, Forall (λ n, ∀ e, allowed n = true → evaluate_node n = Raise e → e ∈ runtime_errors) l →
    forallb allowed l = true →
    Forall (λ n, ∀ e, evaluate_node n = Raise e → e ∈ runtime_errors) l) as Hf.
  { intros l Hl Ha. rewrite forallb_forall in Ha. rewrite Forall_forall in Hl |- *.
    intros x Hx e'. by apply (Hl x Hx), Ha, list_elem_of_In. }
  assert (∀ l e, Forall (λ n, ∀ e, evaluate_node n = Raise e → e ∈ runtime_errors) l →
    map_result evaluate_node l = Raise e → e ∈ runtime_errors) as Hm.
  { intros l e' Hl (x & Hx & He)%map_result_Raise. rewrite Forall_forall in Hl. eauto. }
  revert e. induction n as [k|l IH|l IH|l IH|l IH|op l IH|op n IH|lhs ops cs IHl IHc|k]
    using node_nested_ind; intros e Ha H; cbn [allowed SafeEval.evaluate_node] in *.
  - destruct k; naive_solver.
  - apply bind_Raise in H as [[_ <-]%raise_if_Raise | ([] & _ & H%fmap_Raise)]; [solve_error|eauto].
  - apply bind_Raise in H as [[_ <-]%raise_if_Raise | ([] & _ & H%fmap_Raise)]; [solve_error|eauto].
  - apply bind_Raise in H as [[_ <-]%raise_if_Raise | ([] & _ & H)]; [solve_error|].
    apply bind_Raise in H as [H | (vs & _ & H)]; [eauto|].
    apply bind_Raise in H as [[_ <-]%raise_if_Raise | ([] & _ & H)]; [solve_error|done].
  - apply bind_Raise in H as [[_ <-]%raise_if_Raise | ([] & _ & H%fmap_Raise)]; [solve_error|].
    apply fold_result_Raise in H as (acc & kv & Hkv & H).
    rewrite Forall_forall in IH. destruct (IH kv Hkv) as [Hk Hv].
    rewrite forallb_forall in Ha. specialize (Ha kv (proj1 (list_elem_of_In _ _) Hkv)).
    destruct kv as [[k|] v]; simpl in *; [|done]. apply andb_true_iff in Ha as [Hak Hav].
    apply bind_Raise in H as [H | (kv & _ & H)]; [by eapply Hk|].
    apply bind_Raise in H as [[_ <-]%raise_if_Raise | ([] & _ & H)]; [solve_error|].
    apply bind_Raise in H as [H | (? & _ & H)]; [by eapply Hv|done].
  - apply bind_Raise in H as [H|(? & _ & H)]; [eauto|done].
  - destruct op; [|done]. apply bind_Raise in H as [H|(? & _ & H)]; [eauto|done].
  - apply andb_true_iff in Ha as [Hal Hac].
    apply bind_Raise in H as [H|(lv & _ & H)]; [eauto|].
    eapply compare_chain_errors; [|exact H]. eauto.
  - done.
Qed.
End evaluation.

Lemma visit_errors max n c e : visit max c n = Raise e → exn_cls e = UnsafeExpressionError.
Proof.
  assert (Hc : ∀ c e, count_node max c = Raise e → exn_cls e = UnsafeExpressionError).
  { unfold count_node. intros c' e' [[_ <-]%raise_if_Raise|(? & _ & ?)]%bind_Raise; done. }
  assert (Hcs : ∀ k c e, count_nodes max c k = Raise e → exn_cls e = UnsafeExpressionError).
  { induction k as [|k IH]; simpl; [done|].
    intros c' e' [?|(? & _ & ?)]%bind_Raise; eauto. }
  assert (Hl : ∀ l, Forall (λ n, ∀ c e, visit max c n = Raise e →
      exn_cls e = UnsafeExpressionError) l → ∀ c e, fold_result (visit max) c l = Raise e →
    exn_cls e = UnsafeExpressionError).
  { intros l Hl c' e' (c'' & x & Hx & He)%fold_result_Raise. rewrite Forall_forall in Hl. eauto. }
  revert c e. induction n as [k|l IH|l IH|l IH|l IH|op l IH|op n IH|lhs ops cs IHl IHc|k]
    using node_nested_ind; intros c e; cbn [visit];
    (intros [H|(c1 & _ & H)]%bind_Raise; [by eapply Hc|]).
  - destruct k; naive_solver.
  - apply bind_Raise in H as [H|(c2 & _ & H)]; eauto.
  - apply bind_Raise in H as [H|(c2 & _ & H)]; eauto.
  - eauto.
  - apply bind_Raise in H as [[_ <-]%raise_if_Raise|([] & _ & H)]; [done|].
    rewrite Forall_forall in IH.
    apply bind_Raise in H as [H|(c2 & _ & H)]; apply fold_result_Raise in H as (c3 & [k v] & Hx & H);
      destruct (IH _ Hx) as [Hk Hv].
    + destruct k as [k|]; [exact (Hk k eq_refl c3 e H)|done].
    + exact (Hv c3 e H).
  - apply bind_Raise in H as [H|(c2 & _ & H)]; eauto.
  - destruct op; [|naive_solver]. apply bind_Raise in H as [H|(c2 & _ & H)]; eauto.
  - apply bind_Raise in H as [H|(c2 & _ & H)]; [eauto|].
    apply bind_Raise in H as [H|(c3 & _ & H)]; eauto.
  - naive_solver.
Qed.

(** C28: [evaluate_safe_expression] answers [b] exactly for a non-blank
    expression of at most 2048 characters whose tree consists of whitelisted
    constructs only, has at most 256 nodes and evaluates to the boolean [b]. *)
Theorem safe_expression_accepts same_object parse expression b :
  evaluate_safe_expression same_object parse expression = Ok b ↔
    py_blank expression = false ∧
    String.length expression ≤ MAX_EXPRESSION_LENGTH ∧
    ∃ body, parse expression = Some body ∧ allowed body = true ∧
      1 + weight body ≤ MAX_AST_NODES ∧
      evaluate_node same_object body = Ok (VBool b).
Proof.
  unfold evaluate_safe_expression. rewrite bind_Ok. setoid_rewrite bind_Ok.
  setoid_rewrite raise_if_Ok. setoid_rewrite Nat.ltb_ge. split.
  - intros (_ & ? & _ & ? & H). split_and!; [done..|].
    destruct (parse expression) as [body|]; [|done]. exists body.
    apply bind_Ok in H as (c & [-> _]%count_node_Ok & Hc).
    apply bind_Ok in Hc as (c1 & Hv & He). apply visit_Ok in Hv as (-> & ? & ?).
    apply bind_Ok in He as (v & ? & Hb). destruct v; naive_solver.
  - intros (? & ? & body & -> & Ha & Hw & He). exists tt; split; [done|].
    exists tt; split; [done|]. apply bind_Ok. exists 1. split; [done|].
    apply bind_Ok. exists (1 + weight body). split; [by apply visit_Ok|].
    by rewrite He.
Qed.

(** Whatever the text and however it parses, a rejected expression raises
    [UnsafeExpressionError], except that the operands of an accepted tree can
    make [in] raise [TypeError]; and an accepted tree can fail only with one of
    [runtime_errors] or by not being a boolean, never at an unsupported
    construct. *)
Theorem safe_expression_rejects same_object parse expression e :
  evaluate_safe_expression same_object parse expression = Raise e →
  exn_cls e = UnsafeExpressionError ∨
  (exn_cls e = TypeError ∧ e ∈ runtime_errors ∧
   ∃ body, parse expression = Some body ∧ allowed body = true).
Proof.
  unfold evaluate_safe_expression.
  intros [[_ <-]%raise_if_Raise|(_ & _ & H)]%bind_Raise; [by left|].
  apply bind_Raise in H as [[_ <-]%raise_if_Raise|(_ & _ & H)]; [by left|].
  destruct (parse expression) as [body|]; [|simplify_eq; by left].
  apply bind_Raise in H as [H|(c & _ & H)]; [by vm_compute in H|].
  apply bind_Raise in H as [H|(c' & Hv & H)]; [left; by eapply visit_errors|].
  apply visit_Ok in Hv as (_ & Ha & _).
  apply bind_Raise in H as [H|(v & _ & H)].
  - pose proof (evaluate_node_errors _ _ _ Ha H) as He.
    assert (exn_cls e = UnsafeExpressionError ∨ exn_cls e = TypeError) as [?|?].
    { revert He. unfold runtime_errors. rewrite !elem_of_cons, elem_of_nil. naive_solver. }
    + by left.
    + right. eauto.
  - left. destruct v; simplify_eq; done.
Qed.

(** [1 in "a"]: accepted, and refused by Python itself. *)
Definition membership_sample (_ : string) : option node :=
  Some (Compare (Constant (CInt 1)) [In] [Constant (CStr "a")]).

Lemma safe_expression_rejects_witness :
  exn_cls (type_error "'in <string>' requires string as left operand") = UnsafeExpressionError ∨
  (exn_cls (type_error "'in <string>' requires string as left operand") = TypeError ∧
   type_error "'in <string>' requires string as left operand" ∈ runtime_errors ∧
   ∃ body, membership_sample "1 in 'a'" = Some body ∧ allowed body = true).
Proof.
  apply (safe_expression_rejects (λ _ _, false) membership_sample "1 in 'a'").
  vm_compute. reflexivity.
Defined.
