(* ===== verification/ToolRegistry.v ===== *)
(** The tool registry of [eap/environment/tool_registry.py]: the schema
    contract, registration of tools and of plugin manifests, resolution of a
    tool by name or hashed identifier, argument validation, and the manifests
    given to planners.  [callable] objects are an abstract type; SHA-256 and
    the [jsonschema] validator, which the file imports, are parameters. *)
From stdpp Require Import options.
From S2P Require Import Prelude Values Json.
Unset Default Proof Using.

Definition plugin_error (m : string) : exn := Exn PluginManifestError m.
Definition input_error (m : string) : exn := Exn InputValidationError m.

(** What [Draft202012Validator(params).validate(arguments)] does. *)
Inductive verdict :=
  | Valid
  | Invalid (absolute_path : list string) (message : string)
  | Crashed (e : exn).

(** ** The built-in argument checks *)
Section builtin_checks.
(** The shortest decimal text of a float. *)
Context (float_repr : Q → string).

Abbreviation repr := (py_repr float_repr).
Abbreviation str := (py_str float_repr).

(** [_is_type_valid] *)
Definition _is_type_valid (expected_type value : pyval) : bool :=
  match expected_type with
  | PStr "string" => is_str value
  | PStr "boolean" => match value with PBool _ => true | _ => false end
  | PStr "integer" => match value with PInt _ => true | _ => false end
  | PStr "number" => match value with PInt _ | PFloat _ => true | _ => false end
  | PStr "object" => is_dict value
  | PStr "array" => is_list value
  | _ => true
  end.

(** [if bound is not None and a < b: raise] *)
Definition check_bound (bound : option pyval) (below : pyval → result bool) (message : string)
  : result unit :=
  match bound with
  | None | Some PNone => Ok tt
  | Some v => b ← below v; raise_if b (input_error (message +:+ str v +:+ "."))
  end.

Definition check_items (bound : option pyval) (below : pyval → result bool) (message : string)
  : result unit :=
  match bound with
  | None | Some PNone => Ok tt
  | Some v => b ← below v; raise_if b (input_error (message +:+ str v +:+ " items."))
  end.

(** The checks of one argument in [_validate_arguments_builtin]. *)
Definition validate_field (properties : pyval) (key : string) (value : pyval) : result unit :=
  found ← attr_get properties key;
  let field_schema := default (PDict []) found in
  let at_field := "Input validation failed: field '" +:+ key +:+ "' " in
  expected ← attr_get field_schema "type";
  let expected_type := default PNone expected in
  _ ← raise_if (py_truthy expected_type && negb (_is_type_valid expected_type value))
        (input_error (at_field +:+ "expected '" +:+ str expected_type +:+ "' but got '"
                      +:+ type_name value +:+ "'."));
  _ ← match py_get field_schema "enum" with
      | None | Some PNone => Ok tt
      | Some allowed_values =>
          b ← py_in value allowed_values;
          raise_if (negb b)
            (input_error (at_field +:+ "must be one of " +:+ str allowed_values +:+ "."))
      end;
  let len := PInt (py_len value) in
  _ ← (if py_eqb expected_type (PStr "string") then
         _ ← check_bound (py_get field_schema "minLength") (λ m, py_lt_num len m)
               (at_field +:+ "length must be >= ");
         check_bound (py_get field_schema "maxLength") (λ m, py_lt_num m len)
               (at_field +:+ "length must be <= ")
       else Ok tt);
  _ ← (if py_eqb expected_type (PStr "integer") || py_eqb expected_type (PStr "number") then
         _ ← check_bound (py_get field_schema "minimum") (λ m, py_lt_num value m)
               (at_field +:+ "must be >= ");
         check_bound (py_get field_schema "maximum") (λ m, py_lt_num m value)
               (at_field +:+ "must be <= ")
       else Ok tt);
  if py_eqb expected_type (PStr "array") then
    _ ← check_items (py_get field_schema "minItems") (λ m, py_lt_num len m)
          (at_field +:+ "must contain at least ");
    check_items (py_get field_schema "maxItems") (λ m, py_lt_num m len)
          (at_field +:+ "must contain at most ")
  else Ok tt.

(** [[x for x in l if x not in v]] *)
Fixpoint not_in (l : list pyval) (v : pyval) : result (list pyval) :=
  match l with
  | [] => Ok []
  | x :: l => b ← py_in x v; rest ← not_in l v; Ok (if b : bool then rest else x :: rest)
  end.

(** [_validate_arguments_builtin] *)
Definition _validate_arguments_builtin (schema : pyval) (name_or_hash : string)
    (arguments : list (string * pyval)) (params : pyval) : result unit :=
  found_properties ← attr_get params "properties";
  let properties := default (PDict []) found_properties in
  let required := default (PList []) (py_get params "required") in
  let additional_properties := default (PBool true) (py_get params "additionalProperties") in
  let label := str (default (PStr name_or_hash) (py_get schema "name")) in
  required_keys ← py_iter required;
  missing ← not_in required_keys (PDict arguments);
  _ ← raise_if (negb (bool_decide (missing = [])))
        (input_error ("Input validation failed: missing required fields " +:+ repr (PList missing)
                      +:+ " for tool '" +:+ label +:+ "'."));
  _ ← match additional_properties with
      | PBool false =>
          unknown_fields ← not_in (PStr <$> arguments.*1) properties;
          raise_if (negb (bool_decide (unknown_fields = [])))
            (input_error ("Input validation failed: unknown fields " +:+ repr (PList unknown_fields)
                          +:+ " for tool '" +:+ label +:+ "'."))
      | _ => Ok tt
      end;
  for_each (λ kv, validate_field properties kv.1 kv.2) arguments.

End builtin_checks.

Section builtin_theory.
Context (float_repr : Q → string).
Abbreviation check_bound := (check_bound float_repr).
Abbreviation check_items := (check_items float_repr).
Abbreviation validate_field := (validate_field float_repr).
Abbreviation _validate_arguments_builtin := (_validate_arguments_builtin float_repr).

(** ** The built-in argument checks, declaratively *)

(** The values a JSON-schema type name admits. *)
Definition has_type (t : string) (v : pyval) : Prop :=
  match v with
  | PStr _ => t ∉ ["boolean"; "integer"; "number"; "object"; "array"]
  | PBool _ => t ∉ ["string"; "integer"; "number"; "object"; "array"]
  | PInt _ => t ∉ ["string"; "boolean"; "object"; "array"]
  | PFloat _ => t ∉ ["string"; "boolean"; "integer"; "object"; "array"]
  | PDict _ => t ∉ ["string"; "boolean"; "integer"; "number"; "array"]
  | PList _ => t ∉ ["string"; "boolean"; "integer"; "number"; "object"]
  | PNone => t ∉ ["string"; "boolean"; "integer"; "number"; "object"; "array"]
  end.

(** The number an optional bound stands for. *)
Definition bound_of (fs : list (string * pyval)) (k : string) : option Q :=
  dict_get fs k ≫= py_num.

(** [v] satisfies the property schema [fs]. *)
Record field_ok (fs : list (string * pyval)) (v : pyval) : Prop := {
  ok_type t : dict_get fs "type" = Some (PStr t) → has_type t v;
  ok_enum l : dict_get fs "enum" = Some (PList l) → ∃ a, a ∈ l ∧ py_eqb v a = true;
  ok_string : dict_get fs "type" = Some (PStr "string") →
    (∀ q, bound_of fs "minLength" = Some q → (q <= inject_Z (py_len v))%Q) ∧
    (∀ q, bound_of fs "maxLength" = Some q → (inject_Z (py_len v) <= q)%Q);
  ok_number x : dict_get fs "type" = Some (PStr "integer") ∨
                dict_get fs "type" = Some (PStr "number") → py_num v = Some x →
    (∀ q, bound_of fs "minimum" = Some q → (q <= x)%Q) ∧
    (∀ q, bound_of fs "maximum" = Some q → (x <= q)%Q);
  ok_array : dict_get fs "type" = Some (PStr "array") →
    (∀ q, bound_of fs "minItems" = Some q → (q <= inject_Z (py_len v))%Q) ∧
    (∀ q, bound_of fs "maxItems" = Some q → (inject_Z (py_len v) <= q)%Q)
}.

Definition bound_keys : list string :=
  ["minLength"; "maxLength"; "minimum"; "maximum"; "minItems"; "maxItems"].

(** A property schema whose keywords have the types JSON Schema gives them. *)
Definition typed_field (v : pyval) : bool :=
  match v with
  | PDict fs =>
      match dict_get fs "type" with None | Some (PStr _) => true | _ => false end &&
      match dict_get fs "enum" with None | Some (PList _) => true | _ => false end &&
      forallb (λ k, match dict_get fs k with
                    | None | Some (PInt _) | Some (PFloat _) => true
                    | _ => false
                    end) bound_keys
  | _ => false
  end.

Lemma has_type_valid t v : _is_type_valid (PStr t) v = true ↔ has_type t v.
Proof.
  unfold has_type.
  destruct (decide (t ∈ ["string"; "boolean"; "integer"; "number"; "object"; "array"])) as [Ht|Ht].
  - repeat (apply elem_of_cons in Ht as [->|Ht]); [..|by apply elem_of_nil in Ht];
      destruct v; simpl; split; try done; intros H; try (exfalso; apply H; by repeat econstructor);
      by vm_compute; intros H'; repeat (apply elem_of_cons in H' as [?|H']); try apply elem_of_nil in H'.
  - assert (_is_type_valid (PStr t) v = true) as ->.
    { unfold _is_type_valid. repeat case_match; subst; try done; exfalso; apply Ht;
        by repeat econstructor. }
    split; [|done]. intros _. destruct v; rewrite !elem_of_cons in *; naive_solver.
Qed.

Definition numeric_bound (o : option pyval) : bool :=
  match o with None | Some (PInt _) | Some (PFloat _) => true | _ => false end.

Lemma lower_bound_Ok o v x msg u : numeric_bound o = true → py_num v = Some x →
  check_bound o (λ m, py_lt_num v m) msg = Ok u ↔ ∀ q, o ≫= py_num = Some q → (q <= x)%Q.
Proof.
  intros Ho Hx. destruct u, o as [[]|]; try done; simpl; unfold py_lt_num; rewrite ?Hx; simpl.
  - rewrite raise_if_Ok, negb_false_iff, Qle_bool_iff. naive_solver.
  - rewrite raise_if_Ok, negb_false_iff, Qle_bool_iff. naive_solver.
Qed.

Lemma upper_bound_Ok o v x msg u : numeric_bound o = true → py_num v = Some x →
  check_bound o (λ m, py_lt_num m v) msg = Ok u ↔ ∀ q, o ≫= py_num = Some q → (x <= q)%Q.
Proof.
  intros Ho Hx. destruct u, o as [[]|]; try done; simpl; unfold py_lt_num; rewrite ?Hx; simpl.
  - rewrite raise_if_Ok, negb_false_iff, Qle_bool_iff. naive_solver.
  - rewrite raise_if_Ok, negb_false_iff, Qle_bool_iff. naive_solver.
Qed.

Lemma check_items_bound o below msg u :
  check_items o below msg = Ok u ↔ check_bound o below msg = Ok u.
Proof.
  destruct o as [v|]; simpl; [|done]. destruct v; simpl; try done;
    rewrite !bind_Ok; setoid_rewrite raise_if_Ok; done.
Qed.

Lemma type_test_eqb o t :
  match o with None | Some (PStr _) => true | _ => false end = true →
  py_eqb (default PNone o) (PStr t) = bool_decide (o = Some (PStr t)).
Proof.
  destruct o as [[]|]; try done. simpl. intros _. apply bool_decide_ext. naive_solver.
Qed.

Lemma bind_unit_Ok {A} (r : result unit) (k : unit → result A) a :
  r ≫= k = Ok a ↔ r = Ok tt ∧ k tt = Ok a.
Proof. rewrite bind_Ok. split; [intros ([] & ? & ?); done | intros [??]; by exists tt]. Qed.

(** One section of [validate_field]: a pair of bounds checked for one type. *)
Lemma guarded_bounds (b : bool) (P Q R : Prop) (r1 r2 : result unit) :
  (b = true ↔ P) → (P → r1 = Ok tt ↔ Q) → (P → r2 = Ok tt ↔ R) →
  (if b then r1 ≫= λ _, r2 else Ok tt) = Ok tt ↔ (P → Q ∧ R).
Proof.
  intros Hb H1 H2. destruct b.
  - assert (HP : P) by (by apply Hb). rewrite bind_unit_Ok, H1, H2 by done. naive_solver.
  - split; [|done]. intros _ HP. by apply Hb in HP.
Qed.

Lemma number_type_num t v : t = "integer" ∨ t = "number" →
  _is_type_valid (PStr t) v = true → is_Some (py_num v).
Proof. intros [-> | ->]; destruct v; simpl; try done; eauto. Qed.

Lemma type_check_Ok o v e :
  match o with None | Some (PStr _) => true | _ => false end = true →
  raise_if (py_truthy (default PNone o) && negb (_is_type_valid (default PNone o) v)) e = Ok tt ↔
  ∀ t, o = Some (PStr t) → has_type t v.
Proof.
  rewrite raise_if_Ok, andb_false_iff, negb_false_iff.
  destruct o as [[]|]; try done; simpl; intros _; [|naive_solver].
  rewrite negb_false_iff, bool_decide_eq_true. setoid_rewrite <- has_type_valid.
  split; [intros [->|?] ? [= <-]; done | intros H; right; by apply H].
Qed.

Lemma enum_check_Ok o v f :
  match o with None | Some (PList _) => true | _ => false end = true →
  match o with
  | None | Some PNone => Ok tt
  | Some allowed => py_in v allowed ≫= λ b, raise_if (negb b) (f allowed)
  end = Ok tt ↔ ∀ l, o = Some (PList l) → ∃ a, a ∈ l ∧ py_eqb v a = true.
Proof.
  destruct o as [[]|]; try done; simpl; intros _.
  rewrite raise_if_Ok, negb_false_iff, existsb_exists. setoid_rewrite <- list_elem_of_In.
  naive_solver.
Qed.

Lemma field_schema_cases props key v :
  (∀ fs, dict_get props key = Some fs → typed_field fs = true) →
  ∃ fs, default (PDict []) (dict_get props key) = PDict fs ∧ typed_field (PDict fs) = true ∧
    ((∀ fs', dict_get props key = Some (PDict fs') → field_ok fs' v) ↔ field_ok fs v).
Proof.
  intros Htyped. destruct (dict_get props key) as [w|] eqn:E.
  - specialize (Htyped w eq_refl). destruct w as [| | | | | |fs]; try done.
    exists fs. split_and!; [done..|]. naive_solver.
  - exists []. split_and!; [done..|]. split; [|naive_solver].
    intros _. constructor; simpl; try done.
Qed.

Lemma validate_field_Ok props key v :
  (∀ fs, dict_get props key = Some fs → typed_field fs = true) →
  validate_field (PDict props) key v = Ok tt ↔
  ∀ fs, dict_get props key = Some (PDict fs) → field_ok fs v.
Proof.
  intros Htyped. destruct (field_schema_cases props key v Htyped) as (fs & Hfs & Ht & ->).
  unfold validate_field. simpl. rewrite Hfs. clear Hfs Htyped.
  unfold typed_field in Ht. apply andb_true_iff in Ht as [Ht Hb].
  apply andb_true_iff in Ht as [Ht He]. rewrite forallb_forall in Hb.
  assert (Hbd : ∀ k, k ∈ bound_keys → numeric_bound (dict_get fs k) = true).
  { intros k Hk. by apply Hb, list_elem_of_In. }
  simpl. rewrite !type_test_eqb by done.
  rewrite bind_unit_Ok, type_check_Ok by done.
  rewrite bind_unit_Ok, (enum_check_Ok _ v _ He).
  set (n := PInt (py_len v)).
  rewrite bind_unit_Ok, bind_unit_Ok.
  rewrite (guarded_bounds _ (dict_get fs "type" = Some (PStr "string"))); cycle 1.
  { apply bool_decide_eq_true. }
  { intros _. apply (lower_bound_Ok _ n); [apply Hbd; by repeat econstructor|done]. }
  { intros _. apply (upper_bound_Ok _ n); [apply Hbd; by repeat econstructor|done]. }
  rewrite (guarded_bounds (bool_decide (dict_get fs "type" = Some (PStr "array")))
    (dict_get fs "type" = Some (PStr "array"))); cycle 1.
  { apply bool_decide_eq_true. }
  { intros _. rewrite check_items_bound.
    apply (lower_bound_Ok _ n); [apply Hbd; by repeat econstructor|done]. }
  { intros _. rewrite check_items_bound.
    apply (upper_bound_Ok _ n); [apply Hbd; by repeat econstructor|done]. }
  assert (Hnum : (∀ t, dict_get fs "type" = Some (PStr t) → has_type t v) →
    dict_get fs "type" = Some (PStr "integer") ∨ dict_get fs "type" = Some (PStr "number") →
    is_Some (py_num v)).
  { intros Hty [H|H]; [apply (number_type_num "integer")|apply (number_type_num "number")];
      auto; by apply has_type_valid, Hty. }
  split.
  - intros (Hty & Hen & Hs & Hn & Ha). constructor; try done.
    intros x Hor Hx. revert Hn. rewrite (guarded_bounds _ (dict_get fs "type" = Some (PStr "integer")
      ∨ dict_get fs "type" = Some (PStr "number"))); [intros Hn; by apply Hn|..].
    + by rewrite orb_true_iff, !bool_decide_eq_true.
    + intros _. apply (lower_bound_Ok _ v); [apply Hbd; by repeat econstructor|done].
    + intros _. apply (upper_bound_Ok _ v); [apply Hbd; by repeat econstructor|done].
  - intros [Hty Hen Hs Hn Ha]. split_and!; try done.
    apply (guarded_bounds _ (dict_get fs "type" = Some (PStr "integer")
      ∨ dict_get fs "type" = Some (PStr "number"))
      (∀ x, py_num v = Some x → ∀ q, bound_of fs "minimum" = Some q → (q <= x)%Q)
      (∀ x, py_num v = Some x → ∀ q, bound_of fs "maximum" = Some q → (x <= q)%Q)).
    + by rewrite orb_true_iff, !bool_decide_eq_true.
    + intros Hor. destruct (Hnum Hty Hor) as [x Hx].
      rewrite (lower_bound_Ok _ v x) by (done || apply Hbd; by repeat econstructor).
      rewrite Hx. naive_solver.
    + intros Hor. destruct (Hnum Hty Hor) as [x Hx].
      rewrite (upper_bound_Ok _ v x) by (done || apply Hbd; by repeat econstructor).
      rewrite Hx. naive_solver.
    + intros Hor. split; intros x Hx; by apply Hn.
Qed.

Lemma not_in_Ok (ks : list string) d :
  ∃ l, not_in (PStr <$> ks) (PDict d) = Ok l ∧ (l = [] ↔ ∀ k, k ∈ ks → k ∈ d.*1).
Proof.
  induction ks as [|k ks (l & Hl & IH)]; csimpl.
  - exists []. split; [done|]. split; [|done]. by intros _ k ?%elem_of_nil.
  - rewrite Hl. simpl. destruct (dict_get d k) as [v|] eqn:Hk; simpl.
    + exists l. split; [done|]. rewrite IH. setoid_rewrite elem_of_cons.
      assert (k ∈ d.*1) by (apply dict_get_is_Some; by exists v). naive_solver.
    + exists (PStr k :: l). split; [done|]. split; [done|].
      intros H. apply dict_get_None in Hk. destruct Hk. apply H. left.
Qed.

(** The shape of a [parameters] block that passed the schema contract and
    whose property schemas are typed. *)
Definition params_shape (params : pyval) (required : list string)
    (props : list (string * pyval)) (additional : bool) : Prop :=
  py_get params "properties" = Some (PDict props) ∧
  default (PList []) (py_get params "required") = PList (PStr <$> required) ∧
  default (PBool true) (py_get params "additionalProperties") = PBool additional ∧
  Forall (λ kv, typed_field kv.2 = true) props.

Lemma raise_empty (l : list pyval) (P : Prop) e : (l = [] ↔ P) →
  raise_if (negb (bool_decide (l = []))) e = Ok tt ↔ P.
Proof. intros <-. rewrite raise_if_Ok, negb_false_iff. apply bool_decide_eq_true. Qed.

Lemma validate_arguments_builtin_Ok schema ref arguments params required props additional :
  params_shape params required props additional →
  _validate_arguments_builtin schema ref arguments params = Ok tt ↔
    (∀ k, k ∈ required → k ∈ arguments.*1) ∧
    (additional = false → ∀ k, k ∈ arguments.*1 → k ∈ props.*1) ∧
    (∀ k v fs, (k, v) ∈ arguments → dict_get props k = Some (PDict fs) → field_ok fs v).
Proof.
  intros (Hp & Hr & Ha & Ht). unfold _validate_arguments_builtin.
  destruct params as [| | | | | |d]; try done. cbn [attr_get mbind result_bind].
  rewrite Hr, Ha. simpl in Hp. rewrite Hp. simpl.
  destruct (not_in_Ok required arguments) as (l & -> & Hl). simpl.
  rewrite bind_unit_Ok, (raise_empty _ _ _ Hl).
  rewrite bind_unit_Ok, for_each_Ok, Forall_forall.
  assert (Hf : (∀ x, x ∈ arguments → validate_field (PDict props) x.1 x.2 = Ok tt) ↔
    (∀ k v fs, (k, v) ∈ arguments → dict_get props k = Some (PDict fs) → field_ok fs v)).
  { assert (Hty : ∀ k fs, dict_get props k = Some fs → typed_field fs = true).
    { intros k fs Hk%dict_get_elem. rewrite Forall_forall in Ht. by apply (Ht _ Hk). }
    split.
    - intros H k v fs Hin Hk. pose proof (H _ Hin) as Hv. simpl in Hv.
      pose proof (proj1 (validate_field_Ok props k v (Hty k)) Hv fs Hk). done.
    - intros H [k v] Hin. apply validate_field_Ok; [apply Hty|]. intros fs Hk. eauto. }
  rewrite Hf. destruct additional; [naive_solver|].
  destruct (not_in_Ok arguments.*1 props) as (l' & Hl' & Hl2). rewrite Hl'. simpl.
  rewrite (raise_empty _ _ _ Hl2). naive_solver.
Qed.

End builtin_theory.

Section registry.
Context {func : Type}.
(** [hashlib.sha256(text.encode()).hexdigest()] *)
Context (sha256_hex : string → string).
(** The shortest decimal text of a float. *)
Context (float_repr : Q → string).
(** Whether [import jsonschema] succeeded; [check_schema] does not raise
    [SchemaError]. *)
Context (jsonschema_available : bool).
Context (check_schema : pyval → bool).

Abbreviation repr := (py_repr float_repr).
Abbreviation str := (py_str float_repr).

(** A value found in a plugin payload: JSON-shaped, or a callable object. *)
Inductive field := Callable (f : func) | Plain (v : pyval).

Definition is_callable (x : field) : bool := match x with Callable _ => true | Plain _ => false end.

(** [ToolDefinition]; a dataclass checks none of its fields' types. *)
Record ToolDefinition := { tool_name : field; tool_func : field; tool_schema : field }.

(** [ToolRegistry]'s dictionaries. *)
Record registry := {
  _tools : list (string * func);
  _schemas : list (string * pyval);
  _hashes : list (string * string);
  _validators : list (string * pyval) (* the schema each validator was built from *)
}.

Definition empty_registry : registry :=
  {| _tools := []; _schemas := []; _hashes := []; _validators := [] |}.

(** [validate_schema_contract] *)
Definition validate_schema_contract (name : string) (schema : pyval) : result unit :=
  let tool := "Tool '" +:+ name +:+ "' " in
  _ ← raise_if (negb (is_dict schema))
        (plugin_error ("Schema for tool '" +:+ name +:+ "' must be an object."));
  let schema_name := default PNone (py_get schema "name") in
  _ ← raise_if (negb (py_eqb schema_name (PStr name)))
        (plugin_error ("Schema name mismatch for tool '" +:+ name +:+ "'. Expected '" +:+ name
                       +:+ "', got '" +:+ str schema_name +:+ "'."));
  let params := default PNone (py_get schema "parameters") in
  _ ← raise_if (negb (is_dict params))
        (plugin_error (tool +:+ "schema must include object 'parameters'."));
  let type := default PNone (py_get params "type") in
  _ ← raise_if (negb (py_eqb type PNone || py_eqb type (PStr "object")))
        (plugin_error (tool +:+ "parameters type must be 'object'."));
  let properties := default PNone (py_get params "properties") in
  _ ← raise_if (negb (is_dict properties))
        (plugin_error (tool +:+ "parameters must include object 'properties'."));
  let required := default (PList []) (py_get params "required") in
  fields ← match required with
           | PList l => if forallb is_str l then Ok l
                        else Raise (plugin_error (tool +:+ "required field list must be a list of strings."))
           | _ => Raise (plugin_error (tool +:+ "required field list must be a list of strings."))
           end;
  let invalid_required :=
    List.filter (λ f, match py_in f properties with Ok false => true | _ => false end) fields in
  _ ← raise_if (negb (bool_decide (invalid_required = [])))
        (plugin_error (tool +:+ "required fields missing in properties: "
                       +:+ repr (PList invalid_required) +:+ "."));
  match py_get params "additionalProperties" with
  | None | Some PNone | Some (PBool _) => Ok tt
  | Some _ =>
      Raise (plugin_error (tool +:+ "additionalProperties must be a boolean when provided."))
  end.

(** [f"{name}_{schema_hash}"] *)
Definition hashed_name (name : string) (schema : pyval) : string :=
  name +:+ "_" +:+ String.substring 0 8 (sha256_hex (json_dumps_sorted float_repr schema)).

(** [register]: everything that can raise comes before the first write. *)
Definition register (r : registry) (name : field) (f : field) (schema : field) : result registry :=
  name ← match name with
         | Plain (PStr s) => if py_blank s
                             then Raise (plugin_error "Tool name must be a non-empty string.")
                             else Ok s
         | _ => Raise (plugin_error "Tool name must be a non-empty string.")
         end;
  f ← match f with
      | Callable f => Ok f
      | Plain _ => Raise (plugin_error ("Tool '" +:+ name +:+ "' function must be callable."))
      end;
  schema ← match schema with
           | Plain v => _ ← validate_schema_contract name v; Ok v
           | Callable _ =>
               Raise (plugin_error ("Schema for tool '" +:+ name +:+ "' must be an object."))
           end;
  let validators := dict_del (_validators r) name in
  let params := default PNone (py_get schema "parameters") in
  Ok {| _tools := dict_set (_tools r) name f;
        _schemas := dict_set (_schemas r) name schema;
        _hashes := dict_set (_hashes r) name (hashed_name name schema);
        _validators := if jsonschema_available && is_dict params && check_schema params
                       then dict_set validators name params else validators |}.

(** [register_tool_definition] *)
Definition register_tool_definition (r : registry) (d : ToolDefinition) : result registry :=
  register r (tool_name d) (tool_func d) (tool_schema d).

(** An item of a manifest's ['tools'] list. *)
Inductive raw_tool :=
  | Definition_ (d : ToolDefinition)
  | Payload (name function schema : field) (* [Plain PNone] where the key is absent *)
  | OtherTool.

(** [_normalize_tool_definition] *)
Definition _normalize_tool_definition (tool : raw_tool) : result ToolDefinition :=
  match tool with
  | Definition_ d => Ok d
  | OtherTool =>
      Raise (plugin_error "Each plugin tool must be a ToolDefinition or an object payload.")
  | Payload name f schema =>
      n ← match name with
          | Plain (PStr s) => if py_blank s
              then Raise (plugin_error "Each plugin tool must declare a non-empty string 'name'.")
              else Ok s
          | _ => Raise (plugin_error "Each plugin tool must declare a non-empty string 'name'.")
          end;
      _ ← raise_if (negb (is_callable f))
            (plugin_error ("Plugin tool '" +:+ n +:+ "' field 'function' must be callable."));
      _ ← raise_if (match schema with Plain v => negb (is_dict v) | Callable _ => true end)
            (plugin_error ("Plugin tool '" +:+ n +:+ "' field 'schema' must be an object."));
      Ok {| tool_name := name; tool_func := f; tool_schema := schema |}
  end.

(** A plugin manifest: an object with a name and tools, or something else. *)
Inductive manifest :=
  | Manifest (plugin_name : field) (tools : option (list raw_tool)) (* [None]: not a list *)
  | OtherManifest.

(** The loop of [register_plugin_manifest]; tools registered before a failing
    one stay registered. *)
Fixpoint register_tools (r : registry) (tools : list raw_tool) (registered : list string)
  : registry * result (list string) :=
  match tools with
  | [] => (r, Ok registered)
  | raw :: tools =>
      match (tool ← _normalize_tool_definition raw; r' ← register_tool_definition r tool;
             Ok (r', tool)) with
      | Ok (r', tool) =>
          register_tools r' tools
            (registered ++ match tool_name tool with Plain (PStr s) => [s] | _ => [] end)
      | Raise e => (r, Raise e)
      end
  end.

(** [register_plugin_manifest] *)
Definition register_plugin_manifest (r : registry) (m : manifest) (source : string)
  : registry * result (list string) :=
  match m with
  | OtherManifest =>
      (r, Raise (plugin_error ("Plugin manifest from '" +:+ source +:+ "' must be an object.")))
  | Manifest plugin_name tools =>
      match plugin_name with
      | Plain (PStr name) =>
          if py_blank name
          then (r, Raise (plugin_error ("Plugin manifest from '" +:+ source
                            +:+ "' missing non-empty 'plugin_name'.")))
          else match tools with
               | Some ((_ :: _) as tools) => register_tools r tools []
               | _ => (r, Raise (plugin_error ("Plugin '" +:+ name
                            +:+ "' must provide a non-empty 'tools' list.")))
               end
      | _ => (r, Raise (plugin_error ("Plugin manifest from '" +:+ source
                            +:+ "' missing non-empty 'plugin_name'.")))
      end
  end.

(** [_resolve_original_name]: the first entry, in registration order, whose
    name or hashed name is the reference. *)
Fixpoint find_name (hashes : list (string * string)) (name_or_hash : string) : option string :=
  match hashes with
  | [] => None
  | (original, hashed) :: hashes =>
      if decide (name_or_hash = original ∨ name_or_hash = hashed) then Some original
      else find_name hashes name_or_hash
  end.

Definition _resolve_original_name (r : registry) (name_or_hash : string) : result string :=
  match find_name (_hashes r) name_or_hash with
  | Some original => Ok original
  | None => Raise (value_error ("Tool reference '" +:+ name_or_hash +:+ "' not found in registry."))
  end.

(** [d[k]] *)
Definition dict_index {V} (d : list (string * V)) (k : string) : result V :=
  match dict_get d k with
  | Some v => Ok v
  | None => Raise (Exn KeyError k)
  end.

Definition get_tool (r : registry) (name_or_hash : string) : result func :=
  original ← _resolve_original_name r name_or_hash; dict_index (_tools r) original.

Definition get_schema (r : registry) (name_or_hash : string) : result pyval :=
  original ← _resolve_original_name r name_or_hash; dict_index (_schemas r) original.

Section compiled_validator.
(** The verdict of the validator compiled from a [parameters] block. *)
Context (jsonschema_validate : pyval → pyval → verdict).

(** [validate_arguments] *)
Definition validate_arguments (r : registry) (name_or_hash : string) (arguments : pyval)
  : result unit :=
  schema ← get_schema r name_or_hash;
  original_name ← _resolve_original_name r name_or_hash;
  found ← attr_get schema "parameters";
  let params := default (PDict []) found in
  found_type ← attr_get params "type";
  let type := default PNone found_type in
  _ ← raise_if (negb (py_eqb type PNone || py_eqb type (PStr "object")))
        (input_error "Input validation failed: top-level parameters type must be object.");
  match arguments with
  | PDict args =>
      match dict_get (_validators r) original_name with
      | Some compiled =>
          match jsonschema_validate compiled arguments with
          | Valid => Ok tt
          | Crashed e => Raise e
          | Invalid path message =>
              let location := str_or (Some (py_join "/" path)) "<root>" in
              let tool_label := str (default (PStr name_or_hash) (py_get schema "name")) in
              Raise (input_error ("Input validation failed for tool '" +:+ tool_label
                       +:+ "' at '" +:+ location +:+ "': " +:+ message))
          end
      | None => _validate_arguments_builtin float_repr schema name_or_hash args params
      end
  | _ => Raise (input_error "Input validation failed: arguments payload must be an object.")
  end.

End compiled_validator.

(** [_sorted_by_tool_name] *)
Definition _sorted_by_tool_name {V} (mapping : list (string * V)) : list (string * V) :=
  omap (λ name, (λ v, (name, v)) <$> dict_get mapping name) (py_sorted mapping.*1).

Definition get_hashed_manifest (r : registry) : list (string * string) :=
  _sorted_by_tool_name (_hashes r).

Definition get_full_schemas (r : registry) : list (string * pyval) :=
  _sorted_by_tool_name (_schemas r).

(** [get_agent_manifest]: a dict comprehension, later equal keys overwrite. *)
Definition get_agent_manifest (r : registry) : result (list (string * pyval)) :=
  let hashed_manifest := get_hashed_manifest r in
  let schemas := get_full_schemas r in
  fold_result (λ acc name,
    hashed ← dict_index hashed_manifest name;
    schema ← dict_index schemas name;
    parameters ← match schema with
                 | PDict d => dict_index d "parameters"
                 | _ => Raise (py_type_error "object is not subscriptable")
                 end;
    Ok (dict_set acc hashed parameters)) [] (py_sorted hashed_manifest.*1).

(** ** The registry's invariant *)

(** The four dictionaries describe the same tools. *)
Record registry_wf (r : registry) : Prop := {
  wf_nodup : NoDup (_tools r).*1;
  wf_schemas : (_schemas r).*1 = (_tools r).*1;
  wf_hashes : _hashes r = (λ kv, (kv.1, hashed_name kv.1 kv.2)) <$> _schemas r;
  wf_contract : Forall (λ kv, py_blank kv.1 = false ∧
    validate_schema_contract kv.1 kv.2 = Ok tt) (_schemas r);
  wf_validators n p :
    dict_get (_validators r) n = Some p ↔
    jsonschema_available = true ∧ check_schema p = true ∧
    ∃ s, dict_get (_schemas r) n = Some s ∧ py_get s "parameters" = Some p
}.

(** Registries built from the constructor by the registering operations, with
    any outcome. *)
Inductive reachable : registry → Prop :=
  | reachable_empty : reachable empty_registry
  | reachable_register r name f schema r' :
      reachable r → register r name f schema = Ok r' → reachable r'
  | reachable_manifest r m source :
      reachable r → reachable (register_plugin_manifest r m source).1.

Lemma empty_registry_wf : registry_wf empty_registry.
Proof.
  constructor; [apply NoDup_nil_2|done|done|by apply Forall_nil|].
  intros n p. simpl. split; [done|]. by intros (_ & _ & ? & ? & _).
Qed.

Lemma validate_schema_contract_params name schema :
  validate_schema_contract name schema = Ok tt →
  is_dict schema = true ∧ ∃ d, py_get schema "parameters" = Some (PDict d).
Proof.
  unfold validate_schema_contract. intros H. inv_result.
  destruct (py_get schema "parameters") as [[]|]; simpl in *; naive_solver.
Qed.

(** What a successful [register] writes. *)
Lemma register_Ok r name f schema r' :
  register r name f schema = Ok r' →
  ∃ n g s d, name = Plain (PStr n) ∧ f = Callable g ∧ schema = Plain s ∧
    py_blank n = false ∧ validate_schema_contract n s = Ok tt ∧
    py_get s "parameters" = Some (PDict d) ∧
    r' = {| _tools := dict_set (_tools r) n g;
            _schemas := dict_set (_schemas r) n s;
            _hashes := dict_set (_hashes r) n (hashed_name n s);
            _validators := if jsonschema_available && check_schema (PDict d)
                           then dict_set (dict_del (_validators r) n) n (PDict d)
                           else dict_del (_validators r) n |}.
Proof.
  unfold register. intros H.
  apply bind_Ok in H as (n & Hn & H). destruct name as [|[]]; try done.
  destruct (py_blank s) eqn:Hb; [done|]. injection Hn as <-.
  apply bind_Ok in H as (g & Hg & H). destruct f as [g'|]; [|done]. injection Hg as <-.
  apply bind_Ok in H as (v & Hv & H). destruct schema as [|v']; [done|].
  apply bind_Ok in Hv as ([] & Hc & [= <-]).
  destruct (validate_schema_contract_params _ _ Hc) as (_ & d & Hd).
  rewrite Hd in H. simpl in H. injection H as <-.
  exists s, g', v', d. rewrite andb_true_r. done.
Qed.

Lemma dict_set_fmap {V W} (g : string * V → W) (d : list (string * V)) k v :
  dict_set ((λ kv, (kv.1, g kv)) <$> d) k (g (k, v)) = (λ kv, (kv.1, g kv)) <$> dict_set d k v.
Proof.
  induction d as [|[k1 v1] d IH]; [done|]. csimpl. destruct (decide (k1 = k)); csimpl; [done|].
  by rewrite IH.
Qed.

Lemma Forall_dict_set {V} (P : string * V → Prop) (d : list (string * V)) k v :
  Forall P d → P (k, v) → Forall P (dict_set d k v).
Proof.
  induction 1 as [|[k1 v1] d Hx Hd IH]; intros Hk; simpl; [by repeat constructor|].
  destruct (decide (k1 = k)); constructor; auto.
Qed.

Lemma register_wf r name f schema r' :
  registry_wf r → register r name f schema = Ok r' → registry_wf r'.
Proof.
  intros [Hnd Hs Hh Hc Hv] (n & g & s & d & -> & -> & -> & Hb & Hok & Hd & ->)%register_Ok.
  constructor; simpl.
  - by apply dict_set_NoDup.
  - by rewrite !dict_set_keys_eq, Hs.
  - rewrite Hh. apply (dict_set_fmap (λ kv, hashed_name kv.1 kv.2)).
  - by apply Forall_dict_set.
  - intros n' p. rewrite dict_get_set.
    destruct (jsonschema_available && check_schema (PDict d)) eqn:Hj.
    + apply andb_true_iff in Hj as [??]. rewrite dict_get_set, dict_get_del.
      destruct (decide (n = n')) as [->|Hne].
      * split; [intros [= <-]; naive_solver | naive_solver congruence].
      * rewrite decide_False by done. apply Hv.
    + apply andb_false_iff in Hj. rewrite dict_get_del.
      destruct (decide (n = n')) as [->|Hne].
      * rewrite decide_True by done. split; [done|]. intros (Hja & Hcs & s' & [= <-] & Hp).
        rewrite Hd in Hp. injection Hp as <-. rewrite Hja, Hcs in Hj. naive_solver.
      * rewrite decide_False by done. apply Hv.
Qed.

Lemma register_tools_wf r tools acc :
  registry_wf r → registry_wf (register_tools r tools acc).1.
Proof.
  revert r acc. induction tools as [|t tools IH]; intros r acc Hr; cbn [register_tools]; [done|].
  destruct (_ ≫= _) as [[r' tool]|] eqn:E; [|done].
  apply bind_Ok in E as (tl & _ & E). apply bind_Ok in E as (r1 & E & [= <- <-]).
  apply IH. by eapply register_wf.
Qed.

Lemma register_plugin_manifest_wf r m source :
  registry_wf r → registry_wf (register_plugin_manifest r m source).1.
Proof.
  intros Hr. destruct m as [[|[]] [[|t ts]|]|]; simpl; try done; destruct (py_blank s); try done.
  by apply (register_tools_wf r (t :: ts) []).
Qed.

Lemma reachable_wf r : reachable r → registry_wf r.
Proof.
  induction 1; [apply empty_registry_wf|by eapply register_wf|by apply register_plugin_manifest_wf].
Qed.

(** ** Resolution *)

Lemma find_name_elem hashes ref n :
  find_name hashes ref = Some n → ∃ h, (n, h) ∈ hashes ∧ (ref = n ∨ ref = h).
Proof.
  induction hashes as [|[o h] hashes IH]; simpl; [done|].
  case_decide as Hd; [intros [= <-]; exists h; split; [left|done]|].
  intros (h' & ? & ?)%IH. exists h'. split; [by right|done].
Qed.

Lemma find_name_Some hashes ref n h :
  (n, h) ∈ hashes → ref = n ∨ ref = h →
  (∀ n' h', (n', h') ∈ hashes → ref = n' ∨ ref = h' → n' = n) →
  find_name hashes ref = Some n.
Proof.
  induction hashes as [|[o h0] hashes IH]; simpl; [by intros ?%elem_of_nil|].
  intros Hin Href Huniq. case_decide as Hd.
  - f_equal. apply (Huniq o h0); [left|done].
  - apply elem_of_cons in Hin as [[= <- <-]|Hin]; [done|].
    apply IH; [done..|]. intros n' h' ?. apply Huniq. by right.
Qed.

Lemma wf_tools_lookup r n : registry_wf r → n ∈ (_hashes r).*1 →
  ∃ f s, dict_get (_tools r) n = Some f ∧ dict_get (_schemas r) n = Some s ∧
         dict_get (_hashes r) n = Some (hashed_name n s).
Proof.
  intros [Hnd Hs Hh _ _] Hin. rewrite Hh, <- list_fmap_compose in Hin.
  change (n ∈ (_schemas r).*1) in Hin.
  destruct (proj2 (dict_get_is_Some (_schemas r) n) Hin) as [s Hgs].
  rewrite Hs in Hin. destruct (proj2 (dict_get_is_Some (_tools r) n) Hin) as [f Hgf].
  exists f, s. split_and!; [done..|]. rewrite Hh. clear -Hgs.
  induction (_schemas r) as [|[k v] d IH]; csimpl in *; [done|]. destruct (decide (k = n)); [|auto].
  congruence.
Qed.

Lemma hashed_name_inj n1 s1 n2 s2 :
  (∀ t, 8 ≤ String.length (sha256_hex t)) →
  hashed_name n1 s1 = hashed_name n2 s2 → n1 = n2.
Proof.
  intros Hlen H. unfold hashed_name in H.
  apply string_app_inv_suffix in H as [-> _]; [done|].
  change (S (String.length (String.substring 0 8 (sha256_hex (json_dumps_sorted float_repr s1)))) =
          S (String.length (String.substring 0 8 (sha256_hex (json_dumps_sorted float_repr s2))))).
  by rewrite !substring_length.
Qed.

Lemma wf_hashes_elem r n h : registry_wf r →
  (n, h) ∈ _hashes r ↔ ∃ s, dict_get (_schemas r) n = Some s ∧ h = hashed_name n s.
Proof.
  intros Hr. pose proof (wf_nodup r Hr) as Hnd. rewrite <- (wf_schemas r Hr) in Hnd.
  setoid_rewrite (dict_get_Some _ _ _ Hnd). rewrite (wf_hashes r Hr), list_elem_of_fmap.
  split; [intros ([k s] & [= -> ->] & ?); eauto | intros (s & ? & ->); by exists (n, s)].
Qed.

(** ** Properties *)

(** In every registry the operations can build, all four dictionaries
    describe the same contract-checked tools, and looking a reference up either
    finds both function and schema or raises the not-found [ValueError]: the
    [KeyError] of a dictionary subscript never escapes. *)
Theorem registry_consistent r ref :
  reachable r →
  registry_wf r ∧
  ((∃ f s, get_tool r ref = Ok f ∧ get_schema r ref = Ok s) ∨
   (∀ n, n ∈ (_tools r).*1 → n ≠ ref) ∧
   get_tool r ref = Raise (value_error ("Tool reference '" +:+ ref +:+ "' not found in registry.")) ∧
   get_schema r ref = Raise (value_error ("Tool reference '" +:+ ref +:+ "' not found in registry."))).
Proof.
  intros Hr%reachable_wf. split; [done|].
  unfold get_tool, get_schema, _resolve_original_name.
  destruct (find_name (_hashes r) ref) as [n|] eqn:E; simpl.
  - left. apply find_name_elem in E as (h & Hin & _).
    destruct (wf_tools_lookup r n Hr) as (f & s & Hf & Hs & _).
    { by apply (list_elem_of_fmap_2 fst) in Hin. }
    exists f, s. unfold dict_index. by rewrite Hf, Hs.
  - right. split_and!; [|done..]. intros n Hn ->.
    rewrite <- (wf_schemas r Hr) in Hn. apply dict_get_is_Some in Hn as [s Hs].
    assert (Hin : (ref, hashed_name ref s) ∈ _hashes r) by (apply wf_hashes_elem; eauto).
    clear -E Hin. induction (_hashes r) as [|[o h] l IH]; [by apply elem_of_nil in Hin|].
    simpl in E. case_decide; [done|]. apply elem_of_cons in Hin as [[= <- <-]|Hin]; [tauto|auto].
Qed.

(** When no tool is named like another tool's hashed identifier, a
    registered tool is found, with its own schema, both by its name and by
    its hashed identifier (digests of at least eight characters cannot
    confuse two tools). *)
Theorem resolution_roundtrip r n s :
  (∀ t, 8 ≤ String.length (sha256_hex t)) →
  reachable r →
  (∀ n' s', (n', s') ∈ _schemas r → hashed_name n' s' ∉ (_schemas r).*1) →
  dict_get (_schemas r) n = Some s →
  get_schema r n = Ok s ∧ get_schema r (hashed_name n s) = Ok s.
Proof.
  intros Hlen Hr%reachable_wf Hclash Hs. unfold get_schema, _resolve_original_name.
  assert (Hin : (n, hashed_name n s) ∈ _hashes r) by (apply wf_hashes_elem; eauto).
  assert (Hkey : n ∈ (_schemas r).*1) by (apply dict_get_is_Some; eauto).
  rewrite !(find_name_Some _ _ n _ Hin); simpl.
  - unfold dict_index. by rewrite Hs.
  - by right.
  - intros n' h' (s' & Hs' & ->)%(wf_hashes_elem _ _ _ Hr) [H|H].
    + destruct (Hclash n s); [by apply dict_get_elem|]. rewrite H.
      apply dict_get_is_Some. eauto.
    + symmetry. by eapply hashed_name_inj.
  - by left.
  - intros n' h' (s' & Hs' & ->)%(wf_hashes_elem _ _ _ Hr) [H|H]; [done|].
    destruct (Hclash n' s'); [by apply dict_get_elem|]. by rewrite <- H.
Qed.

(** A schema's identifier depends on its content only: schemas equal up
    to the order of dictionary entries get the same hashed name. *)
Theorem hashed_name_canonical n s s' :
  same_json s s' → hashed_name n s = hashed_name n s'.
Proof.
  intros H. unfold hashed_name, json_dumps_sorted.
  by rewrite (json_dumps_sorted_same float_repr _ _ _ _ H).
Qed.

(** C40: the built-in argument check accepts exactly the payloads that have
    every required field, no unknown field when [additionalProperties] is
    [false], and whose every declared field satisfies its property schema
    (type, enumeration and bounds). *)
Theorem builtin_validation_correct schema ref arguments params required props additional :
  params_shape params required props additional →
  _validate_arguments_builtin float_repr schema ref arguments params = Ok tt ↔
    (∀ k, k ∈ required → k ∈ arguments.*1) ∧
    (additional = false → ∀ k, k ∈ arguments.*1 → k ∈ props.*1) ∧
    (∀ k v fs, (k, v) ∈ arguments → dict_get props k = Some (PDict fs) → field_ok fs v).
Proof. apply validate_arguments_builtin_Ok. Qed.
End registry.

(** ** Concrete inputs *)
Definition sample_schema : pyval :=
  PDict [("name", PStr "fetch");
         ("parameters", PDict [("type", PStr "object");
            ("properties", PDict [("url", PDict [("type", PStr "string"); ("maxLength", PInt 8)]);
                                  ("tries", PDict [("type", PStr "integer"); ("minimum", PInt 1)])]);
            ("required", PList [PStr "url"]);
            ("additionalProperties", PBool false)])].

Definition sample_digest (_ : string) : string := "0123456789abcdef".
Definition sample_register :=
  register (func := nat) sample_digest (λ _, "0.5") false (λ _, true) empty_registry
    (Plain (PStr "fetch")) (Callable 7) (Plain sample_schema).
Definition sample_registry : registry :=
  match sample_register with Ok r => r | Raise _ => empty_registry end.

Lemma sample_reachable :
  reachable (func := nat) sample_digest (λ _, "0.5") false (λ _, true) sample_registry.
Proof.
  apply (reachable_register _ _ _ _ empty_registry (Plain (PStr "fetch")) (Callable 7)
           (Plain sample_schema)); [apply reachable_empty|reflexivity].
Defined.

Lemma registry_consistent_witness :
  registry_wf (func := nat) sample_digest (λ _, "0.5") false (λ _, true) sample_registry ∧
  ((∃ f s, get_tool sample_registry "fetch" = Ok f ∧ get_schema sample_registry "fetch" = Ok s) ∨
   (∀ n, n ∈ (_tools sample_registry).*1 → n ≠ "fetch") ∧
   get_tool sample_registry "fetch" =
     Raise (value_error ("Tool reference '" +:+ "fetch" +:+ "' not found in registry.")) ∧
   get_schema sample_registry "fetch" =
     Raise (value_error ("Tool reference '" +:+ "fetch" +:+ "' not found in registry."))).
Proof.
  apply (registry_consistent sample_digest (λ _, "0.5") false (λ _, true) sample_registry "fetch").
  apply sample_reachable.
Defined.

Lemma resolution_roundtrip_witness :
  get_schema sample_registry "fetch" = Ok sample_schema ∧
  get_schema sample_registry (hashed_name sample_digest (λ _, "0.5") "fetch" sample_schema) =
    Ok sample_schema.
Proof.
  apply (resolution_roundtrip sample_digest (λ _, "0.5") false (λ _, true) sample_registry).
  - intros t. vm_compute. lia.
  - apply sample_reachable.
  - intros n' s' Hin. change (_schemas sample_registry) with [("fetch", sample_schema)] in *.
    apply elem_of_cons in Hin as [[= -> ->]|Hin]; [|by apply elem_of_nil in Hin].
    intros [H|H]%elem_of_cons; [by vm_compute in H|by apply elem_of_nil in H].
  - reflexivity.
Defined.

Lemma hashed_name_canonical_witness :
  hashed_name sample_digest (λ _, "0.5") "t" (PDict [("a", PInt 1); ("b", PInt 2)]) =
  hashed_name sample_digest (λ _, "0.5") "t" (PDict [("b", PInt 2); ("a", PInt 1)]).
Proof.
  apply (hashed_name_canonical sample_digest (λ _, "0.5")).
  eapply (same_dict _ _ [("a", PInt 1); ("b", PInt 2)]).
  - simpl. apply (bool_decide_unpack (NoDup ["a"; "b"])). exact I.
  - repeat constructor.
  - apply perm_swap.
Defined.

Definition sample_params : pyval := default PNone (py_get sample_schema "parameters").
Definition sample_props : list (string * pyval) :=
  match py_get sample_params "properties" with Some (PDict d) => d | _ => [] end.

Lemma builtin_validation_correct_witness :
  _validate_arguments_builtin (λ _, "0.5") sample_schema "fetch" [("url", PStr "a.org")]
    sample_params = Ok tt ↔
    (∀ k, k ∈ ["url"] → k ∈ [("url", PStr "a.org")].*1) ∧
    (false = false → ∀ k, k ∈ [("url", PStr "a.org")].*1 → k ∈ sample_props.*1) ∧
    (∀ k v fs, (k, v) ∈ [("url", PStr "a.org")] →
      dict_get sample_props k = Some (PDict fs) → field_ok fs v).
Proof.
  apply (builtin_validation_correct (λ _, "0.5") sample_schema "fetch" _ sample_params).
  split_and!; [reflexivity..|]. repeat constructor.
Defined.
