(* ===== verification/PluginLoader.v ===== *)
(** Plugin discovery and loading ([eap/environment/plugin_loader.py]): entry
    points, what they resolve to, and the report of loading them into a tool
    registry, strictly or not.  Reading the installed packages' metadata and
    importing a plugin are the environment's: the entry points are given with
    what loading them comes to. *)
From stdpp Require Import options.
From S2P Require Import Prelude Values Json ToolRegistry.
Unset Default Proof Using.

Section loader.
Context {func : Type}.
Context (sha256_hex : string → string) (float_repr : Q → string) (jsonschema_available : bool) (check_schema : pyval → bool).

Abbreviation manifest := (@manifest func).
Abbreviation registry := (@registry func).

(** [entry_point.load()]: an object, or a callable and what calling it gives. *)
Inductive loaded := Object_ (m : manifest) | Function (call : result manifest).

(** An entry point, with the attributes it has. *)
Record entry_point := {
  ep_name : option string;
  ep_str : string;
  ep_group : option string;
  ep_load : result loaded
}.

(** What [entry_points()] gives in the versions of [importlib.metadata]. *)
Inductive discovered :=
  | Selectable (select : string → list entry_point)
  | Grouped (groups : list (string * list entry_point))
  | Flat (eps : list entry_point).

(** [discover_plugin_entry_points] *)
Definition discover_plugin_entry_points (group : string) (provider : result discovered) : result (list entry_point) :=
  d ← provider;
  Ok match d with
     | Selectable select => select group
     | Grouped groups => default [] (dict_get groups group)
     | Flat eps => List.filter (λ ep, bool_decide (default group (ep_group ep) = group)) eps
     end.

(** [manifest.get("plugin_name")] and its truth. *)
Definition field_truthy (x : @field func) : bool := match x with Callable _ => true | Plain v => py_truthy v end.

(** [_resolve_manifest_from_entry_point] *)
Definition _resolve_manifest_from_entry_point (ep : entry_point) : result manifest :=
  loaded ← ep_load ep;
  manifest ← match loaded with Object_ m => Ok m | Function call => call end;
  match manifest with
  | OtherManifest =>
      Raise (plugin_error ("Plugin entry point '" +:+ default "unknown" (ep_name ep) +:+ "' must resolve to a manifest object."))
  | Manifest plugin_name tools =>
      if field_truthy plugin_name then Ok manifest
      else Ok (Manifest (Plain (PStr (default "unnamed_plugin" (ep_name ep)))) tools)
  end.

(** The report. *)
Record failure := { f_entry_point : string; f_error : string }.
Record report := {
  group : string;
  loaded_plugins : list (@field func);
  loaded_tools : list string;
  failed_plugins : list failure
}.

Definition entry_point_name (ep : entry_point) : string := default (ep_str ep) (ep_name ep).

(** The [try] block: the plugin's name and its tools. *)
Definition load_one (ep : entry_point) (r : registry) : registry * result (@field func * list string) :=
  match _resolve_manifest_from_entry_point ep with
  | Raise e => (r, Raise e)
  | Ok m =>
      let '(r, tool_names) :=
        register_plugin_manifest sha256_hex float_repr jsonschema_available check_schema r m ("entry_point:" +:+ entry_point_name ep) in
      (r, names ← tool_names;
          Ok (match m with Manifest plugin_name _ => plugin_name | OtherManifest => Plain PNone end, names))
  end.

Definition PluginLoadError (ep : entry_point) (e : exn) : exn :=
  Exn (OtherError "PluginLoadError") ("Failed to load plugin entry point '" +:+ entry_point_name ep +:+ "': " +:+ exn_str e).

Definition add_loaded (plugin : @field func * list string) (rep : report) : report :=
  {| group := group rep; loaded_plugins := loaded_plugins rep ++ [plugin.1]; loaded_tools := loaded_tools rep ++ plugin.2;
     failed_plugins := failed_plugins rep |}.
Definition add_failed (ep : entry_point) (e : exn) (rep : report) : report :=
  {| group := group rep; loaded_plugins := loaded_plugins rep; loaded_tools := loaded_tools rep;
     failed_plugins := failed_plugins rep ++ [{| f_entry_point := entry_point_name ep; f_error := exn_str e |}] |}.

(** The loop. *)
Fixpoint load_entry_points (strict : bool) (eps : list entry_point) (rep : report) (r : registry) : registry * result report :=
  match eps with
  | [] => (r, Ok rep)
  | ep :: eps =>
      match load_one ep r with
      | (r, Ok plugin) => load_entry_points strict eps (add_loaded plugin rep) r
      | (r, Raise e) =>
          if strict then (r, Raise (PluginLoadError ep e)) else load_entry_points strict eps (add_failed ep e rep) r
      end
  end.

Definition empty_report (g : string) : report := {| group := g; loaded_plugins := []; loaded_tools := []; failed_plugins := [] |}.

(** [load_plugins_into_registry] *)
Definition load_plugins_into_registry (g : string) (strict : bool) (provider : result discovered) (r : registry)
  : registry * result report :=
  match discover_plugin_entry_points g provider with
  | Raise e => (r, Raise e)
  | Ok eps => load_entry_points strict eps (empty_report g) r
  end.

(** [ToolRegistry.__init__] *)
Definition new_registry (auto_load_plugins : bool) (plugin_group : string) (strict_plugin_loading : bool)
    (provider : result discovered) : result registry :=
  if auto_load_plugins then
    match load_plugins_into_registry plugin_group strict_plugin_loading provider empty_registry with
    | (r, Ok _) => Ok r
    | (_, Raise e) => Raise e
    end
  else Ok empty_registry.

(** ** What a report says *)

Abbreviation reachable := (reachable sha256_hex float_repr jsonschema_available check_schema).

(** The registry before each entry point, when no failure stops the loop. *)
Fixpoint registry_after (eps : list entry_point) (r : registry) : registry :=
  match eps with [] => r | ep :: eps => registry_after eps (load_one ep r).1 end.
Fixpoint outcomes (eps : list entry_point) (r : registry) : list (entry_point * result (@field func * list string)) :=
  match eps with [] => [] | ep :: eps => (ep, (load_one ep r).2) :: outcomes eps (load_one ep r).1 end.

Definition report_of (g : string) (os : list (entry_point * result (@field func * list string))) : report :=
  {| group := g;
     loaded_plugins := omap (λ o, match o.2 with Ok p => Some p.1 | Raise _ => None end) os;
     loaded_tools := flat_map (λ o, match o.2 with Ok p => p.2 | Raise _ => [] end) os;
     failed_plugins := omap (λ o, match o.2 with
       | Raise e => Some {| f_entry_point := entry_point_name o.1; f_error := exn_str e |} | Ok _ => None end) os |}.

Definition append_report (a b : report) : report :=
  {| group := group a; loaded_plugins := loaded_plugins a ++ loaded_plugins b; loaded_tools := loaded_tools a ++ loaded_tools b;
     failed_plugins := failed_plugins a ++ failed_plugins b |}.

Lemma load_lenient eps rep r :
  load_entry_points false eps rep r = (registry_after eps r, Ok (append_report rep (report_of (group rep) (outcomes eps r)))).
Proof.
  revert rep r. induction eps as [|ep eps IH]; intros rep r; cbn [load_entry_points registry_after outcomes].
  - unfold append_report. simpl. rewrite !app_nil_r. by destruct rep.
  - destruct (load_one ep r) as [r' [p|e]]; simpl; rewrite IH; unfold append_report, report_of; simpl;
      by rewrite <- ?app_assoc.
Qed.

Lemma load_one_reachable ep r : reachable r → reachable (load_one ep r).1.
Proof.
  intros Hr. unfold load_one. destruct (_resolve_manifest_from_entry_point ep) as [m|e]; [|done].
  pose proof (reachable_manifest _ _ _ _ r m ("entry_point:" +:+ entry_point_name ep) Hr) as Hm.
  by destruct (register_plugin_manifest _ _ _ _ _ _ _).
Qed.

(** ** Which tools are registered *)

Abbreviation names := (λ r : registry, (_tools r).*1).

(** The names of a manifest's tools. *)
Definition field_str (x : @field func) : option string := match x with Plain (PStr s) => Some s | _ => None end.
Definition declared (raw : @raw_tool func) : option string :=
  match raw with Definition_ d => field_str (tool_name d) | Payload name _ _ => field_str name | OtherTool => None end.

Lemma normalized_name raw d : _normalize_tool_definition raw = Ok d → field_str (tool_name d) = declared raw.
Proof.
  destruct raw as [d'|n f s|]; simpl; [by intros [= <-]| |done]. intros (n' & _ & H)%bind_Ok.
  apply bind_Ok in H as (_ & _ & H). apply bind_Ok in H as (_ & _ & [= <-]). done.
Qed.

Lemma register_names r n f schema r' : register sha256_hex float_repr jsonschema_available check_schema r n f schema = Ok r' →
  ∃ s, field_str n = Some s ∧ ∀ t, t ∈ names r' ↔ t = s ∨ t ∈ names r.
Proof.
  intros (s & g & sc & d & -> & -> & -> & _ & _ & _ & ->)%register_Ok. exists s. split; [done|]. intros t. cbn [_tools].
  rewrite dict_set_keys_eq. case_decide; [naive_solver|]. rewrite elem_of_app, list_elem_of_singleton. naive_solver.
Qed.

(** Registering a manifest's tools registers those it declares, up to one that
    fails. *)
Lemma register_tools_names r tools acc r' x :
  register_tools sha256_hex float_repr jsonschema_available check_schema r tools acc = (r', x) →
  (∀ t, t ∈ names r → t ∈ names r') ∧ (∀ t, t ∈ names r' → t ∈ names r ∨ t ∈ omap declared tools) ∧
  ∀ l, x = Ok l → l = acc ++ omap declared tools ∧ ∀ t, t ∈ omap declared tools → t ∈ names r'.
Proof.
  revert r acc. induction tools as [|raw tools IH]; intros r acc; cbn [register_tools].
  { intros [= <- <-]. split_and!; [auto..|]. intros l [= <-]. simpl. rewrite app_nil_r. split; [done|]. by intros t ?%elem_of_nil. }
  destruct (_ ≫= _) as [[r1 tool]|e] eqn:E; [|intros [= <- <-]; split_and!; auto; done].
  apply bind_Ok in E as (tl & Hn & E). apply bind_Ok in E as (r2 & Hr & [= <- <-]).
  destruct (register_names _ _ _ _ _ Hr) as (s & Hs & Hmem). rewrite (normalized_name _ _ Hn) in Hs.
  assert (match tool_name tl with Plain (PStr s) => [s] | _ => [] end = [s]) as ->.
  { rewrite <- (normalized_name _ _ Hn) in Hs. unfold field_str in Hs. by destruct (tool_name tl) as [|[]]; simplify_eq. }
  intros (H1 & H2 & H3)%IH. cbn [omap list_omap]. rewrite Hs. split_and!.
  - intros t Ht. apply H1, Hmem. auto.
  - intros t Ht. destruct (H2 t Ht) as [[->|?]%Hmem|?]; rewrite ?elem_of_cons; auto.
  - intros l Hl. destruct (H3 l Hl) as [-> Hin]. split; [by rewrite <- app_assoc|].
    intros t [->|Ht]%elem_of_cons; [apply H1, Hmem; auto|auto].
Qed.

(** The tools the manifest behind an entry point declares. *)
Definition ep_declares (ep : entry_point) : list string :=
  match _resolve_manifest_from_entry_point ep with
  | Ok (Manifest _ (Some tools)) => omap declared tools
  | _ => []
  end.

Lemma load_one_names ep r :
  (∀ t, t ∈ names r → t ∈ names (load_one ep r).1) ∧
  (∀ t, t ∈ names (load_one ep r).1 → t ∈ names r ∨ t ∈ ep_declares ep) ∧
  ∀ p, (load_one ep r).2 = Ok p → p.2 = ep_declares ep ∧ ∀ t, t ∈ ep_declares ep → t ∈ names (load_one ep r).1.
Proof.
  unfold load_one, ep_declares. destruct (_resolve_manifest_from_entry_point ep) as [m|e]; [|split_and!; auto; done].
  destruct m as [pn tools|]; [|split_and!; auto; done]. cbn [register_plugin_manifest].
  destruct pn as [|[]]; try (split_and!; auto; done). destruct (py_blank s); [split_and!; auto; done|].
  destruct tools as [[|raw tools]|]; try (split_and!; auto; done).
  destruct (register_tools _ _ _ _ r (raw :: tools) []) as [r' x] eqn:E.
  destruct (register_tools_names _ _ _ _ _ E) as (H1 & H2 & H3). split_and!; [done..|].
  intros p Hp. apply bind_Ok in Hp as (l & -> & [= <-]). destruct (H3 l eq_refl) as [-> Hin]. split; [done|exact Hin].
Qed.

(** Every tool of the registry comes from somewhere the report tells. *)
Lemma registry_after_names eps r :
  (∀ t, t ∈ names r → t ∈ names (registry_after eps r)) ∧
  (∀ t, t ∈ flat_map (λ o, match o.2 with Ok p => p.2 | Raise _ => [] end) (outcomes eps r) → t ∈ names (registry_after eps r)) ∧
  (∀ t, t ∈ names (registry_after eps r) →
     t ∈ names r ∨ t ∈ flat_map (λ o, match o.2 with Ok p => p.2 | Raise _ => [] end) (outcomes eps r) ∨
     ∃ ep e, (ep, Raise e) ∈ outcomes eps r ∧ t ∈ ep_declares ep).
Proof.
  revert r. induction eps as [|ep eps IH]; intros r; cbn [registry_after outcomes flat_map].
  { split_and!; [auto|by intros t ?%elem_of_nil|auto]. }
  destruct (load_one_names ep r) as (H1 & H2 & H3). destruct (IH (load_one ep r).1) as (I1 & I2 & I3). simpl. split_and!.
  - auto.
  - intros t [Ht|Ht]%elem_of_app; [|auto]. destruct ((load_one ep r).2) as [p|] eqn:Hp; [|by apply elem_of_nil in Ht].
    destruct (H3 p eq_refl) as [Heq Hin]. apply I1, Hin. by rewrite <- Heq.
  - intros t [[?|Hd]%H2|[?|(ep' & e & Hin & Ht)]]%I3; [auto| |right; left; apply elem_of_app; auto|].
    + destruct ((load_one ep r).2) as [p|e] eqn:Hp; right; [left; apply elem_of_app; left; by rewrite (proj1 (H3 p eq_refl))|].
      right. exists ep, e. split; [left|done].
    + right. right. exists ep', e. split; [by right|done].
Qed.

Lemma registry_after_reachable eps r : reachable r → reachable (registry_after eps r).
Proof. revert r. induction eps; intros r Hr; [done|]. cbn [registry_after]. by apply IHeps, load_one_reachable. Qed.

(** Strictly, the loop stops at the first failure. *)
Lemma load_strict eps rep r :
  (failed_plugins (report_of (group rep) (outcomes eps r)) = [] ∧
   load_entry_points true eps rep r = load_entry_points false eps rep r) ∨
  (∃ before ep later e, eps = before ++ ep :: later ∧ failed_plugins (report_of (group rep) (outcomes before r)) = [] ∧
     (load_one ep (registry_after before r)).2 = Raise e ∧
     load_entry_points true eps rep r = (registry_after (before ++ [ep]) r, Raise (PluginLoadError ep e))).
Proof.
  revert rep r. induction eps as [|ep eps IH]; intros rep r; [left; done|]. cbn [load_entry_points outcomes].
  destruct (load_one ep r) as [r' [p|e]] eqn:E; cbn [fst snd].
  - destruct (IH (add_loaded p rep) r') as [[Hnone Heq]|(before & ep' & later & e & -> & Hnone & He & Heq)]; [left|right].
    + split; [exact Hnone|exact Heq].
    + exists (ep :: before), ep', later, e. cbn [outcomes registry_after app]. rewrite E. done.
  - right. exists [], ep, eps, e. simpl. rewrite E. done.
Qed.

(** Loading plugins that can be found always ends in a report, a failing
    one included: each entry point is counted once, as loaded or as failed; the
    registry stays one the registering operations build; every tool it had and
    every tool reported is in it; and any other tool in it was declared by a
    plugin reported as failed (its tools before the failing one stay).  The
    strict mode gives the same when nothing fails, and otherwise raises at the
    first entry point that fails, after what was loaded before it. *)
Theorem plugins_loaded g provider eps (r : registry) : discover_plugin_entry_points g provider = Ok eps → reachable r →
  ∃ r' rep, load_plugins_into_registry g false provider r = (r', Ok rep) ∧ reachable r' ∧
    length (loaded_plugins rep) + length (failed_plugins rep) = length eps ∧
    (∀ t, t ∈ (_tools r).*1 ∨ t ∈ loaded_tools rep → t ∈ (_tools r').*1) ∧
    (∀ t, t ∈ (_tools r').*1 → t ∈ (_tools r).*1 ∨ t ∈ loaded_tools rep ∨
       ∃ ep f, ep ∈ eps ∧ f ∈ failed_plugins rep ∧ f_entry_point f = entry_point_name ep ∧ t ∈ ep_declares ep) ∧
    ((failed_plugins rep = [] ∧ load_plugins_into_registry g true provider r = (r', Ok rep)) ∨
     ∃ before ep later r1 e, eps = before ++ ep :: later ∧ reachable r1 ∧
       load_entry_points true before (empty_report g) r = (r1, Ok (report_of g (outcomes before r))) ∧
       (load_one ep r1).2 = Raise e ∧
       load_plugins_into_registry g true provider r = ((load_one ep r1).1, Raise (PluginLoadError ep e))).
Proof.
  intros Hd Hr. unfold load_plugins_into_registry. rewrite Hd.
  assert (∀ es, append_report (empty_report g) (report_of g (outcomes es r)) = report_of g (outcomes es r)) as Hrep by done.
  exists (registry_after eps r), (report_of g (outcomes eps r)).
  destruct (registry_after_names eps r) as (H1 & H2 & H3). split_and!.
  - by rewrite load_lenient, Hrep.
  - by apply registry_after_reachable.
  - clear. unfold report_of. simpl. revert r. induction eps as [|ep eps IH]; intros r; [done|]. cbn [outcomes omap list_omap snd].
    specialize (IH (load_one ep r).1). destruct ((load_one ep r).2); simpl; lia.
  - intros t [Ht|Ht]; [by apply H1|by apply H2].
  - intros t [Ht|[Ht|(ep & e & Hin & Ht)]]%H3; [auto..|]. right. right.
    exists ep, {| f_entry_point := entry_point_name ep; f_error := exn_str e |}. split_and!; [|apply list_elem_of_omap; eauto|done..].
    clear -Hin. revert r Hin. induction eps as [|ep' eps IH]; intros r; cbn [outcomes]; [by intros ?%elem_of_nil|].
    intros [[= -> _]|Hin]%elem_of_cons; [left|right; eauto].
  - destruct (load_strict eps (empty_report g) r) as [[Hnone Heq]|(before & ep & later & e & -> & Hnone & He & Heq)].
    + left. split; [exact Hnone|]. by rewrite Heq, load_lenient, Hrep.
    + right. exists before, ep, later, (registry_after before r), e. split_and!; [done|by apply registry_after_reachable| |done|].
      * destruct (load_strict before (empty_report g) r) as [[_ ->]|(b & ep' & l & e' & -> & _ & He' & _)];
          [by rewrite load_lenient, Hrep|]. exfalso. clear -Hnone He'. revert r Hnone He'.
        induction b as [|x b IH]; intros r Hnone He'; cbn [outcomes app registry_after report_of failed_plugins omap list_omap snd] in *.
        -- by rewrite He' in Hnone.
        -- apply (IH (load_one x r).1); [|done]. by destruct ((load_one x r).2).
      * rewrite Heq. clear. revert r. induction before; intros r; [done|]. apply IHbefore.
Qed.
End loader.

(** ** Concrete plugins *)

Definition fetch_tool : @raw_tool nat := Payload (Plain (PStr "fetch")) (Callable 7) (Plain sample_schema).
Definition good_plugin : entry_point :=
  {| ep_name := Some "web"; ep_str := "EntryPoint(web)"; ep_group := None;
     ep_load := Ok (Function (Ok (Manifest (Plain PNone) (Some [fetch_tool])))) |}.
Definition bad_plugin : entry_point :=
  {| ep_name := Some "bad"; ep_str := "EntryPoint(bad)"; ep_group := Some "eap.tool_plugins";
     ep_load := Ok (Object_ (Manifest (Plain (PStr "bad")) (Some [fetch_tool; OtherTool]))) |}.
Definition load_sample (eps : list entry_point) :=
  load_plugins_into_registry (func := nat) sample_digest (λ _, "0.5") false (λ _, true) "eap.tool_plugins" false (Ok (Flat eps))
    empty_registry.

(** A failed plugin's first tool is registered, and reported nowhere. *)
Example failed_plugin_registers :
  (_tools (load_sample [bad_plugin]).1, (λ rep, (loaded_tools rep, f_entry_point <$> failed_plugins rep)) <$> (load_sample [bad_plugin]).2) =
  ([("fetch", 7)], Ok ([], ["bad"])).
Proof. vm_compute. reflexivity. Qed.

Lemma plugins_loaded_witness :
  ∃ r' rep, load_sample [good_plugin; bad_plugin] = (r', Ok rep) ∧ length (loaded_plugins rep) + length (failed_plugins rep) = 2.
Proof.
  destruct (plugins_loaded (func := nat) sample_digest (λ _, "0.5") false (λ _, true) "eap.tool_plugins"
    (Ok (Flat [good_plugin; bad_plugin])) [good_plugin; bad_plugin] empty_registry eq_refl (reachable_empty _ _ _ _))
    as (r' & rep & Hrun & _ & Hlen & _). exists r', rep. exact (conj Hrun Hlen).
Defined.
