(* ===== verification/AuditBundle.v ===== *)
(** Audit bundles ([eap/runtime/audit_bundle.py]): the manifest of a directory
    of artifacts with its digest and signature, its verification, and that an
    anchored manifest fixes every artifact.  SHA-256 and HMAC are parameters; a
    hash object is the bytes it was fed. *)
From stdpp Require Import options.
From S2P Require Import Prelude Values Json CanonicalJson.
Unset Default Proof Using.

(** What stands at [bundle_dir / filename]. *)
Inductive artifact := File (content : string) | NoFile.
Definition bundle := string → option artifact.

Section bundles.
Context (float_repr : Q → string) (sha256_hex : string → string) (hmac_sha256_hex : string → string → string).

Definition MANIFEST_VERSION : Z := 1.
Definition HASH_ALGORITHM : string := "sha256".
Definition SIGNATURE_ALGORITHM : string := "hmac-sha256".

(** [canonical_json_bytes] *)
Definition canonical_json_bytes (payload : pyval) : string := utf8 (canonical_text float_repr payload).

(** [sha256_bytes] *)
Definition sha256_bytes (payload : string) : string := sha256_hex payload.

(** [handle.read(n)]: at most [n] bytes, and what is left. *)
Fixpoint read_bytes (n : nat) (rest : string) : string * string :=
  match n, rest with
  | S n, String c rest => let '(chunk, rest) := read_bytes n rest in (String c chunk, rest)
  | _, _ => ("", rest)
  end.

(** [for chunk in iter(lambda: handle.read(1024 * 64), b""): digest.update(chunk)] *)
Fixpoint update_all (fuel : nat) (digest rest : string) : string :=
  match fuel with
  | O => digest
  | S fuel =>
      let '(chunk, rest) := read_bytes (1024 * 64) rest in
      if decide (chunk = "") then digest else update_all fuel (digest +:+ chunk) rest
  end.

(** [sha256_file], of a file's content; each chunk but the last takes a byte. *)
Definition sha256_file (content : string) : string := sha256_hex (update_all (S (String.length content)) "" content).

(** [compute_manifest_digest] *)
Definition compute_manifest_digest (manifest_core : pyval) : string := sha256_bytes (canonical_json_bytes manifest_core).

(** [sign_manifest_digest] *)
Definition sign_manifest_digest (manifest_digest signing_key : string) : string :=
  hmac_sha256_hex (utf8 signing_key) (utf8 manifest_digest).

(** [if signing_key:] *)
Definition given (s : option string) : option string := match s with Some "" | None => None | Some k => Some k end.

(** [build_manifest] *)
Definition manifest_core (generated_at_utc db_path : string) (run_ids : list string) (file_hashes : list (string * string))
  : list (string * pyval) :=
  [("manifest_version", PInt MANIFEST_VERSION);
   ("hash_algorithm", PStr HASH_ALGORITHM);
   ("generated_at_utc", PStr generated_at_utc);
   ("db_path", PStr db_path);
   ("run_ids", PList (PStr <$> run_ids));
   ("file_hashes", PDict ((λ kv, (kv.1, PStr kv.2)) <$> sorted_dict file_hashes))].

Definition build_manifest (generated_at_utc db_path : string) (run_ids : list string) (file_hashes : list (string * string))
    (signer_key_id signing_key : option string) : list (string * pyval) :=
  let core := manifest_core generated_at_utc db_path run_ids file_hashes in
  let manifest_digest := compute_manifest_digest (PDict core) in
  core ++ [("manifest_sha256", PStr manifest_digest)] ++
  match given signing_key with
  | Some key =>
      [("signature", PDict [("algorithm", PStr SIGNATURE_ALGORITHM);
                            ("key_id", PStr (default "default" (given signer_key_id)));
                            ("value", PStr (sign_manifest_digest manifest_digest key))])]
  | None => []
  end.

(** ** Verification *)

(** [VerificationResult] *)
Record VerificationResult := { verified : bool; checks : pyval; errors : list string }.

Definition get (d : list (string * pyval)) (k : string) : pyval := default PNone (dict_get d k).

(** The [file_hashes] the verification goes through. *)
Definition manifest_files (manifest : list (string * pyval)) : list (string * pyval) :=
  match dict_get manifest "file_hashes" with Some (PDict d) => d | _ => [] end.
Definition files_errors (manifest : list (string * pyval)) : list string :=
  match manifest_files manifest with [] => ["manifest.file_hashes must be a non-empty object."] | _ => [] end.

(** [manifest_core] of the verification. *)
Definition verified_core (manifest : list (string * pyval)) : list (string * pyval) :=
  [("manifest_version", get manifest "manifest_version");
   ("hash_algorithm", get manifest "hash_algorithm");
   ("generated_at_utc", get manifest "generated_at_utc");
   ("db_path", get manifest "db_path");
   ("run_ids", get manifest "run_ids");
   ("file_hashes", PDict ((λ kv, (kv.1, PStr kv.2)) <$>
      sorted_dict ((λ kv, (kv.1, py_str float_repr kv.2)) <$> manifest_files manifest)))].

(** [str(manifest.get("manifest_sha256", ""))] *)
Definition str_or_empty (d : list (string * pyval)) (k : string) : string :=
  match dict_get d k with Some v => py_str float_repr v | None => "" end.

Definition digest_errors (manifest : list (string * pyval)) (expected_manifest_sha256 : option string) : list string :=
  let manifest_digest := str_or_empty manifest "manifest_sha256" in
  (if decide (manifest_digest = "") then ["manifest.manifest_sha256 is required."]
   else if decide (manifest_digest = compute_manifest_digest (PDict (verified_core manifest))) then []
   else ["manifest.manifest_sha256 mismatch."]) ++
  match given expected_manifest_sha256 with
  | Some expected =>
      if decide (manifest_digest = expected) then [] else ["manifest.manifest_sha256 did not match expected value."]
  | None => []
  end.

(** One iteration over the files: its errors and its entry of [file_results]. *)
Definition check_file (bundle_dir : bundle) (entry : string * pyval) : list string * (string * pyval) :=
  let '(filename, expected_hash) := entry in
  match bundle_dir filename with
  | Some (File content) =>
      let actual_hash := sha256_file content in
      let ok := bool_decide (actual_hash = py_str float_repr expected_hash) in
      (if ok then [] else ["file hash mismatch: " +:+ filename],
       (filename, PDict [("ok", PBool ok); ("expected_sha256", PStr (py_str float_repr expected_hash));
                         ("actual_sha256", PStr actual_hash)]))
  | _ => (["missing artifact file: " +:+ filename],
          (filename, PDict [("ok", PBool false); ("reason", PStr "missing")]))
  end.

Definition is_ascii (s : string) : bool := forallb (λ c, code c <? 128) (String.list_ascii_of_string s).

(** [hmac.compare_digest] on two strings, [b] a hexadecimal digest. *)
Definition compare_digest (a b : string) : result bool :=
  _ ← raise_if (negb (is_ascii a)) (py_type_error "comparing strings with non-ASCII characters is not supported");
  Ok (bool_decide (a = b)).

(** The signature: its errors and [signature_ok]. *)
Definition check_signature (manifest : list (string * pyval)) (signing_key : option string) (require_signature : bool)
  : result (list string * pyval) :=
  match get manifest "signature" with
  | PNone => Ok (if require_signature then ["manifest signature required but not present."] else [], PNone)
  | PDict signature =>
      let signature_algorithm := str_or_empty signature "algorithm" in
      let signature_value := str_or_empty signature "value" in
      if decide (signature_algorithm ≠ SIGNATURE_ALGORITHM) then
        Ok (["unsupported signature algorithm '" +:+ signature_algorithm +:+ "', expected '" +:+ SIGNATURE_ALGORITHM +:+ "'."], PBool false)
      else if decide (signature_value = "") then Ok (["manifest.signature.value is required."], PBool false)
      else match given signing_key with
           | None => Ok (["manifest is signed but no signing key was provided for verification."], PBool false)
           | Some key =>
               signature_ok ← compare_digest signature_value
                 (sign_manifest_digest (str_or_empty manifest "manifest_sha256") key);
               Ok (if signature_ok : bool then [] else ["manifest signature mismatch."], PBool signature_ok)
           end
  | _ => Ok (["manifest.signature must be an object."], PBool false)
  end.

(** [verify_bundle_manifest] *)
Definition verify_bundle_manifest (bundle_dir : bundle) (manifest : list (string * pyval)) (signing_key : option string)
    (require_signature : bool) (expected_manifest_sha256 : option string) : result VerificationResult :=
  let manifest_digest := str_or_empty manifest "manifest_sha256" in
  let computed := compute_manifest_digest (PDict (verified_core manifest)) in
  let files := check_file bundle_dir <$> sorted_dict (manifest_files manifest) in
  '(signature_errors, signature_ok) ← check_signature manifest signing_key require_signature;
  let errors := files_errors manifest ++ digest_errors manifest expected_manifest_sha256 ++ flat_map fst files ++ signature_errors in
  Ok {| verified := bool_decide (errors = []);
        checks := PDict
          [("manifest_sha256", PDict
              [("ok", PBool (bool_decide (manifest_digest ≠ "") && bool_decide (manifest_digest = computed)));
               ("expected", PStr manifest_digest); ("actual", PStr computed)]);
           ("file_hashes", PDict (snd <$> files));
           ("signature", PDict
              [("present", PBool (match get manifest "signature" with PNone => false | _ => true end));
               ("verified", signature_ok); ("required", PBool require_signature)])];
        errors := errors |}.

(** ** A file's digest *)

Lemma read_bytes_spec n rest : let '(chunk, rest') := read_bytes n rest in
  chunk +:+ rest' = rest ∧ (n ≠ 0 → rest ≠ "" → chunk ≠ "").
Proof.
  revert rest. induction n as [|n IH]; intros [|c rest]; try done. cbn [read_bytes].
  specialize (IH rest). destruct (read_bytes n rest) as [chunk rest']. destruct IH as [<- _]. done.
Qed.

Lemma update_all_spec fuel digest rest : String.length rest < fuel → update_all fuel digest rest = digest +:+ rest.
Proof.
  revert digest rest. induction fuel as [|fuel IH]; intros digest rest Hlen; [lia|]. cbn [update_all].
  assert (∃ n, n ≠ 0 ∧ n = 1024 * 64) as (n & Hn & <-) by (eexists; split; [|reflexivity]; lia).
  pose proof (read_bytes_spec n rest) as Hr. destruct (read_bytes n rest) as [chunk rest']. destruct Hr as [<- Hne].
  case_decide as Hc.
  - subst. destruct rest' as [|c r]; [by rewrite str_app_nil|]. by destruct Hne.
  - rewrite IH; [by rewrite str_app_assoc|]. rewrite str_length_app in Hlen. destruct chunk; [done|]. simpl in Hlen. lia.
Qed.

Lemma sha256_file_eq content : sha256_file content = sha256_hex content.
Proof. unfold sha256_file. by rewrite update_all_spec by lia. Qed.

(** ** Building, then verifying *)

Lemma given_Some s k : given s = Some k → s = Some k ∧ k ≠ "".
Proof. by destruct s as [[]|]; intros [= <-]. Qed.

Section built.
Context (generated_at_utc db_path : string) (run_ids : list string) (file_hashes : list (string * string)).
Context (signer_key_id signing_key : option string).
Abbreviation built := (build_manifest generated_at_utc db_path run_ids file_hashes signer_key_id signing_key).
Abbreviation core := (manifest_core generated_at_utc db_path run_ids file_hashes).

Lemma built_keys : NoDup built.*1.
Proof. unfold build_manifest. destruct (given signing_key); apply (bool_decide_unpack _); vm_compute; exact I. Qed.

Lemma built_get k : dict_get built k =
  match dict_get core k with
  | Some v => Some v
  | None => if decide (k = "manifest_sha256") then Some (PStr (compute_manifest_digest (PDict core)))
            else if decide (k = "signature") then
              (λ key, PDict [("algorithm", PStr SIGNATURE_ALGORITHM); ("key_id", PStr (default "default" (given signer_key_id)));
                             ("value", PStr (sign_manifest_digest (compute_manifest_digest (PDict core)) key))]) <$> given signing_key
            else None
  end.
Proof.
  unfold build_manifest. destruct (given signing_key); simpl; repeat case_decide; congruence.
Qed.

Context (Hnodup : NoDup file_hashes.*1).

Lemma built_files m : m ≡ₚ built → manifest_files m = (λ kv, (kv.1, PStr kv.2)) <$> sorted_dict file_hashes.
Proof.
  intros Hm. unfold manifest_files. rewrite (dict_get_perm m built); [|rewrite Hm; apply built_keys|done].
  by rewrite built_get.
Qed.

Lemma built_core m : m ≡ₚ built → verified_core m = core.
Proof.
  intros Hm. assert (∀ k, dict_get m k = dict_get built k) as Hget
    by (intros k; apply dict_get_perm; [rewrite Hm; apply built_keys|done]).
  unfold verified_core, get. rewrite !Hget, !built_get, (built_files m Hm). cbn [dict_get decide manifest_core default].
  unfold manifest_core. simpl. do 6 f_equal. do 2 f_equal. rewrite <- list_fmap_compose.
  assert (((λ kv, (kv.1, py_str float_repr kv.2)) ∘ (λ kv : string * string, (kv.1, PStr kv.2))) <$> sorted_dict file_hashes =
    sorted_dict file_hashes) as -> by (induction (sorted_dict file_hashes) as [|[k v] l IH]; [done|]; csimpl; by rewrite IH).
  f_equal. apply sorted_dict_unique; [by rewrite sorted_dict_perm|by apply sorted_dict_perm].
Qed.
End built.

(** The files a bundle's manifest lists are there, with the hashes listed. *)
Definition holds_files (bundle_dir : bundle) (file_hashes : list (string * string)) : Prop :=
  ∀ filename hash, (filename, hash) ∈ file_hashes →
    ∃ content, bundle_dir filename = Some (File content) ∧ hash = sha256_hex content.

(** A digest is a non-empty text. *)
Definition digests_ok : Prop := (∀ a, sha256_hex a ≠ "") ∧ (∀ k a, hmac_sha256_hex k a ≠ "" ∧ is_ascii (hmac_sha256_hex k a) = true).

Lemma files_checked bundle_dir (files : list (string * pyval)) : (∀ filename v, (filename, v) ∈ files → ∃ content,
    bundle_dir filename = Some (File content) ∧ py_str float_repr v = sha256_hex content) ↔
  flat_map fst (check_file bundle_dir <$> files) = [].
Proof.
  induction files as [|[filename v] files IH]; [split; [done|by intros _ ? ? ?%elem_of_nil]|].
  rewrite fmap_cons. cbn [flat_map]. split.
  - intros Hall. destruct (Hall filename v ltac:(left)) as (content & Hf & Hv). cbn [check_file].
    rewrite Hf, sha256_file_eq, bool_decide_true by done. apply IH. intros; apply Hall; by right.
  - intros [Hc Hrest]%app_nil. rewrite <- IH in Hrest. intros f w [[= -> ->]|Hin]%elem_of_cons; [|by apply Hrest].
    cbn [check_file] in Hc. destruct (bundle_dir filename) as [[content|]|]; try done. exists content. split; [done|].
    rewrite sha256_file_eq in Hc. case_bool_decide; [done|]. done.
Qed.

(** A manifest that was built for the files of a directory is verified
    there, in whatever order reading it back left its entries: against its own
    digest or none, with the key it was signed with, or unsigned with any key
    unless a signature is required. *)
Theorem bundle_verifies generated_at_utc db_path run_ids file_hashes signer_key_id signing_key
    bundle_dir manifest verifying_key require_signature expected :
  let built := build_manifest generated_at_utc db_path run_ids file_hashes signer_key_id signing_key in
  digests_ok → NoDup file_hashes.*1 → file_hashes ≠ [] → holds_files bundle_dir file_hashes → manifest ≡ₚ built →
  (given signing_key = None ∧ require_signature = false ∨ given signing_key ≠ None ∧ given verifying_key = given signing_key) →
  (given expected = None ∨ given expected = Some (str_or_empty built "manifest_sha256")) →
  ∃ result, verify_bundle_manifest bundle_dir manifest verifying_key require_signature expected = Ok result ∧
    verified result = true ∧ errors result = [].
Proof.
  intros built [Hsha Hhmac] Hnd Hne Hfiles Hm Hkey Hexp.
  assert (∀ k, dict_get manifest k = dict_get built k) as Hget
    by (intros k; apply dict_get_perm; [rewrite Hm; apply built_keys|done]).
  set (digest := compute_manifest_digest (PDict (manifest_core generated_at_utc db_path run_ids file_hashes))).
  assert (str_or_empty manifest "manifest_sha256" = digest ∧ str_or_empty built "manifest_sha256" = digest) as [Hdig Hdig'].
  { unfold str_or_empty. rewrite Hget. unfold built. rewrite built_get. done. }
  pose proof (built_files _ _ _ _ signer_key_id signing_key manifest Hm) as Hmf.
  assert (files_errors manifest = []) as Hfe.
  { unfold files_errors. rewrite Hmf. destruct (sorted_dict file_hashes) eqn:E; [|done]. by apply sorted_dict_nil in E. }
  assert (digest_errors manifest expected = []) as Hde.
  { unfold digest_errors. rewrite Hdig, (built_core _ _ _ _ _ _ Hnd manifest Hm).
    rewrite decide_False by apply Hsha. rewrite decide_True by done. destruct Hexp as [-> | ->]; [done|]. by rewrite Hdig', decide_True. }
  assert (flat_map fst (check_file bundle_dir <$> sorted_dict (manifest_files manifest)) = []) as Hff.
  { apply files_checked. intros filename v Hin. rewrite Hmf in Hin.
    rewrite sorted_dict_perm in Hin by (rewrite <- list_fmap_compose, sorted_dict_perm by done; exact Hnd).
    apply list_elem_of_fmap in Hin as ([f h] & [= -> ->] & Hin). rewrite sorted_dict_perm in Hin by done.
    by destruct (Hfiles f h Hin) as (content & ? & ->); eauto. }
  unfold verify_bundle_manifest. rewrite Hff, Hfe, Hde.
  assert (∃ ok, check_signature manifest verifying_key require_signature = Ok ([], ok)) as [ok Hsig].
  { assert (get manifest "signature" = default PNone ((λ key, PDict [("algorithm", PStr SIGNATURE_ALGORITHM);
      ("key_id", PStr (default "default" (given signer_key_id))); ("value", PStr (sign_manifest_digest digest key))]) <$> given signing_key))
      as Hsig by (unfold get; rewrite Hget; unfold built; by rewrite built_get).
    unfold check_signature. rewrite Hsig. destruct Hkey as [[-> ->]|[Hs Hv]]; [by eexists|].
    destruct (given signing_key) as [key|]; [|done]. cbn [fmap option_fmap option_map default from_option id]. cbv zeta.
    match goal with |- context [str_or_empty ?d "algorithm"] => assert (str_or_empty d "algorithm" = SIGNATURE_ALGORITHM ∧
      str_or_empty d "value" = sign_manifest_digest digest key) as [-> ->] by done end.
    rewrite decide_False by tauto. destruct (Hhmac (utf8 key) (utf8 digest)) as [Hmac Hascii].
    rewrite decide_False by exact Hmac. rewrite Hv, Hdig. unfold compare_digest, sign_manifest_digest.
    rewrite Hascii. simpl. rewrite bool_decide_true by done. by eexists. }
  rewrite Hsig. by eexists.
Qed.

(** ** What a verified manifest fixes *)

Lemma same_dict_elem d d' : same_value (PDict d) (PDict d') →
  (∀ k v, (k, v) ∈ d → ∃ v', (k, v') ∈ d' ∧ same_value v v') ∧ (∀ k v', (k, v') ∈ d' → ∃ v, (k, v) ∈ d ∧ same_value v v').
Proof.
  intros H. inversion H as [| | | | | |? ? e e' Hd Hd' Hall]; subst. split.
  - intros k v Hin. rewrite Hd in Hin. clear -Hin Hall Hd'.
    assert (∃ y, y ∈ e' ∧ k = y.1 ∧ same_value v y.2) as ([k' v'] & Hy & -> & Hs).
    { clear Hd'. induction Hall as [|x y e e' Hxy _ IH]; [by apply elem_of_nil in Hin|].
      apply elem_of_cons in Hin as [<-|Hin]; [exists y; split; [left|exact Hxy]|].
      destruct (IH Hin) as (y' & ? & ?). exists y'. split; [by right|done]. }
    exists v'. split; [by rewrite Hd'|done].
  - intros k v' Hin. rewrite Hd' in Hin. clear -Hin Hall Hd.
    assert (∃ x, x ∈ e ∧ x.1 = k ∧ same_value x.2 v') as ([k' v] & Hy & <- & Hs).
    { clear Hd. induction Hall as [|x y e e' Hxy _ IH]; [by apply elem_of_nil in Hin|].
      apply elem_of_cons in Hin as [<-|Hin]; [exists x; split; [left|exact Hxy]|].
      destruct (IH Hin) as (y' & ? & ?). exists y'. split; [by right|done]. }
    exists v. split; [by rewrite Hd|done].
Qed.

Lemma texts_wf (l : list (string * string)) : NoDup l.*1 → wf_pyval (PDict ((λ kv, (kv.1, PStr kv.2)) <$> sorted_dict l)) = true.
Proof.
  intros Hl. cbn [wf_pyval]. apply andb_true_iff. split.
  - apply bool_decide_eq_true. rewrite <- list_fmap_compose.
    assert ((fst ∘ (λ kv : string * string, (kv.1, PStr kv.2))) <$> sorted_dict l = (sorted_dict l).*1) as -> by (by apply list_fmap_ext).
    by rewrite sorted_dict_perm.
  - apply forallb_forall. intros [k v] Hin. apply list_elem_of_In, list_elem_of_fmap in Hin as (x & [= -> ->] & _). done.
Qed.

Lemma get_wf manifest k : wf_pyval (PDict manifest) = true → wf_pyval (get manifest k) = true.
Proof.
  cbn [wf_pyval]. intros [Hd%bool_decide_eq_true Hall]%andb_true_iff. unfold get.
  destruct (dict_get manifest k) as [v|] eqn:Hv; [|done]. apply dict_get_Some in Hv; [|done].
  rewrite forallb_forall in Hall. by apply (Hall (k, v)), list_elem_of_In.
Qed.

Lemma files_nodup manifest : wf_pyval (PDict manifest) = true → NoDup (manifest_files manifest).*1.
Proof.
  intros Hwf. pose proof (get_wf manifest "file_hashes" Hwf) as Hf. unfold get, manifest_files in *.
  destruct (dict_get manifest "file_hashes") as [[]|]; try (by constructor).
  cbn in Hf. by apply andb_true_iff in Hf as [Hd%bool_decide_eq_true _].
Qed.

Definition texts_of (manifest : list (string * pyval)) : list (string * string) :=
  (λ kv, (kv.1, py_str float_repr kv.2)) <$> manifest_files manifest.

Lemma texts_nodup manifest : wf_pyval (PDict manifest) = true → NoDup (texts_of manifest).*1.
Proof.
  intros Hwf. unfold texts_of. rewrite <- list_fmap_compose.
  change (NoDup ((λ kv : string * pyval, kv.1) <$> manifest_files manifest)). by apply files_nodup.
Qed.

Lemma verified_core_wf manifest : wf_pyval (PDict manifest) = true → wf_pyval (PDict (verified_core manifest)) = true.
Proof.
  intros Hwf. unfold verified_core. fold (texts_of manifest). pose proof (texts_wf _ (texts_nodup manifest Hwf)) as Hf.
  cbn [wf_pyval]. apply andb_true_iff. split; [apply bool_decide_eq_true, (bool_decide_unpack _); vm_compute; exact I|].
  apply forallb_forall. intros x Hin%list_elem_of_In.
  repeat (apply elem_of_cons in Hin as [->|Hin]; [cbn [snd]; first [by apply get_wf|exact Hf]|]). by apply elem_of_nil in Hin.
Qed.

Lemma manifest_core_wf at_ db runs hashes : NoDup hashes.*1 → wf_pyval (PDict (manifest_core at_ db runs hashes)) = true.
Proof.
  intros Hnd. unfold manifest_core. pose proof (texts_wf _ Hnd) as Hf. cbn [wf_pyval]. apply andb_true_iff.
  split; [apply bool_decide_eq_true, (bool_decide_unpack _); vm_compute; exact I|].
  apply forallb_forall. intros x Hin%list_elem_of_In.
  repeat (apply elem_of_cons in Hin as [->|Hin]; [cbn [snd]; first [reflexivity|exact Hf|idtac]|]); [|by apply elem_of_nil in Hin].
  cbn. apply forallb_forall. intros y Hy%list_elem_of_In. by apply list_elem_of_fmap in Hy as (z & -> & _).
Qed.

(** What "verified" says part by part. *)
Lemma verified_parts bundle_dir manifest key require_signature expected result :
  verify_bundle_manifest bundle_dir manifest key require_signature expected = Ok result → verified result = true →
  digest_errors manifest expected = [] ∧ flat_map fst (check_file bundle_dir <$> sorted_dict (manifest_files manifest)) = [] ∧
  files_errors manifest = [] ∧ ∃ ok, check_signature manifest key require_signature = Ok ([], ok).
Proof.
  unfold verify_bundle_manifest. intros ([errs ok] & Hs & [= <-])%bind_Ok. cbn [verified]. intros H%bool_decide_eq_true.
  apply app_nil in H as [Hf H]. apply app_nil in H as [Hd H]. apply app_nil in H as [Hc ->]. eauto.
Qed.

Lemma digest_fixed manifest expected : digest_errors manifest expected = [] →
  str_or_empty manifest "manifest_sha256" = compute_manifest_digest (PDict (verified_core manifest)) ∧
  ∀ e, given expected = Some e → str_or_empty manifest "manifest_sha256" = e.
Proof.
  unfold digest_errors. intros [H1 H2]%app_nil. case_decide; [done|]. case_decide; [|done]. split; [done|].
  intros e He. rewrite He in H2. by case_decide.
Qed.

Lemma signature_fixed manifest key require_signature ok signature : check_signature manifest (Some key) require_signature = Ok ([], ok) →
  key ≠ "" → get manifest "signature" = PDict signature →
  str_or_empty signature "value" = sign_manifest_digest (str_or_empty manifest "manifest_sha256") key.
Proof.
  unfold check_signature. intros H Hkey Hsig. rewrite Hsig in H. case_decide; [done|]. case_decide; [done|].
  assert (given (Some key) = Some key) as Hg by (by destruct key). rewrite Hg in H.
  apply bind_Ok in H as (b & Hc & [= Hb _]). unfold compare_digest in Hc. apply bind_Ok in Hc as (_ & _ & [= <-]).
  by case_bool_decide.
Qed.

Section tampering.
Context (Hfloat : float_texts float_repr).
(** A bundle as it was built, with the contents its files had. *)
Context (generated_at_utc db_path : string) (run_ids : list string) (originals : list (string * string)).
Context (signer_key_id signing_key : option string) (Horiginals : NoDup originals.*1).
Definition original_hashes : list (string * string) := (λ kv, (kv.1, sha256_hex kv.2)) <$> originals.
Abbreviation core := (manifest_core generated_at_utc db_path run_ids original_hashes).
Abbreviation built := (build_manifest generated_at_utc db_path run_ids original_hashes signer_key_id signing_key).

(** Nobody has found another text with a digest of the bundle's. *)
Definition digests_unmatched : Prop :=
  ∀ a b, a ∈ canonical_json_bytes (PDict core) :: originals.*2 → sha256_hex b = sha256_hex a → b = a.

(** The verifier is told the built digest, or has a key under which nothing but
    the built digest has the signature shown, which the key's holder gave. *)
Definition anchored (manifest : list (string * pyval)) (verifying_key expected : option string) : Prop :=
  given expected = Some (compute_manifest_digest (PDict core)) ∨
  ∃ key signature, verifying_key = Some key ∧ key ≠ "" ∧ get manifest "signature" = PDict signature ∧
    str_or_empty signature "value" = sign_manifest_digest (compute_manifest_digest (PDict core)) key ∧
    ∀ digest, sign_manifest_digest digest key = sign_manifest_digest (compute_manifest_digest (PDict core)) key →
      digest = compute_manifest_digest (PDict core).

Lemma original_hashes_nodup : NoDup original_hashes.*1.
Proof. unfold original_hashes. rewrite <- list_fmap_compose. change (NoDup ((λ kv : string * string, kv.1) <$> originals)). exact Horiginals. Qed.

Lemma anchored_core bundle_dir manifest verifying_key require_signature expected result :
  wf_pyval (PDict manifest) = true → digests_unmatched → anchored manifest verifying_key expected →
  verify_bundle_manifest bundle_dir manifest verifying_key require_signature expected = Ok result → verified result = true →
  same_value (PDict (verified_core manifest)) (PDict core).
Proof.
  intros Hwf Hun Hanchor Hrun Hver. destruct (verified_parts _ _ _ _ _ _ Hrun Hver) as (Hd & _ & _ & ok & Hsig).
  destruct (digest_fixed _ _ Hd) as [Hdig Hexp].
  assert (str_or_empty manifest "manifest_sha256" = compute_manifest_digest (PDict core)) as Heq.
  { destruct Hanchor as [He|(key & signature & -> & Hkey & Hget & Hval & Honly)]; [by apply Hexp|].
    apply Honly. rewrite <- Hval. symmetry. by eapply signature_fixed. }
  rewrite Hdig in Heq. apply (canonical_inj float_repr Hfloat); [by apply verified_core_wf|apply manifest_core_wf, original_hashes_nodup|].
  apply (Hun (canonical_json_bytes (PDict core))); [left|exact Heq].
Qed.

(** C31: A verified manifest that is anchored in the one built, by its digest or
    by its signature, fixes the bundle: its version, its run identifiers and
    the other fields are those built, it lists exactly the files built, and
    each of them still has its content. *)
Theorem tampering_detected bundle_dir manifest verifying_key require_signature expected result :
  wf_pyval (PDict manifest) = true → digests_unmatched → anchored manifest verifying_key expected →
  verify_bundle_manifest bundle_dir manifest verifying_key require_signature expected = Ok result → verified result = true →
  (∀ k v, (k, v) ∈ core → k ≠ "file_hashes" → same_value (get manifest k) v) ∧
  (∀ filename, filename ∈ (manifest_files manifest).*1 ↔ filename ∈ originals.*1) ∧
  (∀ filename content, (filename, content) ∈ originals → bundle_dir filename = Some (File content)).
Proof.
  intros Hwf Hun Hanchor Hrun Hver. pose proof (anchored_core _ _ _ _ _ _ Hwf Hun Hanchor Hrun Hver) as Hcore.
  destruct (verified_parts _ _ _ _ _ _ Hrun Hver) as (_ & Hfiles & _ & _).
  destruct (same_dict_elem _ _ Hcore) as [_ Hback].
  assert (NoDup (verified_core manifest).*1) as Hnd by (apply (bool_decide_unpack _); vm_compute; exact I).
  assert (same_value (PDict ((λ kv, (kv.1, PStr kv.2)) <$> sorted_dict (texts_of manifest)))
                     (PDict ((λ kv, (kv.1, PStr kv.2)) <$> sorted_dict original_hashes))) as Hlist.
  { destruct (Hback "file_hashes" _ ltac:(do 5 right; left)) as (v & Hv & Hs).
    apply dict_get_Some in Hv; [|done]. cbn in Hv. injection Hv as <-. exact Hs. }
  destruct (same_dict_elem _ _ Hlist) as [Hto Hfrom].
  assert (∀ l k v, NoDup l.*1 → (k, v) ∈ (λ kv : string * string, (kv.1, PStr kv.2)) <$> sorted_dict l ↔
    ∃ h, v = PStr h ∧ (k, h) ∈ l) as Hmem.
  { intros l k v Hl. rewrite list_elem_of_fmap. split.
    - intros ([k' h] & [= -> ->] & Hin). rewrite sorted_dict_perm in Hin by done. by exists h.
    - intros (h & -> & Hin). exists (k, h). split; [done|]. by rewrite sorted_dict_perm. }
  pose proof (texts_nodup manifest Hwf) as Htn. pose proof original_hashes_nodup as Hon.
  assert (∀ k h, (k, h) ∈ original_hashes ↔ (k, h) ∈ texts_of manifest) as Hsame.
  { intros k h. split; intros Hin.
    - destruct (Hfrom k (PStr h)) as (v & Hv & Hs); [apply Hmem; eauto|]. apply Hmem in Hv as (h' & -> & Hin'); [|done].
      by inversion Hs; subst.
    - destruct (Hto k (PStr h)) as (v & Hv & Hs); [apply Hmem; eauto|]. apply Hmem in Hv as (h' & -> & Hin'); [|done].
      by inversion Hs; subst. }
  split_and!.
  - intros k v Hin Hk. destruct (Hback k v Hin) as (v' & Hv' & Hs). apply dict_get_Some in Hv'; [|done].
    cbn in Hv'. repeat (case_decide; [by simplify_eq|]). done.
  - intros filename. split; intros Hin; apply list_elem_of_fmap in Hin as ([f x] & -> & Hin).
    + assert ((f, py_str float_repr x) ∈ original_hashes) as Hh by (apply Hsame, list_elem_of_fmap; by exists (f, x)).
      unfold original_hashes in Hh. apply list_elem_of_fmap in Hh as ([f' c] & [= -> _] & Hc). apply list_elem_of_fmap. by exists (f', c).
    + assert ((f, sha256_hex x) ∈ original_hashes) as Hh by (apply list_elem_of_fmap; by exists (f, x)).
      apply Hsame in Hh. apply list_elem_of_fmap in Hh as ([f' c] & [= -> _] & Hc). apply list_elem_of_fmap. by exists (f', c).
  - intros filename content Hin.
    assert ((filename, sha256_hex content) ∈ original_hashes) as Hh by (apply list_elem_of_fmap; by exists (filename, content)).
    apply Hsame in Hh. apply list_elem_of_fmap in Hh as ([f v] & [= <- Hv] & Hf).
    destruct (proj2 (files_checked bundle_dir _) Hfiles filename v) as (content' & Hb & Hv');
      [rewrite sorted_dict_perm; [done|by apply files_nodup]|].
    rewrite Hb. do 2 f_equal. apply (Hun content); [right; apply list_elem_of_fmap; by exists (filename, content)|congruence].
Qed.
End tampering.
End bundles.

(** ** A concrete bundle, under digests that spell their input *)

Definition hex_char (c : ascii) : string := hex2 (code c).
Definition to_hex (s : string) : string := concat_map_str hex_char s.
Definition sample_sha256 (s : string) : string := "s" +:+ to_hex s.
Definition sample_hmac (key message : string) : string := "m" +:+ to_hex message.

Lemma hex_code : prefix_code hex_char = true.
Proof. vm_compute. reflexivity. Qed.
Lemma to_hex_inj a b : to_hex a = to_hex b → a = b.
Proof. exact (code_map_inj hex_char a b hex_code). Qed.

Lemma is_ascii_app a b : is_ascii (a +:+ b) = is_ascii a && is_ascii b.
Proof. induction a as [|c a IH]; [done|]. change ((code c <? 128) && is_ascii (a +:+ b) = ((code c <? 128) && is_ascii a) && is_ascii b). by rewrite IH, andb_assoc. Qed.

Lemma to_hex_ascii s : is_ascii (to_hex s) = true.
Proof.
  assert (forallb (λ c, is_ascii (hex_char c)) all_chars = true) as Hall by (vm_compute; reflexivity).
  rewrite forallb_forall in Hall. unfold to_hex. induction s as [|c s IH]; [reflexivity|]. cbn [concat_map_str].
  rewrite is_ascii_app, IH, andb_true_r. apply Hall, list_elem_of_In, in_all_chars.
Qed.

Lemma sample_digests : digests_ok sample_sha256 sample_hmac.
Proof. split; [done|]. intros k a. split; [done|]. apply (to_hex_ascii a). Qed.

Definition sample_originals : list (string * string) := [("runs.json", "[]"); ("events.jsonl", "{}")].
Definition sample_directory : bundle := λ f, File <$> dict_get sample_originals f.
Definition sample_manifest (signing_key : option string) : list (string * pyval) :=
  build_manifest sample_float_repr sample_sha256 sample_hmac "2026-01-01T00:00:00+00:00" "agent_state.db" ["run_1"]
    (original_hashes sample_sha256 sample_originals) None signing_key.

Lemma bundle_verifies_witness :
  ∃ result, verify_bundle_manifest sample_float_repr sample_sha256 sample_hmac sample_directory (reverse (sample_manifest (Some "key")))
              (Some "key") true None = Ok result ∧ verified result = true.
Proof.
  destruct (bundle_verifies sample_float_repr sample_sha256 sample_hmac "2026-01-01T00:00:00+00:00" "agent_state.db" ["run_1"]
    (original_hashes sample_sha256 sample_originals) None (Some "key") sample_directory (reverse (sample_manifest (Some "key")))
    (Some "key") true None) as (result & Hrun & Hver & _).
  - exact sample_digests.
  - apply (bool_decide_unpack _). vm_compute. exact I.
  - discriminate.
  - intros filename hash Hin. unfold original_hashes in Hin.
    repeat (apply elem_of_cons in Hin as [[= -> ->]|Hin]; [eexists; split; reflexivity|]). by apply elem_of_nil in Hin.
  - apply reverse_Permutation.
  - right. split; [discriminate|reflexivity].
  - left. reflexivity.
  - exists result. exact (conj Hrun Hver).
Defined.

Lemma sample_verified : ∃ result,
  verify_bundle_manifest sample_float_repr sample_sha256 sample_hmac sample_directory (sample_manifest (Some "key")) (Some "key") true None =
    Ok result ∧ verified result = true.
Proof. eexists. split; vm_compute; reflexivity. Qed.

Lemma tampering_detected_witness : sample_directory "runs.json" = Some (File "[]").
Proof.
  destruct sample_verified as (result & Hrun & Hver).
  refine (proj2 (proj2 (tampering_detected sample_float_repr sample_sha256 sample_hmac sample_float_texts "2026-01-01T00:00:00+00:00"
    "agent_state.db" ["run_1"] sample_originals _ sample_directory (sample_manifest (Some "key")) (Some "key") true None result
    _ _ _ Hrun Hver)) "runs.json" "[]" _).
  - apply (bool_decide_unpack _). vm_compute. exact I.
  - vm_compute. reflexivity.
  - intros a b _ H. unfold sample_sha256 in H. injection H as H. by apply to_hex_inj.
  - right. eexists "key", _. split; [reflexivity|]. split; [discriminate|]. split; [reflexivity|]. split; [reflexivity|].
    intros d H. unfold sign_manifest_digest, sample_hmac in H. injection H as H. by apply utf8_inj, to_hex_inj.
  - left.
Defined.
