(* ===== verification/Guardrails.v ===== *)
(** The HTTP runtime's guardrails, [eap/runtime/guardrails.py]: configuration
    parsing, the sliding-window rate limiter and the concurrency counters.
    Clock readings and windows are exact rationals; [float(text)] is a
    parameter.  A missing [defaultdict] entry stands for its default. *)
From stdpp Require Import options.
From Stdlib Require Import Lqa.
From S2P Require Import Prelude Values Json.
Unset Default Proof Using.

Definition RUNTIME_OPERATION_MACRO_EXECUTE : string := "macro_execute".
Definition RUNTIME_OPERATION_RUN_RESUME : string := "run_resume".
Definition RUNTIME_OPERATION_RUN_READ : string := "run_read".
Definition RUNTIME_OPERATION_POINTER_SUMMARY : string := "pointer_summary".

Definition RUNTIME_OPERATIONS : list string :=
  [RUNTIME_OPERATION_MACRO_EXECUTE; RUNTIME_OPERATION_RUN_RESUME;
   RUNTIME_OPERATION_RUN_READ; RUNTIME_OPERATION_POINTER_SUMMARY].

Record RateLimitRule := { max_requests : Z; window_seconds : Q }.

(** [RateLimitRule.validate] *)
Definition validate_rule (rule : RateLimitRule) (operation : string) : result unit :=
  _ ← raise_if (max_requests rule <=? 0)%Z
        (value_error ("rate limit for '" +:+ operation +:+ "' must have max_requests > 0."));
  raise_if (Qle_bool (window_seconds rule) 0)
    (value_error ("rate limit for '" +:+ operation +:+ "' must have window_seconds > 0.")).

Record ConcurrencyLimits := {
  global_inflight : Z;
  execute_inflight : Z;
  resume_inflight : Z;
  per_run_resume_inflight : Z
}.

(** [ConcurrencyLimits.validate] *)
Definition validate_limits (l : ConcurrencyLimits) : result unit :=
  _ ← raise_if (global_inflight l <=? 0)%Z (value_error "concurrency global_inflight must be > 0.");
  _ ← raise_if (execute_inflight l <=? 0)%Z (value_error "concurrency execute_inflight must be > 0.");
  _ ← raise_if (resume_inflight l <=? 0)%Z (value_error "concurrency resume_inflight must be > 0.");
  raise_if (per_run_resume_inflight l <=? 0)%Z
    (value_error "concurrency per_run_resume_inflight must be > 0.").

Record RateLimitDecision := {
  rl_allowed : bool;
  rl_operation : string;
  rl_actor_id : string;
  rl_limit : Z;
  rl_window_seconds : Q;
  rl_remaining : Z;
  rl_retry_after_seconds : Q
}.

Record ConcurrencyDecision := {
  cc_allowed : bool;
  cc_operation : string;
  cc_run_id : option string;
  cc_limit_type : option string;
  cc_limit : Z;
  cc_current_inflight : Z
}.

Record ConcurrencyToken := { token_operation : string; token_run_id : option string }.

#[global] Instance ConcurrencyToken_eq_dec : EqDecision ConcurrencyToken.
Proof. solve_decision. Defined.

Definition DEFAULT_RATE_LIMIT_RULES : list (string * RateLimitRule) :=
  [(RUNTIME_OPERATION_MACRO_EXECUTE, {| max_requests := 60; window_seconds := 60 |});
   (RUNTIME_OPERATION_RUN_RESUME, {| max_requests := 60; window_seconds := 60 |});
   (RUNTIME_OPERATION_RUN_READ, {| max_requests := 240; window_seconds := 60 |});
   (RUNTIME_OPERATION_POINTER_SUMMARY, {| max_requests := 240; window_seconds := 60 |})].

Definition DEFAULT_CONCURRENCY_LIMITS : ConcurrencyLimits :=
  {| global_inflight := 12; execute_inflight := 6; resume_inflight := 6;
     per_run_resume_inflight := 1 |}.

(** ** Configuration *)

(** [_coerce_int] *)
Definition _coerce_int (value : pyval) (field operation : string) : result Z :=
  let bad := value_error ("Invalid integer for '" +:+ field +:+ "' in '" +:+ operation +:+ "'.") in
  match value with
  | PInt z => Ok z
  | PFloat q => if Qeq_bool q (inject_Z (Qfloor q)) then Ok (Qfloor q) else Raise bad
  | PStr s => match int_of_str (py_strip s) with Some z => Ok z | None => Raise bad end
  | _ => Raise bad
  end.

Section configuration.
(** [float(text)] for stripped text; [None] is a [ValueError]. *)
Context (float_of_str : string → option Q).

(** [_coerce_float] *)
Definition _coerce_float (value : pyval) (field operation : string) : result Q :=
  let bad := value_error ("Invalid float for '" +:+ field +:+ "' in '" +:+ operation +:+ "'.") in
  match value with
  | PInt z => Ok (inject_Z z)
  | PFloat q => Ok q
  | PStr s => match float_of_str (py_strip s) with Some q => Ok q | None => Raise bad end
  | _ => Raise bad
  end.

(** [normalize_rate_limit_rules] *)
Definition normalize_rate_limit_rules (raw_rules : list (string * pyval))
  : result (list (string * RateLimitRule)) :=
  fold_result (λ normalized '(operation, raw_rule),
    let op := py_lower (py_strip operation) in
    _ ← raise_if (negb (bool_decide (op ∈ RUNTIME_OPERATIONS)))
          (value_error ("Unsupported rate limit operation '" +:+ operation +:+ "'."));
    _ ← raise_if (negb (is_dict raw_rule))
          (value_error ("Rate limit for '" +:+ operation +:+ "' must be an object."));
    max ← _coerce_int (default (PInt 0) (py_get raw_rule "max_requests")) "max_requests" op;
    window ← _coerce_float (default (PInt 0) (py_get raw_rule "window_seconds")) "window_seconds" op;
    let rule := {| max_requests := max; window_seconds := window |} in
    _ ← validate_rule rule op;
    Ok (dict_set normalized op rule)) DEFAULT_RATE_LIMIT_RULES raw_rules.

(** [normalize_concurrency_limits]; [PNone] is an absent configuration. *)
Definition normalize_concurrency_limits (raw_limits : pyval) : result ConcurrencyLimits :=
  if negb (py_truthy raw_limits) then Ok DEFAULT_CONCURRENCY_LIMITS else
  _ ← raise_if (negb (is_dict raw_limits)) (value_error "concurrency config must be an object.");
  let field name dflt :=
    _coerce_int (default (PInt dflt) (py_get raw_limits name)) name "concurrency" in
  g ← field "global_inflight" (global_inflight DEFAULT_CONCURRENCY_LIMITS);
  e ← field "execute_inflight" (execute_inflight DEFAULT_CONCURRENCY_LIMITS);
  r ← field "resume_inflight" (resume_inflight DEFAULT_CONCURRENCY_LIMITS);
  p ← field "per_run_resume_inflight" (per_run_resume_inflight DEFAULT_CONCURRENCY_LIMITS);
  let limits := {| global_inflight := g; execute_inflight := e; resume_inflight := r;
                   per_run_resume_inflight := p |} in
  _ ← validate_limits limits;
  Ok limits.
End configuration.

(** ** [RuntimeGuardrails] *)

(** The fields the methods change; the configuration is an argument. *)
Record guardrails := {
  _requests : gmap (string * string) (list Q);
  _global_inflight : Z;
  _operation_inflight : gmap string Z;
  _run_resume_inflight : gmap string Z
}.

Definition initial_guardrails : guardrails :=
  {| _requests := ∅; _global_inflight := 0; _operation_inflight := ∅; _run_resume_inflight := ∅ |}.

(** [while bucket and bucket[0] <= window_start: bucket.popleft()] *)
Fixpoint drop_expired (window_start : Q) (bucket : list Q) : list Q :=
  match bucket with
  | t :: rest => if Qle_bool t window_start then drop_expired window_start rest else bucket
  | [] => []
  end.

Definition Qmax' (a b : Q) : Q := if Qle_bool a b then b else a.

(** [check_rate_limit] once its caller holds the lock.  The caller has read the
    clock before that: [now] is the reading it brings, and other calls may have
    taken the lock with later readings in the meantime. *)
Definition check_rate_limit (rules : list (string * RateLimitRule)) (now : Q)
    (operation actor_id : string) (g : guardrails) : guardrails * result RateLimitDecision :=
  match dict_get rules operation with
  | None => (g, Raise (Exn KeyError operation))
  | Some rule =>
      let key := (operation, actor_id) in
      let bucket := drop_expired (now - window_seconds rule)
                      (default [] (_requests g !! key)) in
      let with_bucket b :=
        {| _requests := <[key := b]> (_requests g);
           _global_inflight := _global_inflight g;
           _operation_inflight := _operation_inflight g;
           _run_resume_inflight := _run_resume_inflight g |} in
      let decision allowed remaining retry_after :=
        {| rl_allowed := allowed; rl_operation := operation; rl_actor_id := actor_id;
           rl_limit := max_requests rule; rl_window_seconds := window_seconds rule;
           rl_remaining := remaining; rl_retry_after_seconds := retry_after |} in
      if (max_requests rule <=? Z.of_nat (length bucket))%Z then
        match bucket with
        | [] => (with_bucket bucket, Raise (Exn (OtherError "IndexError") "deque index out of range"))
        | oldest :: _ =>
            let retry_after := Qmax' (1 # 1000) ((oldest + window_seconds rule) - now) in
            (with_bucket bucket, Ok (decision false 0%Z retry_after))
        end
      else
        let bucket := bucket ++ [now] in
        let remaining := Z.max 0 (max_requests rule - Z.of_nat (length bucket)) in
        (with_bucket bucket, Ok (decision true remaining 0%Q))
  end.

(** [m[k]] of a [defaultdict(int)] *)
Definition count_of (m : gmap string Z) (k : string) : Z := default 0%Z (m !! k).

(** [operation == RUN_RESUME and run_id]: the run whose counter is used. *)
Definition resume_run (operation : string) (run_id : option string) : option string :=
  match run_id with
  | Some r => if bool_decide (operation = RUNTIME_OPERATION_RUN_RESUME ∧ r ≠ "")
              then Some r else None
  | None => None
  end.

Definition op_limit (limits : ConcurrencyLimits) (operation : string) : Z :=
  if bool_decide (operation = RUNTIME_OPERATION_MACRO_EXECUTE)
  then execute_inflight limits else resume_inflight limits.

(** [acquire_concurrency], inside the lock. *)
Definition acquire_concurrency (limits : ConcurrencyLimits) (operation : string)
    (run_id : option string) (g : guardrails)
  : guardrails * (ConcurrencyDecision * option ConcurrencyToken) :=
  let denied limit_type limit current :=
    ({| cc_allowed := false; cc_operation := operation; cc_run_id := run_id;
        cc_limit_type := Some limit_type; cc_limit := limit;
        cc_current_inflight := current |}, None) in
  if (global_inflight limits <=? _global_inflight g)%Z then
    (g, denied "global_inflight" (global_inflight limits) (_global_inflight g))
  else
  let op_current := count_of (_operation_inflight g) operation in
  if (op_limit limits operation <=? op_current)%Z then
    (g, denied (operation +:+ "_inflight") (op_limit limits operation) op_current)
  else
  let run := resume_run operation run_id in
  let run_current := match run with Some r => count_of (_run_resume_inflight g) r | None => 0%Z end in
  if negb (is_None run) && (per_run_resume_inflight limits <=? run_current)%Z then
    (g, denied "per_run_resume_inflight" (per_run_resume_inflight limits) run_current)
  else
    ({| _requests := _requests g;
        _global_inflight := (_global_inflight g + 1)%Z;
        _operation_inflight := <[operation := (op_current + 1)%Z]> (_operation_inflight g);
        _run_resume_inflight :=
          match run with
          | Some r => <[r := (run_current + 1)%Z]> (_run_resume_inflight g)
          | None => _run_resume_inflight g
          end |},
     ({| cc_allowed := true; cc_operation := operation; cc_run_id := run_id;
         cc_limit_type := None; cc_limit := 0; cc_current_inflight := 0 |},
      Some {| token_operation := operation; token_run_id := run_id |})).

(** [release_concurrency], inside the lock. *)
Definition release_concurrency (token : ConcurrencyToken) (g : guardrails) : guardrails :=
  let op := token_operation token in
  {| _requests := _requests g;
     _global_inflight := Z.max 0 (_global_inflight g - 1);
     _operation_inflight :=
       <[op := Z.max 0 (count_of (_operation_inflight g) op - 1)]> (_operation_inflight g);
     _run_resume_inflight :=
       match resume_run op (token_run_id token) with
       | Some r => <[r := Z.max 0 (count_of (_run_resume_inflight g) r - 1)]> (_run_resume_inflight g)
       | None => _run_resume_inflight g
       end |}.

(** [retry_after_header_value], before [str]. *)
Definition retry_after_header_value (retry_after_seconds : Q) : Z :=
  Z.max 1 (Qceiling retry_after_seconds).

(** ** The sliding window *)

(** [t - w < x <= t] *)
Definition in_window (t w x : Q) : bool := negb (Qle_bool x (t - w)) && Qle_bool x t.

Lemma in_window_true t w x : in_window t w x = true ↔ (t - w < x)%Q ∧ (x <= t)%Q.
Proof.
  unfold in_window. rewrite andb_true_iff, negb_true_iff, Qle_bool_iff.
  rewrite <- not_true_iff_false, Qle_bool_iff. split; intros [??]; (split; [lra|done]).
Qed.

Lemma drop_expired_split ws b :
  ∃ b1, b = b1 ++ drop_expired ws b ∧ Forall (λ x, x <= ws)%Q b1.
Proof.
  induction b as [|x b (b1 & Hb & Hf)]; simpl; [by exists []|].
  destruct (Qle_bool x ws) eqn:E; [|by exists []].
  exists (x :: b1). split; [by simpl; f_equal|]. constructor; [by apply Qle_bool_iff|done].
Qed.

Lemma drop_expired_head ws b x b' : drop_expired ws b = x :: b' → (ws < x)%Q.
Proof.
  induction b as [|y b IH]; simpl; [done|]. destruct (Qle_bool y ws) eqn:E; [auto|].
  intros [= <- <-]. apply not_true_iff_false in E. rewrite Qle_bool_iff in E. lra.
Qed.

Definition times_of (key : string * string) (history : list (string * string * Q)) : list Q :=
  (List.filter (λ h, bool_decide (h.1 = key)) history).*2.

Section rate_limiter.
Context (rules : list (string * RateLimitRule)).
(** How far the reading a call brings to the lock may lie behind one that was
    brought before it. *)
Context (lag : Q).
Hypothesis lag_nonneg : (0 <= lag)%Q.

(** Any sequence of answered requests in the order in which they take the lock,
    with the readings they took before it, the concurrency counters changing in
    between: the state, the admitted requests (newest first) and the latest
    reading. *)
Inductive rate_run : guardrails → list (string * string * Q) → Q → Prop :=
  | rate_start t : rate_run initial_guardrails [] t
  | rate_step g history last now operation actor g' d :
      rate_run g history last → (last - lag <= now)%Q →
      check_rate_limit rules now operation actor g = (g', Ok d) →
      rate_run g' (if rl_allowed d then (operation, actor, now) :: history else history) (Qmax' last now)
  | rate_other g history last g' :
      rate_run g history last → _requests g' = _requests g → rate_run g' history last.

(** What the bucket of a key says about the requests admitted for it. *)
Definition bucket_ok (rule : RateLimitRule) (bucket times : list Q) (last : Q) : Prop :=
  (∃ old, times = reverse bucket ++ old ∧ Forall (λ x, x <= last - window_seconds rule)%Q old) ∧
  (bucket = [] ∨ (Z.of_nat (length bucket) <= max_requests rule)%Z) ∧
  ∀ t w, (w <= window_seconds rule - lag)%Q →
    (Z.of_nat (length (List.filter (in_window t w) times)) <= Z.max 0 (max_requests rule))%Z.

Lemma filter_window_old rule t w last now old :
  (now <= t)%Q → (last - lag <= now)%Q → (w <= window_seconds rule - lag)%Q → Forall (λ x, x <= last - window_seconds rule)%Q old →
  List.filter (in_window t w) old = [].
Proof.
  intros Ht Hlag Hw. induction 1 as [|x old Hx _ IH]; simpl; [done|].
  destruct (in_window t _ x) eqn:E; [|done]. apply in_window_true in E. lra.
Qed.

Lemma filter_length_le {A} (f : A → bool) l : length (List.filter f l) ≤ length l.
Proof. induction l as [|x l IH]; simpl; [done|]. destruct (f x); simpl; lia. Qed.

Lemma bucket_ok_drop rule bucket times last now last' :
  (last <= last')%Q → (now <= last')%Q → bucket_ok rule bucket times last →
  bucket_ok rule (drop_expired (now - window_seconds rule) bucket) times last'.
Proof.
  intros Hle Hnow ((old & -> & Hold) & Hlen & Hwin).
  destruct (drop_expired_split (now - window_seconds rule) bucket) as (b1 & Hb & Hb1).
  split_and!; [| |done].
  - exists (reverse b1 ++ old). split.
    + rewrite Hb at 1. by rewrite reverse_app, <- app_assoc.
    + apply Forall_app. split; [apply Forall_reverse; eapply Forall_impl; [exact Hb1|]|eapply Forall_impl; [exact Hold|]];
        simpl; intros x Hx; lra.
  - destruct Hlen as [->|Hlen]; [by left|right].
    rewrite Hb, length_app in Hlen. lia.
Qed.

Lemma bucket_ok_push rule bucket times last now :
  (last - lag <= now)%Q →
  bucket_ok rule bucket times last → (Z.of_nat (length bucket) < max_requests rule)%Z →
  bucket_ok rule (bucket ++ [now]) (now :: times) last.
Proof.
  intros Hlag ((old & -> & Hold) & _ & Hwin) Hroom. split_and!.
  - exists old. by rewrite reverse_snoc.
  - right. rewrite length_app. simpl. lia.
  - intros t w Hw. simpl. destruct (in_window t w now) eqn:E; [|by apply Hwin].
    apply in_window_true in E as [_ E]. simpl.
    rewrite List.filter_app, (filter_window_old rule t w last now old), app_nil_r by done.
    pose proof (filter_length_le (in_window t w) (reverse bucket)) as Hf.
    rewrite length_reverse in Hf. lia.
Qed.

Lemma bucket_ok_later rule bucket times last now :
  (last <= now)%Q → bucket_ok rule bucket times last → bucket_ok rule bucket times now.
Proof.
  intros Hle ((old & -> & Hold) & Hlen & Hwin). split_and!; [|done..].
  exists old. split; [done|]. eapply Forall_impl; [exact Hold|]. simpl. intros. lra.
Qed.
Lemma Qmax'_ub a b : (a <= Qmax' a b)%Q ∧ (b <= Qmax' a b)%Q.
Proof.
  unfold Qmax'. destruct (Qle_bool a b) eqn:E.
  - apply Qle_bool_iff in E. split; lra.
  - apply not_true_iff_false in E. rewrite Qle_bool_iff in E. split; lra.
Qed.
Lemma Qmax'_lub a b c : (a <= c)%Q → (b <= c)%Q → (Qmax' a b <= c)%Q.
Proof. unfold Qmax'. by destruct (Qle_bool a b). Qed.

(** Every bucket is right in every reachable state. *)
Lemma rate_run_buckets g history last :
  rate_run g history last →
  ∀ operation actor rule, dict_get rules operation = Some rule →
    bucket_ok rule (default [] (_requests g !! (operation, actor)))
      (times_of (operation, actor) history) last.
Proof.
  induction 1 as [t|g history last now op act g' d Hrun IH Hle Hcheck|g history last g' _ IH Hsame];
    intros operation actor rule Hrule; [| |rewrite Hsame; by apply IH].
  - simpl. rewrite lookup_empty. simpl. split_and!; [|by left|].
    + by exists [].
    + intros t' w _. simpl. lia.
  - destruct (Qmax'_ub last now) as [Hlast Hnow]. specialize (IH operation actor rule Hrule). unfold check_rate_limit in Hcheck.
    destruct (dict_get rules op) as [rule'|] eqn:Hop; [|done].
    set (bucket := drop_expired _ _) in Hcheck.
    destruct (decide ((op, act) = (operation, actor))) as [[= -> ->]|Hne].
    + rewrite Hrule in Hop. injection Hop as <-.
      pose proof (bucket_ok_drop _ _ _ _ _ _ Hlast Hnow IH) as Hdrop. fold bucket in Hdrop.
      destruct (Z.leb_spec (max_requests rule) (Z.of_nat (length bucket))) as [Hfull|Hroom].
      * destruct bucket as [|oldest bucket'] eqn:Eb; [done|].
        injection Hcheck as <- <-. simpl. by rewrite lookup_insert_eq.
      * injection Hcheck as <- <-. simpl. rewrite lookup_insert_eq. unfold times_of. simpl.
        rewrite bool_decide_true by done. apply bucket_ok_push; [|done|done].
        enough (Qmax' last now <= now + lag)%Q by (cbn [snd]; lra). apply Qmax'_lub; lra.
    + assert (_requests g' !! (operation, actor) = _requests g !! (operation, actor) ∧
        times_of (operation, actor) (if rl_allowed d then (op, act, now) :: history else history) =
        times_of (operation, actor) history) as [-> ->]; [|exact (bucket_ok_later _ _ _ _ _ Hlast IH)].
      split.
      * destruct (max_requests rule' <=? Z.of_nat (length bucket))%Z.
        -- destruct bucket; [done|]. injection Hcheck as <- <-. simpl. by rewrite lookup_insert_ne.
        -- injection Hcheck as <- <-. simpl. by rewrite lookup_insert_ne.
      * destruct (rl_allowed d); [|done]. unfold times_of. simpl.
        by rewrite bool_decide_false.
Qed.

(** C26: however requests of all operations and actors interleave, at most
    [max_requests] requests of one actor for one operation are admitted in any
    window of [window_seconds], when they take the lock in the order of their
    clock readings ([lag] 0); where a reading may be up to [lag] older than one
    that took the lock before it, in any window that is shorter by [lag]. *)
Theorem rate_limit_window g history last operation actor rule t w :
  rate_run g history last →
  dict_get rules operation = Some rule →
  (w <= window_seconds rule - lag)%Q →
  (Z.of_nat (length (List.filter (in_window t w) (times_of (operation, actor) history)))
   <= Z.max 0 (max_requests rule))%Z.
Proof. intros Hrun Hrule. apply (rate_run_buckets _ _ _ Hrun operation actor rule Hrule). Qed.

Lemma retry_after_header_ub q : (q <= inject_Z (retry_after_header_value q))%Q.
Proof.
  unfold retry_after_header_value. eapply Qle_trans; [apply Qle_ceiling|].
  rewrite <- Zle_Qle. lia.
Qed.

(** A refused caller that waits for the advertised [Retry-After] seconds
    is admitted, whatever the other callers do meanwhile (their requests go to
    other buckets), and was refused only because its bucket was full. *)
Theorem retry_after_suffices g history last now operation actor rule g' d now' :
  rate_run g history last →
  dict_get rules operation = Some rule →
  (0 < max_requests rule)%Z →
  check_rate_limit rules now operation actor g = (g', Ok d) →
  rl_allowed d = false →
  (now + inject_Z (retry_after_header_value (rl_retry_after_seconds d)) <= now')%Q →
  ∀ g1, _requests g1 !! (operation, actor) = _requests g' !! (operation, actor) →
  ∃ g2 d', check_rate_limit rules now' operation actor g1 = (g2, Ok d') ∧ rl_allowed d' = true.
Proof.
  intros Hrun Hrule Hpos Hcheck Hden Hwait g1 Hg1.
  pose proof (rate_run_buckets _ _ _ Hrun operation actor rule Hrule) as Hb.
  destruct (Qmax'_ub last now) as [Hlast Hnow]. pose proof (bucket_ok_drop _ _ _ _ _ _ Hlast Hnow Hb) as (_ & Hlen & _).
  unfold check_rate_limit in *. rewrite Hrule in *.
  set (bucket := drop_expired (now - window_seconds rule) _) in *.
  destruct (Z.leb_spec (max_requests rule) (Z.of_nat (length bucket))) as [Hfull|Hroom];
    [|by simplify_eq].
  destruct bucket as [|oldest rest] eqn:Eb; [done|].
  injection Hcheck as <- <-. simpl in *. rewrite Hg1, lookup_insert_eq. simpl.
  assert (Hold : (oldest + window_seconds rule <= now')%Q).
  { pose proof (retry_after_header_ub (Qmax' (1 # 1000) (oldest + window_seconds rule - now))).
    destruct (Qmax'_ub (1 # 1000) (oldest + window_seconds rule - now)). lra. }
  replace (Qle_bool oldest (now' - window_seconds rule)) with true
    by (symmetry; apply Qle_bool_iff; lra).
  assert (Hshort : length (drop_expired (now' - window_seconds rule) rest) ≤ length rest).
  { destruct (drop_expired_split (now' - window_seconds rule) rest) as (b1 & Hb1 & _).
    rewrite Hb1 at 2. rewrite length_app. lia. }
  destruct (Z.leb_spec (max_requests rule)
    (Z.of_nat (length (drop_expired (now' - window_seconds rule) rest)))) as [H|_].
  - destruct Hlen as [|Hlen]; [done|]. lia.
  - by eexists _, _.
Qed.
End rate_limiter.

(** ** The concurrency counters *)

Definition tokens_with (f : ConcurrencyToken → bool) (tokens : list ConcurrencyToken) : Z :=
  Z.of_nat (length (List.filter f tokens)).

Definition of_operation (operation : string) (t : ConcurrencyToken) : bool :=
  bool_decide (token_operation t = operation).

(** The token holds one of the run's resume slots. *)
Definition of_resumed_run (run : string) (t : ConcurrencyToken) : bool :=
  bool_decide (resume_run (token_operation t) (token_run_id t) = Some run).

Section concurrency.
Context (limits : ConcurrencyLimits).

(** Any interleaving of requests that are checked against the rate limits,
    acquire (or are refused) and later release the token they got, with the
    tokens still held. *)
Inductive conc_run : guardrails → list ConcurrencyToken → Prop :=
  | conc_start : conc_run initial_guardrails []
  | conc_acquire g tokens operation run_id g' d token :
      conc_run g tokens →
      acquire_concurrency limits operation run_id g = (g', (d, Some token)) →
      conc_run g' (token :: tokens)
  | conc_denied g tokens operation run_id g' d :
      conc_run g tokens →
      acquire_concurrency limits operation run_id g = (g', (d, None)) →
      conc_run g' tokens
  | conc_release g tokens1 token tokens2 :
      conc_run g (tokens1 ++ token :: tokens2) →
      conc_run (release_concurrency token g) (tokens1 ++ tokens2)
  | conc_rate g tokens rules now operation actor :
      conc_run g tokens → conc_run (check_rate_limit rules now operation actor g).1 tokens.

(** The counters count the tokens held. *)
Record counters_ok (g : guardrails) (tokens : list ConcurrencyToken) : Prop := {
  count_global : _global_inflight g = Z.of_nat (length tokens);
  count_operation op :
    count_of (_operation_inflight g) op = tokens_with (of_operation op) tokens;
  count_run run :
    count_of (_run_resume_inflight g) run = tokens_with (of_resumed_run run) tokens
}.

Lemma count_of_insert m k v k' :
  count_of (<[k := v]> m) k' = if decide (k = k') then v else count_of m k'.
Proof.
  unfold count_of. destruct (decide (k = k')) as [->|]; [by rewrite lookup_insert_eq|].
  by rewrite lookup_insert_ne.
Qed.

Lemma tokens_with_cons f t ts :
  tokens_with f (t :: ts) = ((if f t then 1 else 0) + tokens_with f ts)%Z.
Proof. unfold tokens_with. simpl. destruct (f t); simpl; lia. Qed.

Lemma tokens_with_middle f ts1 t ts2 :
  tokens_with f (ts1 ++ t :: ts2) = ((if f t then 1 else 0) + tokens_with f (ts1 ++ ts2))%Z.
Proof.
  induction ts1 as [|t1 ts1 IH]; simpl; [apply tokens_with_cons|].
  rewrite !tokens_with_cons, IH. lia.
Qed.

Lemma tokens_with_nonneg f ts : (0 <= tokens_with f ts)%Z.
Proof. unfold tokens_with. lia. Qed.

Lemma acquire_Some operation run_id g g' d token :
  acquire_concurrency limits operation run_id g = (g', (d, Some token)) →
  token = {| token_operation := operation; token_run_id := run_id |} ∧ cc_allowed d = true ∧
  (_global_inflight g < global_inflight limits)%Z ∧
  (count_of (_operation_inflight g) operation < op_limit limits operation)%Z ∧
  (∀ r, resume_run operation run_id = Some r →
    (count_of (_run_resume_inflight g) r < per_run_resume_inflight limits)%Z) ∧
  _global_inflight g' = (_global_inflight g + 1)%Z ∧
  _operation_inflight g' =
    <[operation := (count_of (_operation_inflight g) operation + 1)%Z]> (_operation_inflight g) ∧
  _run_resume_inflight g' = match resume_run operation run_id with
    | Some r => <[r := (count_of (_run_resume_inflight g) r + 1)%Z]> (_run_resume_inflight g)
    | None => _run_resume_inflight g
    end.
Proof.
  unfold acquire_concurrency. intros H.
  destruct (Z.leb_spec (global_inflight limits) (_global_inflight g)); [done|].
  destruct (Z.leb_spec (op_limit limits operation) (count_of (_operation_inflight g) operation)); [done|].
  destruct (resume_run operation run_id) as [r|]; simpl in H.
  - destruct (Z.leb_spec (per_run_resume_inflight limits) (count_of (_run_resume_inflight g) r)); [done|].
    simplify_eq; simpl. split_and!; try done. by intros ? [= <-].
  - simplify_eq; simpl. by split_and!.
Qed.

Lemma acquire_None operation run_id g g' d :
  acquire_concurrency limits operation run_id g = (g', (d, None)) →
  g' = g ∧ cc_allowed d = false ∧
  ((global_inflight limits <= _global_inflight g)%Z ∨
   (op_limit limits operation <= count_of (_operation_inflight g) operation)%Z ∨
   ∃ r, resume_run operation run_id = Some r ∧
     (per_run_resume_inflight limits <= count_of (_run_resume_inflight g) r)%Z).
Proof.
  unfold acquire_concurrency. intros H.
  destruct (Z.leb_spec (global_inflight limits) (_global_inflight g)).
  { simplify_eq; simpl. eauto. }
  destruct (Z.leb_spec (op_limit limits operation) (count_of (_operation_inflight g) operation)).
  { simplify_eq; simpl. eauto. }
  destruct (resume_run operation run_id) as [r|]; simpl in H; [|done].
  destruct (Z.leb_spec (per_run_resume_inflight limits) (count_of (_run_resume_inflight g) r)); [|done].
  simplify_eq; simpl. split_and!; [done..|]. right; right. by exists r.
Qed.

Lemma acquire_counters g tokens operation run_id g' d token :
  counters_ok g tokens →
  acquire_concurrency limits operation run_id g = (g', (d, Some token)) →
  counters_ok g' (token :: tokens).
Proof.
  intros [Hg Hop Hr] (-> & _ & _ & _ & _ & Hg' & Hop' & Hr')%acquire_Some. constructor.
  - rewrite Hg', Hg. simpl. lia.
  - intros op. rewrite Hop', count_of_insert, tokens_with_cons. unfold of_operation at 1. simpl.
    destruct (decide (operation = op)) as [->|Hne].
    + rewrite bool_decide_true, Hop by done. lia.
    + rewrite bool_decide_false, Hop by done. lia.
  - intros run. rewrite Hr', tokens_with_cons. unfold of_resumed_run at 1. simpl.
    destruct (resume_run operation run_id) as [r|].
    + rewrite count_of_insert. destruct (decide (r = run)) as [->|Hne].
      * rewrite bool_decide_true, Hr by done. lia.
      * rewrite bool_decide_false, Hr by congruence. lia.
    + rewrite bool_decide_false, Hr by done. lia.
Qed.

Lemma release_counters g tokens1 token tokens2 :
  counters_ok g (tokens1 ++ token :: tokens2) →
  counters_ok (release_concurrency token g) (tokens1 ++ tokens2).
Proof.
  intros [Hg Hop Hr]. constructor; simpl.
  - rewrite Hg, !length_app. simpl. lia.
  - intros op. rewrite count_of_insert, !Hop, !tokens_with_middle. unfold of_operation at 1 3.
    destruct (decide (token_operation token = op)) as [->|Hne].
    + rewrite bool_decide_true by done. pose proof (tokens_with_nonneg (of_operation op) (tokens1 ++ tokens2)). lia.
    + rewrite (bool_decide_false (token_operation token = op)) by done. lia.
  - intros run.
    assert (Hrun : count_of (_run_resume_inflight g) run =
      ((if of_resumed_run run token then 1 else 0) + tokens_with (of_resumed_run run) (tokens1 ++ tokens2))%Z)
      by (by rewrite Hr, tokens_with_middle).
    unfold of_resumed_run at 1 in Hrun.
    destruct (resume_run (token_operation token) (token_run_id token)) as [r|].
    + rewrite count_of_insert. destruct (decide (r = run)) as [->|Hne].
      * rewrite bool_decide_true in Hrun by done. rewrite Hrun.
        pose proof (tokens_with_nonneg (of_resumed_run run) (tokens1 ++ tokens2)). lia.
      * rewrite bool_decide_false in Hrun by congruence. lia.
    + rewrite bool_decide_false in Hrun by done. lia.
Qed.

(** Rate limiting does not touch the counters. *)
Lemma check_rate_counters rules now operation actor g :
  let g' := (check_rate_limit rules now operation actor g).1 in
  _global_inflight g' = _global_inflight g ∧ _operation_inflight g' = _operation_inflight g ∧
  _run_resume_inflight g' = _run_resume_inflight g.
Proof.
  unfold check_rate_limit. destruct (dict_get rules operation) as [rule|]; [|done].
  destruct (_ <=? _)%Z; [|done]. by destruct (drop_expired _ _).
Qed.

Lemma conc_run_counters g tokens : conc_run g tokens → counters_ok g tokens.
Proof.
  induction 1 as [|g tokens operation run_id g' d token _ IH Ha
    |g tokens operation run_id g' d _ IH Ha|g ts1 token ts2 _ IH|g tokens rules now op actor _ [I1 I2 I3]].
  - constructor; intros; by vm_compute.
  - by eapply acquire_counters.
  - apply acquire_None in Ha as (-> & _). done.
  - by apply release_counters.
  - destruct (check_rate_counters rules now op actor g) as (E1 & E2 & E3).
    constructor; intros; by rewrite ?E1, ?E2, ?E3.
Qed.

Lemma conc_run_limits g tokens :
  validate_limits limits = Ok tt →
  conc_run g tokens →
  counters_ok g tokens ∧
  (_global_inflight g <= global_inflight limits)%Z ∧
  (∀ op, count_of (_operation_inflight g) op <= op_limit limits op)%Z ∧
  (∀ run, count_of (_run_resume_inflight g) run <= per_run_resume_inflight limits)%Z.
Proof.
  intros Hval Hrun. split; [by apply conc_run_counters|].
  unfold validate_limits in Hval. inv_result.
  assert (Hop0 : ∀ op, (0 < op_limit limits op)%Z) by (intros op; unfold op_limit; case_bool_decide; lia).
  induction Hrun as [|g tokens operation run_id g' d token Hrun (IHg & IHo & IHr) Ha
    |g tokens operation run_id g' d Hrun IH Ha|g ts1 token ts2 Hrun (IHg & IHo & IHr)
    |g tokens rules now op actor Hrun (IHg & IHo & IHr)].
  - simpl. split_and!; [lia|..]; intros k; unfold count_of; rewrite lookup_empty; simpl;
      [specialize (Hop0 k)|]; lia.
  - apply acquire_Some in Ha as (-> & _ & Hg & Ho & Hr & Hg' & Hop' & Hr'). split_and!.
    + lia.
    + intros op. rewrite Hop', count_of_insert. destruct (decide (operation = op)) as [->|]; [lia|done].
    + intros run. rewrite Hr'. destruct (resume_run operation run_id) as [r|]; [|done].
      rewrite count_of_insert. destruct (decide (r = run)) as [->|]; [|done].
      specialize (Hr run eq_refl). lia.
  - by apply acquire_None in Ha as (-> & _).
  - simpl. split_and!.
    + lia.
    + intros op. rewrite count_of_insert. destruct (decide _) as [->|]; [|done].
      specialize (IHo op). specialize (Hop0 op). lia.
    + intros run. destruct (resume_run _ _) as [r|]; [|done].
      rewrite count_of_insert. destruct (decide (r = run)) as [->|]; [|done].
      specialize (IHr run). lia.
  - destruct (check_rate_counters rules now op actor g) as (E1 & E2 & E3).
    split_and!; intros; rewrite ?E1, ?E2, ?E3; auto.
Qed.

(** Whatever the interleaving of acquisitions, refusals and releases, the
    counters are exactly the numbers of tokens held, and those never exceed
    the global, the per-operation and the per-run limits. *)
Theorem concurrency_limits_hold g tokens :
  validate_limits limits = Ok tt →
  conc_run g tokens →
  counters_ok g tokens ∧
  (_global_inflight g <= global_inflight limits)%Z ∧
  (∀ op, count_of (_operation_inflight g) op <= op_limit limits op)%Z ∧
  (∀ run, count_of (_run_resume_inflight g) run <= per_run_resume_inflight limits)%Z.
Proof. apply conc_run_limits. Qed.

(** A request is refused only when a limit that covers it is reached by
    the tokens other requests hold, and a token that is released gives its
    slot back: acquiring and releasing leaves every counter as it was. *)
Theorem concurrency_release_restores g tokens operation run_id g' d token :
  conc_run g tokens →
  acquire_concurrency limits operation run_id g = (g', (d, token)) →
  match token with
  | None =>
      g' = g ∧
      ((global_inflight limits <= Z.of_nat (length tokens))%Z ∨
       (op_limit limits operation <= tokens_with (of_operation operation) tokens)%Z ∨
       ∃ r, resume_run operation run_id = Some r ∧
         (per_run_resume_inflight limits <= tokens_with (of_resumed_run r) tokens)%Z)
  | Some tok =>
      _global_inflight (release_concurrency tok g') = _global_inflight g ∧
      (∀ op, count_of (_operation_inflight (release_concurrency tok g')) op =
             count_of (_operation_inflight g) op) ∧
      (∀ run, count_of (_run_resume_inflight (release_concurrency tok g')) run =
              count_of (_run_resume_inflight g) run)
  end.
Proof.
  intros Hrun Ha. pose proof (conc_run_counters _ _ Hrun) as Hc.
  destruct token as [tok|].
  - pose proof (release_counters g' [] tok tokens (acquire_counters _ _ _ _ _ _ _ Hc Ha)) as Hc'.
    destruct Hc as [Hg Ho Hr], Hc' as [Hg' Ho' Hr']. split_and!.
    + by rewrite Hg', Hg.
    + intros op. by rewrite Ho', Ho.
    + intros run. by rewrite Hr', Hr.
  - apply acquire_None in Ha as (-> & _ & Hlim). split; [done|].
    destruct Hc as [Hg Ho Hr]. rewrite Hg, Ho in Hlim. setoid_rewrite Hr in Hlim. done.
Qed.
End concurrency.

(** ** Concrete inputs *)
Definition one_per_minute : list (string * RateLimitRule) :=
  [("macro_execute", {| max_requests := 1; window_seconds := 60 |})].

Definition after_one : guardrails :=
  (check_rate_limit one_per_minute 0 "macro_execute" "ada" initial_guardrails).1.

(** Two calls fill a window and one more opens the next; a call that read the
    clock before that one and takes the lock after it is admitted too, the third
    in one window. *)
Definition two_in_ten : list (string * RateLimitRule) := [("macro_execute", {| max_requests := 2; window_seconds := 10 |})].
Definition checked_at (readings : list Q) : guardrails * list bool :=
  foldl (λ '(g, l) now, let '(g', r) := check_rate_limit two_in_ten now "macro_execute" "ada" g in
                        (g', l ++ [match r with Ok d => rl_allowed d | Raise _ => false end])) (initial_guardrails, []) readings.
Example late_reading_admitted : (checked_at [0; 0; 9; 10]%Q).2 = [true; true; false; true] ∧ (checked_at [0; 0; 10; 9]%Q).2 = [true; true; true; true].
Proof. split; vm_compute; reflexivity. Qed.

Lemma after_one_run :
  rate_run one_per_minute 0 after_one [("macro_execute", "ada", 0%Q)] 0%Q.
Proof.
  apply (rate_step one_per_minute 0 initial_guardrails [] 0 0 "macro_execute" "ada" after_one
    {| rl_allowed := true; rl_operation := "macro_execute"; rl_actor_id := "ada";
       rl_limit := 1; rl_window_seconds := 60; rl_remaining := 0; rl_retry_after_seconds := 0 |}).
  - apply rate_start.
  - lra.
  - reflexivity.
Defined.

Lemma rate_limit_window_witness :
  (Z.of_nat (length (List.filter (in_window 5 60)
     (times_of ("macro_execute", "ada") [("macro_execute", "ada", 0%Q)]))) <= Z.max 0 1)%Z.
Proof.
  apply (rate_limit_window one_per_minute 0 (Qle_refl 0) after_one _ 0 "macro_execute" "ada"
           {| max_requests := 1; window_seconds := 60 |} 5 60).
  - apply after_one_run.
  - reflexivity.
  - apply Qle_bool_iff. reflexivity.
Defined.

Lemma retry_after_suffices_witness :
  ∃ g2 d', check_rate_limit one_per_minute 60 "macro_execute" "ada"
    (check_rate_limit one_per_minute 10 "macro_execute" "ada" after_one).1 = (g2, Ok d') ∧
    rl_allowed d' = true.
Proof.
  eapply (retry_after_suffices one_per_minute 0 (Qle_refl 0) after_one _ 0 10 "macro_execute" "ada"
           {| max_requests := 1; window_seconds := 60 |}).
  - apply after_one_run.
  - reflexivity.
  - simpl. lia.
  - vm_compute. reflexivity.
  - reflexivity.
  - apply Qle_bool_iff. vm_compute. reflexivity.
  - vm_compute. reflexivity.
Defined.

Definition resumed_once : guardrails :=
  (acquire_concurrency DEFAULT_CONCURRENCY_LIMITS "run_resume" (Some "r1") initial_guardrails).1.
Definition resume_token : ConcurrencyToken :=
  {| token_operation := "run_resume"; token_run_id := Some "r1" |}.

Lemma resumed_once_run : conc_run DEFAULT_CONCURRENCY_LIMITS resumed_once [resume_token].
Proof.
  apply (conc_acquire DEFAULT_CONCURRENCY_LIMITS initial_guardrails [] "run_resume" (Some "r1")
    resumed_once {| cc_allowed := true; cc_operation := "run_resume"; cc_run_id := Some "r1";
       cc_limit_type := None; cc_limit := 0; cc_current_inflight := 0 |} resume_token).
  - apply conc_start.
  - reflexivity.
Defined.

Lemma concurrency_limits_hold_witness :
  counters_ok resumed_once [resume_token] ∧
  (_global_inflight resumed_once <= 12)%Z ∧
  (∀ op, count_of (_operation_inflight resumed_once) op <= op_limit DEFAULT_CONCURRENCY_LIMITS op)%Z ∧
  (∀ run, count_of (_run_resume_inflight resumed_once) run <= 1)%Z.
Proof.
  apply (concurrency_limits_hold DEFAULT_CONCURRENCY_LIMITS resumed_once [resume_token]).
  - reflexivity.
  - apply resumed_once_run.
Defined.

(** A second resume of the same run is refused by the per-run limit. *)
Lemma concurrency_release_restores_witness :
  resumed_once = resumed_once ∧
  ((12 <= Z.of_nat (length [resume_token]))%Z ∨
   (op_limit DEFAULT_CONCURRENCY_LIMITS "run_resume" <=
      tokens_with (of_operation "run_resume") [resume_token])%Z ∨
   ∃ r, resume_run "run_resume" (Some "r1") = Some r ∧
     (1 <= tokens_with (of_resumed_run r) [resume_token])%Z).
Proof.
  apply (concurrency_release_restores DEFAULT_CONCURRENCY_LIMITS resumed_once [resume_token]
    "run_resume" (Some "r1") resumed_once
    {| cc_allowed := false; cc_operation := "run_resume"; cc_run_id := Some "r1";
       cc_limit_type := Some "per_run_resume_inflight"; cc_limit := 1;
       cc_current_inflight := 1 |} None).
  - apply resumed_once_run.
  - reflexivity.
Defined.
