(* ===== verification/Policy.v ===== *)
(** Scopes and policy profiles: [eap/runtime/auth_scopes.py] and
    [eap/runtime/policy_profiles.py].  A Python [set] of scopes is a [gset];
    where the code iterates over one in the unspecified set order, which only
    decides which of several offending scopes an error names, the model uses
    the order of [elements]. *)
From stdpp Require Import options.
From S2P Require Import Prelude Values Json.
Unset Default Proof Using.

Definition SCOPE_RUNS_EXECUTE : string := "runs:execute".
Definition SCOPE_RUNS_RESUME : string := "runs:resume".
Definition SCOPE_RUNS_READ : string := "runs:read".
Definition SCOPE_POINTERS_READ : string := "pointers:read".
Definition SCOPE_RUNS_RESUME_ANY : string := "runs:resume:any".
Definition SCOPE_RUNS_READ_ANY : string := "runs:read:any".
Definition SCOPE_POINTERS_READ_ANY : string := "pointers:read:any".

Definition FULL_RUNTIME_SCOPES : gset string :=
  {[SCOPE_RUNS_EXECUTE; SCOPE_RUNS_RESUME; SCOPE_RUNS_READ; SCOPE_POINTERS_READ;
    SCOPE_RUNS_RESUME_ANY; SCOPE_RUNS_READ_ANY; SCOPE_POINTERS_READ_ANY]}.

Definition DEFAULT_POLICY_PROFILE : string := "strict".
Definition SUPPORTED_POLICY_PROFILES : gset string :=
  {["strict"; "balanced"; "trusted"; "multi_tenant"; "sandboxed"]}.

Definition _PROFILE_ALLOWED_SCOPES : list (string * gset string) :=
  [("strict", {[SCOPE_RUNS_EXECUTE; SCOPE_RUNS_RESUME; SCOPE_RUNS_READ; SCOPE_POINTERS_READ;
                SCOPE_RUNS_READ_ANY; SCOPE_POINTERS_READ_ANY]});
   ("balanced", FULL_RUNTIME_SCOPES);
   ("trusted", FULL_RUNTIME_SCOPES ∪ {["*"]});
   ("multi_tenant", {[SCOPE_RUNS_EXECUTE; SCOPE_RUNS_RESUME; SCOPE_RUNS_READ; SCOPE_POINTERS_READ]});
   ("sandboxed", {[SCOPE_RUNS_EXECUTE; SCOPE_RUNS_READ; SCOPE_POINTERS_READ]})].

Definition viewer : gset string := {[SCOPE_RUNS_READ; SCOPE_POINTERS_READ]}.
Definition operator : gset string :=
  {[SCOPE_RUNS_EXECUTE; SCOPE_RUNS_RESUME; SCOPE_RUNS_READ; SCOPE_POINTERS_READ]}.
Definition any_reader : gset string :=
  {[SCOPE_RUNS_READ; SCOPE_POINTERS_READ; SCOPE_RUNS_READ_ANY; SCOPE_POINTERS_READ_ANY]}.
Definition sandboxed_operator : gset string :=
  {[SCOPE_RUNS_EXECUTE; SCOPE_RUNS_READ; SCOPE_POINTERS_READ]}.

Definition _PROFILE_TEMPLATES : list (string * list (string * gset string)) :=
  [("strict", [("viewer", viewer); ("operator", operator); ("auditor", any_reader);
               ("admin", any_reader)]);
   ("balanced", [("viewer", viewer); ("operator", operator); ("auditor", any_reader);
                 ("admin", FULL_RUNTIME_SCOPES)]);
   ("trusted", [("viewer", viewer); ("operator", operator); ("auditor", any_reader);
                ("admin", {["*"]})]);
   ("multi_tenant", [("viewer", viewer); ("operator", operator); ("auditor", viewer);
                     ("admin", operator)]);
   ("sandboxed", [("viewer", viewer); ("operator", sandboxed_operator); ("auditor", viewer);
                  ("admin", sandboxed_operator)])].

Definition allowed_scopes_of (profile : string) : gset string :=
  default ∅ (dict_get _PROFILE_ALLOWED_SCOPES profile).
Definition templates_of (profile : string) : list (string * gset string) :=
  default [] (dict_get _PROFILE_TEMPLATES profile).

(** A normalised token: the dictionary the runtime keeps under the token. *)
Record token_policy := {
  actor_id : string;
  auth_subject : string;
  scopes : list string;
  policy_profile : string;
  template : option string
}.

Section policies.
(** The shortest decimal text of a float. *)
Context (float_repr : Q → string).
Abbreviation str := (py_str float_repr).

(** [x or y] *)
Definition py_or (x y : pyval) : pyval := if py_truthy x then x else y.

(** [resolve_policy_profile_name]; a truthy value that is not text has no
    [strip]. *)
Definition resolve_policy_profile_name (value : pyval) : result string :=
  match py_or value (PStr DEFAULT_POLICY_PROFILE) with
  | PStr s =>
      let profile := py_lower (py_strip s) in
      _ ← raise_if (negb (bool_decide (profile ∈ SUPPORTED_POLICY_PROFILES)))
            (value_error ("Unsupported policy profile '" +:+ str value +:+ "'. Expected one of: "
               +:+ py_join ", " (sorted_set SUPPORTED_POLICY_PROFILES) +:+ "."));
      Ok profile
  | v => Raise (attribute_error ("'" +:+ type_name v +:+ "' object has no attribute 'strip'"))
  end.

(** [_parse_scopes] *)
Definition _parse_scopes (value : pyval) : list string :=
  match value with
  | PStr s => split_strip ","%char s
  | PList l => filter (λ p, p ≠ "") ((λ part, py_strip (str part)) <$> l)
  | _ => []
  end.

(** [_validate_scopes_for_profile] *)
Definition _validate_scopes_for_profile (scopes : gset string) (profile token_label : string)
  : result (gset string) :=
  let allowed_scopes := allowed_scopes_of profile in
  fold_result (λ normalized scope,
    _ ← raise_if (bool_decide (scope ∉ FULL_RUNTIME_SCOPES) && bool_decide (scope ≠ "*"))
          (value_error ("Token '" +:+ token_label +:+ "' requested unknown scope '" +:+ scope
             +:+ "'. Use runtime scopes or '*'."));
    _ ← raise_if (bool_decide (scope ∉ allowed_scopes))
          (value_error ("Token '" +:+ token_label +:+ "' requested scope '" +:+ scope
             +:+ "' disallowed by profile '" +:+ profile +:+ "'."));
    Ok ({[scope]} ∪ normalized)) ∅ (elements scopes).

(** One entry of the ['tokens'] array. *)
Definition build_token_policy (base_profile : string) (index : nat) (item : pyval)
  : result (string * token_policy) :=
  _ ← raise_if (negb (is_dict item))
        (value_error ("Token entry #" +:+ pretty index +:+ " must be a JSON object."));
  let get k := default (PStr "") (py_get item k) in
  let token := py_strip (str (get "token")) in
  let actor := py_strip (str (get "actor_id")) in
  let token_label := str_or (Some token) ("entry#" +:+ pretty index) in
  _ ← raise_if (bool_decide (token = ""))
        (value_error ("Token entry #" +:+ pretty index +:+ " is missing required field 'token'."));
  _ ← raise_if (bool_decide (actor = ""))
        (value_error ("Token '" +:+ token_label +:+ "' is missing required field 'actor_id'."));
  profile ← resolve_policy_profile_name
              (py_or (default PNone (py_get item "policy_profile")) (PStr base_profile));
  let template := py_lower (py_strip (str (get "template"))) in
  let explicit_scopes := _parse_scopes (default PNone (py_get item "scopes")) in
  template_scopes ←
    (if bool_decide (template = "") then Ok ∅
     else match dict_get (templates_of profile) template with
          | Some s => Ok s
          | None => Raise (value_error ("Token '" +:+ token_label
              +:+ "' requested unknown template '" +:+ template +:+ "' for profile '" +:+ profile
              +:+ "'. Supported templates: " +:+ py_join ", " (py_sorted (templates_of profile).*1)
              +:+ "."))
          end);
  effective_scopes ← _validate_scopes_for_profile
                       (template_scopes ∪ list_to_set explicit_scopes) profile token_label;
  _ ← raise_if (bool_decide (effective_scopes = ∅))
        (value_error ("Token '" +:+ token_label +:+ "' resolves to zero scopes. "
           +:+ "Deny-by-default is active; provide a template and/or scopes."));
  Ok (token, {| actor_id := actor;
                auth_subject := str_or (Some (py_strip (str (get "auth_subject"))))
                                  ("scoped_token:" +:+ profile +:+ ":" +:+ actor);
                scopes := sorted_set effective_scopes;
                policy_profile := profile;
                template := if bool_decide (template = "") then None else Some template |}).

(** [build_scoped_token_policies]; a repeated token overwrites. *)
Definition build_scoped_token_policies (payload : pyval) (default_policy_profile : string)
  : result (list (string * token_policy) * string) :=
  tokens_payload ← attr_get payload "tokens";
  match tokens_payload with
  | Some (PList items) =>
      base_profile ← resolve_policy_profile_name
        (py_or (default PNone (py_get payload "policy_profile")) (PStr default_policy_profile));
      normalized ← fold_result (λ acc '(index, item),
          entry ← build_token_policy base_profile index item;
          Ok (dict_set acc entry.1 entry.2)) [] (imap pair items);
      Ok (normalized, base_profile)
  | _ => Raise (value_error "scoped auth config must include a 'tokens' array.")
  end.

(** [describe_policy_profile_matrix] *)
Definition describe_policy_profile_matrix : list (string * list (string * list string)) :=
  (λ profile,
    (profile, (λ template, (template, sorted_set (default ∅ (dict_get (templates_of profile) template))))
                <$> py_sorted (templates_of profile).*1)) <$> py_sorted _PROFILE_TEMPLATES.*1.

(** ** Least privilege *)

Lemma validate_scopes_Ok S profile label R :
  _validate_scopes_for_profile S profile label = Ok R → R = S ∧ S ⊆ allowed_scopes_of profile.
Proof.
  unfold _validate_scopes_for_profile. intros H.
  assert (Hgen : ∀ (l : list string) (acc R : gset string), fold_result (λ normalized scope,
      _ ← raise_if (bool_decide (scope ∉ FULL_RUNTIME_SCOPES) && bool_decide (scope ≠ "*"))
          (value_error ("Token '" +:+ label +:+ "' requested unknown scope '" +:+ scope
             +:+ "'. Use runtime scopes or '*'."));
      _ ← raise_if (bool_decide (scope ∉ allowed_scopes_of profile))
          (value_error ("Token '" +:+ label +:+ "' requested scope '" +:+ scope
             +:+ "' disallowed by profile '" +:+ profile +:+ "'."));
      Ok ({[scope]} ∪ normalized)) acc l = Ok R →
    R = list_to_set l ∪ acc ∧ list_to_set l ⊆ allowed_scopes_of profile).
  { clear H R. induction l as [|x l IH]; intros acc R; cbn [fold_result].
    - intros [= ->]. simpl. split; set_solver.
    - intros (acc' & Hx & Hl)%bind_Ok.
      apply bind_Ok in Hx as (? & _ & Hx). apply bind_Ok in Hx as (? & Ha & [= <-]).
      apply raise_if_Ok, bool_decide_eq_false in Ha.
      destruct (IH _ _ Hl) as [-> Hsub]. simpl. apply dec_stable in Ha.
      clear IH Hl. split; set_solver. }
  destruct (Hgen _ _ _ H) as [-> Hsub]. rewrite list_to_set_elements_L in *. set_solver.
Qed.
End policies.

Section least_privilege.
Context (float_repr : Q → string).
Abbreviation str := (py_str float_repr).

Lemma resolve_policy_profile_name_Ok v p :
  resolve_policy_profile_name float_repr v = Ok p → p ∈ SUPPORTED_POLICY_PROFILES.
Proof.
  unfold resolve_policy_profile_name. destruct (py_or v _); try done.
  intros (? & Hs & [= <-])%bind_Ok. apply raise_if_Ok, negb_false_iff, bool_decide_eq_true in Hs. done.
Qed.

(** What the configuration entry [item] asks for under [profile]. *)
Definition requested_template (item : pyval) : string :=
  py_lower (py_strip (str (default (PStr "") (py_get item "template")))).
Definition requested_scopes (profile : string) (item : pyval) : gset string :=
  (if bool_decide (requested_template item = "") then ∅
   else default ∅ (dict_get (templates_of profile) (requested_template item))) ∪
  list_to_set (_parse_scopes float_repr (default PNone (py_get item "scopes"))).

(** A policy that grants what [item] asks for and its profile allows. *)
Record policy_ok (item : pyval) (token : string) (p : token_policy) : Prop := {
  policy_token : token = py_strip (str (default (PStr "") (py_get item "token"))) ∧ token ≠ "";
  policy_actor : actor_id p ≠ "";
  policy_known : policy_profile p ∈ SUPPORTED_POLICY_PROFILES;
  policy_exact : list_to_set (scopes p) = requested_scopes (policy_profile p) item;
  policy_allowed : requested_scopes (policy_profile p) item ⊆ allowed_scopes_of (policy_profile p);
  policy_some : scopes p ≠ [];
  policy_sorted : NoDup (scopes p) ∧ StronglySorted String.le (scopes p)
}.

Lemma build_token_policy_Ok base index item token p :
  build_token_policy float_repr base index item = Ok (token, p) → policy_ok item token p.
Proof.
  unfold build_token_policy. intros H.
  apply bind_Ok in H as (? & _ & H).
  apply bind_Ok in H as (? & Htok & H). apply raise_if_Ok, bool_decide_eq_false in Htok.
  apply bind_Ok in H as (? & Hact & H). apply raise_if_Ok, bool_decide_eq_false in Hact.
  apply bind_Ok in H as (profile & Hp & H). apply resolve_policy_profile_name_Ok in Hp.
  apply bind_Ok in H as (ts & Hts & H).
  apply bind_Ok in H as (eff & Heff & H). apply validate_scopes_Ok in Heff as [-> Hsub].
  apply bind_Ok in H as (? & Hne & H). apply raise_if_Ok, bool_decide_eq_false in Hne.
  injection H as <- <-.
  assert (ts ∪ list_to_set (_parse_scopes float_repr (default PNone (py_get item "scopes"))) =
          requested_scopes profile item) as Hreq.
  { unfold requested_scopes, requested_template. case_bool_decide; [by injection Hts as <-|].
    destruct (dict_get _ _); [by injection Hts as <-|done]. }
  rewrite Hreq in *. constructor; simpl; try done.
  - apply list_to_set_sorted_set.
  - intros Hnil. apply Hne. apply (f_equal (list_to_set (C := gset string))) in Hnil.
    by rewrite list_to_set_sorted_set in Hnil.
  - split; [apply NoDup_sorted_set|apply py_sorted_sorted].
Qed.

Lemma elem_of_imap_pair {A} (l : list A) x : x ∈ imap pair l → x.2 ∈ l.
Proof.
  intros (i & Hi)%list_elem_of_lookup. rewrite list_lookup_imap in Hi.
  destruct (l !! i) as [y|] eqn:E; [|done]. injection Hi as <-. by eapply list_elem_of_lookup_2.
Qed.

(** C27: every token policy that [build_scoped_token_policies] returns comes
    from an entry of the configuration and grants exactly the scopes that
    entry asks for (template and explicit ones), all of them allowed by its
    supported profile, at least one, in sorted order: no token gets a scope
    its profile does not allow. *)
Theorem token_policies_least_privilege payload default_profile policies base :
  build_scoped_token_policies float_repr payload default_profile = Ok (policies, base) →
  base ∈ SUPPORTED_POLICY_PROFILES ∧
  ∃ items, py_get payload "tokens" = Some (PList items) ∧
    ∀ token p, dict_get policies token = Some p → ∃ item, item ∈ items ∧ policy_ok item token p.
Proof.
  unfold build_scoped_token_policies. intros (tp & Htp & H)%bind_Ok.
  destruct payload as [| | | | | |d]; try done. injection Htp as <-.
  destruct (dict_get d "tokens") as [[| | | | |items|]|] eqn:Hitems; try done.
  apply bind_Ok in H as (b & Hb & H). apply bind_Ok in H as (acc & Hacc & [= <- <-]).
  split; [by eapply resolve_policy_profile_name_Ok|]. exists items. split; [done|].
  revert Hacc. apply (fold_result_Ok_inv
    (λ acc, ∀ token p, dict_get acc token = Some p → ∃ item, item ∈ items ∧ policy_ok item token p));
    [done|].
  intros acc1 [i item] acc2 Hin Hinv (entry & Hentry & [= <-])%bind_Ok token p.
  destruct entry as [tok pol]. simpl. rewrite dict_get_set. destruct (decide (tok = token)) as [->|];
    [|by apply Hinv].
  intros [= <-]. exists item. split; [by apply (elem_of_imap_pair _ _ Hin)|].
  by eapply build_token_policy_Ok.
Qed.
End least_privilege.

(** The shipped tables are consistent: the two tables name exactly the
    supported profiles, every template asks for at least one scope and only
    for scopes its profile allows, each profile of the chain sandboxed,
    multi_tenant, strict, balanced, trusted allows what the one before it
    does, and only [trusted] allows the wildcard. *)
Theorem profile_tables_consistent :
  list_to_set _PROFILE_ALLOWED_SCOPES.*1 = SUPPORTED_POLICY_PROFILES ∧
  list_to_set _PROFILE_TEMPLATES.*1 = SUPPORTED_POLICY_PROFILES ∧
  Forall (λ pt, Forall (λ t, t.2 ≠ ∅ ∧ t.2 ⊆ allowed_scopes_of pt.1) pt.2) _PROFILE_TEMPLATES ∧
  allowed_scopes_of "sandboxed" ⊆ allowed_scopes_of "multi_tenant" ∧
  allowed_scopes_of "multi_tenant" ⊆ allowed_scopes_of "strict" ∧
  allowed_scopes_of "strict" ⊆ allowed_scopes_of "balanced" ∧
  allowed_scopes_of "balanced" ⊆ allowed_scopes_of "trusted" ∧
  Forall (λ p, "*" ∈ p.2 ↔ p.1 = "trusted") _PROFILE_ALLOWED_SCOPES.
Proof.
  split_and!; try (apply (bool_decide_unpack _); vm_compute; exact I).
Qed.

Definition sample_payload : pyval :=
  PDict [("policy_profile", PStr "multi_tenant");
         ("tokens", PList [PDict [("token", PStr " t1 "); ("actor_id", PStr "ada");
                                  ("template", PStr "Viewer");
                                  ("scopes", PStr "runs:execute, runs:read")]])].
Definition sample_policies : list (string * token_policy) :=
  match build_scoped_token_policies (λ _, "0.5") sample_payload "strict" with
  | Ok (ps, _) => ps
  | Raise _ => []
  end.

Lemma token_policies_least_privilege_witness :
  "multi_tenant" ∈ SUPPORTED_POLICY_PROFILES ∧
  ∃ items, py_get sample_payload "tokens" = Some (PList items) ∧
    ∀ token p, dict_get sample_policies token = Some p →
      ∃ item, item ∈ items ∧ policy_ok (λ _, "0.5") item token p.
Proof.
  apply (token_policies_least_privilege (λ _, "0.5") sample_payload "strict").
  vm_compute. reflexivity.
Defined.
