(* ===== verification/PointerStore.v ===== *)
(** Pointer storage: the backend contract of [eap/protocol/storage/base.py] as
    a class with laws, the operations the base class derives from it, and its
    SQLite and Redis implementations
    ([eap/protocol/storage/sqlite_store.py], [redis_store.py]).

    A UTC instant is its microseconds since the epoch, where the code keeps
    ISO-8601 text ([datetime.isoformat] in UTC orders as the instants do); a
    JSON column is the value it encodes.  [now] is the instant [now_utc]
    names.  The Redis client is a third-party library: a class with the laws
    of the commands used. *)
From stdpp Require Import options.
From S2P Require Import Prelude Values Json.
Unset Default Proof Using.

(** The arguments of [store_pointer]: one row of the store. *)
Record pointer_row := {
  pointer_id : string;
  raw_data : string;
  summary : string;
  metadata : pyval;
  created_at_utc : Z;
  ttl_seconds : option Z;
  expires_at_utc : option Z
}.

(** One dictionary of [list_pointers]. *)
Record listing := {
  ls_pointer_id : string;
  ls_summary : string;
  ls_metadata : pyval;
  ls_created_at_utc : Z;
  ls_ttl_seconds : option Z;
  ls_expires_at_utc : option Z;
  ls_is_expired : bool
}.

Definition not_found (id : string) : exn :=
  Exn KeyError ("Pointer " +:+ id +:+ " not found in persistent storage.").
Definition bad_limit : exn := value_error "limit must be > 0 when provided.".

(** [is_expired] *)
Definition is_expired (expires_at : option Z) (now : Z) : bool :=
  match expires_at with Some e => (e <=? now)%Z | None => false end.

(** [rows[:limit]], [None] being no limit. *)
Definition take_limit {A} (limit : option Z) (l : list A) : list A :=
  match limit with Some n => take (Z.to_nat n) l | None => l end.

Definition limit_ok (limit : option Z) : bool :=
  match limit with Some n => (0 <? n)%Z | None => true end.

(** ** The contract: [PointerStoreBackend] *)
Class PointerStoreBackend (S : Type) := {
  store_pointer : pointer_row → S → S * result unit;
  retrieve_pointer : string → S → result string;
  list_pointers : bool → Z → option Z → S → result (list listing);
  delete_pointer : string → S → S * result bool
}.

Definition to_listing (now : Z) (r : pointer_row) : listing :=
  {| ls_pointer_id := pointer_id r; ls_summary := summary r; ls_metadata := metadata r;
     ls_created_at_utc := created_at_utc r; ls_ttl_seconds := ttl_seconds r;
     ls_expires_at_utc := expires_at_utc r; ls_is_expired := is_expired (expires_at_utc r) now |}.

(** Newest first, then by identifier, descending. *)
Definition newest_first (a b : listing) : Prop :=
  (ls_created_at_utc b < ls_created_at_utc a)%Z ∨
  ls_created_at_utc a = ls_created_at_utc b ∧ String.le (ls_pointer_id b) (ls_pointer_id a).

#[global] Instance newest_first_dec : RelDecision newest_first.
Proof. unfold newest_first. intros a b. apply _. Defined.

#[global] Instance newest_first_total : Total newest_first.
Proof.
  intros a b. unfold newest_first.
  destruct (Z.lt_trichotomy (ls_created_at_utc a) (ls_created_at_utc b)) as [|[Heq|]]; [tauto| |tauto].
  destruct (total String.le (ls_pointer_id a) (ls_pointer_id b)); [right|left]; right; by split.
Qed.

#[global] Instance newest_first_trans : Transitive newest_first.
Proof.
  intros a b c [?|[? ?]] [?|[? ?]]; unfold newest_first; [left; lia..|].
  right. split; [lia|]. by etrans.
Qed.

(** What a store holding [rows] lists. *)
Definition spec_list (include_expired : bool) (now : Z) (limit : option Z)
    (rows : gmap string pointer_row) : result (list listing) :=
  if limit_ok limit then
    Ok (take_limit limit (merge_sort newest_first
         (List.filter (λ l, include_expired || negb (ls_is_expired l))
            (to_listing now <$> (map_to_list rows).*2))))
  else Raise bad_limit.

(** The laws: a store [represents] a map from identifiers to rows. *)
Class PointerStoreLaws (S : Type) `{PointerStoreBackend S} := {
  represents : S → gmap string pointer_row → Prop;
  valid_id : string → Prop;
  storable : pointer_row → Prop;
  represents_ids s rows : represents s rows → map_Forall (λ id r, pointer_id r = id) rows;
  law_store s rows r :
    represents s rows → valid_id (pointer_id r) → storable r → rows !! pointer_id r = None →
    ∃ s', store_pointer r s = (s', Ok tt) ∧ represents s' (<[pointer_id r := r]> rows);
  law_retrieve s rows id :
    represents s rows → valid_id id →
    retrieve_pointer id s =
      match rows !! id with Some r => Ok (raw_data r) | None => Raise (not_found id) end;
  law_list s rows include_expired now limit :
    represents s rows → list_pointers include_expired now limit s =
      spec_list include_expired now limit rows;
  law_delete s rows id :
    represents s rows → valid_id id →
    ∃ s', delete_pointer id s = (s', Ok (bool_decide (is_Some (rows !! id)))) ∧
      represents s' (delete id rows);
  law_valid s rows id : represents s rows → is_Some (rows !! id) → valid_id id
}.

(** ** What the base class derives *)
Section derived.
Context {S : Type} `{PointerStoreBackend S}.

(** [list_expired_pointers] *)
Definition list_expired_pointers (now : Z) (limit : option Z) (s : S) : result (list listing) :=
  _ ← raise_if (negb (limit_ok limit)) bad_limit;
  all_rows ← list_pointers true now None s;
  let expired := List.filter (λ row, is_expired (ls_expires_at_utc row) now) all_rows in
  Ok (take_limit limit expired).

(** [for row in expired: if self.delete_pointer(...): deleted.append(...)] *)
Fixpoint delete_all (ids : list string) (s : S) (deleted : list string)
  : S * result (list string) :=
  match ids with
  | [] => (s, Ok deleted)
  | id :: ids =>
      match delete_pointer id s with
      | (s', Ok b) => delete_all ids s' (if b : bool then deleted ++ [id] else deleted)
      | (s', Raise e) => (s', Raise e)
      end
  end.

(** The dictionary [cleanup_expired_pointers] returns. *)
Record cleanup_report := {
  deleted_count : nat;
  deleted_pointer_ids : list string;
  remaining_expired_count : nat;
  ran_at_utc : Z
}.

Definition cleanup_expired_pointers (now : Z) (limit : option Z) (s : S)
  : S * result cleanup_report :=
  match list_expired_pointers now limit s with
  | Raise e => (s, Raise e)
  | Ok expired =>
      match delete_all (ls_pointer_id <$> expired) s [] with
      | (s', Raise e) => (s', Raise e)
      | (s', Ok deleted) =>
          (s', remaining ← list_expired_pointers now None s';
               Ok {| deleted_count := length deleted; deleted_pointer_ids := deleted;
                     remaining_expired_count := length remaining; ran_at_utc := now |})
      end
  end.
End derived.

(** ** SQLite: the table [state_store] and the connection's state *)
Record sqlite := { state_store : gmap string pointer_row; _closed : bool }.

(** [with self._connection() as conn] *)
Definition sqlite_open (s : sqlite) : result unit :=
  raise_if (_closed s) (Exn RuntimeError "SQLitePointerStore connection is closed.").

Definition sqlite_store_pointer (r : pointer_row) (s : sqlite) : sqlite * result unit :=
  match sqlite_open s with
  | Raise e => (s, Raise e)
  | Ok _ =>
      match state_store s !! pointer_id r with
      | Some _ => (s, Raise (Exn (OtherError "IntegrityError")
                               "UNIQUE constraint failed: state_store.pointer_id"))
      | None => ({| state_store := <[pointer_id r := r]> (state_store s); _closed := _closed s |}, Ok tt)
      end
  end.

Definition sqlite_retrieve_pointer (id : string) (s : sqlite) : result string :=
  _ ← sqlite_open s;
  match state_store s !! id with
  | Some r => Ok (raw_data r)
  | None => Raise (not_found id)
  end.

(** [ORDER BY created_at_utc DESC, pointer_id DESC] *)
Definition row_order (a b : pointer_row) : Prop :=
  (created_at_utc b < created_at_utc a)%Z ∨
  created_at_utc a = created_at_utc b ∧ String.le (pointer_id b) (pointer_id a).
#[global] Instance row_order_dec : RelDecision row_order.
Proof. unfold row_order. intros a b. apply _. Defined.

Definition sqlite_list_pointers (include_expired : bool) (now : Z) (limit : option Z) (s : sqlite)
  : result (list listing) :=
  _ ← raise_if (negb (limit_ok limit)) bad_limit;
  _ ← sqlite_open s;
  let selected := List.filter (λ r, include_expired ||
        match expires_at_utc r with None => true | Some e => (now <? e)%Z end)
        (map_to_list (state_store s)).*2 in
  let rows := take_limit limit (merge_sort row_order selected) in
  Ok (to_listing now <$> rows).

Definition sqlite_delete_pointer (id : string) (s : sqlite) : sqlite * result bool :=
  match sqlite_open s with
  | Raise e => (s, Raise e)
  | Ok _ => ({| state_store := delete id (state_store s); _closed := _closed s |},
             Ok (bool_decide (is_Some (state_store s !! id))))
  end.

Definition sqlite_close (s : sqlite) : sqlite := {| state_store := state_store s; _closed := true |}.

#[export] Instance sqlite_backend : PointerStoreBackend sqlite := {
  store_pointer := sqlite_store_pointer;
  retrieve_pointer := sqlite_retrieve_pointer;
  list_pointers := sqlite_list_pointers;
  delete_pointer := sqlite_delete_pointer
}.

(** ** Redis *)

(** A hash field: text, the text of a JSON value, or ISO text of an instant. *)
Inductive field := FText (s : string) | FJson (v : pyval) | FTime (t : Z).

(** The commands of the client that the store calls. *)
Class RedisClient (C : Type) := {
  hset : string → list (string * field) → C → C;
  hget : string → string → C → option field;
  hgetall : string → C → gmap string field;
  sadd : string → string → C → C;
  smembers : string → C → list string;
  srem : string → string → C → C;
  del : string → C → C * Z
}.

(** Documented behaviour of those commands: a database maps keys to hashes
    and to sets, no key being both. *)
Class RedisLaws (C : Type) `{RedisClient C} := {
  hashes : C → gmap string (gmap string field);
  members : C → string → gset string;
  hset_hashes k kvs c : members c k = ∅ →
    hashes (hset k kvs c) = <[k := list_to_map (reverse kvs) ∪ default ∅ (hashes c !! k)]> (hashes c);
  hset_members k kvs c k' : members c k = ∅ → members (hset k kvs c) k' = members c k';
  hget_hashes k f c : hget k f c = (default ∅ (hashes c !! k)) !! f;
  hgetall_hashes k c : hgetall k c = default ∅ (hashes c !! k);
  sadd_members k x c k' : hashes c !! k = None →
    members (sadd k x c) k' = if decide (k' = k) then {[x]} ∪ members c k else members c k';
  sadd_hashes k x c : hashes c !! k = None → hashes (sadd k x c) = hashes c;
  smembers_members k c : smembers k c ≡ₚ elements (members c k);
  srem_members k x c k' :
    members (srem k x c) k' = if decide (k' = k) then members c k ∖ {[x]} else members c k';
  srem_hashes k x c : hashes (srem k x c) = hashes c;
  del_hashes k c : hashes (del k c).1 = delete k (hashes c);
  del_members k c k' : members (del k c).1 k' = if decide (k' = k) then ∅ else members c k';
  del_count k c : members c k = ∅ → (del k c).2 = (if hashes c !! k is Some _ then 1 else 0)%Z
}.

Section redis.
Context {C : Type} `{RedisClient C}.
Context (key_prefix : string).

Definition _pointer_ids_key : string := key_prefix +:+ ":ids".
Definition _pointer_key (id : string) : string := key_prefix +:+ ":" +:+ id.

(** The mapping that [store_pointer] writes. *)
Definition redis_encode (r : pointer_row) : list (string * field) :=
  [("pointer_id", FText (pointer_id r));
   ("raw_data", FText (raw_data r));
   ("summary", FText (summary r));
   ("metadata", FJson (metadata r));
   ("created_at_utc", FTime (created_at_utc r));
   ("ttl_seconds", FText (match ttl_seconds r with None => "" | Some t => pretty t end));
   ("expires_at_utc", match expires_at_utc r with None => FText "" | Some e => FTime e end)].

Definition redis_store_pointer (r : pointer_row) (c : C) : C * result unit :=
  let c := hset (_pointer_key (pointer_id r)) (redis_encode r) c in
  (sadd _pointer_ids_key (pointer_id r) c, Ok tt).

Definition field_text (f : option field) : string :=
  match f with Some (FText s) => s | _ => "" end.

Definition redis_retrieve_pointer (id : string) (c : C) : result string :=
  match hget (_pointer_key id) "raw_data" c with
  | Some f => Ok (field_text (Some f))
  | None => Raise (not_found id)
  end.

(** One iteration of [list_pointers]: [None] is a [continue]. *)
Definition redis_row (include_expired : bool) (now : Z) (c : C) (id : string)
  : result (option listing) :=
  let record := hgetall (_pointer_key id) c in
  if decide (record = ∅) then Ok None else
  let expires_at := match record !! "expires_at_utc" with Some (FTime e) => Some e | _ => None end in
  let expired := is_expired expires_at now in
  if negb include_expired && expired then Ok None else
  let ttl_raw := field_text (record !! "ttl_seconds") in
  ttl ← (if decide (ttl_raw = "") then Ok None
         else match int_of_str (py_strip ttl_raw) with
              | Some t => Ok (Some t)
              | None => Raise (value_error "invalid literal for int()")
              end);
  Ok (Some {|
    ls_pointer_id := match record !! "pointer_id" with Some f => field_text (Some f) | None => id end;
    ls_summary := field_text (record !! "summary");
    ls_metadata := match record !! "metadata" with Some (FJson v) => v | _ => PDict [] end;
    ls_created_at_utc := match record !! "created_at_utc" with Some (FTime t) => t | _ => 0%Z end;
    ls_ttl_seconds := ttl;
    ls_expires_at_utc := expires_at;
    ls_is_expired := expired |}).

Definition redis_list_pointers (include_expired : bool) (now : Z) (limit : option Z) (c : C)
  : result (list listing) :=
  _ ← raise_if (negb (limit_ok limit)) bad_limit;
  rows ← map_result (redis_row include_expired now c) (smembers _pointer_ids_key c);
  Ok (take_limit limit (merge_sort newest_first (omap id rows))).

Definition redis_delete_pointer (id : string) (c : C) : C * result bool :=
  let '(c, removed_count) := del (_pointer_key id) c in
  (srem _pointer_ids_key id c, Ok (negb (removed_count =? 0)%Z)).
End redis.

(** A Redis store is its client and its key prefix. *)
Record redis_store (C : Type) := { client : C; prefix : string }.
Arguments client {_} _.
Arguments prefix {_} _.

#[export] Instance redis_backend {C} `{RedisClient C} : PointerStoreBackend (redis_store C) := {
  store_pointer r s :=
    let '(c, x) := redis_store_pointer (prefix s) r (client s) in
    ({| client := c; prefix := prefix s |}, x);
  retrieve_pointer i s := redis_retrieve_pointer (prefix s) i (client s);
  list_pointers b n l s := redis_list_pointers (prefix s) b n l (client s);
  delete_pointer i s :=
    let '(c, x) := redis_delete_pointer (prefix s) i (client s) in
    ({| client := c; prefix := prefix s |}, x)
}.

(** ** Both backends keep the contract *)

Lemma newest_first_ids a b :
  newest_first a b → newest_first b a → ls_pointer_id a = ls_pointer_id b.
Proof.
  intros [?|[Ha ?]] [?|[Hb ?]]; try lia. by apply (anti_symm String.le).
Qed.

(** The rows of a store, listed. *)
Definition listings (include_expired : bool) (now : Z) (rows : gmap string pointer_row)
  : list listing :=
  List.filter (λ l, include_expired || negb (ls_is_expired l))
    (to_listing now <$> (map_to_list rows).*2).

Lemma elem_of_List_filter {A} (f : A → bool) (l : list A) x :
  x ∈ List.filter f l ↔ f x = true ∧ x ∈ l.
Proof. rewrite !list_elem_of_In, List.filter_In. tauto. Qed.

Lemma elem_of_listings inc now rows l :
  map_Forall (λ id r, pointer_id r = id) rows →
  l ∈ listings inc now rows ↔
  ∃ r, rows !! ls_pointer_id l = Some r ∧ l = to_listing now r ∧
    inc || negb (is_expired (expires_at_utc r) now) = true.
Proof.
  intros Hids. unfold listings. rewrite elem_of_List_filter, list_elem_of_fmap.
  setoid_rewrite list_elem_of_fmap. split.
  - intros (Hf & r & -> & [id r'] & -> & Hin%elem_of_map_to_list). simpl in *. exists r'.
    by rewrite (Hids _ _ Hin).
  - intros (r & Hr & -> & Hf). simpl in *. split; [done|]. exists r. split; [done|].
    exists (pointer_id r, r). split; [done|]. by apply elem_of_map_to_list.
Qed.

Lemma listing_ids_inj inc now rows a b :
  map_Forall (λ id r, pointer_id r = id) rows →
  a ∈ listings inc now rows → b ∈ listings inc now rows →
  ls_pointer_id a = ls_pointer_id b → a = b.
Proof.
  intros Hids (r & Hr & -> & _)%(elem_of_listings _ _ _ _ Hids)
    (r' & Hr' & -> & _)%(elem_of_listings _ _ _ _ Hids) Heq. simpl in *. congruence.
Qed.

(** A sorted permutation of the rows is what [spec_list] sorts. *)
Lemma sorted_listings_unique inc now rows l :
  map_Forall (λ id r, pointer_id r = id) rows →
  StronglySorted newest_first l → l ≡ₚ listings inc now rows →
  l = merge_sort newest_first (listings inc now rows).
Proof.
  intros Hids Hl Hp. apply (StronglySorted_unique_strong newest_first).
  - intros a b Ha Hb Hab Hba. rewrite merge_sort_Permutation in Hb. rewrite Hp in Ha.
    eapply listing_ids_inj; [done..|]. by apply newest_first_ids.
  - done.
  - apply StronglySorted_merge_sort; apply _.
  - by rewrite merge_sort_Permutation.
Qed.

Lemma List_filter_fmap {A B} (g : A → B) (p : B → bool) (l : list A) :
  List.filter p (g <$> l) = g <$> List.filter (λ x, p (g x)) l.
Proof. induction l as [|x l IH]; csimpl; [done|]. rewrite IH. by destruct (p (g x)). Qed.

Lemma List_filter_ext {A} (p q : A → bool) (l : list A) :
  (∀ x, p x = q x) → List.filter p l = List.filter q l.
Proof. intros H. induction l as [|x l IH]; simpl; [done|]. by rewrite H, IH. Qed.

Lemma not_expired e now :
  match e with None => true | Some e => (now <? e)%Z end = negb (is_expired e now).
Proof. destruct e; simpl; [|done]. by rewrite Z.ltb_antisym. Qed.

#[global] Instance row_order_total : Total row_order.
Proof. intros a b. apply (newest_first_total (to_listing 0 a) (to_listing 0 b)). Qed.
#[global] Instance row_order_trans : Transitive row_order.
Proof. intros a b c. apply (newest_first_trans (to_listing 0 a) (to_listing 0 b) (to_listing 0 c)). Qed.

Lemma take_limit_fmap {A B} (f : A → B) limit (l : list A) :
  f <$> take_limit limit l = take_limit limit (f <$> l).
Proof. destruct limit; simpl; [|done]. by rewrite fmap_take. Qed.

Lemma StronglySorted_fmap {A B} (R : relation B) (f : A → B) (l : list A) :
  StronglySorted (λ x y, R (f x) (f y)) l → StronglySorted R (f <$> l).
Proof.
  induction 1 as [|x l _ IH Hx]; csimpl; constructor; [done|].
  by apply Forall_fmap.
Qed.

(** Rows sorted as SQL sorts them, then listed. *)
Lemma selected_listed inc now limit rows : map_Forall (λ id r, pointer_id r = id) rows →
  to_listing now <$> take_limit limit (merge_sort row_order (List.filter (λ r, inc ||
    match expires_at_utc r with None => true | Some e => (now <? e)%Z end) (map_to_list rows).*2)) =
  take_limit limit (merge_sort newest_first (listings inc now rows)).
Proof.
  intros Hids. rewrite take_limit_fmap. f_equal. apply sorted_listings_unique; [done|..].
  - apply StronglySorted_fmap. exact (StronglySorted_merge_sort row_order _).
  - rewrite merge_sort_Permutation. unfold listings. rewrite (List_filter_fmap (to_listing now)). f_equiv.
    erewrite (List_filter_ext _ _ _ (λ r, f_equal (orb inc) (not_expired _ _))). done.
Qed.

#[local] Obligation Tactic := idtac.

#[export] Program Instance sqlite_laws : PointerStoreLaws sqlite := {
  represents s rows := state_store s = rows ∧ _closed s = false ∧
                       map_Forall (λ id r, pointer_id r = id) rows;
  valid_id _ := True;
  storable _ := True
}.
Next Obligation. by intros s rows (_ & _ & ?). Qed.
Next Obligation.
  intros s rows r (<- & Hc & Hids) _ _ Hnew. simpl. unfold sqlite_store_pointer, sqlite_open.
  rewrite Hc, Hnew. simpl. eexists. split; [done|]. simpl. split_and!; [done..|].
  by apply map_Forall_insert_2.
Qed.
Next Obligation.
  intros s rows id (<- & Hc & Hids) _. simpl. unfold sqlite_retrieve_pointer, sqlite_open.
  rewrite Hc. done.
Qed.
Next Obligation.
  intros s rows inc now limit (<- & Hc & Hids). simpl.
  unfold sqlite_list_pointers, spec_list, sqlite_open. rewrite Hc.
  destruct (limit_ok limit); simpl; [|done]. f_equal. by apply selected_listed.
Qed.
Next Obligation.
  intros s rows id (<- & Hc & Hids) _. simpl. unfold sqlite_delete_pointer, sqlite_open.
  rewrite Hc. simpl. eexists. split; [done|]. simpl. split_and!; [done..|].
  by apply map_Forall_delete.
Qed.
Next Obligation. done. Qed.

Section redis_laws.
Context {C : Type} `{RedisLaws C}.
Implicit Types (c : C) (p : string).

(** A client database that holds a store's rows under a prefix (and possibly
    other keys). *)
Record redis_represents p c (rows : gmap string pointer_row) : Prop := {
  rr_ids : map_Forall (λ id r, pointer_id r = id) rows;
  rr_valid id : is_Some (rows !! id) → id ≠ "ids";
  rr_members : members c (_pointer_ids_key p) = dom rows;
  rr_no_hash : hashes c !! _pointer_ids_key p = None;
  rr_no_sets id : id ≠ "ids" → members c (_pointer_key p id) = ∅;
  rr_hashes id : id ≠ "ids" →
    hashes c !! _pointer_key p id = list_to_map ∘ redis_encode <$> rows !! id
}.

Lemma pointer_key_inj p a b : _pointer_key p a = _pointer_key p b → a = b.
Proof. unfold _pointer_key. intros ?%(inj _). by simplify_eq. Qed.

Lemma ids_key_eq p : _pointer_ids_key p = _pointer_key p "ids".
Proof. done. Qed.

Lemma encode_reverse r :
  list_to_map (M := gmap string field) (reverse (redis_encode r)) = list_to_map (redis_encode r).
Proof.
  apply list_to_map_proper; [|by rewrite reverse_Permutation].
  apply (bool_decide_unpack _). by vm_compute.
Qed.

Lemma redis_store_ok p c rows r :
  redis_represents p c rows → pointer_id r ≠ "ids" → rows !! pointer_id r = None →
  redis_represents p (redis_store_pointer p r c).1 (<[pointer_id r := r]> rows).
Proof.
  intros [Hids Hval Hmem Hnh Hns Hh] Hid Hnew. unfold redis_store_pointer. simpl.
  set (k := _pointer_key p (pointer_id r)).
  assert (Hk : members c k = ∅) by (by apply Hns).
  assert (Hne : k ≠ _pointer_ids_key p).
  { rewrite ids_key_eq. by intros ?%pointer_key_inj. }
  assert (Hnone : hashes (hset k (redis_encode r) c) !! _pointer_ids_key p = None).
  { rewrite hset_hashes by done. by rewrite lookup_insert_ne. }
  constructor.
  - by apply map_Forall_insert_2.
  - intros id. destruct (decide (id = pointer_id r)) as [->|]; [done|].
    rewrite lookup_insert_ne by done. apply Hval.
  - rewrite sadd_members by done. rewrite decide_True by done.
    rewrite hset_members by done. rewrite Hmem. by rewrite dom_insert_L.
  - by rewrite sadd_hashes.
  - intros id Hidn. rewrite sadd_members by done. rewrite decide_False, hset_members by
      (done || (rewrite ids_key_eq; by intros ?%pointer_key_inj)). by apply Hns.
  - intros id Hidn. rewrite sadd_hashes, hset_hashes by done.
    destruct (decide (id = pointer_id r)) as [->|Hneq].
    + assert (Hkh : hashes c !! k = None) by (unfold k; by rewrite Hh, Hnew).
      rewrite !lookup_insert_eq, Hkh, encode_reverse.
      change (default ∅ None) with (∅ : gmap string field). by rewrite (right_id ∅ (∪)).
    + rewrite !lookup_insert_ne by (done || by intros ?%pointer_key_inj). by apply Hh.
Qed.

Lemma redis_row_ok p c rows inc now id r :
  redis_represents p c rows → rows !! id = Some r →
  redis_row p inc now c id =
    Ok (if inc || negb (is_expired (expires_at_utc r) now) then Some (to_listing now r) else None).
Proof.
  intros [Hids Hval _ _ _ Hh] Hr. unfold redis_row.
  rewrite hgetall_hashes, Hh, Hr by (apply Hval; eauto).
  change (default ∅ (list_to_map ∘ redis_encode <$> Some r))
    with (list_to_map (M := gmap string field) (redis_encode r)).
  set (record := list_to_map (M := gmap string field) (redis_encode r)).
  assert (Hf : ∀ k f, (k, f) ∈ redis_encode r → record !! k = Some f).
  { intros k f Hin. apply elem_of_list_to_map_1; [|done].
    simpl. apply (bool_decide_unpack _). by vm_compute. }
  assert (Hrec : record ≠ ∅).
  { intros Hempty. assert (record !! "raw_data" = Some (FText (raw_data r))) as Hx.
    { apply Hf. by repeat econstructor. } rewrite Hempty in Hx. by rewrite lookup_empty in Hx. }
  rewrite decide_False by done.
  rewrite (Hf "expires_at_utc" (match expires_at_utc r with None => FText "" | Some e => FTime e end))
    by (by repeat econstructor).
  rewrite (Hf "ttl_seconds" (FText (match ttl_seconds r with None => "" | Some t => pretty t end)))
    by (by repeat econstructor).
  rewrite (Hf "pointer_id" (FText (pointer_id r))) by (by repeat econstructor).
  rewrite (Hf "summary" (FText (summary r))) by (by repeat econstructor).
  rewrite (Hf "metadata" (FJson (metadata r))) by (by repeat econstructor).
  rewrite (Hf "created_at_utc" (FTime (created_at_utc r))) by (by repeat econstructor).
  assert (match match expires_at_utc r with None => FText "" | Some e => FTime e end with
          | FTime e => Some e | _ => None end = expires_at_utc r) as Hexp
    by (by destruct (expires_at_utc r)).
  simpl. rewrite Hexp.
  destruct (is_expired (expires_at_utc r) now) eqn:He, inc; simpl; try done;
    destruct r as [i raw s m cr [t|] ex]; simpl in *; try (unfold to_listing; simpl; by rewrite He);
    rewrite decide_False by apply pretty_Z_nonempty;
    rewrite py_strip_pretty, int_of_str_pretty; unfold to_listing; simpl; by rewrite He.
Qed.

Lemma redis_delete_ok p c rows i :
  redis_represents p c rows → i ≠ "ids" →
  (redis_delete_pointer p i c).2 = Ok (bool_decide (is_Some (rows !! i))) ∧
  redis_represents p (redis_delete_pointer p i c).1 (delete i rows).
Proof.
  intros [Hids Hval Hmem Hnh Hns Hh] Hi. unfold redis_delete_pointer.
  pose proof (del_hashes (_pointer_key p i) c) as Hdh.
  pose proof (del_members (_pointer_key p i) c) as Hdm.
  pose proof (del_count (_pointer_key p i) c (Hns i Hi)) as Hdc.
  destruct (del (_pointer_key p i) c) as [c' n]. simpl in *.
  assert (Hne : _pointer_ids_key p ≠ _pointer_key p i).
  { rewrite ids_key_eq. intros ?%pointer_key_inj. congruence. }
  split.
  - f_equal. rewrite Hdc, Hh by done. by destruct (rows !! i).
  - constructor.
    + by apply map_Forall_delete.
    + intros j. destruct (decide (i = j)) as [->|].
      * rewrite lookup_delete_eq. by intros [??].
      * rewrite lookup_delete_ne by done. apply Hval.
    + rewrite srem_members, decide_True by done. rewrite Hdm, decide_False by done.
      by rewrite Hmem, dom_delete_L.
    + rewrite srem_hashes, Hdh. by rewrite lookup_delete_ne by done.
    + intros j Hj. rewrite srem_members, decide_False.
      * rewrite Hdm. case_decide; [done|]. by apply Hns.
      * rewrite ids_key_eq. by intros ?%pointer_key_inj.
    + intros j Hj. rewrite srem_hashes, Hdh. destruct (decide (i = j)) as [->|].
      * by rewrite !lookup_delete_eq.
      * rewrite !lookup_delete_ne by (done || by intros ?%pointer_key_inj). by apply Hh.
Qed.

Lemma map_result_all_Ok {A B} (f : A → result B) (g : A → B) l :
  Forall (λ x, f x = Ok (g x)) l → map_result f l = Ok (g <$> l).
Proof. induction 1 as [|x l Hx _ IH]; simpl; [done|]. by rewrite Hx, IH. Qed.

Lemma redis_list_ok p c rows inc now limit :
  redis_represents p c rows →
  redis_list_pointers p inc now limit c = spec_list inc now limit rows.
Proof.
  intros Hrep. unfold redis_list_pointers, spec_list. destruct (limit_ok limit); simpl; [|done].
  set (g := λ id, rows !! id ≫= λ r,
    if inc || negb (is_expired (expires_at_utc r) now) then Some (to_listing now r) else None).
  rewrite (map_result_all_Ok _ g).
  2: { apply Forall_forall. intros id Hin. rewrite smembers_members, elem_of_elements in Hin.
       rewrite (rr_members _ _ _ Hrep) in Hin. apply elem_of_dom in Hin as [r Hr].
       rewrite (redis_row_ok p c rows inc now id r Hrep Hr). unfold g. rewrite Hr. done. }
  simpl. do 2 f_equal. fold (listings inc now rows). apply sorted_listings_unique.
  - apply Hrep.
  - apply StronglySorted_merge_sort; apply _.
  - rewrite merge_sort_Permutation.
    assert (Hom : ∀ l : list string, omap id (g <$> l) = omap g l).
    { induction l as [|x l IH]; [done|]. csimpl.
      change (id (g x)) with (g x). destruct (g x); [f_equal|]; exact IH. }
    rewrite Hom.
    assert (Hperm : smembers (_pointer_ids_key p) c ≡ₚ (map_to_list rows).*1).
    { rewrite smembers_members, (rr_members _ _ _ Hrep). apply NoDup_Permutation.
      - apply NoDup_elements.
      - apply NoDup_fst_map_to_list.
      - intros id. rewrite elem_of_elements, elem_of_dom, list_elem_of_fmap. split.
        + intros [r Hr]. exists (id, r). split; [done|]. by apply elem_of_map_to_list.
        + intros ([id' r] & -> & Hr%elem_of_map_to_list). by exists r. }
    rewrite Hperm. apply eq_subrelation; [apply _|].
    unfold listings.
    assert (Hl : ∀ id r, (id, r) ∈ map_to_list rows → rows !! id = Some r) by
      (intros id r; apply elem_of_map_to_list).
    revert Hl. generalize (map_to_list rows). induction l as [|[id r] l IH]; intros Hl; [done|].
    csimpl. unfold g at 1. rewrite (Hl id r) by left. simpl.
    rewrite IH by (intros; apply Hl; by right).
    destruct (inc || negb (is_expired (expires_at_utc r) now)); done.
Qed.
End redis_laws.

#[export] Program Instance redis_store_laws {C} `{RedisLaws C} : PointerStoreLaws (redis_store C) := {
  represents s rows := redis_represents (prefix s) (client s) rows;
  valid_id id := id ≠ "ids";
  storable _ := True
}.
Next Obligation. intros C ? ? s rows [? _ _ _ _ _]. done. Qed.
Next Obligation.
  intros C ? ? s rows r Hrep Hid _ Hnew. simpl.
  pose proof (redis_store_ok _ _ _ _ Hrep Hid Hnew) as Hs.
  destruct (redis_store_pointer (prefix s) r (client s)) as [c x] eqn:E.
  injection E as <- <-. eexists. by split.
Qed.
Next Obligation.
  intros C ? ? s rows id Hrep Hid. simpl. unfold redis_retrieve_pointer.
  rewrite hget_hashes, (rr_hashes _ _ _ Hrep) by done. destruct (rows !! id) as [r|]; [|done].
  reflexivity.
Qed.
Next Obligation. intros C ? ? s rows inc now limit Hrep. by apply redis_list_ok. Qed.
Next Obligation.
  intros C ? ? s rows id Hrep Hid. simpl.
  destruct (redis_delete_ok _ _ _ _ Hrep Hid) as [Hr Hs].
  destruct (redis_delete_pointer (prefix s) id (client s)) as [c x]. simpl in *. subst.
  eexists. by split.
Qed.
Next Obligation. intros C ? ? s rows id Hrep. apply (rr_valid _ _ _ Hrep). Qed.

(** ** Cleaning up, proved against the contract *)

Definition expired_count (now : Z) (rows : gmap string pointer_row) : nat :=
  length (List.filter (λ kv, is_expired (expires_at_utc kv.2) now) (map_to_list rows)).

(** The expired rows, in listing order. *)
Definition expired_listings (now : Z) (rows : gmap string pointer_row) : list listing :=
  List.filter (λ l, is_expired (ls_expires_at_utc l) now)
    (merge_sort newest_first (listings true now rows)).

Definition delete_rows (ids : list string) (rows : gmap string pointer_row)
  : gmap string pointer_row := foldl (λ m id, delete id m) rows ids.

Lemma delete_rows_lookup ids rows i :
  delete_rows ids rows !! i = if decide (i ∈ ids) then None else rows !! i.
Proof.
  revert rows. induction ids as [|j ids IH]; intros rows; [done|].
  - change (delete_rows (j :: ids) rows) with (delete_rows ids (delete j rows)).
    rewrite IH. destruct (decide (i ∈ ids)) as [Hi|Hi].
    + by rewrite decide_True by by right.
    + destruct (decide (j = i)) as [->|Hne].
      * by rewrite lookup_delete_eq, decide_True by left.
      * rewrite lookup_delete_ne, decide_False by (done || set_solver). done.
Qed.

#[global] Instance List_filter_Permutation {A} (f : A → bool) :
  Proper ((≡ₚ) ==> (≡ₚ)) (List.filter f).
Proof.
  induction 1; simpl; repeat case_match; try done; try (by constructor); try (by f_equiv).
  by etrans.
Qed.

Lemma expired_count_delete now rows id r :
  rows !! id = Some r → is_expired (expires_at_utc r) now = true →
  expired_count now rows = S (expired_count now (delete id rows)).
Proof.
  intros Hr He. unfold expired_count. rewrite <- (map_to_list_delete rows id r Hr).
  simpl. by rewrite He.
Qed.

Lemma expired_listings_elem now rows l :
  map_Forall (λ id r, pointer_id r = id) rows →
  l ∈ expired_listings now rows →
  ∃ r, rows !! ls_pointer_id l = Some r ∧ is_expired (expires_at_utc r) now = true.
Proof.
  intros Hids. unfold expired_listings. rewrite elem_of_List_filter, merge_sort_Permutation.
  rewrite elem_of_listings by done. intros (He & r & Hr & -> & _). eauto.
Qed.

Lemma expired_listings_NoDup now rows :
  map_Forall (λ id r, pointer_id r = id) rows →
  NoDup (ls_pointer_id <$> expired_listings now rows).
Proof.
  intros Hids. unfold expired_listings.
  assert (Hf : ∀ (l : list listing) (f : listing → bool),
    NoDup (ls_pointer_id <$> l) → NoDup (ls_pointer_id <$> List.filter f l)).
  { induction l as [|x l IH]; intros f Hnd; csimpl in *; [done|].
    apply NoDup_cons in Hnd as [Hx Hnd]. destruct (f x); csimpl; [|auto].
    constructor; [|auto]. rewrite list_elem_of_fmap in Hx |- *.
    intros (y & Hy & Hin). apply Hx. exists y. split; [done|].
    by apply elem_of_List_filter in Hin as [_ ?]. }
  apply Hf. rewrite merge_sort_Permutation. unfold listings.
  rewrite (List_filter_ext _ (λ _, true)) by done.
  assert (Htrue : ∀ l : list listing, List.filter (λ _, true) l = l)
    by (induction l as [|x l IH]; simpl; [done|by rewrite IH]).
  rewrite Htrue.
  replace (ls_pointer_id <$> (to_listing now <$> (map_to_list rows).*2)) with (map_to_list rows).*1.
  - apply NoDup_fst_map_to_list.
  - rewrite <- !list_fmap_compose. apply list_fmap_ext. intros i [id r] Hin. simpl.
    symmetry. apply Hids. apply elem_of_map_to_list. by eapply list_elem_of_lookup_2.
Qed.

Lemma expired_listings_length now rows :
  length (expired_listings now rows) = expired_count now rows.
Proof.
  unfold expired_listings, expired_count. rewrite merge_sort_Permutation. unfold listings.
  induction (map_to_list rows) as [|[id r] l IH]; csimpl; [done|].
  destruct (is_expired (expires_at_utc r) now); simpl; auto.
Qed.

Section cleanup.
Context {S : Type} `{PointerStoreLaws S}.
Implicit Types (s : S) (rows : gmap string pointer_row).

Lemma list_expired_ok s rows now limit :
  represents s rows →
  list_expired_pointers now limit s =
    (if limit_ok limit then Ok (take_limit limit (expired_listings now rows)) else Raise bad_limit).
Proof.
  intros Hrep. unfold list_expired_pointers. destruct (limit_ok limit); simpl; [|done].
  rewrite (law_list _ _ true now None Hrep). done.
Qed.

Lemma delete_all_ok ids s rows acc :
  represents s rows → NoDup ids → Forall (λ id, is_Some (rows !! id)) ids →
  ∃ s', delete_all ids s acc = (s', Ok (acc ++ ids)) ∧ represents s' (delete_rows ids rows).
Proof.
  revert s rows acc. induction ids as [|id ids IH]; intros s rows acc Hrep Hnd Hin; simpl.
  - rewrite app_nil_r. by exists s.
  - apply NoDup_cons in Hnd as [Hid Hnd]. apply Forall_cons in Hin as [Hsome Hin].
    destruct (law_delete s rows id Hrep (law_valid _ _ _ Hrep Hsome)) as (s1 & -> & Hrep1).
    rewrite bool_decide_true by done.
    destruct (IH s1 (delete id rows) (acc ++ [id]) Hrep1 Hnd) as (s' & -> & Hrep').
    { rewrite Forall_forall in *. intros j Hj. rewrite lookup_delete_ne by set_solver. auto. }
    exists s'. by rewrite <- app_assoc.
Qed.

Lemma expired_count_delete_rows now ids rows :
  NoDup ids →
  Forall (λ id, ∃ r, rows !! id = Some r ∧ is_expired (expires_at_utc r) now = true) ids →
  expired_count now (delete_rows ids rows) = expired_count now rows - length ids.
Proof.
  revert rows. induction ids as [|id ids IH]; intros rows Hnd Hin; simpl; [lia|].
  apply NoDup_cons in Hnd as [Hid Hnd]. apply Forall_cons in Hin as [(r & Hr & He) Hin].
  change (expired_count now (delete_rows ids (delete id rows)) = expired_count now rows - Datatypes.S (length ids)).
  rewrite IH; [|done|].
  - rewrite (expired_count_delete now rows id r Hr He). lia.
  - rewrite Forall_forall in *. intros j Hj. rewrite lookup_delete_ne by set_solver. auto.
Qed.

(** For every lawful backend, a cleanup succeeds and deletes only expired
    pointers, each once: all of them without a limit and the [limit] newest
    ones otherwise; every other pointer survives unchanged, and the report's
    counts are exact. *)
Theorem cleanup_correct s rows now limit :
  represents s rows → limit_ok limit = true →
  ∃ s' report, cleanup_expired_pointers now limit s = (s', Ok report) ∧
    deleted_pointer_ids report = take_limit limit (ls_pointer_id <$> expired_listings now rows) ∧
    NoDup (deleted_pointer_ids report) ∧
    (∀ id, id ∈ deleted_pointer_ids report →
       ∃ r, rows !! id = Some r ∧ is_expired (expires_at_utc r) now = true) ∧
    represents s' (delete_rows (deleted_pointer_ids report) rows) ∧
    deleted_count report = length (deleted_pointer_ids report) ∧
    remaining_expired_count report = expired_count now rows - deleted_count report ∧
    (limit = None → remaining_expired_count report = 0).
Proof.
  intros Hrep Hlim. unfold cleanup_expired_pointers.
  rewrite (list_expired_ok s rows now limit Hrep), Hlim.
  pose proof (represents_ids _ _ Hrep) as Hids.
  rewrite take_limit_fmap. set (ids := take_limit limit (ls_pointer_id <$> expired_listings now rows)).
  assert (Hsub : ids `sublist_of` (ls_pointer_id <$> expired_listings now rows)).
  { unfold ids. destruct limit; [apply sublist_take|done]. }
  assert (Hnd : NoDup ids).
  { eapply sublist_NoDup; [|done]. by apply expired_listings_NoDup. }
  assert (Hexp : Forall (λ id, ∃ r, rows !! id = Some r ∧ is_expired (expires_at_utc r) now = true) ids).
  { apply Forall_forall. intros id Hid. pose proof (elem_of_sublist _ _ _ Hid Hsub) as Hin.
    apply list_elem_of_fmap in Hin as (l & -> & Hl). by apply expired_listings_elem. }
  destruct (delete_all_ok ids s rows [] Hrep Hnd) as (s' & -> & Hrep').
  { eapply Forall_impl; [exact Hexp|]. intros id (r & Hr & _). eauto. }
  rewrite (list_expired_ok s' _ now None Hrep'). simpl.
  eexists s', _. split; [done|]. simpl. rewrite expired_listings_length.
  rewrite (expired_count_delete_rows now ids rows Hnd Hexp).
  split_and!; try done; [by rewrite Forall_forall in Hexp|].
  intros ->. unfold ids. simpl. rewrite length_fmap, expired_listings_length. lia.
Qed.
End cleanup.

(** ** The backends agree *)

(** One call of the contract, and its answer. *)
Inductive call :=
  | Store (r : pointer_row)
  | Retrieve (id : string)
  | List_ (include_expired : bool) (now : Z) (limit : option Z)
  | Delete (id : string).

Inductive answer :=
  | Stored (x : result unit)
  | Retrieved (x : result string)
  | Listed (x : result (list listing))
  | Deleted (x : result bool).

Section calls.
Context {S : Type} `{PointerStoreBackend S}.

Definition perform (c : call) (s : S) : S * answer :=
  match c with
  | Store r => let '(s, x) := store_pointer r s in (s, Stored x)
  | Retrieve id => (s, Retrieved (retrieve_pointer id s))
  | List_ inc now limit => (s, Listed (list_pointers inc now limit s))
  | Delete id => let '(s, x) := delete_pointer id s in (s, Deleted x)
  end.

Fixpoint perform_all (cs : list call) (s : S) : S * list answer :=
  match cs with
  | [] => (s, [])
  | c :: cs => let '(s, a) := perform c s in
               let '(s, answers) := perform_all cs s in (s, a :: answers)
  end.
End calls.

(** The abstract store, for calls that never reuse an identifier. *)
Definition spec_perform (c : call) (rows : gmap string pointer_row)
  : gmap string pointer_row * answer :=
  match c with
  | Store r => (<[pointer_id r := r]> rows, Stored (Ok tt))
  | Retrieve id =>
      (rows, Retrieved (match rows !! id with Some r => Ok (raw_data r) | None => Raise (not_found id) end))
  | List_ inc now limit => (rows, Listed (spec_list inc now limit rows))
  | Delete id => (delete id rows, Deleted (Ok (bool_decide (is_Some (rows !! id)))))
  end.

Fixpoint spec_perform_all (cs : list call) (rows : gmap string pointer_row)
  : gmap string pointer_row * list answer :=
  match cs with
  | [] => (rows, [])
  | c :: cs => let '(rows, a) := spec_perform c rows in
               let '(rows, answers) := spec_perform_all cs rows in (rows, a :: answers)
  end.

(** Identifiers are stored while fresh ([StateManager] draws them from
    [uuid4]), and none is ["ids"], the key Redis keeps the index under. *)
Fixpoint calls_ok (cs : list call) (rows : gmap string pointer_row) : bool :=
  match cs with
  | [] => true
  | c :: cs =>
      match c with
      | Store r => bool_decide (rows !! pointer_id r = None) && bool_decide (pointer_id r ≠ "ids")
      | Retrieve id | Delete id => bool_decide (id ≠ "ids")
      | List_ _ _ _ => true
      end && calls_ok cs (spec_perform c rows).1
  end.

(** A call a lawful store takes. *)
Definition call_valid {S} `{PointerStoreLaws S} (c : call) : Prop :=
  match c with
  | Store r => valid_id (pointer_id r) ∧ storable r
  | Retrieve id | Delete id => valid_id id
  | List_ _ _ _ => True
  end.

Lemma perform_all_refines {S} `{PointerStoreLaws S} cs :
  Forall (call_valid (S := S)) cs → ∀ s rows, represents s rows → calls_ok cs rows = true →
  (perform_all cs s).2 = (spec_perform_all cs rows).2 ∧
  represents (perform_all cs s).1 (spec_perform_all cs rows).1.
Proof.
  induction cs as [|c cs IH]; intros Hvalid s rows Hrep Hok; [done|]. apply Forall_cons in Hvalid as [Hval Hvalid].
  cbn [calls_ok] in Hok. apply andb_true_iff in Hok as [Hc Hok].
  assert (∃ s', perform c s = (s', (spec_perform c rows).2) ∧ represents s' (spec_perform c rows).1)
    as (s' & Hp & Hrep').
  { destruct c as [r|id|inc now limit|id]; simpl in *.
    - apply andb_true_iff in Hc as [Hnew%bool_decide_eq_true _]. destruct Hval as [Hid Hst].
      destruct (law_store s rows r Hrep Hid Hst Hnew) as (s' & -> & Hrep'). by exists s'.
    - exists s. by rewrite (law_retrieve s rows id Hrep Hval).
    - exists s. by rewrite (law_list s rows inc now limit Hrep).
    - destruct (law_delete s rows id Hrep Hval) as (s' & -> & Hrep'). by exists s'. }
  cbn [perform_all spec_perform_all]. rewrite Hp.
  destruct (spec_perform c rows) as [rows1 a]. simpl in *.
  destruct (IH Hvalid s' rows1 Hrep' Hok) as [Ha Hr].
  destruct (perform_all cs s'), (spec_perform_all cs rows1). simpl in *. by subst.
Qed.

(** ** Concrete stores *)

(** A Redis database as two maps; a key is in at most one of them. *)
Record redis_db := {
  db_hashes : gmap string (gmap string field);
  db_sets : gmap string (gset string)
}.

Definition set_of (d : redis_db) (k : string) : gset string := default ∅ (db_sets d !! k).

#[export] Instance redis_db_client : RedisClient redis_db := {
  hset k kvs d := {| db_hashes := <[k := list_to_map (reverse kvs) ∪ default ∅ (db_hashes d !! k)]>
                                    (db_hashes d);
                     db_sets := db_sets d |};
  hget k f d := default ∅ (db_hashes d !! k) !! f;
  hgetall k d := default ∅ (db_hashes d !! k);
  sadd k x d := {| db_hashes := db_hashes d; db_sets := <[k := {[x]} ∪ set_of d k]> (db_sets d) |};
  smembers k d := elements (set_of d k);
  srem k x d := {| db_hashes := db_hashes d; db_sets := <[k := set_of d k ∖ {[x]}]> (db_sets d) |};
  del k d := ({| db_hashes := delete k (db_hashes d); db_sets := delete k (db_sets d) |},
              if db_hashes d !! k is Some _ then 1%Z else 0%Z)
}.

#[export] Program Instance redis_db_laws : RedisLaws redis_db := {
  hashes := db_hashes;
  members := set_of
}.
Next Obligation. done. Qed.
Next Obligation. done. Qed.
Next Obligation. done. Qed.
Next Obligation. done. Qed.
Next Obligation.
  intros k x d k' _. unfold set_of. simpl. case_decide as Hk; [subst|].
  - by rewrite lookup_insert_eq.
  - by rewrite lookup_insert_ne.
Qed.
Next Obligation. done. Qed.
Next Obligation. done. Qed.
Next Obligation.
  intros k x d k'. unfold set_of. simpl. case_decide as Hk; [subst|].
  - by rewrite lookup_insert_eq.
  - by rewrite lookup_insert_ne.
Qed.
Next Obligation. done. Qed.
Next Obligation. done. Qed.
Next Obligation.
  intros k d k'. unfold set_of. simpl. case_decide as Hk; [subst|].
  - by rewrite lookup_delete_eq.
  - by rewrite lookup_delete_ne.
Qed.
Next Obligation. done. Qed.

Definition empty_sqlite : sqlite := {| state_store := ∅; _closed := false |}.
Definition empty_redis : redis_store redis_db :=
  {| client := {| db_hashes := ∅; db_sets := ∅ |}; prefix := "eap:pointer_store" |}.

Lemma empty_sqlite_represents : represents empty_sqlite ∅.
Proof. by split_and!. Defined.

Lemma empty_redis_represents : represents empty_redis ∅.
Proof.
  constructor; simpl; try done; intros; rewrite ?lookup_empty in *; try done.
Defined.

Definition sample_row : pointer_row :=
  {| pointer_id := "ptr_1"; raw_data := "data"; summary := "s"; metadata := PDict [];
     created_at_utc := 10; ttl_seconds := Some 5%Z; expires_at_utc := Some 5000010%Z |}.
Definition sample_calls : list call :=
  [Store sample_row; List_ true 0 None; Retrieve "ptr_1"; Delete "ptr_1"; Retrieve "ptr_1"].

Definition one_row_store : sqlite := {| state_store := {["ptr_1" := sample_row]}; _closed := false |}.

Lemma cleanup_correct_witness :
  ∃ s' report, cleanup_expired_pointers 6000000 None one_row_store = (s', Ok report) ∧
    deleted_pointer_ids report =
      take_limit None (ls_pointer_id <$> expired_listings 6000000 {["ptr_1" := sample_row]}) ∧
    NoDup (deleted_pointer_ids report) ∧
    (∀ id, id ∈ deleted_pointer_ids report →
       ∃ r, ({["ptr_1" := sample_row]} : gmap string pointer_row) !! id = Some r ∧
         is_expired (expires_at_utc r) 6000000 = true) ∧
    represents s' (delete_rows (deleted_pointer_ids report) {["ptr_1" := sample_row]}) ∧
    deleted_count report = length (deleted_pointer_ids report) ∧
    remaining_expired_count report =
      expired_count 6000000 {["ptr_1" := sample_row]} - deleted_count report ∧
    (None = @None Z → remaining_expired_count report = 0).
Proof.
  apply (cleanup_correct (S := sqlite) one_row_store {["ptr_1" := sample_row]} 6000000 None).
  - split_and!; [done..|]. by apply map_Forall_singleton.
  - reflexivity.
Defined.
