(* ===== verification/PostgresStore.v ===== *)
(** The PostgreSQL pointer store ([eap/protocol/storage/postgres_store.py]):
    its client with its lazily opened pool, and the agreement of the three
    backends.  The server and its driver are third-party: a class with the
    laws of the statements used.  A [TIMESTAMPTZ] comes back as a wall clock
    in some time zone, a [JSONB] as text or as the decoded value. *)
From stdpp Require Import options.
From S2P Require Import Prelude Values Json PointerStore.
Unset Default Proof Using.

(** ** What the driver hands out *)

(** A [datetime]: microseconds on its clock, and the clock's offset. *)
Record datetime := { clock : Z; offset : option Z }.

(** [metadata_value]: text, nothing, or what the driver decoded. *)
Inductive json_cell := JText (v : pyval) | JNull | JValue (v : pyval).

(** A row of the query of [list_pointers]. *)
Record cells := {
  c_pointer_id : string;
  c_summary : string;
  c_metadata : json_cell;
  c_created_at : option datetime;
  c_ttl_seconds : option Z;
  c_expires_at : option datetime
}.

(** A table of a schema. *)
Record qualified := { q_schema : string; q_table : string }.

(** The statements, each of them one transaction: the objects of
    [initialize], [INSERT], the two [SELECT]s (rows that expire after an
    instant, a limit) and [DELETE] with its row count. *)
Class PostgresServer (D : Type) := {
  create_objects : qualified → D → D * result unit;
  insert_row : qualified → pointer_row → D → D * result unit;
  select_raw_data : qualified → string → D → result (option string);
  select_rows : qualified → option Z → option Z → D → result (list cells);
  delete_row : qualified → string → D → D * result Z
}.

(** ** [PsycopgPointerClient] *)

Definition code_in (lo hi : nat) (c : ascii) : bool := (lo <=? code c) && (code c <=? hi).
Definition identifier_start (c : ascii) : bool := code_in 65 90 c || code_in 97 122 c || code_in 95 95 c.
Definition identifier_char (c : ascii) : bool := identifier_start c || code_in 48 57 c.

(** What [$] leaves to match: one final newline may follow. *)
Fixpoint before_newline (cs : list ascii) : list ascii :=
  match cs with
  | [] => []
  | [c] => if code c =? 10 then [] else [c]
  | c :: cs => c :: before_newline cs
  end.

(** [IDENTIFIER_RE.match(value)] *)
Definition identifier_match (value : string) : bool :=
  match before_newline (String.list_ascii_of_string value) with
  | [] => false
  | c :: cs => identifier_start c && forallb identifier_char cs
  end.

(** [_validate_identifier] *)
Definition _validate_identifier (value field_name : string) : result string :=
  _ ← raise_if (negb (identifier_match value))
        (value_error ("Invalid PostgreSQL " +:+ field_name +:+ ": " +:+ repr_str value));
  Ok value.

(** The client, with what importing and opening [psycopg_pool.ConnectionPool]
    comes to. *)
Record psycopg_client := {
  table : qualified;
  _min_pool_size : Z;
  _max_pool_size : Z;
  _use_connection_pool : bool;
  pool_importable : bool;
  pool_opens : Z → Z → result unit;
  _pool : bool;
  _pool_init_attempted : bool
}.

(** [__init__] *)
Definition new_client (importable : bool) (opens : Z → Z → result unit) (schema table_name : string)
    (min_pool_size max_pool_size : Z) (use_connection_pool : bool) : result psycopg_client :=
  schema ← _validate_identifier schema "schema";
  table_name ← _validate_identifier table_name "table_name";
  let min := Z.max min_pool_size 0 in
  Ok {| table := {| q_schema := schema; q_table := table_name |};
        _min_pool_size := min;
        _max_pool_size := Z.max max_pool_size (if (min =? 0)%Z then 1 else min);
        _use_connection_pool := use_connection_pool; pool_importable := importable; pool_opens := opens;
        _pool := false; _pool_init_attempted := false |}.

Definition set_pool (pool attempted : bool) (c : psycopg_client) : psycopg_client :=
  {| table := table c; _min_pool_size := _min_pool_size c; _max_pool_size := _max_pool_size c;
     _use_connection_pool := _use_connection_pool c; pool_importable := pool_importable c; pool_opens := pool_opens c;
     _pool := pool; _pool_init_attempted := attempted |}.

(** [_get_or_create_pool]: whether there is a pool. *)
Definition _get_or_create_pool (c : psycopg_client) : psycopg_client * result bool :=
  if negb (_use_connection_pool c) then (c, Ok false)
  else if _pool c then (c, Ok true)
  else if _pool_init_attempted c then (c, Ok false)
  else
    let c := set_pool false true c in
    if negb (pool_importable c) then (c, Ok false)
    else match pool_opens c (_min_pool_size c) (_max_pool_size c) with
         | Raise e => (c, Raise e)
         | Ok _ => (set_pool true true c, Ok true)
         end.

(** [close] *)
Definition postgres_close (c : psycopg_client) : psycopg_client :=
  if _pool c then set_pool false (_pool_init_attempted c) c else c.

(** [_normalize_iso] *)
Definition _normalize_iso (value : option datetime) : option Z :=
  (λ d, clock d - default 0 (offset d))%Z <$> value.

(** The metadata of a listed row. *)
Definition metadata_of (cell : json_cell) : pyval :=
  match cell with JText v | JValue v => v | JNull => PDict [] end.

Definition listed (now : Z) (row : cells) : listing :=
  let expires_at := _normalize_iso (c_expires_at row) in
  {| ls_pointer_id := c_pointer_id row; ls_summary := c_summary row; ls_metadata := metadata_of (c_metadata row);
     ls_created_at_utc := default 0%Z (_normalize_iso (c_created_at row)); ls_ttl_seconds := c_ttl_seconds row;
     ls_expires_at_utc := expires_at; ls_is_expired := is_expired expires_at now |}.

(** ** The store: a client on a server *)
Record postgres (D : Type) := { pg_client : psycopg_client; server : D }.
Arguments pg_client {_} _.
Arguments server {_} _.

Section client.
Context {D : Type} `{PostgresServer D}.

(** [with self._connect() as conn] around one statement. *)
Definition connected {A} (statement : qualified → D → D * result A) : stm (postgres D) A := λ s,
  match _get_or_create_pool (pg_client s) with
  | (c, Raise e) => ({| pg_client := c; server := server s |}, Raise e)
  | (c, Ok _) =>
      let '(d, r) := statement (table c) (server s) in ({| pg_client := c; server := d |}, r)
  end.

Definition postgres_initialize : stm (postgres D) unit := connected create_objects.

Definition insert_pointer (r : pointer_row) : stm (postgres D) unit := connected (λ t, insert_row t r).

Definition postgres_retrieve_pointer (id : string) : stm (postgres D) string :=
  row ← connected (λ t d, (d, select_raw_data t id d));
  match row with
  | Some raw => mret raw
  | None => st_raise (not_found id)
  end.

Definition postgres_list_pointers (include_expired : bool) (now : Z) (limit : option Z) : stm (postgres D) (list listing) :=
  st_raise_if (negb (limit_ok limit)) bad_limit;;
  rows ← connected (λ t d, (d, select_rows t (if include_expired then None else Some now) limit d));
  mret (listed now <$> rows).

Definition postgres_delete_pointer (id : string) : stm (postgres D) bool :=
  rowcount ← connected (λ t, delete_row t id);
  mret (0 <? rowcount)%Z.
End client.

(** [PostgresPointerStore] under the contract; its reads return no state there,
    so that a pool one of them opens is opened again. *)
#[export] Instance postgres_backend {D} `{PostgresServer D} : PointerStoreBackend (postgres D) := {
  store_pointer r s := insert_pointer r s;
  retrieve_pointer id s := (postgres_retrieve_pointer id s).2;
  list_pointers b now limit s := (postgres_list_pointers b now limit s).2;
  delete_pointer id s := postgres_delete_pointer id s
}.

(** The calls of the contract on one client, its pool kept from call to call. *)
Definition postgres_perform {D} `{PostgresServer D} (c : call) : stm (postgres D) answer := λ s,
  match c with
  | Store r => let '(s, x) := insert_pointer r s in (s, Ok (Stored x))
  | Retrieve id => let '(s, x) := postgres_retrieve_pointer id s in (s, Ok (Retrieved x))
  | List_ inc now limit => let '(s, x) := postgres_list_pointers inc now limit s in (s, Ok (Listed x))
  | Delete id => let '(s, x) := postgres_delete_pointer id s in (s, Ok (Deleted x))
  end.

Fixpoint postgres_perform_all {D} `{PostgresServer D} (cs : list call) (s : postgres D) : postgres D * list (result answer) :=
  match cs with
  | [] => (s, [])
  | c :: cs => let '(s, a) := postgres_perform c s in
               let '(s, answers) := postgres_perform_all cs s in (s, a :: answers)
  end.

(** ** Laws of the server *)

(** Text has no NUL, an [INTEGER] 32 bits. *)
Definition nul_free (s : string) : bool := forallb (λ c, negb (code c =? 0)) (String.list_ascii_of_string s).
Definition int4 (z : Z) : bool := (-2147483648 <=? z)%Z && (z <=? 2147483647)%Z.
Definition fits (r : pointer_row) : bool :=
  nul_free (pointer_id r) && nul_free (raw_data r) && nul_free (summary r) &&
  match ttl_seconds r with Some t => int4 t | None => true end.

(** A row comes back as it was stored, its instants in any time zone. *)
Definition comes_back (r : pointer_row) (row : cells) : Prop :=
  c_pointer_id row = pointer_id r ∧ c_summary row = summary r ∧
  (c_metadata row = JText (metadata r) ∨ c_metadata row = JValue (metadata r)) ∧
  _normalize_iso (c_created_at row) = Some (created_at_utc r) ∧ c_ttl_seconds row = ttl_seconds r ∧
  _normalize_iso (c_expires_at row) = expires_at_utc r.

(** [ORDER BY created_at_utc DESC, pointer_id DESC] where the database's
    collation puts texts in the order [le]. *)
Definition row_order_by (le : string → string → bool) (a b : pointer_row) : Prop :=
  (created_at_utc b < created_at_utc a)%Z ∨ created_at_utc a = created_at_utc b ∧ le (pointer_id b) (pointer_id a) = true.
#[export] Instance row_order_by_dec le : RelDecision (row_order_by le).
Proof. unfold row_order_by. intros a b. apply _. Defined.

(** Documented behaviour of the statements: [jsonb] is the normal form in
    which [JSONB] keeps a value, [collation] the order of texts in the
    database, which neither the schema nor the query chooses. *)
Class PostgresLaws (D : Type) `{PostgresServer D} := {
  rows_of : D → qualified → option (gmap string pointer_row);
  jsonb : pyval → pyval;
  collation : string → string → bool;
  create_law t d : identifier_start <$> head (String.list_ascii_of_string (q_table t)) = Some true →
    forallb identifier_char (String.list_ascii_of_string (q_table t)) = true →
    ∃ d', create_objects t d = (d', Ok tt) ∧ rows_of d' t = Some (default ∅ (rows_of d t));
  insert_law t r rows d : rows_of d t = Some rows → fits r = true → jsonb (metadata r) = metadata r → rows !! pointer_id r = None →
    ∃ d', insert_row t r d = (d', Ok tt) ∧ rows_of d' t = Some (<[pointer_id r := r]> rows);
  raw_law t id rows d : rows_of d t = Some rows → nul_free id = true →
    select_raw_data t id d = Ok (raw_data <$> rows !! id);
  select_law t after limit rows d : rows_of d t = Some rows → limit_ok limit = true →
    ∃ l, select_rows t after limit d = Ok l ∧
      Forall2 comes_back (take_limit limit (merge_sort (row_order_by collation) (List.filter (λ r,
        match after with Some now => match expires_at_utc r with None => true | Some e => (now <? e)%Z end | None => true end)
        (map_to_list rows).*2))) l;
  delete_law t id rows d : rows_of d t = Some rows → nul_free id = true →
    ∃ d', delete_row t id d = (d', Ok (if rows !! id is Some _ then 1 else 0)%Z) ∧ rows_of d' t = Some (delete id rows)
}.

(** A database whose collation compares texts byte by byte, as [C] does. *)
Class ByteCollation (D : Type) `{PostgresLaws D} := bytewise : ∀ a b, collation (D := D) a b = true ↔ String.le a b.

(** Sorting depends on what the order says only. *)
Lemma merge_list_ext {A} (R R' : relation A) `{!RelDecision R, !RelDecision R'} l1 l2 : (∀ x y, R x y ↔ R' x y) →
  list_merge R l1 l2 = list_merge R' l1 l2.
Proof.
  intros HR. revert l2. induction l1 as [|x1 l1 IH1]; intros l2; [by destruct l2|].
  induction l2 as [|x2 l2 IH2]; [done|]. cbn. rewrite <- (decide_ext _ _ _ _ (HR x1 x2)). case_decide; f_equal; [apply IH1|apply IH2].
Qed.
Lemma merge_sort_ext {A} (R R' : relation A) `{!RelDecision R, !RelDecision R'} l : (∀ x y, R x y ↔ R' x y) → merge_sort R l = merge_sort R' l.
Proof.
  intros HR. assert (∀ st l, merge_list_to_stack R st l = merge_list_to_stack R' st l) as Hstack.
  { induction st as [|[l1|] st IH]; intros l1'; cbn; [done| |done]. by rewrite (merge_list_ext R R'), IH. }
  assert (∀ st, merge_stack R st = merge_stack R' st) as Hall.
  { induction st as [|[l1|] st IH]; cbn; [done| |done]. by rewrite (merge_list_ext R R'), IH. }
  assert (∀ st, merge_sort_aux R st l = merge_sort_aux R' st l) as Haux; [|apply Haux].
  induction l as [|x l IH]; intros st; cbn; [apply Hall|]. by rewrite Hstack, IH.
Qed.

Section laws.
Context {D : Type} {PS : PostgresServer D} {PL : PostgresLaws D} {BC : ByteCollation D}.

Lemma row_order_bytes l : merge_sort (row_order_by (collation (D := D))) l = merge_sort row_order l.
Proof. apply merge_sort_ext. intros x y. unfold row_order_by, row_order. by rewrite bytewise. Qed.

Record postgres_represents (s : postgres D) (rows : gmap string pointer_row) : Prop := {
  pr_rows : rows_of (server s) (table (pg_client s)) = Some rows;
  pr_ids : map_Forall (λ id r, pointer_id r = id) rows;
  pr_fits : map_Forall (λ _ r, fits r = true) rows;
  pr_opens a b : pool_opens (pg_client s) a b = Ok tt
}.

Lemma pool_found c : (∀ a b, pool_opens c a b = Ok tt) →
  ∃ b, (_get_or_create_pool c).2 = Ok b ∧ table (_get_or_create_pool c).1 = table c ∧
       pool_opens (_get_or_create_pool c).1 = pool_opens c.
Proof.
  intros Ho. unfold _get_or_create_pool. repeat case_match; simpl in *; eauto.
  by rewrite Ho in *.
Qed.

(** One statement, seen by its client. *)
Lemma connected_run {A} (statement : qualified → D → D * result A) s rows d r rows' :
  postgres_represents s rows → statement (table (pg_client s)) (server s) = (d, r) →
  rows_of d (table (pg_client s)) = Some rows' → map_Forall (λ id r, pointer_id r = id) rows' →
  map_Forall (λ _ r, fits r = true) rows' →
  ∃ s', connected statement s = (s', r) ∧ postgres_represents s' rows'.
Proof.
  intros Hrep Hrun Hrows Hids Hfits. destruct (pool_found (pg_client s) (pr_opens s rows Hrep)) as (b & Hb & Ht & Ho).
  unfold connected. destruct (_get_or_create_pool (pg_client s)) as [c x]. simpl in *. subst x. rewrite Ht, Hrun.
  eexists. split; [done|]. split; simpl; [by rewrite Ht|done..|]. intros a b'. rewrite Ho. apply (pr_opens s rows Hrep).
Qed.

Lemma connected_read {A} (q : qualified → D → result A) s rows x :
  postgres_represents s rows → q (table (pg_client s)) (server s) = x →
  ∃ s', connected (λ t d, (d, q t d)) s = (s', x) ∧ postgres_represents s' rows.
Proof.
  intros Hrep <-. eapply connected_run; [done..|apply Hrep|apply Hrep|apply Hrep].
Qed.

Lemma insert_run s rows r : postgres_represents s rows → fits r = true → jsonb (metadata r) = metadata r →
  rows !! pointer_id r = None → ∃ s', insert_pointer r s = (s', Ok tt) ∧ postgres_represents s' (<[pointer_id r := r]> rows).
Proof.
  intros Hrep Hf Hj Hnew. destruct (insert_law _ r rows _ (pr_rows s rows Hrep) Hf Hj Hnew) as (d & Hd & Hrows).
  eapply connected_run; [done..| |]; apply map_Forall_insert_2; try done; apply Hrep.
Qed.

Lemma retrieve_run s rows id : postgres_represents s rows → nul_free id = true →
  ∃ s', postgres_retrieve_pointer id s =
          (s', match rows !! id with Some r => Ok (raw_data r) | None => Raise (not_found id) end) ∧ postgres_represents s' rows.
Proof.
  intros Hrep Hid. unfold postgres_retrieve_pointer, mbind, stm_bind.
  destruct (connected_read (λ t, select_raw_data t id) s rows _ Hrep (raw_law _ id rows _ (pr_rows s rows Hrep) Hid))
    as (s' & -> & Hrep'). exists s'. split; [|done]. by destruct (rows !! id).
Qed.

Lemma listed_row now r row : comes_back r row → listed now row = to_listing now r.
Proof.
  intros (H1 & H2 & H3 & H4 & H5 & H6). unfold listed, to_listing. rewrite H1, H2, H4, H5, H6. simpl. f_equal.
  by destruct H3 as [-> | ->].
Qed.

Lemma list_run inc now limit s rows : postgres_represents s rows →
  ∃ s', postgres_list_pointers inc now limit s = (s', spec_list inc now limit rows) ∧ postgres_represents s' rows.
Proof.
  intros Hrep. unfold postgres_list_pointers, spec_list, mbind, stm_bind, st_raise_if, st_lift.
  destruct (limit_ok limit) eqn:Hlim; simpl; [|by exists s].
  destruct (select_law _ (if inc then None else Some now) limit rows _ (pr_rows s rows Hrep) Hlim) as (l & Hl & Hback). rewrite row_order_bytes in Hback.
  destruct (connected_read (λ t, select_rows t (if inc then None else Some now) limit) s rows _ Hrep Hl) as (s' & -> & Hrep').
  exists s'. split; [|done]. unfold mret, stm_ret. do 2 f_equal. fold (listings inc now rows).
  rewrite <- (selected_listed inc now limit rows (pr_ids s rows Hrep)).
  erewrite List_filter_ext in Hback; [|intros r; instantiate (1 := λ r, inc || match expires_at_utc r with None => true | Some e => (now <? e)%Z end); by destruct inc].
  clear Hl. revert Hback. generalize (take_limit limit (merge_sort row_order (List.filter (λ r, inc ||
    match expires_at_utc r with None => true | Some e => (now <? e)%Z end) (map_to_list rows).*2))).
  induction 1 as [|r row rs l Hr _ IH]; csimpl; [done|]. by rewrite (listed_row now r row Hr), IH.
Qed.

Lemma delete_run s rows id : postgres_represents s rows → nul_free id = true →
  ∃ s', postgres_delete_pointer id s = (s', Ok (bool_decide (is_Some (rows !! id)))) ∧ postgres_represents s' (delete id rows).
Proof.
  intros Hrep Hid. unfold postgres_delete_pointer, mbind, stm_bind.
  destruct (delete_law _ id rows _ (pr_rows s rows Hrep) Hid) as (d & Hd & Hrows).
  destruct (connected_run (λ t, delete_row t id) s rows d _ (delete id rows) Hrep Hd Hrows) as (s' & -> & Hrep');
    [apply map_Forall_delete; apply Hrep..|]. exists s'. split; [|done].
  by destruct (rows !! id).
Qed.

(** A closed client goes on without a pool. *)
Lemma close_run s rows : postgres_represents s rows →
  postgres_represents {| pg_client := postgres_close (pg_client s); server := server s |} rows.
Proof. intros Hrep. unfold postgres_close. destruct (_pool _); [|by destruct s]. by destruct Hrep. Qed.
End laws.

(** The store keeps the contract, for rows that fit and metadata that [JSONB]
    leaves alone. *)
#[local] Obligation Tactic := idtac.
#[export] Program Instance postgres_laws {D} `{ByteCollation D} : PointerStoreLaws (postgres D) := {
  represents := postgres_represents;
  valid_id id := nul_free id = true;
  storable r := fits r = true ∧ jsonb (metadata r) = metadata r
}.
Next Obligation. intros D ? ? ? s rows Hrep. apply Hrep. Qed.
Next Obligation. intros D ? ? ? s rows r Hrep _ [Hf Hj] Hnew. by apply insert_run. Qed.
Next Obligation. intros D ? ? ? s rows id Hrep Hid. simpl. by destruct (retrieve_run s rows id Hrep Hid) as (s' & -> & _). Qed.
Next Obligation. intros D ? ? ? s rows inc now limit Hrep. simpl. by destruct (list_run inc now limit s rows Hrep) as (s' & -> & _). Qed.
Next Obligation. intros D ? ? ? s rows id Hrep Hid. by apply delete_run. Qed.
Next Obligation.
  intros D ? ? ? s rows id Hrep [r Hr]. pose proof (pr_fits s rows Hrep id r Hr) as Hf. simpl in Hf.
  rewrite <- (pr_ids s rows Hrep id r Hr). unfold fits in Hf. by repeat (apply andb_true_iff in Hf as [Hf ?]).
Qed.

(** The same answers when the client keeps its pool. *)
Lemma postgres_run {D} `{ByteCollation D} cs : Forall (call_valid (S := postgres D)) cs →
  ∀ s rows, postgres_represents s rows → calls_ok cs rows = true →
  (postgres_perform_all cs s).2 = Ok <$> (spec_perform_all cs rows).2.
Proof.
  induction cs as [|c cs IH]; intros Hvalid s rows Hrep Hok; [done|]. apply Forall_cons in Hvalid as [Hval Hvalid].
  cbn [calls_ok] in Hok. apply andb_true_iff in Hok as [Hc Hok].
  assert (∃ s', postgres_perform c s = (s', Ok (spec_perform c rows).2) ∧ postgres_represents s' (spec_perform c rows).1)
    as (s' & Hp & Hrep').
  { destruct c as [r|id|inc now limit|id]; simpl in *.
    - apply andb_true_iff in Hc as [Hnew%bool_decide_eq_true _]. destruct Hval as [Hid [Hf Hj]].
      destruct (insert_run s rows r Hrep Hf Hj Hnew) as (s' & -> & Hrep'). by exists s'.
    - destruct (retrieve_run s rows id Hrep Hval) as (s' & -> & Hrep'). by exists s'.
    - destruct (list_run inc now limit s rows Hrep) as (s' & -> & Hrep'). by exists s'.
    - destruct (delete_run s rows id Hrep Hval) as (s' & -> & Hrep'). by exists s'. }
  cbn [postgres_perform_all spec_perform_all]. rewrite Hp. destruct (spec_perform c rows) as [rows1 a]. simpl in *.
  specialize (IH Hvalid s' rows1 Hrep' Hok). destruct (postgres_perform_all cs s'), (spec_perform_all cs rows1). simpl in *.
  by subst.
Qed.

(** C29: over any sequence of calls that stores fresh identifiers, a SQLite
    store, a Redis store and a PostgreSQL store that start empty give the same
    answers, those of one map from identifiers to rows listed newest first; for
    PostgreSQL the rows are to fit its columns and its collation to compare
    identifiers byte by byte (it orders those stored at one instant), and a
    closed client still answers. *)
Theorem backends_agree {C D} `{RedisLaws C} `{ByteCollation D} cs (s : sqlite) (r : redis_store C) (p : postgres D) :
  represents s ∅ → represents r ∅ → represents p ∅ → calls_ok cs ∅ = true → Forall (call_valid (S := postgres D)) cs →
  (perform_all cs s).2 = (spec_perform_all cs ∅).2 ∧
  (perform_all cs r).2 = (spec_perform_all cs ∅).2 ∧
  (postgres_perform_all cs p).2 = Ok <$> (spec_perform_all cs ∅).2 ∧
  (postgres_perform_all cs {| pg_client := postgres_close (pg_client p); server := server p |}).2 =
    Ok <$> (spec_perform_all cs ∅).2.
Proof.
  intros Hs Hr Hp Hok Hval. split_and!.
  - apply (perform_all_refines (S := sqlite) cs); [|done..]. apply Forall_forall. by intros [] _.
  - apply (perform_all_refines (S := redis_store C) cs); [|done..]. clear -Hok. revert Hok. generalize (∅ : gmap string pointer_row).
    induction cs as [|c cs IH]; intros rows Hok; [constructor|]. cbn [calls_ok] in Hok. apply andb_true_iff in Hok as [Hc Hok].
    constructor; [|by eapply IH]. destruct c; simpl; [|by apply bool_decide_eq_true in Hc|done|by apply bool_decide_eq_true in Hc].
    by apply andb_true_iff in Hc as [_ Hc%bool_decide_eq_true].
  - by apply postgres_run.
  - apply postgres_run; [done| |done]. by apply close_run.
Qed.

(** An accepted identifier, but for one newline at its end, is a plain name. *)
Lemma identifier_plain value field : _validate_identifier value field = Ok value →
  ∃ c cs, before_newline (String.list_ascii_of_string value) = c :: cs ∧ identifier_start c = true ∧ forallb identifier_char cs = true.
Proof.
  unfold _validate_identifier. destruct (identifier_match value) eqn:Hm; [|done]. intros _. unfold identifier_match in Hm.
  destruct (before_newline _) as [|c cs]; [done|]. apply andb_true_iff in Hm as [? ?]. eauto.
Qed.

Example newline_accepted : _validate_identifier ("state" +:+ String (Ascii.ascii_of_nat 10) "") "table_name" =
  Ok ("state" +:+ String (Ascii.ascii_of_nat 10) "").
Proof. reflexivity. Qed.

(** ** A concrete server, in the time zone +02:00 *)

#[export] Instance qualified_eq_dec : EqDecision qualified.
Proof. solve_decision. Defined.

Definition pg_db := qualified → option (gmap string pointer_row).
Definition pg_set (t : qualified) (rows : gmap string pointer_row) (d : pg_db) : pg_db :=
  λ t', if decide (t' = t) then Some rows else d t'.
Definition in_zone (t : Z) : datetime := {| clock := t + 7200000000; offset := Some 7200000000%Z |}.
Definition to_cells (r : pointer_row) : cells :=
  {| c_pointer_id := pointer_id r; c_summary := summary r; c_metadata := JValue (metadata r);
     c_created_at := Some (in_zone (created_at_utc r)); c_ttl_seconds := ttl_seconds r;
     c_expires_at := in_zone <$> expires_at_utc r |}.
Definition undefined_table : exn := Exn (OtherError "UndefinedTable") "relation does not exist".
Definition on_table {A} (t : qualified) (d : pg_db) (f : gmap string pointer_row → pg_db * result A) : pg_db * result A :=
  match d t with Some rows => f rows | None => (d, Raise undefined_table) end.

#[export] Instance pg_db_server : PostgresServer pg_db := {
  create_objects t d := (pg_set t (default ∅ (d t)) d, Ok tt);
  insert_row t r d := on_table t d (λ rows,
    if bool_decide (rows !! pointer_id r = None) && fits r then (pg_set t (<[pointer_id r := r]> rows) d, Ok tt)
    else (d, Raise (Exn (OtherError "DataError") "")));
  select_raw_data t id d := (on_table t d (λ rows, (d, Ok (raw_data <$> rows !! id)))).2;
  select_rows t after limit d := (on_table t d (λ rows, (d, Ok (to_cells <$> take_limit limit (merge_sort row_order (List.filter (λ r,
        match after with Some now => match expires_at_utc r with None => true | Some e => (now <? e)%Z end | None => true end)
        (map_to_list rows).*2)))))).2;
  delete_row t id d := on_table t d (λ rows, (pg_set t (delete id rows) d, Ok (if rows !! id is Some _ then 1 else 0)%Z))
}.

Lemma pg_set_eq t rows d : pg_set t rows d t = Some rows.
Proof. unfold pg_set. by rewrite decide_True. Qed.

Lemma to_cells_back r : comes_back r (to_cells r).
Proof.
  unfold comes_back, to_cells, _normalize_iso, in_zone. simpl. split_and!; try done; [by right|f_equal; lia|].
  destruct (expires_at_utc r); simpl; [f_equal; lia|done].
Qed.

#[export] Program Instance pg_db_laws : PostgresLaws pg_db := {
  rows_of d t := d t; jsonb m := m; collation a b := bool_decide (String.le a b)
}.
Next Obligation. intros t d _ _. simpl. eexists. split; [done|]. apply pg_set_eq. Qed.
Next Obligation.
  intros t r rows d Hd Hf _ Hnew. simpl. unfold on_table. rewrite Hd, Hf, bool_decide_true by done. simpl.
  eexists. split; [done|]. apply pg_set_eq.
Qed.
Next Obligation. intros t id rows d Hd _. simpl. unfold on_table. by rewrite Hd. Qed.
Next Obligation.
  intros t after limit rows d Hd _. simpl. unfold on_table. rewrite Hd. eexists. split; [done|].
  rewrite (merge_sort_ext _ row_order) by (intros x y; unfold row_order_by, row_order; by rewrite bool_decide_eq_true).
  apply Forall2_fmap_r, Forall_Forall2_diag, Forall_true. apply to_cells_back.
Qed.
Next Obligation.
  intros t id rows d Hd _. simpl. unfold on_table. rewrite Hd. eexists. split; [done|]. apply pg_set_eq.
Qed.

#[export] Instance pg_db_bytes : ByteCollation pg_db.
Proof. intros a b. apply bool_decide_eq_true. Qed.

Definition sample_client : psycopg_client :=
  match new_client true (λ _ _, Ok tt) "public" "eap_state_store" 1 10 true with
  | Ok c => c
  | Raise _ => {| table := {| q_schema := ""; q_table := "" |}; _min_pool_size := 0; _max_pool_size := 0;
                  _use_connection_pool := false; pool_importable := false; pool_opens := λ _ _, Ok tt; _pool := false;
                  _pool_init_attempted := false |}
  end.
Definition empty_postgres : postgres pg_db :=
  (postgres_initialize {| pg_client := sample_client; server := λ _, None |}).1.

Lemma backends_agree_witness :
  (perform_all sample_calls empty_sqlite).2 = (spec_perform_all sample_calls ∅).2 ∧
  (perform_all sample_calls empty_redis).2 = (spec_perform_all sample_calls ∅).2 ∧
  (postgres_perform_all sample_calls empty_postgres).2 = Ok <$> (spec_perform_all sample_calls ∅).2.
Proof.
  destruct (backends_agree sample_calls empty_sqlite empty_redis empty_postgres) as (H1 & H2 & H3 & _).
  - apply empty_sqlite_represents.
  - apply empty_redis_represents.
  - split; [reflexivity|apply map_Forall_empty|apply map_Forall_empty|reflexivity].
  - vm_compute. reflexivity.
  - repeat constructor.
  - exact (conj H1 (conj H2 H3)).
Defined.
