(* ===== verification/StateManager.v ===== *)
(** Run and conversation state: [eap/protocol/state_manager.py] over any
    pointer-store backend.  Each table is its rows: a finite map where the
    primary key is the lookup key, a list in [rowid] order where the code
    scans rows.  A JSON column is the value it encodes; a method takes the
    clock reading and the fresh identifier it uses as arguments.  [ORDER BY]
    on a column with ties, which SQL leaves open, keeps table order. *)
From stdpp Require Import options.
From S2P Require Import Prelude Values Json Models PointerStore.
Unset Default Proof Using.

(** Stored trace events carry no actor fields: those are read back from the
    run's metadata. *)
Record summary_row := {
  sr_started_at_utc : Z;
  sr_completed_at_utc : Z;
  total_steps : Z;
  succeeded_steps : Z;
  failed_steps : Z;
  total_duration_ms : Q;
  sr_final_pointer_id : option string
}.

Record checkpoint_row := {
  started_at_utc : Z;
  updated_at_utc : Z;
  status : string;
  macro_payload : pyval;
  step_status : pyval;
  branch_decisions : pyval;
  final_pointer_id : option string;
  actor_metadata : option pyval   (* [None] is SQL NULL *)
}.

Record state_manager (S : Type) := {
  pointer_store : S;
  sm_closed : bool;
  execution_trace_events : list ExecutionTraceEvent;     (* event_id order *)
  execution_run_summaries : gmap string summary_row;
  execution_run_checkpoints : gmap string checkpoint_row;
  execution_run_diagnostics : gmap string (Z * pyval);
  conversation_sessions : gmap string ConversationSession;
  conversation_turns : list ConversationTurn              (* rowid order *)
}.
Arguments pointer_store {_} _.
Arguments sm_closed {_} _.
Arguments execution_trace_events {_} _.
Arguments execution_run_summaries {_} _.
Arguments execution_run_checkpoints {_} _.
Arguments execution_run_diagnostics {_} _.
Arguments conversation_sessions {_} _.
Arguments conversation_turns {_} _.

Definition set_store {S} (x : S) (m : state_manager S) : state_manager S :=
  {| pointer_store := x; sm_closed := sm_closed m;
     execution_trace_events := execution_trace_events m;
     execution_run_summaries := execution_run_summaries m;
     execution_run_checkpoints := execution_run_checkpoints m;
     execution_run_diagnostics := execution_run_diagnostics m;
     conversation_sessions := conversation_sessions m; conversation_turns := conversation_turns m |}.
Definition set_events {S} x (m : state_manager S) : state_manager S :=
  {| pointer_store := pointer_store m; sm_closed := sm_closed m;
     execution_trace_events := x;
     execution_run_summaries := execution_run_summaries m;
     execution_run_checkpoints := execution_run_checkpoints m;
     execution_run_diagnostics := execution_run_diagnostics m;
     conversation_sessions := conversation_sessions m; conversation_turns := conversation_turns m |}.
Definition set_summaries {S} x (m : state_manager S) : state_manager S :=
  {| pointer_store := pointer_store m; sm_closed := sm_closed m;
     execution_trace_events := execution_trace_events m;
     execution_run_summaries := x;
     execution_run_checkpoints := execution_run_checkpoints m;
     execution_run_diagnostics := execution_run_diagnostics m;
     conversation_sessions := conversation_sessions m; conversation_turns := conversation_turns m |}.
Definition set_checkpoints {S} x (m : state_manager S) : state_manager S :=
  {| pointer_store := pointer_store m; sm_closed := sm_closed m;
     execution_trace_events := execution_trace_events m;
     execution_run_summaries := execution_run_summaries m;
     execution_run_checkpoints := x;
     execution_run_diagnostics := execution_run_diagnostics m;
     conversation_sessions := conversation_sessions m; conversation_turns := conversation_turns m |}.
Definition set_diagnostics {S} x (m : state_manager S) : state_manager S :=
  {| pointer_store := pointer_store m; sm_closed := sm_closed m;
     execution_trace_events := execution_trace_events m;
     execution_run_summaries := execution_run_summaries m;
     execution_run_checkpoints := execution_run_checkpoints m;
     execution_run_diagnostics := x;
     conversation_sessions := conversation_sessions m; conversation_turns := conversation_turns m |}.
Definition set_conversations {S} x y (m : state_manager S) : state_manager S :=
  {| pointer_store := pointer_store m; sm_closed := sm_closed m;
     execution_trace_events := execution_trace_events m;
     execution_run_summaries := execution_run_summaries m;
     execution_run_checkpoints := execution_run_checkpoints m;
     execution_run_diagnostics := execution_run_diagnostics m;
     conversation_sessions := x; conversation_turns := y |}.

(** pydantic raises [ValidationError] where a validator raised [ValueError]
    and where a field bound fails. *)
Definition validated {A} (fields_ok : bool) (r : result A) : result A :=
  if fields_ok then
    match r with
    | Ok a => Ok a
    | Raise e => Raise (Exn (if is_value_error (exn_cls e) then ValidationError else exn_cls e) (exn_msg e))
    end
  else Raise (Exn ValidationError "field constraint").

(** [LIMIT ?]: SQLite reads a negative number as no limit. *)
Definition sql_limit {A} (limit : Z) (l : list A) : list A :=
  if (limit <? 0)%Z then l else take (Z.to_nat limit) l.

Section state_manager.
Context {S : Type} `{PointerStoreBackend S}.
(** The shortest decimal text of a float, and [sys.getsizeof]. *)
Context (float_repr : Q → string) (getsizeof : pyval → Z).

Abbreviation M := (stm (state_manager S)).

(** [with self._connection() as conn] *)
Definition _connection : M unit := λ m,
  (m, raise_if (sm_closed m) (Exn RuntimeError "StateManager connection is closed.")).

(** A call on [self.pointer_store]. *)
Definition on_store {A} (f : S → S * result A) : M A := λ m,
  let '(x, r) := f (pointer_store m) in (set_store x m, r).

(** ** Pointers *)

Definition opt_value {A} (f : A → pyval) (o : option A) : pyval :=
  match o with Some a => f a | None => PNone end.

(** [store_and_point].  [metadata or {}]: a caller's non-empty dictionary is
    written to in place, before [ttl_seconds] is checked; the first component
    is what the caller's dictionary holds afterwards.  Instants stand for
    their ISO texts, here as integers. *)
Definition store_and_point (now : Z) (pointer_id : string) (raw : pyval) (summary : string)
    (metadata : list (string * pyval)) (ttl_seconds : pyval)
  : state_manager S → list (string * pyval) * (state_manager S * result (list (string * pyval))) :=
  λ m,
  let meta := dict_set metadata "size_bytes" (PInt (getsizeof raw)) in
  let shared d := if is_nil metadata then metadata else d in
  match (match ttl_seconds with
         | PNone => Ok None
         | PInt t => _ ← raise_if (t <=? 0)%Z (value_error "ttl_seconds must be > 0 when provided.");
                     Ok (Some t)
         | _ => Raise (value_error "ttl_seconds must be an integer when provided.")
         end) with
  | Raise e => (shared meta, (m, Raise e))
  | Ok ttl =>
      let expires := (λ t, now + t * 1000000)%Z <$> ttl in
      let meta := dict_set meta "created_at_utc" (PInt now) in
      let meta := dict_set meta "ttl_seconds" (opt_value PInt ttl) in
      let meta := dict_set meta "expires_at_utc" (opt_value PInt expires) in
      (shared meta,
       (on_store (PointerStore.store_pointer
          {| PointerStore.pointer_id := pointer_id; raw_data := py_str float_repr raw;
             PointerStore.summary := summary; PointerStore.metadata := PDict meta;
             created_at_utc := now; PointerStore.ttl_seconds := ttl; expires_at_utc := expires |});;
        mret [("pointer_id", PStr pointer_id); ("summary", PStr summary); ("metadata", PDict meta)])
         m)
  end.

Definition retrieve (pointer_id : string) : M string :=
  on_store (λ x, (x, retrieve_pointer pointer_id x)).

Definition sm_list_pointers (include_expired : bool) (now : Z) (limit : option Z) : M (list listing) :=
  on_store (λ x, (x, list_pointers include_expired now limit x)).

Definition sm_list_expired_pointers (now : Z) (limit : option Z) : M (list listing) :=
  on_store (λ x, (x, list_expired_pointers now limit x)).

(** [delete_pointer] *)
Definition sm_delete_pointer (pointer_id : string) : M unit :=
  deleted ← on_store (delete_pointer pointer_id);
  st_raise_if (negb deleted) (not_found pointer_id).

Definition sm_cleanup_expired_pointers (now : Z) (limit : option Z) : M cleanup_report :=
  on_store (cleanup_expired_pointers now limit).

(** ** Trace events *)

(** The columns written: everything but the actor fields. *)
Definition stored_event (e : ExecutionTraceEvent) : ExecutionTraceEvent :=
  {| run_id := run_id e; ev_step_id := ev_step_id e; ev_tool_name := ev_tool_name e;
     event_type := event_type e; timestamp_utc := timestamp_utc e; attempt := attempt e;
     resolved_arguments := resolved_arguments e; input_pointer_ids := input_pointer_ids e;
     output_pointer_id := output_pointer_id e; duration_ms := duration_ms e;
     retry_delay_seconds := retry_delay_seconds e; error := error e;
     actor_id := None; actor_scopes := None; operation := None |}.

Definition append_trace_event (event : ExecutionTraceEvent) : M unit :=
  _connection;;
  st_modify (λ m, set_events (execution_trace_events m ++ [stored_event event]) m).

(** [append_trace_events_batch] *)
Definition append_trace_events_batch (events : list ExecutionTraceEvent) : M unit :=
  if is_nil events then mret tt else
  _connection;;
  st_modify (λ m, set_events (execution_trace_events m ++ (stored_event <$> events)) m).

(** [get_run_actor_metadata] *)
Definition get_run_actor_metadata (run_id : string) : M (list (string * pyval)) :=
  _connection;;
  m ← st_get;
  let from_checkpoint :=
    match execution_run_checkpoints m !! run_id with
    | Some row => match actor_metadata row with Some (PDict d) => Some d | _ => None end
    | None => None
    end in
  match from_checkpoint with
  | Some d => mret d
  | None =>
      match execution_run_diagnostics m !! run_id with
      | Some (_, payload) =>
          match py_get payload "actor_metadata" with Some (PDict d) => mret d | _ => mret [] end
      | None => mret []
      end
  end.

(** [x or y] on values found in a dictionary. *)
Definition get_or (d : list (string * pyval)) (k1 k2 : string) : pyval :=
  let v := default PNone (dict_get d k1) in
  if py_truthy v then v else default PNone (dict_get d k2).

(** A model field declared [Optional[str]] or [Optional[List[str]]]. *)
Definition optional_str (v : pyval) : result (option string) :=
  match v with
  | PNone => Ok None
  | PStr s => Ok (Some s)
  | _ => Raise (Exn ValidationError "Input should be a valid string")
  end.

Definition optional_strs (v : pyval) : result (option (list string)) :=
  match v with
  | PNone => Ok None
  | PList l => Some <$> map_result (λ x, match x with
      | PStr s => Ok s
      | _ => Raise (Exn ValidationError "Input should be a valid string")
      end) l
  | _ => Raise (Exn ValidationError "Input should be a valid list")
  end.

Definition annotate_event (actor : option string) (scopes : option (list string))
    (op : option string) (e : ExecutionTraceEvent) : ExecutionTraceEvent :=
  {| run_id := run_id e; ev_step_id := ev_step_id e; ev_tool_name := ev_tool_name e;
     event_type := event_type e; timestamp_utc := timestamp_utc e; attempt := attempt e;
     resolved_arguments := resolved_arguments e; input_pointer_ids := input_pointer_ids e;
     output_pointer_id := output_pointer_id e; duration_ms := duration_ms e;
     retry_delay_seconds := retry_delay_seconds e; error := error e;
     actor_id := actor; actor_scopes := scopes; operation := op |}.

(** [list_trace_events] *)
Definition list_trace_events (rid : string) : M (list ExecutionTraceEvent) :=
  metadata ← get_run_actor_metadata rid;
  let actor_id := get_or metadata "actor_id" "owner_actor_id" in
  let actor_scopes := get_or metadata "actor_scopes" "scopes" in
  let operation := default PNone (dict_get metadata "operation") in
  _connection;;
  m ← st_get;
  st_lift (map_result (λ row,
    actor ← optional_str actor_id;
    scopes ← optional_strs actor_scopes;
    op ← optional_str operation;
    let event := annotate_event actor scopes op row in
    validated (validate_event_fields event) (validate_event_contract event))
    (List.filter (λ row, bool_decide (run_id row = rid)) (execution_trace_events m))).

(** ** Run summaries, checkpoints and diagnostics *)

Definition store_execution_summary (run_id : string) (row : summary_row) : M unit :=
  _connection;;
  st_modify (λ m, set_summaries (<[run_id := row]> (execution_run_summaries m)) m).

Definition get_execution_summary (run_id : string) : M summary_row :=
  _connection;;
  m ← st_get;
  match execution_run_summaries m !! run_id with
  | Some row => mret row
  | None => st_raise (Exn KeyError ("Execution summary for run " +:+ run_id +:+ " not found."))
  end.

(** [upsert_run_checkpoint] *)
Definition upsert_run_checkpoint (now : Z) (run_id : string) (started_at_utc : Z) (status : string)
    (macro_payload step_status branch_decisions : pyval) (final_pointer_id : option string)
    (actor_metadata : option pyval) : M unit :=
  _connection;;
  st_modify (λ m, set_checkpoints (<[run_id :=
    {| started_at_utc := started_at_utc; updated_at_utc := now; status := status;
       macro_payload := macro_payload; step_status := step_status;
       branch_decisions := branch_decisions; final_pointer_id := final_pointer_id;
       actor_metadata := actor_metadata |}]> (execution_run_checkpoints m)) m).

(** [get_run_checkpoint]; a NULL [actor_metadata] reads as [{}]. *)
Definition get_run_checkpoint (run_id : string) : M checkpoint_row :=
  _connection;;
  m ← st_get;
  match execution_run_checkpoints m !! run_id with
  | Some row =>
      mret {| started_at_utc := started_at_utc row; updated_at_utc := updated_at_utc row;
              status := status row; macro_payload := macro_payload row;
              step_status := step_status row; branch_decisions := branch_decisions row;
              final_pointer_id := final_pointer_id row;
              actor_metadata := Some (default (PDict []) (actor_metadata row)) |}
  | None => st_raise (Exn KeyError ("Execution checkpoint for run " +:+ run_id +:+ " not found."))
  end.

(** [ORDER BY updated_at_utc DESC] *)
Definition newer (a b : string * Z) : Prop := (b.2 <= a.2)%Z.
#[local] Instance newer_dec : RelDecision newer.
Proof. intros a b. unfold newer. apply _. Defined.

(** [list_run_checkpoints], the run identifiers and their rows. *)
Definition list_run_checkpoints (wanted : option string) (limit : Z)
  : M (list (string * checkpoint_row)) :=
  _connection;;
  m ← st_get;
  let rows := List.filter (λ kv, match wanted with
                | Some s => bool_decide (status kv.2 = s) | None => true end)
                (map_to_list (execution_run_checkpoints m)) in
  let ordered := merge_sort newer ((λ kv, (kv.1, updated_at_utc kv.2)) <$> rows) in
  mret (omap (λ k, pair k.1 <$> execution_run_checkpoints m !! k.1) (sql_limit limit ordered)).

Definition store_execution_diagnostics (now : Z) (run_id : string) (payload : pyval) : M unit :=
  _connection;;
  st_modify (λ m, set_diagnostics (<[run_id := (now, payload)]> (execution_run_diagnostics m)) m).

Definition get_execution_diagnostics (run_id : string) : M (Z * pyval) :=
  _connection;;
  m ← st_get;
  match execution_run_diagnostics m !! run_id with
  | Some row => mret row
  | None => st_raise (Exn KeyError ("Execution diagnostics for run " +:+ run_id +:+ " not found."))
  end.

Definition list_execution_diagnostics (limit : Z) : M (list (string * (Z * pyval))) :=
  _connection;;
  m ← st_get;
  let ordered := merge_sort newer
    ((λ kv, (kv.1, kv.2.1)) <$> map_to_list (execution_run_diagnostics m)) in
  mret (omap (λ k, pair k.1 <$> execution_run_diagnostics m !! k.1) (sql_limit limit ordered)).

(** ** Conversations *)

(** [create_session], with the identifier given or freshly generated. *)
Definition create_session (now : Z) (session_id : option string) (generated : string)
    (strategy : MemoryStrategy) (window_turn_limit : option Z) (summary_text : option string)
    (metadata : option pyval) : M ConversationSession :=
  let session :=
    {| session_id := str_or session_id generated; session_created_at_utc := now;
       session_updated_at_utc := now; memory_strategy := strategy;
       window_turn_limit := window_turn_limit; summary_text := summary_text;
       session_metadata := metadata |} in
  st_lift (validated (validate_session_fields session) (Ok tt));;
  _connection;;
  m ← st_get;
  st_raise_if (negb (is_None (conversation_sessions m !! Models.session_id session)))
    (Exn (OtherError "IntegrityError") "UNIQUE constraint failed: conversation_sessions.session_id");;
  st_modify (λ m, set_conversations (<[Models.session_id session := session]> (conversation_sessions m))
                    (conversation_turns m) m);;
  mret session.

(** [get_session] *)
Definition get_session (session_id : string) : M ConversationSession :=
  _connection;;
  m ← st_get;
  match conversation_sessions m !! session_id with
  | Some session => st_lift (validated (validate_session_fields session) (Ok session))
  | None => st_raise (Exn KeyError ("Session " +:+ session_id +:+ " not found."))
  end.

(** [list_sessions], most recently updated first. *)
Definition list_sessions (limit : Z) : M (list ConversationSession) :=
  _connection;;
  m ← st_get;
  let ordered := merge_sort newer
    ((λ kv, (kv.1, session_updated_at_utc kv.2)) <$> map_to_list (conversation_sessions m)) in
  st_lift (map_result (λ session, validated (validate_session_fields session) (Ok session))
    (omap (λ k, conversation_sessions m !! k.1) (sql_limit limit ordered))).

(** [delete_session]: both deletes commit before the row count is looked at. *)
Definition delete_session (sid : string) : M unit :=
  _connection;;
  m ← st_get;
  st_modify (λ m, set_conversations (delete sid (conversation_sessions m))
    (List.filter (λ t, bool_decide (turn_session_id t ≠ sid)) (conversation_turns m)) m);;
  st_raise_if (is_None (conversation_sessions m !! sid))
    (Exn KeyError ("Session " +:+ sid +:+ " not found.")).

(** [ORDER BY created_at_utc ASC]: a row goes after those no later than it. *)
Fixpoint insert_turn (t : ConversationTurn) (l : list ConversationTurn) : list ConversationTurn :=
  match l with
  | [] => [t]
  | u :: l =>
      if (turn_created_at_utc u <=? turn_created_at_utc t)%Z then u :: insert_turn t l
      else t :: u :: l
  end.

Definition order_by_created (l : list ConversationTurn) : list ConversationTurn :=
  foldl (λ acc t, insert_turn t acc) [] l.

Definition turns_of (sid : string) (turns : list ConversationTurn) : list ConversationTurn :=
  order_by_created (List.filter (λ t, bool_decide (turn_session_id t = sid)) turns).

(** [list_turns] *)
Definition list_turns (sid : string) (limit : option Z) : M (list ConversationTurn) :=
  get_session sid;;
  _connection;;
  m ← st_get;
  let rows := turns_of sid (conversation_turns m) in
  let rows := match limit with Some n => sql_limit n rows | None => rows end in
  st_lift (map_result (λ t, _ ← validated true (validate_role t); Ok t) rows).

Definition set_session_summary (text : option string) (now : Z) (s : ConversationSession)
  : ConversationSession :=
  {| session_id := session_id s; session_created_at_utc := session_created_at_utc s;
     session_updated_at_utc := now; memory_strategy := memory_strategy s;
     window_turn_limit := window_turn_limit s; summary_text := text;
     session_metadata := session_metadata s |}.

(** [DELETE FROM conversation_turns WHERE turn_id = ?] for each identifier *)
Definition delete_turns (ids : list string) (turns : list ConversationTurn) : list ConversationTurn :=
  List.filter (λ t, bool_decide (turn_id t ∉ ids)) turns.

(** [turn["content"][:180]] *)
Definition clip (n : nat) (s : string) : string := String.substring 0 n s.

(** One line of the running summary. *)
Definition summary_line (turn : ConversationTurn) : string :=
  let line := role turn +:+ ": " +:+ clip 180 (content turn) in
  if is_nil (pointer_ids turn) then line
  else line +:+ " | pointers: " +:+ py_join ", " (pointer_ids turn).

Definition newline : string := String (Ascii.ascii_of_nat 10) "".

(** [merged_summary], at most the last [max_chars] characters. *)
Definition merge_summary (prior : string) (lines : list string) (max_chars : nat) : string :=
  let merged := py_strip (py_join newline
                  (filter (λ item, item ≠ "") [prior; py_join newline lines])) in
  if max_chars <? String.length merged
  then String.substring (String.length merged - max_chars) max_chars merged else merged.

(** What [apply_memory_policy] returns. *)
Record policy_report := {
  pr_strategy : MemoryStrategy;
  deleted_turn_count : Z;
  remaining_turn_count : Z;
  summary_updated : bool;
  pr_summary_text : option string
}.

(** [window_turn_limit or 8] *)
Definition int_or (o : option Z) (d : Z) : Z :=
  match o with Some n => if (n =? 0)%Z then d else n | None => d end.

(** [apply_memory_policy] *)
Definition apply_memory_policy (now : Z) (sid : string) (keep_recent_turns : nat)
    (default_window_turn_limit : Z) (max_summary_chars : nat) : M policy_report :=
  session ← get_session sid;
  turns ← list_turns sid None;
  match memory_strategy session with
  | FULL =>
      mret {| pr_strategy := FULL; deleted_turn_count := 0;
              remaining_turn_count := Z.of_nat (length turns); summary_updated := false;
              pr_summary_text := summary_text session |}
  | WINDOW =>
      let window_limit := int_or (window_turn_limit session) default_window_turn_limit in
      let overflow := Z.max 0 (Z.of_nat (length turns) - window_limit) in
      (if (0 <? overflow)%Z then
         let to_delete := turn_id <$> take (Z.to_nat overflow) turns in
         _connection;;
         st_modify (λ m, set_conversations
           (alter (λ s, set_session_summary (summary_text s) now s) sid (conversation_sessions m))
           (delete_turns to_delete (conversation_turns m)) m)
       else mret tt);;
      mret {| pr_strategy := WINDOW; deleted_turn_count := overflow;
              remaining_turn_count := Z.of_nat (length turns) - overflow;
              summary_updated := false; pr_summary_text := summary_text session |}
  | SUMMARY =>
      let overflow := length turns - keep_recent_turns in
      if 0 <? overflow then
        let old_turns := take overflow turns in
        let to_keep := drop overflow turns in
        let merged := merge_summary (str_or (summary_text session) "")
                        (summary_line <$> old_turns) max_summary_chars in
        _connection;;
        st_modify (λ m, set_conversations
          (alter (set_session_summary (Some merged) now) sid (conversation_sessions m))
          (delete_turns (turn_id <$> old_turns) (conversation_turns m)) m);;
        mret {| pr_strategy := SUMMARY; deleted_turn_count := Z.of_nat (length old_turns);
                remaining_turn_count := Z.of_nat (length to_keep); summary_updated := true;
                pr_summary_text := Some merged |}
      else
        mret {| pr_strategy := SUMMARY; deleted_turn_count := 0;
                remaining_turn_count := Z.of_nat (length turns); summary_updated := false;
                pr_summary_text := summary_text session |}
  end.

(** [append_turn]; [later] is the clock when the memory policy runs. *)
Definition append_turn (now later : Z) (sid role content : string) (pointer_ids : list string)
    (macro_run_id : option string) (metadata : option pyval) (tid : option string)
    (generated : string) : M ConversationTurn :=
  get_session sid;;
  let turn :=
    {| turn_id := str_or tid generated; turn_session_id := sid; Models.role := role;
       Models.content := content; turn_created_at_utc := now; Models.pointer_ids := pointer_ids;
       Models.macro_run_id := macro_run_id; turn_metadata := metadata |} in
  st_lift (validated true (validate_role turn));;
  _connection;;
  m ← st_get;
  st_raise_if (bool_decide (turn_id turn ∈ turn_id <$> conversation_turns m))
    (Exn (OtherError "IntegrityError") "UNIQUE constraint failed: conversation_turns.turn_id");;
  st_modify (λ m, set_conversations
    (alter (λ s, set_session_summary (summary_text s) now s) sid (conversation_sessions m))
    (conversation_turns m ++ [turn]) m);;
  apply_memory_policy later sid 4 8 2000;;
  mret turn.

(** ** Lifecycle and metrics *)

(** [close]: idempotent; the backend's own [close] hook is [close_store]. *)
Definition close (close_store : S → S) : M unit := λ m,
  if sm_closed m then (m, Ok tt) else
  ({| pointer_store := close_store (pointer_store m); sm_closed := true;
      execution_trace_events := execution_trace_events m;
      execution_run_summaries := execution_run_summaries m;
      execution_run_checkpoints := execution_run_checkpoints m;
      execution_run_diagnostics := execution_run_diagnostics m;
      conversation_sessions := conversation_sessions m;
      conversation_turns := conversation_turns m |}, Ok tt).

(** [clear_all] when the database file exists: the file is removed and the
    schema created again, and the pointer store is replaced by [local_store],
    an empty [SQLitePointerStore] on the same path, whatever it was before. *)
Definition clear_all (file_exists : bool) (local_store : S) : M unit := λ m,
  if file_exists then
    ({| pointer_store := local_store; sm_closed := false; execution_trace_events := [];
        execution_run_summaries := ∅; execution_run_checkpoints := ∅;
        execution_run_diagnostics := ∅; conversation_sessions := ∅; conversation_turns := [] |}, Ok tt)
  else (m, Ok tt).

(** The dictionary of [collect_operational_metrics]. *)
Record operational_metrics := {
  total_pointers : Z; active_pointers : Z; expired_pointers : Z;
  run_count : Z; failed_run_count : Z; m_total_steps : Z; m_succeeded_steps : Z; m_failed_steps : Z;
  avg_duration_ms : Q; trace_event_total : Z; diagnostics_run_count : Z;
  trace_events_by_type : list (ExecutionTraceEventType * Z);
  session_count : Z; turn_count : Z
}.

Definition sum_of (f : summary_row → Z) (rows : list summary_row) : Z :=
  foldr (λ r acc, f r + acc)%Z 0%Z rows.

(** [GROUP BY event_type]: one entry per type that occurs. *)
Definition count_types (events : list ExecutionTraceEvent) : list (ExecutionTraceEventType * Z) :=
  omap (λ t, let n := length (List.filter (λ e, bool_decide (event_type e = t)) events) in
             if n =? 0 then None else Some (t, Z.of_nat n))
    [REPLAYED; QUEUED; APPROVAL_REQUIRED; APPROVED; REJECTED; STARTED; RETRIED; FAILED; COMPLETED].

(** [collect_operational_metrics] *)
Definition collect_operational_metrics (now : Z) : M operational_metrics :=
  all ← sm_list_pointers true now None;
  active ← sm_list_pointers false now None;
  _connection;;
  m ← st_get;
  let total := Z.of_nat (length all) in
  let live := Z.of_nat (length active) in
  let rows := (map_to_list (execution_run_summaries m)).*2 in
  mret {|
    total_pointers := total; active_pointers := live; expired_pointers := Z.max 0 (total - live);
    run_count := Z.of_nat (length rows);
    failed_run_count := Z.of_nat (length (List.filter (λ r, (0 <? failed_steps r)%Z) rows));
    m_total_steps := sum_of total_steps rows;
    m_succeeded_steps := sum_of succeeded_steps rows;
    m_failed_steps := sum_of failed_steps rows;
    avg_duration_ms := match rows with
      | [] => 0%Q
      | _ => (foldr (λ r acc, total_duration_ms r + acc)%Q 0%Q rows / inject_Z (Z.of_nat (length rows)))%Q
      end;
    trace_event_total := Z.of_nat (length (execution_trace_events m));
    diagnostics_run_count := Z.of_nat (size (execution_run_diagnostics m));
    trace_events_by_type := count_types (execution_trace_events m);
    session_count := Z.of_nat (size (conversation_sessions m));
    turn_count := Z.of_nat (length (conversation_turns m)) |}.
End state_manager.

(** ** Ordering turns *)

Definition earlier (a b : ConversationTurn) : Prop :=
  (turn_created_at_utc a <= turn_created_at_utc b)%Z.

Lemma insert_turn_perm t l : insert_turn t l ≡ₚ t :: l.
Proof.
  induction l as [|u l IH]; simpl; [done|]. destruct (_ <=? _)%Z; [|done].
  rewrite IH. apply perm_swap.
Qed.

Lemma insert_turn_last t l : Forall (λ u, earlier u t) l → insert_turn t l = l ++ [t].
Proof.
  induction 1 as [|u l Hu _ IH]; simpl; [done|]. unfold earlier in Hu.
  rewrite (proj2 (Z.leb_le _ _) Hu). by rewrite IH.
Qed.

Lemma insert_turn_sorted t l : StronglySorted earlier l → StronglySorted earlier (insert_turn t l).
Proof.
  induction 1 as [|u l Hl IH Hu]; simpl; [by repeat constructor|].
  destruct (Z.leb_spec (turn_created_at_utc u) (turn_created_at_utc t)) as [Hle|Hlt].
  - constructor; [done|]. rewrite insert_turn_perm. by constructor.
  - constructor; [by constructor|]. unfold earlier in *. constructor; [lia|].
    eapply Forall_impl; [exact Hu|]. simpl. intros. lia.
Qed.

Lemma order_by_created_perm l : order_by_created l ≡ₚ l.
Proof.
  unfold order_by_created.
  assert (Hgen : ∀ acc, foldl (λ acc t, insert_turn t acc) acc l ≡ₚ acc ++ l).
  { induction l as [|t l IH]; intros acc; simpl; [by rewrite app_nil_r|].
    rewrite IH, insert_turn_perm. simpl. by rewrite Permutation_middle. }
  apply Hgen.
Qed.

Lemma order_by_created_snoc l t : order_by_created (l ++ [t]) = insert_turn t (order_by_created l).
Proof. unfold order_by_created. by rewrite foldl_app. Qed.

Lemma order_by_created_sorted l : StronglySorted earlier (order_by_created l).
Proof.
  induction l as [|t l IH] using rev_ind; [constructor|].
  rewrite order_by_created_snoc. by apply insert_turn_sorted.
Qed.

Lemma filter_insert_turn (f : ConversationTurn → bool) t l :
  StronglySorted earlier l →
  List.filter f (insert_turn t l) =
    if f t then insert_turn t (List.filter f l) else List.filter f l.
Proof.
  induction 1 as [|u l Hl IH Hu]; simpl; [by destruct (f t)|].
  destruct (Z.leb_spec (turn_created_at_utc u) (turn_created_at_utc t)) as [Hle|Hlt]; simpl.
  - rewrite IH. destruct (f u), (f t); simpl; try done.
    by rewrite (proj2 (Z.leb_le _ _) Hle).
  - destruct (f t) eqn:Ht; [|done]. destruct (f u); simpl.
    + destruct (Z.leb_spec (turn_created_at_utc u) (turn_created_at_utc t)); [lia|done].
    + assert (Hf : Forall (λ v, (turn_created_at_utc t < turn_created_at_utc v)%Z) (List.filter f l)).
      { apply Forall_forall. intros v [_ Hv]%elem_of_List_filter. rewrite Forall_forall in Hu.
        specialize (Hu v Hv). unfold earlier in Hu. lia. }
      destruct (List.filter f l) as [|v l']; simpl; [done|].
      apply Forall_cons in Hf as [Hv _].
      destruct (Z.leb_spec (turn_created_at_utc v) (turn_created_at_utc t)); [lia|done].
Qed.

Lemma filter_order_by_created f l :
  List.filter f (order_by_created l) = order_by_created (List.filter f l).
Proof.
  induction l as [|t l IH] using rev_ind; [done|].
  rewrite order_by_created_snoc, filter_insert_turn by apply order_by_created_sorted.
  rewrite List.filter_app. simpl. destruct (f t).
  - rewrite order_by_created_snoc. by rewrite IH.
  - by rewrite app_nil_r.
Qed.

Lemma elem_of_turns_of sid turns t :
  t ∈ turns_of sid turns ↔ turn_session_id t = sid ∧ t ∈ turns.
Proof.
  unfold turns_of. rewrite order_by_created_perm, elem_of_List_filter, bool_decide_eq_true. done.
Qed.

Lemma List_filter_comm {A} (f g : A → bool) l :
  List.filter f (List.filter g l) = List.filter g (List.filter f l).
Proof.
  induction l as [|x l IH]; simpl; [done|].
  destruct (f x) eqn:Hf, (g x) eqn:Hg; simpl; rewrite ?Hf, ?Hg, ?IH; done.
Qed.

Lemma turns_of_delete ids sid turns :
  turns_of sid (delete_turns ids turns) =
  List.filter (λ t, bool_decide (turn_id t ∉ ids)) (turns_of sid turns).
Proof.
  unfold turns_of, delete_turns. rewrite filter_order_by_created. f_equal. apply List_filter_comm.
Qed.

Lemma List_filter_all {A} (f : A → bool) l : Forall (λ x, f x = true) l → List.filter f l = l.
Proof. induction 1 as [|x l Hx _ IH]; simpl; [done|]. by rewrite Hx, IH. Qed.

Lemma List_filter_none {A} (f : A → bool) l : Forall (λ x, f x = false) l → List.filter f l = [].
Proof. induction 1 as [|x l Hx _ IH]; simpl; [done|]. by rewrite Hx, IH. Qed.

(** Deleting the first [k] rows by identifier leaves the others. *)
Lemma filter_not_first k (l : list ConversationTurn) :
  NoDup (turn_id <$> l) →
  List.filter (λ t, bool_decide (turn_id t ∉ turn_id <$> take k l)) l = drop k l.
Proof.
  intros Hnd.
  trans (List.filter (λ t, bool_decide (turn_id t ∉ turn_id <$> take k l)) (take k l ++ drop k l));
    [by rewrite take_drop|]. rewrite List.filter_app.
  assert (turn_id <$> l = (turn_id <$> take k l) ++ (turn_id <$> drop k l)) as Hl
    by (by rewrite <- fmap_app, take_drop).
  rewrite Hl in Hnd.
  apply NoDup_app in Hnd as (_ & Hdis & _).
  assert (H1 : List.filter (λ t, bool_decide (turn_id t ∉ turn_id <$> take k l)) (take k l) = []).
  { apply List_filter_none. apply Forall_forall. intros t Ht. apply bool_decide_eq_false.
    intros Hn. apply Hn. by apply list_elem_of_fmap_2. }
  rewrite H1. simpl. apply List_filter_all, Forall_forall. intros t Ht.
  apply bool_decide_eq_true. intros Hin. apply (Hdis _ Hin). by apply list_elem_of_fmap_2.
Qed.

(** ** Conversations stay consistent *)

Section conversations.
Context {S : Type}.
Implicit Types (m : state_manager S) (sid : string).

(** Sessions are kept under their own identifier and within their field
    bounds; turn identifiers are unique; every turn has a legal role and
    belongs to a session that exists. *)
Record conv_wf m : Prop := {
  cw_keys : map_Forall (λ k s, session_id s = k) (conversation_sessions m);
  cw_fields : map_Forall (λ _ s, validate_session_fields s = true) (conversation_sessions m);
  cw_turn_ids : NoDup (turn_id <$> conversation_turns m);
  cw_turns : Forall (λ t, validate_role t = Ok tt ∧
    is_Some (conversation_sessions m !! turn_session_id t)) (conversation_turns m)
}.

(** The tables of the other components are untouched. *)
Definition same_elsewhere m m' : Prop :=
  pointer_store m' = pointer_store m ∧ sm_closed m' = sm_closed m ∧
  execution_trace_events m' = execution_trace_events m ∧
  execution_run_summaries m' = execution_run_summaries m ∧
  execution_run_checkpoints m' = execution_run_checkpoints m ∧
  execution_run_diagnostics m' = execution_run_diagnostics m.

Lemma get_session_spec m sid :
  conv_wf m → sm_closed m = false →
  get_session sid m = (m, match conversation_sessions m !! sid with
    | Some s => Ok s
    | None => Raise (Exn KeyError ("Session " +:+ sid +:+ " not found."))
    end).
Proof.
  intros Hwf Hc. unfold get_session, _connection, mbind, stm_bind. rewrite Hc. simpl.
  unfold st_get. destruct (conversation_sessions m !! sid) as [s|] eqn:Hs; [|done].
  unfold st_lift, validated. by rewrite (cw_fields m Hwf sid s Hs).
Qed.

Lemma NoDup_turns_of m sid : conv_wf m → NoDup (turn_id <$> turns_of sid (conversation_turns m)).
Proof.
  intros Hwf. unfold turns_of. rewrite order_by_created_perm.
  pose proof (cw_turn_ids m Hwf) as Hnd.
  induction (conversation_turns m) as [|t l IH]; csimpl in *; [done|].
  apply NoDup_cons in Hnd as [Ht Hnd]. destruct (bool_decide _); csimpl; [|auto].
  constructor; [|auto]. rewrite list_elem_of_fmap in Ht |- *.
  intros (y & Hy & [_ Hin]%elem_of_List_filter). apply Ht. by exists y.
Qed.

Lemma list_turns_spec m sid s :
  conv_wf m → sm_closed m = false → conversation_sessions m !! sid = Some s →
  list_turns sid None m = (m, Ok (turns_of sid (conversation_turns m))).
Proof.
  intros Hwf Hc Hs. unfold list_turns, mbind, stm_bind.
  rewrite (get_session_spec m sid Hwf Hc), Hs. unfold _connection. rewrite Hc. simpl.
  unfold st_get, st_lift. f_equal.
  rewrite (map_result_all_Ok _ id); [by rewrite list_fmap_id|].
  apply Forall_forall. intros t [_ Ht]%elem_of_turns_of.
  pose proof (cw_turns m Hwf) as Hf. rewrite Forall_forall in Hf.
  destruct (Hf t Ht) as [-> _]. done.
Qed.

Lemma alter_lookup_insert (f : ConversationSession → ConversationSession)
    (mm : gmap string ConversationSession) i x :
  mm !! i = Some x → alter f i mm = <[i := f x]> mm.
Proof.
  intros Hx. apply map_eq. intros j. destruct (decide (i = j)) as [<-|Hne].
  - by rewrite lookup_alter_eq, lookup_insert_eq, Hx.
  - by rewrite lookup_alter_ne, lookup_insert_ne.
Qed.

(** How many of [n] turns the session's policy drops. *)
Definition policy_excess (keep : nat) (default_limit : Z) (s : ConversationSession) (n : nat) : nat :=
  match memory_strategy s with
  | FULL => 0
  | WINDOW => Z.to_nat (Z.of_nat n - int_or (window_turn_limit s) default_limit)
  | SUMMARY => n - keep
  end.

(** What changes about the session itself: its summary and time stamp. *)
Definition same_session (s s' : ConversationSession) : Prop :=
  session_id s' = session_id s ∧ memory_strategy s' = memory_strategy s ∧
  window_turn_limit s' = window_turn_limit s ∧ session_metadata s' = session_metadata s ∧
  session_created_at_utc s' = session_created_at_utc s.

Lemma substring_bound a n s : String.length (String.substring a n s) ≤ n.
Proof.
  revert a n. induction s as [|c s IH]; intros [|a] [|n]; simpl; try lia.
  - specialize (IH 0 n). lia.
  - apply (IH a 0).
  - apply (IH a (Datatypes.S n)).
Qed.

Lemma merge_summary_bound prior lines n : String.length (merge_summary prior lines n) ≤ n.
Proof.
  unfold merge_summary. destruct (Nat.ltb_spec n (String.length
    (py_strip (py_join newline (filter (λ item, item ≠ "") [prior; py_join newline lines]))))); [|lia].
  apply substring_bound.
Qed.

Lemma delete_turns_nil turns : delete_turns [] turns = turns.
Proof.
  apply List_filter_all, Forall_forall. intros t _. apply bool_decide_eq_true, not_elem_of_nil.
Qed.

Lemma window_limit_nonneg m sid s dw :
  conv_wf m → conversation_sessions m !! sid = Some s → (0 <= dw)%Z →
  (0 <= int_or (window_turn_limit s) dw)%Z.
Proof.
  intros Hwf Hs Hdw. pose proof (cw_fields m Hwf sid s Hs) as Hf.
  unfold validate_session_fields, opt_all in Hf. unfold int_or.
  destruct (window_turn_limit s) as [n|]; [|done].
  apply Z.leb_le in Hf. by destruct (n =? 0)%Z; [|lia].
Qed.

Lemma apply_memory_policy_spec m now sid keep dw maxc s :
  (0 <= dw)%Z → conv_wf m → sm_closed m = false → conversation_sessions m !! sid = Some s →
  let ts := turns_of sid (conversation_turns m) in
  let excess := policy_excess keep dw s (length ts) in
  ∃ m' s' report, apply_memory_policy now sid keep dw maxc m = (m', Ok report) ∧
    same_elsewhere m m' ∧ same_session s s' ∧
    conversation_sessions m' = <[sid := s']> (conversation_sessions m) ∧
    conversation_turns m' = delete_turns (turn_id <$> take excess ts) (conversation_turns m) ∧
    deleted_turn_count report = Z.of_nat excess ∧
    remaining_turn_count report = Z.of_nat (length ts - excess) ∧
    summary_text s' = pr_summary_text report ∧
    (if summary_updated report
     then ∃ text, summary_text s' = Some text ∧ String.length text ≤ maxc
     else summary_text s' = summary_text s) ∧
    (memory_strategy s = SUMMARY → 0 < excess → summary_updated report = true).
Proof.
  intros Hdw Hwf Hc Hs ts excess. unfold apply_memory_policy.
  pose proof (window_limit_nonneg m sid s dw Hwf Hs Hdw) as Hlim.
  rewrite (st_bind_eq _ _ m m s) by (by rewrite get_session_spec, Hs).
  rewrite (st_bind_eq _ _ m m ts) by (by eapply list_turns_spec).
  assert (Hid : <[sid := s]> (conversation_sessions m) = conversation_sessions m)
    by (by apply insert_id).
  unfold policy_excess in *. destruct (memory_strategy s) eqn:Hstr.
  - exists m, s. eexists. split; [done|]. subst excess. simpl.
    rewrite delete_turns_nil, Hid. split_and!; try done. by rewrite Nat.sub_0_r.
  - set (limit := int_or (window_turn_limit s) dw) in *.
    destruct (Z.ltb_spec 0 (Z.max 0 (Z.of_nat (length ts) - limit))) as [Hpos|Hnone].
    + assert (Hex : Z.to_nat (Z.max 0 (Z.of_nat (length ts) - limit)) = excess) by (subst excess; lia).
      unfold mbind, stm_bind, _connection. rewrite Hc. simpl.
      eexists _, (set_session_summary (summary_text s) now s), _. split; [reflexivity|]. simpl.
      rewrite Hex, (alter_lookup_insert _ _ _ s Hs).
      split_and!; try done; clear Hex; clearbody limit ts; subst excess; lia.
    + assert (Hex : excess = 0) by (subst excess; lia).
      exists m, s. eexists. split; [reflexivity|]. rewrite Hex. simpl.
      rewrite delete_turns_nil, Hid. split_and!; try done; lia.
  - destruct (Nat.ltb_spec 0 (length ts - keep)) as [Hpos|Hnone].
    + unfold mbind, stm_bind, _connection. rewrite Hc. simpl.
      eexists _, (set_session_summary _ now s), _. split; [reflexivity|]. simpl.
      rewrite (alter_lookup_insert _ _ _ s Hs), length_take, length_drop.
      split_and!; try done; [lia|].
      eexists. split; [done|]. apply merge_summary_bound.
    + assert (Hex : excess = 0) by (subst excess; lia).
      exists m, s. eexists. split; [reflexivity|]. rewrite Hex. simpl.
      rewrite delete_turns_nil, Hid. split_and!; try done; lia.
Qed.

Lemma same_session_valid s s' :
  same_session s s' → validate_session_fields s = true → validate_session_fields s' = true.
Proof. intros (_ & _ & Hw & _ & _). unfold validate_session_fields. by rewrite Hw. Qed.

(** Updating a session in place and keeping some of the turns. *)
Lemma conv_wf_update m m' sid s s' f :
  conv_wf m → conversation_sessions m !! sid = Some s → same_session s s' →
  conversation_sessions m' = <[sid := s']> (conversation_sessions m) →
  conversation_turns m' = List.filter f (conversation_turns m) →
  conv_wf m'.
Proof.
  intros [Hk Hf Hn Ht] Hs Hsame Hms Hmt. constructor.
  - rewrite Hms. apply map_Forall_insert_2; [|done].
    destruct Hsame as (-> & _). by apply (Hk sid).
  - rewrite Hms. apply map_Forall_insert_2; [|done].
    eapply same_session_valid; [done|]. by apply (Hf sid).
  - rewrite Hmt. clear -Hn. induction (conversation_turns m) as [|t l IH]; csimpl in *; [done|].
    apply NoDup_cons in Hn as [Ht Hn]. destruct (f t); csimpl; [|auto].
    constructor; [|auto]. rewrite list_elem_of_fmap in Ht |- *.
    intros (y & Hy & [_ Hin]%elem_of_List_filter). apply Ht. by exists y.
  - rewrite Hmt, Hms. rewrite Forall_forall in *. intros t [_ Hin]%elem_of_List_filter.
    destruct (Ht t Hin) as [? [s1 Hs1]]. split; [done|].
    destruct (decide (sid = turn_session_id t)) as [->|Hne].
    + rewrite lookup_insert_eq. eauto.
    + rewrite lookup_insert_ne by done. eauto.
Qed.

Lemma apply_memory_policy_wf m now sid keep dw maxc m' r :
  (0 <= dw)%Z → conv_wf m → sm_closed m = false →
  apply_memory_policy now sid keep dw maxc m = (m', r) → conv_wf m' ∧ sm_closed m' = false.
Proof.
  intros Hdw Hwf Hc Hrun. destruct (conversation_sessions m !! sid) as [s|] eqn:Hs.
  - destruct (apply_memory_policy_spec m now sid keep dw maxc s Hdw Hwf Hc Hs)
      as (m1 & s' & rep & Hrun' & (_ & Hc' & _) & Hsame & Hms & Hmt & _).
    rewrite Hrun in Hrun'. injection Hrun' as <- _. split; [|congruence].
    by eapply conv_wf_update.
  - unfold apply_memory_policy in Hrun. rewrite (st_bind_raise _ _ m m (Exn KeyError
      ("Session " +:+ sid +:+ " not found."))) in Hrun by (by rewrite get_session_spec, Hs).
    by injection Hrun as <- _.
Qed.

(** The state [append_turn] hands to the memory policy. *)
Definition with_turn (now : Z) (sid : string) (turn : ConversationTurn) m : state_manager S :=
  set_conversations
    (alter (λ s, set_session_summary (summary_text s) now s) sid (conversation_sessions m))
    (conversation_turns m ++ [turn]) m.

Lemma with_turn_wf m now sid s turn :
  conv_wf m → conversation_sessions m !! sid = Some s → turn_session_id turn = sid →
  validate_role turn = Ok tt → turn_id turn ∉ turn_id <$> conversation_turns m →
  conv_wf (with_turn now sid turn m).
Proof.
  intros [Hk Hf Hn Ht] Hs Hsid Hrole Hfresh. unfold with_turn.
  rewrite (alter_lookup_insert _ _ _ s Hs). constructor; simpl.
  - apply map_Forall_insert_2; [|done]. simpl. by apply (Hk sid).
  - apply map_Forall_insert_2; [|done]. apply (Hf sid s Hs).
  - rewrite fmap_app. apply NoDup_app. split_and!; [done| |apply NoDup_singleton].
    intros x Hx ->%list_elem_of_singleton. done.
  - apply Forall_app. split.
    + eapply Forall_impl; [exact Ht|]. intros t [? [s1 Hs1]]. split; [done|].
      destruct (decide (sid = turn_session_id t)) as [->|Hne].
      * rewrite lookup_insert_eq. eauto.
      * rewrite lookup_insert_ne by done. eauto.
    + constructor; [|done]. split; [done|]. rewrite Hsid, lookup_insert_eq. eauto.
Qed.

(** What a run of [append_turn] comes to. *)
Lemma append_turn_cases now later sid role content ptrs rid meta tid gen m m' r :
  conv_wf m → sm_closed m = false →
  append_turn now later sid role content ptrs rid meta tid gen m = (m', r) →
  let turn := {| turn_id := str_or tid gen; turn_session_id := sid; Models.role := role;
       Models.content := content; turn_created_at_utc := now; Models.pointer_ids := ptrs;
       Models.macro_run_id := rid; turn_metadata := meta |} in
  (m' = m ∧ is_ok r = false) ∨
  (∃ s m2 r2, conversation_sessions m !! sid = Some s ∧ validate_role turn = Ok tt ∧
    (turn_id turn ∉ (turn_id <$> conversation_turns m)) ∧
    (apply_memory_policy later sid 4 8 2000 (with_turn now sid turn m) = (m2, r2)) ∧
    m' = m2 ∧ r = (r2 ≫= λ _, Ok turn)).
Proof.
  intros Hwf Hc Hrun turn. unfold append_turn in Hrun.
  destruct (conversation_sessions m !! sid) as [s|] eqn:Hs.
  2: { rewrite (st_bind_raise _ _ m m (Exn KeyError ("Session " +:+ sid +:+ " not found.")))
         in Hrun by (by rewrite get_session_spec, Hs).
       injection Hrun as <- <-. by left. }
  rewrite (st_bind_eq _ _ m m s) in Hrun by (by rewrite get_session_spec, Hs).
  fold turn in Hrun. unfold mbind, stm_bind, st_lift, validated, _connection in Hrun.
  destruct (validate_role turn) as [[]|e] eqn:Hrole; [|injection Hrun as <- <-; by left].
  rewrite Hc in Hrun. simpl in Hrun. unfold st_raise_if, st_lift in Hrun.
  destruct (decide (turn_id turn ∈ turn_id <$> conversation_turns m)) as [Hin|Hnin].
  { rewrite bool_decide_true in Hrun by done. injection Hrun as <- <-. by left. }
  rewrite bool_decide_false in Hrun by done. simpl in Hrun.
  right. fold (with_turn now sid turn m) in Hrun.
  destruct (apply_memory_policy later sid 4 8 2000 (with_turn now sid turn m)) as [m2 r2] eqn:Hp.
  exists s, m2, r2. split_and!; try done.
  - destruct r2; by injection Hrun as <- _.
  - destruct r2; by injection Hrun as _ <-.
Qed.

(** The conversation methods, whatever their arguments and outcome. *)
Inductive conv_step : state_manager S → state_manager S → Prop :=
  | step_create now osid gen strategy window text meta m m' r :
      create_session now osid gen strategy window text meta m = (m', r) → conv_step m m'
  | step_delete sid m m' r : delete_session sid m = (m', r) → conv_step m m'
  | step_append now later sid role content ptrs rid meta tid gen m m' r :
      append_turn now later sid role content ptrs rid meta tid gen m = (m', r) → conv_step m m'
  | step_policy now sid keep dw maxc m m' r :
      (0 <= dw)%Z → apply_memory_policy now sid keep dw maxc m = (m', r) → conv_step m m'.

Lemma create_session_wf now osid gen strategy window text meta m m' r :
  conv_wf m → sm_closed m = false →
  create_session now osid gen strategy window text meta m = (m', r) →
  conv_wf m' ∧ sm_closed m' = false.
Proof.
  intros Hwf Hc Hrun. unfold create_session, mbind, stm_bind, st_lift, validated, _connection in Hrun.
  set (session := {| session_id := str_or osid gen |}) in Hrun.
  destruct (validate_session_fields session) eqn:Hv; [|by injection Hrun as <- <-].
  rewrite Hc in Hrun. simpl in Hrun. unfold st_raise_if, st_lift in Hrun.
  destruct (conversation_sessions m !! str_or osid gen) as [s0|] eqn:Hs; simpl in Hrun;
    [by injection Hrun as <- <-|].
  injection Hrun as <- <-. split; [|done]. destruct Hwf as [Hk Hf Hn Ht]. constructor; simpl.
  - by apply map_Forall_insert_2.
  - by apply map_Forall_insert_2.
  - done.
  - eapply Forall_impl; [exact Ht|]. intros t [? [s1 Hs1]]. split; [done|].
    destruct (decide (str_or osid gen = turn_session_id t)) as [->|Hne].
    + rewrite lookup_insert_eq. eauto.
    + rewrite lookup_insert_ne by done. eauto.
Qed.

Lemma delete_session_wf sid m m' r :
  conv_wf m → sm_closed m = false → delete_session sid m = (m', r) →
  conv_wf m' ∧ sm_closed m' = false.
Proof.
  intros [Hk Hf Hn Ht] Hc Hrun.
  unfold delete_session, mbind, stm_bind, st_lift, _connection in Hrun. rewrite Hc in Hrun.
  simpl in Hrun. injection Hrun as <- _. split; [|done]. constructor; simpl.
  - by apply map_Forall_delete.
  - by apply map_Forall_delete.
  - clear -Hn. induction (conversation_turns m) as [|t l IH]; csimpl in *; [done|].
    apply NoDup_cons in Hn as [Ht Hn]. destruct (bool_decide _); csimpl; [|auto].
    constructor; [|auto]. rewrite list_elem_of_fmap in Ht |- *.
    intros (y & Hy & [_ Hin]%elem_of_List_filter). apply Ht. by exists y.
  - rewrite Forall_forall in *. intros t [Hne Hin]%elem_of_List_filter.
    apply bool_decide_eq_true in Hne. destruct (Ht t Hin) as [? ?]. split; [done|].
    by rewrite lookup_delete_ne.
Qed.

Lemma conv_step_wf m m' :
  conv_wf m → sm_closed m = false → conv_step m m' → conv_wf m' ∧ sm_closed m' = false.
Proof.
  intros Hwf Hc Hstep. destruct Hstep as [| | now later sid role content ptrs rid meta tid gen m m' r Hrun|].
  - by eapply create_session_wf.
  - by eapply delete_session_wf.
  - destruct (append_turn_cases _ _ _ _ _ _ _ _ _ _ _ _ _ Hwf Hc Hrun)
      as [[-> _]|(s & m2 & r2 & Hs & Hrole & Hfresh & Hp & -> & _)]; [done|].
    eapply (apply_memory_policy_wf _ later sid 4 8 2000); [done| | |exact Hp]; [|done].
    by eapply with_turn_wf.
  - by eapply apply_memory_policy_wf.
Qed.

(** Starting from a consistent state, every sequence of session and turn
    operations, successful or not, keeps it consistent: no turn without its
    session, no two turns with one identifier, every session within its
    bounds; so [get_session] and [list_turns] fail only for a session that
    does not exist, and then with [KeyError]. *)
Theorem conversations_consistent m m' sid :
  conv_wf m → sm_closed m = false → rtc conv_step m m' →
  conv_wf m' ∧
  get_session sid m' = (m', match conversation_sessions m' !! sid with
    | Some s => Ok s
    | None => Raise (Exn KeyError ("Session " +:+ sid +:+ " not found."))
    end) ∧
  (is_Some (conversation_sessions m' !! sid) →
   list_turns sid None m' = (m', Ok (turns_of sid (conversation_turns m')))).
Proof.
  intros Hwf Hc Hsteps.
  assert (Hwf' : conv_wf m' ∧ sm_closed m' = false).
  { induction Hsteps as [m|m1 m2 m3 Hstep _ IH]; [done|].
    destruct (conv_step_wf _ _ Hwf Hc Hstep). by apply IH. }
  destruct Hwf' as [Hwf' Hc']. split_and!; [done|by apply get_session_spec|].
  intros [s Hs]. by eapply list_turns_spec.
Qed.

Lemma turns_of_with_turn now sid turn m :
  turn_session_id turn = sid → turn_created_at_utc turn = now →
  Forall (λ t, (turn_created_at_utc t <= now)%Z) (turns_of sid (conversation_turns m)) →
  turns_of sid (conversation_turns (with_turn now sid turn m)) =
  turns_of sid (conversation_turns m) ++ [turn].
Proof.
  intros Hsid Hnow Hall. unfold turns_of, with_turn. simpl.
  rewrite List.filter_app. simpl. rewrite bool_decide_true by done.
  rewrite order_by_created_snoc. apply insert_turn_last.
  eapply Forall_impl; [exact Hall|]. intros t. unfold earlier. by rewrite Hnow.
Qed.

Lemma turns_of_other now sid sid' turn m :
  turn_session_id turn = sid → sid' ≠ sid →
  turns_of sid' (conversation_turns (with_turn now sid turn m)) =
  turns_of sid' (conversation_turns m).
Proof.
  intros Hsid Hne. unfold turns_of, with_turn. simpl.
  rewrite List.filter_app. simpl. rewrite bool_decide_false by congruence. by rewrite app_nil_r.
Qed.

(** Appending a turn to an existing session, with a legal role and a fresh
    identifier, succeeds and leaves in the session exactly the most recent
    turns its memory policy keeps, the new one last: all of them under [full],
    the last [window_turn_limit or 8] under [window], the last four under
    [summary] (whose running summary stays within 2000 characters); turns of
    other sessions and all other tables are untouched. *)
Theorem append_turn_retention m now later sid s role content ptrs rid meta tid gen :
  let turn := {| turn_id := str_or tid gen; turn_session_id := sid; Models.role := role;
       Models.content := content; turn_created_at_utc := now; Models.pointer_ids := ptrs;
       Models.macro_run_id := rid; turn_metadata := meta |} in
  let before := turns_of sid (conversation_turns m) in
  conv_wf m → sm_closed m = false → conversation_sessions m !! sid = Some s →
  Forall (λ t, (turn_created_at_utc t <= now)%Z) before →
  role ∈ ["user"; "assistant"; "system"] →
  str_or tid gen ∉ turn_id <$> conversation_turns m →
  ∃ m' s', append_turn now later sid role content ptrs rid meta tid gen m = (m', Ok turn) ∧
    same_elsewhere m m' ∧
    conversation_sessions m' = <[sid := s']> (conversation_sessions m) ∧ same_session s s' ∧
    turns_of sid (conversation_turns m') =
      drop (policy_excess 4 8 s (length before + 1)) (before ++ [turn]) ∧
    (∀ sid', sid' ≠ sid →
       turns_of sid' (conversation_turns m') = turns_of sid' (conversation_turns m)) ∧
    (memory_strategy s = SUMMARY → 4 < length before + 1 →
       ∃ text, summary_text s' = Some text ∧ String.length text ≤ 2000).
Proof.
  intros turn before Hwf Hc Hs Hall Hrole Hfresh.
  assert (Hr : validate_role turn = Ok tt).
  { unfold validate_role. simpl. by rewrite bool_decide_false by tauto. }
  set (m1 := with_turn now sid turn m).
  assert (Hwf1 : conv_wf m1) by (by eapply with_turn_wf).
  assert (Hs1 : conversation_sessions m1 !! sid = Some (set_session_summary (summary_text s) now s)).
  { unfold m1, with_turn. simpl. by rewrite lookup_alter_eq, Hs. }
  destruct (apply_memory_policy_spec m1 later sid 4 8 2000 _ ltac:(lia) Hwf1 Hc Hs1)
    as (m' & s' & rep & Hrun & Helse & Hsame & Hms & Hmt & Hdel & Hrem & Hsum & Hupd & Hsumm).
  assert (Hts : turns_of sid (conversation_turns m1) = before ++ [turn])
    by (by apply turns_of_with_turn).
  rewrite Hts, length_app in Hmt, Hdel. simpl length in Hmt, Hdel.
  set (excess := policy_excess 4 8 (set_session_summary (summary_text s) now s) (length before + 1)) in *.
  exists m', s'. split_and!.
  - unfold append_turn. rewrite (st_bind_eq _ _ m m s) by (by rewrite get_session_spec, Hs).
    fold turn. unfold mbind, stm_bind, st_lift, validated, _connection. rewrite Hr, Hc. simpl.
    unfold st_raise_if, st_lift. rewrite bool_decide_false by done. simpl.
    fold (with_turn now sid turn m). fold m1. by rewrite Hrun.
  - done.
  - rewrite Hms. unfold m1, with_turn. simpl. rewrite (alter_lookup_insert _ _ _ s Hs).
    by rewrite insert_insert_eq.
  - done.
  - rewrite Hmt, turns_of_delete, Hts. apply filter_not_first.
    rewrite <- Hts. by apply NoDup_turns_of.
  - intros sid' Hne. rewrite Hmt, turns_of_delete.
    unfold m1. rewrite (turns_of_other now sid sid' turn m) by done.
    apply List_filter_all, Forall_forall. intros t Ht. apply bool_decide_eq_true.
    intros (u & Hu & Hin)%list_elem_of_fmap. apply elem_of_take in Hin as (i & Hi & _).
    apply list_elem_of_lookup_2 in Hi. rewrite <- Hts in Hi.
    apply elem_of_turns_of in Hi as [Husid Hi]. apply elem_of_turns_of in Ht as [Htsid Ht].
    assert (Ht1 : t ∈ conversation_turns m1) by (apply elem_of_app; by left).
    pose proof (cw_turn_ids m1 Hwf1) as Hnd.
    assert (t = u) as ->; [|congruence].
    clear -Hnd Ht1 Hi Hu. induction (conversation_turns m1) as [|x l IH]; [by apply elem_of_nil in Hi|].
    csimpl in Hnd. apply NoDup_cons in Hnd as [Hx Hnd].
    apply elem_of_cons in Ht1 as [->|Ht1]; apply elem_of_cons in Hi as [->|Hi]; try done.
    + destruct Hx. rewrite Hu. by apply list_elem_of_fmap_2.
    + destruct Hx. rewrite <- Hu. by apply list_elem_of_fmap_2.
    + by apply IH.
  - intros Hstr Hlen. rewrite Hts, length_app in Hsumm. simpl length in Hsumm. fold excess in Hsumm.
    assert (Hex : 0 < excess).
    { unfold excess, policy_excess. simpl. rewrite Hstr. lia. }
    rewrite (Hsumm Hstr Hex) in Hupd. exact Hupd.
Qed.
End conversations.

(** ** Traces, checkpoints and pointers *)

Section records.
Context {S : Type} `{PointerStoreLaws S}.
Implicit Types (m : state_manager S).

Lemma append_batch_spec m es :
  sm_closed m = false →
  append_trace_events_batch es m =
    (set_events (execution_trace_events m ++ (stored_event <$> es)) m, Ok tt).
Proof.
  intros Hc. unfold append_trace_events_batch. destruct es as [|e es]; simpl.
  - rewrite app_nil_r. by destruct m.
  - unfold mbind, stm_bind, _connection. by rewrite Hc.
Qed.

Lemma append_each_spec m es :
  sm_closed m = false →
  st_for_each append_trace_event es m =
    (set_events (execution_trace_events m ++ (stored_event <$> es)) m, Ok tt).
Proof.
  revert m. induction es as [|e es IH]; intros m Hc; simpl.
  - rewrite app_nil_r. by destruct m.
  - unfold append_trace_event, mbind, stm_bind, _connection. rewrite Hc. simpl.
    rewrite IH by done. simpl. by rewrite <- app_assoc.
Qed.

(** The metadata a run's checkpoint (or diagnostics) carries. *)
Definition run_metadata m (rid : string) : list (string * pyval) :=
  match execution_run_checkpoints m !! rid ≫= actor_metadata with
  | Some (PDict d) => d
  | _ =>
      match execution_run_diagnostics m !! rid with
      | Some (_, payload) =>
          match py_get payload "actor_metadata" with Some (PDict d) => d | _ => [] end
      | None => []
      end
  end.

Lemma get_run_actor_metadata_spec m rid :
  sm_closed m = false → get_run_actor_metadata rid m = (m, Ok (run_metadata m rid)).
Proof.
  intros Hc. unfold get_run_actor_metadata, mbind, stm_bind, _connection, st_get, run_metadata.
  rewrite Hc. simpl.
  destruct (execution_run_checkpoints m !! rid) as [row|]; simpl.
  - destruct (actor_metadata row) as [[]|]; simpl; try done;
      destruct (execution_run_diagnostics m !! rid) as [[? payload]|]; try done;
      destruct (py_get payload "actor_metadata") as [[]|]; done.
  - destruct (execution_run_diagnostics m !! rid) as [[? payload]|]; try done.
    destruct (py_get payload "actor_metadata") as [[]|]; done.
Qed.

(** Actor metadata as the executor writes it: optional texts, a list of scopes
    that is not blank, and a known operation. *)
Record actor_fields (d : list (string * pyval)) (actor : option string)
    (scopes : option (list string)) (op : option string) : Prop := {
  af_actor : optional_str (get_or d "actor_id" "owner_actor_id") = Ok actor;
  af_scopes : ∃ raw, optional_strs (get_or d "actor_scopes" "scopes") = Ok raw ∧
    scopes = (λ l, sorted_set (list_to_set (filter (λ s, s ≠ "") (py_strip <$> l)))) <$> raw ∧
    scopes ≠ Some [];
  af_operation : optional_str (default PNone (dict_get d "operation")) = Ok op ∧
    (op = None ∨ op = Some "execute" ∨ op = Some "resume")
}.

(** Events that [ExecutionTraceEvent] accepts. *)
Definition event_valid (e : ExecutionTraceEvent) : Prop :=
  validate_event_fields e = true ∧ ∃ e', validate_event_contract e = Ok e'.

Lemma event_contract_annotate a s o e :
  event_contract (annotate_event a s o (stored_event e)) = event_contract e.
Proof. done. Qed.

Lemma load_event_ok d actor scopes op e :
  actor_fields d actor scopes op → event_valid e →
  (a ← optional_str (get_or d "actor_id" "owner_actor_id");
   s ← optional_strs (get_or d "actor_scopes" "scopes");
   o ← optional_str (default PNone (dict_get d "operation"));
   let event := annotate_event a s o (stored_event e) in
   validated (validate_event_fields event) (validate_event_contract event)) =
  Ok (annotate_event actor scopes op (stored_event e)).
Proof.
  intros [-> (raw & -> & -> & Hne) [-> Hop]] [Hf [e' He']]. simpl.
  unfold validated. change (validate_event_fields (annotate_event actor raw op (stored_event e)))
    with (validate_event_fields e). rewrite Hf.
  unfold validate_event_contract. cbn [actor_scopes annotate_event operation].
  assert (Hcontract : ∀ x, for_each (λ cm : bool * string, raise_if cm.1 (value_error cm.2))
      (event_contract (annotate_event actor x op (stored_event e))) = Ok tt).
  { intros x. rewrite event_contract_annotate. unfold validate_event_contract in He'.
    apply bind_Ok in He' as (e1 & He1 & He'). apply bind_Ok in He' as (? & _ & He').
    apply bind_Ok in He' as ([] & Hfor & _).
    assert (Heq : event_contract e1 = event_contract e); [|by rewrite <- Heq].
    destruct (actor_scopes e) as [sc|]; [|by injection He1 as <-].
    by apply bind_Ok in He1 as (? & _ & [= <-]). }
  assert (Hop' : raise_if (match op with Some o => bool_decide (o ∉ ["execute"; "resume"]) | None => false end)
      (value_error "operation must be one of: execute, resume") = Ok tt).
  { destruct Hop as [->|[-> | ->]]; done. }
  destruct raw as [l|]; simpl.
  - destruct (sorted_set (list_to_set (filter (λ s : string, s ≠ "") (py_strip <$> l)))) as [|x xs] eqn:Hl.
    { simpl in Hne. by rewrite Hl in Hne. }
    simpl. rewrite Hop'. simpl. pose proof (Hcontract (Some (x :: xs))) as Hc.
    rewrite event_contract_annotate in Hc. 
    change (event_contract (set_actor_scopes _ _)) with (event_contract e). by rewrite Hc.
  - rewrite Hop'. simpl. pose proof (Hcontract None) as Hc. by rewrite Hc.
Qed.

(** A batch write is the same as writing its events one by one, and what
    [list_trace_events] then returns for a run is what was there before
    followed by the run's events of the batch, in order, unchanged but for
    the actor fields, which are the run's. *)
Theorem trace_roundtrip m es rid actor scopes op :
  sm_closed m = false →
  Forall event_valid es → Forall event_valid (execution_trace_events m) →
  Forall (λ e, stored_event e = e) (execution_trace_events m) →
  actor_fields (run_metadata m rid) actor scopes op →
  let m' := (append_trace_events_batch es m).1 in
  st_for_each append_trace_event es m = (m', Ok tt) ∧
  append_trace_events_batch es m = (m', Ok tt) ∧
  list_trace_events rid m' =
    (m', Ok (annotate_event actor scopes op <$>
       List.filter (λ e, bool_decide (run_id e = rid))
         (execution_trace_events m ++ (stored_event <$> es)))).
Proof.
  intros Hc Hes Hold Hst Haf m'. subst m'.
  rewrite append_batch_spec, append_each_spec by done. split_and!; [done..|]. simpl.
  set (m' := set_events _ m). unfold list_trace_events, mbind, stm_bind.
  rewrite (get_run_actor_metadata_spec m' rid Hc).
  change (run_metadata m' rid) with (run_metadata m rid).
  unfold _connection. change (sm_closed m') with (sm_closed m). rewrite Hc. simpl.
  unfold st_get, st_lift. f_equal. rewrite (map_result_all_Ok _ (annotate_event actor scopes op)); [done|].
  apply Forall_forall. intros e [_ He]%elem_of_List_filter.
  assert (∃ e0, event_valid e0 ∧ e = stored_event e0) as (e0 & Hv & ->).
  { change (execution_trace_events m') with (execution_trace_events m ++ (stored_event <$> es)) in He.
    rewrite Forall_forall in Hes, Hold, Hst. apply elem_of_app in He as [He|He].
    - exists e. split; [by apply Hold|]. symmetry. by apply Hst.
    - apply list_elem_of_fmap in He as (e0 & -> & He). exists e0. split; [by apply Hes|done]. }
  exact (load_event_ok _ _ _ _ _ Haf Hv).
Qed.

(** [upsert_run_checkpoint] then [get_run_checkpoint] gives back what was
    written, a later write for the same run replaces it, other runs'
    checkpoints are untouched, and a run never written raises [KeyError]. *)
Theorem checkpoint_roundtrip m now rid started st macro steps branches final actor rid' :
  sm_closed m = false →
  let m' := (upsert_run_checkpoint now rid started st macro steps branches final actor m).1 in
  get_run_checkpoint rid m' =
    (m', Ok {| started_at_utc := started; updated_at_utc := now; status := st;
               macro_payload := macro; step_status := steps; branch_decisions := branches;
               final_pointer_id := final; actor_metadata := Some (default (PDict []) actor) |}) ∧
  (rid' ≠ rid → (get_run_checkpoint rid' m').2 = (get_run_checkpoint rid' m).2) ∧
  (execution_run_checkpoints m !! rid' = None →
   get_run_checkpoint rid' m =
     (m, Raise (Exn KeyError ("Execution checkpoint for run " +:+ rid' +:+ " not found.")))).
Proof.
  intros Hc. unfold upsert_run_checkpoint, get_run_checkpoint, mbind, stm_bind, _connection, st_get.
  rewrite Hc. simpl. rewrite Hc. simpl. split_and!.
  - by rewrite lookup_insert_eq.
  - intros Hne. rewrite lookup_insert_ne by done.
    by destruct (execution_run_checkpoints m !! rid').
  - intros Hnone. by rewrite Hnone.
Qed.

(** Over any lawful backend, data stored under a fresh identifier is
    retrieved as its text, with the life time asked for, and a [ttl_seconds]
    that is not a positive integer is refused without touching the store;
    either way the caller's own dictionary is modified when it is not empty. *)
Theorem store_and_point_retrieve float_repr getsizeof m rows now pid raw summ meta ttl :
  represents (pointer_store m) rows → valid_id pid →
  (∀ row, PointerStore.pointer_id row = pid → raw_data row = py_str float_repr raw → PointerStore.summary row = summ →
          PointerStore.created_at_utc row = now → storable row) →
  rows !! pid = None →
  let '(caller, (m', r)) := store_and_point float_repr getsizeof now pid raw summ meta ttl m in
  (caller = [] ↔ meta = []) ∧
  match ttl with
  | PNone | PInt (Zpos _) =>
      is_ok r = true ∧ same_elsewhere m (set_store (pointer_store m) m') ∧
      retrieve pid m' = (m', Ok (py_str float_repr raw)) ∧
      ∃ row, represents (pointer_store m') (<[pid := row]> rows) ∧
        PointerStore.pointer_id row = pid ∧ PointerStore.created_at_utc row = now ∧
        ∀ t, is_expired (expires_at_utc row) t = true ↔
             ∃ n, ttl = PInt n ∧ (now + n * 1000000 <= t)%Z
  | _ => m' = m ∧ ∃ e, r = Raise e ∧ exn_cls e = ValueError
  end.
Proof.
  intros Hrep Hval Hst Hnew.
  destruct (store_and_point float_repr getsizeof now pid raw summ meta ttl m) as [caller [m' r]] eqn:Hrun.
  unfold store_and_point in Hrun.
  assert (Hset : ∀ (d : list (string * pyval)) k v, dict_set d k v ≠ []).
  { intros [|[]] k v; simpl; [done|]. by case_decide. }
  assert (Hcaller : ∀ d : list (string * pyval), d ≠ [] →
    (if is_nil meta then meta else d) = [] ↔ meta = []) by (by destruct meta).
  assert (Hgood : ∀ (t : option Z) md, (ttl = PNone ∧ t = None) ∨ (∃ n, ttl = PInt n ∧ t = Some n) →
    (on_store (PointerStore.store_pointer
          {| PointerStore.pointer_id := pid; raw_data := py_str float_repr raw;
             PointerStore.summary := summ; PointerStore.metadata := PDict md;
             created_at_utc := now; PointerStore.ttl_seconds := t;
             expires_at_utc := (λ t, now + t * 1000000)%Z <$> t |});;
        mret [("pointer_id", PStr pid); ("summary", PStr summ); ("metadata", PDict md)]) m = (m', r) →
    is_ok r = true ∧ same_elsewhere m (set_store (pointer_store m) m') ∧
      retrieve pid m' = (m', Ok (py_str float_repr raw)) ∧
      ∃ row, represents (pointer_store m') (<[pid := row]> rows) ∧
        PointerStore.pointer_id row = pid ∧ PointerStore.created_at_utc row = now ∧
        ∀ t, is_expired (expires_at_utc row) t = true ↔
             ∃ n, ttl = PInt n ∧ (now + n * 1000000 <= t)%Z).
  { intros t md Ht Hrun'. set (row := {| PointerStore.pointer_id := pid |}) in Hrun'.
    destruct (law_store (pointer_store m) rows row Hrep Hval (Hst row eq_refl eq_refl eq_refl eq_refl) Hnew) as (x & Hx & Hrep').
    unfold mbind, stm_bind, on_store in Hrun'. rewrite Hx in Hrun'. injection Hrun' as <- <-.
    split_and!; try done.
    - unfold retrieve, on_store. simpl.
      rewrite (law_retrieve x _ pid Hrep' Hval). simpl. by rewrite lookup_insert_eq.
    - exists row. split_and!; try done. intros t'. simpl.
      destruct Ht as [[-> ->]|(n & -> & ->)]; simpl; [naive_solver|].
      rewrite Z.leb_le. naive_solver. }
  assert (Hbad : ∀ e, (if is_nil meta then meta else dict_set meta "size_bytes" (PInt (getsizeof raw)),
      (m, Raise e)) = (caller, (m', r)) → exn_cls e = ValueError →
    (caller = [] ↔ meta = []) ∧ m' = m ∧ ∃ e, r = Raise e ∧ exn_cls e = ValueError).
  { intros e [= <- <- <-] He. split; [by apply Hcaller, Hset|eauto]. }
  destruct ttl as [|b|n|q|s|l|d]; cbn [fmap option_fmap option_map] in Hrun;
    try (by eapply Hbad).
  - apply pair_equal_spec in Hrun as [<- Hrun]. split; [by apply Hcaller, Hset|].
    eapply (Hgood None); [by left|exact Hrun].
  - destruct n as [|p|p]; [by eapply (Hbad _ Hrun)| |by eapply (Hbad _ Hrun)].
    cbn [Z.leb Z.compare raise_if mbind result_bind] in Hrun.
    apply pair_equal_spec in Hrun as [<- Hrun]. split; [by apply Hcaller, Hset|].
    eapply (Hgood (Some (Zpos p))); [right; by exists (Zpos p)|exact Hrun].
Qed.
End records.

(** ** Operational metrics *)

Lemma set_store_id {S} (m : state_manager S) : set_store (pointer_store m) m = m.
Proof. by destruct m. Qed.

Lemma listings_length now rows :
  length (listings true now rows) = size rows ∧
  length (listings false now rows) + expired_count now rows = size rows.
Proof.
  assert (Hsize : length (map_to_list rows) = size rows) by apply length_map_to_list.
  unfold listings, expired_count. rewrite <- Hsize. clear Hsize.
  induction (map_to_list rows) as [|[id r] l [IH1 IH2]]; csimpl; [done|].
  destruct (is_expired (expires_at_utc r) now); simpl in *; split; lia.
Qed.

Definition all_types : list ExecutionTraceEventType :=
  [REPLAYED; QUEUED; APPROVAL_REQUIRED; APPROVED; REJECTED; STARTED; RETRIED; FAILED; COMPLETED].

Definition type_count (events : list ExecutionTraceEvent) (t : ExecutionTraceEventType) : nat :=
  length (List.filter (λ e, bool_decide (event_type e = t)) events).

Lemma type_count_cons e es t :
  type_count (e :: es) t = (if bool_decide (event_type e = t) then 1 else 0) + type_count es t.
Proof. unfold type_count. simpl. by case_bool_decide. Qed.

Lemma sum_type_counts events : list_sum (type_count events <$> all_types) = length events.
Proof.
  induction events as [|e es IH]; [done|].
  unfold all_types in *. csimpl in *. rewrite !type_count_cons.
  destruct (event_type e); simpl; lia.
Qed.

Lemma count_types_sum events :
  foldr (λ c acc, c.2 + acc)%Z 0%Z (count_types events) = Z.of_nat (length events).
Proof.
  rewrite <- (sum_type_counts events). unfold count_types. fold all_types.
  induction all_types as [|t ts IH]; [done|]. csimpl.
  change (length (List.filter (λ e, bool_decide (event_type e = t)) events)) with (type_count events t).
  destruct (Nat.eqb_spec (type_count events t) 0) as [Hz|Hz].
  - rewrite IH, Hz. done.
  - simpl. rewrite IH. lia.
Qed.

(** Over any lawful backend the metrics are exact: the pointer counts are
    those of the store and add up, the per-type event counts add up to the
    number of events, and collecting them changes nothing. *)
Theorem metrics_exact {S} `{PointerStoreLaws S} (m : state_manager S) rows now :
  represents (pointer_store m) rows → sm_closed m = false →
  ∃ mt, collect_operational_metrics now m = (m, Ok mt) ∧
    total_pointers mt = Z.of_nat (size rows) ∧
    expired_pointers mt = Z.of_nat (expired_count now rows) ∧
    (total_pointers mt = active_pointers mt + expired_pointers mt)%Z ∧
    foldr (λ c acc, c.2 + acc)%Z 0%Z (trace_events_by_type mt) = trace_event_total mt ∧
    (failed_run_count mt <= run_count mt)%Z.
Proof.
  intros Hrep Hc. unfold collect_operational_metrics, sm_list_pointers, on_store, mbind, stm_bind.
  rewrite (law_list _ _ true now None Hrep). simpl. rewrite set_store_id.
  rewrite (law_list _ _ false now None Hrep). simpl. rewrite set_store_id.
  unfold _connection. rewrite Hc. simpl. unfold st_get.
  destruct (listings_length now rows) as [H1 H2]. unfold listings in H1, H2.
  eexists. split; [reflexivity|]. simpl. rewrite !merge_sort_Permutation.
  simpl in H1, H2. rewrite H1. split_and!; [done|lia|lia|apply count_types_sum|].
  pose proof (filter_length_le (λ r, (0 <? failed_steps r)%Z)
    (map_to_list (execution_run_summaries m)).*2). lia.
Qed.

(** ** Concrete inputs *)
Definition sample_session : ConversationSession :=
  {| session_id := "s1"; session_created_at_utc := 0; session_updated_at_utc := 0;
     memory_strategy := WINDOW; window_turn_limit := Some 1%Z; summary_text := None;
     session_metadata := None |}.
Definition sample_turn : ConversationTurn :=
  {| turn_id := "t1"; turn_session_id := "s1"; role := "user"; content := "hi";
     turn_created_at_utc := 1; pointer_ids := []; macro_run_id := None; turn_metadata := None |}.
Definition sample_manager : state_manager sqlite :=
  {| pointer_store := empty_sqlite; sm_closed := false; execution_trace_events := [];
     execution_run_summaries := ∅; execution_run_checkpoints := ∅; execution_run_diagnostics := ∅;
     conversation_sessions := {["s1" := sample_session]}; conversation_turns := [sample_turn] |}.

Lemma sample_manager_wf : conv_wf sample_manager.
Proof.
  constructor; simpl.
  - by apply map_Forall_singleton.
  - by apply map_Forall_singleton.
  - apply NoDup_singleton.
  - constructor; [|done]. split; [done|]. simpl. rewrite lookup_singleton_eq. by eexists.
Defined.

Lemma conversations_consistent_witness :
  conv_wf sample_manager ∧
  get_session "s1" sample_manager = (sample_manager, match conversation_sessions sample_manager !! "s1" with
    | Some s => Ok s
    | None => Raise (Exn KeyError ("Session " +:+ "s1" +:+ " not found."))
    end) ∧
  (is_Some (conversation_sessions sample_manager !! "s1") →
   list_turns "s1" None sample_manager =
     (sample_manager, Ok (turns_of "s1" (conversation_turns sample_manager)))).
Proof.
  apply (conversations_consistent sample_manager sample_manager "s1").
  - apply sample_manager_wf.
  - reflexivity.
  - apply rtc_refl.
Defined.

Lemma append_turn_retention_witness :
  let turn := {| turn_id := str_or (Some "t2") "g"; turn_session_id := "s1"; role := "assistant";
       content := "yo"; turn_created_at_utc := 2; pointer_ids := []; macro_run_id := None;
       turn_metadata := None |} in
  let before := turns_of "s1" (conversation_turns sample_manager) in
  ∃ m' s', append_turn 2 3 "s1" "assistant" "yo" [] None None (Some "t2") "g" sample_manager = (m', Ok turn) ∧
    same_elsewhere sample_manager m' ∧
    conversation_sessions m' = <["s1" := s']> (conversation_sessions sample_manager) ∧
    same_session sample_session s' ∧
    turns_of "s1" (conversation_turns m') =
      drop (policy_excess 4 8 sample_session (length before + 1)) (before ++ [turn]) ∧
    (∀ sid', sid' ≠ "s1" →
       turns_of sid' (conversation_turns m') = turns_of sid' (conversation_turns sample_manager)) ∧
    (memory_strategy sample_session = SUMMARY → 4 < length before + 1 →
       ∃ text, summary_text s' = Some text ∧ String.length text ≤ 2000).
Proof.
  apply (append_turn_retention sample_manager 2 3 "s1" sample_session).
  - apply sample_manager_wf.
  - reflexivity.
  - reflexivity.
  - vm_compute. repeat constructor. discriminate.
  - right. left.
  - apply (bool_decide_unpack _). vm_compute. exact I.
Defined.

Definition sample_event : ExecutionTraceEvent :=
  {| run_id := "r"; ev_step_id := "a"; ev_tool_name := "t"; event_type := QUEUED;
     timestamp_utc := 1; attempt := 1; resolved_arguments := None; input_pointer_ids := None;
     output_pointer_id := None; duration_ms := None; retry_delay_seconds := None; error := None;
     actor_id := None; actor_scopes := None; operation := None |}.

Lemma trace_roundtrip_witness :
  let m' := (append_trace_events_batch [sample_event] sample_manager).1 in
  st_for_each append_trace_event [sample_event] sample_manager = (m', Ok tt) ∧
  append_trace_events_batch [sample_event] sample_manager = (m', Ok tt) ∧
  list_trace_events "r" m' =
    (m', Ok (annotate_event None None None <$>
       List.filter (λ e, bool_decide (run_id e = "r"))
         (execution_trace_events sample_manager ++ (stored_event <$> [sample_event])))).
Proof.
  apply (trace_roundtrip sample_manager [sample_event] "r" None None None).
  - reflexivity.
  - constructor; [|done]. split; [reflexivity|]. by eexists.
  - constructor.
  - constructor.
  - constructor; [reflexivity| |by split; [|left]]. exists None. by split_and!.
Defined.

Lemma checkpoint_roundtrip_witness :
  let m' := (upsert_run_checkpoint 5 "r" 1 "running" PNone PNone PNone None None sample_manager).1 in
  get_run_checkpoint "r" m' =
    (m', Ok {| started_at_utc := 1; updated_at_utc := 5; status := "running";
               macro_payload := PNone; step_status := PNone; branch_decisions := PNone;
               final_pointer_id := None; actor_metadata := Some (default (PDict []) None) |}) ∧
  ("q" ≠ "r" → (get_run_checkpoint "q" m').2 = (get_run_checkpoint "q" sample_manager).2) ∧
  (execution_run_checkpoints sample_manager !! "q" = None →
   get_run_checkpoint "q" sample_manager =
     (sample_manager, Raise (Exn KeyError ("Execution checkpoint for run " +:+ "q" +:+ " not found.")))).
Proof.
  apply (checkpoint_roundtrip sample_manager 5 "r" 1 "running" PNone PNone PNone None None "q").
  reflexivity.
Defined.

Lemma store_and_point_retrieve_witness :
  let '(caller, (m', r)) := store_and_point (λ _, "0.5") (λ _, 49%Z) 7 "ptr_1" (PStr "data") "s" []
                              (PInt 30) sample_manager in
  (caller = [] ↔ [] = @nil (string * pyval)) ∧
  (is_ok r = true ∧ same_elsewhere sample_manager (set_store (pointer_store sample_manager) m') ∧
   retrieve "ptr_1" m' = (m', Ok "data") ∧
   ∃ row, represents (pointer_store m') (<["ptr_1" := row]> ∅) ∧
     PointerStore.pointer_id row = "ptr_1" ∧ PointerStore.created_at_utc row = 7%Z ∧
     ∀ t, is_expired (expires_at_utc row) t = true ↔
          ∃ n, PInt 30 = PInt n ∧ (7 + n * 1000000 <= t)%Z).
Proof.
  apply (store_and_point_retrieve (λ _, "0.5") (λ _, 49%Z) sample_manager ∅ 7 "ptr_1" (PStr "data")
           "s" [] (PInt 30)).
  - apply empty_sqlite_represents.
  - exact I.
  - intros row _ _ _ _. exact I.
  - reflexivity.
Defined.

Lemma metrics_exact_witness :
  ∃ mt, collect_operational_metrics 9 sample_manager = (sample_manager, Ok mt) ∧
    total_pointers mt = Z.of_nat (size (∅ : gmap string pointer_row)) ∧
    expired_pointers mt = Z.of_nat (expired_count 9 ∅) ∧
    (total_pointers mt = active_pointers mt + expired_pointers mt)%Z ∧
    foldr (λ c acc, c.2 + acc)%Z 0%Z (trace_events_by_type mt) = trace_event_total mt ∧
    (failed_run_count mt <= run_count mt)%Z.
Proof.
  apply (metrics_exact sample_manager ∅ 9).
  - apply empty_sqlite_represents.
  - reflexivity.
Defined.
