(* ===== verification/TokenBucket.v ===== *)
(** The request-rate limiter of [eap/environment/executor.py],
    [_AsyncTokenBucket]: one pass of the [acquire] loop is [try_acquire]; a
    pass that finds no token says how long to sleep before the next.  Clock
    readings and token counts are exact rationals. *)
From stdpp Require Import options.
From Stdlib Require Import Lqa.
From S2P Require Import Prelude Values.
Unset Default Proof Using.

Record bucket := {
  _requests_per_second : Q;
  _capacity : Z;
  _tokens : Q;
  _last_refill : Q
}.

(** [__init__] at clock reading [now]. *)
Definition new_bucket (requests_per_second : Q) (capacity : Z) (now : Q) : bucket :=
  {| _requests_per_second := requests_per_second; _capacity := capacity;
     _tokens := inject_Z capacity; _last_refill := now |}.

Definition Qmin2 (a b : Q) : Q := if Qle_bool a b then a else b.

(** [if elapsed > 0: ...] *)
Definition refill (now : Q) (b : bucket) : bucket :=
  let elapsed := (now - _last_refill b)%Q in
  if negb (Qle_bool elapsed 0) then
    {| _requests_per_second := _requests_per_second b; _capacity := _capacity b;
       _tokens := Qmin2 (inject_Z (_capacity b)) (_tokens b + elapsed * _requests_per_second b);
       _last_refill := now |}
  else b.

(** One pass under the lock: [None] when a token was taken, and otherwise the
    seconds to sleep. *)
Definition try_acquire (now : Q) (b : bucket) : bucket * option Q :=
  let b := refill now b in
  if Qle_bool 1 (_tokens b) then
    ({| _requests_per_second := _requests_per_second b; _capacity := _capacity b;
        _tokens := _tokens b - 1; _last_refill := _last_refill b |}, None)
  else (b, Some ((1 - _tokens b) / _requests_per_second b)%Q).

(** ** The rate it enforces *)

Lemma Qmin2_lb a b : (Qmin2 a b <= a)%Q ∧ (Qmin2 a b <= b)%Q.
Proof.
  unfold Qmin2. destruct (Qle_bool a b) eqn:E.
  - apply Qle_bool_iff in E. split; lra.
  - apply not_true_iff_false in E. rewrite Qle_bool_iff in E. split; lra.
Qed.

Lemma Qmin2_cases a b : Qmin2 a b = a ∨ Qmin2 a b = b.
Proof. unfold Qmin2. destruct (Qle_bool a b); auto. Qed.

(** A bucket as the executor builds it, and as its operations leave it. *)
Record bucket_ok (b : bucket) : Prop := {
  ok_rate : (0 < _requests_per_second b)%Q;
  ok_capacity : (1 <= _capacity b)%Z;
  ok_tokens : (0 <= _tokens b)%Q ∧ (_tokens b <= inject_Z (_capacity b))%Q
}.

Lemma capacity_Q b : bucket_ok b → (1 <= inject_Z (_capacity b))%Q.
Proof. intros [_ Hc _]. by rewrite Zle_Qle in Hc. Qed.

Lemma refill_ok now b : bucket_ok b → bucket_ok (refill now b).
Proof.
  intros Hb. pose proof (capacity_Q b Hb) as HcQ. destruct Hb as [Hr Hc [Ht0 Ht1]].
  unfold refill. destruct (Qle_bool (now - _last_refill b) 0) eqn:E; simpl; [by constructor|].
  apply not_true_iff_false in E. rewrite Qle_bool_iff in E.
  assert (0 <= (now - _last_refill b) * _requests_per_second b)%Q by (apply Qmult_le_0_compat; lra).
  constructor; simpl; [done..|]. split; [|apply Qmin2_lb].
  destruct (Qmin2_cases (inject_Z (_capacity b))
    (_tokens b + (now - _last_refill b) * _requests_per_second b)) as [-> | ->]; lra.
Qed.

(** Refilling adds at most what the rate allows. *)
Lemma refill_bound now b : (_last_refill b <= now)%Q → bucket_ok b →
  (_last_refill (refill now b) == now)%Q ∧
  _requests_per_second (refill now b) = _requests_per_second b ∧
  _capacity (refill now b) = _capacity b ∧
  (_tokens (refill now b) <= _tokens b + (now - _last_refill b) * _requests_per_second b)%Q.
Proof.
  intros Hle Hb. unfold refill. destruct (Qle_bool (now - _last_refill b) 0) eqn:E; simpl.
  - apply Qle_bool_iff in E. assert (Heq : (now == _last_refill b)%Q) by lra.
    split_and!; [by symmetry|done|done|]. rewrite Heq. lra.
  - split_and!; [reflexivity|done|done|]. apply Qmin2_lb.
Qed.

Lemma try_acquire_ok now b : bucket_ok b → bucket_ok (try_acquire now b).1.
Proof.
  intros Hb%(refill_ok now). unfold try_acquire. set (b1 := refill now b) in *. clearbody b1.
  destruct (Qle_bool 1 (_tokens b1)) eqn:E; [|done].
  apply Qle_bool_iff in E. destruct Hb as [Hr Hc [H0 H1]]. constructor; simpl; [done..|lra].
Qed.

(** Passes of any callers under a clock that never goes back, with the number
    of tokens granted. *)
Inductive passes : bucket → bucket → Z → Prop :=
  | passes_nil b : passes b b 0
  | passes_step b b1 b2 n now w :
      passes b b1 n → (_last_refill b1 <= now)%Q → try_acquire now b1 = (b2, w) →
      passes b b2 (n + if is_None w then 1 else 0).

Lemma passes_bound b b' n :
  passes b b' n → bucket_ok b →
  bucket_ok b' ∧ _requests_per_second b' = _requests_per_second b ∧
  (_last_refill b <= _last_refill b')%Q ∧
  (inject_Z n + _tokens b' <=
   _tokens b + (_last_refill b' - _last_refill b) * _requests_per_second b)%Q.
Proof.
  induction 1 as [b|b b1 b2 n now w _ IH Hle Hpass]; intros Hb.
  - split_and!; [done|done|lra|]. change (inject_Z 0) with 0%Q. lra.
  - destruct (IH Hb) as (Hb1 & Hr & Hle1 & Hbound). clear IH.
    pose proof (try_acquire_ok now b1 Hb1) as Hb2. rewrite Hpass in Hb2. simpl in Hb2.
    destruct (refill_bound now b1 Hle Hb1) as (Hlast & Hrate & _ & Htok).
    unfold try_acquire in Hpass. set (r := refill now b1) in *.
    assert (Hstep : (_last_refill b2 == now)%Q ∧ _requests_per_second b2 = _requests_per_second b ∧
      (inject_Z (n + if is_None w then 1 else 0) + _tokens b2 <= inject_Z n + _tokens r)%Q).
    { destruct (Qle_bool 1 (_tokens r)); injection Hpass as <- <-; simpl;
        (split_and!; [done|congruence|]); rewrite inject_Z_plus.
      - change (inject_Z 1) with 1%Q. lra.
      - change (inject_Z 0) with 0%Q. lra. }
    destruct Hstep as (Hlast2 & Hr2 & Hn). split_and!; [done|done|lra|].
    rewrite Hlast2. rewrite Hr in Htok. nra.
Qed.

(** However callers interleave, the tokens a bucket grants between two of
    its states number at most its capacity plus the rate times the time
    between them. *)
Theorem bucket_rate_bound b b' n :
  bucket_ok b → passes b b' n →
  (inject_Z n <= inject_Z (_capacity b) +
                 (_last_refill b' - _last_refill b) * _requests_per_second b)%Q.
Proof.
  intros Hb Hp. destruct (passes_bound _ _ _ Hp Hb) as ([_ _ [H0 _]] & _ & _ & Hbound).
  destruct Hb as [_ _ [_ H1]]. lra.
Qed.

(** The sleep of a refused pass is exact: it is positive, no pass before
    it is over would succeed, and the first one after it does. *)
Theorem bucket_wait_exact b b' now w now' :
  bucket_ok b → (_last_refill b <= now)%Q → (now <= now')%Q →
  try_acquire now b = (b', Some w) →
  (0 < w)%Q ∧ ((try_acquire now' b').2 = None ↔ (now + w <= now')%Q).
Proof.
  intros Hb Hle Hle' Hpass.
  pose proof (refill_ok now b Hb) as Hr. destruct (refill_bound now b Hle Hb) as (Hlast & _ & _ & _).
  unfold try_acquire in Hpass. set (r := refill now b) in *. clearbody r.
  destruct (Qle_bool 1 (_tokens r)) eqn:E; [done|]. injection Hpass as <- <-.
  apply not_true_iff_false in E. rewrite Qle_bool_iff in E.
  pose proof (capacity_Q r Hr) as Hcap. destruct Hr as [Hrate _ [H0 H1]].
  assert (Hw : ((1 - _tokens r) / _requests_per_second r * _requests_per_second r == 1 - _tokens r)%Q).
  { field. lra. }
  set (w := ((1 - _tokens r) / _requests_per_second r)%Q) in *. clearbody w.
  assert (Hpos : (0 < w)%Q) by nra. split; [done|].
  unfold try_acquire, refill. set (el := (now' - _last_refill r)%Q).
  assert (Hel : (el == now' - now)%Q) by (unfold el; rewrite Hlast; lra).
  destruct (Qle_bool el 0) eqn:Eel; cbn [negb _tokens].
  - apply Qle_bool_iff in Eel. destruct (Qle_bool 1 (_tokens r)) eqn:E2.
    + apply Qle_bool_iff in E2. lra.
    + simpl. split; [done|]. intros. lra.
  - apply not_true_iff_false in Eel. rewrite Qle_bool_iff in Eel.
    destruct (Qle_bool 1 (Qmin2 (inject_Z (_capacity r)) (_tokens r + el * _requests_per_second r))) eqn:E2;
      cbn [snd].
    + apply Qle_bool_iff in E2. split; [|done]. intros _.
      destruct (Qmin2_lb (inject_Z (_capacity r)) (_tokens r + el * _requests_per_second r)) as [_ Hm].
      nra.
    + apply not_true_iff_false in E2. rewrite Qle_bool_iff in E2. split; [done|]. intros Hge. exfalso.
      apply E2. destruct (Qmin2_cases (inject_Z (_capacity r)) (_tokens r + el * _requests_per_second r))
        as [-> | ->]; [done|]. nra.
Qed.

Definition sample_bucket : bucket := new_bucket 2 1 0.

Lemma sample_bucket_ok : bucket_ok sample_bucket.
Proof. constructor; [reflexivity|simpl; lia|split; apply Qle_bool_iff; reflexivity]. Defined.

Lemma bucket_rate_bound_witness : (inject_Z 1 <= inject_Z 1 + (0 - 0) * 2)%Q.
Proof.
  apply (bucket_rate_bound sample_bucket (try_acquire 0 sample_bucket).1 1).
  - apply sample_bucket_ok.
  - apply (passes_step sample_bucket sample_bucket _ 0 0 None).
    + apply passes_nil.
    + apply Qle_refl.
    + vm_compute. reflexivity.
Defined.

Lemma bucket_wait_exact_witness :
  (0 < 1 # 2)%Q ∧
  ((try_acquire (1 # 2) (try_acquire 0 (try_acquire 0 sample_bucket).1).1).2 = None ↔
   (0 + (1 # 2) <= 1 # 2)%Q).
Proof.
  apply (bucket_wait_exact (try_acquire 0 sample_bucket).1
           (try_acquire 0 (try_acquire 0 sample_bucket).1).1 0 (1 # 2) (1 # 2)).
  - apply try_acquire_ok, sample_bucket_ok.
  - apply Qle_refl.
  - apply Qle_bool_iff. reflexivity.
  - vm_compute. reflexivity.
Defined.
