(* ===== verification/SqliteSchema.v ===== *)
(** What the program uses of a SQLite file and of Python's [sqlite3] module:
    tables with columns and rows, indexes, the statements of its schema, and
    when they are committed.  A statement that changes rows opens a transaction
    when none is open; one that changes the schema does not, and is committed
    at once outside a transaction.  Column types and constraints other than the
    primary key of a replaced row are left out. *)
From stdpp Require Import options.
From S2P Require Import Prelude Values.
Unset Default Proof Using.

Abbreviation row := (gmap string pyval).

Record table := { columns : list string; rows : list row }.
Record index := { ix_table : string; ix_column : string }.
Record database := { tables : gmap string table; indexes : gmap string index }.

Definition empty_database : database := {| tables := ∅; indexes := ∅ |}.

(** The statements, [IF NOT EXISTS] where tables and indexes are created. *)
Inductive statement :=
  | CreateTable (name : string) (cols : list string)
  | CreateIndex (name on column : string)
  | AddColumn (name column : string)
  | InsertOrReplace (name key : string) (r : row)
  | FillNulls (name column : string) (v : pyval).

Definition is_dml (s : statement) : bool :=
  match s with InsertOrReplace _ _ _ | FillNulls _ _ _ => true | _ => false end.

Definition operational_error (m : string) : exn := Exn (OtherError "OperationalError") m.
Definition no_such_table (name : string) : exn := operational_error ("no such table: " +:+ name).
Definition no_such_column (column : string) : exn := operational_error ("no such column: " +:+ column).

Definition put_table (name : string) (t : table) (d : database) : database :=
  {| tables := <[name := t]> (tables d); indexes := indexes d |}.

(** The table, with the columns a statement names. *)
Definition table_with (name : string) (cols : list string) (d : database) : result table :=
  match tables d !! name with
  | None => Raise (no_such_table name)
  | Some t =>
      match List.find (λ c, bool_decide (c ∉ columns t)) cols with
      | Some c => Raise (no_such_column c)
      | None => Ok t
      end
  end.

(** What a statement does to the database it sees. *)
Definition run_statement (s : statement) (d : database) : result database :=
  match s with
  | CreateTable name cols =>
      match tables d !! name, indexes d !! name with
      | Some _, _ => Ok d
      | None, Some _ => Raise (operational_error ("there is already an index named " +:+ name))
      | None, None => Ok (put_table name {| columns := cols; rows := [] |} d)
      end
  | CreateIndex name on column =>
      match indexes d !! name, tables d !! name with
      | Some _, _ => Ok d
      | None, Some _ => Raise (operational_error ("there is already a table named " +:+ name))
      | None, None =>
          _ ← table_with on [column] d;
          Ok {| tables := tables d; indexes := <[name := {| ix_table := on; ix_column := column |}]> (indexes d) |}
      end
  | AddColumn name column =>
      t ← table_with name [] d;
      _ ← raise_if (bool_decide (column ∈ columns t)) (operational_error ("duplicate column name: " +:+ column));
      Ok (put_table name {| columns := columns t ++ [column]; rows := rows t |} d)
  | InsertOrReplace name key r =>
      t ← table_with name (elements (dom r)) d;
      Ok (put_table name
        {| columns := columns t; rows := List.filter (λ r', bool_decide (r' !! key ≠ r !! key)) (rows t) ++ [r] |} d)
  | FillNulls name column v =>
      t ← table_with name [column] d;
      Ok (put_table name
        {| columns := columns t;
           rows := (λ r, if bool_decide (default PNone (r !! column) = PNone) then <[column := v]> r else r) <$> rows t |} d)
  end.

(** ** Connections *)

(** What is committed, and the open transaction's view. *)
Record connection := { committed : database; uncommitted : option database }.

Definition current (c : connection) : database := default (committed c) (uncommitted c).

(** [conn.execute(statement)] *)
Definition execute (s : statement) : stm connection unit := λ c,
  let d := current c in
  let c := if is_dml s then {| committed := committed c; uncommitted := Some d |} else c in
  match run_statement s d with
  | Raise e => (c, Raise e)
  | Ok d =>
      (match uncommitted c with
       | Some _ => {| committed := committed c; uncommitted := Some d |}
       | None => {| committed := d; uncommitted := None |}
       end, Ok tt)
  end.

(** A query: no transaction is opened. *)
Definition query {A} (f : database → result A) : stm connection A := λ c, (c, f (current c)).

(** [with conn: body] *)
Definition with_connection {A} (body : stm connection A) : stm database A := λ d,
  match body {| committed := d; uncommitted := None |} with
  | (c, Ok a) => (current c, Ok a)
  | (c, Raise e) => (committed c, Raise e)
  end.

(** The process dies after the first [k] statements: what the file holds. *)
Definition crash (statements : list statement) (k : nat) (d : database) : database :=
  committed (st_for_each execute (take k statements) {| committed := d; uncommitted := None |}).1.

(** All of them ran, and the connection is left as [with] leaves it. *)
Definition completed (statements : list statement) (d : database) : database :=
  current (st_for_each execute statements {| committed := d; uncommitted := None |}).1.

Definition has_column (d : database) (name column : string) : Prop :=
  ∃ t, tables d !! name = Some t ∧ column ∈ columns t.
