(* ===== verification/Migrations.v ===== *)
(** The schema of the state file: its versioned migrations
    ([eap/protocol/migrations.py]), the tables the pointer store and the state
    manager create ([sqlite_store.py], [state_manager.py]), and what opening a
    file of any earlier version comes to, also when the process dies half
    way. *)
From stdpp Require Import options.
From S2P Require Import Prelude Values SqliteSchema.
Unset Default Proof Using.

(** ** [migrations.py] *)

(** [MigrationStep] *)
Record MigrationStep := { version : Z; description : string; statements : list statement }.

Definition migration_columns : list string := ["version"; "description"; "applied_at_utc"].
Definition checkpoint_columns : list string :=
  ["run_id"; "started_at_utc"; "updated_at_utc"; "status"; "macro_payload"; "step_status_payload";
   "branch_decisions_payload"; "final_pointer_id"].
Definition diagnostics_columns : list string := ["run_id"; "updated_at_utc"; "payload_json"].

(** [MIGRATIONS] *)
Definition MIGRATIONS : list MigrationStep :=
  [{| version := 1; description := "Create schema_migrations tracking table";
      statements := [CreateTable "schema_migrations" migration_columns] |};
   {| version := 2; description := "Add trace-event step_id index for faster diagnostics";
      statements := [CreateIndex "idx_execution_trace_events_step_id" "execution_trace_events" "step_id"] |};
   {| version := 3; description := "Add run-summary completion-time index for faster history queries";
      statements := [CreateIndex "idx_execution_run_summaries_completed_at" "execution_run_summaries" "completed_at_utc"] |};
   {| version := 4; description := "Add execution run diagnostics table for telemetry exports";
      statements := [CreateTable "execution_run_diagnostics" diagnostics_columns;
                     CreateIndex "idx_execution_run_diagnostics_updated" "execution_run_diagnostics" "updated_at_utc"] |};
   {| version := 5; description := "Add actor metadata payload column to run checkpoints for governance";
      statements := [CreateTable "execution_run_checkpoints" checkpoint_columns;
                     AddColumn "execution_run_checkpoints" "actor_metadata_payload"] |}].

(** [LATEST_SCHEMA_VERSION] *)
Definition LATEST_SCHEMA_VERSION : Z := default 0%Z (version <$> last MIGRATIONS).

(** [_table_exists] *)
Definition _table_exists (name : string) (d : database) : bool := negb (is_None (tables d !! name)).

(** [_ensure_migration_table] *)
Definition _ensure_migration_table : statement := CreateTable "schema_migrations" migration_columns.

(** [COALESCE(MAX(version), 0)] *)
Definition max_version (rs : list row) : Z :=
  match omap (λ r, match r !! "version" with Some (PInt v) => Some v | _ => None end) rs with
  | [] => 0
  | v :: vs => foldl Z.max v vs
  end.

(** [_current_schema_version] *)
Definition _current_schema_version (d : database) : result Z :=
  if _table_exists "schema_migrations" d then
    t ← table_with "schema_migrations" ["version"] d;
    Ok (max_version (rows t))
  else Ok 0%Z.

(** The range both entry points check. *)
Definition check_target (target : Z) : result unit :=
  raise_if ((target <? 0)%Z || (LATEST_SCHEMA_VERSION <? target)%Z)
    (value_error ("target_version must be between 0 and " +:+ pretty LATEST_SCHEMA_VERSION)).

Definition planned (current target : Z) : list MigrationStep :=
  List.filter (λ step, (current <? version step)%Z && (version step <=? target)%Z) MIGRATIONS.

(** [pending_migrations] *)
Definition pending_migrations (target_version : option Z) (d : database) : result (list MigrationStep) :=
  let target := default LATEST_SCHEMA_VERSION target_version in
  _ ← check_target target;
  current ← _current_schema_version d;
  Ok (planned current target).

(** The row a step leaves. *)
Definition migration_row (applied_at : string) (step : MigrationStep) : row :=
  <["version" := PInt (version step)]> (<["description" := PStr (description step)]>
    {["applied_at_utc" := PStr applied_at]}).
Definition record_step (applied_at : string) (step : MigrationStep) : statement :=
  InsertOrReplace "schema_migrations" "version" (migration_row applied_at step).

(** The loop over the planned steps. *)
Definition apply_step (applied_at : string) (step : MigrationStep) : stm connection unit :=
  st_for_each execute (statements step);;
  execute (record_step applied_at step).

(** The dictionary [apply_sqlite_migrations] returns. *)
Record migration_report := {
  dry_run : bool;
  current_version : Z;
  target_version : Z;
  planned_versions : list Z;
  applied_versions : list Z;
  final_version : option Z
}.

(** [apply_sqlite_migrations] *)
Definition apply_sqlite_migrations (target_version : option Z) (dry : bool) (applied_at : string)
  : stm database migration_report :=
  let target := default LATEST_SCHEMA_VERSION target_version in
  st_lift (check_target target);;
  with_connection (
    current ← query _current_schema_version;
    let steps := planned current target in
    if dry then
      mret {| dry_run := true; current_version := current; target_version := target;
              planned_versions := version <$> steps; applied_versions := []; final_version := None |}
    else
      execute _ensure_migration_table;;
      st_for_each (apply_step applied_at) steps;;
      final ← query _current_schema_version;
      mret {| dry_run := false; current_version := current; target_version := target;
              planned_versions := version <$> steps; applied_versions := version <$> steps;
              final_version := Some final |}).

(** ** [SQLitePointerStore.initialize] *)

Definition pointer_columns : list string :=
  ["pointer_id"; "raw_data"; "summary"; "metadata"; "created_at_utc"; "ttl_seconds"; "expires_at_utc"].

(** [PRAGMA table_info] *)
Definition table_columns (name : string) (d : database) : result (list string) :=
  Ok match tables d !! name with Some t => columns t | None => [] end.

(** [_ensure_lifecycle_columns] *)
Definition _ensure_lifecycle_columns (now : string) : stm connection unit :=
  existing_columns ← query (table_columns "state_store");
  st_for_each (λ column,
    if bool_decide (column ∈ existing_columns) then mret tt else execute (AddColumn "state_store" column))
    ["created_at_utc"; "ttl_seconds"; "expires_at_utc"];;
  execute (FillNulls "state_store" "created_at_utc" (PStr now)).

(** [initialize] *)
Definition initialize (now : string) : stm database unit :=
  with_connection (
    execute (CreateTable "state_store" pointer_columns);;
    _ensure_lifecycle_columns now;;
    execute (CreateIndex "idx_state_store_expires_at_utc" "state_store" "expires_at_utc")).

(** ** [StateManager._init_db] *)

Definition event_columns : list string :=
  ["event_id"; "run_id"; "step_id"; "tool_name"; "event_type"; "timestamp_utc"; "attempt"; "resolved_arguments";
   "input_pointer_ids"; "output_pointer_id"; "duration_ms"; "retry_delay_seconds"; "error_payload"].
Definition summary_columns : list string :=
  ["run_id"; "started_at_utc"; "completed_at_utc"; "total_steps"; "succeeded_steps"; "failed_steps";
   "total_duration_ms"; "final_pointer_id"].
Definition session_columns : list string :=
  ["session_id"; "created_at_utc"; "updated_at_utc"; "memory_strategy"; "window_turn_limit"; "summary_text"; "metadata"].
Definition turn_columns : list string :=
  ["turn_id"; "session_id"; "role"; "content"; "created_at_utc"; "pointer_ids"; "macro_run_id"; "metadata"].

Definition state_tables : list statement :=
  [CreateTable "execution_trace_events" event_columns;
   CreateIndex "idx_execution_trace_events_run_id" "execution_trace_events" "run_id";
   CreateTable "execution_run_summaries" summary_columns;
   CreateTable "execution_run_checkpoints" checkpoint_columns;
   CreateIndex "idx_execution_run_checkpoints_status" "execution_run_checkpoints" "status";
   CreateIndex "idx_execution_run_checkpoints_updated" "execution_run_checkpoints" "updated_at_utc";
   CreateTable "execution_run_diagnostics" diagnostics_columns;
   CreateIndex "idx_execution_run_diagnostics_updated" "execution_run_diagnostics" "updated_at_utc";
   CreateTable "conversation_sessions" session_columns;
   CreateTable "conversation_turns" turn_columns;
   CreateIndex "idx_conversation_turns_session_id" "conversation_turns" "session_id";
   CreateIndex "idx_conversation_sessions_updated_at" "conversation_sessions" "updated_at_utc"].

(** [_init_db], on a file the manager's pointer store shares. *)
Definition _init_db (now : string) : stm database unit :=
  initialize now;;
  with_connection (st_for_each execute state_tables);;
  apply_sqlite_migrations None false now;;
  mret tt.
