(* ===== verification/MigrationsProofs.v ===== *)
(** Opening and upgrading the state file: every earlier version is brought to
    the last one with its data, again after a crash in between — but for the
    upgrade from version 4. *)
From stdpp Require Import options.
From S2P Require Import Prelude Values SqliteSchema Migrations.
Unset Default Proof Using.

(** ** What is known of a file *)

(** The columns every version of a known table has. *)
Definition layout : list (string * list string) :=
  [("schema_migrations", migration_columns);
   ("state_store", ["pointer_id"; "raw_data"; "summary"; "metadata"]);
   ("execution_trace_events", event_columns); ("execution_run_summaries", summary_columns);
   ("execution_run_checkpoints", checkpoint_columns); ("execution_run_diagnostics", diagnostics_columns);
   ("conversation_sessions", session_columns); ("conversation_turns", turn_columns)].
Definition index_names : list string :=
  ["idx_execution_trace_events_step_id"; "idx_execution_run_summaries_completed_at";
   "idx_execution_run_diagnostics_updated"; "idx_state_store_expires_at_utc"; "idx_execution_trace_events_run_id";
   "idx_execution_run_checkpoints_status"; "idx_execution_run_checkpoints_updated";
   "idx_conversation_turns_session_id"; "idx_conversation_sessions_updated_at"].

(** The file is of this program: known names stand for known things. *)
Record compatible (d : database) : Prop := {
  co_tables name cols : (name, cols) ∈ layout →
    indexes d !! name = None ∧ ∀ t, tables d !! name = Some t → cols ⊆ columns t;
  co_indexes name : name ∈ index_names → tables d !! name = None
}.

(** Columns known to be there, columns known not to be, and the version. *)
Record facts := { present : list (string * string); missing : list (string * string); at_version : Z }.

Definition known (f : facts) (d : database) : Prop :=
  compatible d ∧ (∀ nc, nc ∈ present f → has_column d nc.1 nc.2) ∧
  (∀ nc, nc ∈ missing f → ¬ has_column d nc.1 nc.2) ∧ _current_schema_version d = Ok (at_version f).

(** What is known after a statement, when it is known to succeed. *)
Definition learn (s : statement) (f : facts) : option facts :=
  match s with
  | CreateTable name cols =>
      match List.find (λ nc, bool_decide (nc.1 = name)) layout with
      | Some (_, minimum) =>
          if bool_decide (Forall (λ c, c ∈ cols) minimum) &&
             bool_decide (Forall (λ nc : string * string, nc.1 = name → nc.2 ∉ cols) (missing f))
          then Some {| present := ((λ c, (name, c)) <$> minimum) ++ present f; missing := missing f; at_version := at_version f |}
          else None
      | None => None
      end
  | CreateIndex name on column =>
      if bool_decide (name ∈ index_names) && bool_decide ((on, column) ∈ present f) then Some f else None
  | AddColumn name column =>
      if bool_decide (name ∈ (present f).*1) && bool_decide ((name, column) ∈ missing f)
      then Some {| present := (name, column) :: present f;
                   missing := List.filter (λ nc, bool_decide (nc ≠ (name, column))) (missing f); at_version := at_version f |}
      else None
  | InsertOrReplace name key r =>
      if bool_decide (name = "schema_migrations") && bool_decide (key = "version") &&
         bool_decide (Forall (λ c, (name, c) ∈ present f) (elements (dom r)))
      then match r !! "version" with
           | Some (PInt v) => if (at_version f <=? v)%Z && (0 <? v)%Z
                              then Some {| present := present f; missing := missing f; at_version := v |} else None
           | _ => None
           end
      else None
  | FillNulls name column _ =>
      if bool_decide (name ≠ "schema_migrations") && bool_decide ((name, column) ∈ present f) then Some f else None
  end.

Fixpoint learn_all (ss : list statement) (f : facts) : option facts :=
  match ss with [] => Some f | s :: ss => f ← learn s f; learn_all ss f end.

(** Rows stay, in order, with all that was in them. *)
Definition rows_kept (rs rs' : list row) : Prop :=
  Forall2 (λ r r', ∀ column w, r !! column = Some w → w ≠ PNone → r' !! column = Some w) rs rs'.
Definition data_kept (d d' : database) : Prop := ∀ name t,
  tables d !! name = Some t → name ≠ "schema_migrations" → ∃ t', tables d' !! name = Some t' ∧ rows_kept (rows t) (rows t').

Lemma rows_kept_refl rs : rows_kept rs rs.
Proof. induction rs; constructor; auto. Qed.
#[export] Instance data_kept_preorder : PreOrder data_kept.
Proof.
  split.
  - intros d name t Ht _. exists t. split; [done|apply rows_kept_refl].
  - intros d1 d2 d3 H1 H2 name t Ht Hn. destruct (H1 name t Ht Hn) as (t2 & Ht2 & Hk).
    destruct (H2 name t2 Ht2 Hn) as (t3 & Ht3 & Hk'). exists t3. split; [done|]. unfold rows_kept in *.
    clear -Hk Hk'. revert Hk'. generalize (rows t3). induction Hk as [|r r' rs rs' Hr _ IH]; intros rs3 H3;
      inversion_clear H3; constructor; auto.
Qed.

Lemma put_has name t d n c : has_column (put_table name t d) n c ↔
  (n = name ∧ c ∈ columns t) ∨ (n ≠ name ∧ has_column d n c).
Proof.
  unfold has_column, put_table. simpl. destruct (decide (n = name)) as [->|Hne].
  - rewrite lookup_insert_eq. naive_solver.
  - rewrite lookup_insert_ne by done. naive_solver.
Qed.

Lemma put_compatible name t d :
  compatible d → name ∉ index_names → (∀ cols, (name, cols) ∈ layout → cols ⊆ columns t) → compatible (put_table name t d).
Proof.
  intros [H1 H2] Hi Hcols. split.
  - intros n cols Hin. destruct (H1 n cols Hin) as [Hix Hn]. split; [done|]. unfold put_table. simpl.
    destruct (decide (n = name)) as [->|Hne]; [rewrite lookup_insert_eq; intros ? [= <-]; auto|].
    rewrite lookup_insert_ne by done. auto.
  - intros n Hn. unfold put_table. simpl. rewrite lookup_insert_ne by (intros ->; done). auto.
Qed.

Lemma put_data name t d :
  (∀ t0, tables d !! name = Some t0 → name = "schema_migrations" ∨ rows_kept (rows t0) (rows t)) → data_kept d (put_table name t d).
Proof.
  intros Hr n t0 Ht Hn. unfold put_table. simpl. destruct (decide (n = name)) as [->|Hne].
  - rewrite lookup_insert_eq. exists t. split; [done|]. by destruct (Hr t0 Ht).
  - rewrite lookup_insert_ne by done. exists t0. split; [done|apply rows_kept_refl].
Qed.

Lemma table_with_Ok name cols d t :
  table_with name cols d = Ok t ↔ tables d !! name = Some t ∧ (∀ c, c ∈ cols → c ∈ columns t).
Proof.
  unfold table_with. destruct (tables d !! name) as [t0|]; [|naive_solver].
  destruct (List.find _ cols) as [c|] eqn:Hf.
  - apply find_some in Hf as [Hin Hc%bool_decide_eq_true]. split; [done|]. intros [[= ->] Hall].
    destruct Hc. by apply Hall, list_elem_of_In.
  - split; [|naive_solver]. intros [= <-]. split; [done|]. intros c Hc.
    assert (bool_decide (c ∉ columns t0) = false) as Hb by (eapply find_none in Hf; [done|by apply list_elem_of_In]).
    apply bool_decide_eq_false in Hb. by apply dec_stable.
Qed.

Lemma has_table d name cols : cols ≠ [] → (∀ c, c ∈ cols → has_column d name c) → ∃ t, table_with name cols d = Ok t.
Proof.
  destruct cols as [|c0 cols]; [done|]. intros _ Hall. destruct (Hall c0 ltac:(left)) as (t & Ht & _). exists t.
  apply table_with_Ok. split; [done|]. intros c Hc. destruct (Hall c Hc) as (t' & Ht' & ?). by simplify_eq.
Qed.

(** ** Versions *)

Definition versions (rs : list row) : list Z :=
  omap (λ r, match r !! "version" with Some (PInt v) => Some v | _ => None end) rs.

Lemma fold_max_spec vs v :
  (v <= foldl Z.max v vs)%Z ∧ (∀ w, w ∈ vs → (w <= foldl Z.max v vs)%Z) ∧ foldl Z.max v vs ∈ v :: vs.
Proof.
  revert v. induction vs as [|w vs IH]; intros v; simpl.
  - split_and!; [lia|by intros ? ?%elem_of_nil|left].
  - destruct (IH (Z.max v w)) as (H1 & H2 & H3). split_and!; [lia| |].
    + intros w' [->|Hw]%elem_of_cons; [lia|auto].
    + apply elem_of_cons in H3 as [->|H3]; [|by do 2 right].
      destruct (Z.max_spec v w) as [[_ ->]|[_ ->]]; [right; left|left].
Qed.

(** The greatest version recorded is the file's. *)
Lemma max_version_eq rs v : v ∈ versions rs → (∀ w, w ∈ versions rs → (w <= v)%Z) → max_version rs = v.
Proof.
  unfold max_version. fold (versions rs). destruct (versions rs) as [|w vs]; [by intros ?%elem_of_nil|]. intros Hv Hall.
  destruct (fold_max_spec vs w) as (H1 & H2 & H3). apply Z.le_antisymm; [by apply Hall|].
  apply elem_of_cons in Hv as [->|Hv]; auto.
Qed.

Lemma max_version_le rs w : w ∈ versions rs → (w <= max_version rs)%Z.
Proof.
  unfold max_version. fold (versions rs). destruct (versions rs) as [|v vs]; [by intros ?%elem_of_nil|].
  destruct (fold_max_spec vs v) as (H1 & H2 & _). intros [->|Hw]%elem_of_cons; auto.
Qed.

Lemma versions_replaced key r rs v : r !! "version" = Some (PInt v) →
  ∀ w, w ∈ versions (List.filter (λ r', bool_decide (r' !! key ≠ r !! key)) rs ++ [r]) → w = v ∨ w ∈ versions rs.
Proof.
  intros Hr w. unfold versions. rewrite omap_app, elem_of_app. simpl. rewrite Hr.
  intros [Hw|Hw]; [right|left; by apply list_elem_of_singleton].
  apply list_elem_of_omap in Hw as (r' & Hin & Hw). apply list_elem_of_omap. exists r'. split; [|done].
  apply list_elem_of_In, filter_In in Hin as [Hin _]. by apply list_elem_of_In.
Qed.

Lemma version_other name t d : name ≠ "schema_migrations" →
  _current_schema_version (put_table name t d) = _current_schema_version d.
Proof.
  intros Hne. unfold _current_schema_version, _table_exists, table_with, put_table. simpl.
  by rewrite lookup_insert_ne by done.
Qed.

Lemma version_table d t v : tables d !! "schema_migrations" = Some t → _current_schema_version d = Ok v →
  "version" ∈ columns t ∧ max_version (rows t) = v.
Proof.
  intros Ht. unfold _current_schema_version, _table_exists. rewrite Ht. cbn [is_None negb].
  intros (t' & [Ht' Hc]%table_with_Ok & [= <-])%bind_Ok. rewrite Ht in Ht'. injection Ht' as <-.
  split; [apply Hc; left|done].
Qed.

Lemma version_put t d v : "version" ∈ columns t → max_version (rows t) = v →
  _current_schema_version (put_table "schema_migrations" t d) = Ok v.
Proof.
  intros Hc Hm. unfold _current_schema_version, _table_exists, put_table. simpl. rewrite lookup_insert_eq. simpl.
  assert (table_with "schema_migrations" ["version"] {| tables := <["schema_migrations" := t]> (tables d); indexes := indexes d |} = Ok t) as ->.
  { apply table_with_Ok. simpl. rewrite lookup_insert_eq. split; [done|]. by intros c ->%list_elem_of_singleton. }
  simpl. by rewrite Hm.
Qed.

(** ** One statement *)

Lemma layout_unique name a b : (name, a) ∈ layout → (name, b) ∈ layout → a = b.
Proof.
  assert (NoDup layout.*1) as Hnd by (apply (bool_decide_unpack _); vm_compute; exact I).
  revert Hnd. induction layout as [|[n c] l IH]; [by intros _ ?%elem_of_nil|]. simpl. intros [Hn Hnd]%NoDup_cons.
  rewrite !elem_of_cons. intros [Ha|Ha] [Hb|Hb]; simplify_eq; auto; exfalso; apply Hn, list_elem_of_fmap; by eexists (_, _).
Qed.

Lemma layout_not_index name cols : (name, cols) ∈ layout → name ∉ index_names.
Proof.
  intros Hin. assert (Forall (λ nc : string * list string, nc.1 ∉ index_names) layout) as Hall
    by (apply (bool_decide_unpack _); vm_compute; exact I).
  rewrite Forall_forall in Hall. apply (Hall _ Hin).
Qed.

Lemma find_layout name n cols : List.find (λ nc : string * list string, bool_decide (nc.1 = name)) layout = Some (n, cols) →
  n = name ∧ (name, cols) ∈ layout.
Proof. intros [Hin Hn%bool_decide_eq_true]%find_some. simpl in Hn. subst. by apply list_elem_of_In in Hin. Qed.

Lemma learn_create name cols f f' d : learn (CreateTable name cols) f = Some f' → known f d →
  ∃ d', run_statement (CreateTable name cols) d = Ok d' ∧ known f' d' ∧ data_kept d d'.
Proof.
  cbn [learn]. destruct (List.find _ layout) as [[n minimum]|] eqn:Hf; [|done]. apply find_layout in Hf as [-> Hin].
  match goal with |- context [if ?b then _ else _] => destruct b eqn:Hb; [|done] end.
  apply andb_true_iff in Hb as [Hmin%bool_decide_eq_true Hmiss%bool_decide_eq_true].
  rewrite Forall_forall in Hmin. rewrite Forall_forall in Hmiss. intros [= <-] (Hco & Hp & Hm & Hv). cbn [run_statement].
  destruct (co_tables d Hco name minimum Hin) as [Hix Htab]. rewrite Hix.
  destruct (tables d !! name) as [t|] eqn:Ht; [exists d|eexists]; (split; [done|]).
  - split; [|done]. split_and!; [done| |done|done]. simpl. intros nc [(c & -> & Hc)%list_elem_of_fmap|Hnc]%elem_of_app; [|auto].
    exists t. split; [done|]. by apply (Htab t).
  - split; [|apply put_data; congruence]. split_and!; simpl.
    + apply put_compatible; [done|by eapply layout_not_index|]. intros cols0 Hin0.
      rewrite (layout_unique _ _ _ Hin0 Hin). intros c Hc. by apply Hmin.
    + intros nc [(c & -> & Hc)%list_elem_of_fmap|Hnc]%elem_of_app; apply put_has; simpl; [left; auto|].
      destruct (decide (nc.1 = name)) as [Heq|Hne]; [|right; auto].
      destruct (Hp nc Hnc) as (t & Ht' & _). by rewrite Heq, Ht in Ht'.
    + intros nc Hnc [[Heq Hc]|[Hne Hc]]%put_has; [by apply (Hmiss nc)|by apply (Hm nc)].
    + destruct (decide (name = "schema_migrations")) as [->|Hne]; [|by rewrite version_other].
      rewrite <- Hv. rewrite (version_put _ _ 0); [|simpl; apply Hmin|done].
      * unfold _current_schema_version, _table_exists. by rewrite Ht.
      * rewrite (layout_unique _ _ migration_columns Hin ltac:(left)). left.
Qed.

Lemma learn_index name on column f f' d : learn (CreateIndex name on column) f = Some f' → known f d →
  ∃ d', run_statement (CreateIndex name on column) d = Ok d' ∧ known f' d' ∧ data_kept d d'.
Proof.
  cbn [learn]. match goal with |- context [if ?b then _ else _] => destruct b eqn:Hb; [|done] end.
  apply andb_true_iff in Hb as [Hi%bool_decide_eq_true Hon%bool_decide_eq_true]. intros [= <-] (Hco & Hp & Hm & Hv). cbn [run_statement].
  destruct (indexes d !! name) as [ix|]; [by exists d|]. rewrite (co_indexes d Hco name Hi).
  destruct (has_table d on [column]) as [t ->]; [done|by intros c ->%list_elem_of_singleton; apply (Hp (on, column))|].
  simpl. eexists. split; [done|]. split; [|by intros n t0 Ht _; exists t0; split; [done|apply rows_kept_refl]].
  split_and!; [|done..]. destruct Hco as [H1 H2]. split; simpl; [|done]. intros n cols Hin. destruct (H1 n cols Hin) as [Hn Hc].
  split; [|done]. rewrite lookup_insert_ne; [done|]. intros ->. by apply (layout_not_index _ _ Hin).
Qed.

Lemma has_not_index f d name column : known f d → has_column d name column → name ∉ index_names.
Proof. intros ([_ Hi] & _) (t & Ht & _) Hin. rewrite (Hi name Hin) in Ht. done. Qed.

Lemma compatible_put name t t0 d : compatible d → tables d !! name = Some t0 → columns t0 ⊆ columns t →
  compatible (put_table name t d).
Proof.
  intros Hco Ht Hsub. apply put_compatible; [done| |].
  - intros Hi. by rewrite (co_indexes d Hco name Hi) in Ht.
  - intros cols Hin. destruct (co_tables d Hco name cols Hin) as [_ Hc]. etrans; [by apply Hc|done].
Qed.

Lemma learn_add name column f f' d : learn (AddColumn name column) f = Some f' → known f d →
  ∃ d', run_statement (AddColumn name column) d = Ok d' ∧ known f' d' ∧ data_kept d d'.
Proof.
  cbn [learn]. match goal with |- context [if ?b then _ else _] => destruct b eqn:Hb; [|done] end.
  apply andb_true_iff in Hb as [Hn%bool_decide_eq_true Hmi%bool_decide_eq_true]. intros [= <-] (Hco & Hp & Hm & Hv).
  apply list_elem_of_fmap in Hn as ([n c] & -> & Hn). simpl in *. destruct (Hp _ Hn) as (t & Ht & Hc). simpl in *.
  cbn [run_statement]. assert (table_with n [] d = Ok t) as -> by (apply table_with_Ok; split; [done|by intros ? ?%elem_of_nil]).
  simpl. assert (column ∉ columns t) as Hnew by (intros Hin; apply (Hm _ Hmi); by exists t).
  rewrite bool_decide_false by done. simpl. eexists. split; [done|]. split.
  2: { apply put_data. simpl. intros t0 Ht0. simplify_eq. right. apply rows_kept_refl. }
  split_and!; simpl.
  - eapply compatible_put; [done..|]. simpl. set_solver.
  - intros nc Hin. apply put_has. simpl. apply elem_of_cons in Hin as [->|Hin]; [left; simpl; set_solver|].
    destruct (Hp nc Hin) as (t' & Ht' & Hc'). destruct (decide (nc.1 = n)) as [Heq|Hne]; [left|right; by split; [|exists t']].
    rewrite Heq in Ht'. simplify_eq. set_solver.
  - intros [n' c'] [Hin Hneq%bool_decide_eq_true]%list_elem_of_In%filter_In Hhas. apply list_elem_of_In in Hin. simpl in *.
    apply put_has in Hhas as [[-> Hc']|[Hne Hc']]; [|by apply (Hm _ Hin)]. simpl in Hc'.
    apply elem_of_app in Hc' as [Hc'| ->%list_elem_of_singleton]; [|done]. apply (Hm _ Hin). by exists t.
  - destruct (decide (n = "schema_migrations")) as [->|Hne]; [|by rewrite version_other].
    destruct (version_table _ _ _ Ht Hv) as [Hvc Hmax]. apply version_put; simpl; [set_solver|done].
Qed.

Lemma table_of name cols f d : cols ≠ [] → known f d → Forall (λ c, (name, c) ∈ present f) cols →
  ∃ t, table_with name cols d = Ok t ∧ tables d !! name = Some t.
Proof.
  intros Hne (_ & Hp & _) Hall. rewrite Forall_forall in Hall.
  destruct (has_table d name cols Hne) as [t Ht]; [intros c Hc; by apply (Hp (name, c)), Hall|].
  exists t. split; [done|]. by apply table_with_Ok in Ht as [? _].
Qed.

(** Rows changed in place change no column. *)
Lemma known_rows name t t0 f v d : known f d → tables d !! name = Some t0 → columns t = columns t0 →
  _current_schema_version (put_table name t d) = Ok v →
  known {| present := present f; missing := missing f; at_version := v |} (put_table name t d).
Proof.
  intros (Hco & Hp & Hm & _) Ht Heq Hv. assert (∀ n c, has_column (put_table name t d) n c ↔ has_column d n c) as Hsame.
  { intros n c. rewrite put_has, Heq. unfold has_column. split; [intros [[-> ?]|[_ ?]]; eauto|].
    intros (t' & Ht' & Hc). destruct (decide (n = name)) as [->|]; [left|right; eauto]. by simplify_eq. }
  split_and!; simpl; [|intros nc Hnc; apply Hsame; auto|intros nc Hnc Hh; apply Hsame in Hh; by apply (Hm nc)|done].
  eapply compatible_put; [done..|]. by rewrite Heq.
Qed.

Lemma learn_record name key r f f' d : learn (InsertOrReplace name key r) f = Some f' → known f d →
  ∃ d', run_statement (InsertOrReplace name key r) d = Ok d' ∧ known f' d' ∧ data_kept d d'.
Proof.
  cbn [learn]. match goal with |- context [if ?b then _ else _] => destruct b eqn:Hb; [|done] end.
  apply andb_true_iff in Hb as [[->%bool_decide_eq_true ->%bool_decide_eq_true]%andb_true_iff Hall%bool_decide_eq_true].
  destruct (r !! "version") as [[]|] eqn:Hr; try done. destruct (_ && _)%Z eqn:Hz; [|done].
  apply andb_true_iff in Hz as [Hle%Z.leb_le _]. intros [= <-] Hk. cbn [run_statement].
  destruct (table_of "schema_migrations" (elements (dom r)) f d) as (t & -> & Ht); [|done..|].
  { intros Hnil. apply elements_empty_inv in Hnil. apply (not_elem_of_empty (C := gset string) "version").
    rewrite <- Hnil. by apply elem_of_dom_2 in Hr. }
  simpl. eexists. split; [done|]. split; [|apply put_data; auto].
  pose proof Hk as (_ & _ & _ & Hv). destruct (version_table _ _ _ Ht Hv) as [Hvc Hmax].
  eapply known_rows; [done..|]. apply version_put; [done|]. simpl. apply max_version_eq.
  - unfold versions. rewrite omap_app, elem_of_app. right. simpl. rewrite Hr. left.
  - intros w [->|Hw]%(versions_replaced "version" r _ _ Hr); [done|]. apply max_version_le in Hw. lia.
Qed.

Lemma learn_fill name column v f f' d : learn (FillNulls name column v) f = Some f' → known f d →
  ∃ d', run_statement (FillNulls name column v) d = Ok d' ∧ known f' d' ∧ data_kept d d'.
Proof.
  cbn [learn]. match goal with |- context [if ?b then _ else _] => destruct b eqn:Hb; [|done] end.
  apply andb_true_iff in Hb as [Hne%bool_decide_eq_true Hin%bool_decide_eq_true]. intros [= <-] Hk. cbn [run_statement].
  destruct (table_of name [column] f d) as (t & -> & Ht); [done..|by constructor|]. simpl. eexists. split; [done|]. split.
  - pose proof Hk as (_ & _ & _ & Hv). destruct f as [p m a].
    eapply (known_rows _ _ _ {| present := p; missing := m; at_version := a |}); [done..|]. by rewrite version_other.
  - apply put_data. simpl. intros t0 Ht0. rewrite Ht in Ht0. injection Ht0 as <-. right. unfold rows_kept. apply Forall2_fmap_r.
    clear. induction (rows t) as [|r rs IH]; constructor; [|exact IH]. intros c w Hr Hw. destruct (bool_decide _) eqn:Hd; [|exact Hr].
    apply bool_decide_eq_true in Hd. rewrite lookup_insert_ne; [done|]. intros ->. rewrite Hr in Hd. simpl in Hd. done.
Qed.

(** What [learn] promises of a statement holds of its run. *)
Lemma learn_sound s f f' d : learn s f = Some f' → known f d →
  ∃ d', run_statement s d = Ok d' ∧ known f' d' ∧ data_kept d d'.
Proof. destruct s; eauto using learn_create, learn_index, learn_add, learn_record, learn_fill. Qed.

(** ** Sequences of statements *)

Lemma execute_current s c d' : run_statement s (current c) = Ok d' → (execute s c).2 = Ok tt ∧ current (execute s c).1 = d'.
Proof. intros Hs. unfold execute. rewrite Hs. destruct (is_dml s); simpl; [done|]. destruct (uncommitted c) eqn:Hc; done. Qed.

Lemma for_each_cons {S A} (f : A → stm S unit) a l s : st_for_each f (a :: l) s = (f a;; st_for_each f l) s.
Proof. reflexivity. Qed.

Lemma for_each_app {S A} (f : A → stm S unit) l1 l2 s :
  st_for_each f (l1 ++ l2) s = (st_for_each f l1;; st_for_each f l2) s.
Proof.
  revert s. induction l1 as [|a l1 IH]; intros s; [reflexivity|]. change ((a :: l1) ++ l2) with (a :: (l1 ++ l2)).
  rewrite for_each_cons. unfold mbind, stm_bind in *. rewrite for_each_cons. unfold mbind, stm_bind.
  destruct (f a s) as [s' [[]|e]]; [|done]. by rewrite IH.
Qed.

Lemma learn_all_sound ss f f' c : learn_all ss f = Some f' → known f (current c) →
  (st_for_each execute ss c).2 = Ok tt ∧ known f' (current (st_for_each execute ss c).1) ∧
  data_kept (current c) (current (st_for_each execute ss c).1).
Proof.
  revert f c. induction ss as [|s ss IH]; intros f c; [intros [= <-]; done|]. cbn [learn_all].
  destruct (learn s f) as [f1|] eqn:Hs; [|done]. intros Hss Hk. simpl in Hss.
  destruct (learn_sound s f f1 (current c) Hs Hk) as (d' & Hrun & Hk' & Hd).
  destruct (execute_current s c d' Hrun) as [Hok Hcur]. rewrite !for_each_cons. unfold mbind, stm_bind.
  destruct (execute s c) as [c1 r]. simpl in *. subst r d'.
  destruct (IH f1 c1 Hss Hk') as (H1 & H2 & H3). split_and!; [done..|by etrans].
Qed.

(** What a crash leaves: the statements before the first that changes rows. *)
Fixpoint autocommitted (ss : list statement) : list statement :=
  match ss with [] => [] | s :: ss => if is_dml s then [] else s :: autocommitted ss end.

Lemma committed_stays ss c d : uncommitted c = Some d → committed (st_for_each execute ss c).1 = committed c.
Proof.
  revert c d. induction ss as [|s ss IH]; intros c d Hc; [done|]. rewrite for_each_cons. unfold mbind, stm_bind.
  assert ((execute s c).1.(committed) = committed c ∧ ∃ d', uncommitted (execute s c).1 = Some d') as [H1 [d' H2]].
  { unfold execute. destruct (run_statement s _), (is_dml s); simpl; rewrite ?Hc; eauto. }
  destruct (execute s c) as [c1 [[]|]]; simpl in *; [|done]. by rewrite (IH c1 d').
Qed.

Lemma committed_prefix ss f f' c : uncommitted c = None → learn_all (autocommitted ss) f = Some f' → known f (current c) →
  known f' (committed (st_for_each execute ss c).1) ∧ data_kept (current c) (committed (st_for_each execute ss c).1).
Proof.
  revert f c. induction ss as [|s ss IH]; intros f c Hc; cbn [autocommitted].
  { intros [= <-]. unfold current. simpl. by rewrite Hc. }
  rewrite for_each_cons. unfold mbind, stm_bind. destruct (is_dml s) eqn:Hs.
  - intros [= <-]. assert (current c = committed c) as -> by (unfold current; by rewrite Hc).
    assert (committed (execute s c).1 = committed c ∧ ∃ d, uncommitted (execute s c).1 = Some d) as [H1 [d Hd]].
    { unfold execute. rewrite Hs. destruct (run_statement s _); simpl; eauto. }
    destruct (execute s c) as [c1 [[]|]]; simpl in *; rewrite ?(committed_stays ss c1 d), H1 by done; done.
  - cbn [learn_all]. destruct (learn s f) as [f1|] eqn:Hl; [|done]. intros Hss Hk. simpl in Hss.
    destruct (learn_sound s f f1 (current c) Hl Hk) as (d' & Hrun & Hk' & Hd).
    assert (execute s c = ({| committed := d'; uncommitted := None |}, Ok tt)) as ->.
    { unfold execute. by rewrite Hs, Hrun, Hc. }
    destruct (IH f1 {| committed := d'; uncommitted := None |} eq_refl Hss Hk') as [H1 H2]. split; [done|by etrans].
Qed.

(** [f] says at least what [g] does. *)
Definition entails (f g : facts) : bool :=
  bool_decide (Forall (λ nc, nc ∈ present f) (present g)) && bool_decide (Forall (λ nc, nc ∈ missing f) (missing g)) &&
  (at_version f =? at_version g)%Z.

Lemma known_weaken f g d : entails f g = true → known f d → known g d.
Proof.
  intros [[H1%bool_decide_eq_true H2%bool_decide_eq_true]%andb_true_iff H3%Z.eqb_eq]%andb_true_iff (Hco & Hp & Hm & Hv).
  rewrite Forall_forall in H1. rewrite Forall_forall in H2. split_and!; [done|auto..|by rewrite <- H3].
Qed.

Definition learns (ss : list statement) (f g : facts) : bool :=
  match learn_all ss f with Some f' => entails f' g | None => false end.

Lemma learns_run ss f g c : learns ss f g = true → known f (current c) →
  (st_for_each execute ss c).2 = Ok tt ∧ known g (current (st_for_each execute ss c).1) ∧
  data_kept (current c) (current (st_for_each execute ss c).1).
Proof.
  unfold learns. destruct (learn_all ss f) as [f'|] eqn:Hl; [|done]. intros He Hk.
  destruct (learn_all_sound ss f f' c Hl Hk) as (H1 & H2 & H3). eauto using known_weaken.
Qed.

Lemma learns_crash ss k f g d : learns (autocommitted (take k ss)) f g = true → known f d →
  known g (crash ss k d) ∧ data_kept d (crash ss k d).
Proof.
  unfold learns. destruct (learn_all _ f) as [f'|] eqn:Hl; [|done]. intros He Hk. unfold crash.
  destruct (committed_prefix (take k ss) f f' {| committed := d; uncommitted := None |} eq_refl Hl Hk) as [H1 H2].
  eauto using known_weaken.
Qed.

(** ** Upgrading *)

(** A file at a version, as far as the later steps depend on it. *)
Definition actor_column : string * string := ("execution_run_checkpoints", "actor_metadata_payload").
Definition facts_at (v : Z) : facts :=
  {| present := (if (v <? 2)%Z then [("execution_trace_events", "step_id")] else []) ++
                (if (v <? 3)%Z then [("execution_run_summaries", "completed_at_utc")] else []) ++
                (if (v <? 5)%Z then [] else [actor_column]);
     missing := if (v <? 5)%Z then [actor_column] else []; at_version := v |}.
Definition upgradable (v : Z) (d : database) : Prop := known (facts_at v) d.

(** What an upgrade executes. *)
Definition upgrade_statements (applied_at : string) (current target : Z) : list statement :=
  _ensure_migration_table ::
  flat_map (λ step, statements step ++ [record_step applied_at step]) (planned current target).

Definition supported : list Z := [0; 1; 2; 3; 4; 5]%Z.

Lemma upgrades_learnt at_ : Forall (λ v, Forall (λ t,
  learns (upgrade_statements at_ v t) (facts_at v) (facts_at (Z.max v t)) = true) supported) supported.
Proof. repeat constructor. Qed.

Lemma apply_steps applied_at steps c : st_for_each (apply_step applied_at) steps c =
  st_for_each execute (flat_map (λ step, statements step ++ [record_step applied_at step]) steps) c.
Proof.
  revert c. induction steps as [|step steps IH]; intros c; [done|]. cbn [flat_map]. rewrite for_each_cons, for_each_app.
  unfold mbind, stm_bind. rewrite for_each_app. unfold apply_step, mbind, stm_bind.
  destruct (st_for_each execute (statements step) c) as [c1 [[]|]]; [|done]. rewrite for_each_cons. unfold mbind, stm_bind.
  destruct (execute _ c1) as [c2 [[]|]]; [|done]. cbn. apply IH.
Qed.

Lemma supported_spec v : v ∈ supported ↔ (0 <= v <= 5)%Z.
Proof.
  unfold supported. rewrite !elem_of_cons, elem_of_nil. lia.
Qed.

Lemma target_ok t : (0 <= t <= 5)%Z → check_target t = Ok tt.
Proof.
  intros Ht. unfold check_target. change LATEST_SCHEMA_VERSION with 5%Z.
  destruct (Z.ltb_spec t 0); [lia|]. destruct (Z.ltb_spec 5 t); [lia|]. done.
Qed.

(** The report of a run from [v] to [target]. *)
Definition upgrade_report (v target : Z) : migration_report :=
  {| dry_run := false; current_version := v; target_version := target; planned_versions := version <$> planned v target;
     applied_versions := version <$> planned v target; final_version := Some (Z.max v target) |}.

Lemma known_version f d : known f d → _current_schema_version d = Ok (at_version f).
Proof. by intros (_ & _ & _ & ?). Qed.

Lemma apply_learnt applied_at v target f g d : (0 <= target <= 5)%Z → at_version f = v → at_version g = Z.max v target →
  learns (upgrade_statements applied_at v target) f g = true → known f d →
  ∃ d', apply_sqlite_migrations (Some target) false applied_at d = (d', Ok (upgrade_report v target)) ∧
        known g d' ∧ data_kept d d' ∧ d' = completed (upgrade_statements applied_at v target) d.
Proof.
  intros Ht Hf Hg Hl Hkf. destruct (learns_run _ _ _ {| committed := d; uncommitted := None |} Hl Hkf) as (Hok & Hk & Hd).
  unfold apply_sqlite_migrations. cbn [default]. rewrite target_ok by done.
  unfold with_connection, st_lift, query, mbind, stm_bind, mret, stm_ret.
  change (current {| committed := d; uncommitted := None |}) with d. rewrite (known_version _ _ Hkf), Hf.
  unfold completed, upgrade_statements in *. rewrite for_each_cons in Hok, Hk, Hd |- *.
  unfold mbind, stm_bind in Hok, Hk, Hd |- *. destruct (execute _ _) as [c1 [[]|]]; [|done]. rewrite apply_steps.
  destruct (st_for_each execute _ c1) as [c2 r]. simpl in *. subst r. rewrite (known_version _ _ Hk), Hg. eauto 6.
Qed.

Lemma apply_run applied_at v target d : (0 <= v <= 5)%Z → (0 <= target <= 5)%Z → upgradable v d →
  ∃ d', apply_sqlite_migrations (Some target) false applied_at d = (d', Ok (upgrade_report v target)) ∧
        upgradable (Z.max v target) d' ∧ data_kept d d' ∧ d' = completed (upgrade_statements applied_at v target) d.
Proof.
  intros Hv Ht Hup. pose proof (upgrades_learnt applied_at) as Hl. rewrite Forall_forall in Hl.
  specialize (Hl v (proj2 (supported_spec v) Hv)). rewrite Forall_forall in Hl.
  specialize (Hl target (proj2 (supported_spec target) Ht)). by apply (apply_learnt applied_at v target (facts_at v)).
Qed.

Lemma planned_versions_eq v target : (0 <= v <= 5)%Z → (0 <= target <= 5)%Z →
  version <$> planned v target = filter (λ w, v < w <= target)%Z [1; 2; 3; 4; 5]%Z.
Proof.
  intros Hv%supported_spec Ht%supported_spec.
  assert (Forall (λ v, Forall (λ t, version <$> planned v t = filter (λ w, v < w <= t)%Z [1; 2; 3; 4; 5]%Z) supported) supported)
    as Hall by repeat constructor.
  rewrite Forall_forall in Hall. specialize (Hall v Hv). rewrite Forall_forall in Hall. by apply Hall.
Qed.

Lemma nothing_planned v target : (0 <= v <= 5)%Z → (0 <= target <= 5)%Z → planned (Z.max v target) target = [].
Proof.
  intros Hv Ht. apply (fmap_nil_inv version). rewrite planned_versions_eq by lia.
  repeat (rewrite filter_cons; rewrite decide_False by lia). done.
Qed.

(** A file at any supported version is brought to any target: the steps
    between the two are applied in order and reported, the version is then the
    greater of the two, every row of every other table keeps what was in it,
    and a second run finds nothing left to do; a dry run reports the same plan
    and changes nothing. *)
Theorem migrations_applied applied_at later v target d : (0 <= v <= 5)%Z → (0 <= target <= 5)%Z → upgradable v d →
  ∃ d', apply_sqlite_migrations (Some target) false applied_at d = (d', Ok (upgrade_report v target)) ∧
        upgradable (Z.max v target) d' ∧ data_kept d d' ∧
        version <$> planned v target = filter (λ w, v < w <= target)%Z [1; 2; 3; 4; 5]%Z ∧
        pending_migrations (Some target) d' = Ok [] ∧
        (∃ d'', apply_sqlite_migrations (Some target) false later d' = (d'', Ok (upgrade_report (Z.max v target) target)) ∧
                upgradable (Z.max v target) d'' ∧ data_kept d' d'') ∧
        apply_sqlite_migrations (Some target) true applied_at d =
          (d, Ok {| dry_run := true; current_version := v; target_version := target;
                    planned_versions := version <$> planned v target; applied_versions := []; final_version := None |}).
Proof.
  intros Hv Ht Hup. destruct (apply_run applied_at v target d Hv Ht Hup) as (d' & Hrun & Hup' & Hd & _).
  exists d'. split_and!; [done..|by apply planned_versions_eq| | |].
  - unfold pending_migrations. cbn [default]. rewrite target_ok by done. rewrite (known_version _ _ Hup').
    change (Ok (planned (Z.max v target) target) = Ok []). by rewrite nothing_planned.
  - destruct (apply_run later (Z.max v target) target d' ltac:(lia) Ht Hup') as (d'' & ? & Hup'' & ? & _).
    exists d''. split_and!; [done| |done]. by rewrite <- Z.max_assoc, Z.max_id in Hup''.
  - unfold apply_sqlite_migrations. cbn [default]. rewrite target_ok by done.
    unfold with_connection, st_lift, query, mbind, stm_bind, mret, stm_ret.
    change (current {| committed := d; uncommitted := None |}) with d. by rewrite (known_version _ _ Hup).
Qed.

(** ** Crashes *)

Lemma crashes_learnt at_ : Forall (λ v, Forall (λ t, Forall (λ k,
  learns (autocommitted (take k (upgrade_statements at_ v t))) (facts_at v) (facts_at v) = true)
  (seq 0 14)) supported) [0; 1; 2; 3; 5]%Z.
Proof. repeat constructor. Qed.

Lemma statements_bound at_ v t : (0 <= v <= 5)%Z → (0 <= t <= 5)%Z → (length (upgrade_statements at_ v t) <= 13)%nat.
Proof.
  intros Hv%supported_spec Ht%supported_spec.
  assert (Forall (λ v, Forall (λ t, (length (upgrade_statements at_ v t) <= 13)%nat) supported) supported) as Hall
    by (apply (bool_decide_unpack _); vm_compute; exact I).
  rewrite Forall_forall in Hall. specialize (Hall v Hv). rewrite Forall_forall in Hall. by apply Hall.
Qed.

Lemma crash_recovers applied_at v target k d : (0 <= v <= 5)%Z → v ≠ 4%Z → (0 <= target <= 5)%Z → upgradable v d →
  upgradable v (crash (upgrade_statements applied_at v target) k d) ∧
  data_kept d (crash (upgrade_statements applied_at v target) k d).
Proof.
  intros Hv Hv4 Ht Hup. pose proof (statements_bound applied_at v target Hv Ht) as Hlen.
  assert (take k (upgrade_statements applied_at v target) = take (min k 13) (upgrade_statements applied_at v target)) as Htake.
  { destruct (decide (k <= 13)%nat); [by rewrite Nat.min_l|]. rewrite !take_ge by lia. done. }
  unfold crash. rewrite Htake. apply (learns_crash _ _ (facts_at v)); [|done].
  pose proof (crashes_learnt applied_at) as Hl. rewrite Forall_forall in Hl. specialize (Hl v ltac:(apply supported_spec in Hv; set_solver)).
  rewrite Forall_forall in Hl. specialize (Hl target (proj2 (supported_spec target) Ht)).
  rewrite Forall_forall in Hl. apply Hl, elem_of_seq. lia.
Qed.

(** C30: Whatever statement the process dies at while it upgrades a file from a
    version other than 4, the file on disk is still one of the version it had,
    with all its rows, and the next upgrade brings it to the target. *)
Theorem crash_recoverable applied_at later v target k d :
  (0 <= v <= 5)%Z → v ≠ 4%Z → (0 <= target <= 5)%Z → upgradable v d →
  let statements := upgrade_statements applied_at v target in
  (apply_sqlite_migrations (Some target) false applied_at d).1 = completed statements d ∧
  upgradable v (crash statements k d) ∧ data_kept d (crash statements k d) ∧
  ∃ d', apply_sqlite_migrations (Some target) false later (crash statements k d) = (d', Ok (upgrade_report v target)) ∧
        upgradable (Z.max v target) d' ∧ data_kept d d'.
Proof.
  intros Hv Hv4 Ht Hup statements. destruct (crash_recovers applied_at v target k d) as [Hup' Hd]; [done..|].
  split_and!; [|done..|].
  - destruct (apply_run applied_at v target d Hv Ht Hup) as (d' & -> & _ & _ & ->). done.
  - destruct (apply_run later v target _ Hv Ht Hup') as (d' & ? & ? & Hd' & _). exists d'. split_and!; [done..|by etrans].
Qed.

(** ** Opening *)

(** A file before its manager opens it: [upgraded] when the checkpoints have
    their last column. *)
Definition facts_open (upgraded : bool) (v : Z) : facts :=
  {| present := if upgraded then [actor_column] else []; missing := if upgraded then [] else [actor_column]; at_version := v |}.
Definition openable (v : Z) (d : database) : Prop := known (facts_open (5 <=? v)%Z v) d.

(** The columns the queries of the manager and its pointer store name. *)
Definition used_columns : list (string * string) :=
  flat_map (λ nc : string * list string, (λ c, (nc.1, c)) <$> nc.2) (("state_store", pointer_columns) :: tail layout).
Definition facts_ready (upgraded : bool) (v : Z) : facts :=
  {| present := used_columns ++ (if upgraded then [actor_column] else []);
     missing := if upgraded then [] else [actor_column]; at_version := v |}.

Definition observe (name column : string) (here : bool) (f : facts) : facts :=
  if here then {| present := (name, column) :: present f; missing := missing f; at_version := at_version f |}
  else {| present := present f; missing := (name, column) :: missing f; at_version := at_version f |}.

Lemma known_observe name column t f d : known f d → tables d !! name = Some t →
  known (observe name column (bool_decide (column ∈ columns t)) f) d.
Proof.
  intros (Hco & Hp & Hm & Hv) Ht. unfold observe. case_bool_decide as Hc; (split_and!; [done| | |done]); simpl; try done.
  - intros nc [->|Hin]%elem_of_cons; [by exists t|auto].
  - intros nc [->|Hin]%elem_of_cons; [|auto]. intros (t' & Ht' & Hc'). simpl in *. by simplify_eq.
Qed.

Lemma for_each_skip {A} (p : A → bool) (g : A → statement) l c :
  st_for_each (λ x, if p x then mret tt else execute (g x)) l c =
  st_for_each execute (g <$> List.filter (λ x, negb (p x)) l) c.
Proof.
  revert c. induction l as [|x l IH]; intros c; [done|]. rewrite for_each_cons. cbn [List.filter]. destruct (p x); [apply IH|].
  change (g <$> x :: ?l) with (g x :: (g <$> l)). cbn [negb fmap list_fmap]. rewrite for_each_cons. unfold mbind, stm_bind.
  destruct (execute _ c) as [c1 [[]|]]; [apply IH|done].
Qed.

Definition booleans : list bool := [true; false].
Definition lifecycle_statements (now : string) (a b c : bool) : list statement :=
  (AddColumn "state_store" <$> (if a then [] else ["created_at_utc"]) ++ (if b then [] else ["ttl_seconds"]) ++
    (if c then [] else ["expires_at_utc"])) ++
  [FillNulls "state_store" "created_at_utc" (PStr now);
   CreateIndex "idx_state_store_expires_at_utc" "state_store" "expires_at_utc"].
Definition facts_store (upgraded : bool) (v : Z) : facts :=
  {| present := ((λ c, ("state_store", c)) <$> pointer_columns) ++ present (facts_open upgraded v);
     missing := missing (facts_open upgraded v); at_version := v |}.
Definition facts_created (upgraded : bool) (v : Z) : facts :=
  {| present := ((λ c, ("state_store", c)) <$> ["pointer_id"; "raw_data"; "summary"; "metadata"]) ++ present (facts_open upgraded v);
     missing := missing (facts_open upgraded v); at_version := v |}.

Lemma lifecycle_learnt now : Forall (λ u, Forall (λ v, Forall (λ a, Forall (λ b, Forall (λ c,
  learns (lifecycle_statements now a b c)
    (observe "state_store" "expires_at_utc" c (observe "state_store" "ttl_seconds" b
      (observe "state_store" "created_at_utc" a (facts_created u v)))) (facts_store u v) = true)
  booleans) booleans) booleans) supported) booleans.
Proof. repeat constructor. Qed.

Lemma tables_learnt : Forall (λ u, Forall (λ v,
  learns [CreateTable "state_store" pointer_columns] (facts_open u v) (facts_created u v) = true ∧
  learns state_tables (facts_store u v) (facts_ready u v) = true) supported) booleans.
Proof. repeat constructor. Qed.

Lemma opening_learnt now : Forall (λ v,
  learns (upgrade_statements now v 5) (facts_ready (5 <=? v)%Z v) (facts_ready true 5) = true) supported.
Proof. repeat constructor. Qed.

Lemma in_booleans b : b ∈ booleans.
Proof. destruct b; set_solver. Qed.

(** [initialize] *)
Lemma initialize_run now u v d : (0 <= v <= 5)%Z → known (facts_open u v) d →
  ∃ d', initialize now d = (d', Ok tt) ∧ known (facts_store u v) d' ∧ data_kept d d'.
Proof.
  intros Hv%supported_spec Hk. pose proof tables_learnt as Hl. rewrite Forall_forall in Hl. specialize (Hl u (in_booleans u)).
  rewrite Forall_forall in Hl. destruct (Hl v Hv) as [Hcreate _].
  destruct (learns_run _ _ _ {| committed := d; uncommitted := None |} Hcreate Hk) as (Hok & Hk1 & Hd1).
  rewrite for_each_cons in Hok, Hk1, Hd1. unfold mbind, stm_bind in Hok, Hk1, Hd1.
  unfold initialize, with_connection, _ensure_lifecycle_columns, query, mbind, stm_bind.
  destruct (execute _ _) as [c1 [[]|]]; [|done]. cbn in Hk1, Hd1. clear Hok.
  assert (∃ t, tables (current c1) !! "state_store" = Some t) as [t Ht].
  { destruct Hk1 as (_ & Hp & _). destruct (Hp ("state_store", "pointer_id")) as (t & ? & _); [left|by exists t]. }
  unfold table_columns. rewrite Ht. cbn [mbind].
  rewrite (for_each_skip (λ column, bool_decide (column ∈ columns t)) (AddColumn "state_store")).
  pose proof (known_observe _ "expires_at_utc" t _ _ (known_observe _ "ttl_seconds" t _ _
    (known_observe _ "created_at_utc" t _ _ Hk1 Ht) Ht) Ht) as Hobs.
  pose proof (lifecycle_learnt now) as Hlife. rewrite Forall_forall in Hlife. specialize (Hlife u (in_booleans u)).
  rewrite Forall_forall in Hlife. specialize (Hlife v Hv).
  set (a := bool_decide ("created_at_utc" ∈ columns t)) in *. set (b := bool_decide ("ttl_seconds" ∈ columns t)) in *.
  set (e := bool_decide ("expires_at_utc" ∈ columns t)) in *.
  rewrite Forall_forall in Hlife. specialize (Hlife a (in_booleans a)). rewrite Forall_forall in Hlife.
  specialize (Hlife b (in_booleans b)). rewrite Forall_forall in Hlife. specialize (Hlife e (in_booleans e)).
  destruct (learns_run _ _ _ c1 Hlife Hobs) as (Hok2 & Hk2 & Hd2).
  unfold lifecycle_statements in Hok2, Hk2, Hd2. rewrite for_each_app in Hok2, Hk2, Hd2. cbn [List.filter]. fold a b e.
  match type of Hok2 with context [AddColumn "state_store" <$> ?l] =>
    match goal with |- context [AddColumn "state_store" <$> ?l'] => replace l' with l by (destruct a, b, e; reflexivity) end end.
  unfold mbind, stm_bind in Hok2, Hk2, Hd2. destruct (st_for_each execute _ c1) as [c2 [[]|]]; [|done].
  cbn [st_for_each] in Hok2, Hk2, Hd2. unfold mbind, stm_bind in Hok2, Hk2, Hd2.
  destruct (execute (FillNulls _ _ _) c2) as [c3 [[]|]]; [|done]. destruct (execute _ c3) as [c4 [[]|]]; [|done].
  exists (current c4). split_and!; [done..|by etrans].
Qed.

Lemma with_statements ss f g d : learns ss f g = true → known f d →
  ∃ d', with_connection (st_for_each execute ss) d = (d', Ok tt) ∧ known g d' ∧ data_kept d d'.
Proof.
  intros Hl Hk. destruct (learns_run ss f g {| committed := d; uncommitted := None |} Hl Hk) as (Hok & Hk' & Hd).
  unfold with_connection. destruct (st_for_each execute ss _) as [c [[]|]]; [|done]. by exists (current c).
Qed.

Definition open_tables (now : string) : stm database unit :=
  initialize now;; with_connection (st_for_each execute state_tables).

Lemma open_tables_run now u v d : (0 <= v <= 5)%Z → known (facts_open u v) d →
  ∃ d', open_tables now d = (d', Ok tt) ∧ known (facts_ready u v) d' ∧ data_kept d d'.
Proof.
  intros Hv Hk. destruct (initialize_run now u v d Hv Hk) as (d1 & Hrun & Hk1 & Hd1).
  pose proof tables_learnt as Hl. rewrite Forall_forall in Hl. specialize (Hl u (in_booleans u)).
  rewrite Forall_forall in Hl. destruct (Hl v (proj2 (supported_spec v) Hv)) as [_ Htab].
  destruct (with_statements _ _ _ d1 Htab Hk1) as (d2 & Hrun2 & Hk2 & Hd2). exists d2. split_and!; [|done|by etrans].
  unfold open_tables, mbind, stm_bind. by rewrite Hrun.
Qed.

Lemma init_db_eq now d : _init_db now d = (open_tables now;; apply_sqlite_migrations None false now;; mret tt) d.
Proof. unfold _init_db, open_tables, mbind, stm_bind. by destruct (initialize now d) as [d1 [[]|]]. Qed.

Lemma init_db_run now v d : (0 <= v <= 5)%Z → openable v d →
  ∃ d', _init_db now d = (d', Ok tt) ∧ known (facts_ready true 5) d' ∧ data_kept d d'.
Proof.
  intros Hv Hk. destruct (open_tables_run now _ v d Hv Hk) as (d1 & Hrun & Hk1 & Hd1).
  pose proof (opening_learnt now) as Hl. rewrite Forall_forall in Hl. specialize (Hl v (proj2 (supported_spec v) Hv)).
  destruct (apply_learnt now v 5 (facts_ready (5 <=? v)%Z v) (facts_ready true 5) d1 ltac:(lia) eq_refl ltac:(simpl; lia) Hl Hk1) as (d2 & Hrun2 & Hk2 & Hd2 & _).
  exists d2. split_and!; [|done|by etrans]. rewrite init_db_eq. unfold mbind, stm_bind. rewrite Hrun.
  change (apply_sqlite_migrations None) with (apply_sqlite_migrations (Some 5%Z)). by rewrite Hrun2.
Qed.

(** A state manager opens every file of the program's, of any version, the
    empty one included: afterwards each column its queries and the pointer
    store's name is there, the version is the last, every row has kept what was
    in it, and the next manager opens the file again. *)
Theorem init_db_ready now later v d : (0 <= v <= 5)%Z → openable v d →
  ∃ d', _init_db now d = (d', Ok tt) ∧ _current_schema_version d' = Ok LATEST_SCHEMA_VERSION ∧
        (∀ name column, (name, column) ∈ actor_column :: used_columns → has_column d' name column) ∧
        data_kept d d' ∧ openable LATEST_SCHEMA_VERSION d' ∧
        ∃ d'', _init_db later d' = (d'', Ok tt) ∧ data_kept d d''.
Proof.
  intros Hv Hop. destruct (init_db_run now v d Hv Hop) as (d' & Hrun & Hk & Hd).
  assert (openable 5 d') as Hop' by (by apply (known_weaken (facts_ready true 5)); [reflexivity|]).
  exists d'. split_and!; [done|by apply known_version in Hk| |done..|].
  - intros name column Hin. pose proof Hk as (_ & Hp & _). apply (Hp (name, column)). cbn [present facts_ready].
    apply elem_of_app. apply elem_of_cons in Hin as [->|Hin]; [right; left|by left].
  - destruct (init_db_run later 5 d' ltac:(lia) Hop') as (d'' & ? & _ & ?). exists d''. split; [done|by etrans].
Qed.

(** ** From version 4 *)

Definition duplicate_actor : exn := operational_error "duplicate column name: actor_metadata_payload".

(** A version 4 whose checkpoints already have the column. *)
Lemma stuck later f d : known f d → at_version f = 4%Z → actor_column ∈ present f →
  apply_sqlite_migrations None false later d = (d, Raise duplicate_actor).
Proof.
  intros Hk Hf Hin. assert (∃ t, tables d !! "schema_migrations" = Some t) as [t Ht].
  { apply known_version in Hk. unfold _current_schema_version, _table_exists in Hk. rewrite Hf in Hk.
    destruct (tables d !! "schema_migrations"); [eauto|done]. }
  pose proof Hk as (_ & Hp & _). destruct (Hp _ Hin) as (t' & Ht' & Hc). cbn in Ht', Hc.
  set (c := {| committed := d; uncommitted := None |}).
  assert (execute _ensure_migration_table c = (c, Ok tt)) as Hensure.
  { unfold execute, current. simpl. by rewrite Ht. }
  assert (st_for_each (apply_step later) (planned 4 5) c = (c, Raise duplicate_actor)) as Hsteps.
  { rewrite apply_steps. change (flat_map _ _) with
      [CreateTable "execution_run_checkpoints" checkpoint_columns;
       AddColumn "execution_run_checkpoints" "actor_metadata_payload"; record_step later (default {| version := 0; description := ""; statements := [] |} (last MIGRATIONS))].
    rewrite for_each_cons. unfold mbind, stm_bind, execute at 1. unfold current. simpl. rewrite Ht'. simpl.
    unfold mbind, stm_bind, execute, current. simpl. unfold table_with. simpl. rewrite Ht'. simpl.
    by rewrite bool_decide_true. }
  unfold apply_sqlite_migrations, with_connection, query. cbn [default]. change LATEST_SCHEMA_VERSION with 5%Z.
  rewrite target_ok by lia. unfold st_lift, mbind, stm_bind. fold c.
  change (current c) with d. rewrite (known_version _ _ Hk), Hf, Hensure, Hsteps. done.
Qed.

(** But not from version 4: its last step adds its column outside any
    transaction, so a file whose upgrade dies right after it keeps version 4
    with the column already there, and every later upgrade of it, and every
    opening of a state manager on it, raises [duplicate column name]. *)
Theorem upgrade_from_4_breaks applied_at d : upgradable 4 d →
  let d1 := crash (upgrade_statements applied_at 4 5) 3 d in
  (apply_sqlite_migrations None false applied_at d).1 = completed (upgrade_statements applied_at 4 5) d ∧
  _current_schema_version d1 = Ok 4%Z ∧ data_kept d d1 ∧
  ∀ later, apply_sqlite_migrations None false later d1 = (d1, Raise duplicate_actor) ∧
           (_init_db later d1).2 = Raise duplicate_actor.
Proof.
  intros Hup d1. destruct (learns_crash (upgrade_statements applied_at 4 5) 3 (facts_at 4) (facts_open true 4) d
    ltac:(reflexivity) Hup) as [Hk Hd].
  split_and!; [|by apply known_version in Hk|done|]; [|intros later; split].
  - destruct (apply_run applied_at 4 5 d ltac:(lia) ltac:(lia) Hup) as (d' & Hrun & _ & _ & ->).
    change (apply_sqlite_migrations None) with (apply_sqlite_migrations (Some 5%Z)). by rewrite Hrun.
  - eapply stuck; [done..|]. left.
  - destruct (open_tables_run later true 4 d1 ltac:(lia) Hk) as (d2 & Hrun & Hk2 & _).
    rewrite init_db_eq. unfold mbind, stm_bind. rewrite Hrun, (stuck later _ _ Hk2); [done..|].
    apply elem_of_app. right. left.
Qed.

(** ** Concrete files *)

Definition has_columnb (d : database) (nc : string * string) : bool :=
  match tables d !! nc.1 with Some t => bool_decide (nc.2 ∈ columns t) | None => false end.
Definition knownb (f : facts) (d : database) : bool :=
  forallb (λ nc : string * list string, is_None (indexes d !! nc.1) &&
    match tables d !! nc.1 with Some t => bool_decide (Forall (λ c, c ∈ columns t) nc.2) | None => true end) layout &&
  forallb (λ name, is_None (tables d !! name)) index_names &&
  forallb (has_columnb d) (present f) && forallb (λ nc, negb (has_columnb d nc)) (missing f) &&
  match _current_schema_version d with Ok v => (v =? at_version f)%Z | Raise _ => false end.

Lemma has_columnb_spec d nc : has_columnb d nc = true ↔ has_column d nc.1 nc.2.
Proof.
  unfold has_columnb, has_column. destruct (tables d !! nc.1) as [t|]; [|naive_solver].
  rewrite bool_decide_eq_true. naive_solver.
Qed.

Lemma forallb_elem {A} (p : A → bool) l x : forallb p l = true → x ∈ l → p x = true.
Proof. intros Hall Hx. rewrite forallb_forall in Hall. by apply Hall, list_elem_of_In. Qed.

Lemma knownb_sound f d : knownb f d = true → known f d.
Proof.
  unfold knownb. intros [[[[H1 H2]%andb_true_iff H3]%andb_true_iff H4]%andb_true_iff H5]%andb_true_iff. split_and!.
  - split.
    + intros name cols Hin. apply (forallb_elem _ _ _ H1) in Hin. cbn [fst snd] in Hin.
      apply andb_true_iff in Hin as [Hix Ht]. split; [by destruct (indexes d !! name)|].
      intros t Htab. rewrite Htab in Ht. apply bool_decide_eq_true in Ht. rewrite Forall_forall in Ht. exact Ht.
    + intros name Hin. apply (forallb_elem _ _ _ H2) in Hin. by destruct (tables d !! name).
  - intros nc Hin. apply has_columnb_spec. by apply (forallb_elem _ _ _ H3).
  - intros nc Hin Hh%has_columnb_spec. apply (forallb_elem _ _ _ H4) in Hin. by rewrite Hh in Hin.
  - destruct (_current_schema_version d); [|done]. apply Z.eqb_eq in H5. by subst.
Qed.

(** A file from before the migrations, with a pointer and a run. *)
Definition pointer_row : row := <["pointer_id" := PStr "ptr_1"]> {["raw_data" := PStr "data"]}.
Definition run_row : row := <["run_id" := PStr "run_1"]> {["status" := PStr "failed"]}.
Definition legacy_tables : gmap string table :=
  <["state_store" := {| columns := ["pointer_id"; "raw_data"; "summary"; "metadata"]; rows := [pointer_row] |}]>
  (<["execution_trace_events" := {| columns := event_columns; rows := [] |}]>
  (<["execution_run_summaries" := {| columns := summary_columns; rows := [] |}]>
  {["execution_run_checkpoints" := {| columns := checkpoint_columns; rows := [run_row] |}]})).
Definition legacy_file : database := {| tables := legacy_tables; indexes := ∅ |}.
(** And one the first four steps have been applied to. *)
Definition version_4_file : database :=
  {| tables := <["schema_migrations" :=
       {| columns := migration_columns; rows := migration_row "2026-01-01T00:00:00+00:00" <$> take 4 MIGRATIONS |}]> legacy_tables;
     indexes := ∅ |}.

Lemma legacy_known : upgradable 0 legacy_file.
Proof. apply knownb_sound. vm_compute. reflexivity. Qed.
Lemma version_4_known : upgradable 4 version_4_file.
Proof. apply knownb_sound. vm_compute. reflexivity. Qed.
Lemma empty_known : openable 0 empty_database.
Proof. apply knownb_sound. vm_compute. reflexivity. Qed.

Lemma migrations_applied_witness :
  ∃ d', apply_sqlite_migrations (Some 3%Z) false "now" legacy_file = (d', Ok (upgrade_report 0 3)) ∧ data_kept legacy_file d'.
Proof.
  destruct (migrations_applied "now" "later" 0 3 legacy_file ltac:(lia) ltac:(lia) legacy_known)
    as (d' & Hrun & _ & Hd & _). exists d'. exact (conj Hrun Hd).
Defined.

Lemma crash_recoverable_witness :
  ∃ d', apply_sqlite_migrations (Some 5%Z) false "later" (crash (upgrade_statements "now" 0 5) 7 legacy_file) =
          (d', Ok (upgrade_report 0 5)) ∧ data_kept legacy_file d'.
Proof.
  destruct (crash_recoverable "now" "later" 0 5 7 legacy_file ltac:(lia) ltac:(lia) ltac:(lia) legacy_known)
    as (_ & _ & _ & d' & Hrun & _ & Hd). exists d'. exact (conj Hrun Hd).
Defined.

Lemma upgrade_from_4_breaks_witness :
  (_init_db "later" (crash (upgrade_statements "now" 4 5) 3 version_4_file)).2 = Raise duplicate_actor.
Proof.
  destruct (upgrade_from_4_breaks "now" version_4_file version_4_known) as (_ & _ & _ & Hall).
  exact (proj2 (Hall "later")).
Defined.

Lemma init_db_ready_witness :
  ∃ d', _init_db "now" empty_database = (d', Ok tt) ∧ has_column d' "conversation_turns" "pointer_ids".
Proof.
  destruct (init_db_ready "now" "later" 0 empty_database ltac:(lia) empty_known)
    as (d' & Hrun & _ & Hcols & _). exists d'. split; [exact Hrun|]. apply Hcols. apply (bool_decide_unpack _). vm_compute. exact I.
Defined.
