(* ===== verification/FileSystem.v ===== *)
(** What the file tools use of [os] and [pathlib] on a POSIX system: a file
    system with symbolic links, [os.path.realpath] (CPython 3.10 to 3.12) and
    the calls that read, write and list.  Paths are lists of components; the
    names of a well-formed file system are real names.  Permissions, name
    length limits, other processes and the disk's own failures are left out. *)
From stdpp Require Import options.
From S2P Require Import Prelude.
Unset Default Proof Using.

Abbreviation path := (list string).

Inductive node :=
  | File (text : string)
  | Directory
  | Symlink (target : string).

Abbreviation file_system := (gmap path node).

#[export] Instance node_eq_dec : EqDecision node.
Proof. solve_decision. Defined.

Definition is_link (n : option node) : bool := match n with Some (Symlink _) => true | _ => false end.
Definition is_directory (n : option node) : bool := match n with Some Directory => true | _ => false end.

(** [p.parent]; the root is its own. *)
Definition parent (p : path) : path := removelast p.

(** [str(p)] *)
Definition path_str (p : path) : string := "/" +:+ py_join "/" p.

(** The components of a name as [Path] parses it: no empty ones, no [.]. *)
Definition components (s : string) : list string :=
  filter (λ c, c ≠ "" ∧ c ≠ ".") (py_split "/"%char s).
Definition is_absolute (s : string) : bool := py_startswith s "/".

Definition symlink_loop (p : path) : exn := Exn RuntimeError ("Symlink loop from " +:+ path_str p).
Definition not_found (p : path) : exn := Exn FileNotFoundError ("No such file or directory: " +:+ path_str p).
Definition not_a_directory (p : path) : exn := Exn NotADirectoryError ("Not a directory: " +:+ path_str p).
Definition is_a_directory (p : path) : exn := Exn (OtherError "IsADirectoryError") ("Is a directory: " +:+ path_str p).

Definition out_of_fuel : exn := Exn (OtherError "fuel") "".

(** ** Resolution *)
Section resolve.
Context (fs : file_system).

(** The loop of [_joinrealpath]; [follow base link target] resolves a link. *)
Fixpoint walk_names (follow : path → path → string → result path) (strict : bool) (base : path) (names : list string)
  : result path :=
  match names with
  | [] => Ok base
  | name :: rest =>
      if decide (name = "..") then walk_names follow strict (parent base) rest
      else
        let newpath := base ++ [name] in
        match fs !! newpath with
        | None =>
            if strict then Raise (match fs !! base with Some (File _) => not_a_directory newpath | _ => not_found newpath end)
            else walk_names follow strict newpath rest
        | Some (Symlink target) =>
            resolved ← follow base newpath target;
            walk_names follow strict resolved rest
        | Some _ => walk_names follow strict newpath rest
        end
  end.

(** [_joinrealpath]: [seen] are the links being resolved.  As many nested
    links as the file system has nodes are enough. *)
Fixpoint joinrealpath (fuel : nat) (strict : bool) (seen : list path) (base : path) (names : list string) : result path :=
  walk_names (λ base link target,
    if decide (link ∈ seen) then Raise (symlink_loop link)
    else match fuel with
         | O => Raise out_of_fuel
         | S fuel => joinrealpath fuel strict (link :: seen) (if is_absolute target then [] else base) (components target)
         end) strict base names.

(** [p.resolve(strict)] *)
Definition resolve (strict : bool) (p : path) : result path := joinrealpath (size fs) strict [] [] p.

(** [p.stat()]: what the path leads to. *)
Definition stat (p : path) : option node :=
  match resolve true p with Ok q => fs !! q | Raise _ => None end.
Definition path_exists (p : path) : bool := negb (is_None (stat p)).
Definition is_dir (p : path) : bool := is_directory (stat p).

(** ** Calls *)

Definition exists_error (p : path) : exn := Exn (OtherError "FileExistsError") ("File exists: " +:+ path_str p).

(** [open(p, "r").read()], before the newlines are translated. *)
Definition open_read (p : path) : result string :=
  q ← resolve true p;
  match fs !! q with
  | Some (File text) => Ok text
  | Some Directory => Raise (is_a_directory p)
  | _ => Raise (not_found p)
  end.

(** [open(p, "w").write(content)], or with ["a"]. *)
Definition open_write (append : bool) (p : path) (content : string) : file_system * result unit :=
  match resolve false p with
  | Raise e => (fs, Raise e)
  | Ok q =>
      match fs !! q with
      | Some Directory | Some (Symlink _) => (fs, Raise (is_a_directory p))
      | Some (File text) => (<[q := File (if append then text +:+ content else content)]> fs, Ok tt)
      | None =>
          match fs !! parent q with
          | Some Directory => (<[q := File content]> fs, Ok tt)
          | Some (File _) => (fs, Raise (not_a_directory p))
          | _ => (fs, Raise (not_found p))
          end
      end
  end.

(** [os.mkdir(p)] *)
Definition os_mkdir (p : path) : file_system * result unit :=
  match resolve true (parent p) with
  | Raise e => (fs, Raise e)
  | Ok q =>
      match fs !! q, last p with
      | Some Directory, Some name =>
          if is_None (fs !! (q ++ [name])) then (<[q ++ [name] := Directory]> fs, Ok tt) else (fs, Raise (exists_error p))
      | Some Directory, None => (fs, Raise (exists_error p))
      | _, _ => (fs, Raise (not_a_directory p))
      end
  end.

(** The names in a directory, in no particular order. *)
Definition children (p : path) : list string :=
  omap (λ kv, match last kv.1 with Some x => if decide (kv.1 = p ++ [x]) then Some x else None | None => None end)
    (map_to_list fs).

(** ** Well-formed file systems *)

Definition real_name (c : string) : bool := bool_decide (c ≠ "" ∧ c ≠ "." ∧ c ≠ "..").

(** Everything there is lies in a directory, under a name. *)
Record fs_ok : Prop := {
  fs_root : fs !! [] = Some Directory;
  fs_parents p x : is_Some (fs !! (p ++ [x])) → fs !! p = Some Directory ∧ real_name x = true
}.

(** No link on the way to [p], nor at it; and only names. *)
Definition canonical (p : path) : Prop :=
  Forall (λ c, real_name c = true) p ∧ ∀ q, q `prefix_of` p → is_link (fs !! q) = false.

Lemma prefix_snoc (q p : path) x : q `prefix_of` p ++ [x] → q = p ++ [x] ∨ q `prefix_of` p.
Proof.
  intros [r Hr]. destruct r as [|y r _] using rev_ind; [left; by rewrite app_nil_r in Hr|right].
  rewrite app_assoc in Hr. apply app_inj_tail in Hr as [-> _]. by eexists.
Qed.

(** Components as [Path] keeps them. *)
Definition clean (names : list string) : Prop := Forall (λ c, c ≠ "" ∧ c ≠ ".") names.

Lemma components_clean s : clean (components s).
Proof. apply Forall_forall. unfold components. by intros c [Hc _]%list_elem_of_filter. Qed.

Lemma parent_snoc p x : parent (p ++ [x]) = p.
Proof. apply removelast_last. Qed.
Lemma parent_prefix p : parent p `prefix_of` p.
Proof. destruct p as [|x p _] using rev_ind; [done|]. rewrite parent_snoc. by eexists. Qed.

Lemma canonical_root : fs_ok → canonical [].
Proof. intros Hok. split; [done|]. intros q ->%prefix_nil_inv. by rewrite (fs_root Hok). Qed.

Lemma canonical_prefix p q : canonical p → q `prefix_of` p → canonical q.
Proof.
  intros [Hn Hl] [r ->]. split; [by apply Forall_app in Hn as [? _]|]. intros q' Hq'. apply Hl. by apply prefix_app_r.
Qed.

Lemma canonical_snoc p x : canonical p → real_name x = true → is_link (fs !! (p ++ [x])) = false → canonical (p ++ [x]).
Proof.
  intros [Hn Hl] Hx Hf. split; [apply Forall_app; by split; [|apply Forall_singleton]|].
  intros q Hq. apply prefix_snoc in Hq as [->|Hq]; auto.
Qed.

(** Whatever a walk comes to is reached without a link. *)
Lemma walk_canonical follow strict base names q :
  canonical base → clean names →
  (∀ b link target r, canonical b → fs !! link = Some (Symlink target) → follow b link target = Ok r → canonical r) →
  walk_names follow strict base names = Ok q → canonical q.
Proof.
  intros Hb Hn Hf. revert base Hb. induction Hn as [|name names [Hne Hdot] _ IH]; intros base Hb; simpl; [by intros [= <-]|].
  case_decide as Hdd; [by apply IH, (canonical_prefix base), parent_prefix|].
  assert (real_name name = true) as Hreal by (by apply bool_decide_eq_true).
  destruct (fs !! (base ++ [name])) as [[| |target]|] eqn:Hl.
  - apply IH, canonical_snoc; [done..|by rewrite Hl].
  - apply IH, canonical_snoc; [done..|by rewrite Hl].
  - intros (r & Hr & Hw)%bind_Ok. eapply IH; [|done]. by eapply Hf.
  - destruct strict; [done|]. apply IH, canonical_snoc; [done..|by rewrite Hl].
Qed.

Lemma joinrealpath_canonical fuel strict seen base names q :
  fs_ok → canonical base → clean names → joinrealpath fuel strict seen base names = Ok q → canonical q.
Proof.
  intros Hok. revert seen base names q. induction fuel as [|fuel IH]; intros seen base names q Hb Hn; simpl;
    apply walk_canonical; [done..| |done|done|]; intros b link target r Hcb Hl; case_decide; try done.
  apply IH; [|apply components_clean]. destruct (is_absolute target); [by apply canonical_root|done].
Qed.

Lemma resolve_canonical strict p q : fs_ok → clean p → resolve strict p = Ok q → canonical q.
Proof. intros Hok. apply joinrealpath_canonical; [done|by apply canonical_root]. Qed.

(** A strict resolution leads to something. *)
Lemma exists_parent p : fs_ok → is_Some (fs !! p) → is_Some (fs !! parent p).
Proof.
  intros Hok. destruct p as [|x p _] using rev_ind; [done|]. rewrite parent_snoc. intros Hp.
  destruct (fs_parents Hok _ _ Hp) as [-> _]. by eexists.
Qed.

Lemma walk_present follow base names q :
  fs_ok → is_Some (fs !! base) →
  (∀ b link target r, is_Some (fs !! b) → follow b link target = Ok r → is_Some (fs !! r)) →
  walk_names follow true base names = Ok q → is_Some (fs !! q).
Proof.
  intros Hok Hb Hf. revert base Hb. induction names as [|name names IH]; intros base Hb; simpl; [by intros [= <-]|].
  case_decide; [by apply IH, exists_parent|].
  destruct (fs !! (base ++ [name])) as [[| |target]|] eqn:Hl; [by apply IH; eauto|by apply IH; eauto| |done].
  intros (r & Hr & Hw)%bind_Ok. eapply IH; [|done]. by eapply Hf.
Qed.

Lemma joinrealpath_exists fuel seen base names q :
  fs_ok → is_Some (fs !! base) → joinrealpath fuel true seen base names = Ok q → is_Some (fs !! q).
Proof.
  intros Hok. revert seen base names q. induction fuel as [|fuel IH]; intros seen base names q Hb; simpl;
    apply walk_present; [done..| |done|done|]; intros b link target r Hcb; case_decide; try done.
  apply IH. destruct (is_absolute target); [|done]. rewrite (fs_root Hok). by eexists.
Qed.

(** The fuel suffices. *)
Lemma walk_fuel follow strict base names :
  (∀ b link target, fs !! link = Some (Symlink target) → follow b link target ≠ Raise out_of_fuel) →
  walk_names follow strict base names ≠ Raise out_of_fuel.
Proof.
  intros Hf. revert base. induction names as [|name names IH]; intros base; simpl; [done|].
  case_decide; [apply IH|]. destruct (fs !! (base ++ [name])) as [[| |target]|] eqn:Hl; try apply IH.
  - specialize (Hf base _ _ Hl). destruct (follow base _ target) as [r|e]; [apply IH|]. simpl. congruence.
  - destruct strict; [|apply IH]. by destruct (fs !! base) as [[]|].
Qed.

Lemma joinrealpath_fuel fuel strict seen base names :
  NoDup seen → (∀ link, link ∈ seen → is_Some (fs !! link)) → size fs ≤ length seen + fuel →
  joinrealpath fuel strict seen base names ≠ Raise out_of_fuel.
Proof.
  revert seen base names. induction fuel as [|fuel IH]; intros seen base names Hnd Hin Hsize; simpl;
    apply walk_fuel; intros b link target Hl; case_decide as Hseen; [done| |done|].
  - exfalso. assert (length (link :: seen) ≤ size (dom (D := gset path) fs)) as Hlen;
      [|pose proof (size_dom (D := gset path) fs); simpl in Hlen, Hsize; lia].
    rewrite <- (size_list_to_set (C := gset path)) by (by constructor). apply subseteq_size.
    intros x. rewrite elem_of_list_to_set, elem_of_dom, elem_of_cons. intros [->|Hx]; eauto.
  - apply IH; [by constructor| |simpl; lia]. intros x [->|Hx]%elem_of_cons; eauto.
Qed.

(** ** Calls on canonical paths *)

Lemma walk_known follow base names :
  Forall (λ c, real_name c = true) names → (∀ q, q `prefix_of` base ++ names → is_link (fs !! q) = false) →
  walk_names follow false base names = Ok (base ++ names) ∧
  (fs_ok → is_Some (fs !! (base ++ names)) → walk_names follow true base names = Ok (base ++ names)).
Proof.
  intros Hn. revert base. induction Hn as [|name names Hname Hn IH]; intros base Hl; simpl; [by rewrite app_nil_r|].
  apply bool_decide_eq_true in Hname as (_ & _ & Hdd). rewrite !decide_False by done.
  replace (base ++ name :: names) with ((base ++ [name]) ++ names) in * by (by rewrite <- app_assoc).
  destruct (IH _ Hl) as [IH1 IH2].
  assert (is_link (fs !! (base ++ [name])) = false) as Hlink by (apply Hl; by eexists).
  destruct (fs !! (base ++ [name])) as [[| |]|] eqn:Hf; [by split|by split|done|]. split; [done|].
  intros Hok Hp. exfalso.
  assert (∀ r, is_Some (fs !! ((base ++ [name]) ++ r)) → is_Some (fs !! (base ++ [name]))) as Hpre;
    [|apply Hpre in Hp; rewrite Hf in Hp; by destruct Hp].
  clear -Hok. intros r. induction r as [|x r IH] using rev_ind; [by rewrite app_nil_r|].
  rewrite app_assoc. intros Hx. apply IH. destruct (fs_parents Hok _ _ Hx) as [-> _]. by eexists.
Qed.

Lemma joinrealpath_walk fuel strict seen base names :
  ∃ follow, joinrealpath fuel strict seen base names = walk_names follow strict base names.
Proof. destruct fuel; cbn [joinrealpath]; exact (ex_intro _ _ eq_refl). Qed.

Lemma resolve_known p : canonical p → resolve false p = Ok p.
Proof.
  intros [Hn Hl]. unfold resolve. destruct (joinrealpath_walk (size fs) false [] [] p) as [follow ->].
  by apply (walk_known follow []).
Qed.

Lemma resolve_present p : fs_ok → canonical p → is_Some (fs !! p) → resolve true p = Ok p.
Proof.
  intros Hok [Hn Hl] Hp. unfold resolve. destruct (joinrealpath_walk (size fs) true [] [] p) as [follow ->].
  by apply (walk_known follow []).
Qed.

Lemma names_clean p : Forall (λ c, real_name c = true) p → clean p.
Proof. intros Hp. eapply Forall_impl; [exact Hp|]. intros c Hc. by apply bool_decide_eq_true in Hc as (? & ? & _). Qed.

(** A strict resolution agrees with the loose one. *)
Lemma walk_strict follow follow' base names q :
  (∀ b link target r, follow b link target = Ok r → follow' b link target = Ok r) →
  walk_names follow true base names = Ok q → walk_names follow' false base names = Ok q.
Proof.
  intros Hf. revert base. induction names as [|name names IH]; intros base; simpl; [done|].
  case_decide; [apply IH|]. destruct (fs !! (base ++ [name])) as [[| |target]|]; [apply IH|apply IH| |done].
  intros (r & Hr & Hw)%bind_Ok. rewrite (Hf _ _ _ _ Hr). by apply IH.
Qed.

Lemma joinrealpath_strict fuel seen base names q :
  joinrealpath fuel true seen base names = Ok q → joinrealpath fuel false seen base names = Ok q.
Proof.
  revert seen base names q. induction fuel as [|fuel IH]; intros seen base names q; simpl; apply walk_strict;
    intros b link target r; case_decide; try done. apply IH.
Qed.

Lemma resolve_strict p q : resolve true p = Ok q → resolve false p = Ok q.
Proof. apply joinrealpath_strict. Qed.

Lemma stat_known p : fs_ok → canonical p → stat p = fs !! p.
Proof.
  intros Hok Hp. unfold stat. destruct (fs !! p) as [n|] eqn:Hf; [by rewrite resolve_present, Hf|].
  destruct (resolve true p) as [q|e] eqn:Hr; [|done].
  apply resolve_strict in Hr. rewrite resolve_known in Hr by done. by injection Hr as <-.
Qed.

Lemma open_read_known p : fs_ok → canonical p →
  open_read p = match fs !! p with
                | Some (File text) => Ok text
                | Some Directory => Raise (is_a_directory p)
                | _ => open_read p
                end.
Proof.
  intros Hok Hp. unfold open_read at 1. destruct (fs !! p) as [[]|] eqn:Hf; try done; rewrite resolve_present by eauto;
    simpl; by rewrite Hf.
Qed.

(** A name is listed once, if it is there. *)
Lemma elem_of_children p x : x ∈ children p ↔ is_Some (fs !! (p ++ [x])).
Proof.
  unfold children. rewrite list_elem_of_omap. split.
  - intros ([q n] & Hq & Hx). apply elem_of_map_to_list in Hq. simpl in Hx.
    destruct (last q) as [y|]; [|done]. case_decide; [|done]. simplify_eq. by eexists.
  - intros [n Hn]. exists (p ++ [x], n). split; [by apply elem_of_map_to_list|]. simpl.
    by rewrite last_snoc, decide_True.
Qed.

Lemma children_NoDup p : NoDup (children p).
Proof.
  unfold children. pose proof (NoDup_fst_map_to_list fs) as Hnd. revert Hnd.
  induction (map_to_list fs) as [|[q n] l IH]; simpl; [constructor|]. intros [Hq Hnd]%NoDup_cons.
  destruct (last q) as [y|]; [|by apply IH]. case_decide as Heq; [|by apply IH]. constructor; [|by apply IH].
  rewrite list_elem_of_omap. intros ([q' n'] & Hin & Hx). simpl in Hx.
  destruct (last q') as [y'|]; [|done]. case_decide; [|done]. simplify_eq.
  apply Hq. apply list_elem_of_fmap. by eexists (_, _).
Qed.

Lemma resolve_fuel strict p : resolve strict p ≠ Raise out_of_fuel.
Proof. apply joinrealpath_fuel; [constructor|by intros ? ?%elem_of_nil|simpl; lia]. Qed.
End resolve.

Definition write_text (append : bool) (p : path) (content : string) : stm file_system unit :=
  λ fs, open_write fs append p content.

(** [p.mkdir(exist_ok=True)] *)
Definition mkdir_one (p : path) : stm file_system unit := λ fs,
  match os_mkdir fs p with
  | (fs, Raise e) =>
      (fs, if decide (exn_cls e = FileNotFoundError) then Raise e else if is_dir fs p then Ok tt else Raise e)
  | done => done
  end.

(** [p.mkdir(parents=True, exist_ok=True)] *)
Fixpoint mkdir_parents (depth : nat) (p : path) : stm file_system unit := λ fs,
  match os_mkdir fs p with
  | (fs, Raise e) =>
      if decide (exn_cls e = FileNotFoundError) then
        match depth with
        | O => (fs, Raise e)
        | S depth => (mkdir_parents depth (parent p);; mkdir_one p) fs
        end
      else (fs, if is_dir fs p then Ok tt else Raise e)
  | done => done
  end.

(** Reading in text mode: the newlines of every platform become ["\n"]. *)
Fixpoint universal_newlines (s : string) : string :=
  match s with
  | String "013" (String "010" rest) | String "013" rest => String "010" (universal_newlines rest)
  | String c rest => String c (universal_newlines rest)
  | "" => ""
  end.

(** The bytes a text takes in UTF-8. *)
Fixpoint utf8_size (s : string) : Z :=
  match s with
  | "" => 0
  | String c rest => (if (Ascii.nat_of_ascii c <? 128)%nat then 1 else 2) + utf8_size rest
  end%Z.

(** [os.path.relpath(p, start)] *)
Fixpoint strip_common (p start : path) : path * path :=
  match p, start with
  | x :: p', y :: start' => if decide (x = y) then strip_common p' start' else (p, start)
  | _, _ => (p, start)
  end.
Definition relpath (p start : path) : string :=
  let '(rest, up) := strip_common p start in
  match (replicate (length up) ".." ++ rest)%list with
  | [] => "."
  | names => py_join "/" names
  end.
