(* ===== verification/FileTools.v ===== *)
(** The file tools, [eap/environment/tools/file_tools.py]: reading, writing and
    listing below a sandbox root, whatever symbolic links lie on the way. *)
From stdpp Require Import options.
From S2P Require Import Prelude Values Json FileSystem.
Unset Default Proof Using.

Definition DEFAULT_MAX_READ_CHARACTERS : Z := 200000.
Definition DEFAULT_MAX_LIST_ENTRIES : Z := 200.

(** What the process is asked for: its working directory, home directories by
    the name after the tilde, [EAP_FILE_TOOL_ROOT]. *)
Record process := {
  getcwd : string;
  home_of : string → option string;
  root_env : option string
}.

(** A pathlib path: absolute or not, and its components. *)
Definition pure_path : Type := bool * path.
Definition parse_path (s : string) : pure_path := (is_absolute s, components s).

Section tools.
Context (e : process).
(** The order [os.scandir] lists a directory in. *)
Context (scandir : file_system → path → list string).
(** [repr] of a float, for [json.dumps]; the payloads hold none. *)
Context (float_repr : Q → string).

(** [Path(s).expanduser()] *)
Definition expanduser (p : pure_path) : result pure_path :=
  match p with
  | (false, name :: rest) =>
      match strip_prefix "~" name with
      | Some user =>
          match home_of e user with
          | Some home => Ok (is_absolute home, components home ++ rest)
          | None => Raise (Exn RuntimeError "Could not determine home directory.")
          end
      | None => Ok p
      end
  | _ => Ok p
  end.

(** The path in full, relative ones taken from [base]. *)
Definition from_base (base : path) (p : pure_path) : path := if p.1 then p.2 else base ++ p.2.

(** [p == root or root in p.parents] *)
Definition inside (root p : path) : bool := bool_decide (root `prefix_of` p).

Definition escapes (what : string) (root : path) : exn :=
  Exn PermissionError (what +:+ " escapes the configured file tool sandbox root '" +:+ path_str root +:+ "'.").

(** [_validate_non_empty_path] *)
Definition _validate_non_empty_path (value field_name : string) : result unit :=
  raise_if (py_blank value) (value_error ("'" +:+ field_name +:+ "' must be a non-empty string.")).

Section reads.
Context (fs : file_system).

(** [_sandbox_root] *)
Definition _sandbox_root (sandbox_root : option string) : result path :=
  let raw_root := str_or sandbox_root (str_or (root_env e) (getcwd e)) in
  requested ← expanduser (parse_path raw_root);
  root ← resolve fs false (from_base (components (getcwd e)) requested);
  _ ← raise_if (negb (path_exists fs root))
        (Exn FileNotFoundError ("File tool sandbox root does not exist: " +:+ path_str root));
  _ ← raise_if (negb (is_dir fs root))
        (Exn NotADirectoryError ("File tool sandbox root is not a directory: " +:+ path_str root));
  Ok root.

(** [_resolve_sandbox_path] *)
Definition _resolve_sandbox_path (path_value field_name : string) (sandbox_root : option string) : result (path * path) :=
  _ ← _validate_non_empty_path path_value field_name;
  root ← _sandbox_root sandbox_root;
  requested ← expanduser (parse_path path_value);
  resolved ← resolve fs false (from_base root requested);
  _ ← raise_if (negb (inside root resolved)) (escapes ("Path '" +:+ path_value +:+ "'") root);
  Ok (root, resolved).

(** [_assert_existing_path_in_sandbox] *)
Definition _assert_existing_path_in_sandbox (path_value field_name : string) (sandbox_root : option string)
  : result (path * path) :=
  '(root, resolved) ← _resolve_sandbox_path path_value field_name sandbox_root;
  _ ← raise_if (negb (path_exists fs resolved))
        (Exn FileNotFoundError ("Path '" +:+ path_value +:+ "' not found inside file tool sandbox '" +:+
           path_str root +:+ "'."));
  strict_resolved ← resolve fs true resolved;
  _ ← raise_if (negb (inside root strict_resolved)) (escapes ("Path '" +:+ path_value +:+ "'") root);
  Ok (root, strict_resolved).

(** [_assert_write_target_in_sandbox] *)
Definition _assert_write_target_in_sandbox (file_path : string) (sandbox_root : option string) : result (path * path) :=
  '(root, resolved) ← _resolve_sandbox_path file_path "file_path" sandbox_root;
  _ ← (if path_exists fs (parent resolved) then
         parent_resolved ← resolve fs true (parent resolved);
         _ ← raise_if (negb (inside root parent_resolved))
               (escapes ("Parent directory for '" +:+ file_path +:+ "'") root);
         if path_exists fs resolved then
           target_resolved ← resolve fs true resolved;
           raise_if (negb (inside root target_resolved)) (escapes ("Path '" +:+ file_path +:+ "'") root)
         else Ok tt
       else Ok tt);
  Ok (root, resolved).

(** [read_local_file] *)
Definition read_local_file (file_path : string) (max_characters : Z) (sandbox_root : option string) : result string :=
  _ ← raise_if (max_characters <? 1)%Z (value_error "'max_characters' must be >= 1.");
  '(root, resolved_path) ← _assert_existing_path_in_sandbox file_path "file_path" sandbox_root;
  _ ← raise_if (is_dir fs resolved_path)
        (Exn (OtherError "IsADirectoryError") ("Path '" +:+ file_path +:+ "' is a directory, not a file."));
  text ← open_read fs resolved_path;
  let content := String.substring 0 (Z.to_nat (max_characters + 1)) (universal_newlines text) in
  _ ← raise_if (max_characters <? Z.of_nat (String.length content))%Z
        (value_error ("File '" +:+ file_path +:+ "' inside sandbox '" +:+ path_str root +:+ "' exceeds max_characters="
           +:+ pretty max_characters +:+ ". Increase the limit to read this file."));
  Ok content.

(** [_build_entry_record] *)
Definition _build_entry_record (sandbox_root base_dir full_path : path) (dir : bool) : result pyval :=
  resolved ← resolve fs true full_path;
  _ ← raise_if (negb (inside sandbox_root resolved))
        (escapes ("Directory entry '" +:+ path_str full_path +:+ "'") sandbox_root);
  Ok (PDict [("path", PStr (relpath resolved base_dir));
             ("type", PStr (if dir then "directory" else "file"));
             ("size_bytes", match fs !! resolved with
                            | Some (File text) => if dir then PNone else PInt (utf8_size text)
                            | _ => PNone
                            end)]).

Definition _is_visible (include_hidden : bool) (name : string) : bool :=
  include_hidden || negb (py_startswith name ".").

(** [os.walk(base_dir)], whose consumer takes the hidden directories out; no
    deeper than the file system. *)
Fixpoint os_walk (include_hidden : bool) (depth : nat) (top : path) : list (path * (list string * list string)) :=
  match depth with
  | O => []
  | S depth =>
      let names := scandir fs top in
      let dirnames := List.filter (λ name, is_dir fs (top ++ [name])) names in
      let filenames := List.filter (λ name, negb (is_dir fs (top ++ [name]))) names in
      let dirnames := if include_hidden then dirnames else List.filter (_is_visible include_hidden) dirnames in
      (top, (dirnames, filenames)) ::
      flat_map (λ name, if is_link (fs !! (top ++ [name])) then [] else os_walk include_hidden depth (top ++ [name]))
        dirnames
  end.

(** The entries a listing goes through, in its order: full path, is a
    directory. *)
Definition walk_candidates (include_hidden : bool) (base_dir : path) : list (path * bool) :=
  flat_map (λ item : path * (list string * list string),
    ((λ name, (item.1 ++ [name], true)) <$> py_sorted item.2.1) ++
    ((λ name, (item.1 ++ [name], false)) <$> List.filter (_is_visible include_hidden) (py_sorted item.2.2)))
    (os_walk include_hidden (size fs) base_dir).
Definition scan_candidates (include_hidden : bool) (base_dir : path) : list (path * bool) :=
  (λ name, (base_dir ++ [name], is_dir fs (base_dir ++ [name]))) <$>
    py_sorted (List.filter (_is_visible include_hidden) (scandir fs base_dir)).

(** The loops over the entries, with what has been recorded; the first entry
    beyond the limit ends them all. *)
Fixpoint record_entries (sandbox_root base_dir : path) (max_entries : Z) (candidates : list (path * bool))
    (entries : list pyval) : result (list pyval * bool) :=
  match candidates with
  | [] => Ok (entries, false)
  | (full_path, dir) :: candidates =>
      if (max_entries <=? Z.of_nat (length entries))%Z then Ok (entries, true)
      else
        entry ← _build_entry_record sandbox_root base_dir full_path dir;
        record_entries sandbox_root base_dir max_entries candidates (entries ++ [entry])
  end.

(** [payload] of a listing. *)
Definition listing_payload (base_dir sandbox_root_path : path) (recursive include_hidden : bool) (max_entries : Z)
    (entries : list pyval) (truncated : bool) : pyval :=
  PDict [("directory_path", PStr (path_str base_dir)); ("sandbox_root", PStr (path_str sandbox_root_path));
         ("recursive", PBool recursive); ("include_hidden", PBool include_hidden); ("max_entries", PInt max_entries);
         ("truncated", PBool truncated); ("entry_count", PInt (Z.of_nat (length entries))); ("entries", PList entries)].

(** [list_local_directory] *)
Definition list_local_directory (directory_path : string) (recursive include_hidden : bool) (max_entries : Z)
    (sandbox_root : option string) : result string :=
  _ ← raise_if (max_entries <? 1)%Z (value_error "'max_entries' must be >= 1.");
  '(sandbox_root_path, base_dir) ← _assert_existing_path_in_sandbox directory_path "directory_path" sandbox_root;
  _ ← raise_if (negb (is_dir fs base_dir))
        (Exn NotADirectoryError ("Path '" +:+ directory_path +:+ "' is not a directory."));
  '(entries, truncated) ← record_entries sandbox_root_path base_dir max_entries
    (if recursive then walk_candidates include_hidden base_dir else scan_candidates include_hidden base_dir) [];
  Ok (json_dumps float_repr
    (listing_payload base_dir sandbox_root_path recursive include_hidden max_entries entries truncated)).
End reads.

(** [write_local_file] *)
Definition write_local_file (file_path content mode : string) (create_directories : bool) (sandbox_root : option string)
  : stm file_system string :=
  st_raise_if (bool_decide (mode ∉ ["overwrite"; "append"])) (value_error "'mode' must be one of: overwrite, append.");;
  fs ← st_get;
  '(root, absolute_path) ← st_lift (_assert_write_target_in_sandbox fs file_path sandbox_root);
  (if path_exists fs (parent absolute_path) then mret tt
   else if create_directories then
     mkdir_parents (length absolute_path) (parent absolute_path);;
     fs ← st_get;
     parent_resolved ← st_lift (resolve fs true (parent absolute_path));
     st_raise_if (negb (inside root parent_resolved))
       (escapes ("Parent directory for '" +:+ file_path +:+ "'") root)
   else st_raise (Exn FileNotFoundError ("Parent directory '" +:+ path_str (parent absolute_path) +:+
          "' not found. Set create_directories=True to create it.")));;
  fs ← st_get;
  st_raise_if (path_exists fs absolute_path && is_dir fs absolute_path)
    (Exn (OtherError "IsADirectoryError") ("Path '" +:+ file_path +:+ "' is a directory, not a file."));;
  write_text (negb (bool_decide (mode = "overwrite"))) absolute_path content;;
  mret ((if decide (mode = "overwrite") then "Wrote" else "Appended") +:+ " " +:+
        pretty (Z.of_nat (String.length content)) +:+ " characters to '" +:+ file_path +:+ "' inside sandbox '" +:+
        path_str root +:+ "'.").
End tools.
