(* ===== verification/FileToolsProofs.v ===== *)
(** What the file tools guarantee: nothing outside the sandbox is read,
    written or listed, links or not; what was written is what is read; and a
    listing is complete. *)
From stdpp Require Import options.
From S2P Require Import Prelude Values Json FileSystem FileTools.
Unset Default Proof Using.

(** ** Resolution in a changed file system *)

(** More fuel changes nothing. *)
Lemma walk_agree fs fs' follow follow' base names :
  (∀ p t, fs !! p = Some (Symlink t) ↔ fs' !! p = Some (Symlink t)) →
  (∀ b link t, fs !! link = Some (Symlink t) → follow b link t ≠ Raise out_of_fuel → follow' b link t = follow b link t) →
  walk_names fs follow false base names ≠ Raise out_of_fuel →
  walk_names fs' follow' false base names = walk_names fs follow false base names.
Proof.
  intros Hl Hf. revert base. induction names as [|name names IH]; intros base; simpl; [done|].
  case_decide; [apply IH|]. destruct (fs !! (base ++ [name])) as [[text| |t]|] eqn:Hn.
  - destruct (fs' !! (base ++ [name])) as [[| |t]|] eqn:Hn'; try apply IH. apply Hl in Hn'. congruence.
  - destruct (fs' !! (base ++ [name])) as [[| |t]|] eqn:Hn'; try apply IH. apply Hl in Hn'. congruence.
  - rewrite (proj1 (Hl _ _) Hn). intros Hne. rewrite Hf; [|done|by intros E; rewrite E in Hne].
    destruct (follow base (base ++ [name]) t) as [q|e]; [by apply IH|done].
  - destruct (fs' !! (base ++ [name])) as [[| |t]|] eqn:Hn'; try apply IH. apply Hl in Hn'. congruence.
Qed.

Lemma joinrealpath_agree fs fs' fuel more seen base names :
  (∀ p t, fs !! p = Some (Symlink t) ↔ fs' !! p = Some (Symlink t)) →
  joinrealpath fs fuel false seen base names ≠ Raise out_of_fuel →
  joinrealpath fs' (fuel + more) false seen base names = joinrealpath fs fuel false seen base names.
Proof.
  intros Hl. revert seen base names. induction fuel as [|fuel IH]; intros seen base names.
  - destruct more as [|more]; cbn [joinrealpath Nat.add]; apply walk_agree; try done; intros b link t _;
      (case_decide; [done|]); intros Hne; by destruct Hne.
  - cbn [joinrealpath Nat.add]; apply walk_agree; [done|]. intros b link t _. case_decide; [done|]. apply IH.
Qed.

(** Resolution depends on the links alone. *)
Lemma resolve_agree fs fs' p :
  (∀ p t, fs !! p = Some (Symlink t) ↔ fs' !! p = Some (Symlink t)) → resolve fs' false p = resolve fs false p.
Proof.
  intros Hl. unfold resolve. pose proof (resolve_fuel fs false p) as H1. pose proof (resolve_fuel fs' false p) as H2.
  unfold resolve in H1, H2. destruct (Nat.le_ge_cases (size fs) (size fs')) as [Hle|Hle].
  - replace (size fs') with (size fs + (size fs' - size fs)) by lia. by apply joinrealpath_agree.
  - replace (size fs) with (size fs' + (size fs - size fs')) by lia. symmetry.
    apply joinrealpath_agree; [|done]. intros q t. by rewrite Hl.
Qed.

(** ** Changes *)

(** From [fs] to [fs'] directories on the way to [target] have been added, and
    no more but at [target]. *)
Record grown (fs fs' : file_system) (target : path) : Prop := {
  gr_ok : fs_ok fs';
  gr_rest p : p ≠ target →
    fs' !! p = fs !! p ∨ (fs !! p = None ∧ fs' !! p = Some Directory ∧ p `prefix_of` target)
}.

(** Directories on the way to [p] and at it have been added, and no more. *)
Record dirs_added (fs fs' : file_system) (p : path) : Prop := {
  da_ok : fs_ok fs';
  da_rest q : fs' !! q = fs !! q ∨ (fs !! q = None ∧ fs' !! q = Some Directory ∧ q `prefix_of` p)
}.

Lemma insert_ok fs p x n :
  fs_ok fs → fs !! p = Some Directory → real_name x = true →
  (fs !! (p ++ [x]) = Some Directory → n = Directory) → fs_ok (<[p ++ [x] := n]> fs).
Proof.
  intros Hok Hp Hx Hn. assert (∀ q, fs !! q = Some Directory → <[p ++ [x] := n]> fs !! q = Some Directory) as Hdir.
  { intros q Hq. destruct (decide (q = p ++ [x])) as [->|Hne]; [by rewrite lookup_insert_eq, Hn|].
    by rewrite lookup_insert_ne by done. }
  split; [apply Hdir, (fs_root fs Hok)|]. intros q y.
  destruct (decide (q ++ [y] = p ++ [x])) as [Heq|Hne].
  - apply app_inj_tail in Heq as [-> ->]. intros _. auto.
  - rewrite lookup_insert_ne by done. intros Hq. destruct (fs_parents fs Hok _ _ Hq). auto.
Qed.

Lemma grown_refl fs target : fs_ok fs → grown fs fs target.
Proof. split; auto. Qed.
Lemma dirs_refl fs p : fs_ok fs → dirs_added fs fs p.
Proof. split; auto. Qed.

Lemma dirs_trans fs1 fs2 fs3 p : dirs_added fs1 fs2 p → dirs_added fs2 fs3 p → dirs_added fs1 fs3 p.
Proof.
  intros [_ R1] [K R2]. split; [done|]. intros q. destruct (R2 q) as [->|(E2 & -> & Hq)]; [apply R1|].
  destruct (R1 q) as [<-|(E1 & E & _)]; [by right|congruence].
Qed.
Lemma dirs_prefix fs fs' p p' : dirs_added fs fs' p → p `prefix_of` p' → dirs_added fs fs' p'.
Proof.
  intros [K R] Hp. split; [done|]. intros q. destruct (R q) as [?|(? & ? & ?)]; [by left|right].
  split_and!; [done..|by etrans].
Qed.

(** Links stay what they were. *)
Lemma dirs_links fs fs' p : dirs_added fs fs' p → ∀ q t, fs !! q = Some (Symlink t) ↔ fs' !! q = Some (Symlink t).
Proof. intros [_ R] q t. destruct (R q) as [->|(-> & -> & _)]; [done|]. by split. Qed.

Lemma links_canonical fs fs' p :
  (∀ q t, fs !! q = Some (Symlink t) ↔ fs' !! q = Some (Symlink t)) → canonical fs p → canonical fs' p.
Proof.
  intros Hl [Hn Hc]. split; [done|]. intros q Hq. specialize (Hc q Hq).
  destruct (fs' !! q) as [[| |t]|] eqn:E; try done. apply Hl in E. by rewrite E in Hc.
Qed.

Lemma canonical_parent fs p : canonical fs p → canonical fs (parent p).
Proof. intros Hp. eapply canonical_prefix; [exact Hp|apply parent_prefix]. Qed.

Lemma canonical_link fs p : canonical fs p → is_link (fs !! p) = false.
Proof. intros [_ Hl]. by apply Hl. Qed.

Lemma canonical_last fs p x : canonical fs (p ++ [x]) → real_name x = true.
Proof. intros [Hn _]. apply Forall_app in Hn as [_ Hx]. exact (Forall_inv Hx). Qed.

(** ** [mkdir] *)

Lemma os_mkdir_spec fs p fs' r :
  fs_ok fs → canonical fs p → os_mkdir fs p = (fs', r) →
  dirs_added fs fs' p ∧ (r = Ok tt → fs' !! p = Some Directory).
Proof.
  intros Hok Hp. unfold os_mkdir. destruct (resolve fs true (parent p)) as [q|e] eqn:Hq;
    [|intros [= <- <-]; split; [by apply dirs_refl|done]].
  apply resolve_strict in Hq. rewrite resolve_known in Hq by (by apply canonical_parent). injection Hq as <-.
  destruct p as [|x p _] using rev_ind.
  { simpl. rewrite (fs_root fs Hok). intros [= <- <-]. split; [by apply dirs_refl|done]. }
  rewrite parent_snoc, last_snoc. destruct (fs !! p) as [[| |]|] eqn:Hd; try (intros [= <- <-]; split; [by apply dirs_refl|done]).
  destruct (fs !! (p ++ [x])) as [n|] eqn:Hx; simpl; intros [= <- <-]; [split; [by apply dirs_refl|done]|].
  split; [|intros _; apply lookup_insert_eq].
  split; [apply insert_ok; [done|done|by eapply canonical_last|done]|]. intros q.
  destruct (decide (q = p ++ [x])) as [->|Hne]; [right; by rewrite lookup_insert_eq|left; by rewrite lookup_insert_ne].
Qed.

Lemma dir_known fs p : fs_ok fs → canonical fs p → is_dir fs p = true → fs !! p = Some Directory.
Proof. intros Hok Hp. unfold is_dir. rewrite stat_known by done. by destruct (fs !! p) as [[]|]. Qed.

Lemma mkdir_one_spec fs p fs' r :
  fs_ok fs → canonical fs p → mkdir_one p fs = (fs', r) → dirs_added fs fs' p ∧ (r = Ok tt → fs' !! p = Some Directory).
Proof.
  intros Hok Hp. unfold mkdir_one. destruct (os_mkdir fs p) as [fs1 [[]|e]] eqn:Hm;
    destruct (os_mkdir_spec _ _ _ _ Hok Hp Hm) as [Ha Hr]; [intros [= <- <-]; auto|].
  assert (canonical fs1 p) as Hp1 by (eapply links_canonical, Hp; by eapply dirs_links).
  case_decide; [by intros [= <- <-]|]. destruct (is_dir fs1 p) eqn:Hd; intros [= <- <-]; [|done].
  split; [done|]. intros _. apply dir_known; [apply Ha|done|done].
Qed.

Lemma mkdir_parents_spec depth fs p fs' r :
  fs_ok fs → canonical fs p → mkdir_parents depth p fs = (fs', r) →
  dirs_added fs fs' p ∧ (r = Ok tt → fs' !! p = Some Directory).
Proof.
  revert fs p fs' r. induction depth as [|depth IH]; intros fs p fs' r Hok Hp; cbn [mkdir_parents];
    destruct (os_mkdir fs p) as [fs1 [[]|e]] eqn:Hm; destruct (os_mkdir_spec _ _ _ _ Hok Hp Hm) as [Ha Hr];
    try (by intros [= <- <-]; auto);
    assert (canonical fs1 p) as Hp1 by (eapply links_canonical, Hp; by eapply dirs_links);
    (case_decide; [|by (destruct (is_dir fs1 p) eqn:Hd; intros [= <- <-]; [|done]; split; [done|];
       intros _; apply dir_known; [apply Ha|done|done])]); [by intros [= <- <-]|].
  unfold mbind, stm_bind. destruct (mkdir_parents depth (parent p) fs1) as [fs2 [[]|e2]] eqn:Hp2;
    destruct (IH _ _ _ _ (da_ok _ _ _ Ha) (canonical_parent _ _ Hp1) Hp2) as [Ha2 _];
    pose proof (dirs_trans _ _ _ _ Ha (dirs_prefix _ _ _ _ Ha2 (parent_prefix p))) as Ha3.
  - intros H1. assert (canonical fs2 p) as Hcan2 by (eapply links_canonical, Hp; by eapply dirs_links).
    destruct (mkdir_one_spec _ _ _ _ (da_ok _ _ _ Ha2) Hcan2 H1) as [Ha4 Hr4]. split; [|done]. by eapply dirs_trans.
  - by intros [= <- <-].
Qed.

(** What a write leaves at its target. *)
Definition written (append : bool) (content : string) (old : option node) : node :=
  File match old with Some (File text) => if append then text +:+ content else content | _ => content end.

Lemma open_write_spec fs append p content fs' r :
  fs_ok fs → canonical fs p → open_write fs append p content = (fs', r) →
  (fs' = fs ∧ ∃ ex, r = Raise ex) ∨
  (r = Ok tt ∧ fs' = <[p := written append content (fs !! p)]> fs ∧ fs !! p ≠ Some Directory ∧ fs_ok fs').
Proof.
  intros Hok Hp. unfold open_write. rewrite resolve_known by done.
  destruct p as [|x p _] using rev_ind; [rewrite (fs_root fs Hok); intros [= <- <-]; left; eauto|].
  rewrite parent_snoc.
  assert (∀ text, fs !! p = Some Directory → fs !! (p ++ [x]) ≠ Some Directory →
    fs_ok (<[p ++ [x] := File text]> fs)) as Hins.
  { intros text Hd Hn. by apply insert_ok; [|by apply Hd|eapply canonical_last|]. }
  destruct (fs !! (p ++ [x])) as [[text| |]|] eqn:Hx; try (intros [= <- <-]; left; by eauto).
  - intros [= <- <-]. right. split_and!; [done..|]. apply Hins; [|done]. by destruct (fs_parents fs Hok p x ltac:(eauto)).
  - destruct (fs !! p) as [[]|] eqn:Hd; intros [= <- <-]; [by left; eauto| |by left; eauto..].
    right. split_and!; [done..|]. by apply Hins.
Qed.

(** A prefix of what is there is there. *)
Lemma prefix_present fs p q : fs_ok fs → is_Some (fs !! q) → p `prefix_of` q → is_Some (fs !! p).
Proof.
  intros Hok Hq [r ->]. induction r as [|x r IH] using rev_ind; [by rewrite app_nil_r in Hq|].
  apply IH. rewrite app_assoc in Hq. destruct (fs_parents fs Hok _ _ Hq) as [-> _]. by eexists.
Qed.

(** What is there has names all the way. *)
Lemma present_clean fs p : fs_ok fs → is_Some (fs !! p) → clean p.
Proof.
  intros Hok. induction p as [|x p IH] using rev_ind; intros Hp; [constructor|].
  destruct (fs_parents fs Hok _ _ Hp) as [Hd (? & ? & _)%bool_decide_eq_true].
  apply Forall_app. split; [apply IH; by eauto|by apply Forall_singleton].
Qed.

(** What is missing on the way from a directory lies below it. *)
Lemma missing_below fs root p target :
  fs_ok fs → is_Some (fs !! root) → fs !! p = None → root `prefix_of` target → p `prefix_of` target → root `prefix_of` p.
Proof.
  intros Hok Hr Hp H1 H2. destruct (prefix_weak_total _ _ _ H1 H2) as [?|Hpre]; [done|].
  destruct (prefix_present _ _ _ Hok Hr Hpre). congruence.
Qed.

Section tools.
Context (e : process) (scandir : file_system → path → list string) (float_repr : Q → string).

(** ** Where a name leads *)

Lemma expanduser_clean p q : clean p.2 → expanduser e p = Ok q → clean q.2.
Proof.
  destruct p as [abs names]. unfold expanduser. destruct abs; [by intros ? [= <-]|].
  destruct names as [|name rest]; [by intros ? [= <-]|]. intros Hn.
  destruct (strip_prefix "~" name) as [user|]; [|by intros [= <-]].
  destruct (home_of e user) as [home|]; [|done]. intros [= <-].
  apply Forall_app. split; [apply components_clean|]. by apply Forall_cons in Hn as [_ ?].
Qed.

Lemma from_base_clean base p q : clean base → expanduser e (parse_path p) = Ok q → clean (from_base base q).
Proof.
  intros Hb Hq. assert (clean q.2) as Hc by (eapply expanduser_clean; [|done]; apply components_clean).
  unfold from_base. destruct q as [[] names]; [done|]. by apply Forall_app.
Qed.

Lemma sandbox_root_inv fs sr root :
  fs_ok fs → _sandbox_root e fs sr = Ok root → canonical fs root ∧ fs !! root = Some Directory.
Proof.
  intros Hok. unfold _sandbox_root. intros (q & Hq & (p & Hp & H1)%bind_Ok)%bind_Ok.
  assert (canonical fs p) as Hcan.
  { eapply resolve_canonical; [done| |done]. eapply from_base_clean; [apply components_clean|done]. }
  inv_result. split; [done|]. by apply dir_known; [| |destruct (is_dir fs _)].
Qed.

Lemma sandbox_path_inv fs value field sr root p :
  fs_ok fs → _resolve_sandbox_path e fs value field sr = Ok (root, p) →
  _sandbox_root e fs sr = Ok root ∧ fs !! root = Some Directory ∧ root `prefix_of` p ∧ canonical fs p.
Proof.
  intros Hok. unfold _resolve_sandbox_path.
  intros (u & _ & (root' & Hroot & (q & Hq & (p' & Hp & H1)%bind_Ok)%bind_Ok)%bind_Ok)%bind_Ok.
  destruct (sandbox_root_inv _ _ _ Hok Hroot) as [Hcan Hdir].
  assert (canonical fs p') as Hp'.
  { eapply resolve_canonical; [done| |done]. eapply from_base_clean; [|done]. eapply names_clean, Hcan. }
  inv_result. split_and!; [done..| |done]. by eapply bool_decide_eq_true.
Qed.

(** ** Writing *)

(** What a write may have done, with or without success. *)
Record write_effect (fs fs' : file_system) (create : bool) (root target : path) : Prop := {
  we_ok : fs_ok fs';
  we_rest p : p ≠ target → fs' !! p = fs !! p ∨
    (create = true ∧ root `prefix_of` p ∧ p `prefix_of` target ∧ fs !! p = None ∧ fs' !! p = Some Directory)
}.

(** The parent of the target has been seen to. *)
Definition prepared (fs : file_system) (create : bool) (target : path) (fs1 : file_system) : Prop :=
  fs1 = fs ∨ create = true ∧ dirs_added fs fs1 (parent target).

Lemma prepared_dirs fs create target fs1 : fs_ok fs → prepared fs create target fs1 → dirs_added fs fs1 (parent target).
Proof. intros Hok [->|[_ Ha]]; [by apply dirs_refl|done]. Qed.

Lemma parent_strict (target p : path) : target ≠ [] → p `prefix_of` parent target → p ≠ target.
Proof.
  intros Hne Hp ->. destruct target as [|x q _] using rev_ind; [done|]. rewrite parent_snoc in Hp.
  apply prefix_length in Hp. rewrite length_app in Hp. simpl in Hp. lia.
Qed.

Lemma prepared_target fs create target fs1 : fs_ok fs → prepared fs create target fs1 → fs1 !! target = fs !! target.
Proof.
  intros Hok Ha%prepared_dirs; [|done]. destruct (da_rest _ _ _ Ha target) as [?|(Hn & _ & Hp)]; [done|]. exfalso.
  destruct (decide (target = [])) as [->|Hne]; [by rewrite (fs_root fs Hok) in Hn|]. by eapply parent_strict.
Qed.

Lemma prepared_effect fs create root target fs1 fs2 :
  fs_ok fs → fs !! root = Some Directory → root `prefix_of` target → prepared fs create target fs1 →
  fs_ok fs2 → (∀ p, p ≠ target → fs2 !! p = fs1 !! p) → write_effect fs fs2 create root target.
Proof.
  intros Hok Hr Hpre Hfs1 Hok2 Hrest. split; [done|]. intros p Hne. rewrite Hrest by done.
  destruct Hfs1 as [->|[Hcr [_ R]]]; [by left|]. destruct (R p) as [?|(Hn & Hd & Hp)]; [by left|right].
  assert (p `prefix_of` target) by (etrans; [done|apply parent_prefix]).
  split_and!; [done| |done..]. apply (missing_below fs root p target); [done|by rewrite Hr; eexists|done..].
Qed.

(** The target itself: written over, unless the write failed. *)
Definition target_after {A : Type} (fs fs' : file_system) (append : bool) (content : string) (target : path) (r : result A)
  : Prop :=
  match r with
  | Ok _ => fs !! target ≠ Some Directory ∧ fs' !! target = Some (written append content (fs !! target))
  | Raise _ => fs' !! target = fs !! target
  end.

(** The end of a write. *)
Lemma write_end fs fs1 append create root target content fs' r :
  fs_ok fs → canonical fs target → fs !! root = Some Directory → root `prefix_of` target →
  prepared fs create target fs1 → write_text append target content fs1 = (fs', r) →
  write_effect fs fs' create root target ∧
  target_after fs fs' append content target r.
Proof.
  intros Hok Hcan Hr Hpre Hfs1 Hw. pose proof (prepared_dirs _ _ _ _ Hok Hfs1) as Ha.
  pose proof (prepared_target _ _ _ _ Hok Hfs1) as Ht.
  assert (canonical fs1 target) as Hcan1 by (eapply links_canonical, Hcan; by eapply dirs_links).
  destruct (open_write_spec _ _ _ _ _ _ (da_ok _ _ _ Ha) Hcan1 Hw) as [(-> & ex & ->)|(-> & -> & Hd & Hok')].
  - split; [|done]. eapply prepared_effect; [done..|apply Ha|done].
  - rewrite Ht in *. split; [|split; [done|by rewrite lookup_insert_eq]]. eapply prepared_effect; [done..|].
    intros p Hne. by rewrite lookup_insert_ne.
Qed.

(** What a write comes to: nothing, with an exception, or its effect. *)
Definition write_outcome (fs : file_system) (file_path content mode : string) (create : bool) (sr : option string)
    (fs' : file_system) (r : result string) : Prop :=
  (fs' = fs ∧ ∃ ex, r = Raise ex) ∨
  ∃ root target, _resolve_sandbox_path e fs file_path "file_path" sr = Ok (root, target) ∧
    fs !! root = Some Directory ∧ root `prefix_of` target ∧ canonical fs target ∧
    write_effect fs fs' create root target ∧
    target_after fs fs' (negb (bool_decide (mode = "overwrite"))) content target r.

Lemma write_target_inv fs file_path sr root target :
  _assert_write_target_in_sandbox e fs file_path sr = Ok (root, target) →
  _resolve_sandbox_path e fs file_path "file_path" sr = Ok (root, target).
Proof.
  unfold _assert_write_target_in_sandbox. intros ([root' target'] & Hr & (u & _ & [= <- <-])%bind_Ok)%bind_Ok. done.
Qed.

Lemma write_outcome_wp fs file_path content mode create sr :
  fs_ok fs → wp (write_local_file e file_path content mode create sr) (write_outcome fs file_path content mode create sr) fs.
Proof.
  intros Hok. assert (∀ ex, write_outcome fs file_path content mode create sr fs (Raise ex)) as Hnone by (left; eauto).
  unfold write_local_file, st_raise_if. repeat wp_step. destruct (raise_if _ _) as [u|]; [|apply Hnone]. repeat wp_step.
  destruct (_assert_write_target_in_sandbox e fs file_path sr) as [[root target]|] eqn:Ha; [|apply Hnone]. wp_step.
  apply write_target_inv in Ha. destruct (sandbox_path_inv _ _ _ _ _ _ Hok Ha) as (_ & Hroot & Hpre & Hcan).
  assert (∀ fs1, prepared fs create target fs1 → ∀ ex,
    write_outcome fs file_path content mode create sr fs1 (Raise ex)) as Hfail.
  { intros fs1 Hfs1 ex. unfold write_outcome. right. exists root, target. split_and!; [done..| |by eapply prepared_target].
    eapply prepared_effect; [done..| |done]. by eapply da_ok, prepared_dirs. }
  wp_step. eapply (wp_mono _ (λ fs1 _, prepared fs create target fs1)).
  - destruct (path_exists fs (parent target)); [by left|]. destruct create; [|by left]. repeat wp_step.
    unfold wp. destruct (mkdir_parents _ _ fs) as [fs1 r1] eqn:Hm.
    destruct (mkdir_parents_spec _ _ _ _ _ Hok (canonical_parent _ _ Hcan) Hm) as [Ha' _]. simpl.
    assert (prepared fs true target fs1) as Hfs1 by (by right).
    destruct r1 as [u1|ex]; [|done]. repeat wp_step. destruct (resolve fs1 true _) as [q|ex]; [|done]. by repeat wp_step.
  - intros fs1 [u1|ex] Hfs1; [|by apply Hfail]. repeat wp_step.
    destruct (raise_if _ _) as [u2|]; [|by apply Hfail]. repeat wp_step.
    unfold wp. destruct (write_text _ _ _ fs1) as [fs2 r2] eqn:Hw. simpl.
    destruct (write_end _ _ _ _ _ _ _ _ _ Hok Hcan Hroot Hpre Hfs1 Hw) as [Heff Ht].
    destruct r2 as [u3|ex]; repeat wp_step; right; exists root, target; by split_and!.
Qed.

(** ** Reading *)

Lemma substring_whole n s : String.length s ≤ n → String.substring 0 n s = s.
Proof.
  revert s. induction n as [|n IH]; intros [|c s] Hl; simpl in *; try done; [lia|]. f_equal. apply IH. lia.
Qed.
Lemma substring_cut n s : n ≤ String.length s → String.length (String.substring 0 n s) = n.
Proof.
  revert s. induction n as [|n IH]; intros [|c s] Hl; simpl in *; try done; [lia|]. f_equal. apply IH. lia.
Qed.

(** What a path that is in the sandbox is read as. *)
Lemma read_known fs file_path max_characters sr root p :
  fs_ok fs → (1 <= max_characters)%Z → _resolve_sandbox_path e fs file_path "file_path" sr = Ok (root, p) →
  match fs !! p with
  | Some (File text) =>
      let content := universal_newlines text in
      if bool_decide (Z.of_nat (String.length content) <= max_characters)%Z
      then read_local_file e fs file_path max_characters sr = Ok content
      else ∃ m, read_local_file e fs file_path max_characters sr = Raise (value_error m)
  | _ => ∃ ex, read_local_file e fs file_path max_characters sr = Raise ex
  end.
Proof.
  intros Hok Hmax Hp. destruct (sandbox_path_inv _ _ _ _ _ _ Hok Hp) as (_ & _ & Hpre & Hcan).
  unfold read_local_file. destruct (Z.ltb_spec max_characters 1) as [|_]; [lia|]. cbn [raise_if mbind result_bind].
  unfold _assert_existing_path_in_sandbox. rewrite Hp. cbn [mbind result_bind].
  unfold path_exists. rewrite stat_known by done. destruct (fs !! p) as [n|] eqn:Hn; [|by eexists].
  cbn [is_None negb raise_if mbind result_bind]. rewrite resolve_present by eauto. cbn [mbind result_bind].
  assert (inside root p = true) as -> by (by apply bool_decide_eq_true). cbn [negb raise_if mbind result_bind].
  unfold is_dir. rewrite stat_known, Hn by done.
  pose proof (canonical_link _ _ Hcan) as Hl. rewrite Hn in Hl. destruct n as [text| |t]; [|by eexists|done].
  cbn [is_directory raise_if mbind result_bind]. rewrite open_read_known, Hn by done. cbn [mbind result_bind].
  set (content := universal_newlines text). case_bool_decide as Hle.
  - rewrite substring_whole by lia. by destruct (Z.ltb_spec max_characters (Z.of_nat (String.length content))); [lia|].
  - rewrite substring_cut by lia.
    destruct (Z.ltb_spec max_characters (Z.of_nat (Z.to_nat (max_characters + 1)))); [by eexists|lia].
Qed.

(** The text a name stands for, for a reader that takes so many characters. *)
Definition readable (fs : file_system) (file_path : string) (max_characters : Z) (sr : option string) (content : string)
  : Prop :=
  (1 <= max_characters)%Z ∧ ∃ root p text,
    _resolve_sandbox_path e fs file_path "file_path" sr = Ok (root, p) ∧ root `prefix_of` p ∧ canonical fs p ∧
    fs !! p = Some (File text) ∧ content = universal_newlines text ∧
    (Z.of_nat (String.length content) <= max_characters)%Z.

(** C20: a read answers exactly for the text files the name leads to inside the
    sandbox root, and the whole of them or nothing: the content, its newlines
    translated, of a file reached without a link, when it has no more
    characters than asked for. *)
Theorem reads_confined fs file_path max_characters sr content :
  fs_ok fs → read_local_file e fs file_path max_characters sr = Ok content ↔
  readable fs file_path max_characters sr content.
Proof.
  intros Hok. split.
  - intros Hr. assert (1 <= max_characters)%Z as Hmax.
    { unfold read_local_file in Hr. destruct (Z.ltb_spec max_characters 1); [done|lia]. }
    split; [done|].
    destruct (_resolve_sandbox_path e fs file_path "file_path" sr) as [[root p]|ex] eqn:Hp.
    + pose proof (read_known _ _ _ _ _ _ Hok Hmax Hp) as Hk. destruct (sandbox_path_inv _ _ _ _ _ _ Hok Hp) as (_ & _ & ? & ?).
      rewrite Hr in Hk. destruct (fs !! p) as [[text| |]|] eqn:Hn; try (by destruct Hk).
      cbv zeta in Hk. case_bool_decide; [|by destruct Hk]. injection Hk as ->. exists root, p, text. by split_and!.
    + exfalso. revert Hr. unfold read_local_file. destruct (Z.ltb_spec max_characters 1); [done|].
      cbn [raise_if mbind result_bind]. unfold _assert_existing_path_in_sandbox. by rewrite Hp.
  - intros (Hmax & root & p & text & Hp & _ & _ & Hn & -> & Hle). pose proof (read_known _ _ _ _ _ _ Hok Hmax Hp) as Hk.
    rewrite Hn in Hk. cbv zeta in Hk. by rewrite bool_decide_eq_true_2 in Hk.
Qed.

Lemma existing_known fs value field sr root p :
  fs_ok fs → _assert_existing_path_in_sandbox e fs value field sr = Ok (root, p) →
  _resolve_sandbox_path e fs value field sr = Ok (root, p) ∧ root `prefix_of` p.
Proof.
  intros Hok. unfold _assert_existing_path_in_sandbox.
  intros ([root' p'] & Hp & (u & _ & (p2 & Hp2 & (u' & Hin & [= <- <-])%bind_Ok)%bind_Ok)%bind_Ok)%bind_Ok.
  destruct (sandbox_path_inv _ _ _ _ _ _ Hok Hp) as (_ & _ & Hpre & Hcan).
  apply resolve_strict in Hp2. rewrite resolve_known in Hp2 by done. by injection Hp2 as <-.
Qed.

(** ** Writing and reading *)

(** A name leads where it led as long as links and directories are kept. *)
Lemma sandbox_path_agree fs fs' value field sr root p :
  fs_ok fs → fs_ok fs' → (∀ q t, fs !! q = Some (Symlink t) ↔ fs' !! q = Some (Symlink t)) →
  (∀ q, fs !! q = Some Directory → fs' !! q = Some Directory) →
  _resolve_sandbox_path e fs value field sr = Ok (root, p) →
  _resolve_sandbox_path e fs' value field sr = Ok (root, p).
Proof.
  intros Hok Hok' Hl Hd Hp. destruct (sandbox_path_inv _ _ _ _ _ _ Hok Hp) as (Hroot & Hdir & _ & _).
  destruct (sandbox_root_inv _ _ _ Hok Hroot) as [Hcan _].
  assert (_sandbox_root e fs' sr = Ok root) as Hroot'.
  { revert Hroot. unfold _sandbox_root. destruct (expanduser _ _) as [q|]; [|done]. cbn [mbind result_bind].
    rewrite (resolve_agree fs fs' _ Hl). destruct (resolve fs false _) as [r|]; [|done]. cbn [mbind result_bind].
    intros Hr. assert (r = root) as ->.
    { revert Hr. destruct (raise_if (negb (path_exists fs r)) _); [|done]. cbn [mbind result_bind].
      destruct (raise_if _ _); [|done]. by intros [= ->]. }
    assert (canonical fs' root) as Hcan' by (by eapply links_canonical).
    unfold path_exists, is_dir. by rewrite stat_known, (Hd _ Hdir) by done. }
  revert Hp. unfold _resolve_sandbox_path. rewrite Hroot, Hroot'.
  destruct (_validate_non_empty_path _ _); [|done]. cbn [mbind result_bind].
  destruct (expanduser _ _) as [q|]; [|done]. cbn [mbind result_bind]. by rewrite (resolve_agree fs fs' _ Hl).
Qed.

Lemma written_agree fs fs' create root target append content {A : Type} (a : A) :
  write_effect fs fs' create root target → is_link (fs !! target) = false → target_after fs fs' append content target (Ok a) →
  (∀ q t, fs !! q = Some (Symlink t) ↔ fs' !! q = Some (Symlink t)) ∧
  (∀ q, fs !! q = Some Directory → fs' !! q = Some Directory).
Proof.
  intros [_ R] Hl [Hd Ht]. split.
  - intros q t. destruct (decide (q = target)) as [->|Hne].
    + rewrite Ht. destruct (fs !! target) as [[]|]; done.
    + destruct (R q Hne) as [->|(_ & _ & _ & -> & ->)]; done.
  - intros q Hq. destruct (decide (q = target)) as [->|Hne]; [done|].
    destruct (R q Hne) as [->|(_ & _ & _ & Hn & _)]; [done|congruence].
Qed.

(** The text at a place, if there is any. *)
Definition text_at (fs : file_system) (p : path) : string := match fs !! p with Some (File text) => text | _ => "" end.

(** What has been written is what is read back under the same name (its
    newlines translated), the old content first when appending; and every
    other file that could be read is read as before. *)
Theorem written_is_read fs file_path content mode create sr fs' msg :
  fs_ok fs → write_local_file e file_path content mode create sr fs = (fs', Ok msg) →
  ∃ root target, _resolve_sandbox_path e fs file_path "file_path" sr = Ok (root, target) ∧
    (let text := universal_newlines ((if decide (mode = "overwrite") then "" else text_at fs target) +:+ content) in
     ∀ max_characters, (1 <= max_characters)%Z → (Z.of_nat (String.length text) <= max_characters)%Z →
       read_local_file e fs' file_path max_characters sr = Ok text) ∧
    ∀ other sr2 max_characters text root2 p2,
      _resolve_sandbox_path e fs other "file_path" sr2 = Ok (root2, p2) → p2 ≠ target →
      read_local_file e fs other max_characters sr2 = Ok text →
      read_local_file e fs' other max_characters sr2 = Ok text.
Proof.
  intros Hok Hw. pose proof (write_outcome_wp fs file_path content mode create sr Hok) as Hwp.
  unfold wp in Hwp. rewrite Hw in Hwp. cbn [fst snd] in Hwp. destruct Hwp as [(_ & ex & ?)|(root & target & Hp & _ & _ & Hcan & Heff & Ht)]; [done|].
  exists root, target. split; [done|].
  destruct (written_agree _ _ _ _ _ _ _ _ Heff (canonical_link _ _ Hcan) Ht) as [Hl Hd].
  pose proof (we_ok _ _ _ _ _ Heff) as Hok'. destruct Ht as [_ Ht]. split.
  - intros text max Hmax Hle.
    pose proof (read_known fs' _ _ _ _ _ Hok' Hmax (sandbox_path_agree _ _ _ _ _ _ _ Hok Hok' Hl Hd Hp)) as Hk.
    rewrite Ht in Hk. cbn [written] in Hk. cbv zeta in Hk.
    assert (match fs !! target with
            | Some (File text) => if negb (bool_decide (mode = "overwrite")) then text +:+ content else content
            | _ => content
            end = (if decide (mode = "overwrite") then "" else text_at fs target) +:+ content) as Heq.
    { unfold text_at. destruct (decide (mode = "overwrite")) as [Hm|Hm];
        [rewrite bool_decide_eq_true_2 by done|rewrite bool_decide_eq_false_2 by done]; by destruct (fs !! target) as [[]|]. }
    rewrite Heq in Hk. fold text in Hk. by rewrite bool_decide_eq_true_2 in Hk.
  - intros other sr2 max text root2 p2 Hp2 Hne Hr.
    assert (1 <= max)%Z as Hmax by (unfold read_local_file in Hr; destruct (Z.ltb_spec max 1); [done|lia]).
    pose proof (read_known _ _ _ _ _ _ Hok Hmax Hp2) as Hk. rewrite Hr in Hk.
    pose proof (read_known fs' _ _ _ _ _ Hok' Hmax (sandbox_path_agree _ _ _ _ _ _ _ Hok Hok' Hl Hd Hp2)) as Hk'.
    destruct (we_rest _ _ _ _ _ Heff p2 Hne) as [Heq|(_ & _ & _ & Hn & _)].
    + rewrite Heq in Hk'. destruct (fs !! p2) as [[text2| |]|]; try (by destruct Hk).
      cbv zeta in *. case_bool_decide; [congruence|by destruct Hk].
    + rewrite Hn in Hk. by destruct Hk.
Qed.

(** C19: a write changes one file, at the place the name leads to without any
    link on the way, inside the sandbox root; the only other change can be new
    directories between the two, when asked for.  A write that succeeds leaves
    the content (after what was there, when appending), one that fails leaves
    the file as it was. *)
Theorem writes_confined fs file_path content mode create sr fs' r :
  fs_ok fs → write_local_file e file_path content mode create sr fs = (fs', r) →
  write_outcome fs file_path content mode create sr fs' r.
Proof.
  intros Hok Hw. pose proof (write_outcome_wp fs file_path content mode create sr Hok) as Hwp.
  unfold wp in Hwp. by rewrite Hw in Hwp.
Qed.
End tools.

(** ** Listing *)

Lemma elem_of_flat_map {A B} (f : A → list B) l y : y ∈ flat_map f l ↔ ∃ x, x ∈ l ∧ y ∈ f x.
Proof.
  induction l as [|x l IH]; simpl; [split; [by intros ?%elem_of_nil|by intros (? & ?%elem_of_nil & _)]|].
  rewrite elem_of_app, IH. split.
  - intros [Hy|(x' & Hx' & Hy)]; [exists x|exists x']; rewrite elem_of_cons; auto.
  - intros (x' & [->|Hx']%elem_of_cons & Hy); eauto.
Qed.

Lemma NoDup_flat_map {A B} (f : A → list B) l :
  NoDup l → (∀ x, x ∈ l → NoDup (f x)) → (∀ x x' y, x ∈ l → x' ∈ l → y ∈ f x → y ∈ f x' → x = x') → NoDup (flat_map f l).
Proof.
  induction 1 as [|x l Hx Hl IH]; simpl; [constructor|]. intros Hf Hinj. apply NoDup_app. split_and!.
  - apply Hf. left.
  - intros y Hy (x' & Hx' & Hy')%elem_of_flat_map.
    assert (x = x') as -> by (eapply Hinj; [left|right; done|done|done]). done.
  - apply IH; [intros x' Hx'; apply Hf; by right|]. intros x' x'' y H' H''. apply Hinj; by right.
Qed.

Lemma elem_of_bool_filter {A} (f : A → bool) l x : x ∈ List.filter f l ↔ x ∈ l ∧ f x = true.
Proof. by rewrite !list_elem_of_In, filter_In. Qed.

Lemma NoDup_bool_filter {A} (f : A → bool) l : NoDup l → NoDup (List.filter f l).
Proof.
  induction 1 as [|x l Hx Hl IH]; simpl; [constructor|]. destruct (f x); [|done].
  constructor; [|done]. by intros [? _]%elem_of_bool_filter.
Qed.

Lemma fmap_flat_map {A B C} (g : B → C) (f : A → list B) l : g <$> flat_map f l = flat_map (λ x, g <$> f x) l.
Proof. induction l as [|x l IH]; simpl; [done|]. by rewrite fmap_app, IH. Qed.

(** A path that is there is no longer than the file system. *)
Lemma depth_bound fs p : fs_ok fs → is_Some (fs !! p) → length p < size fs.
Proof.
  intros Hok Hp. rewrite <- (size_dom (D := gset path) fs).
  set (l := (λ n, take n p) <$> seq 0 (S (length p))).
  assert (NoDup l) as Hnd.
  { apply NoDup_fmap_2_strong; [|apply NoDup_seq]. intros n m Hn%elem_of_seq Hm%elem_of_seq Heq.
    apply (f_equal length) in Heq. rewrite !length_take in Heq. lia. }
  assert (length l ≤ size (dom (D := gset path) fs)) as Hle; [|subst l; rewrite length_fmap, length_seq in Hle; lia].
  rewrite <- (size_list_to_set (C := gset path) l) by done. apply subseteq_size.
  intros q. rewrite elem_of_list_to_set, elem_of_dom. subst l. intros (n & -> & _)%list_elem_of_fmap.
  apply (prefix_present fs _ p); [done..|]. exists (drop n p). by rewrite take_drop.
Qed.

Section listing.
Context (e : process) (scandir : file_system → path → list string) (float_repr : Q → string).
(** [os.scandir] lists what is in the directory. *)
Context (scandir_children : ∀ fs p, scandir fs p ≡ₚ children fs p).
Context (fs : file_system) (Hok : fs_ok fs) (include_hidden : bool).

Abbreviation visible := (_is_visible include_hidden).

(** Where [os.walk] goes from [top]: down through visible directories. *)
Definition walked (depth : nat) (top q : path) : Prop :=
  ∃ rel, q = top ++ rel ∧ length rel < depth ∧ Forall (λ x, visible x = true) rel ∧ fs !! q = Some Directory.

Definition walk_names_of (q : path) : list string * list string :=
  let names := scandir fs q in
  let dirnames := List.filter (λ name, is_dir fs (q ++ [name])) names in
  (if include_hidden then dirnames else List.filter visible dirnames,
   List.filter (λ name, negb (is_dir fs (q ++ [name]))) names).

Lemma visible_all x : include_hidden = true → visible x = true.
Proof. by intros ->. Qed.

Lemma walk_dirnames q x :
  x ∈ (walk_names_of q).1 ↔ is_Some (fs !! (q ++ [x])) ∧ is_dir fs (q ++ [x]) = true ∧ visible x = true.
Proof.
  unfold walk_names_of. simpl.
  assert (x ∈ List.filter (λ name, is_dir fs (q ++ [name])) (scandir fs q) ↔
    is_Some (fs !! (q ++ [x])) ∧ is_dir fs (q ++ [x]) = true) as Hd.
  { by rewrite elem_of_bool_filter, scandir_children, elem_of_children. }
  destruct include_hidden eqn:Hh; [|rewrite elem_of_bool_filter]; rewrite Hd; [|tauto].
  split; [|tauto]. intros [? ?]. by split_and!.
Qed.

Lemma os_walk_names depth top item : item ∈ os_walk scandir fs include_hidden depth top → item.2 = walk_names_of item.1.
Proof.
  revert top. induction depth as [|depth IH]; intros top; simpl; [by intros ?%elem_of_nil|].
  intros [->|(x & _ & Hx)%elem_of_flat_map]%elem_of_cons; [done|].
  destruct (is_link _); [by apply elem_of_nil in Hx|by eapply IH].
Qed.

Lemma child_directory q x :
  canonical fs q → fs !! q = Some Directory → is_link (fs !! (q ++ [x])) = false → is_dir fs (q ++ [x]) = true →
  is_Some (fs !! (q ++ [x])) → canonical fs (q ++ [x]) ∧ fs !! (q ++ [x]) = Some Directory.
Proof.
  intros Hcan Hq Hl Hd Hx. destruct (fs_parents fs Hok _ _ Hx) as [_ Hreal].
  assert (canonical fs (q ++ [x])) as Hcx by (by apply canonical_snoc). split; [done|]. by apply dir_known.
Qed.

Lemma prefix_directory p r : fs !! (p ++ r) = Some Directory → fs !! p = Some Directory.
Proof.
  induction r as [|x r IH] using rev_ind; [by rewrite app_nil_r|]. intros Hd. apply IH.
  rewrite app_assoc in Hd. by destruct (fs_parents fs Hok _ x ltac:(eauto)).
Qed.

(** A directory below another is one of its names or further down. *)
Lemma walk_child top x rel :
  canonical fs top → fs !! (top ++ x :: rel) = Some Directory → visible x = true →
  x ∈ (walk_names_of top).1 ∧ is_link (fs !! (top ++ [x])) = false.
Proof.
  intros Hcan Hd Hv. replace (top ++ x :: rel) with ((top ++ [x]) ++ rel) in Hd by (by rewrite <- app_assoc).
  apply prefix_directory in Hd. split; [|by rewrite Hd]. apply walk_dirnames. split_and!; [by eauto| |done].
  unfold is_dir. rewrite stat_known, Hd; [done|done|].
  destruct (fs_parents fs Hok top x ltac:(eauto)). apply canonical_snoc; [done..|by rewrite Hd].
Qed.

Lemma os_walk_walked depth top q :
  canonical fs top → fs !! top = Some Directory →
  q ∈ (os_walk scandir fs include_hidden depth top).*1 ↔ walked depth top q.
Proof.
  revert top q. induction depth as [|depth IH]; intros top q Hcan Hd.
  { simpl. split; [by intros ?%elem_of_nil|]. intros (rel & _ & Hl & _). lia. }
  cbn [os_walk]. rewrite fmap_cons, elem_of_cons, fmap_flat_map, elem_of_flat_map.
  change (if include_hidden then _ else _) with (walk_names_of top).1. cbn [fst]. split.
  - intros [->|(x & Hx & Hq)].
    + exists []. rewrite app_nil_r. split_and!; [done|simpl; lia|constructor|done].
    + destruct (is_link (fs !! (top ++ [x]))) eqn:Hl; [by apply elem_of_nil in Hq|].
      apply walk_dirnames in Hx as (Hx & Hdir & Hv). destruct (child_directory top x Hcan Hd Hl Hdir Hx) as [Hcx Hdx].
      apply IH in Hq as (rel & -> & Hlen & Hvis & Hq); [|done..]. exists (x :: rel).
      rewrite <- app_assoc in *. split_and!; [done|simpl; lia|by constructor|done].
  - intros ([|x rel] & -> & Hlen & Hvis & Hq); [left; by rewrite app_nil_r|right].
    apply Forall_cons in Hvis as [Hv Hvis]. destruct (walk_child _ _ _ Hcan Hq Hv) as [Hx Hl]. exists x.
    split; [done|]. rewrite Hl. pose proof Hx as (Hpres & Hdir & _)%walk_dirnames.
    destruct (child_directory top x Hcan Hd Hl Hdir Hpres) as [Hcx Hdx]. apply IH; [done..|].
    exists rel. rewrite <- app_assoc. split_and!; [done|simpl in Hlen; lia|done|done].
Qed.

Lemma walk_dirnames_NoDup q : NoDup (walk_names_of q).1.
Proof.
  assert (NoDup (scandir fs q)) as Hs by (rewrite scandir_children; apply children_NoDup).
  unfold walk_names_of. simpl. destruct include_hidden; by repeat apply NoDup_bool_filter.
Qed.

Lemma os_walk_NoDup depth top : canonical fs top → fs !! top = Some Directory →
  NoDup (os_walk scandir fs include_hidden depth top).*1.
Proof.
  revert top. induction depth as [|depth IH]; intros top Hcan Hd; [constructor|].
  cbn [os_walk]. rewrite fmap_cons, fmap_flat_map.
  change (if include_hidden then _ else _) with (walk_names_of top).1. cbn [fst].
  assert (∀ x q, x ∈ (walk_names_of top).1 →
    q ∈ (if is_link (fs !! (top ++ [x])) then [] else os_walk scandir fs include_hidden depth (top ++ [x])).*1 →
    ∃ rel, q = top ++ x :: rel) as Hbelow.
  { intros x q Hx Hq. destruct (is_link (fs !! (top ++ [x]))) eqn:Hl; [by apply elem_of_nil in Hq|].
    apply walk_dirnames in Hx as (Hx & Hdir & Hv). destruct (child_directory top x Hcan Hd Hl Hdir Hx) as [Hcx Hdx].
    apply os_walk_walked in Hq as (rel & -> & _); [|done..]. exists rel. by rewrite <- app_assoc. }
  constructor.
  - intros (x & Hx & Hq)%elem_of_flat_map. destruct (Hbelow x top Hx Hq) as [rel Heq].
    apply (f_equal length) in Heq. rewrite length_app in Heq. simpl in Heq. lia.
  - apply NoDup_flat_map; [apply walk_dirnames_NoDup| |].
    + intros x (Hx & Hdir & Hv)%walk_dirnames. destruct (is_link (fs !! (top ++ [x]))) eqn:Hl; [constructor|].
      destruct (child_directory top x Hcan Hd Hl Hdir Hx) as [Hcx Hdx]. by apply IH.
    + intros x x' q Hx Hx' Hq Hq'. destruct (Hbelow _ _ Hx Hq) as [rel ->]. destruct (Hbelow _ _ Hx' Hq') as [rel' Heq].
      apply app_inv_head in Heq. congruence.
Qed.

(** ** What is gone through *)

Definition names_in (q : path) : list string :=
  py_sorted (walk_names_of q).1 ++ List.filter visible (py_sorted (walk_names_of q).2).

Lemma elem_of_names_in q x : x ∈ names_in q ↔ is_Some (fs !! (q ++ [x])) ∧ visible x = true.
Proof.
  unfold names_in. rewrite elem_of_app, elem_of_bool_filter, !elem_of_py_sorted, walk_dirnames.
  unfold walk_names_of. simpl. rewrite elem_of_bool_filter, scandir_children, elem_of_children.
  destruct (is_dir fs (q ++ [x])); simpl; naive_solver.
Qed.

Lemma names_in_NoDup q : NoDup (names_in q).
Proof.
  assert (NoDup (scandir fs q)) as Hs by (rewrite scandir_children; apply children_NoDup).
  unfold names_in. apply NoDup_app. split_and!.
  - apply NoDup_py_sorted, walk_dirnames_NoDup.
  - intros x. rewrite elem_of_bool_filter, !elem_of_py_sorted, walk_dirnames. unfold walk_names_of. simpl.
    rewrite elem_of_bool_filter. intros (_ & Hd & _) [[_ Hn] _]. by rewrite Hd in Hn.
  - apply NoDup_bool_filter, NoDup_py_sorted. by apply NoDup_bool_filter.
Qed.

Definition candidates (recursive : bool) (base : path) : list (path * bool) :=
  if recursive then walk_candidates scandir fs include_hidden base else scan_candidates scandir fs include_hidden base.

(** What a listing of [base] is to show. *)
Definition listed (recursive : bool) (base q : path) : Prop :=
  ∃ rel, q = base ++ rel ∧ rel ≠ [] ∧ (recursive = false → length rel = 1) ∧
    Forall (λ x, visible x = true) rel ∧ is_Some (fs !! q).

Lemma walk_candidates_fst base :
  (walk_candidates scandir fs include_hidden base).*1 =
  flat_map (λ q, (λ x, q ++ [x]) <$> names_in q) (os_walk scandir fs include_hidden (size fs) base).*1.
Proof.
  unfold walk_candidates. rewrite fmap_flat_map. pose proof (os_walk_names (size fs) base) as Hn. revert Hn.
  induction (os_walk scandir fs include_hidden (size fs) base) as [|[q ds] l IH]; intros Hn; simpl; [done|].
  rewrite IH by (intros item Hi; apply Hn; by right). f_equal.
  assert (ds = walk_names_of q) as -> by exact (Hn (q, ds) (list_elem_of_here _ _)).
  rewrite fmap_app, <- !list_fmap_compose. unfold names_in. by rewrite fmap_app.
Qed.

Lemma candidates_dir recursive base c : canonical fs base → fs !! base = Some Directory →
  c ∈ candidates recursive base → c.2 = is_dir fs c.1.
Proof.
  intros Hcan Hd. destruct recursive; simpl.
  - unfold walk_candidates. intros (item & Hi & Hc)%elem_of_flat_map. apply os_walk_names in Hi.
    apply elem_of_app in Hc as [(x & -> & Hx)%list_elem_of_fmap|(x & -> & Hx)%list_elem_of_fmap]; simpl.
    + rewrite elem_of_py_sorted, Hi in Hx. by apply walk_dirnames in Hx as (_ & -> & _).
    + rewrite elem_of_bool_filter, elem_of_py_sorted, Hi in Hx. destruct Hx as [[_ Hx]%elem_of_bool_filter _].
      by destruct (is_dir fs _).
  - by intros (x & -> & _)%list_elem_of_fmap.
Qed.

Lemma candidates_listed recursive base q : canonical fs base → fs !! base = Some Directory →
  q ∈ (candidates recursive base).*1 ↔ listed recursive base q.
Proof.
  intros Hcan Hd. destruct recursive; simpl.
  - rewrite walk_candidates_fst, elem_of_flat_map. split.
    + intros (q' & (rel & -> & _ & Hv & _)%os_walk_walked & (x & -> & [Hx Hvx]%elem_of_names_in)%list_elem_of_fmap);
        [|done..]. exists (rel ++ [x]). rewrite <- app_assoc in *. split_and!; [done|by destruct rel|done| |done].
      apply Forall_app. by split; [|apply Forall_singleton].
    + intros (rel & -> & Hne & _ & Hv & Hq). destruct rel as [|x rel _] using rev_ind; [done|].
      apply Forall_app in Hv as [Hv Hvx]. rewrite app_assoc in *. exists (base ++ rel). split.
      * apply os_walk_walked; [done..|]. exists rel. destruct (fs_parents fs Hok _ _ Hq) as [Hdir _].
        split_and!; [done| |done|done]. pose proof (depth_bound fs _ Hok Hq) as Hlen.
        rewrite !length_app in Hlen. simpl in Hlen. lia.
      * apply list_elem_of_fmap. exists x. split; [done|]. apply elem_of_names_in. split; [done|]. exact (Forall_inv Hvx).
  - unfold scan_candidates. rewrite <- list_fmap_compose. rewrite list_elem_of_fmap. split.
    + intros (x & -> & Hx). rewrite elem_of_py_sorted, elem_of_bool_filter, scandir_children, elem_of_children in Hx.
      destruct Hx as [Hx Hv]. exists [x]. split_and!; [done..| |done]. by apply Forall_singleton.
    + intros ([|x [|y rel]] & -> & Hne & Hlen & Hv & Hq); [done| |by specialize (Hlen eq_refl)]. exists x.
      split; [done|]. rewrite elem_of_py_sorted, elem_of_bool_filter, scandir_children, elem_of_children.
      split; [done|]. exact (Forall_inv Hv).
Qed.

Lemma candidates_NoDup recursive base : canonical fs base → fs !! base = Some Directory →
  NoDup (candidates recursive base).*1.
Proof.
  intros Hcan Hd. assert (∀ q, Inj eq eq (λ x, q ++ [x] : path)) as Hinj.
  { intros q x y Heq. by apply app_inj_tail in Heq as [_ ?]. }
  destruct recursive; simpl.
  - rewrite walk_candidates_fst. apply NoDup_flat_map; [by apply os_walk_NoDup| |].
    + intros q _. apply NoDup_fmap_2; [apply Hinj|apply names_in_NoDup].
    + intros q q' p _ _ (x & -> & _)%list_elem_of_fmap (x' & Heq & _)%list_elem_of_fmap.
      by apply app_inj_tail in Heq as [-> _].
  - unfold scan_candidates. rewrite <- list_fmap_compose. apply NoDup_fmap_2; [apply Hinj|].
    apply NoDup_py_sorted, NoDup_bool_filter. rewrite scandir_children. apply children_NoDup.
Qed.

Lemma record_entries_spec root base max cs entries res truncated :
  record_entries fs root base max cs entries = Ok (res, truncated) → (Z.of_nat (length entries) <= max)%Z →
  let k := length res - length entries in
  ∃ new, res = entries ++ new ∧ Forall2 (λ c entry, _build_entry_record fs root base c.1 c.2 = Ok entry) (take k cs) new ∧
    truncated = bool_decide (max < Z.of_nat (length entries + length cs))%Z ∧
    Z.of_nat (length res) = Z.min max (Z.of_nat (length entries + length cs)).
Proof.
  revert entries. induction cs as [|[full dir] cs IH]; intros entries; simpl.
  - intros [= <- <-] Hle. exists []. rewrite app_nil_r, take_nil. split_and!; [done|constructor| |lia].
    symmetry. apply bool_decide_eq_false. lia.
  - destruct (Z.leb_spec max (Z.of_nat (length entries))) as [Hmax|Hmax].
    + intros [= <- <-] Hle. exists []. rewrite app_nil_r, Nat.sub_diag.
      split_and!; [done|constructor| |lia]. symmetry. apply bool_decide_eq_true. lia.
    + intros (entry & Hentry & Hrec)%bind_Ok Hle.
      destruct (IH (entries ++ [entry]) Hrec) as (new & -> & Hnew & Ht & Hlen); [rewrite length_app; simpl; lia|].
      exists (entry :: new). rewrite <- app_assoc in *. rewrite !length_app in *. cbn [length Nat.add] in *.
      replace (length entries + S (length new) - length entries) with (S (length new)) by lia.
      replace (length entries + S (length new) - (length entries + 1)) with (length new) in Hnew by lia.
      split_and!; [done|by constructor| |lia]. rewrite Ht. apply bool_decide_ext. lia.
Qed.

(** An entry is recorded for a place inside the sandbox. *)
Lemma entry_inside root base full dir entry : fs_ok fs → clean full → _build_entry_record fs root base full dir = Ok entry →
  ∃ p, resolve fs true full = Ok p ∧ root `prefix_of` p ∧ canonical fs p ∧ is_Some (fs !! p).
Proof.
  intros _ Hc. unfold _build_entry_record. intros (p & Hp & (u & Hin & _)%bind_Ok)%bind_Ok. exists p.
  apply raise_if_Ok, negb_false_iff, bool_decide_eq_true in Hin.
  split_and!; [done|done|by eapply resolve_canonical|].
  eapply joinrealpath_exists; [done| |done]. rewrite (fs_root fs Hok). by eexists.
Qed.

(** A listing goes, once each, through exactly what lies visible below the
    directory (directly below it, if not recursive), links taken as entries
    but not followed down; it shows as many as asked for, says whether there
    are more, and every entry it shows is a place inside the sandbox root. *)
Theorem listing_faithful directory_path recursive max_entries sr text :
  list_local_directory e scandir float_repr fs directory_path recursive include_hidden max_entries sr = Ok text →
  ∃ root base entries,
    _resolve_sandbox_path e fs directory_path "directory_path" sr = Ok (root, base) ∧
    root `prefix_of` base ∧ fs !! base = Some Directory ∧
    let cs := candidates recursive base in
    NoDup cs.*1 ∧ (∀ q, q ∈ cs.*1 ↔ listed recursive base q) ∧ (∀ c, c ∈ cs → c.2 = is_dir fs c.1) ∧
    text = json_dumps float_repr (listing_payload base root recursive include_hidden max_entries entries
      (bool_decide (max_entries < Z.of_nat (length cs))%Z)) ∧
    Z.of_nat (length entries) = Z.min max_entries (Z.of_nat (length cs)) ∧
    Forall2 (λ c entry, _build_entry_record fs root base c.1 c.2 = Ok entry ∧
      ∃ p, resolve fs true c.1 = Ok p ∧ root `prefix_of` p ∧ canonical fs p) (take (length entries) cs) entries.
Proof.
  unfold list_local_directory. intros (u & Hmax%raise_if_Ok & Hrest)%bind_Ok. apply Z.ltb_ge in Hmax.
  apply bind_Ok in Hrest as ([root base] & Hbase & (u' & Hdir%raise_if_Ok & Hrest)%bind_Ok).
  apply bind_Ok in Hrest as ([entries truncated] & Hrec & Htext).
  destruct (existing_known _ _ _ _ _ _ _ Hok Hbase) as [Hp Hpre].
  destruct (sandbox_path_inv _ _ _ _ _ _ _ Hok Hp) as (_ & _ & _ & Hcan).
  apply negb_false_iff, dir_known in Hdir; [|done..].
  exists root, base, entries. split; [done|]. split; [done|]. split; [done|]. cbv zeta.
  change (if recursive then _ else _) with (candidates recursive base) in Hrec.
  destruct (record_entries_spec _ _ _ _ _ _ _ Hrec) as (new & -> & Hnew & -> & Hlen); [simpl; lia|].
  cbn [length app Nat.add] in *. rewrite Nat.sub_0_r in Hnew.
  split; [by apply candidates_NoDup|]. split; [intros q; by apply candidates_listed|].
  split; [intros c; by apply candidates_dir|]. split; [congruence|]. split; [done|].
  assert (Forall (λ c, clean c.1) (take (length new) (candidates recursive base))) as Hclean.
  { apply Forall_take, Forall_forall. intros c Hc.
    assert (listed recursive base c.1) as (rel & Heq & _ & _ & _ & Hpres).
    { apply candidates_listed; [done..|]. apply list_elem_of_fmap. by exists c. }
    by apply (present_clean fs). }
  revert Hclean. clear -Hnew Hok. induction Hnew as [|c entry cs new Hc _ IH]; intros Hclean; [constructor|].
  apply Forall_cons in Hclean as [Hcl Hclean]. constructor; [|by apply IH]. split; [done|].
  destruct (entry_inside _ _ _ _ _ Hok Hcl Hc) as (p & ? & ? & ? & _). by exists p.
Qed.
End listing.

(** ** A concrete file system: a sandbox with a link that stays inside and one
    that leads out. *)

Definition fs_check (fs : file_system) : bool :=
  is_directory (fs !! []) &&
  forallb (λ kv : path * node, match last kv.1 with
                               | Some x => is_directory (fs !! parent kv.1) && real_name x
                               | None => true
                               end) (map_to_list fs).

Lemma is_directory_eq n : is_directory n = true → n = Some Directory.
Proof. by destruct n as [[]|]. Qed.

Lemma fs_check_ok fs : fs_check fs = true → fs_ok fs.
Proof.
  intros [Hr Hall]%andb_true_iff. rewrite forallb_forall in Hall. split; [by apply is_directory_eq|].
  intros p x [n Hn]. specialize (Hall (p ++ [x], n)). cbn [fst] in Hall. rewrite last_snoc, parent_snoc in Hall.
  destruct (andb_prop _ _ (Hall ltac:(by apply list_elem_of_In, elem_of_map_to_list))) as [Hd Hx].
  split; [by apply is_directory_eq|done].
Qed.

Definition sample_fs : file_system := list_to_map
  [([], Directory); (["srv"], Directory); (["srv"; "secret"], Directory); (["srv"; "secret"; "key"], File "hush");
   (["srv"; "box"], Directory); (["srv"; "box"; "a.txt"], File "alpha"); (["srv"; "box"; "sub"], Directory);
   (["srv"; "box"; "sub"; "b.txt"], File "beta"); (["srv"; "box"; "in"], Symlink "sub/b.txt");
   (["srv"; "box"; "out"], Symlink "../secret"); (["srv"; "box"; "loop"], Symlink "./loop")].
Definition sample_process : process :=
  {| getcwd := "/srv"; home_of _ := None; root_env := Some "/srv/sub/../box" |}.

Lemma sample_fs_ok : fs_ok sample_fs.
Proof. apply fs_check_ok. vm_compute. reflexivity. Qed.

Definition sample_write := write_local_file sample_process "in" "gamma" "append" false None sample_fs.
Definition sample_fresh := write_local_file sample_process "new/dir/c.txt" "delta" "overwrite" true None sample_fs.

Example escapes_refused :
  exn_cls <$> match read_local_file sample_process sample_fs "out/key" 10 None with Raise ex => Some ex | _ => None end
    = Some PermissionError ∧
  exn_cls <$> match read_local_file sample_process sample_fs "/srv/secret/key" 10 None with Raise ex => Some ex | _ => None end
    = Some PermissionError ∧
  exn_cls <$> match read_local_file sample_process sample_fs "loop" 10 None with Raise ex => Some ex | _ => None end
    = Some RuntimeError ∧
  is_ok (write_local_file sample_process "out/new" "x" "overwrite" true None sample_fs).2 = false.
Proof. repeat split; vm_compute; reflexivity. Qed.

Lemma writes_confined_witness :
  is_ok sample_fresh.2 = true ∧ write_outcome sample_process sample_fs "new/dir/c.txt" "delta" "overwrite" true None
    sample_fresh.1 sample_fresh.2 ∧ sample_fresh.1 !! ["srv"; "box"; "new"; "dir"] = Some Directory.
Proof.
  split; [vm_compute; reflexivity|]. split; [|vm_compute; reflexivity].
  apply (writes_confined sample_process sample_fs); [apply sample_fs_ok|]. unfold sample_fresh. apply surjective_pairing.
Defined.

Lemma reads_confined_witness : read_local_file sample_process sample_fs "in" 4 None = Ok "beta".
Proof.
  apply (reads_confined sample_process sample_fs "in" 4 None "beta" sample_fs_ok).
  split; [lia|]. exists ["srv"; "box"], ["srv"; "box"; "sub"; "b.txt"], "beta".
  split_and!; [vm_compute; reflexivity|by exists ["sub"; "b.txt"]| |vm_compute; reflexivity|reflexivity|vm_compute; discriminate].
  apply (resolve_canonical sample_fs true ["srv"; "box"; "in"]); [apply sample_fs_ok| |vm_compute; reflexivity].
  by repeat constructor.
Defined.

Definition listable_fs : file_system := delete ["srv"; "box"; "loop"] (delete ["srv"; "box"; "out"] sample_fs).
Definition sample_listing : result string :=
  list_local_directory sample_process children (λ _, "0.5") listable_fs "." true false 3 None.

Lemma listing_faithful_witness :
  ∃ base entries, length entries = 3 ∧ listed listable_fs false true base ["srv"; "box"; "sub"; "b.txt"] ∧
    sample_listing = Ok (json_dumps (λ _, "0.5") (listing_payload base ["srv"; "box"] true false 3 entries true)).
Proof.
  destruct (listing_faithful sample_process children (λ _, "0.5") (λ _ _, reflexivity _) listable_fs
    (fs_check_ok listable_fs ltac:(vm_compute; reflexivity)) false "." true 3 None
    (match sample_listing with Ok t => t | Raise _ => "" end)) as (root & base & entries & Hp & _ & _ & _ & Hl & _ & Ht & Hlen & _);
    [vm_compute; reflexivity|].
  assert (Ok (root, base) = Ok (["srv"; "box"], ["srv"; "box"])) as [= -> ->].
  { rewrite <- Hp. vm_compute. reflexivity. }
  exists ["srv"; "box"], entries. split_and!.
  - assert (Z.of_nat (length entries) = 3%Z) as Heq by (rewrite Hlen; vm_compute; reflexivity). lia.
  - apply Hl. apply (bool_decide_unpack _). vm_compute. exact I.
  - transitivity (Ok (match sample_listing with Ok t => t | Raise _ => "" end)); [vm_compute; reflexivity|].
    f_equal. rewrite Ht. reflexivity.
Defined.
