(* ===== verification/StateBackup.v ===== *)
(** Backing up and restoring the runtime's state
    ([scripts/eap_state_backup.py]), on a disk whose operations can fail.

    A SQLite database is a main file and the write-ahead log beside it; what a
    connection sees of the two, what it leaves of them when it is closed, and
    the file a backup writes are parameters, as are the two export scripts, the
    clock and the reading of a JSON file.  Paths are resolved and symbolic links
    do not occur at or below them; what is only printed is left out. *)
From stdpp Require Import options.
From S2P Require Import Prelude Values Json CanonicalJson AuditBundle SqliteSchema FileSystem.
Unset Default Proof Using.

(** ** Trees *)

(** [q] is [p] or below it. *)
Definition below (p q : path) : bool := bool_decide (take (length p) q = p).
(** What stands at and below [p], by relative path. *)
Definition subtree (d : file_system) (p : path) : file_system :=
  list_to_map (omap (λ kv : path * node, if below p kv.1 then Some (drop (length p) kv.1, kv.2) else None) (map_to_list d)).
Definition without (p : path) (d : file_system) : file_system := filter (λ kv, below p kv.1 = false) d.
Definition graft (p : path) (t d : file_system) : file_system := kmap (app p) t ∪ d.
Definition prefixes (p : path) : list path := (λ n, take n p) <$> seq 0 (S (length p)).
Definition make_directory (d : file_system) (q : path) : file_system := match d !! q with None => <[q := Directory]> d | Some _ => d end.

(** [p.with_name(p.name + suffix)] *)
Definition with_suffix (p : path) (suffix : string) : path := parent p ++ [default "" (last p) +:+ suffix].
Definition wal_of (p : path) : path := with_suffix p "-wal".

(** ** A disk that can fail *)

(** How an operation fails: the exception, what it has written of a file (if
    it had opened it), and the entries of a tree it had dealt with. *)
Record fault := { fault_exn : exn; fault_text : option string; fault_done : path → bool }.
Record world := { disk : file_system; calls : nat }.

Definition BACKUP_MANIFEST_FILENAME := "backup_manifest.json".
Definition BACKUP_METADATA_FILENAME := "backup_metadata.json".
Definition DEFAULT_STATE_DB_FILENAME := "agent_state.db".
Definition REQUIRED_TABLES : list string :=
  ["execution_trace_events"; "execution_run_summaries"; "execution_run_checkpoints"; "execution_run_diagnostics";
   "conversation_sessions"; "conversation_turns"].

Record backup_args := {
  b_db_path : path; b_output_root : path; b_name : option string; b_overwrite : bool; b_run_id_limit : Z;
  b_telemetry_limit_runs : Z; b_audit_limit_runs : Z; b_signing_key : option string; b_signer_key_id : option string; b_dry_run : bool
}.
Record restore_args := {
  r_backup_dir : path; r_db_path : path; r_force : bool; r_skip_verify : bool; r_require_signature : bool;
  r_signing_key : option string; r_diagnostics_output_dir : path; r_skip_diagnostics_restore : bool; r_report_path : option path
}.

Section state_backup.
Context (float_repr : Q → string) (sha256_hex : string → string) (hmac_sha256_hex : string → string → string).
(** [json.loads(path.read_text(encoding="utf-8"))] of a file's content. *)
Context (load_text : string → result pyval).
(** A connection to a main file and its log: what it sees, and the two files
    once it is closed; [Connection.backup] into a new file. *)
Context (db_view : string → option string → result database) (settle : string → option string → string * option string).
Context (db_backup : string → option string → result string).
(** [ORDER BY completed_at_utc DESC LIMIT ?] *)
Context (recent_run_ids : list row → Z → list string).
(** The export scripts: name, database, output directory, limit. *)
Context (run_script : string → path → path → Z → file_system → file_system * result unit).
Context (now_utc_iso utc_timestamp_slug : nat → string) (platform python_version : string).
(** [EAP_STATE_BACKUP_SIGNING_KEY] *)
Context (env_signing_key : option string).
(** Which of the operations fail. *)
Context (faults : nat → option fault).

Abbreviation W := (stm world).

Definition operate {A} (f : file_system → file_system * result A) (cut : fault → file_system → file_system) : W A := λ s,
  match faults (calls s) with
  | Some x => ({| disk := cut x (disk s); calls := S (calls s) |}, Raise (fault_exn x))
  | None => let '(d, r) := f (disk s) in ({| disk := d; calls := S (calls s) |}, r)
  end.
(** An operation that changes nothing. *)
Definition inspect {A} (f : file_system → result A) : W A := operate (λ d, (d, f d)) (λ _ d, d).
(** [exists()], [is_file()], [is_dir()] *)
Definition look {A} (f : file_system → A) : W A := s ← st_get; mret (f (disk s)).
Definition exists_ (p : path) : W bool := look (λ d, negb (is_None (d !! p))).
Definition is_file (d : file_system) (p : path) : bool := match d !! p with Some (FileSystem.File _) => true | _ => false end.

Definition content (d : file_system) (p : path) : result string :=
  match d !! p with
  | Some (FileSystem.File c) => Ok c
  | Some Directory => Raise (is_a_directory p)
  | _ => Raise (not_found p)
  end.
Definition read_file (p : path) : W string := inspect (λ d, content d p).
(** Opened for writing: the file is cut short before it is written. *)
Definition put_file (p : path) (c : string) (d : file_system) : file_system * result unit :=
  match d !! p, d !! parent p with
  | Some Directory, _ => (d, Raise (is_a_directory p))
  | _, Some Directory => (<[p := FileSystem.File c]> d, Ok tt)
  | _, _ => (d, Raise (not_found p))
  end.
Definition write_file (p : path) (c : string) : W unit :=
  operate (put_file p c) (λ x d, match fault_text x with Some t => (put_file p t d).1 | None => d end).
(** [shutil.copy2] *)
Definition copy2 (source target : path) : W unit := c ← read_file source; write_file target c.
Definition unlink (p : path) : W unit :=
  operate (λ d, if is_file d p then (delete p d, Ok tt) else (d, Raise (not_found p))) (λ _ d, d).
(** [os.replace] of a file: all at once or not at all. *)
Definition os_replace (source target : path) : W unit :=
  operate (λ d, match content d source with
                | Ok c => match d !! target with
                          | Some Directory => (d, Raise (is_a_directory target))
                          | _ => (<[target := FileSystem.File c]> (delete source d), Ok tt)
                          end
                | Raise e => (d, Raise e)
                end) (λ _ d, d).
(** [Path.replace] of a directory onto a name that is free: nothing stands
    below such a name. *)
Definition replace_directory (source target : path) : W unit :=
  operate (λ d, match d !! source, d !! target with
                | Some Directory, None => (graft target (subtree d source) (without target (without source d)), Ok tt)
                | Some Directory, Some _ => (d, Raise (Exn (OtherError "OSError") "Directory not empty"))
                | _, _ => (d, Raise (not_found source))
                end) (λ _ d, d).
Definition rmtree (p : path) : W unit :=
  operate (λ d, match d !! p with
                | Some Directory => (without p d, Ok tt)
                | Some _ => (d, Raise (not_a_directory p))
                | None => (d, Raise (not_found p))
                end)
    (λ x d, filter (λ kv, below p kv.1 && fault_done x kv.1 = false) d).
Definition copytree (source target : path) : W unit :=
  operate (λ d, match d !! source, d !! target with
                | Some Directory, None => (graft target (subtree d source) d, Ok tt)
                | Some Directory, Some _ => (d, Raise (exists_error target))
                | _, _ => (d, Raise (not_found source))
                end) (λ x d, graft target (filter (λ kv, fault_done x kv.1 = true) (subtree d source)) d).
(** [mkdir(parents=True, exist_ok=exist_ok)] *)
Definition mkdir (exist_ok : bool) (p : path) : W unit :=
  operate (λ d, if is_file d p || (negb exist_ok && negb (is_None (d !! p))) then (d, Raise (exists_error p))
                else if existsb (is_file d) (prefixes p) then (d, Raise (not_a_directory p))
                else (foldl make_directory d (prefixes p), Ok tt))
    (λ x d, foldl make_directory d (filter (λ q, fault_done x q = true ∧ existsb (is_file d) (prefixes p) = false) (prefixes p))).
Definition log_of (d : file_system) (p : path) : option string :=
  match d !! wal_of p with Some (FileSystem.File w) => Some w | _ => None end.
(** The last connection to a database is closed. *)
Definition close_db (p : path) (main : string) (wal : option string) (d : file_system) : file_system :=
  let '(main', wal') := settle main wal in
  match wal', wal with
  | Some w, _ => <[wal_of p := FileSystem.File w]>
  | None, Some _ => delete (wal_of p)
  | None, None => id
  end (<[p := FileSystem.File main']> d).
(** A connection, the query [f] on what it sees, and its end. *)
Definition with_db {A} (p : path) (f : database → result A) : W A :=
  operate (λ d, match content d p with
                | Raise e => (d, Raise e)
                | Ok main =>
                    match db_view main (log_of d p) with
                    | Raise e => (d, Raise e)
                    | Ok view => (close_db p main (log_of d p) d, f view)
                    end
                end) (λ _ d, d).

(** ** Helpers of the script *)

Definition _ensure_exists (p : path) (path_label : string) : W unit :=
  there ← exists_ p;
  st_raise_if (negb there) (value_error (path_label +:+ " does not exist: " +:+ path_str p));;
  file ← look (λ d, is_file d p);
  st_raise_if (negb file) (value_error (path_label +:+ " must be a file: " +:+ path_str p)).

Definition _load_json (p : path) (path_label : string) : W (list (string * pyval)) :=
  c ← read_file p;
  match load_text c with
  | Ok (PDict payload) => mret payload
  | Ok _ => st_raise (value_error (path_label +:+ " must be a JSON object: " +:+ path_str p))
  | Raise e => st_raise (if decide (exn_cls e = JSONDecodeError)
                         then value_error (path_label +:+ " is not valid JSON: " +:+ path_str p) else e)
  end.

Definition _table_exists (conn : database) (table_name : string) : bool := negb (is_None (tables conn !! table_name)).
(** [SELECT COUNT( * ) FROM table] *)
Definition count (conn : database) (table_name : string) : result Z :=
  match tables conn !! table_name with Some t => Ok (Z.of_nat (length (rows t))) | None => Raise (no_such_table table_name) end.

Definition _validate_state_db (p : path) : W pyval :=
  _ensure_exists p "state DB";;
  with_db p (λ conn,
    let missing := List.filter (λ name, negb (_table_exists conn name)) REQUIRED_TABLES in
    _ ← raise_if (negb (is_None (head missing)))
          (value_error ("state DB missing required tables: " +:+ py_repr float_repr (PList (PStr <$> missing))));
    run_count ← count conn "execution_run_summaries";
    diagnostics_count ← count conn "execution_run_diagnostics";
    Ok (PDict [("db_path", PStr (path_str p)); ("required_tables", PList (PStr <$> REQUIRED_TABLES)); ("missing_tables", PList []);
               ("execution_run_count", PInt run_count); ("diagnostics_run_count", PInt diagnostics_count)])).

Definition _collect_table_counts (p : path) : W (list (string * pyval)) :=
  with_db p (λ conn, map_result (λ name, n ← count conn name; Ok (name, PInt n)) REQUIRED_TABLES).

Definition _collect_run_ids (p : path) (limit : Z) : W (list string) :=
  with_db p (λ conn, match tables conn !! "execution_run_summaries" with
                     | Some t => Ok (recent_run_ids (rows t) limit)
                     | None => Raise (no_such_table "execution_run_summaries")
                     end).

(** [_relative_file_hashes], over [_iter_files] *)
Definition _relative_file_hashes (root : path) (excluded_names : list string) (d : file_system) : list (string * string) :=
  sorted_dict (omap (λ kv : path * node, match kv.2 with
    | FileSystem.File c => if decide (default "" (last kv.1) ∈ excluded_names) then None
                           else Some (py_join "/" kv.1, sha256_file sha256_hex c)
    | _ => None
    end) (map_to_list (subtree d root))).

Definition _write_json (p : path) (payload : pyval) : W unit :=
  mkdir true (parent p);; write_file p (json_indented float_repr 0 payload).

(** A directory as the bundle verification reads it. *)
Definition bundle_at (d : file_system) (dir : path) : bundle := λ filename,
  match d !! (dir ++ components filename) with
  | Some (FileSystem.File c) => Some (AuditBundle.File c)
  | Some _ => Some NoFile
  | None => None
  end.
Definition verify (dir : path) (manifest : list (string * pyval)) (signing_key : option string) (require_signature : bool) : W VerificationResult :=
  inspect (λ d, verify_bundle_manifest float_repr sha256_hex hmac_sha256_hex (bundle_at d dir) manifest signing_key require_signature None).

(** [args.signing_key or os.getenv(...)] *)
Definition signing_key_of (arg : option string) : option string := match AuditBundle.given arg with Some k => Some k | None => env_signing_key end.
Definition now (clock : nat → string) : W string := s ← st_get; mret (clock (calls s)).

(** ** Backup *)

(** [_run_script]; of the message, which quotes the command line and its
    output, the script's name and exception are kept. *)
Definition _run_script (name : string) (db output_dir : path) (limit : Z) : W unit :=
  operate (λ d, match run_script name db output_dir limit d with
                | (d, Raise e) => (d, Raise (Exn RuntimeError ("command failed: " +:+ name +:+ exn_msg e)))
                | r => r
                end) (λ x d, (run_script name db output_dir limit d).1).

(** [src_conn.backup(dst_conn)]: a snapshot of what a connection to the source
    sees, in a new file. *)
Definition snapshot_db (source target : path) : W unit :=
  operate (λ d, match content d source with
                | Raise e => (d, Raise e)
                | Ok main =>
                    match db_backup main (log_of d source) with
                    | Raise e => (d, Raise e)
                    | Ok copy => put_file target copy (close_db source main (log_of d source) d)
                    end
                end) (λ x d, match fault_text x with Some t => (put_file target t d).1 | None => d end).

(** [except Exception: if temp_dir.exists(): shutil.rmtree(temp_dir); raise] *)
Definition removing_on_error {A} (temp_dir : path) (body : W A) : W A := λ s,
  match body s with
  | (s, Raise e) =>
      match (there ← exists_ temp_dir; if there : bool then rmtree temp_dir else mret tt) s with
      | (s, Ok _) => (s, Raise e)
      | (s, Raise e') => (s, Raise e')
      end
  | r => r
  end.

Definition backup_name (a : backup_args) (slug : string) : string :=
  match AuditBundle.given (b_name a) with Some n => n | None => "state-backup-" +:+ slug end.
Definition snapshot_of (dir : path) : path := dir ++ ["state"; DEFAULT_STATE_DB_FILENAME].

(** The body of the [try]. *)
Definition build_backup (a : backup_args) (name : string) (temp_dir backup_dir : path) : W unit :=
  let source_db_path := b_db_path a in
  let snapshot_db_path := snapshot_of temp_dir in
  let telemetry_dir := temp_dir ++ ["diagnostics"; "telemetry"] in
  let audit_dir := temp_dir ++ ["diagnostics"; "audit_bundle"] in
  mkdir true (temp_dir ++ ["state"]);;
  mkdir true telemetry_dir;;
  mkdir true audit_dir;;
  snapshot_db source_db_path snapshot_db_path;;
  db_validation ← _validate_state_db snapshot_db_path;
  table_counts ← _collect_table_counts snapshot_db_path;
  run_ids ← _collect_run_ids snapshot_db_path (Z.max 1 (b_run_id_limit a));
  _run_script "export_telemetry_pack.py" snapshot_db_path telemetry_dir (Z.max 1 (b_telemetry_limit_runs a));;
  _run_script "export_audit_bundle.py" snapshot_db_path audit_dir (Z.max 1 (b_audit_limit_runs a));;
  generated_at_utc ← now now_utc_iso;
  _write_json (temp_dir ++ [BACKUP_METADATA_FILENAME])
    (PDict [("generated_at_utc", PStr generated_at_utc); ("backup_name", PStr name); ("source_db_path", PStr (path_str source_db_path));
            ("snapshot_db_path", PStr (py_join "/" ["state"; DEFAULT_STATE_DB_FILENAME])); ("table_counts", PDict table_counts);
            ("db_validation", db_validation); ("run_id_count_in_manifest", PInt (Z.of_nat (length run_ids)));
            ("platform", PStr platform); ("python_version", PStr python_version)]);;
  let signing_key := signing_key_of (b_signing_key a) in
  file_hashes ← inspect (λ d, Ok (_relative_file_hashes temp_dir [BACKUP_MANIFEST_FILENAME] d));
  let manifest := build_manifest float_repr sha256_hex hmac_sha256_hex generated_at_utc (path_str source_db_path) run_ids file_hashes
                    (b_signer_key_id a) signing_key in
  _write_json (temp_dir ++ [BACKUP_MANIFEST_FILENAME]) (PDict manifest);;
  verification ← verify temp_dir manifest signing_key (negb (is_None (AuditBundle.given signing_key)));
  st_raise_if (negb (verified verification))
    (Exn RuntimeError ("backup manifest self-verification failed: " +:+ py_join "; " (errors verification)));;
  replace_directory temp_dir backup_dir.

(** [_backup] *)
Definition _backup (a : backup_args) : W Z :=
  _ensure_exists (b_db_path a) "source state DB";;
  slug ← now utc_timestamp_slug;
  let name := backup_name a slug in
  let backup_dir := b_output_root a ++ [name] in
  let temp_dir := b_output_root a ++ [name +:+ ".tmp"] in
  if b_dry_run a then
    _validate_state_db (b_db_path a);; _collect_table_counts (b_db_path a);; mret 0%Z
  else
    mkdir true (b_output_root a);;
    there ← exists_ backup_dir;
    st_raise_if (there && negb (b_overwrite a)) (value_error ("backup destination already exists: " +:+ path_str backup_dir));;
    (if there : bool then rmtree backup_dir else mret tt);;
    leftover ← exists_ temp_dir;
    (if leftover : bool then rmtree temp_dir else mret tt);;
    mkdir false temp_dir;;
    removing_on_error temp_dir (build_backup a name temp_dir backup_dir);;
    mret 0%Z.

(** ** Restore *)

(** The verification unless it is skipped: what the report says of it, or
    [None] when it failed. *)
Definition verification_details (a : restore_args) (manifest : list (string * pyval)) (signing_key : option string) : W (option pyval) :=
  if r_skip_verify a then mret (Some (PDict [("verified", PBool true); ("errors", PList []); ("checks", PDict [])])) else
  result ← verify (r_backup_dir a) manifest signing_key (r_require_signature a);
  mret (if verified result
        then Some (PDict [("verified", PBool true); ("errors", PList (PStr <$> errors result)); ("checks", checks result)]) else None).

(** Where the diagnostics go, if they are restored. *)
Definition diagnostics_output (a : restore_args) : W (option path) :=
  let source := r_backup_dir a ++ ["diagnostics"] in
  dir ← look (λ d, is_directory (d !! source));
  if dir && negb (r_skip_diagnostics_restore a) then
    let output := r_diagnostics_output_dir a ++ [default "" (last (r_backup_dir a))] in
    there ← exists_ output;
    st_raise_if (there && negb (r_force a))
      (value_error ("diagnostics destination already exists (use --force to replace): " +:+ path_str output));;
    mret (Some output)
  else mret None.

(** The copy of an existing target. *)
Definition rollback_copy (a : restore_args) : W (option path) :=
  there ← exists_ (r_db_path a);
  if there : bool then
    st_raise_if (negb (r_force a)) (value_error ("target DB already exists (use --force to replace): " +:+ path_str (r_db_path a)));;
    slug ← now utc_timestamp_slug;
    let copy := with_suffix (r_db_path a) (".pre_restore." +:+ slug +:+ ".bak") in
    copy2 (r_db_path a) copy;;
    mret (Some copy)
  else mret None.

(** The snapshot put in the target's place. *)
Definition install (snapshot target : path) : W unit :=
  let restoring_path := with_suffix target ".restoring" in
  there ← exists_ restoring_path;
  (if there : bool then unlink restoring_path else mret tt);;
  copy2 snapshot restoring_path;;
  os_replace restoring_path target.

Definition restore_diagnostics (source : path) (output : option path) : W unit :=
  match output with
  | None => mret tt
  | Some output =>
      there ← exists_ output;
      (if there : bool then rmtree output else mret tt);;
      mkdir true (parent output);;
      copytree source output
  end.

Definition opt_path (p : option path) : pyval := match p with Some p => PStr (path_str p) | None => PNone end.

(** [_restore] *)
Definition _restore (a : restore_args) : W Z :=
  let backup_dir := r_backup_dir a in
  dir ← look (λ d, is_directory (d !! backup_dir));
  st_raise_if (negb dir) (value_error ("backup directory not found: " +:+ path_str backup_dir));;
  manifest ← _load_json (backup_dir ++ [BACKUP_MANIFEST_FILENAME]) "backup manifest";
  backup_metadata ← _load_json (backup_dir ++ [BACKUP_METADATA_FILENAME]) "backup metadata";
  details ← verification_details a manifest (signing_key_of (r_signing_key a));
  match details with
  | None => mret 1%Z
  | Some details =>
      let snapshot_db_path := snapshot_of backup_dir in
      snapshot_validation ← _validate_state_db snapshot_db_path;
      mkdir true (parent (r_db_path a));;
      diagnostics_output_path ← diagnostics_output a;
      rollback_backup_path ← rollback_copy a;
      install snapshot_db_path (r_db_path a);;
      restored_validation ← _validate_state_db (r_db_path a);
      restore_diagnostics (backup_dir ++ ["diagnostics"]) diagnostics_output_path;;
      restored_at_utc ← now now_utc_iso;
      slug ← now utc_timestamp_slug;
      _write_json (default (r_diagnostics_output_dir a ++ ["restore_report_" +:+ slug +:+ ".json"]) (r_report_path a))
        (PDict [("status", PStr "ok"); ("operation", PStr "restore"); ("backup_dir", PStr (path_str backup_dir));
                ("target_db_path", PStr (path_str (r_db_path a))); ("rollback_backup_path", opt_path rollback_backup_path);
                ("diagnostics_output_path", opt_path diagnostics_output_path); ("source_backup_metadata", PDict backup_metadata);
                ("snapshot_validation", snapshot_validation); ("restored_validation", restored_validation);
                ("verification", details); ("restored_at_utc", PStr restored_at_utc)]);;
      mret 0%Z
  end.

(** [main]: every exception is reported, with exit code 1. *)
Inductive command := Backup (a : backup_args) | Restore (a : restore_args).
Definition main (c : command) : world → world * Z := λ s,
  let '(s, r) := match c with Backup a => _backup a | Restore a => _restore a end s in
  (s, match r with Ok code => code | Raise _ => 1%Z end).
End state_backup.
