(* ===== verification/StateBackupProofs.v ===== *)
(** What backing up and restoring the state guarantee, whichever operations of
    the disk fail. *)
From Stdlib Require Import FunctionalExtensionality.
From stdpp Require Import options.
From S2P Require Import Prelude Values Json CanonicalJson AuditBundle SqliteSchema FileSystem StateBackup.
Unset Default Proof Using.

(** ** Trees *)

Lemma below_spec p q : below p q = true ↔ ∃ r, q = p ++ r.
Proof.
  unfold below. rewrite bool_decide_eq_true. split.
  - intros H. exists (drop (length p) q). rewrite <- H at 1. by rewrite take_drop.
  - intros [r ->]. by rewrite take_app_length.
Qed.
Lemma below_app p r : below p (p ++ r) = true.
Proof. apply below_spec. by exists r. Qed.
Lemma below_refl p : below p p = true.
Proof. apply below_spec. exists []. by rewrite app_nil_r. Qed.
Lemma below_trans p q r : below p q = true → below q r = true → below p r = true.
Proof. rewrite !below_spec. intros [a ->] [b ->]. exists (a ++ b). by rewrite app_assoc. Qed.
Lemma not_below p q : below p q = false ↔ ∀ r, q ≠ p ++ r.
Proof. rewrite <- not_true_iff_false, below_spec. naive_solver. Qed.
Lemma below_snoc p q x : below p (q ++ [x]) = true → p = q ++ [x] ∨ below p q = true.
Proof.
  intros [r H]%below_spec. destruct (decide (r = [])) as [->|Hr]; [left; by rewrite app_nil_r in H|right].
  destruct (exists_last Hr) as (r' & y & ->). rewrite app_assoc in H. apply app_inj_tail in H as [-> _]. apply below_app.
Qed.

Lemma below_app_l t x y : below (t ++ x) (t ++ y) = below x y.
Proof.
  apply eq_bool_prop_intro. rewrite !Is_true_true, !below_spec. split; intros [r H]; exists r.
  - by rewrite <- app_assoc in H; apply app_inv_head in H.
  - by rewrite H, app_assoc.
Qed.

Lemma lookup_subtree d p r : subtree d p !! r = d !! (p ++ r).
Proof.
  unfold subtree. set (f := λ kv : path * node, if below p kv.1 then Some (drop (length p) kv.1, kv.2) else None).
  assert (∀ r n, (r, n) ∈ omap f (map_to_list d) ↔ d !! (p ++ r) = Some n) as Hin.
  { intros r' n. rewrite list_elem_of_omap. split.
    - intros ([q n'] & Hq & Hf). unfold f in Hf. cbn in Hf. destruct (below p q) eqn:E; [|done]. injection Hf as <- <-.
      apply below_spec in E as [x ->]. rewrite drop_app_length. by apply elem_of_map_to_list in Hq.
    - intros Hq. exists (p ++ r', n). split; [by apply elem_of_map_to_list|]. unfold f. cbn. by rewrite below_app, drop_app_length. }
  assert (NoDup (omap f (map_to_list d)).*1) as Hnd.
  { assert (NoDup (map_to_list d).*1) as Hd by apply NoDup_fst_map_to_list. revert Hd. clear Hin. induction (map_to_list d) as [|[q n] l IH]; [constructor|].
    rewrite fmap_cons, NoDup_cons. intros [Hq Hl]. cbn [omap list_omap]. destruct (f (q, n)) as [[r' n']|] eqn:E; [|by apply IH]. rewrite fmap_cons, NoDup_cons. split; [|by apply IH].
    unfold f in E. cbn in E. destruct (below p q) eqn:Eq; [|done]. injection E as <- <-. intros ([r2 n2] & Hr & H2)%list_elem_of_fmap. cbn in Hr. subst r2.
    apply list_elem_of_omap in H2 as ([q2 m2] & Hin2 & Hf2). unfold f in Hf2. cbn in Hf2. destruct (below p q2) eqn:Eq2; [|done]. injection Hf2 as Hd <-.
    apply below_spec in Eq as [x ->]. apply below_spec in Eq2 as [y ->]. rewrite !drop_app_length in Hd. subst y. apply Hq, list_elem_of_fmap. by exists (p ++ x, m2). }
  apply option_eq. intros n. rewrite <- elem_of_list_to_map by done. apply Hin.
Qed.

Lemma lookup_graft_below p t d r : graft p t d !! (p ++ r) = match t !! r with Some n => Some n | None => d !! (p ++ r) end.
Proof.
  unfold graft. rewrite lookup_union, (lookup_kmap (app p)). destruct (t !! r), (d !! (p ++ r)); done.
Qed.
Lemma lookup_graft p t d q : below p q = false → graft p t d !! q = d !! q.
Proof.
  intros Hq. unfold graft. rewrite lookup_union. assert (kmap (app p) t !! q = None) as ->; [|by destruct (d !! q)].
  apply lookup_kmap_None; [apply _|]. intros r ->. by rewrite below_app in Hq.
Qed.
Lemma lookup_without p d q : without p d !! q = if below p q then None else d !! q.
Proof.
  unfold without. destruct (below p q) eqn:E.
  - apply map_lookup_filter_None. right. intros n _. cbn. by rewrite E.
  - destruct (d !! q) as [n|] eqn:Ed; [by apply map_lookup_filter_Some|]. apply map_lookup_filter_None. by left.
Qed.

Lemma elem_of_prefixes p q : q ∈ prefixes p → below q p = true.
Proof.
  unfold prefixes. intros (n & -> & _)%list_elem_of_fmap. apply below_spec. exists (drop n p). by rewrite take_drop.
Qed.
Lemma lookup_make_directories d l q : q ∉ l → foldl make_directory d l !! q = d !! q.
Proof.
  revert d. induction l as [|p l IH]; intros d; [done|]. rewrite not_elem_of_cons. intros [Hp Hl]. cbn. rewrite IH by done.
  unfold make_directory. destruct (d !! p); [done|]. by apply lookup_insert_ne.
Qed.
Lemma make_directories_keep d l q n : d !! q = Some n → foldl make_directory d l !! q = Some n.
Proof.
  revert d. induction l as [|p l IH]; intros d Hq; [done|]. cbn. apply IH. unfold make_directory. destruct (d !! p) eqn:E; [done|].
  rewrite lookup_insert_ne; [done|]. intros ->. congruence.
Qed.

(** ** What a computation leaves alone *)

Section state_backup.
Context (float_repr : Q → string) (sha256_hex : string → string) (hmac_sha256_hex : string → string → string).
Context (load_text : string → result pyval).
Context (db_view : string → option string → result database) (settle : string → option string → string * option string).
Context (db_backup : string → option string → result string) (recent_run_ids : list row → Z → list string).
Context (run_script : string → path → path → Z → file_system → file_system * result unit).
Context (now_utc_iso utc_timestamp_slug : nat → string) (platform python_version : string).
Context (env_signing_key : option string) (faults : nat → option fault).

Abbreviation W := (stm world).
Abbreviation operate := (operate faults).

(** The entries [K] are the same afterwards, however it ends. *)
Definition keeps {A} (K : path → Prop) (m : W A) : Prop := ∀ s s' r, m s = (s', r) → ∀ p, K p → disk s' !! p = disk s !! p.
(** The disk is the same afterwards. *)
Definition quiet {A} (m : W A) : Prop := ∀ s s' r, m s = (s', r) → disk s' = disk s.

Lemma keeps_seq {A B} (K : path → Prop) (m : W A) (f : A → W B) : keeps K m → (∀ a, keeps K (f a)) → keeps K (m ≫= f).
Proof.
  intros Hm Hf s s' r H p Hp. unfold mbind, stm_bind in H. destruct (m s) as [s1 [a|e]] eqn:E.
  - rewrite (Hf a _ _ _ H p Hp). by eapply Hm.
  - injection H as <- _. by eapply Hm.
Qed.
Lemma quiet_keeps {A} (K : path → Prop) (m : W A) : quiet m → keeps K m.
Proof. intros Hm s s' r H p _. by rewrite (Hm _ _ _ H). Qed.
Lemma quiet_bind {A B} (m : W A) (f : A → W B) : quiet m → (∀ a, quiet (f a)) → quiet (m ≫= f).
Proof.
  intros Hm Hf s s' r H. unfold mbind, stm_bind in H. destruct (m s) as [s1 [a|e]] eqn:E.
  - by rewrite (Hf _ _ _ _ H), (Hm _ _ _ E).
  - injection H as <- _. by rewrite (Hm _ _ _ E).
Qed.
Lemma quiet_ret {A} (a : A) : quiet (mret a). Proof. by intros s s' r [= <- _]. Qed.
Lemma quiet_lift {A} (x : result A) : quiet (st_lift x). Proof. by intros s s' r [= <- _]. Qed.
Lemma quiet_look {A} (f : file_system → A) : quiet (look f). Proof. by intros s s' r [= <- _]. Qed.
Lemma quiet_now clock : quiet (now clock). Proof. by intros s s' r [= <- _]. Qed.
Lemma quiet_operate {A} (f : file_system → file_system * result A) cut : (∀ d, (f d).1 = d) → (∀ x d, cut x d = d) → quiet (operate f cut).
Proof.
  intros Hf Hc s s' r. unfold StateBackup.operate. destruct (faults (calls s)); [intros [= <- _]; apply Hc|].
  destruct (f (disk s)) as [d r'] eqn:E. intros [= <- _]. pose proof (Hf (disk s)) as Hd. by rewrite E in Hd.
Qed.
Lemma quiet_inspect {A} (f : file_system → result A) : quiet (inspect faults f).
Proof. by apply quiet_operate. Qed.
Lemma keeps_operate {A} (K : path → Prop) (f : file_system → file_system * result A) cut : (∀ d p, K p → (f d).1 !! p = d !! p) →
  (∀ x d p, K p → cut x d !! p = d !! p) → keeps K (operate f cut).
Proof.
  intros Hf Hc s s' r H p Hp. unfold StateBackup.operate in H. destruct (faults (calls s)) as [x|]; [injection H as <- _; by apply Hc|].
  destruct (f (disk s)) as [d r'] eqn:E. injection H as <- _. pose proof (Hf (disk s) p Hp) as Hd. by rewrite E in Hd.
Qed.

Lemma put_file_keeps q c d p : p ≠ q → (put_file q c d).1 !! p = d !! p.
Proof. intros Hp. unfold put_file. destruct (d !! q) as [[]|], (d !! parent q) as [[]|]; try done; by apply lookup_insert_ne. Qed.
Lemma keeps_write_file (K : path → Prop) q c : (∀ p, K p → p ≠ q) → keeps K (write_file faults q c).
Proof.
  intros HK. apply keeps_operate; intros; [by apply put_file_keeps, HK|]. destruct (fault_text _); [by apply put_file_keeps, HK|done].
Qed.
Lemma keeps_copy2 (K : path → Prop) source target : (∀ p, K p → p ≠ target) → keeps K (copy2 faults source target).
Proof. intros HK. apply keeps_seq; [apply quiet_keeps, quiet_inspect|]. intros c. by apply keeps_write_file. Qed.
Lemma keeps_unlink (K : path → Prop) q : (∀ p, K p → p ≠ q) → keeps K (unlink faults q).
Proof.
  intros HK. apply keeps_operate; [|done]. intros d p Hp. destruct (is_file d q); [|done]. apply lookup_delete_ne. by apply not_eq_sym, HK.
Qed.
Lemma keeps_rmtree (K : path → Prop) q : (∀ p, K p → below q p = false) → keeps K (rmtree faults q).
Proof.
  intros HK. apply keeps_operate; intros.
  - destruct (d !! q) as [[]|]; [done| |done..]. cbn. by rewrite lookup_without, HK.
  - destruct (d !! p) as [n|] eqn:E; [|apply map_lookup_filter_None; by left]. apply map_lookup_filter_Some. cbn. by rewrite HK.
Qed.
Lemma keeps_copytree (K : path → Prop) source target : (∀ p, K p → below target p = false) → keeps K (copytree faults source target).
Proof.
  intros HK. apply keeps_operate; intros; [|by apply lookup_graft, HK].
  destruct (d !! source) as [[]|], (d !! target); try done. by apply lookup_graft, HK.
Qed.
Lemma keeps_replace_directory (K : path → Prop) source target : (∀ p, K p → below source p = false ∧ below target p = false) →
  keeps K (replace_directory faults source target).
Proof.
  intros HK. apply keeps_operate; [|done]. intros d p Hp. apply HK in Hp as [H1 H2].
  destruct (d !! source) as [[]|], (d !! target); try done. cbn. by rewrite lookup_graft, !lookup_without, H2, H1.
Qed.
Lemma keeps_mkdir (K : path → Prop) b q : (∀ p, K p → below p q = false) → keeps K (mkdir faults b q).
Proof.
  intros HK. assert (∀ p l, K p → l ⊆ prefixes q → p ∉ l) as Hl.
  { intros p l Hp Hl Hin. apply Hl, elem_of_prefixes in Hin. by rewrite HK in Hin. }
  apply keeps_operate; intros.
  - destruct (_ || _); [done|]. destruct (existsb _ _); [done|]. cbn [fst]. by apply lookup_make_directories, Hl.
  - apply lookup_make_directories, Hl; [done|]. intros x' Hx'. by apply list_elem_of_filter in Hx' as [_ ?].
Qed.
Lemma close_db_other q main wal d p : p ≠ q → p ≠ wal_of q → close_db settle q main wal d !! p = d !! p.
Proof.
  intros H1 H2. unfold close_db. destruct (settle main wal) as [m [w|]], wal as [w'|]; cbn [id];
    by rewrite ?lookup_insert_ne, ?lookup_delete_ne, ?lookup_insert_ne by congruence.
Qed.
Lemma close_db_main q main wal d : wal_of q ≠ q → close_db settle q main wal d !! q = Some (FileSystem.File (settle main wal).1).
Proof.
  intros Hq. unfold close_db. destruct (settle main wal) as [m [w|]], wal as [w'|]; cbn [id fst];
    rewrite ?lookup_insert_ne, ?lookup_delete_ne by done; apply lookup_insert_eq.
Qed.
Lemma keeps_with_db {A} (K : path → Prop) q (f : database → result A) : (∀ p, K p → p ≠ q ∧ p ≠ wal_of q) → keeps K (with_db db_view settle faults q f).
Proof.
  intros HK. apply keeps_operate; [|done]. intros d p Hp. apply HK in Hp as [H1 H2]. destruct (content d q) as [main|]; [|done].
  destruct (db_view main _); [|done]. by apply close_db_other.
Qed.

Lemma quiet_raise_if b e : quiet (st_raise_if b e). Proof. apply quiet_lift. Qed.
Lemma quiet_ensure p label : quiet (_ensure_exists p label).
Proof. apply quiet_bind; [apply quiet_look|intros]. apply quiet_bind; [apply quiet_lift|intros]. apply quiet_bind; [apply quiet_look|intros; apply quiet_lift]. Qed.
Lemma quiet_load p label : quiet (_load_json load_text faults p label).
Proof. apply quiet_bind; [apply quiet_inspect|]. intros c. destruct (load_text c) as [[]|]; apply quiet_ret || apply quiet_lift. Qed.

Lemma wp_seq {A B} (m : W A) (f : A → W B) P Q s : wp m P s → (∀ s' a, P s' (Ok a) → wp (f a) Q s') → (∀ s' e, P s' (Raise e) → Q s' (Raise e)) →
  wp (m ≫= f) Q s.
Proof. intros Hm Hok Hr. apply wp_bind. eapply wp_mono; [exact Hm|]. intros s' [b|e] H; [by apply Hok|by apply Hr]. Qed.
Lemma wp_quiet {A} (m : W A) s : quiet m → wp m (λ s' _, disk s' = disk s) s.
Proof. intros H. red. destruct (m s) as [s' r] eqn:E. by apply (H _ _ _ E). Qed.
Lemma wp_and {A} (m : W A) (P Q : world → result A → Prop) s : wp m P s → wp m Q s → wp m (λ s' r, P s' r ∧ Q s' r) s.
Proof. by split. Qed.
Lemma wp_look {A} (f : file_system → A) Q s : Q s (Ok (f (disk s))) → wp (look f) Q s.
Proof. done. Qed.
Lemma wp_clock clock (Q : world → result string → Prop) s : Q s (Ok (clock (calls s))) → wp (now clock) Q s.
Proof. done. Qed.
Lemma wp_raise_if b e (Q : world → result unit → Prop) s : (b = false → Q s (Ok tt)) → (b = true → Q s (Raise e)) → wp (st_raise_if b e) Q s.
Proof. destruct b; intros H1 H2; [by apply H2|by apply H1]. Qed.
Lemma wp_keeps {A} (K : path → Prop) (m : W A) s : keeps K m → wp m (λ s' _, ∀ p, K p → disk s' !! p = disk s !! p) s.
Proof. intros H. red. destruct (m s) as [s' r] eqn:E. by apply (H _ _ _ E). Qed.
Lemma wp_operate {A} (f : file_system → file_system * result A) cut (Q : world → result A → Prop) s :
  (∀ x, Q {| disk := cut x (disk s); calls := S (calls s) |} (Raise (fault_exn x))) →
  (∀ d r, f (disk s) = (d, r) → Q {| disk := d; calls := S (calls s) |} r) → wp (operate f cut) Q s.
Proof.
  intros Hc Hf. unfold wp, StateBackup.operate. destruct (faults (calls s)) as [x|]; [apply Hc|]. destruct (f (disk s)) as [d r] eqn:E. by apply Hf.
Qed.

(** What a write that returns has written, and what a read that returns has
    read. *)
Lemma wp_write_file q c s : wp (write_file faults q c) (λ s' r, (∀ p, p ≠ q → disk s' !! p = disk s !! p) ∧ (r = Ok tt → disk s' !! q = Some (FileSystem.File c))) s.
Proof.
  apply wp_operate; [|intros d r Hp]; cbn.
  - intros x. split; [|done]. intros p Hp. destruct (fault_text x); [by apply put_file_keeps|done].
  - split; [intros p Hne; pose proof (put_file_keeps q c (disk s) p Hne) as H; by rewrite Hp in H|]. intros ->. revert Hp. unfold put_file.
    destruct (disk s !! q) as [[]|], (disk s !! parent q) as [[]|]; intros [= <-]; by rewrite lookup_insert_eq.
Qed.
Lemma wp_copy2 source q s : wp (copy2 faults source q)
  (λ s' r, (∀ p, p ≠ q → disk s' !! p = disk s !! p) ∧
           (r = Ok tt → disk s' !! q = disk s !! source ∧ ∃ c, disk s !! source = Some (FileSystem.File c))) s.
Proof.
  apply wp_bind. apply wp_operate; [intros x; by split|]. intros d r [= <- <-]. unfold content. destruct (disk s !! source) as [[c| |]|] eqn:E; try by split.
  cbn. eapply wp_mono; [apply wp_write_file|]. cbn. intros s' r [H1 H2]. split; [done|]. intros ->. rewrite H2 by done. eauto.
Qed.
Lemma wp_os_replace source q c s : disk s !! source = Some (FileSystem.File c) → source ≠ q → wp (os_replace faults source q)
  (λ s' r, (∀ p, p ≠ q → p ≠ source → disk s' !! p = disk s !! p) ∧ (disk s' !! q = disk s !! q ∨ disk s' !! q = Some (FileSystem.File c)) ∧
           (r = Ok tt → disk s' !! q = Some (FileSystem.File c))) s.
Proof.
  intros Hs Hne. apply wp_operate; [intros x; split_and!; by auto|]. intros d r. unfold content. rewrite Hs. destruct (disk s !! q) as [[]|] eqn:Eq;
    intros [= <- <-]; cbn; (split; [intros p H1 H2; by rewrite ?lookup_insert_ne, ?lookup_delete_ne by done|]); rewrite ?lookup_insert_eq, ?Eq; (split; [by auto|by intros ?]).
Qed.

Lemma wp_rmtree q s : wp (rmtree faults q) (λ s' r, (∀ p, below q p = false → disk s' !! p = disk s !! p) ∧ (r = Ok tt → ∀ p, disk s' !! (q ++ p) = None)) s.
Proof.
  apply wp_and; [by apply (wp_keeps (λ p, below q p = false)), keeps_rmtree|]. apply wp_operate; [done|]. intros d r.
  destruct (disk s !! q) as [[]|]; intros [= <- <-]; try done. intros _ p. cbn. by rewrite lookup_without, below_app.
Qed.

(** A database without a log is left as it is. *)
Definition settled : Prop := ∀ m, settle m None = (m, None).

Lemma close_db_log q main d : settled → wal_of q ≠ q →
  log_of (close_db settle q main (log_of d q) d) q = (settle main (log_of d q)).2.
Proof.
  intros Hset Hq. unfold close_db. destruct (log_of d q) as [w'|] eqn:El.
  - destruct (settle main (Some w')) as [m [w|]]; unfold log_of; cbn [snd]; by rewrite ?lookup_insert_eq, ?lookup_delete_eq.
  - rewrite Hset. cbn [id snd]. unfold log_of in *. by rewrite lookup_insert_ne.
Qed.
Lemma close_db_id q main d : settled → d !! q = Some (FileSystem.File main) → log_of d q = None → close_db settle q main (log_of d q) d = d.
Proof. intros Hset Hq ->. unfold close_db. rewrite Hset. cbn [id]. by apply insert_id. Qed.

(** A query leaves the disk as it was and fails, or closes the database. *)
Definition queried {A} (q : path) (s s' : world) (r : result A) : Prop :=
  (disk s' = disk s ∧ ∀ x, r ≠ Ok x) ∨
  ∃ main, disk s !! q = Some (FileSystem.File main) ∧ disk s' = close_db settle q main (log_of (disk s) q) (disk s).
Lemma wp_query {A} q (f : database → result A) s : wp (with_db db_view settle faults q f) (queried q s) s.
Proof.
  apply wp_operate; cbn; [by left|]. intros d r. unfold content. destruct (disk s !! q) as [[main| |]|] eqn:E; try (intros [= <- <-]; by left).
  destruct (db_view main _); intros [= <- <-]; [|by left]. right. by exists main.
Qed.
Lemma with_db_settled {A} q (f : database → result A) s s' r : settled → with_db db_view settle faults q f s = (s', r) →
  log_of (disk s) q = None → disk s' = disk s.
Proof.
  intros Hs H Hw. pose proof (wp_query q f s) as W. unfold wp in W. rewrite H in W. cbn [fst snd] in W. destruct W as [[? _]|(main & Hm & E)]; [done|].
  rewrite E. by apply close_db_id.
Qed.
Lemma wal_ne q : q ≠ [] → wal_of q ≠ q.
Proof.
  intros Hq. destruct (exists_last Hq) as (p & x & ->). unfold wal_of, with_suffix, parent. rewrite removelast_last, last_snoc. cbn.
  intros [_ H]%app_inj_tail. apply (f_equal String.length) in H. rewrite str_length_app in H. cbn in H. lia.
Qed.

Lemma wal_of_snapshot dir : wal_of (snapshot_of dir) = dir ++ ["state"; DEFAULT_STATE_DB_FILENAME +:+ "-wal"].
Proof.
  unfold wal_of, with_suffix, snapshot_of, parent. change ["state"; ?x] with (["state"] ++ [x]). rewrite app_assoc, removelast_last, last_snoc.
  by rewrite <- app_assoc.
Qed.

Lemma ensure_same q label s : wp (_ensure_exists q label) (λ s' _, s' = s) s.
Proof.
  apply wp_bind, wp_look. cbn. apply wp_bind, wp_raise_if; cbn; intros _; [|done]. apply wp_bind, wp_look. cbn. by apply wp_raise_if.
Qed.

Lemma wp_validate q s : wp (_validate_state_db float_repr db_view settle faults q) (queried q s) s.
Proof. eapply wp_seq; [apply ensure_same| |intros s1 e ->; by left]. cbn. intros s1 _ ->. apply wp_query. Qed.
Lemma wp_validate_settled q s : settled → log_of (disk s) q = None →
  wp (_validate_state_db float_repr db_view settle faults q) (λ s' _, disk s' = disk s) s.
Proof.
  intros Hset Hw. eapply wp_mono; [apply wp_validate|]. cbn. intros s' r [[? _]|(main & Hm & ->)]; [done|]. by apply close_db_id.
Qed.

(** ** Restoring *)

Section restore.
Context (a : restore_args).
Abbreviation target := (r_db_path a).
Abbreviation snapshot := (snapshot_of (r_backup_dir a)).
Definition rollback (n : nat) : path := with_suffix (r_db_path a) (".pre_restore." +:+ utc_timestamp_slug n +:+ ".bak").

(** The files that matter: the snapshot, the target, their logs, the copies of
    the old target. *)
Definition watched (p : path) : Prop :=
  p = snapshot_of (r_backup_dir a) ∨ p = wal_of (snapshot_of (r_backup_dir a)) ∨ p = r_db_path a ∨ p = wal_of (r_db_path a) ∨ ∃ n, p = rollback n.

(** The target is not in the backup, and neither the diagnostics directory nor
    the report stands at, above or below one of those files. *)
Record separate : Prop := {
  sep_target : r_db_path a ≠ [];
  sep_backup : below (r_backup_dir a) (r_db_path a) = false;
  sep_diagnostics : ∀ p, watched p → below (r_diagnostics_output_dir a) p = false ∧ below p (r_diagnostics_output_dir a) = false;
  sep_report : ∀ p q, r_report_path a = Some q → watched p → below p q = false
}.
Hypothesis Hsep : separate.

Lemma target_parts : ∃ name, target = parent target ++ [name] ∧ ∀ x, with_suffix target x = parent target ++ [name +:+ x].
Proof.
  destruct (exists_last (sep_target Hsep)) as (p & x & Heq). exists x. unfold with_suffix, parent. rewrite Heq, removelast_last, last_snoc.
  by split.
Qed.
Lemma beside_target x : ∃ y, with_suffix target x = parent target ++ [y].
Proof. destruct target_parts as (name & _ & H). eauto. Qed.

(** A name in the target's directory is none in the snapshot's. *)
Lemma not_in_snapshot x y : parent target ++ [x] ≠ r_backup_dir a ++ ["state"; y].
Proof.
  intros H. change ["state"; y] with (["state"] ++ [y]) in H. rewrite app_assoc in H. apply app_inj_tail in H as [H _].
  destruct target_parts as (name & Ht & _). pose proof (sep_backup Hsep) as Hb. rewrite Ht, H, <- app_assoc in Hb. by rewrite below_app in Hb.
Qed.
Lemma above_parent p : watched p → below p (parent target) = false.
Proof.
  destruct target_parts as (name & Ht & Hx). intros Hp. apply not_below. intros r Hr.
  assert (∀ z, p ≠ parent target ++ [z]) as Hlong.
  { intros z ->. apply (f_equal length) in Hr. rewrite !length_app in Hr. cbn in Hr. lia. }
  assert (∀ z, p ≠ r_backup_dir a ++ z) as Hin.
  { intros z ->. pose proof (sep_backup Hsep) as Hb. rewrite Ht, Hr, <- !app_assoc in Hb. by rewrite below_app in Hb. }
  destruct Hp as [->|[->|[->|[->|[n ->]]]]].
  - by eapply Hin.
  - rewrite wal_of_snapshot in Hin. by eapply Hin.
  - by eapply Hlong.
  - unfold wal_of in Hlong. rewrite Hx in Hlong. by eapply Hlong.
  - unfold rollback in Hlong. rewrite Hx in Hlong. by eapply Hlong.
Qed.

(** What is written in the target's directory, apart from the watched file it
    is. *)
Lemma suffixes_differ x y : x ≠ y → with_suffix target x ≠ with_suffix target y.
Proof.
  destruct target_parts as (name & _ & Hx). rewrite !Hx. intros Hne [_ H]%app_inj_tail. by apply (inj (String.append name)) in H.
Qed.
Lemma suffix_not_target x : x ≠ "" → with_suffix target x ≠ target.
Proof.
  destruct target_parts as (name & Ht & Hx). rewrite Hx. intros Hne H. rewrite Ht in H at 2. apply app_inj_tail in H as [_ H].
  apply (f_equal String.length) in H. rewrite str_length_app in H. destruct x; [done|cbn in H; lia].
Qed.
Lemma suffix_not_snapshot x : with_suffix target x ≠ snapshot ∧ with_suffix target x ≠ wal_of snapshot.
Proof. destruct (beside_target x) as [y ->]. rewrite wal_of_snapshot. split; apply not_in_snapshot. Qed.
Lemma restoring_unwatched p : watched p → p ≠ with_suffix target ".restoring".
Proof.
  intros [->|[->|[->|[->|[n ->]]]]].
  - apply not_eq_sym, suffix_not_snapshot.
  - apply not_eq_sym, suffix_not_snapshot.
  - by apply not_eq_sym, suffix_not_target.
  - by apply suffixes_differ.
  - by apply suffixes_differ.
Qed.
Lemma target_not_snapshot : target ≠ snapshot ∧ target ≠ wal_of snapshot.
Proof. destruct target_parts as (name & -> & _). rewrite wal_of_snapshot. split; apply not_in_snapshot. Qed.

Lemma diagnostics_keeps output : (∀ o, output = Some o → ∃ n, o = r_diagnostics_output_dir a ++ [n]) →
  keeps watched (restore_diagnostics faults (r_backup_dir a ++ ["diagnostics"]) output).
Proof.
  intros Ho. destruct output as [o|]; [|apply quiet_keeps, quiet_ret]. destruct (Ho o eq_refl) as [n ->].
  assert (∀ p, watched p → below (r_diagnostics_output_dir a ++ [n]) p = false) as Hb.
  { intros p Hp. apply not_true_iff_false. intros H. destruct (sep_diagnostics Hsep p Hp) as [Hd _].
    by rewrite (below_trans _ _ _ (below_app _ _) H) in Hd. }
  apply keeps_seq; [apply quiet_keeps, quiet_look|intros b]. apply keeps_seq; [destruct b; [by apply keeps_rmtree|apply quiet_keeps, quiet_ret]|intros ?].
  apply keeps_seq; [|intros ?; by apply keeps_copytree]. apply keeps_mkdir. intros p Hp. unfold parent. rewrite removelast_last.
  by apply (sep_diagnostics Hsep).
Qed.

Lemma below_removelast p q : below p (removelast q) = true → below p q = true.
Proof.
  destruct (decide (q = [])) as [->|Hq]; [done|]. destruct (exists_last Hq) as (q' & x & ->). rewrite removelast_last.
  intros H. eapply below_trans; [exact H|apply below_app].
Qed.

Lemma report_keeps slug payload :
  keeps watched (_write_json float_repr faults (default (r_diagnostics_output_dir a ++ ["restore_report_" +:+ slug +:+ ".json"]) (r_report_path a)) payload).
Proof.
  set (report := default _ _). assert (∀ p, watched p → below p report = false) as Hr.
  { intros p Hp. unfold report. destruct (r_report_path a) as [q|] eqn:E; [by eapply (sep_report Hsep)|]. cbn.
    apply not_true_iff_false. intros H. destruct (sep_diagnostics Hsep p Hp) as [H1 H2]. apply below_snoc in H as [->|H]; [|congruence].
    by rewrite below_app in H1. }
  apply keeps_seq; [apply keeps_mkdir|intros _; apply keeps_write_file].
  - intros p Hp. apply not_true_iff_false. intros H%below_removelast. by rewrite Hr in H.
  - intros p Hp ->. pose proof (Hr _ Hp) as Hb. by rewrite below_refl in Hb.
Qed.
Lemma wp_install s : wp (install faults snapshot target) (λ s' r,
  (∀ p, watched p → p ≠ target → disk s' !! p = disk s !! p) ∧
  (disk s' !! target = disk s !! target ∨ disk s' !! target = disk s !! snapshot) ∧
  (r = Ok tt → disk s' !! target = disk s !! snapshot)) s.
Proof.
  set (restoring := with_suffix target ".restoring").
  assert (∀ s1 : world, (∀ p, watched p → disk s1 !! p = disk s !! p) →
    wp (copy2 faults snapshot restoring;; os_replace faults restoring target) (λ s' r,
      (∀ p, watched p → p ≠ target → disk s' !! p = disk s !! p) ∧
      (disk s' !! target = disk s !! target ∨ disk s' !! target = disk s !! snapshot) ∧
      (r = Ok tt → disk s' !! target = disk s !! snapshot)) s1) as Hcopy.
  { intros s1 H1. assert (watched snapshot) as Hws by by left. assert (watched target) as Hwt by by right; right; left.
    eapply wp_seq; [apply wp_copy2| |]; cbn.
    - intros s2 [] [H2 [E (c & Hc)]]; [done|]. rewrite Hc in E. rewrite <- (H1 _ Hws), Hc. eapply wp_mono.
      { eapply wp_os_replace; [exact E|]. by apply not_eq_sym, restoring_unwatched. }
      cbn. intros s3 r (H3 & H4 & H5). assert (∀ p, watched p → disk s2 !! p = disk s !! p) as H12.
      { intros p Hp. rewrite H2 by by apply restoring_unwatched. by apply H1. }
      split_and!; [|by rewrite <- (H12 _ Hwt)|done]. intros p Hp Hne. rewrite H3 by (done || by apply restoring_unwatched). by apply H12.
    - intros s2 e [H2 _]. assert (∀ p, watched p → disk s2 !! p = disk s !! p) as H12.
      { intros p Hp. rewrite H2 by by apply restoring_unwatched. by apply H1. }
      split_and!; [by auto|by left; apply H12|done]. }
  eapply wp_seq; [apply wp_quiet, quiet_look| |by intros s1 e H; rewrite H; split_and!; auto]. cbn. intros s1 there H1.
  assert (keeps watched (if there then unlink faults restoring else mret tt)) as Hk.
  { destruct there; [apply keeps_unlink, restoring_unwatched|apply quiet_keeps, quiet_ret]. }
  eapply wp_seq; [apply (wp_keeps _ _ _ Hk)| |]; cbn; intros s2; rewrite H1.
  - intros _ H2. by apply Hcopy.
  - intros e H2. split_and!; [by auto|left; apply H2; by right; right; left|done].
Qed.

Lemma wp_rollback_copy s : wp (rollback_copy utc_timestamp_slug faults a) (λ s' r,
  (∀ p, (∀ n, p ≠ rollback n) → disk s' !! p = disk s !! p) ∧
  (∀ o, r = Ok o → disk s !! target = None ∨ (r_force a = true ∧ ∃ n, disk s' !! rollback n = disk s !! target))) s.
Proof.
  apply wp_bind, wp_look. cbn. destruct (disk s !! target) as [old|] eqn:Et; cbn; [|by repeat wp_step; auto].
  apply wp_bind, wp_raise_if; cbn; intros Hf; [|by split]. apply wp_bind, wp_clock. cbn. apply wp_bind.
  eapply wp_mono; [apply wp_copy2|]. cbn. intros s1 [[]|e] [H1 H2]; cbn; (split; [intros p Hp; apply H1, (Hp (calls s))|]); [|done].
  intros o _. right. split; [by destruct (r_force a)|]. exists (calls s). destruct (H2 eq_refl) as [Hr _]. rewrite <- Et. exact Hr.
Qed.

(** The manifest of the backup holds of it on this disk, or nobody asked. *)
Definition checked (d : file_system) : Prop :=
  r_skip_verify a = true ∨ ∃ text manifest result,
    d !! (r_backup_dir a ++ [BACKUP_MANIFEST_FILENAME]) = Some (FileSystem.File text) ∧ load_text text = Ok (PDict manifest) ∧
    verify_bundle_manifest float_repr sha256_hex hmac_sha256_hex (bundle_at d (r_backup_dir a)) manifest
      (signing_key_of env_signing_key (r_signing_key a)) (r_require_signature a) None = Ok result ∧ verified result = true.

Lemma wp_load q label s : wp (_load_json load_text faults q label) (λ s' r, disk s' = disk s ∧
  ∀ m, r = Ok m → ∃ text, disk s !! q = Some (FileSystem.File text) ∧ load_text text = Ok (PDict m)) s.
Proof.
  apply wp_bind, wp_operate; [by intros x; split|]. intros d r [= <- <-]. unfold content. destruct (disk s !! q) as [[c| |]|] eqn:E; try by split.
  cbn. destruct (load_text c) as [[]|] eqn:El; cbn; (split; [done|]); try done; try (by destruct (decide _)). intros m' [= <-]. eauto.
Qed.
Lemma wp_verification manifest s : wp (verification_details float_repr sha256_hex hmac_sha256_hex faults a manifest (signing_key_of env_signing_key (r_signing_key a)))
  (λ s' r, disk s' = disk s ∧ ∀ x, r = Ok (Some x) → r_skip_verify a = true ∨ ∃ result,
     verify_bundle_manifest float_repr sha256_hex hmac_sha256_hex (bundle_at (disk s) (r_backup_dir a)) manifest
       (signing_key_of env_signing_key (r_signing_key a)) (r_require_signature a) None = Ok result ∧ verified result = true) s.
Proof.
  unfold verification_details. destruct (r_skip_verify a); [split; [done|]; auto|]. apply wp_bind, wp_operate; [by intros x; split|].
  intros d r [= <- <-]. destruct (verify_bundle_manifest _ _ _ _ _ _ _ _) as [result|e] eqn:E; cbn; (split; [done|]); [|done].
  intros x Hx. right. exists result. split; [done|]. by destruct (verified result).
Qed.

(** The old target has a copy, if there was one. *)
Definition copied (d d' : file_system) : Prop :=
  d !! r_db_path a = None ∨ (r_force a = true ∧ ∃ n, d' !! rollback n = d !! r_db_path a).

(** What a restore of the database [m] may have made of the disk [d]: the
    old target is where it was or beside it; a new one is [m], or what a
    connection to it left of it and of the log beside the target, and was
    [verified]. *)
Record restored (d d' : file_system) (m : string) (verified complete : Prop) : Prop := {
  rs_snapshot : d' !! snapshot_of (r_backup_dir a) = d !! snapshot_of (r_backup_dir a);
  rs_target : d' !! r_db_path a = d !! r_db_path a ∨
    ((d' !! r_db_path a = Some (FileSystem.File m) ∨
      d' !! r_db_path a = Some (FileSystem.File (settle m (log_of d (r_db_path a))).1)) ∧ verified);
  rs_old : d' !! r_db_path a = d !! r_db_path a ∨ copied d d';
  rs_complete : complete → d' !! r_db_path a = Some (FileSystem.File (settle m (log_of d (r_db_path a))).1) ∧
    log_of d' (r_db_path a) = (settle m (log_of d (r_db_path a))).2 ∧ verified ∧ copied d d'
}.

Lemma restored_start d m (V P : Prop) : ¬ P → restored d d m V P.
Proof. split; auto; by intros. Qed.
Lemma restored_keeps d d1 d2 m V P : restored d d1 m V P → (∀ p, watched p → d2 !! p = d1 !! p) → restored d d2 m V P.
Proof.
  intros [H1 H2 H3 H4] Hk. assert (copied d d1 → copied d d2) as Hc.
  { intros [?|[? [n Hn]]]; [by left|]. right. split; [done|]. exists n. rewrite Hk; [done|]. right; right; right; right. eauto. }
  assert (d2 !! snapshot = d1 !! snapshot) as Es by (apply Hk; by left).
  assert (d2 !! target = d1 !! target) as Et by (apply Hk; by right; right; left).
  assert (log_of d2 target = log_of d1 target) as El by (unfold log_of; rewrite Hk; [done|by right; right; right; left]).
  split; rewrite ?Es, ?Et, ?El; [done|done|destruct H3; auto|]. intros HP. destruct (H4 HP) as (? & ? & ? & ?). auto.
Qed.
Lemma restored_complete d d' m V (P : Prop) : restored d d' m V True → restored d d' m V P.
Proof. intros [H1 H2 H3 H4]. split; auto. Qed.

Definition after (m : string) (V : Prop) (s s' : world) (r : result Z) : Prop := restored (disk s) (disk s') m V (r = Ok 0%Z).

(** While the target is untouched, and after the new one is in place. *)
Lemma after_untouched m V s s' r : (∀ p, watched p → disk s' !! p = disk s !! p) → r ≠ Ok 0%Z → after m V s s' r.
Proof. intros H Hr. eapply restored_keeps; [by apply restored_start|done]. Qed.
Lemma wp_after m V s s1 (rest : W Z) : keeps watched rest → restored (disk s) (disk s1) m V True → wp rest (after m V s) s1.
Proof.
  intros Hm H1. eapply wp_mono; [apply (wp_keeps _ _ _ Hm)|]. cbn. intros s2 r H2. by eapply restored_complete, restored_keeps.
Qed.

Lemma wp_diagnostics_output s : wp (diagnostics_output a)
  (λ s' r, s' = s ∧ ∀ o, r = Ok o → ∀ p, o = Some p → ∃ n, p = r_diagnostics_output_dir a ++ [n]) s.
Proof.
  apply wp_bind, wp_look. cbn. destruct (_ && _); [|by split; [|intros o [= <-]]]. apply wp_bind, wp_look. cbn.
  apply wp_bind, wp_raise_if; cbn; intros _; (split; [done|]); [|done]. intros o [= <-] p [= <-]. eauto.
Qed.

(** The parts that matter are as they were, but for the copies of the old
    target. *)
Definition untouched (d d' : file_system) : Prop := ∀ p, watched p → (∀ n, p ≠ rollback n) → d' !! p = d !! p.
Lemma watched_kept p : p ∈ [snapshot; target; wal_of target] → watched p ∧ ∀ n, p ≠ rollback n.
Proof.
  rewrite !elem_of_cons, elem_of_nil. intros [->|[->|[->|[]]]]; (split; [unfold watched; auto 6|]); intros n.
  - apply not_eq_sym, suffix_not_snapshot.
  - by apply not_eq_sym, suffix_not_target.
  - by apply suffixes_differ.
Qed.

Lemma snapshot_not_target : snapshot ≠ target.
Proof. apply not_eq_sym, target_not_snapshot. Qed.

(** From the snapshot's copy on. *)
Lemma wp_installed m V s s1 (rest : pyval → W Z) : settled → untouched (disk s) (disk s1) → copied (disk s) (disk s1) → V →
  disk s !! snapshot = Some (FileSystem.File m) → (∀ v, keeps watched (rest v)) →
  wp (install faults snapshot target;; v ← _validate_state_db float_repr db_view settle faults target; rest v) (after m V s) s1.
Proof.
  intros Hset Hu Hc HV Hm Hk. destruct (watched_kept snapshot) as [Ws Rs]; [by repeat constructor|]. destruct (watched_kept target) as [Wt Rt]; [by repeat constructor|].
  destruct (watched_kept (wal_of target)) as [Ww Rw]; [by repeat constructor|].
  pose proof (wal_ne target (sep_target Hsep)) as Hwal.
  assert (∀ d2, (∀ p, watched p → p ≠ target → p ≠ wal_of target → d2 !! p = disk s1 !! p) → copied (disk s) d2) as Hc2.
  { intros d2 H2. destruct Hc as [?|[? [n Hn]]]; [by left|]. right. split; [done|]. exists n. rewrite H2; [done| |by apply not_eq_sym..].
    right; right; right; right. eauto. }
  assert (disk s1 !! snapshot = disk s !! snapshot) as Es by auto. assert (disk s1 !! target = disk s !! target) as Et by auto.
  eapply wp_seq; [apply wp_install| |]; cbn.
  - intros s2 [] (H1 & _ & H3). specialize (H3 eq_refl). rewrite Es, Hm in H3.
    assert (disk s2 !! snapshot = disk s !! snapshot) as E2 by (rewrite H1; auto using snapshot_not_target).
    assert (log_of (disk s2) target = log_of (disk s) target) as El by (unfold log_of; rewrite H1, Hu by done; done).
    assert (snapshot ≠ wal_of target) as Hsw by (apply not_eq_sym, suffix_not_snapshot).
    eapply wp_seq; [apply wp_validate| |]; cbn.
    + intros s3 v [[_ Hno]|(main & Hmain & E)]; [by destruct (Hno v)|]. rewrite H3 in Hmain. injection Hmain as <-. rewrite El in E.
      apply wp_after; [done|]. rewrite E. pose proof (close_db_main target m (log_of (disk s) target) (disk s2) Hwal) as Emain. split.
      * rewrite close_db_other by (done || apply snapshot_not_target). done.
      * right. auto.
      * right. apply Hc2. intros p Hp Hp1 Hp2. rewrite close_db_other by done. by apply H1.
      * intros _. split_and!; [done| |done|].
        -- rewrite <- El. by apply close_db_log.
        -- apply Hc2. intros p Hp Hp1 Hp2. rewrite close_db_other by done. by apply H1.
    + intros s3 e [[E _]|(main & Hmain & E)].
      * red. rewrite E. split; [done|right; by auto|right; apply Hc2; auto|done].
      * rewrite H3 in Hmain. injection Hmain as <-. rewrite El in E. red. rewrite E.
        pose proof (close_db_main target m (log_of (disk s) target) (disk s2) Hwal) as Emain. split; [|right; by auto| |done].
        -- rewrite close_db_other by (done || apply snapshot_not_target). done.
        -- right. apply Hc2. intros p Hp Hp1 Hp2. rewrite close_db_other by done. by apply H1.
  - intros s2 e (H1 & H2 & _). split.
    + rewrite H1; auto using snapshot_not_target.
    + destruct H2 as [->| ->]; rewrite ?Et, ?Es, ?Hm; auto.
    + right. auto.
    + done.
Qed.

(** The snapshot's database and what a connection to it and its log leaves. *)
Definition merged (d : file_system) (main : string) : string := (settle main (log_of d snapshot)).1.
(** The whole restore: it ends before the snapshot is opened, or goes on from
    the disk [d] on which it was opened and closed. *)
Definition restored_by (s s' : world) (r : result Z) : Prop :=
  (disk s' = disk s ∧ r ≠ Ok 0%Z) ∨
  ∃ main d, disk s !! snapshot = Some (FileSystem.File main) ∧
    d = close_db settle snapshot main (log_of (disk s) snapshot) (disk s) ∧
    restored d (disk s') (merged (disk s) main) (checked (disk s)) (r = Ok 0%Z).

(** Opening the snapshot changes nothing of the target. *)
Lemma opened main d : let d' := close_db settle snapshot main (log_of d snapshot) d in
  d' !! snapshot = Some (FileSystem.File (merged d main)) ∧ d' !! target = d !! target ∧ log_of d' target = log_of d target ∧
  ∀ d2, copied d' d2 → copied d d2.
Proof.
  assert (wal_of snapshot ≠ snapshot) as Hwal by (apply wal_ne; by destruct (r_backup_dir a)).
  destruct target_not_snapshot as [T1 T2]. destruct (suffix_not_snapshot "-wal") as [T3 T4]. intros d'.
  assert (d' !! target = d !! target) as Et by by apply close_db_other. split_and!; [by apply close_db_main|done| |].
  - unfold log_of at 1. unfold d'. rewrite close_db_other by done. done.
  - intros d2 Hc. unfold copied in *. by rewrite Et in Hc.
Qed.

Lemma wp_restore s : settled →
  wp (_restore float_repr sha256_hex hmac_sha256_hex load_text db_view settle now_utc_iso utc_timestamp_slug env_signing_key faults a) (restored_by s) s.
Proof.
  intros Hset.
  apply wp_bind, wp_look. cbn. apply wp_bind, wp_raise_if; cbn; intros _; [|by left].
  eapply wp_seq; [apply wp_load| |intros s1 e [H1 _]; by left]. cbn. intros s1 manifest [H1 Hman].
  specialize (Hman _ eq_refl).
  eapply wp_seq; [apply wp_load| |intros s2 e [H2 _]; left; by rewrite H2, H1]. cbn. intros s2 meta [H2 _].
  eapply wp_seq; [apply wp_verification| |intros s3 e [H3 _]; left; by rewrite H3, H2, H1]. cbn. intros s3 details [H3 Hver].
  rewrite H2, H1 in *. destruct details as [details|]; [|apply wp_ret; by left].
  assert (checked (disk s)) as Hc.
  { destruct Hman as (text & Ht & Hl). destruct (Hver _ eq_refl) as [?|(result & Hr & Hv)]; [by left|]. right. by exists text, manifest, result. }
  assert (wal_of snapshot ≠ snapshot) as Hwal by (apply wal_ne; by destruct (r_backup_dir a)).
  eapply wp_seq; [apply wp_validate| |]; cbn; intros s4.
  2: { intros e [[H4 _]|(main & Hmain & H4)]; [left; by rewrite H4, H3|]. rewrite H3 in *. right.
       exists main, (disk s4). split_and!; [done..|]. by apply restored_start. }
  intros v [[_ Hno]|(main & Hmain & H4)]; [by destruct (Hno v)|]. rewrite H3 in *.
  assert (disk s4 !! snapshot = Some (FileSystem.File (merged (disk s) main))) as Hm by (rewrite H4; by apply close_db_main).
  eapply (wp_mono _ (after (merged (disk s) main) (checked (disk s)) s4)); [|intros s' r Hr; right; by exists main, (disk s4)].
  clear H1 H2 H3 H4 Hman Hver s1 s2 s3.
  eapply wp_seq; [apply (wp_keeps watched), keeps_mkdir, above_parent| |intros s5 e H5; by apply after_untouched]. cbn. intros s5 _ H5.
  eapply wp_seq; [apply wp_diagnostics_output| |intros s6 e [-> _]; by apply after_untouched]. cbn. intros s6 output [-> Hout].
  eapply wp_seq; [apply wp_rollback_copy| |]; cbn.
  - intros s6 copy [H6 Hcopy]. apply wp_installed; [done| | |done|done|].
    + intros p Hp Hr. by rewrite H6, H5.
    + red. rewrite <- H5 by by right; right; left. by eapply Hcopy.
    + intros w. apply keeps_seq; [apply diagnostics_keeps; eauto|intros _]. apply keeps_seq; [apply quiet_keeps, quiet_now|intros at_].
      apply keeps_seq; [apply quiet_keeps, quiet_now|intros slug]. apply keeps_seq; [apply report_keeps|intros _; apply quiet_keeps, quiet_ret].
  - intros s6 e [H6 _]. destruct (watched_kept snapshot) as [Ws Rs]; [by repeat constructor|]. destruct (watched_kept target) as [Wt Rt]; [by repeat constructor|].
    split; [by rewrite H6, H5|left; by rewrite H6, H5..|done].
Qed.
End restore.

(** ** Backing up *)

Section backup.
Context (b : backup_args) (name : string).
Definition temp_dir : path := b_output_root b ++ [name +:+ ".tmp"].
Definition backup_dir : path := b_output_root b ++ [name].
Abbreviation source := (b_db_path b).

(** Neither the database nor its log is where the backup is built or put, or
    above it. *)
Record apart : Prop := {
  ap_temp : below temp_dir source = false ∧ below temp_dir (wal_of source) = false;
  ap_backup : below backup_dir source = false ∧ below backup_dir (wal_of source) = false;
  ap_above : below source (b_output_root b) = false ∧ below (wal_of source) (b_output_root b) = false
}.
Hypothesis Hap : apart.
Hypothesis Hset : settled.
(** What a backup writes is seen as the original was. *)
Hypothesis Hview : ∀ main wal c, db_backup main wal = Ok c → db_view c None = db_view main wal.
(** The scripts write in their output directory. *)
Hypothesis Hscript : ∀ script db out limit d p, below out p = false → (run_script script db out limit d).1 !! p = d !! p.

(** What no step but the last changes: what is not in the directory the
    backup is built in, or above it. *)
Definition outside (p : path) : Prop :=
  below temp_dir p = false ∧ below p (b_output_root b) = false ∧ p ≠ source ∧ p ≠ wal_of source.
(** The snapshot being built and its log. *)
Definition building (p : path) : Prop := p = snapshot_of temp_dir ∨ p = wal_of (snapshot_of temp_dir).

Lemma building_in p : building p → ∃ x, p = temp_dir ++ ["state"; x].
Proof. intros [->| ->]; [|rewrite wal_of_snapshot]; by eexists. Qed.
Lemma not_above_temp p q : below temp_dir p = false → below p (b_output_root b) = false → below p (temp_dir ++ q) = false.
Proof.
  intros H1 H2. apply not_true_iff_false. intros [r H]%below_spec. destruct (decide (length p ≤ length temp_dir)) as [Hl|Hl].
  - assert (below p temp_dir = true) as H'.
    { apply below_spec. exists (drop (length p) temp_dir). rewrite <- (take_drop (length p) temp_dir) at 1. f_equal.
      apply (f_equal (take (length p))) in H. by rewrite take_app_le, take_app_length in H by done. }
    apply below_snoc in H' as [->|H']; [|congruence]. by rewrite below_refl in H1.
  - assert (below temp_dir p = true); [|congruence]. apply below_spec. exists (drop (length temp_dir) p).
    apply (f_equal (take (length temp_dir))) in H. rewrite take_app_length, take_app_le in H by lia. rewrite H at 1. by rewrite take_drop.
Qed.
Lemma outside_not_above p q : outside p → below p (temp_dir ++ q) = false.
Proof. intros (H1 & H2 & _). by apply not_above_temp. Qed.
Lemma outside_not_below p q : outside p → below (temp_dir ++ q) p = false.
Proof. intros (H1 & _). apply not_true_iff_false. intros H. by rewrite (below_trans _ _ _ (below_app _ _) H) in H1. Qed.

(** [c] is a database that shows what the source shows. *)
Definition taken (d : file_system) (c : string) : Prop :=
  ∃ main, d !! b_db_path b = Some (FileSystem.File main) ∧ db_view c None = db_view main (log_of d (b_db_path b)).
(** The backup is there: the snapshot shows what the source showed, and the
    manifest holds of the directory. *)
Definition complete (d d' : file_system) : Prop :=
  (∃ c, taken d c ∧ d' !! snapshot_of backup_dir = Some (FileSystem.File c) ∧ d' !! wal_of (snapshot_of backup_dir) = None) ∧
  ∃ manifest result, d' !! (backup_dir ++ [BACKUP_MANIFEST_FILENAME]) = Some (FileSystem.File (json_indented float_repr 0 (PDict manifest))) ∧
    let key := signing_key_of env_signing_key (b_signing_key b) in
    verify_bundle_manifest float_repr sha256_hex hmac_sha256_hex (bundle_at d' backup_dir) manifest key
      (negb (is_None (AuditBundle.given key))) None = Ok result ∧ verified result = true.

Lemma building_apart p : building p → p ≠ source ∧ p ≠ wal_of source.
Proof.
  intros [x ->]%building_in. destruct (ap_temp Hap) as [H1 H2]. split; intros E; rewrite <- E, below_app in *; congruence.
Qed.
Lemma outside_apart p q : outside p → p ≠ temp_dir ++ q.
Proof. intros (H & _) ->. by rewrite below_app in H. Qed.
Lemma snapshot_not_wal : wal_of (snapshot_of temp_dir) ≠ snapshot_of temp_dir.
Proof. apply wal_ne. unfold snapshot_of. by destruct temp_dir. Qed.

Lemma put_file_Ok q c d d' : put_file q c d = (d', Ok tt) → d' !! q = Some (FileSystem.File c).
Proof.
  unfold put_file. destruct (d !! q) as [[]|], (d !! parent q) as [[]|]; intros [= <-]; by rewrite lookup_insert_eq.
Qed.

Lemma wp_snapshot_db s : wp (snapshot_db settle db_backup faults source (snapshot_of temp_dir)) (λ s' r,
  (∀ p, outside p ∨ p = wal_of (snapshot_of temp_dir) → disk s' !! p = disk s !! p) ∧
  (r = Ok tt → ∃ c, taken (disk s) c ∧ disk s' !! snapshot_of temp_dir = Some (FileSystem.File c))) s.
Proof.
  assert (∀ p, outside p ∨ p = wal_of (snapshot_of temp_dir) → p ≠ snapshot_of temp_dir ∧ p ≠ source ∧ p ≠ wal_of source) as Hp.
  { intros p [Hp| ->]; [|split; [apply snapshot_not_wal|apply building_apart; by right]]. split; [by apply outside_apart|]. apply Hp. }
  apply wp_operate; cbn.
  - intros x. split; [|done]. intros p [H _]%Hp. destruct (fault_text x); [by apply put_file_keeps|done].
  - intros d r. unfold content. destruct (disk s !! source) as [[main| |]|] eqn:E; try by intros [= <- <-].
    destruct (db_backup _ _) as [c|] eqn:Ec; [|by intros [= <- <-]]. intros Hput. split.
    + intros p (H1 & H2 & H3)%Hp. pose proof (put_file_keeps (snapshot_of temp_dir) c (close_db settle source main (log_of (disk s) source) (disk s)) p H1) as H.
      rewrite Hput in H. cbn in H. rewrite H. by apply close_db_other.
    + intros ->. exists c. split; [exists main; split; [done|by apply Hview]|by eapply put_file_Ok].
Qed.

(** While the backup is built: the snapshot is taken. *)
Definition stage (s s1 : world) : Prop :=
  (∀ p, outside p → disk s1 !! p = disk s !! p) ∧ disk s1 !! wal_of (snapshot_of temp_dir) = None ∧
  ∃ c, taken (disk s) c ∧ disk s1 !! snapshot_of temp_dir = Some (FileSystem.File c).
Definition built (s s' : world) (r : result unit) : Prop :=
  (∀ p, outside p → r ≠ Ok tt ∨ below backup_dir p = false → disk s' !! p = disk s !! p) ∧ (r = Ok tt → complete (disk s) (disk s')).
Definition kept (p : path) : Prop := outside p ∨ building p.

Lemma stage_built s s1 e : stage s s1 → built s s1 (Raise e).
Proof. intros (H & _). split; [auto|done]. Qed.
Lemma wp_stage {A} (m : W A) s s1 : keeps kept m → stage s s1 → wp m (λ s2 _, stage s s2) s1.
Proof.
  intros Hm (H1 & H2 & c & Hc & H3). eapply wp_mono; [apply (wp_keeps _ _ _ Hm)|]. cbn. intros s2 _ H. split_and!.
  - intros p Hp. rewrite H by by left. auto.
  - rewrite H; [done|]. right. by right.
  - exists c. split; [done|]. rewrite H; [done|]. right. by left.
Qed.
Lemma wp_stage_seq {A} (m : W A) (f : A → W unit) s s1 : (wp m (λ s2 _, stage s s2) s1) → (∀ s2 a, stage s s2 → wp (f a) (built s) s2) → wp (m ≫= f) (built s) s1.
Proof. intros Hm Hf. eapply wp_seq; [exact Hm|cbn; eauto|]. cbn. intros s2 e H. by apply stage_built. Qed.
Lemma wp_stage_quiet {A} (m : W A) s s1 : wp m (λ s2 _, disk s2 = disk s1) s1 → stage s s1 → wp m (λ s2 _, stage s s2) s1.
Proof. intros Hm H. eapply wp_mono; [exact Hm|]. cbn. intros s2 _ E. red. by rewrite E. Qed.
Lemma no_log d q : d !! wal_of q = None → log_of d q = None.
Proof. unfold log_of. by intros ->. Qed.
Lemma wp_with_db {A} q (f : database → result A) s : disk s !! wal_of q = None → wp (with_db db_view settle faults q f) (λ s' _, disk s' = disk s) s.
Proof. intros Hw%no_log. unfold wp. destruct (with_db _ _ _ _ _ s) as [s2 r] eqn:E. cbn. eapply with_db_settled; eauto. Qed.

Lemma keeps_mkdir_in x c : (∀ p, building p → below p (temp_dir ++ x) = false) → keeps kept (mkdir faults c (temp_dir ++ x)).
Proof. intros H. apply keeps_mkdir. intros p [Hp|Hp]; [by apply outside_not_above|by apply H]. Qed.
Lemma building_not_in p x y : building p → "state" ≠ x → p ≠ temp_dir ++ (x :: y).
Proof. intros [z ->]%building_in Hx [= E _]%app_inv_head. done. Qed.
Lemma keeps_write_json x payload : "state" ≠ x → keeps kept (_write_json float_repr faults (temp_dir ++ [x]) payload).
Proof.
  intros Hx. apply keeps_seq; [|intros _; apply keeps_write_file].
  - unfold parent. rewrite removelast_last. rewrite <- (app_nil_r temp_dir). apply keeps_mkdir_in. intros p [y ->]%building_in. by rewrite below_app_l.
  - intros p [Hp|Hp]; [by apply outside_apart|by apply building_not_in].
Qed.
Lemma keeps_run_script script db x limit : "state" ≠ x.1 → keeps kept (_run_script run_script faults script db (temp_dir ++ [x.1; x.2]) limit).
Proof.
  intros Hx. assert (∀ p, kept p → below (temp_dir ++ [x.1; x.2]) p = false) as Hb.
  { intros p [Hp|[z ->]%building_in]; [by apply outside_not_below|]. rewrite below_app_l. unfold below. cbn. apply bool_decide_eq_false. congruence. }
  apply keeps_operate; [|intros; by apply Hscript, Hb]. intros d p Hp. specialize (Hscript script db (temp_dir ++ [x.1; x.2]) limit d p (Hb p Hp)).
  destruct (run_script _ _ _ _ d) as [d' [|]]; exact Hscript.
Qed.

Lemma lookup_replaced d x : (graft backup_dir (subtree d temp_dir) (without backup_dir (without temp_dir d))) !! (backup_dir ++ x) = d !! (temp_dir ++ x).
Proof. rewrite lookup_graft_below, lookup_subtree, lookup_without, below_app. by destruct (d !! _). Qed.

(** What is verified where it is built is what is put in place. *)
Lemma wp_put_in_place s s1 manifest result : stage s s1 →
  disk s1 !! (temp_dir ++ [BACKUP_MANIFEST_FILENAME]) = Some (FileSystem.File (json_indented float_repr 0 (PDict manifest))) →
  (let key := signing_key_of env_signing_key (b_signing_key b) in
   verify_bundle_manifest float_repr sha256_hex hmac_sha256_hex (bundle_at (disk s1) temp_dir) manifest key
     (negb (is_None (AuditBundle.given key))) None = Ok result) → verified result = true →
  wp (replace_directory faults temp_dir backup_dir) (built s) s1.
Proof.
  intros Hst Hman Hver Hv. pose proof Hst as (H1 & H2 & c & Hc & H3). apply wp_operate; [intros x; by apply stage_built|].
  intros d r. assert (∀ e, built s {| disk := disk s1; calls := S (calls s1) |} (Raise e)) as Hno by (intros e; split; [auto|done]).
  destruct (disk s1 !! temp_dir) as [[]|], (disk s1 !! backup_dir); try (intros [= <- <-]; apply Hno). intros [= <- <-]. split; cbn.
  - intros p Hp [?|Hb]; [done|]. pose proof Hp as (Ht & _). rewrite lookup_graft, !lookup_without, Hb, Ht by done. auto.
  - intros _. split; [exists c; split; [done|]; rewrite wal_of_snapshot; unfold snapshot_of; rewrite !lookup_replaced, <- wal_of_snapshot; done|].
    exists manifest, result. rewrite lookup_replaced. split; [done|]. split; [|done].
    rewrite <- Hver. f_equal. extensionality f. unfold bundle_at. by rewrite lookup_replaced.
Qed.

Lemma wp_write_json q payload s : wp (_write_json float_repr faults q payload)
  (λ s' r, r = Ok tt → disk s' !! q = Some (FileSystem.File (json_indented float_repr 0 payload))) s.
Proof.
  apply wp_bind. eapply (wp_mono _ (λ _ _, True)); [done|]. intros s1 [[]|e] _; [|done]. cbn. eapply wp_mono; [apply wp_write_file|]. cbn. by intros s2 r [_ H].
Qed.

(** Before the snapshot is taken. *)
Definition early (p : path) : Prop := outside p ∨ p = wal_of (snapshot_of temp_dir) ∨ p = source ∨ p = wal_of source.
Lemma keeps_early_mkdir c x : below ["state"; DEFAULT_STATE_DB_FILENAME +:+ "-wal"] x = false → keeps early (mkdir faults c (temp_dir ++ x)).
Proof.
  intros Hx. destruct (ap_temp Hap), (ap_above Hap). apply keeps_mkdir. intros p [Hp|[->|[->| ->]]]; [by apply outside_not_above| |by apply not_above_temp..].
  by rewrite wal_of_snapshot, below_app_l.
Qed.
Lemma wp_early {A} (m : W A) (f : A → W unit) s s1 : keeps early m → (∀ p, early p → disk s1 !! p = disk s !! p) →
  (∀ s2 x, (∀ p, early p → disk s2 !! p = disk s !! p) → wp (f x) (built s) s2) → wp (m ≫= f) (built s) s1.
Proof.
  intros Hm H1 Hf. eapply wp_seq; [apply (wp_keeps early), Hm| |]; cbn.
  - intros s2 x H2. apply Hf. intros p Hp. by rewrite H2, H1.
  - intros s2 e H2. split; [|done]. intros p Hp _. rewrite H2, H1; [done|by left..].
Qed.

Lemma wp_build s : (∀ r, r ≠ [] → disk s !! (temp_dir ++ r) = None) →
  wp (build_backup float_repr sha256_hex hmac_sha256_hex db_view settle db_backup recent_run_ids run_script now_utc_iso platform python_version
        env_signing_key faults b name temp_dir backup_dir) (built s) s.
Proof.
  intros Hfree. unfold build_backup. cbv zeta. 
  apply (wp_early _ _ s); [by apply keeps_early_mkdir|done|intros s1 _ H1].
  apply (wp_early _ _ s); [by apply keeps_early_mkdir|done|clear s1 H1; intros s1 _ H1].
  apply (wp_early _ _ s); [by apply keeps_early_mkdir|done|clear s1 H1; intros s1 _ H1].
  eapply wp_seq; [apply wp_snapshot_db| |]; cbn.
  2: { intros s2 e [H2 _]. split; [|done]. intros p Hp _. rewrite H2 by by left. rewrite H1; [done|by left]. }
  intros s2 [] [H2 Hc]. assert (stage s s2) as Hs2.
  { split_and!.
    - intros p Hp. rewrite H2 by by left. rewrite H1; [done|by left].
    - rewrite H2 by by right. rewrite H1 by by right; left. rewrite wal_of_snapshot. by apply Hfree.
    - destruct (Hc eq_refl) as (c & (main & Hm & Hv) & Hs). exists c. split; [|done]. exists main. unfold log_of in *. by rewrite !H1 in * by (unfold early; auto). }
  clear s1 H1 H2 Hc Hfree.
  apply (wp_stage_seq _ _ s); [apply wp_stage_quiet, Hs2; apply wp_validate_settled; [done|apply no_log, Hs2]|]. clear s2 Hs2. intros s2 validation Hs2.
  apply (wp_stage_seq _ _ s); [apply wp_stage_quiet, Hs2; apply wp_with_db; apply Hs2|]. clear s2 Hs2. intros s2 counts Hs2.
  apply (wp_stage_seq _ _ s); [apply wp_stage_quiet, Hs2; apply wp_with_db; apply Hs2|]. clear s2 Hs2. intros s2 run_ids Hs2.
  apply (wp_stage_seq _ _ s); [apply wp_stage, Hs2; by apply (keeps_run_script _ _ ("diagnostics", "telemetry"))|]. clear s2 Hs2. intros s2 _ Hs2.
  apply (wp_stage_seq _ _ s); [apply wp_stage, Hs2; by apply (keeps_run_script _ _ ("diagnostics", "audit_bundle"))|]. clear s2 Hs2. intros s2 _ Hs2.
  apply (wp_stage_seq _ _ s); [apply wp_stage, Hs2; apply quiet_keeps, quiet_now|]. clear s2 Hs2. intros s2 generated Hs2.
  apply (wp_stage_seq _ _ s); [apply wp_stage, Hs2; by apply keeps_write_json|]. clear s2 Hs2. intros s2 _ Hs2.
  apply (wp_stage_seq _ _ s); [apply wp_stage, Hs2; apply quiet_keeps, quiet_inspect|]. clear s2 Hs2. intros s2 hashes Hs2.
  eapply wp_seq; [apply wp_and; [apply (wp_stage _ s), Hs2; by apply keeps_write_json|apply wp_write_json]| |]; cbv beta.
  2: { intros s3 e [Hs3 _]. by apply stage_built. }
  intros s3 [] [Hs3 Hman]. specialize (Hman eq_refl). apply wp_bind, wp_operate; [intros x; by apply stage_built|]. intros d r [= <- <-].
  destruct (verify_bundle_manifest _ _ _ _ _ _ _ _) as [result|e] eqn:Ever; cbn; [|by apply stage_built].
  apply wp_bind, wp_raise_if; cbn; intros Hv; [|by apply stage_built]. eapply wp_put_in_place; [done|exact Hman|exact Ever|by destruct (verified result)].
Qed.

(** *** The whole command *)

(** What is the same until the backup is put in place. *)
Definition still (s s1 : world) : Prop := ∀ p, outside p ∨ p = source ∨ p = wal_of source → below backup_dir p = false ∨ b_overwrite b = false →
  disk s1 !! p = disk s !! p.
Definition ended (s s' : world) (r : result Z) : Prop :=
  (∀ p, outside p → below backup_dir p = false ∨ (b_overwrite b = false ∧ r ≠ Ok 0%Z) ∨ b_dry_run b = true → disk s' !! p = disk s !! p) ∧
  (r = Ok 0%Z → b_dry_run b = false → complete (disk s) (disk s')).
Definition replaced_by_now (p : path) : Prop := (outside p ∨ p = source ∨ p = wal_of source) ∧ (below backup_dir p = false ∨ b_overwrite b = false).

Lemma still_raised s s1 e : b_dry_run b = false → still s s1 → ended s s1 (Raise e).
Proof. intros Hd H. split; [|done]. intros p Hp [?|[[? _]|?]]; [apply H; auto..|congruence]. Qed.
Lemma wp_still {A} (m : W A) (f : A → W Z) s s1 : b_dry_run b = false → keeps replaced_by_now m → still s s1 →
  (∀ s2 x, m s1 = (s2, Ok x) → still s s2 → wp (f x) (ended s) s2) → wp (m ≫= f) (ended s) s1.
Proof.
  intros Hd Hm H1 Hf. apply wp_bind. unfold wp at 1. destruct (m s1) as [s2 r] eqn:E. cbn.
  assert (still s s2) as H2. { intros p Hp Hb. rewrite (Hm _ _ _ E) by by split. by apply H1. }
  destruct r as [x|e]; [by apply Hf|]. by apply still_raised.
Qed.
Lemma complete_from d d1 d' : d1 !! source = d !! source → d1 !! wal_of source = d !! wal_of source → complete d1 d' → complete d d'.
Proof.
  intros E1 E2 [(c & (main & Hm & Hv) & Hc) H]. split; [|done]. exists c. split; [|done]. exists main. unfold log_of in *. rewrite E1 in Hm. by rewrite E2 in Hv.
Qed.

Lemma temp_not_in_backup p : below backup_dir (temp_dir ++ p) = false.
Proof.
  unfold backup_dir, temp_dir. rewrite <- app_assoc, below_app_l. unfold below. cbn. apply bool_decide_eq_false. intros [= E].
  apply (f_equal String.length) in E. rewrite str_length_app in E. cbn in E. lia.
Qed.
Lemma replaced_mkdir_root c : keeps replaced_by_now (mkdir faults c (b_output_root b)).
Proof. apply keeps_mkdir. intros p [[(_ & H & _)|[->| ->]] _]; [done|apply (ap_above Hap)..]. Qed.
Lemma replaced_mkdir_temp c : keeps replaced_by_now (mkdir faults c temp_dir).
Proof.
  rewrite <- (app_nil_r temp_dir). destruct (ap_temp Hap), (ap_above Hap). apply keeps_mkdir. intros p [[Ho|[->| ->]] _]; [by apply outside_not_above|by apply not_above_temp..].
Qed.
Lemma replaced_rmtree_temp : keeps replaced_by_now (rmtree faults temp_dir).
Proof. apply keeps_rmtree. intros p [[(H & _)|[->| ->]] _]; [done|apply (ap_temp Hap)..]. Qed.
Lemma replaced_rmtree_backup : b_overwrite b = true → keeps replaced_by_now (rmtree faults backup_dir).
Proof. intros Ho. apply keeps_rmtree. intros p [_ [?|?]]; [done|congruence]. Qed.

(** What stands in the directory the backup is built in, until it is cleared. *)
Definition inside (p : path) : Prop := ∃ r, p = temp_dir ++ r.
Lemma above_temp r : below (temp_dir ++ r) (b_output_root b) = false.
Proof. apply not_below. intros x H. apply (f_equal length) in H. unfold temp_dir in H. rewrite !length_app in H. cbn in H. lia. Qed.
Lemma inside_mkdir_root c : keeps inside (mkdir faults c (b_output_root b)).
Proof. apply keeps_mkdir. intros p [r ->]. apply above_temp. Qed.
Lemma inside_rmtree_backup : keeps inside (rmtree faults backup_dir).
Proof. apply keeps_rmtree. intros p [r ->]. apply temp_not_in_backup. Qed.
(** What the body ensures but for the directory itself, cleared or not. *)
Lemma wp_removing (body : W unit) s : wp body (built s) s → wp (removing_on_error faults temp_dir body) (built s) s.
Proof.
  unfold wp, removing_on_error. destruct (body s) as [s1 [x|e]] eqn:E; [done|]. cbn. intros [H1 _].
  assert (keeps outside (there ← exists_ temp_dir; if there : bool then rmtree faults temp_dir else mret tt)) as Hk.
  { apply keeps_seq; [apply quiet_keeps, quiet_look|]. intros []; [apply keeps_rmtree; by intros p (? & _)|apply quiet_keeps, quiet_ret]. }
  revert Hk. set (m := exists_ temp_dir ≫= _). intros Hk. destruct (m s1) as [s2 [x|e']] eqn:E2; cbn; (split; [|done]); intros p Hp _; rewrite (Hk _ _ _ E2 p Hp); auto.
Qed.

Lemma wp_backup s : name = backup_name b (utc_timestamp_slug (calls s)) → (disk s !! temp_dir = None → ∀ r, disk s !! (temp_dir ++ r) = None) →
  wp (_backup float_repr sha256_hex hmac_sha256_hex db_view settle db_backup recent_run_ids run_script now_utc_iso utc_timestamp_slug platform
        python_version env_signing_key faults b) (ended s) s.
Proof.
  intros Hname Hfree. unfold _backup. eapply wp_seq; [apply ensure_same| |intros s1 e ->; by split]. cbn. intros ? [] ->.
  apply wp_bind, wp_clock. cbn. rewrite <- Hname. fold backup_dir temp_dir. destruct (b_dry_run b) eqn:Hd.
  { assert (∀ A q (f : database → result A), q = source → keeps outside (with_db db_view settle faults q f)) as Hdb.
    { intros A q f ->. apply keeps_with_db. by intros p (_ & _ & ? & ?). }
    eapply wp_mono; [apply (wp_keeps outside)|cbn; intros s2 r H; split; [auto|congruence]].
    apply keeps_seq; [|intros _; apply keeps_seq; [by apply Hdb|intros _; apply quiet_keeps, quiet_ret]].
    apply keeps_seq; [apply quiet_keeps, quiet_ensure|intros _; by apply Hdb]. }
  apply (wp_still _ _ s); [done|apply replaced_mkdir_root|by intros p ??|]. intros s1 u1 E1 H1. pose proof (inside_mkdir_root _ _ _ _ E1) as I1. clear E1.
  apply wp_bind, wp_look. cbn. apply wp_bind, wp_raise_if; cbn; intros Hover; [|by apply still_raised].
  apply (wp_still _ _ s); [done| |done|].
  { destruct (disk s1 !! backup_dir); cbn in *; [|apply quiet_keeps, quiet_ret]. apply replaced_rmtree_backup. by destruct (b_overwrite b). }
  intros s2 u2 E2 H2. assert (∀ p, inside p → disk s2 !! p = disk s !! p) as I2.
  { intros p Hp. rewrite <- I1 by done. destruct (disk s1 !! backup_dir); cbn in E2; [by apply (inside_rmtree_backup _ _ _ E2)|by injection E2 as <-]. }
  clear E2. apply wp_bind, wp_look. cbn. apply (wp_still _ _ s); [done| |done|].
  { destruct (disk s2 !! temp_dir); cbn; [apply replaced_rmtree_temp|apply quiet_keeps, quiet_ret]. }
  intros s3 u3 E3 H3. assert (∀ r, disk s3 !! (temp_dir ++ r) = None) as I3.
  { intros r. rewrite I2 in E3 by (exists []; by rewrite app_nil_r). destruct (disk s !! temp_dir) eqn:Et; cbn in E3.
    - pose proof (wp_rmtree temp_dir s2) as W. unfold wp in W. rewrite E3 in W. destruct u3, W as [_ W]. by apply W.
    - injection E3 as <-. rewrite I2 by by eexists. by apply Hfree. }
  clear E3. apply (wp_still _ _ s); [done|apply replaced_mkdir_temp|done|]. intros s4 u4 E4 H4.
  assert (∀ r, r ≠ [] → disk s4 !! (temp_dir ++ r) = None) as I4.
  { intros r Hr. rewrite <- (I3 r). eapply (keeps_mkdir (λ p, ∃ r, r ≠ [] ∧ p = temp_dir ++ r)); [|exact E4|eauto]. intros p (r' & Hr' & ->).
    rewrite <- (app_nil_r temp_dir) at 2. rewrite below_app_l. by destruct r'. }
  eapply wp_seq; [by apply wp_removing, wp_build| |]; cbn.
  - intros s5 [] [H5 Hc]. apply wp_ret. split.
    + intros p Hp [Hb|[[_ ?]|?]]; [|done|congruence]. rewrite H5 by by auto. apply H4; by auto.
    + intros _ _. eapply complete_from; [| |by apply Hc]; apply H4; auto; left; apply (ap_backup Hap).
  - intros s5 e [H5 _]. split; [|done]. intros p Hp Hb. rewrite H5 by (done || by left). apply H4; [by left|]. destruct Hb as [?|[[? _]|?]]; auto. congruence.
Qed.
End backup.

(** ** What the two commands promise *)

Abbreviation backup := (_backup float_repr sha256_hex hmac_sha256_hex db_view settle db_backup recent_run_ids run_script now_utc_iso
  utc_timestamp_slug platform python_version env_signing_key faults).
Abbreviation restore := (_restore float_repr sha256_hex hmac_sha256_hex load_text db_view settle now_utc_iso utc_timestamp_slug
  env_signing_key faults).
(** What [Connection.backup] and the scripts are relied on for. *)
Definition backup_law : Prop := ∀ main wal c, db_backup main wal = Ok c → db_view c None = db_view main wal.
Definition scripts_law : Prop := ∀ script db out limit d p, below out p = false → (run_script script db out limit d).1 !! p = d !! p.

(** Whichever operations of the disk fail, a backup changes nothing outside
    its own directory, the one it is built in, the directories above them and
    the database's log; an existing or missing backup is only touched when it
    is complete or may be overwritten.  When the backup reports success, the
    snapshot in it shows what the source showed, its log included, and the
    manifest in it holds of the directory. *)
Theorem backup_safe b s s' r :
  let name := backup_name b (utc_timestamp_slug (calls s)) in
  apart b name → settled → backup_law → scripts_law → (disk s !! temp_dir b name = None → ∀ q, disk s !! (temp_dir b name ++ q) = None) →
  backup b s = (s', r) →
  (∀ p, below (temp_dir b name) p = false → below p (b_output_root b) = false → p ≠ b_db_path b → p ≠ wal_of (b_db_path b) →
     below (backup_dir b name) p = false ∨ (b_overwrite b = false ∧ r ≠ Ok 0%Z) ∨ b_dry_run b = true → disk s' !! p = disk s !! p) ∧
  (r = Ok 0%Z → b_dry_run b = false → complete b name (disk s) (disk s')).
Proof.
  intros name Hap Hset Hview Hscript Hfree Hrun. pose proof (wp_backup b name Hap Hset Hview Hscript s eq_refl Hfree) as W.
  unfold wp in W. rewrite Hrun in W. destruct W as [W1 W2]. split; [|done]. intros p H1 H2 H3 H4. by apply W1.
Qed.

(** C22: Whichever operations of the disk fail, and whatever logs lie beside
    the snapshot and the target, a restore leaves the snapshot as it was or as a
    connection that merges its log leaves it ([merged]: the snapshot itself when
    it has no log); it leaves the target either as it was, or equal to that
    merged snapshot, or to what a connection makes of it and the log beside the
    target, and only if the manifest was verified or nobody asked; an old target
    is where it was or, when force allowed that, its main file is in the copy
    beside it.  When the restore reports success, the target is the merged
    snapshot with the target's log taken in, and so exactly the snapshot when no
    log lies beside either.  (The backup directory does not hold the target, and
    the diagnostics directory and the report stand at, above or below none of
    these files: [separate]; a connection leaves a database without a log as it
    is.) *)
Theorem restore_safe a s s' r :
  separate a → settled → restore a s = (s', r) →
  let snapshot := snapshot_of (r_backup_dir a) in
  let target := r_db_path a in
  let with_its_log main := (settle main (log_of (disk s) target)).1 in
  (disk s' !! snapshot = disk s !! snapshot ∨
   ∃ main, disk s !! snapshot = Some (FileSystem.File main) ∧ disk s' !! snapshot = Some (FileSystem.File (merged a (disk s) main))) ∧
  (disk s' !! target = disk s !! target ∨ checked a (disk s) ∧ ∃ main, disk s !! snapshot = Some (FileSystem.File main) ∧
     (disk s' !! target = Some (FileSystem.File (merged a (disk s) main)) ∨
      disk s' !! target = Some (FileSystem.File (with_its_log (merged a (disk s) main))))) ∧
  (disk s' !! target = disk s !! target ∨ copied a (disk s) (disk s')) ∧
  (r = Ok 0%Z → checked a (disk s) ∧ copied a (disk s) (disk s') ∧
     (∃ main, disk s !! snapshot = Some (FileSystem.File main) ∧
        disk s' !! target = Some (FileSystem.File (with_its_log (merged a (disk s) main)))) ∧
     (log_of (disk s) snapshot = None → log_of (disk s) target = None → disk s' !! target = disk s !! snapshot)).
Proof.
  intros Hsep Hset Hrun. cbn zeta. pose proof (wp_restore a Hsep s Hset) as W. unfold wp in W. rewrite Hrun in W. cbn [fst snd] in W.
  destruct W as [[E Hr]|(main & d & Hmain & Ed & [R1 R2 R3 R4])]; [by rewrite E; split_and!; auto|].
  destruct (opened a Hsep main (disk s)) as (O1 & O2 & O3 & O4). rewrite <- Ed in O1, O2, O3, O4. rewrite O1 in R1. rewrite O2 in R2, R3. rewrite O3 in R2, R4. split_and!.
  - right. exists main. by rewrite R1.
  - destruct R2 as [R2|[R2 Hc]]; [by left|right]. split; [done|]. by exists main.
  - destruct R3 as [R3|R3]; [by left|right]. by apply O4.
  - intros Hok. destruct (R4 Hok) as (T1 & _ & T2 & T3). split_and!; [done|by apply O4|by exists main|].
    intros Hl1 Hl2. rewrite T1, Hl2, Hset, Hmain. cbn. unfold merged. by rewrite Hl1, Hset.
Qed.

(** Closing a database does not change what a connection to it sees. *)
Definition settle_law : Prop := ∀ main wal, db_view (settle main wal).1 (settle main wal).2 = db_view main wal.

(** C21: A database that was backed up and restored from that backup shows what
    the source showed when the backup was made, including what was still in its
    log, if no log lies beside the target when it is restored.  If one does, the
    restored database shows what the backup's snapshot, which shows what the
    source showed, shows together with that log.  (The database is not in the
    backup's directories or above them: [apart]; the backup does not hold the
    target, and the diagnostics directory and the report are elsewhere:
    [separate]; nothing stands below a name that is not there.  Of SQLite:
    closing a database changes nothing of what is seen, and neither file when
    there is no log; a backup is seen as its source was.  The export scripts
    write in their output directories.) *)
Theorem backup_restores b a s s1 s2 :
  let name := backup_name b (utc_timestamp_slug (calls s)) in
  apart b name → settled → settle_law → backup_law → scripts_law →
  (disk s !! temp_dir b name = None → ∀ q, disk s !! (temp_dir b name ++ q) = None) →
  b_dry_run b = false → backup b s = (s1, Ok 0%Z) →
  r_backup_dir a = backup_dir b name → separate a → restore a s1 = (s2, Ok 0%Z) →
  ∃ old saved new, disk s !! b_db_path b = Some (FileSystem.File old) ∧
    disk s1 !! snapshot_of (r_backup_dir a) = Some (FileSystem.File saved) ∧ disk s2 !! r_db_path a = Some (FileSystem.File new) ∧
    let source_view := db_view old (log_of (disk s) (b_db_path b)) in
    let restored_view := db_view new (log_of (disk s2) (r_db_path a)) in
    db_view saved None = source_view ∧ restored_view = db_view saved (log_of (disk s1) (r_db_path a)) ∧
    (log_of (disk s1) (r_db_path a) = None → restored_view = source_view).
Proof.
  intros name Hap Hset Hsettle Hview Hscript Hfree Hdry Hb Hdir Hsep Hr.
  pose proof (wp_backup b name Hap Hset Hview Hscript s eq_refl Hfree) as W. unfold wp in W. rewrite Hb in W.
  destruct W as [_ [(c & (old & Hold & Hc) & Hsnap & Hw1) _]]; [done..|]. cbn [fst] in *.
  rewrite <- Hdir in *. pose proof (wp_restore a Hsep s1 Hset) as W. unfold wp in W. rewrite Hr in W. cbn [fst snd] in W.
  destruct W as [[_ Hno]|(main & d & Hmain & Ed & [_ _ _ R4])]; [done|]. destruct (opened a Hsep main (disk s1)) as (_ & _ & O3 & _).
  rewrite <- Ed in O3. rewrite O3 in R4. destruct (R4 eq_refl) as (T1 & T2 & _). rewrite Hsnap in Hmain. injection Hmain as <-.
  assert (merged a (disk s1) c = c) as Hm by (unfold merged; rewrite (no_log _ _ Hw1); by rewrite Hset). rewrite Hm in T1, T2.
  eexists old, c, _. rewrite T2, Hsettle. split_and!; [done..| |]; [done|]. intros ->. done.
Qed.
End state_backup.

(** ** A run *)

Definition sample_table (n : nat) : table := {| columns := ["run_id"]; rows := replicate n ∅ |}.
(** A database of as many runs as its text is long; the log has all of them. *)
Definition sample_view (main : string) (wal : option string) : result database :=
  Ok {| tables := list_to_map ((λ name, (name, sample_table (String.length (default main wal)))) <$> REQUIRED_TABLES); indexes := ∅ |}.
Definition sample_settle (main : string) (wal : option string) : string * option string := (default main wal, None).
Definition sample_db_backup (main : string) (wal : option string) : result string := Ok (default main wal).
Definition sample_script (name : string) (db out : path) (limit : Z) (d : file_system) : file_system * result unit := put_file (out ++ ["pack.json"]) "{}" d.
Definition sample_digest (s : string) : string := "digest of " +:+ pretty (String.length s).
Definition sample_keyed (key s : string) : string := key +:+ " " +:+ sample_digest s.
Definition sample_clock (n : nat) : string := "20260101T000000Z".
Definition no_faults (n : nat) : option fault := None.

Definition sample_disk : file_system := list_to_map
  [([], Directory); (["srv"], Directory); (["srv"; "agent_state.db"], FileSystem.File "old"); (["srv"; "agent_state.db-wal"], FileSystem.File "live!")].
Definition sample_world : world := {| disk := sample_disk; calls := 0 |}.
Definition sample_backup_args : backup_args :=
  {| b_db_path := ["srv"; "agent_state.db"]; b_output_root := ["srv"; "backups"]; b_name := Some "b1"; b_overwrite := false; b_run_id_limit := 5000;
     b_telemetry_limit_runs := 500; b_audit_limit_runs := 500; b_signing_key := Some "key"; b_signer_key_id := None; b_dry_run := false |}.
Definition sample_restore_args : restore_args :=
  {| r_backup_dir := ["srv"; "backups"; "b1"]; r_db_path := ["srv"; "new.db"]; r_force := false; r_skip_verify := false; r_require_signature := true;
     r_signing_key := Some "key"; r_diagnostics_output_dir := ["srv"; "diagnostics"]; r_skip_diagnostics_restore := false; r_report_path := None |}.

Definition sample_backup (faults : nat → option fault) : world → world * result Z :=
  _backup sample_float_repr sample_digest sample_keyed sample_view sample_settle sample_db_backup (λ _ _, ["run_1"]) sample_script
    sample_clock sample_clock "Linux" "3.11" None faults sample_backup_args.
(** What it leaves, written out, and the manifest in it. *)
Definition sample_saved_files : list (path * node) := Eval vm_compute in map_to_list (disk (sample_backup no_faults sample_world).1).
Definition sample_saved : world := {| disk := list_to_map sample_saved_files; calls := 18 |}.
Definition sample_saved_manifest : list (string * pyval) := Eval vm_compute in
  build_manifest sample_float_repr sample_digest sample_keyed (sample_clock 0) (path_str ["srv"; "agent_state.db"]) ["run_1"]
    (_relative_file_hashes sample_digest ["srv"; "backups"; "b1"] [BACKUP_MANIFEST_FILENAME] (disk sample_saved)) None (Some "key").
Definition sample_manifest_text : string := Eval vm_compute in json_indented sample_float_repr 0 (PDict sample_saved_manifest).
(** The reading of a JSON text, where it is that one. *)
Definition sample_load (c : string) : result pyval := Ok (PDict (if decide (c = sample_manifest_text) then sample_saved_manifest else [])).
Definition sample_restore (faults : nat → option fault) (a : restore_args) : world → world * result Z :=
  _restore sample_float_repr sample_digest sample_keyed sample_load sample_view sample_settle sample_clock sample_clock None faults a.

Example sample_restore_done : (sample_restore no_faults sample_restore_args sample_saved).2 = Ok 0%Z ∧
  disk (sample_restore no_faults sample_restore_args sample_saved).1 !! ["srv"; "new.db"] = Some (FileSystem.File "live!").
Proof. split; vm_compute; reflexivity. Qed.

Lemma sample_settled : settled sample_settle.
Proof. done. Qed.
Lemma sample_settle_law : settle_law sample_view sample_settle.
Proof. done. Qed.
Lemma sample_backup_law : backup_law sample_view sample_db_backup.
Proof. by intros main wal c [= <-]. Qed.
Lemma sample_scripts_law : scripts_law sample_script.
Proof. intros script db out limit d p Hp. apply put_file_keeps. intros ->. by rewrite below_app in Hp. Qed.
Lemma sample_apart : apart sample_backup_args "b1".
Proof. split; split; reflexivity. Qed.
Lemma sample_backup_run : sample_backup no_faults sample_world = (sample_saved, Ok 0%Z).
Proof. vm_cast_no_check (eq_refl (sample_saved, Ok 0%Z : result Z)). Qed.
Lemma sample_free d : d !! ["srv"; "backups"; "b1.tmp"] = None → sample_disk = d → ∀ q, d !! (["srv"; "backups"; "b1.tmp"] ++ q) = None.
Proof.
  intros _ <- q. apply not_elem_of_list_to_map. rewrite !fmap_cons, fmap_nil. cbn. rewrite !not_elem_of_cons. repeat split; try done. apply not_elem_of_nil.
Qed.
Lemma sample_separate : separate sample_clock sample_restore_args.
Proof. split; [done|done| |done]. intros p Hp. unfold watched in Hp. destruct Hp as [->|[->|[->|[->|[n ->]]]]]; split; reflexivity. Qed.

Lemma backup_safe_witness : complete sample_float_repr sample_digest sample_keyed sample_view None sample_backup_args "b1" sample_disk (disk sample_saved).
Proof.
  refine (proj2 (backup_safe sample_float_repr sample_digest sample_keyed sample_view sample_settle sample_db_backup (λ _ _, ["run_1"]) sample_script
    sample_clock sample_clock "Linux" "3.11" None no_faults sample_backup_args sample_world sample_saved (Ok 0%Z)
    sample_apart sample_settled sample_backup_law sample_scripts_law _ sample_backup_run) _ _); [|reflexivity..].
  intros H. by apply sample_free.
Defined.

Lemma backup_restores_witness :
  let restored := disk (sample_restore no_faults sample_restore_args sample_saved).1 in
  ∃ old saved new, sample_disk !! ["srv"; "agent_state.db"] = Some (FileSystem.File old) ∧
  disk sample_saved !! snapshot_of ["srv"; "backups"; "b1"] = Some (FileSystem.File saved) ∧
  restored !! ["srv"; "new.db"] = Some (FileSystem.File new) ∧
  let source_view := sample_view old (log_of sample_disk ["srv"; "agent_state.db"]) in
  let restored_view := sample_view new (log_of restored ["srv"; "new.db"]) in
  sample_view saved None = source_view ∧ restored_view = sample_view saved (log_of (disk sample_saved) ["srv"; "new.db"]) ∧
  (log_of (disk sample_saved) ["srv"; "new.db"] = None → restored_view = source_view).
Proof.
  refine (backup_restores sample_float_repr sample_digest sample_keyed sample_load sample_view sample_settle sample_db_backup (λ _ _, ["run_1"]) sample_script
    sample_clock sample_clock "Linux" "3.11" None no_faults sample_backup_args sample_restore_args sample_world sample_saved
    (sample_restore no_faults sample_restore_args sample_saved).1
    sample_apart sample_settled sample_settle_law sample_backup_law sample_scripts_law _ _ sample_backup_run _ sample_separate _).
  - intros H. by apply sample_free.
  - reflexivity.
  - reflexivity.
  - rewrite <- (proj1 sample_restore_done). apply surjective_pairing.
Defined.

(** Forced onto a database that is there, while the disk fails once the new
    one is in place: the old database is in the copy. *)
Definition sample_forced (dir diagnostics : path) : restore_args :=
  {| r_backup_dir := dir; r_db_path := ["srv"; "other.db"]; r_force := true; r_skip_verify := false; r_require_signature := true;
     r_signing_key := Some "key"; r_diagnostics_output_dir := diagnostics; r_skip_diagnostics_restore := false; r_report_path := None |}.
Definition sample_args : restore_args := sample_forced ["srv"; "backups"; "b1"] ["srv"; "diagnostics"].
Definition with_file (p : path) (c : string) (s : world) : world := {| disk := <[p := FileSystem.File c]> (disk s); calls := calls s |}.
Definition sample_occupied : world := with_file ["srv"; "other.db"] "other" sample_saved.
Definition disk_full : fault := {| fault_exn := Exn (OtherError "OSError") "No space left on device"; fault_text := None; fault_done := λ _, false |}.
Definition failing_at (k n : nat) : option fault := if decide (n = k) then Some disk_full else None.
Lemma sample_args_separate : separate sample_clock sample_args.
Proof. split; [done|done| |done]. intros p Hp. unfold watched in Hp. destruct Hp as [->|[->|[->|[->|[n ->]]]]]; split; reflexivity. Qed.

Example sample_unlucky : let '(s, r) := sample_restore (failing_at 28) sample_args sample_occupied in
  (disk s !! ["srv"; "other.db"], disk s !! rollback sample_clock sample_args 0, r) =
  (Some (FileSystem.File "live!"), Some (FileSystem.File "other"), Raise (fault_exn disk_full)).
Proof. vm_compute. reflexivity. Qed.

Lemma restore_safe_witness : let s := (sample_restore (failing_at 28) sample_args sample_occupied).1 in
  disk s !! ["srv"; "other.db"] = Some (FileSystem.File "other") ∨ copied sample_clock sample_args (disk sample_occupied) (disk s).
Proof.
  intros s. refine (proj1 (proj2 (proj2 (restore_safe sample_float_repr sample_digest sample_keyed sample_load sample_view sample_settle sample_clock sample_clock None
    (failing_at 28) sample_args sample_occupied s (sample_restore (failing_at 28) sample_args sample_occupied).2
    sample_args_separate sample_settled (surjective_pairing _))))).
Defined.

(** *** What the commands do not promise *)

(** A log put beside the snapshot of a signed backup is no part of its
    manifest: the restore accepts the backup and takes the log's word. *)
Definition planted : world := with_file ["srv"; "backups"; "b1"; "state"; "agent_state.db-wal"] "planted" sample_saved.
Example planted_log_restored : let '(s, r) := sample_restore no_faults sample_restore_args planted in
  (disk s !! ["srv"; "new.db"], r) = (Some (FileSystem.File "planted"), Ok 0%Z).
Proof. vm_compute. reflexivity. Qed.

(** The log of the database that is replaced stays, and the new database is
    opened with it; the copy of the old one is without it. *)
Example stale_log_replayed : let '(s, r) := sample_restore no_faults sample_args (with_file ["srv"; "other.db-wal"] "stale" sample_occupied) in
  (disk s !! ["srv"; "other.db"], disk s !! rollback sample_clock sample_args 0, r) =
  (Some (FileSystem.File "stale"), Some (FileSystem.File "other"), Ok 0%Z).
Proof. vm_compute. reflexivity. Qed.

(** Diagnostics restored to where the backups are kept replace the backup they
    are read from. *)
Example backup_deleted_by_restore : let '(s, r) := sample_restore no_faults (sample_forced ["srv"; "backups"; "b1"] ["srv"; "backups"]) sample_occupied in
  (disk s !! ["srv"; "backups"; "b1"], disk s !! ["srv"; "backups"; "b1"; "state"; "agent_state.db"], match r with Ok _ => true | Raise _ => false end) =
  (None, None, false).
Proof. vm_compute. reflexivity. Qed.

(** A backup that may overwrite deletes the old one before the new one is
    there. *)
Example overwritten_backup_lost :
  let '(s, r) := _backup sample_float_repr sample_digest sample_keyed sample_view sample_settle sample_db_backup (λ _ _, ["run_1"]) sample_script
    sample_clock sample_clock "Linux" "3.11" None (failing_at 25)
    {| b_db_path := ["srv"; "agent_state.db"]; b_output_root := ["srv"; "backups"]; b_name := Some "b1"; b_overwrite := true; b_run_id_limit := 5000;
       b_telemetry_limit_runs := 500; b_audit_limit_runs := 500; b_signing_key := Some "key"; b_signer_key_id := None; b_dry_run := false |} sample_saved in
  (disk s !! ["srv"; "backups"; "b1"], r) = (None, Raise (fault_exn disk_full)).
Proof. vm_compute. reflexivity. Qed.
