(* ===== verification/Executor.v ===== *)
(** One run of the macro executor, [AsyncLocalExecutor.execute_macro] of
    [eap/environment/executor.py]: the coroutine [run_step] of every step as a
    program counter per suspension point and one function per stretch of code
    between two of them, over the state the coroutines share.

    The scheduler may switch at every [await] that can suspend.  Where the
    code would go on without suspending (a future already done, a free
    semaphore) the model also allows other steps to run in between, and a
    semaphore may wake any waiter: every schedule of the event loop is one of
    the model's.  Locks that are never held across an [await]
    ([checkpoint_lock], [metric_lock]) do not suspend.  Rounding of reported
    durations is left out. *)
From stdpp Require Import options.
From S2P Require Import Prelude Values Json SafeEval ToolRegistry PointerStore StateManager TokenBucket Models.
Unset Default Proof Using.

(** ** Shared state *)

(** An entry of [step_status]. *)
Record status_entry := { se_status : option string; se_pointer_id : option string }.

(** What the coroutines coordinate on. *)
Record flow_state := {
  step_futures : gmap string (option string);    (* [None] inside: not done *)
  step_status : gmap string status_entry;
  step_contexts : gmap string pyval;
  branch_decisions : gmap string (gset string);
  early_exit : bool;
  replayed_step_ids : gset string
}.

(** [saturation_metrics] *)
Record saturation := {
  global_concurrency_wait_count : Z; global_concurrency_wait_seconds : Q;
  per_tool_concurrency_wait_count : Z; per_tool_concurrency_wait_seconds : Q;
  global_rate_wait_count : Z; global_rate_wait_seconds : Q;
  per_tool_rate_wait_count : Z; per_tool_rate_wait_seconds : Q;
  max_inflight_global : Z;
  max_inflight_per_tool : gmap string Z;
  total_rate_limited_attempts : Z
}.

(** Semaphores, rate buckets and in-flight counters. *)
Record slot_state := {
  global_permits : Z;
  tool_permits : gmap string Z;
  global_rate_bucket : option bucket;
  per_tool_buckets : gmap string bucket;
  inflight_global : Z;
  inflight_per_tool : gmap string Z;
  saturation_metrics : saturation
}.

Record run_state (S : Type) := {
  sm : state_manager S;
  clock : Q;              (* seconds; [perf_counter] and the UTC clock *)
  next_id : nat;          (* identifiers drawn so far *)
  flow : flow_state;
  slots : slot_state
}.
Arguments sm {_} _.
Arguments clock {_} _.
Arguments next_id {_} _.
Arguments flow {_} _.
Arguments slots {_} _.

Definition set_flow {S} (f : flow_state) (s : run_state S) : run_state S :=
  {| sm := sm s; clock := clock s; next_id := next_id s; flow := f; slots := slots s |}.
Definition set_slots {S} (x : slot_state) (s : run_state S) : run_state S :=
  {| sm := sm s; clock := clock s; next_id := next_id s; flow := flow s; slots := x |}.

(** [if not future.done(): future.set_result(pointer_id)] *)
Definition set_future (sid pid : string) (f : flow_state) : flow_state :=
  {| step_futures := match step_futures f !! sid with
                     | Some None => <[sid := Some pid]> (step_futures f)
                     | _ => step_futures f
                     end;
     step_status := step_status f; step_contexts := step_contexts f;
     branch_decisions := branch_decisions f; early_exit := early_exit f;
     replayed_step_ids := replayed_step_ids f |}.
Definition set_status (sid : string) (e : status_entry) (c : pyval) (f : flow_state) : flow_state :=
  {| step_futures := step_futures f; step_status := <[sid := e]> (step_status f);
     step_contexts := <[sid := c]> (step_contexts f);
     branch_decisions := branch_decisions f; early_exit := early_exit f;
     replayed_step_ids := replayed_step_ids f |}.
Definition set_branch (sid : string) (targets : gset string) (exit_now : bool) (f : flow_state)
  : flow_state :=
  {| step_futures := step_futures f; step_status := step_status f; step_contexts := step_contexts f;
     branch_decisions := <[sid := targets]> (branch_decisions f);
     early_exit := early_exit f || exit_now; replayed_step_ids := replayed_step_ids f |}.
Definition add_replayed (sid : string) (f : flow_state) : flow_state :=
  {| step_futures := step_futures f; step_status := step_status f; step_contexts := step_contexts f;
     branch_decisions := branch_decisions f; early_exit := early_exit f;
     replayed_step_ids := {[sid]} ∪ replayed_step_ids f |}.

(** ** Argument resolution

    [_resolve_argument_value] as the tree of what it asks for: a step's
    output, or a pointer's content, and how it goes on with the answer. *)
Inductive resolution (A : Type) :=
  | Resolved (a : A)
  | Failing (e : exn)
  | NeedStep (ref_value argument_key : string) (k : pyval → resolution A)
  | NeedPointer (pointer_id argument_key : string) (k : pyval → resolution A).
Arguments Resolved {_} _.
Arguments Failing {_} _.
Arguments NeedStep {_} _ _ _.
Arguments NeedPointer {_} _ _ _.

Fixpoint rbind {A B} (f : A → resolution B) (r : resolution A) : resolution B :=
  match r with
  | Resolved a => f a
  | Failing e => Failing e
  | NeedStep ref key k => NeedStep ref key (λ v, rbind f (k v))
  | NeedPointer p key k => NeedPointer p key (λ v, rbind f (k v))
  end.
#[global] Instance resolution_ret : MRet resolution := @Resolved.
#[global] Instance resolution_bind : MBind resolution := @rbind.

(** [[f(i, x) for i, x in enumerate(l)]], from index [i]. *)
Section resolve_list.
Context {A : Type} (f : nat → A → resolution A).
Fixpoint resolve_list (i : nat) (l : list A) : resolution (list A) :=
  match l with
  | [] => Resolved []
  | x :: l => y ← f i x; ys ← resolve_list (Datatypes.S i) l; Resolved (y :: ys)
  end.
End resolve_list.

Definition py_starts (s p : string) : bool := py_startswith s p.

Fixpoint _resolve_argument_value (max_depth : Z) (depth : nat) (value : pyval) (key : string)
  {struct value} : resolution pyval :=
  if (max_depth <? Z.of_nat depth)%Z then
    Failing (Exn InputValidationError
      ("Macro reference resolution exceeded max_reference_resolution_depth=" +:+ pretty max_depth +:+ "."))
  else
  match value with
  | PStr s =>
      if py_starts s "$" then NeedStep s key Resolved
      else if py_starts s "ptr_" then NeedPointer s key Resolved
      else Resolved value
  | PDict d =>
      d' ← resolve_list (λ _ kv,
             v ← _resolve_argument_value max_depth (Datatypes.S depth) kv.2 (key +:+ "." +:+ kv.1);
             Resolved (kv.1, v)) 0 d;
      Resolved (PDict d')
  | PList l =>
      l' ← resolve_list (λ i v,
             _resolve_argument_value max_depth (Datatypes.S depth) v
               (key +:+ "[" +:+ pretty i +:+ "]")) 0 l;
      Resolved (PList l')
  | _ => Resolved value
  end.

(** The loop over [step.arguments]. *)
Definition resolve_arguments (max_depth : Z) (arguments : list (string * pyval))
  : resolution (list (string * pyval)) :=
  resolve_list (λ _ kv, v ← _resolve_argument_value max_depth 0 kv.2 kv.1; Resolved (kv.1, v))
    0 arguments.

(** [ref_payload.partition(".")] after the prefix: step and path. *)
Definition parse_reference (ref_value : string) : string * string :=
  let ref_payload :=
    match strip_prefix "$step:" ref_value with
    | Some p => p
    | None => String.substring 1 (String.length ref_value) ref_value
    end in
  let '(sid, path) := py_partition "."%char ref_payload in
  (sid, default "" path).

(** ** Branch conditions *)

(** Word characters of [re] on code points below 256. *)
Definition is_word_char (c : ascii) : bool :=
  let n := code c in
  ((48 <=? n) && (n <=? 57)) || ((65 <=? n) && (n <=? 90)) || ((97 <=? n) && (n <=? 122)) ||
  (n =? 95) || ((192 <=? n) && negb (n =? 215) && negb (n =? 247)) ||
  existsb (Nat.eqb n) [170; 178; 179; 181; 185; 186; 188; 189; 190].

(** [re.sub(r"\bword\b", replacement, text, flags=re.IGNORECASE)] for a word of
    letters: a match is a maximal run of word characters. *)
Definition flush_word (word replacement run : string) : string :=
  if decide (py_lower run = word) then replacement else run.

Fixpoint replace_word_from (word replacement run text : string) : string :=
  match text with
  | EmptyString => flush_word word replacement run
  | String c text =>
      if is_word_char c then replace_word_from word replacement (run +:+ String c "") text
      else flush_word word replacement run +:+ String c (replace_word_from word replacement "" text)
  end.

Definition replace_word (word replacement text : string) : string :=
  replace_word_from word replacement "" text.

(** ** Program counters *)

(** The locals of the retry loop. *)
Record call_ctx := {
  attempt_count : Z;
  delay : Q;
  resolved_args : list (string * pyval);
  input_pointers : list (string * string);
  tool_limit_key : option string
}.

(** Where a step's coroutine is suspended; [started] is its
    [step_started_perf]. *)
Inductive pc :=
  | NotStarted
  | AwaitControllers (started : Q)
  | AwaitReference (started : Q) (inputs : list (string * string)) (ref_value argument_key : string)
      (k : pyval → resolution (list (string * pyval)))
  | AwaitGlobalSlot (started : Q) (c : call_ctx) (wait_started : Q)
  | AwaitToolSlot (started : Q) (c : call_ctx) (wait_started : Q)
  | AwaitGlobalRate (started : Q) (c : call_ctx) (waited wake : Q)
  | AwaitToolRate (started : Q) (c : call_ctx) (limited : bool) (waited wake : Q)
  | InTool (started : Q) (c : call_ctx)
  | RetrySleep (started : Q) (c : call_ctx) (wake : Q)
  | Finished (payload : list (string * pyval))
  | Crashed (e : exn).

(** ** What the executor is given *)

(** The third-party and runtime functions a run uses: the shortest text of a
    float, [sys.getsizeof], object identity and the parser of branch
    expressions, the compiled JSON-schema validators, the fresh identifiers of
    pointers, and pydantic's [model_dump] and [model_validate] of a macro (an
    approval decision among the payload's entries is read as its dump). *)
Class Runtime (func : Type) := {
  rt_float_repr : Q → string;
  rt_getsizeof : pyval → Z;
  rt_same_object : value → value → bool;
  rt_parse : string → option node;
  rt_jsonschema_validate : pyval → pyval → verdict;
  rt_pointer_name : nat → string;
  rt_registry : ToolRegistry.registry (func := func);
  rt_dump_macro : BatchedMacroRequest → pyval;
  rt_dump_decision : StepApprovalDecision → pyval;
  rt_load_macro : pyval → result BatchedMacroRequest
}.

(** What [execute_macro] fixes before the first step starts. *)
Record run_env := {
  macro : BatchedMacroRequest;
  env_run_id : string;
  limits : ExecutionLimits;
  run_actor_metadata : list (string * pyval);
  run_started_at : Z;
  resumed : bool
}.

(** The keyword arguments of [_append_trace_event]. *)
Record event_args := {
  ea_attempt : Z;
  ea_resolved : option (list (string * pyval));
  ea_inputs : option (list (string * string));
  ea_output : option string;
  ea_duration : option Q;
  ea_retry_delay : option Q;
  ea_error : option ToolErrorPayload
}.

Definition no_args : event_args :=
  {| ea_attempt := 1; ea_resolved := None; ea_inputs := None; ea_output := None;
     ea_duration := None; ea_retry_delay := None; ea_error := None |}.

Abbreviation payload := (list (string * pyval)).

(** [input_pointer_ids or None] *)
Definition non_empty {A} (l : list A) : option (list A) := if is_nil l then None else Some l.

(** [error_payload.model_dump()] *)
Definition dump_error (p : ToolErrorPayload) : pyval :=
  PDict [("error_type", PStr (error_type p)); ("message", PStr (message p));
         ("step_id", PStr (err_step_id p)); ("tool_name", PStr (err_tool_name p));
         ("details", default PNone (details p))].

Definition opt_pstr (o : option string) : pyval := opt_value PStr o.

(** The statuses a resumed run replays. *)
Definition terminal_status (st : option string) : bool :=
  bool_decide (st ∈ [Some "ok"; Some "error"; Some "skipped"; Some "rejected"]).

Definition entry_value (e : status_entry) : pyval :=
  PDict [("status", opt_pstr (se_status e)); ("pointer_id", opt_pstr (se_pointer_id e))].

Definition as_str (o : option pyval) : option string :=
  match o with Some (PStr s) => Some s | _ => None end.

(** [_pointer_id] *)
Definition _pointer_id (p : payload) : result string :=
  match dict_get p "pointer_id" with
  | Some (PStr s) => Ok s
  | _ => Raise (py_type_error "Pointer payload is missing a string pointer_id.")
  end.

(** [_record_wait] *)
Definition record_wait (waited : Q) (f : saturation → saturation) (s : saturation) : saturation :=
  if Qle_bool waited 0 then s else f s.

Definition set_saturation (x : saturation) (s : slot_state) : slot_state :=
  {| global_permits := global_permits s; tool_permits := tool_permits s;
     global_rate_bucket := global_rate_bucket s; per_tool_buckets := per_tool_buckets s;
     inflight_global := inflight_global s; inflight_per_tool := inflight_per_tool s;
     saturation_metrics := x |}.
Definition set_permits (g : Z) (t : gmap string Z) (s : slot_state) : slot_state :=
  {| global_permits := g; tool_permits := t;
     global_rate_bucket := global_rate_bucket s; per_tool_buckets := per_tool_buckets s;
     inflight_global := inflight_global s; inflight_per_tool := inflight_per_tool s;
     saturation_metrics := saturation_metrics s |}.
Definition set_buckets (g : option bucket) (t : gmap string bucket) (s : slot_state) : slot_state :=
  {| global_permits := global_permits s; tool_permits := tool_permits s;
     global_rate_bucket := g; per_tool_buckets := t;
     inflight_global := inflight_global s; inflight_per_tool := inflight_per_tool s;
     saturation_metrics := saturation_metrics s |}.
Definition set_inflight (g : Z) (t : gmap string Z) (x : saturation) (s : slot_state) : slot_state :=
  {| global_permits := global_permits s; tool_permits := tool_permits s;
     global_rate_bucket := global_rate_bucket s; per_tool_buckets := per_tool_buckets s;
     inflight_global := g; inflight_per_tool := t; saturation_metrics := x |}.

(** The four counters [_record_wait] is called on. *)
Definition add_global_concurrency (w : Q) : saturation → saturation := record_wait w (λ x,
  {| global_concurrency_wait_count := global_concurrency_wait_count x + 1;
     global_concurrency_wait_seconds := global_concurrency_wait_seconds x + w;
     per_tool_concurrency_wait_count := per_tool_concurrency_wait_count x;
     per_tool_concurrency_wait_seconds := per_tool_concurrency_wait_seconds x;
     global_rate_wait_count := global_rate_wait_count x;
     global_rate_wait_seconds := global_rate_wait_seconds x;
     per_tool_rate_wait_count := per_tool_rate_wait_count x;
     per_tool_rate_wait_seconds := per_tool_rate_wait_seconds x;
     max_inflight_global := max_inflight_global x;
     max_inflight_per_tool := max_inflight_per_tool x;
     total_rate_limited_attempts := total_rate_limited_attempts x |}).
Definition add_tool_concurrency (w : Q) : saturation → saturation := record_wait w (λ x,
  {| global_concurrency_wait_count := global_concurrency_wait_count x;
     global_concurrency_wait_seconds := global_concurrency_wait_seconds x;
     per_tool_concurrency_wait_count := per_tool_concurrency_wait_count x + 1;
     per_tool_concurrency_wait_seconds := per_tool_concurrency_wait_seconds x + w;
     global_rate_wait_count := global_rate_wait_count x;
     global_rate_wait_seconds := global_rate_wait_seconds x;
     per_tool_rate_wait_count := per_tool_rate_wait_count x;
     per_tool_rate_wait_seconds := per_tool_rate_wait_seconds x;
     max_inflight_global := max_inflight_global x;
     max_inflight_per_tool := max_inflight_per_tool x;
     total_rate_limited_attempts := total_rate_limited_attempts x |}).
Definition add_global_rate (w : Q) : saturation → saturation := record_wait w (λ x,
  {| global_concurrency_wait_count := global_concurrency_wait_count x;
     global_concurrency_wait_seconds := global_concurrency_wait_seconds x;
     per_tool_concurrency_wait_count := per_tool_concurrency_wait_count x;
     per_tool_concurrency_wait_seconds := per_tool_concurrency_wait_seconds x;
     global_rate_wait_count := global_rate_wait_count x + 1;
     global_rate_wait_seconds := global_rate_wait_seconds x + w;
     per_tool_rate_wait_count := per_tool_rate_wait_count x;
     per_tool_rate_wait_seconds := per_tool_rate_wait_seconds x;
     max_inflight_global := max_inflight_global x;
     max_inflight_per_tool := max_inflight_per_tool x;
     total_rate_limited_attempts := total_rate_limited_attempts x |}).
Definition add_tool_rate (w : Q) : saturation → saturation := record_wait w (λ x,
  {| global_concurrency_wait_count := global_concurrency_wait_count x;
     global_concurrency_wait_seconds := global_concurrency_wait_seconds x;
     per_tool_concurrency_wait_count := per_tool_concurrency_wait_count x;
     per_tool_concurrency_wait_seconds := per_tool_concurrency_wait_seconds x;
     global_rate_wait_count := global_rate_wait_count x;
     global_rate_wait_seconds := global_rate_wait_seconds x;
     per_tool_rate_wait_count := per_tool_rate_wait_count x + 1;
     per_tool_rate_wait_seconds := per_tool_rate_wait_seconds x + w;
     max_inflight_global := max_inflight_global x;
     max_inflight_per_tool := max_inflight_per_tool x;
     total_rate_limited_attempts := total_rate_limited_attempts x |}).
Definition with_peaks (g : Z) (t : gmap string Z) (limited : Z) (x : saturation) : saturation :=
  {| global_concurrency_wait_count := global_concurrency_wait_count x;
     global_concurrency_wait_seconds := global_concurrency_wait_seconds x;
     per_tool_concurrency_wait_count := per_tool_concurrency_wait_count x;
     per_tool_concurrency_wait_seconds := per_tool_concurrency_wait_seconds x;
     global_rate_wait_count := global_rate_wait_count x;
     global_rate_wait_seconds := global_rate_wait_seconds x;
     per_tool_rate_wait_count := per_tool_rate_wait_count x;
     per_tool_rate_wait_seconds := per_tool_rate_wait_seconds x;
     max_inflight_global := g;
     max_inflight_per_tool := t;
     total_rate_limited_attempts := limited |}.

(** [_on_slot_acquired] *)
Definition on_slot_acquired (tool_key : option string) (s : slot_state) : slot_state :=
  let x := saturation_metrics s in
  let g := (inflight_global s + 1)%Z in
  let gmax := if (max_inflight_global x <? g)%Z then g else max_inflight_global x in
  match tool_key with
  | None =>
      set_inflight g (inflight_per_tool s)
        (with_peaks gmax (max_inflight_per_tool x) (total_rate_limited_attempts x) x) s
  | Some k =>
      let n := (default 0 (inflight_per_tool s !! k) + 1)%Z in
      let tmax := if (default 0 (max_inflight_per_tool x !! k) <? n)%Z
                  then <[k := n]> (max_inflight_per_tool x) else max_inflight_per_tool x in
      set_inflight g (<[k := n]> (inflight_per_tool s))
        (with_peaks gmax tmax (total_rate_limited_attempts x) x) s
  end.

(** [_on_slot_released] *)
Definition on_slot_released (tool_key : option string) (s : slot_state) : slot_state :=
  let g := Z.max 0 (inflight_global s - 1) in
  let t := match tool_key with
           | None => inflight_per_tool s
           | Some k =>
               let current := default 0%Z (inflight_per_tool s !! k) in
               if (current <=? 1)%Z then delete k (inflight_per_tool s)
               else <[k := (current - 1)%Z]> (inflight_per_tool s)%Z
           end in
  set_inflight g t (saturation_metrics s) s.

(** [tool_semaphore] of a limit key, when the key has one. *)
Definition tool_semaphore (key : option string) (s : slot_state) : option (string * Z) :=
  match key with
  | Some k => (λ n, (k, n)) <$> tool_permits s !! k
  | None => None
  end.

(** The [finally] of an attempt that held both slots. *)
Definition release_slots (key : option string) (s : slot_state) : slot_state :=
  let s := on_slot_released key s in
  let s := match tool_semaphore key s with
           | Some (k, n) => set_permits (global_permits s) (<[k := (n + 1)%Z]> (tool_permits s)) s
           | None => s
           end in
  set_permits (global_permits s + 1) (tool_permits s) s.

(** [int(x)] of a positive float, and the default burst. *)
Definition bucket_capacity (burst : option Z) (rate : Q) : Z :=
  int_or burst (Z.max 1 (Qfloor rate)).

Definition microseconds (q : Q) : Z := Qfloor (q * 1000000).

Section executor.
Context {S : Type} `{PointerStoreBackend S} {func : Type} `{Runtime func}.

Abbreviation E := (stm (run_state S)).

(** A call on [self.state_manager]. *)
Definition on_sm {A} (f : stm (state_manager S) A) : E A := λ s,
  let '(x, r) := f (sm s) in
  ({| sm := x; clock := clock s; next_id := next_id s; flow := flow s; slots := slots s |}, r).

Definition now : E Z := s ← st_get; mret (microseconds (clock s)).
Definition mod_flow (f : flow_state → flow_state) : E unit := st_modify (λ s, set_flow (f (flow s)) s).
Definition mod_slots (f : slot_state → slot_state) : E unit := st_modify (λ s, set_slots (f (slots s)) s).
Definition fresh_pointer : E string := λ s,
  ({| sm := sm s; clock := clock s; next_id := Datatypes.S (next_id s);
      flow := flow s; slots := slots s |}, Ok (rt_pointer_name (next_id s))).

(** [try: body / except Exception as exc: handler(exc)] *)
Definition st_catch {A} (body : E A) (handler : exn → E A) : E A := λ s,
  match body s with
  | (s', Raise e) => handler e s'
  | ok => ok
  end.

Section run.
Context (v : run_env).

(** [_pointer_metadata] *)
Definition _pointer_metadata (extra : payload) : payload :=
  dict_update
    [("execution_run_id", PStr (env_run_id v));
     ("actor_id", default PNone (dict_get (run_actor_metadata v) "actor_id"));
     ("owner_actor_id", default PNone (dict_get (run_actor_metadata v) "owner_actor_id"))]
    extra.

(** [_append_trace_event]: the model is built, and so validated, first. *)
Definition _append_trace_event (step : ToolCall) (t : ExecutionTraceEventType) (x : event_args)
  : E unit :=
  let field k := default PNone (dict_get (run_actor_metadata v) k) in
  let scopes := match field "actor_scopes" with PList [] => PNone | w => w end in
  at_utc ← now;
  event ← st_lift (
    actor ← optional_str (field "actor_id");
    actor_scopes ← optional_strs scopes;
    operation ← optional_str (field "operation");
    let e := {|
      run_id := env_run_id v; ev_step_id := step_id step; ev_tool_name := tool_name step;
      event_type := t; timestamp_utc := at_utc; attempt := ea_attempt x;
      resolved_arguments := ea_resolved x; input_pointer_ids := ea_inputs x;
      output_pointer_id := ea_output x; duration_ms := ea_duration x;
      retry_delay_seconds := ea_retry_delay x; error := ea_error x;
      actor_id := actor; actor_scopes := actor_scopes; operation := operation |} in
    validated (validate_event_fields e) (validate_event_contract e));
  on_sm (append_trace_event event).

(** [step_status] and [branch_decisions] as the checkpoint stores them; the
    order of a JSON object's keys is not modelled. *)
Definition status_value (f : flow_state) : pyval :=
  PDict ((λ kv, (kv.1, entry_value kv.2)) <$> map_to_list (step_status f)).
Definition decisions_value (f : flow_state) : pyval :=
  PDict ((λ kv, (kv.1, PList (PStr <$> sorted_set kv.2))) <$> map_to_list (branch_decisions f)).

(** [_persist_checkpoint] *)
Definition _persist_checkpoint (status : string) (final_pointer_id : option string) : E unit :=
  at_utc ← now;
  s ← st_get;
  on_sm (upsert_run_checkpoint at_utc (env_run_id v) (run_started_at v) status
    (rt_dump_macro (macro v)) (status_value (flow s)) (decisions_value (flow s))
    final_pointer_id (Some (PDict (run_actor_metadata v)))).

(** [self.state_manager.store_and_point] with a fresh identifier. *)
Definition store_output (raw : pyval) (summary : string) (extra : payload) : E (string * payload) :=
  at_utc ← now;
  name ← fresh_pointer;
  step_pointer ← on_sm (λ m,
    (store_and_point rt_float_repr rt_getsizeof at_utc name raw summary
       (_pointer_metadata extra) PNone m).2);
  step_pointer_id ← st_lift (_pointer_id step_pointer);
  mret (step_pointer_id, step_pointer).

(** The writes to [step_status] and [step_contexts] after it. *)
Definition record_status (sid status pid : string) (step_pointer : payload) (raw : pyval) : E unit :=
  mod_flow (set_status sid {| se_status := Some status; se_pointer_id := Some pid |}
    (PDict [("pointer_id", PStr pid);
            ("metadata", default PNone (dict_get step_pointer "metadata"));
            ("raw_data", raw); ("status", PStr status)])).

(** [_hydrate_pointer_response] *)
Definition _hydrate_pointer_response (pointer_id : option string) (sid : string) : E payload :=
  s ← st_get;
  let status := opt_pstr (step_status (flow s) !! sid ≫= se_status) in
  let pid := str_or pointer_id "" in
  if decide (pid = "") then
    mret [("pointer_id", PStr "");
          ("summary", PStr ("Step " +:+ sid +:+ " recovered from checkpoint."));
          ("metadata", PDict [("status", status)])]
  else
    at_utc ← now;
    rows ← on_sm (sm_list_pointers true at_utc None);
    mret match List.find (λ item, bool_decide (ls_pointer_id item = pid)) rows with
         | None => [("pointer_id", PStr pid);
                    ("summary", PStr ("Recovered pointer " +:+ pid +:+ " for step " +:+ sid +:+ "."));
                    ("metadata", PDict [("status", status)])]
         | Some item => [("pointer_id", PStr pid); ("summary", PStr (ls_summary item));
                         ("metadata", ls_metadata item)]
         end.

(** *** Branches *)

(** [branch_controllers[sid]] *)
Definition branch_controllers (sid : string) : gset string :=
  list_to_set (step_id <$> List.filter (λ s,
    match branching s with Some b => bool_decide (sid ∈ all_targets b) | None => false end)
    (steps (macro v))).

(** [replace_reference] *)
Definition replace_reference (f : flow_state) (x : segment) : string :=
  match x with
  | Lit c => String c ""
  | Ref ident path =>
      let value := default PNone (step_contexts f !! ident) in
      py_repr rt_float_repr
        match path with Some p => py_walk value (py_split "."%char p) | None => value end
  end.

(** [evaluate_branch_condition] *)
Definition evaluate_branch_condition (f : flow_state) (sid condition_expression : string)
  : result bool :=
  let replaced := String.concat "" (replace_reference f <$> segments condition_expression) in
  let replaced := replace_word "true" "True" replaced in
  let replaced := replace_word "false" "False" replaced in
  match evaluate_safe_expression rt_same_object rt_parse replaced with
  | Raise e =>
      if decide (exn_cls e = UnsafeExpressionError) then
        Raise (Exn InputValidationError
          ("Unsafe branch condition expression for step '" +:+ sid +:+ "': " +:+ exn_str e))
      else Raise e
  | r => r
  end.

(** [resolve_branch_targets] *)
Definition resolve_branch_targets (step : ToolCall) (ok : bool) : E unit :=
  match branching step with
  | None => mret tt
  | Some b =>
      s ← st_get;
      selected_targets ← st_lift (
        if ok then
          condition_is_true ← evaluate_branch_condition (flow s) (step_id step) (condition b);
          Ok (if condition_is_true : bool then true_target_step_ids b else false_target_step_ids b)
        else Ok (fallback_target_step_ids b));
      mod_flow (set_branch (step_id step) (list_to_set selected_targets)
        (allow_early_exit b && is_nil selected_targets))
  end.

(** [if step.branching: branch_decisions[step.step_id] = set()] *)
Definition clear_branch (step : ToolCall) : E unit :=
  match branching step with
  | None => mret tt
  | Some _ => mod_flow (set_branch (step_id step) ∅ false)
  end.

(** *** One step *)

Definition set_result (sid pid : string) : E unit := mod_flow (set_future sid pid).

(** The common end of the outcomes decided before a tool is called: store the
    payload, record the status, resolve the branch, resolve the future,
    checkpoint. *)
Definition settle (step : ToolCall) (status : string) (raw : pyval) (summary : string)
    (extra : payload) (branch : E unit) : E pc :=
  out ← store_output raw summary extra;
  record_status (step_id step) status out.1 out.2 raw;;
  branch;;
  set_result (step_id step) out.1;;
  _persist_checkpoint "active" None;;
  mret (Finished out.2).

(** [if not is_activated: ...] *)
Definition skip_branch_not_selected (step : ToolCall) : E pc :=
  let sid := step_id step in
  settle step "skipped"
    (PDict [("status", PStr "skipped"); ("reason", PStr "branch_not_selected"); ("step_id", PStr sid);
            ("controllers", PList (PStr <$> sorted_set (branch_controllers sid)))])
    ("Step " +:+ sid +:+ " skipped (branch not selected).")
    [("status", PStr "skipped"); ("reason", PStr "branch_not_selected")] (clear_branch step).

(** [if early_exit_event.is_set(): ...] *)
Definition skip_early_exit (step : ToolCall) : E pc :=
  let sid := step_id step in
  settle step "skipped"
    (PDict [("status", PStr "skipped"); ("reason", PStr "early_exit"); ("step_id", PStr sid)])
    ("Step " +:+ sid +:+ " skipped (early exit).")
    [("status", PStr "skipped"); ("reason", PStr "early_exit")] (clear_branch step).

Definition approval_prompt (step : ToolCall) : pyval := opt_pstr (approval step ≫= prompt).

(** [if approval_decision is None: ...] *)
Definition pause_step (step : ToolCall) : E pc :=
  let sid := step_id step in
  settle step "paused"
    (PDict [("status", PStr "paused"); ("reason", PStr "awaiting_approval"); ("step_id", PStr sid);
            ("approval_prompt", approval_prompt step)])
    ("Step " +:+ sid +:+ " paused awaiting approval.")
    [("status", PStr "paused"); ("reason", PStr "awaiting_approval");
     ("approval_prompt", approval_prompt step)] (clear_branch step).

(** [if approval_decision.decision == StepApprovalDecisionType.REJECT: ...] *)
Definition reject_step (step : ToolCall) (d : StepApprovalDecision) : E pc :=
  let error_payload :=
    {| error_type := "approval_rejected";
       message := str_or (reason d) "Rejected by reviewer.";
       err_step_id := step_id step; err_tool_name := tool_name step;
       details := Some (PDict [("approval_prompt", approval_prompt step)]) |} in
  _append_trace_event step REJECTED
    {| ea_attempt := 1; ea_resolved := None; ea_inputs := None; ea_output := None;
       ea_duration := None; ea_retry_delay := None; ea_error := Some error_payload |};;
  settle step "rejected" (dump_error error_payload)
    ("Step " +:+ step_id step +:+ " rejected at approval checkpoint.")
    [("status", PStr "rejected"); ("error_type", PStr "approval_rejected")]
    (resolve_branch_targets step false).

(** [_tool_limit_key], with [resolved_tool_names] unfolded: the schema's
    ["name"], and the reference itself when it does not resolve. *)
Definition resolved_tool_name (step : ToolCall) : pyval :=
  match (schema ← get_schema rt_registry (tool_name step); attr_get schema "name") with
  | Ok (Some n) => n
  | _ => PStr (tool_name step)
  end.
Definition _tool_limit_key (step : ToolCall) : option string :=
  let known k := bool_decide (k ∈ (per_tool (limits v)).*1) in
  match resolved_tool_name step with
  | PStr resolved_name =>
      if known resolved_name then Some resolved_name
      else if known (tool_name step) then Some (tool_name step) else None
  | _ => if known (tool_name step) then Some (tool_name step) else None
  end.

(** From the last resolved argument to the first [acquire]. *)
Definition prepare_call (step : ToolCall) (started : Q) (args : list (string * pyval))
    (inputs : list (string * string)) : E pc :=
  st_lift (validate_arguments rt_float_repr rt_jsonschema_validate rt_registry (tool_name step)
    (PDict args));;
  st_lift (get_tool rt_registry (tool_name step));;
  s ← st_get;
  mret (AwaitGlobalSlot started
    {| attempt_count := 1; delay := initial_delay_seconds (retry_policy (macro v));
       resolved_args := args; input_pointers := inputs;
       tool_limit_key := _tool_limit_key step |} (clock s)).

(** Argument resolution, up to the next [await] of a step's future. *)
Fixpoint advance (step : ToolCall) (started : Q) (inputs : list (string * string))
    (r : resolution (list (string * pyval))) : E pc :=
  match r with
  | Resolved args => prepare_call step started args inputs
  | Failing e => st_raise e
  | NeedPointer pid key k =>
      text ← on_sm (retrieve pid);
      advance step started (dict_set inputs key pid) (k (PStr text))
  | NeedStep ref_value key k =>
      s ← st_get;
      let ref_step_id := (parse_reference ref_value).1 in
      if decide (is_Some (step_futures (flow s) !! ref_step_id)) then
        mret (AwaitReference started inputs ref_value key k)
      else st_raise (Exn KeyError ("Step reference '" +:+ ref_step_id +:+ "' failed."))
  end.

(** [_resolve_step_reference] after its [await]. *)
Definition deliver_reference (step : ToolCall) (started : Q) (inputs : list (string * string))
    (ref_value key : string) (k : pyval → resolution (list (string * pyval))) (pid : string)
  : E pc :=
  let '(ref_step_id, path) := parse_reference ref_value in
  s ← st_get;
  let dependency_status := step_status (flow s) !! ref_step_id ≫= se_status in
  if decide (dependency_status = Some "ok") then
    text ← on_sm (retrieve pid);
    advance step started (dict_set inputs key pid)
      (k (if decide (path = "") then PStr text else py_walk (PStr text) (py_split "."%char path)))
  else
    st_raise (Exn KeyError ("Dependency step '" +:+ ref_step_id +:+
      "' did not complete successfully (" +:+ default "None" dependency_status +:+ ").")).

(** From the controllers' outcomes to argument resolution. *)
Definition after_controllers (step : ToolCall) (started : Q) : E pc :=
  s ← st_get;
  if early_exit (flow s) then skip_early_exit step else
  let start := advance step started []
    (resolve_arguments (max_reference_resolution_depth (limits v)) (arguments step)) in
  if approval_required step then
    _append_trace_event step APPROVAL_REQUIRED no_args;;
    match dict_get (approvals (macro v)) (step_id step) with
    | None => pause_step step
    | Some d =>
        if decide (decision d = REJECT) then reject_step step d
        else _append_trace_event step APPROVED no_args;; start
    end
  else start.

(** After [asyncio.gather] of the controllers' futures. *)
Definition controllers_woken (step : ToolCall) (started : Q) : E pc :=
  s ← st_get;
  let sid := step_id step in
  if bool_decide (set_Exists (λ c, sid ∈ default ∅ (branch_decisions (flow s) !! c))
                    (branch_controllers sid))
  then after_controllers step started
  else skip_branch_not_selected step.

(** *** The retry loop *)

(** After [global_semaphore.acquire()]. *)
Definition global_slot_acquired (started : Q) (c : call_ctx) (wait_started : Q) : E pc :=
  s ← st_get;
  mod_slots (λ x, set_saturation
    (add_global_concurrency (clock s - wait_started)%Q (saturation_metrics x))
    (set_permits (global_permits x - 1)%Z (tool_permits x) x));;
  mret (AwaitToolSlot started c (clock s)).

(** The trace fields of an attempt. *)
Definition call_args (c : call_ctx) : event_args :=
  {| ea_attempt := attempt_count c; ea_resolved := Some (resolved_args c);
     ea_inputs := non_empty (input_pointers c); ea_output := None; ea_duration := None;
     ea_retry_delay := None; ea_error := None |}.

(** From the rate limits to the call. *)
Definition start_call (step : ToolCall) (started : Q) (c : call_ctx) (was_rate_limited : bool) : E pc :=
  mod_slots (λ x,
    let m := saturation_metrics x in
    if was_rate_limited then
      set_saturation (with_peaks (max_inflight_global m) (max_inflight_per_tool m)
                        (total_rate_limited_attempts m + 1)%Z m) x
    else x);;
  _append_trace_event step STARTED (call_args c);;
  mret (InTool started c).

Definition tool_bucket (c : call_ctx) (x : slot_state) : option (string * bucket) :=
  match tool_limit_key c with
  | Some k => (λ b, (k, b)) <$> per_tool_buckets x !! k
  | None => None
  end.

(** The request-rate buckets: a pass that gets no token sleeps. *)
Definition tool_rate_pass (step : ToolCall) (started : Q) (c : call_ctx) (limited : bool)
    (waited : Q) : E pc :=
  s ← st_get;
  match tool_bucket c (slots s) with
  | None => start_call step started c limited
  | Some (k, b) =>
      let '(b', wait) := try_acquire (clock s) b in
      mod_slots (λ x, set_buckets (global_rate_bucket x) (<[k := b']> (per_tool_buckets x)) x);;
      match wait with
      | Some w => mret (AwaitToolRate started c limited (waited + w)%Q (clock s + w)%Q)
      | None =>
          mod_slots (λ x, set_saturation (add_tool_rate waited (saturation_metrics x)) x);;
          start_call step started c (limited || negb (Qle_bool waited 0))
      end
  end.

Definition global_rate_pass (step : ToolCall) (started : Q) (c : call_ctx) (waited : Q) : E pc :=
  s ← st_get;
  match global_rate_bucket (slots s) with
  | None => tool_rate_pass step started c false 0
  | Some b =>
      let '(b', wait) := try_acquire (clock s) b in
      mod_slots (λ x, set_buckets (Some b') (per_tool_buckets x) x);;
      match wait with
      | Some w => mret (AwaitGlobalRate started c (waited + w)%Q (clock s + w)%Q)
      | None =>
          mod_slots (λ x, set_saturation (add_global_rate waited (saturation_metrics x)) x);;
          tool_rate_pass step started c (negb (Qle_bool waited 0)) 0
      end
  end.

(** The [except] and [finally] clauses of an attempt. *)
Definition release (c : call_ctx) : E unit := mod_slots (release_slots (tool_limit_key c)).

Definition tool_error (step : ToolCall) (kind : string) (e : exn) (attempts : Z) : ToolErrorPayload :=
  {| error_type := kind; message := exn_str e; err_step_id := step_id step;
     err_tool_name := tool_name step; details := Some (PDict [("attempts", PInt attempts)]) |}.

Definition attempt_failed (step : ToolCall) (started : Q) (c : call_ctx) (exc : exn) : E pc :=
  let policy := retry_policy (macro v) in
  let retryable := bool_decide (class_name (exn_cls exc) ∈ retryable_error_types policy) in
  if negb retryable || (max_attempts policy <=? attempt_count c)%Z then
    release c;; st_raise exc
  else
    st_catch (
      _append_trace_event step RETRIED
        {| ea_attempt := attempt_count c; ea_resolved := Some (resolved_args c);
           ea_inputs := non_empty (input_pointers c); ea_output := None; ea_duration := None;
           ea_retry_delay := Some (delay c);
           ea_error := Some (tool_error step "tool_execution_error" exc (attempt_count c)) |};;
      s ← st_get;
      mret (RetrySleep started c (clock s + delay c)%Q))
    (λ e, release c;; st_raise e).

(** [except Exception as exc] around the calls above, inside the loop. *)
Definition in_attempt (step : ToolCall) (started : Q) (c : call_ctx) (body : E pc) : E pc :=
  st_catch body (attempt_failed step started c).

(** After [tool_semaphore.acquire()], or at once without a semaphore. *)
Definition tool_slot_acquired (step : ToolCall) (started : Q) (c : call_ctx) (wait_started : Q)
  : E pc :=
  s ← st_get;
  match tool_semaphore (tool_limit_key c) (slots s) with
  | Some (k, n) =>
      mod_slots (λ x, set_saturation
        (add_tool_concurrency (clock s - wait_started)%Q (saturation_metrics x))
        (set_permits (global_permits x) (<[k := (n - 1)%Z]> (tool_permits x)) x))
  | None => mret tt
  end;;
  mod_slots (on_slot_acquired (tool_limit_key c));;
  in_attempt step started c (global_rate_pass step started c 0).

(** The end of [asyncio.sleep(delay)], up to the next [acquire]. *)
Definition retry_wake (started : Q) (c : call_ctx) : E pc :=
  release c;;
  s ← st_get;
  mret (AwaitGlobalSlot started
    {| attempt_count := attempt_count c + 1;
       delay := (delay c * backoff_multiplier (retry_policy (macro v)))%Q;
       resolved_args := resolved_args c; input_pointers := input_pointers c;
       tool_limit_key := tool_limit_key c |} (clock s)).

Definition elapsed_ms (started : Q) (s : run_state S) : Q := ((clock s - started) * 1000)%Q.

(** From the tool's output to the end of the step. *)
Definition complete_step (step : ToolCall) (started : Q) (c : call_ctx) (raw_output : pyval) : E pc :=
  out ← store_output raw_output
    ("Completed step " +:+ step_id step +:+ " successfully.") [("step_id", PStr (step_id step))];
  s ← st_get;
  record_status (step_id step) "ok" out.1 out.2 raw_output;;
  resolve_branch_targets step true;;
  _append_trace_event step COMPLETED
    {| ea_attempt := attempt_count c; ea_resolved := Some (resolved_args c);
       ea_inputs := non_empty (input_pointers c); ea_output := Some out.1;
       ea_duration := Some (elapsed_ms started s); ea_retry_delay := None; ea_error := None |};;
  set_result (step_id step) out.1;;
  _persist_checkpoint "active" None;;
  mret (Finished out.2).

(** The tool's thread is done. *)
Definition tool_returned (step : ToolCall) (started : Q) (c : call_ctx) (outcome : result pyval)
  : E pc :=
  match outcome with
  | Ok raw_output => release c;; complete_step step started c raw_output
  | Raise exc => attempt_failed step started c exc
  end.

(** [except Exception as exc] around the whole step. *)
Definition failure_kind (e : exn) : string :=
  match exn_cls e with
  | InputValidationError => "validation_error"
  | KeyError => "dependency_error"
  | _ => "tool_execution_error"
  end.

Definition fail_step (step : ToolCall) (started : Q) (attempts : Z) (exc : exn) : E pc :=
  let kind := failure_kind exc in
  let error_payload := tool_error step kind exc attempts in
  s ← st_get;
  _append_trace_event step FAILED
    {| ea_attempt := Z.max 1 attempts; ea_resolved := None; ea_inputs := None; ea_output := None;
       ea_duration := Some (elapsed_ms started s); ea_retry_delay := None;
       ea_error := Some error_payload |};;
  settle step "error" (dump_error error_payload)
    ("Step " +:+ step_id step +:+ " failed with " +:+ kind +:+ ".")
    [("status", PStr "error"); ("error_type", PStr kind)] (resolve_branch_targets step false).

Definition in_step (step : ToolCall) (started : Q) (attempts : Z) (body : E pc) : E pc :=
  st_catch body (fail_step step started attempts).

(** [run_step] from its first line; what comes before the [try] may crash the
    task. *)
Definition begin_step (step : ToolCall) : E pc :=
  let sid := step_id step in
  s ← st_get;
  let existing := step_status (flow s) !! sid in
  let existing_pointer_id := str_or (existing ≫= se_pointer_id) "" in
  if terminal_status (existing ≫= se_status) && negb (bool_decide (existing_pointer_id = "")) then
    set_result sid existing_pointer_id;;
    mod_flow (add_replayed sid);;
    _append_trace_event step REPLAYED
      {| ea_attempt := 1; ea_resolved := None; ea_inputs := None;
         ea_output := Some existing_pointer_id; ea_duration := None; ea_retry_delay := None;
         ea_error := None |};;
    p ← _hydrate_pointer_response (Some existing_pointer_id) sid;
    mret (Finished p)
  else
    _append_trace_event step QUEUED no_args;;
    s ← st_get;
    let started := clock s in
    in_step step started 0
      (if decide (branch_controllers sid = ∅) then after_controllers step started
       else mret (AwaitControllers started)).

(** *** The event loop *)

Definition future_done (f : flow_state) (sid : string) : option string :=
  default None (step_futures f !! sid).

(** What resuming a suspended step runs, when it can be resumed. *)
Definition resume_step (step : ToolCall) (p : pc) (s : run_state S) : option (E pc) :=
  match p with
  | NotStarted => Some (begin_step step)
  | AwaitControllers started =>
      if decide (set_Forall (λ c, is_Some (future_done (flow s) c)) (branch_controllers (step_id step)))
      then Some (in_step step started 0 (controllers_woken step started)) else None
  | AwaitReference started inputs ref_value key k =>
      pid ← future_done (flow s) (parse_reference ref_value).1;
      Some (in_step step started 0 (deliver_reference step started inputs ref_value key k pid))
  | AwaitGlobalSlot started c wait_started =>
      if (0 <? global_permits (slots s))%Z
      then Some (in_step step started (attempt_count c) (global_slot_acquired started c wait_started))
      else None
  | AwaitToolSlot started c wait_started =>
      if match tool_semaphore (tool_limit_key c) (slots s) with
         | Some (_, n) => (0 <? n)%Z | None => true end
      then Some (in_step step started (attempt_count c) (tool_slot_acquired step started c wait_started))
      else None
  | AwaitGlobalRate started c waited wake =>
      if Qle_bool wake (clock s)
      then Some (in_step step started (attempt_count c)
                   (in_attempt step started c (global_rate_pass step started c waited)))
      else None
  | AwaitToolRate started c limited waited wake =>
      if Qle_bool wake (clock s)
      then Some (in_step step started (attempt_count c)
                   (in_attempt step started c (tool_rate_pass step started c limited waited)))
      else None
  | RetrySleep started c wake =>
      if Qle_bool wake (clock s)
      then Some (in_step step started (attempt_count c) (retry_wake started c)) else None
  | InTool _ _ | Finished _ | Crashed _ => None
  end.

Record config := { st : run_state S; pcs : gmap string pc }.

(** The step's task runs until it suspends, returns or raises. *)
Definition run_task (sid : string) (body : E pc) (c : config) : config :=
  let '(s, r) := body (st c) in
  {| st := s; pcs := <[sid := match r with Ok p => p | Raise e => Crashed e end]> (pcs c) |}.

Inductive choice :=
  | Run (sid : string)                              (* the loop resumes a step *)
  | Return (sid : string) (outcome : result pyval)  (* a tool's thread ends *)
  | Tick (q : Q).                                   (* time passes *)

Definition advance_clock (q : Q) (s : run_state S) : run_state S :=
  {| sm := sm s; clock := (clock s + q)%Q; next_id := next_id s; flow := flow s; slots := slots s |}.

Definition fire (ch : choice) (c : config) : option config :=
  match ch with
  | Run sid =>
      step ← step_by_id (macro v) sid;
      p ← pcs c !! sid;
      body ← resume_step step p (st c);
      Some (run_task sid body c)
  | Return sid outcome =>
      step ← step_by_id (macro v) sid;
      p ← pcs c !! sid;
      match p with
      | InTool started ctx =>
          Some (run_task sid (in_step step started (attempt_count ctx)
                                (tool_returned step started ctx outcome)) c)
      | _ => None
      end
  | Tick q => if Qle_bool q 0 then None else Some {| st := advance_clock q (st c); pcs := pcs c |}
  end.

Inductive cstep : config → config → Prop :=
  | fire_step ch c c' : fire ch c = Some c' → cstep c c'.

Fixpoint fire_all (chs : list choice) (c : config) : option config :=
  match chs with
  | [] => Some c
  | ch :: chs => c' ← fire ch c; fire_all chs c'
  end.

(** *** The overall timeout *)

(** What a cancelled task gives back: [CancelledError] is no [Exception], so
    only the [finally] of an attempt runs. *)
Definition cancel_release (p : pc) (x : slot_state) : slot_state :=
  match p with
  | AwaitToolSlot _ c _ =>
      let x := on_slot_released (tool_limit_key c) x in
      set_permits (global_permits x + 1)%Z (tool_permits x) x
  | AwaitGlobalRate _ c _ _ | AwaitToolRate _ c _ _ _ | InTool _ c | RetrySleep _ c _ =>
      release_slots (tool_limit_key c) x
  | _ => x
  end.

(** [_mark_step_timeout] *)
Definition _mark_step_timeout (step : ToolCall) : E payload :=
  let bound := opt_value PFloat (max_total_runtime_seconds (limits v)) in
  let error_payload_model :=
    {| error_type := "macro_timeout";
       message := "Macro execution exceeded max_total_runtime_seconds=" +:+
                  py_str rt_float_repr bound +:+ ".";
       err_step_id := step_id step; err_tool_name := tool_name step;
       details := Some (PDict [("max_total_runtime_seconds", bound)]) |} in
  _append_trace_event step FAILED
    {| ea_attempt := 1; ea_resolved := None; ea_inputs := None; ea_output := None;
       ea_duration := None; ea_retry_delay := None; ea_error := Some error_payload_model |};;
  out ← store_output (dump_error error_payload_model)
    ("Step " +:+ step_id step +:+ " failed with macro_timeout.")
    [("status", PStr "error"); ("error_type", PStr "macro_timeout")];
  record_status (step_id step) "error" out.1 out.2 (dump_error error_payload_model);;
  set_result (step_id step) out.1;;
  mret out.2.

(** [[f(x) for x in l]] *)
Fixpoint st_map {A B} (f : A → E B) (l : list A) : E (list B) :=
  match l with
  | [] => mret []
  | x :: l => y ← f x; ys ← st_map f l; mret (y :: ys)
  end.

(** [except asyncio.TimeoutError]: unfinished tasks are cancelled, and each
    step without a result gets one. *)
Definition timeout_results (c : config) : E (list payload) :=
  mod_slots (λ x, foldr cancel_release x (map_to_list (pcs c)).*2);;
  results ← st_map (λ step,
      s ← st_get;
      match pcs c !! step_id step with
      | Some (Finished p) => mret p
      | _ =>
          match step_status (flow s) !! step_id step ≫= se_pointer_id with
          | Some pid => if decide (pid = "") then _mark_step_timeout step
                        else _hydrate_pointer_response (Some pid) (step_id step)
          | None => _mark_step_timeout step
          end
      end) (steps (macro v));
  _persist_checkpoint "active" None;;
  mret results.

(** *** After the steps *)

(** How many statuses are among [l]. *)
Definition has_status (l : list string) (e : status_entry) : bool :=
  match se_status e with Some s => bool_decide (s ∈ l) | None => false end.
Definition count_status (l : list string) (f : flow_state) : Z :=
  Z.of_nat (length (List.filter (has_status l) (map_to_list (step_status f)).*2)).

Definition approval_metrics (f : flow_state) : pyval :=
  let required_steps := Z.of_nat (length (List.filter approval_required (steps (macro v)))) in
  let paused := count_status ["paused"] f in
  let rejected := count_status ["rejected"] f in
  PDict [("required_steps", PInt required_steps);
         ("approved_steps", PInt (Z.max 0 (required_steps - paused - rejected)));
         ("rejected_steps", PInt rejected); ("paused_steps", PInt paused)].

Definition opt_int (o : option Z) : pyval := opt_value PInt o.
Definition opt_float (o : option Q) : pyval := opt_value PFloat o.

(** [configured_limits] *)
Definition configured_limits : pyval :=
  PDict [("max_global_concurrency", PInt (max_global_concurrency (limits v)));
         ("global_requests_per_second", opt_float (global_requests_per_second (limits v)));
         ("global_burst_capacity", opt_int (global_burst_capacity (limits v)));
         ("per_tool", PDict ((λ kv, (kv.1,
            PDict [("max_concurrency", opt_int (max_concurrency kv.2));
                   ("requests_per_second", opt_float (requests_per_second kv.2));
                   ("burst_capacity", opt_int (burst_capacity kv.2))])) <$> per_tool (limits v)))].

Definition saturation_value (x : saturation) : pyval :=
  PDict [("global_concurrency_wait_count", PInt (global_concurrency_wait_count x));
         ("global_concurrency_wait_seconds", PFloat (global_concurrency_wait_seconds x));
         ("per_tool_concurrency_wait_count", PInt (per_tool_concurrency_wait_count x));
         ("per_tool_concurrency_wait_seconds", PFloat (per_tool_concurrency_wait_seconds x));
         ("global_rate_wait_count", PInt (global_rate_wait_count x));
         ("global_rate_wait_seconds", PFloat (global_rate_wait_seconds x));
         ("per_tool_rate_wait_count", PInt (per_tool_rate_wait_count x));
         ("per_tool_rate_wait_seconds", PFloat (per_tool_rate_wait_seconds x));
         ("max_inflight_global", PInt (max_inflight_global x));
         ("max_inflight_per_tool",
           PDict ((λ kv, (kv.1, PInt kv.2)) <$> map_to_list (max_inflight_per_tool x)));
         ("total_rate_limited_attempts", PInt (total_rate_limited_attempts x));
         ("configured_limits", configured_limits)].

(** What the run returns: the last step's payload with the run's metadata
    added. *)
Definition annotate_result (s : run_state S) (checkpoint_status : string) (p : payload) : payload :=
  let base := match dict_get p "metadata" with Some (PDict d) => d | _ => [] end in
  dict_set p "metadata" (PDict (dict_update base
    [("execution_run_id", PStr (env_run_id v));
     ("checkpoint_status", PStr checkpoint_status);
     ("resumed_from_checkpoint", PBool (resumed v));
     ("replayed_steps", PList (PStr <$> sorted_set (replayed_step_ids (flow s))));
     ("approval_metrics", approval_metrics (flow s));
     ("saturation_metrics", saturation_value (saturation_metrics (slots s)));
     ("actor_metadata", PDict (run_actor_metadata v))])).

(** [execute_macro] from [final_result] to its end. *)
Definition finish_run (results : list payload) : E payload :=
  let final_result := last results in
  completed ← now;
  s ← st_get;
  let f := flow s in
  let checkpoint_status := if (0 <? count_status ["paused"] f)%Z then "awaiting_approval" else "completed" in
  final_pointer_id ← match final_result with
                     | Some p => st_lift (Some <$> _pointer_id p)
                     | None => mret None
                     end;
  _persist_checkpoint checkpoint_status final_pointer_id;;
  on_sm (store_execution_summary (env_run_id v)
    {| sr_started_at_utc := run_started_at v; sr_completed_at_utc := completed;
       total_steps := Z.of_nat (length (steps (macro v)));
       succeeded_steps := count_status ["ok"] f;
       failed_steps := count_status ["error"; "rejected"; "paused"] f;
       total_duration_ms := (inject_Z (Z.max 0 (completed - run_started_at v)) / 1000)%Q;
       sr_final_pointer_id := final_pointer_id |});;
  at_utc ← now;
  on_sm (store_execution_diagnostics at_utc (env_run_id v)
    (PDict [("run_id", PStr (env_run_id v)); ("captured_at_utc", PInt completed);
            ("checkpoint_status", PStr checkpoint_status);
            ("resumed_from_checkpoint", PBool (resumed v));
            ("replayed_steps", PList (PStr <$> sorted_set (replayed_step_ids f)));
            ("approval_metrics", approval_metrics f);
            ("saturation_metrics", saturation_value (saturation_metrics (slots s)));
            ("step_status", status_value f);
            ("actor_metadata", PDict (run_actor_metadata v))]));;
  mret match final_result with
       | Some p => annotate_result s checkpoint_status p
       | None => []
       end.

(** The results [asyncio.gather] collects, when every step has returned. *)
Definition gathered (c : config) : option (list payload) :=
  mapM (λ step, match pcs c !! step_id step with Some (Finished p) => Some p | _ => None end)
    (steps (macro v)).

(** How the run ends: every step has returned, a task raised, or the overall
    timeout fired. *)
Inductive run_outcome (c : config) : run_state S → result payload → Prop :=
  | out_gathered results s r :
      gathered c = Some results → finish_run results (st c) = (s, r) → run_outcome c s r
  | out_crashed sid e :
      pcs c !! sid = Some (Crashed e) → run_outcome c (st c) (Raise e)
  | out_timeout bound s r :
      max_total_runtime_seconds (limits v) = Some bound → gathered c = None →
      (results ← timeout_results c; finish_run results) (st c) = (s, r) → run_outcome c s r.
End run.

(** *** Before the steps *)

(** [_normalize_actor_metadata] *)
Definition scopes_of (raw : pyval) : list string :=
  match raw with
  | PStr s => split_strip ","%char s
  | PList l => filter (λ x, x ≠ "") ((λ x, py_strip (py_str rt_float_repr x)) <$> l)
  | _ => []
  end.

Definition _normalize_actor_metadata (actor_metadata : option pyval) (operation : string) : payload :=
  let source := match actor_metadata with Some (PDict d) => d | _ => [] end in
  let text k := py_strip (py_str rt_float_repr (default (PStr "") (dict_get source k))) in
  let or_none s := if decide (s = "") then PNone else PStr s in
  let scopes_raw := match dict_get source "actor_scopes" with
                    | Some w => w
                    | None => default (PList []) (dict_get source "scopes")
                    end in
  let copied k := match dict_get source k with
                  | Some (PStr s) => if py_blank s then [] else [(k, PStr (py_strip s))]
                  | _ => []
                  end in
  [("operation", PStr operation); ("actor_id", or_none (text "actor_id"));
   ("owner_actor_id", or_none (text "owner_actor_id"));
   ("actor_scopes", PList (PStr <$> sorted_set (list_to_set (scopes_of scopes_raw))))] ++
  copied "auth_subject" ++ copied "policy_profile" ++ copied "policy_template" ++
  (if decide (dict_get source "local_dev_auth" = Some (PBool true))
   then [("local_dev_auth", PBool true)] else []).

(** [merged_actor_metadata] of a resumed run. *)
Definition merge_actor_metadata (stored fresh : payload) (operation : string) : payload :=
  let take d k := match dict_get fresh k with
                  | Some w => if py_truthy w then dict_set d k w else d
                  | None => d
                  end in
  dict_set
    (foldl take stored
       ["actor_id"; "actor_scopes"; "auth_subject"; "policy_profile"; "policy_template"; "local_dev_auth"])
    "operation" (PStr operation).

(** The defaults that follow, for every run. *)
Definition complete_actor_metadata (d : payload) (operation : string) : payload :=
  let field d k := default PNone (dict_get d k) in
  let d := if py_truthy (field d "owner_actor_id") then d
           else dict_set d "owner_actor_id" (field d "actor_id") in
  let d := if py_truthy (field d "actor_id") then d
           else dict_set d "actor_id" (field d "owner_actor_id") in
  let scopes_value := match dict_get d "actor_scopes" with
                      | Some w => w
                      | None => default (PList []) (dict_get d "scopes")
                      end in
  let d := dict_set d "actor_scopes"
             (PList (PStr <$> sorted_set (list_to_set (scopes_of scopes_value)))) in
  dict_set d "operation" (PStr operation).

(** A value of the checkpoint's [step_status]. *)
Definition entry_of_value (w : pyval) : status_entry :=
  {| se_status := as_str (py_get w "status"); se_pointer_id := as_str (py_get w "pointer_id") |}.

Definition dict_items (w : pyval) : list (string * pyval) := match w with PDict d => d | _ => [] end.
Definition str_items (w : pyval) : list string :=
  match w with PList l => omap (λ x, as_str (Some x)) l | _ => [] end.

(** The futures, statuses and contexts a run starts from. *)
Definition initial_flow (m : BatchedMacroRequest) (statuses : gmap string status_entry)
    (decisions : gmap string (gset string)) (read : string → pyval) : flow_state :=
  {| step_futures := set_to_map (λ sid, (sid,
       e ← statuses !! sid;
       if terminal_status (se_status e)
       then pid ← se_pointer_id e; if decide (pid = "") then None else Some pid
       else None)) (step_ids m);
     step_status := statuses;
     step_contexts := omap (λ e,
       pid ← se_pointer_id e;
       if decide (pid = "") then None else
       Some (PDict [("pointer_id", PStr pid); ("metadata", PNone); ("raw_data", read pid);
                    ("status", opt_pstr (se_status e))])) statuses;
     branch_decisions := decisions; early_exit := false; replayed_step_ids := ∅ |}.

Definition zero_saturation : saturation :=
  {| global_concurrency_wait_count := 0; global_concurrency_wait_seconds := 0;
     per_tool_concurrency_wait_count := 0; per_tool_concurrency_wait_seconds := 0;
     global_rate_wait_count := 0; global_rate_wait_seconds := 0;
     per_tool_rate_wait_count := 0; per_tool_rate_wait_seconds := 0;
     max_inflight_global := 0; max_inflight_per_tool := ∅; total_rate_limited_attempts := 0 |}.

(** The semaphores and buckets of the limits. *)
Definition initial_slots (l : ExecutionLimits) (at_clock : Q) : slot_state :=
  {| global_permits := max_global_concurrency l;
     tool_permits := list_to_map (omap (λ kv, pair kv.1 <$> max_concurrency kv.2) (per_tool l));
     global_rate_bucket :=
       (λ r, new_bucket r (bucket_capacity (global_burst_capacity l) r) at_clock)
         <$> global_requests_per_second l;
     per_tool_buckets := list_to_map (omap (λ kv,
       (λ r, (kv.1, new_bucket r (bucket_capacity (burst_capacity kv.2) r) at_clock))
         <$> requests_per_second kv.2) (per_tool l));
     inflight_global := 0; inflight_per_tool := ∅; saturation_metrics := zero_saturation |}.

Definition not_resumable (rid status : string) : exn :=
  value_error ("Run " +:+ rid +:+ " is not resumable from status '" +:+ status +:+ "'.").

(** [execute_macro] up to the creation of the tasks, on a state manager [x]
    at clock reading [t]; [n] identifiers have been drawn. *)
Definition start_run (default_limits : ExecutionLimits) (m : BatchedMacroRequest) (rid : string)
    (resume : bool) (actor_metadata : option pyval) (t : Q) (n : nat) (x : state_manager S)
  : state_manager S * result (run_env * config) :=
  let operation := if resume then "resume" else "execute" in
  let l := default default_limits (execution_limits m) in
  let normalized := _normalize_actor_metadata actor_metadata operation in
  match (if resume then
           (checkpoint ← get_run_checkpoint rid;
            st_raise_if (bool_decide (status checkpoint ∉ ["active"; "awaiting_approval"]))
              (not_resumable rid (status checkpoint));;
            mret (Some checkpoint)) x
         else (x, Ok None)) with
  | (x, Raise e) => (x, Raise e)
  | (x, Ok checkpoint) =>
      let started := match checkpoint with Some cp => StateManager.started_at_utc cp | None => microseconds t end in
      let statuses : gmap string status_entry := match checkpoint with
        | Some cp => list_to_map ((λ kv, (kv.1, entry_of_value kv.2)) <$> dict_items (StateManager.step_status cp))
        | None => ∅ end in
      let decisions : gmap string (gset string) := match checkpoint with
        | Some cp => list_to_map ((λ kv, (kv.1, list_to_set (str_items kv.2))) <$>
                       dict_items (StateManager.branch_decisions cp))
        | None => ∅ end in
      let actor := match checkpoint with
        | Some cp => match StateManager.actor_metadata cp with
                     | Some (PDict stored) =>
                         if is_nil stored then normalized else merge_actor_metadata stored normalized operation
                     | _ => normalized
                     end
        | None => normalized end in
      let v := {| macro := m; env_run_id := rid; limits := l;
                  run_actor_metadata := complete_actor_metadata actor operation;
                  run_started_at := started; resumed := resume |} in
      let read pid := match (retrieve pid x).2 with Ok text => PStr text | Raise _ => PNone end in
      let s := {| sm := x; clock := t; next_id := n; flow := initial_flow m statuses decisions read;
                  slots := initial_slots l t |} in
      match _persist_checkpoint v "active" None s with
      | (s, Raise e) => (sm s, Raise e)
      | (s, Ok _) => (sm s, Ok (v, {| st := s; pcs := set_to_map (λ sid, (sid, NotStarted)) (step_ids m) |}))
      end
  end.

(** The macro [resume_run] builds from the checkpoint and the approvals it is
    given; it then calls [execute_macro] with [resume=True]. *)
Definition macro_to_resume (rid : string) (approvals : list (string * pyval))
  : stm (state_manager S) BatchedMacroRequest :=
  checkpoint ← get_run_checkpoint rid;
  st_raise_if (bool_decide (status checkpoint ∉ ["active"; "awaiting_approval"]))
    (not_resumable rid (status checkpoint));;
  let macro_payload := dict_items (macro_payload checkpoint) in
  let merged_approvals :=
    dict_update (dict_items (default PNone (dict_get macro_payload "approvals"))) approvals in
  st_lift (rt_load_macro (PDict (if is_nil approvals then macro_payload
                                 else dict_set macro_payload "approvals" (PDict merged_approvals)))).

(** Approvals as decision objects, not as a request's JSON. *)
Definition resumed_macro (rid : string) (decisions : list (string * StepApprovalDecision))
  : stm (state_manager S) BatchedMacroRequest :=
  macro_to_resume rid ((λ kd, (kd.1, rt_dump_decision kd.2)) <$> decisions).
End executor.
