(* ===== verification/ExecutorSamples.v ===== *)
(** A concrete macro for the executor model: two calls of one tool, the first
    a branching step that selects the second, the second reading the first's
    output under an approval; and the schedule that runs it to its end. *)
From stdpp Require Import options.
From S2P Require Import Prelude Values Json SafeEval ToolRegistry PointerStore StateManager TokenBucket Models Executor.
Unset Default Proof Using.

Definition sample_limits : ExecutionLimits :=
  {| max_global_concurrency := 1; max_total_runtime_seconds := Some 60%Q;
     max_reference_resolution_depth := 32; global_requests_per_second := None;
     global_burst_capacity := None;
     per_tool := [("fetch", {| max_concurrency := Some 1%Z; requests_per_second := None;
                               burst_capacity := None |})] |}.

Definition sample_a : ToolCall :=
  {| tool_name := "fetch"; arguments := [("url", PStr "x.org")]; step_id := "a";
     branching := Some {| condition := "true"; true_target_step_ids := ["b"];
                          false_target_step_ids := []; fallback_target_step_ids := [];
                          allow_early_exit := false |};
     approval := None |}.
Definition sample_b : ToolCall :=
  {| tool_name := "fetch"; arguments := [("url", PStr "$step:a")]; step_id := "b";
     branching := None; approval := Some {| required := true; prompt := None |} |}.
Definition sample_macro : BatchedMacroRequest :=
  {| steps := [sample_a; sample_b]; return_final_state_only := true;
     retry_policy := default_retry_policy; execution_limits := Some sample_limits;
     approvals := [("b", {| decision := APPROVE; reason := None |})] |}.

(** What the third-party functions answer here. *)
#[export] Instance sample_runtime : Runtime nat := {
  rt_float_repr _ := "0.5";
  rt_getsizeof _ := 49%Z;
  rt_same_object _ _ := false;
  rt_parse _ := Some (Constant (CBool true));
  rt_jsonschema_validate _ _ := Valid;
  rt_pointer_name n := "ptr_" +:+ pretty n;
  rt_registry := sample_registry;
  rt_dump_macro _ := PDict [];
  rt_dump_decision _ := PNone;
  rt_load_macro _ := Ok sample_macro
}.

Definition fresh_manager : state_manager sqlite :=
  {| pointer_store := empty_sqlite; sm_closed := false; execution_trace_events := [];
     execution_run_summaries := ∅; execution_run_checkpoints := ∅; execution_run_diagnostics := ∅;
     conversation_sessions := ∅; conversation_turns := [] |}.

Definition start_sample := start_run default_execution_limits sample_macro "r1" false None 0 0 fresh_manager.
Definition no_env : run_env :=
  {| macro := sample_macro; env_run_id := ""; limits := sample_limits; run_actor_metadata := [];
     run_started_at := 0; resumed := false |}.
Definition sample_env : run_env := match start_sample.2 with Ok (v, _) => v | Raise _ => no_env end.
Definition no_config : config (S := sqlite) :=
  {| st := {| sm := fresh_manager; clock := 0; next_id := 0;
              flow := initial_flow sample_macro ∅ ∅ (λ _, PNone); slots := initial_slots sample_limits 0 |};
     pcs := ∅ |}.
Definition sample_start : config (S := sqlite) :=
  match start_sample.2 with Ok (_, c) => c | Raise _ => no_config end.

(** Step [a] to its end, then [b] up to its call. *)
Definition to_call : list choice :=
  [Run "b"; Run "a"; Run "a"; Run "a"; Return "a" (Ok (PStr "body"));
   Run "b"; Run "b"; Run "b"; Run "b"].
Definition to_end : list choice := to_call ++ [Return "b" (Ok (PStr "done"))].

Definition sample_after (chs : list choice) : config (S := sqlite) :=
  default sample_start (fire_all sample_env chs sample_start).

Definition is_in_tool (p : pc) : bool := match p with InTool _ _ => true | _ => false end.

Example sample_reaches_call :
  is_Some (fire_all sample_env to_call sample_start) ∧
  is_in_tool (default NotStarted (pcs (sample_after to_call) !! "b")) = true.
Proof. split; [eexists|]; vm_compute; reflexivity. Qed.

Example sample_reaches_end :
  is_Some (fire_all sample_env to_end sample_start) ∧
  (map_to_list (step_status (flow (st (sample_after to_end)))) : list _) =
    [("a", {| se_status := Some "ok"; se_pointer_id := Some "ptr_0" |});
     ("b", {| se_status := Some "ok"; se_pointer_id := Some "ptr_1" |})].
Proof. split; [eexists|]; vm_compute; reflexivity. Qed.
