(* ===== verification/WorkflowHelpers.v ===== *)
(** The fluent workflow builder and the linear pipeline
    ([eap/workflow_helpers.py]), and what the executor makes of the retry
    policy a builder gives. *)
From stdpp Require Import options.
From S2P Require Import Prelude Graph Values PointerStore ToolRegistry StateManager TokenBucket Executor ExecutorSamples Models Workflow.
Unset Default Proof Using.

Record WorkflowBuilder := { _steps : list ToolCall; _retry_policy : option RetryPolicy }.
(** [WorkflowBuilder()] *)
Definition new_builder : WorkflowBuilder := {| _steps := []; _retry_policy := None |}.

(** The names [step] has of its own: a keyword argument of the same name is a
    second value for it. *)
Definition own_parameters : list string := ["self"; "step_id"; "tool_name"].
Definition duplicated (arguments : list (string * pyval)) : option string := List.find (λ k, bool_decide (k ∈ own_parameters)) arguments.*1.

(** [WorkflowBuilder.step] *)
Definition step (step_id tool_name : string) (arguments : list (string * pyval)) (b : WorkflowBuilder) : result WorkflowBuilder :=
  match duplicated arguments with
  | Some k => Raise (py_type_error ("WorkflowBuilder.step() got multiple values for argument '" +:+ k +:+ "'"))
  | None =>
      Ok {| _steps := _steps b ++ [{| tool_name := tool_name; arguments := arguments; step_id := step_id; branching := None; approval := None |}];
            _retry_policy := _retry_policy b |}
  end.

(** [WorkflowBuilder.with_retry] *)
Definition with_retry (max_attempts : Z) (initial_delay backoff : Q) (retryable_errors : option (list string)) (b : WorkflowBuilder) :
    result WorkflowBuilder :=
  let policy := {| max_attempts := max_attempts; initial_delay_seconds := initial_delay; backoff_multiplier := backoff;
                   retryable_error_types := default [] retryable_errors |} in
  _ ← raise_if (negb (validate_retry_fields policy)) (Exn ValidationError "1 validation error for RetryPolicy");
  Ok {| _steps := _steps b; _retry_policy := Some policy |}.

(** The request of the given steps, every other field its default. *)
Definition request (s : list ToolCall) (retry : option RetryPolicy) : BatchedMacroRequest :=
  {| steps := s; return_final_state_only := true; retry_policy := default default_retry_policy retry; execution_limits := None; approvals := [] |}.

(** [WorkflowBuilder.build] *)
Definition build (b : WorkflowBuilder) : result BatchedMacroRequest :=
  _ ← raise_if (is_nil (_steps b)) (value_error "Workflow must have at least one step.");
  construct_macro (request (_steps b) (_retry_policy b)).

(** [entry[k]] *)
Definition entry_get (entry : list (string * pyval)) (k : string) : result pyval :=
  match dict_get entry k with Some v => Ok v | None => Raise (Exn KeyError k) end.
(** The body of the loop of [linear_pipeline]. *)
Definition pipeline_step (entry : list (string * pyval)) : result ToolCall :=
  i ← entry_get entry "step_id";
  t ← entry_get entry "tool_name";
  match i, t, default (PDict []) (dict_get entry "arguments") with
  | PStr i, PStr t, PDict a => Ok {| tool_name := t; arguments := a; step_id := i; branching := None; approval := None |}
  | _, _, _ => Raise (Exn ValidationError "validation error for ToolCall")
  end.
(** [linear_pipeline] *)
Definition linear_pipeline (entries : list (list (string * pyval))) (retry_policy : option RetryPolicy) : result BatchedMacroRequest :=
  tool_calls ← map_result pipeline_step entries;
  construct_macro (request tool_calls retry_policy).

(** ** Chains of calls *)

Inductive builder_call :=
  | Step (step_id tool_name : string) (arguments : list (string * pyval))
  | WithRetry (max_attempts : Z) (initial_delay backoff : Q) (retryable_errors : option (list string)).
Definition perform (b : WorkflowBuilder) (c : builder_call) : result WorkflowBuilder :=
  match c with
  | Step i t a => step i t a b
  | WithRetry n d m e => with_retry n d m e b
  end.
(** [WorkflowBuilder()...build()] *)
Definition built (calls : list builder_call) : result BatchedMacroRequest := b ← fold_result perform new_builder calls; build b.

Definition step_of (c : builder_call) : option ToolCall :=
  match c with
  | Step i t a => Some {| tool_name := t; arguments := a; step_id := i; branching := None; approval := None |}
  | WithRetry _ _ _ _ => None
  end.
Definition policy_of (c : builder_call) : option RetryPolicy :=
  match c with
  | Step _ _ _ => None
  | WithRetry n d m e => Some {| max_attempts := n; initial_delay_seconds := d; backoff_multiplier := m; retryable_error_types := default [] e |}
  end.
(** What a call needs to be accepted. *)
Definition call_ok (c : builder_call) : Prop :=
  match c with
  | Step _ _ a => duplicated a = None
  | WithRetry _ _ _ _ => opt_all validate_retry_fields (policy_of c) = true
  end.
(** The last retry policy of a chain. *)
Definition last_policy (calls : list builder_call) : option RetryPolicy := last (omap policy_of calls).

Lemma last_cons_default {A} (x : A) l : last (x :: l) = Some (default x (last l)).
Proof. revert x. induction l as [|y l IH]; intros x; [done|]. cbn [last]. fold (last (y :: l)). by rewrite (IH y). Qed.

Lemma perform_all calls b b' : fold_result perform b calls = Ok b' ↔ Forall call_ok calls ∧
  b' = {| _steps := _steps b ++ omap step_of calls;
          _retry_policy := match last_policy calls with Some p => Some p | None => _retry_policy b end |}.
Proof.
  revert b. induction calls as [|c calls IH]; intros b; cbn [fold_result].
  - cbn. rewrite app_nil_r. destruct b as [s r]. cbn. split; [intros [= <-]; by split|by intros [_ ->]].
  - rewrite bind_Ok, Forall_cons. setoid_rewrite IH. destruct c as [i t a|n d m e]; cbn [perform call_ok].
    + unfold step. cbn. destruct (duplicated a); [split; [by intros (? & [=] & _)|by intros [[[=] _] _]]|]. split.
      * intros (b1 & [= <-] & Hall & ->). split; [done|]. cbn. by rewrite <- app_assoc.
      * intros [[_ Hall] ->]. eexists. split; [reflexivity|]. split; [done|]. cbn. by rewrite <- app_assoc.
    + unfold with_retry. cbn. set (p := Build_RetryPolicy _ _ _ _).
      assert (last_policy (WithRetry n d m e :: calls) = Some (default p (last_policy calls))) as -> by apply last_cons_default.
      destruct (validate_retry_fields p); cbn; [|split; [by intros (? & [=] & _)|by intros [[[=] _] _]]].
      split; [intros (b1 & [= <-] & Hall & ->)|intros [[_ Hall] ->]; eexists; split; [reflexivity|]]; (split; [done|]); by destruct (last_policy calls).
Qed.

Lemma construct_Ok m m' : construct_macro m = Ok m' ↔ m' = m ∧ macro_wf m.
Proof.
  rewrite <- validate_branch_targets_spec. unfold construct_macro. destruct (validate_branch_targets m) as [[]|]; [|split; [done|by intros [_ [=]]]].
  split; [by intros [= <-]|by intros [-> _]].
Qed.

Lemma built_spec calls m : built calls = Ok m ↔ Forall call_ok calls ∧
  build {| _steps := omap step_of calls; _retry_policy := last_policy calls |} = Ok m.
Proof.
  unfold built. rewrite bind_Ok. setoid_rewrite perform_all. cbn. split.
  - intros (b & [Hall ->] & H). split; [done|]. by destruct (last_policy calls).
  - intros (Hall & H). eexists. split; [by split|]. by destruct (last_policy calls).
Qed.

Lemma build_Ok b m : build b = Ok m ↔ _steps b ≠ [] ∧ m = request (_steps b) (_retry_policy b) ∧ macro_wf m.
Proof.
  unfold build. rewrite bind_Ok. setoid_rewrite raise_if_Ok. setoid_rewrite construct_Ok. destruct (_steps b) as [|s l]; cbn.
  - split; [by intros (_ & [=] & _)|by intros [[] _]].
  - split; [intros (_ & _ & -> & ?); done|]. intros (_ & -> & ?). by exists tt.
Qed.

(** A chain of builder calls builds a macro exactly when every call is
    acceptable, there is a step, and the macro of the steps is well formed; that
    macro has the steps in the order of the calls and the policy of the last
    [with_retry], or the default one. *)
Theorem builder_builds calls m : built calls = Ok m ↔
  Forall call_ok calls ∧ omap step_of calls ≠ [] ∧ m = request (omap step_of calls) (last_policy calls) ∧ macro_wf m.
Proof. by rewrite built_spec, build_Ok. Qed.

(** The calls that build what a pipeline's entries describe. *)
Definition entry_call (t : ToolCall) : builder_call := Step (step_id t) (tool_name t) (arguments t).

(** A linear pipeline is the builder's chain of its entries: with at least
    one entry, each with a text id, a text tool and arguments the builder can
    be given, both give the same macro or the same error.  Nothing else joins
    the entries: the steps are the entries as they are. *)
Theorem pipeline_is_chain entries calls retry : map_result pipeline_step entries = Ok calls → calls ≠ [] →
  Forall (λ t, duplicated (arguments t) = None) calls →
  linear_pipeline entries retry = (b ← fold_result perform new_builder (entry_call <$> calls);
                                   build {| _steps := _steps b; _retry_policy := retry |}) ∧
  ∀ m, linear_pipeline entries retry = Ok m → steps m = calls.
Proof.
  intros Hmap Hne Hdup. assert (omap step_of (entry_call <$> calls) = calls) as Hsteps.
  { clear Hne Hdup. revert calls Hmap. induction entries as [|x entries IH]; intros calls; [by intros [= <-]|].
    cbn [map_result]. intros (t & Ht & H)%bind_Ok. apply bind_Ok in H as (ts & Hts & [= <-]). rewrite fmap_cons. cbn. f_equal; [|by apply IH].
    apply bind_Ok in Ht as (i & _ & Ht). apply bind_Ok in Ht as (n & _ & Ht).
    destruct i as [| | | |i| |]; try done. destruct n as [| | | |n| |]; try done. destruct (default _ _) as [| | | | | |a]; try done. by injection Ht as <-. }
  unfold linear_pipeline. rewrite Hmap. cbn [mbind result_bind]. split.
  - assert (fold_result perform new_builder (entry_call <$> calls) =
      Ok {| _steps := calls; _retry_policy := match last_policy (entry_call <$> calls) with Some p => Some p | None => None end |}) as ->.
    { apply perform_all. cbn. rewrite Hsteps. split; [|done]. by apply Forall_fmap. }
    cbn. unfold build. cbn. by destruct calls.
  - intros m [-> _]%construct_Ok. done.
Qed.

(** ** The executor and the builder's policies *)

(** [with_retry] without [retryable_errors] names no error at all, so the
    executor never retries a step of the macro it builds: whatever a tool
    raises and however many attempts were asked for, the attempt's slots are
    released and the exception is final. *)
Theorem unnamed_errors_never_retried {S : Type} `{PointerStoreBackend S} {func : Type} `{Runtime func} (v : run_env) calls m n d b :
  built (calls ++ [WithRetry n d b None]) = Ok m → macro v = m →
  ∀ call started c exc, attempt_failed (S := S) v call started c exc = (release c;; st_raise exc).
Proof.
  intros Hbuilt Hv call started c exc. unfold attempt_failed. rewrite Hv.
  assert (retryable_error_types (retry_policy m) = []) as ->; [|done].
  apply built_spec in Hbuilt as [_ (_ & -> & _)%build_Ok].
  assert (last_policy (calls ++ [WithRetry n d b None]) =
    Some {| max_attempts := n; initial_delay_seconds := d; backoff_multiplier := b; retryable_error_types := [] |}) as -> by
    (unfold last_policy; rewrite omap_app; apply last_snoc).
  done.
Qed.

(** ** Concrete workflows *)

Definition fetch_analyze : list builder_call :=
  [Step "fetch" "scrape_url" [("url", PStr "https://example.com")]; Step "analyze" "analyze_data" [("data", PStr "$step:fetch")];
   WithRetry 3 1 2 (Some ["TimeoutError"])].
Example built_workflow : (λ m, (map step_id (steps m), retryable_error_types (retry_policy m))) <$> built fetch_analyze =
  Ok (["fetch"; "analyze"], ["TimeoutError"]).
Proof. vm_compute. reflexivity. Qed.

Definition two_entries : list (list (string * pyval)) :=
  [[("step_id", PStr "s1"); ("tool_name", PStr "read_local_file")]; [("step_id", PStr "s2"); ("tool_name", PStr "analyze_data")]].
(** Without references in the arguments, no step of a pipeline depends on the
    one before. *)
Example pipeline_unchained :
  (λ m, match dependency_graph m with Ok g => elements (targets (adjacency g) "s1") | Raise _ => ["none"] end) <$>
    linear_pipeline two_entries None = Ok [].
Proof. vm_compute. reflexivity. Qed.
(** The pipeline takes no entries; the builder does not. *)
Example empty_pipeline : is_ok (linear_pipeline [] None) = true ∧ is_ok (built []) = false.
Proof. split; vm_compute; reflexivity. Qed.

Definition two_calls : list ToolCall :=
  [{| tool_name := "read_local_file"; arguments := []; step_id := "s1"; branching := None; approval := None |};
   {| tool_name := "analyze_data"; arguments := []; step_id := "s2"; branching := None; approval := None |}].
Lemma pipeline_is_chain_witness :
  linear_pipeline two_entries None = (b ← fold_result perform new_builder (entry_call <$> two_calls);
                                      build {| _steps := _steps b; _retry_policy := None |}).
Proof.
  apply (pipeline_is_chain two_entries two_calls None); [vm_compute; reflexivity|discriminate|repeat constructor].
Defined.

(** Five attempts asked for, one made. *)
Definition impatient : list builder_call := [Step "a" "fetch" []] ++ [WithRetry 5 1 2 None].
Lemma unnamed_errors_never_retried_witness : ∃ m v, built impatient = Ok m ∧ macro v = m ∧ max_attempts (retry_policy m) = 5%Z ∧
  ∀ call started c exc, attempt_failed (S := sqlite) v call started c exc = (release c;; st_raise exc).
Proof.
  destruct (built impatient) as [m|e] eqn:E; [|vm_compute in E; discriminate].
  set (v := {| macro := m; env_run_id := ""; limits := sample_limits; run_actor_metadata := []; run_started_at := 0; resumed := false |}).
  exists m, v.
  refine (conj eq_refl (conj eq_refl (conj _ _))); [vm_compute in E; injection E as <-; reflexivity|].
  exact (unnamed_errors_never_retried v [Step "a" "fetch" []] m 5 1 2 E eq_refl).
Defined.
