(* ===== verification/ExecutorProofs.v ===== *)
(** What the executor model of [Executor.v] guarantees on every schedule: an
    effect summary for each stretch of a step's coroutine, the invariants of
    reachable configurations that follow, and the properties read off them. *)
From stdpp Require Import options.
From S2P Require Import Prelude Graph Values Json SafeEval ToolRegistry PointerStore StateManager TokenBucket Models Executor.
From Stdlib Require Import Lqa Qpower.
Unset Default Proof Using.

Section effects.
Context {S : Type} `{PointerStoreBackend S} {func : Type} `{Runtime func}.
Context (v : run_env).
Implicit Types (s : run_state S) (f : flow_state) (p : pc) (step : ToolCall).
Abbreviation E := (stm (run_state S)).

(** ** What the calls on the state manager leave alone *)

(** All but the tables of the state manager and the identifiers drawn. *)
Record core s s' : Prop := {
  co_flow : flow s' = flow s;
  co_slots : slots s' = slots s;
  co_clock : clock s' = clock s;
  co_closed : sm_closed (sm s') = sm_closed (sm s)
}.

#[local] Instance core_preorder : PreOrder core.
Proof. split; [by constructor|]. intros a b c [] []. constructor; congruence. Qed.

Lemma wp_on_sm {A} (m : stm (state_manager S) A) (Q : run_state S → result A → Prop) s :
  sm_closed (m (sm s)).1 = sm_closed (sm s) →
  (∀ s', core s s' → Q s' (m (sm s)).2) → wp (on_sm m) Q s.
Proof.
  intros Hc HQ. unfold wp, on_sm. destruct (m (sm s)) as [x r]. simpl in *.
  apply HQ. by constructor.
Qed.

Lemma wp_now (Q : run_state S → result Z → Prop) s : Q s (Ok (microseconds (clock s))) → wp now Q s.
Proof. done. Qed.

Lemma append_closed e (x : state_manager S) : sm_closed (append_trace_event e x).1 = sm_closed x.
Proof.
  unfold append_trace_event, _connection, mbind, stm_bind, raise_if. by destruct (sm_closed x) eqn:Hx.
Qed.

(** The pointers are as they were. *)
Definition same_store s s' : Prop := pointer_store (sm s') = pointer_store (sm s).

Lemma append_store e (x : state_manager S) : pointer_store (append_trace_event e x).1 = pointer_store x.
Proof.
  unfold append_trace_event, _connection, mbind, stm_bind, raise_if. by destruct (sm_closed x).
Qed.

Lemma wp_append_same step t x (Q : run_state S → result unit → Prop) s :
  (∀ s' r, core s s' → same_store s s' → Q s' r) → wp (_append_trace_event v step t x) Q s.
Proof.
  intros HQ. unfold _append_trace_event. apply wp_bind, wp_now. wp_step. wp_step. wp_step.
  destruct (_ ← _; _) as [e|e]; wp_step; [|by apply HQ].
  pose proof (append_closed e (sm s)) as Hc. pose proof (append_store e (sm s)) as Hst.
  unfold wp, on_sm. destruct (append_trace_event e (sm s)) as [y r]. simpl in *. apply HQ; [by constructor|done].
Qed.
Lemma wp_append step t x (Q : run_state S → result unit → Prop) s :
  (∀ s' r, core s s' → Q s' r) → wp (_append_trace_event v step t x) Q s.
Proof. intros HQ. apply wp_append_same. auto. Qed.

Lemma on_store_closed {A} (g : S → S * result A) (x : state_manager S) :
  sm_closed (on_store g x).1 = sm_closed x.
Proof. unfold on_store. by destruct (g _). Qed.

Lemma ret_after_closed {A B} (m : stm (state_manager S) A) (b : B) (x : state_manager S) :
  sm_closed ((m ≫= λ _, mret b) x).1 = sm_closed (m x).1.
Proof. unfold mbind, stm_bind. by destruct (m x) as [y [?|?]]. Qed.

Lemma store_closed fr gs n pid raw sum meta ttl (x : state_manager S) :
  sm_closed (store_and_point fr gs n pid raw sum meta ttl x).2.1 = sm_closed x.
Proof.
  unfold store_and_point. destruct ttl; cbn [snd fst raise_if]; try done;
    [|destruct (_ <=? 0)%Z; cbn; [done|]];
    cbn [snd]; rewrite ret_after_closed; apply on_store_closed.
Qed.

Lemma store_payload fr gs n pid raw sum meta ttl (x : state_manager S) q :
  (store_and_point fr gs n pid raw sum meta ttl x).2.2 = Ok q → _pointer_id q = Ok pid.
Proof.
  unfold store_and_point. destruct ttl; simpl; try done; [|destruct (_ <=? 0)%Z; simpl; [done|]];
    unfold mbind, stm_bind; destruct (on_store _ x) as [y [?|?]]; simpl; try done;
    by intros [= <-].
Qed.

Lemma wp_store raw sum extra (Q : run_state S → result (string * payload) → Prop) s :
  (∀ s' r, core s s' → match r with Ok o => _pointer_id o.2 = Ok o.1 | Raise _ => True end → Q s' r) →
  wp (store_output v raw sum extra) Q s.
Proof.
  intros HQ. unfold store_output. apply wp_bind, wp_now. wp_step. apply wp_bind.
  unfold fresh_pointer. unfold wp at 1. cbn [fst snd]. wp_step. apply wp_bind.
  apply wp_on_sm; [apply store_closed|]. cbn [sm]. intros s' Hc.
  assert (core s s') as Hs by (destruct Hc; by constructor).
  destruct (_.2.2) as [p|e] eqn:Hp; wp_step; [|by apply HQ].
  apply store_payload in Hp. wp_step. rewrite Hp. wp_step. wp_step. by apply HQ.
Qed.
Lemma wp_persist status final (Q : run_state S → result unit → Prop) s :
  sm_closed (sm s) = false → (∀ s', core s s' → Q s' (Ok tt)) →
  wp (_persist_checkpoint v status final) Q s.
Proof.
  intros Hc HQ. unfold _persist_checkpoint. apply wp_bind, wp_now. wp_step. wp_step. wp_step. wp_step.
  unfold upsert_run_checkpoint, _connection.
  apply wp_on_sm; unfold mbind, stm_bind, raise_if; rewrite Hc; simpl; [done|]. apply HQ.
Qed.

(** The same, as an equation. *)
Lemma persist_core status final s :
  sm_closed (sm s) = false → ∃ s', core s s' ∧ _persist_checkpoint v status final s = (s', Ok tt).
Proof.
  intros Hc. pose proof (wp_persist status final (λ s' r, core s s' ∧ r = Ok tt) s Hc) as Hw.
  destruct Hw as [H1 H2]; [done|]. destruct (_persist_checkpoint v status final s) as [s' r].
  simpl in *. subst r. eauto.
Qed.

Lemma wp_retrieve pid (Q : run_state S → result string → Prop) s :
  (∀ s', core s s' → same_store s s' → Q s' (retrieve_pointer pid (pointer_store (sm s)))) → wp (on_sm (retrieve pid)) Q s.
Proof. intros HQ. apply HQ; by constructor. Qed.

Lemma wp_hydrate pid sid (Q : run_state S → result payload → Prop) s :
  (∀ s' r, core s s' → match r with Ok q => _pointer_id q = Ok (str_or pid "") | Raise _ => True end →
           Q s' r) →
  wp (_hydrate_pointer_response pid sid) Q s.
Proof.
  intros HQ. unfold _hydrate_pointer_response. repeat wp_step.
  destruct (decide _) as [Heq|_]; [rewrite Heq in HQ; wp_step; by apply HQ|].
  apply wp_bind, wp_now. wp_step. apply wp_bind.
  apply wp_on_sm; [apply on_store_closed|]. intros s' Hc.
  destruct (_.2) as [rows|e]; wp_step; [|by apply HQ]. wp_step. apply HQ; [done|].
  by destruct (List.find _ rows).
Qed.

(** ** What a step may write *)

(** Nothing but the entries of step [sid] has changed, its future included
    among what has not. *)
Record own (sid : string) f f' : Prop := {
  ow_futures : step_futures f' = step_futures f;
  ow_status j : j ≠ sid → step_status f' !! j = step_status f !! j;
  ow_branch j : j ≠ sid → branch_decisions f' !! j = branch_decisions f !! j;
  ow_replayed : replayed_step_ids f' = replayed_step_ids f
}.

#[local] Instance own_preorder sid : PreOrder (own sid).
Proof.
  split; [by constructor|]. intros a b c [F1 S1 B1 R1] [F2 S2 B2 R2].
  constructor; [congruence | intros; by rewrite S2, S1 | intros; by rewrite B2, B1 | congruence].
Qed.

Lemma own_status sid e c f : own sid f (set_status sid e c f).
Proof. constructor; intros; simpl; [done| by rewrite lookup_insert_ne |done..]. Qed.

Lemma own_branch sid t b f : own sid f (set_branch sid t b f).
Proof. constructor; intros; simpl; [done..| by rewrite lookup_insert_ne |done]. Qed.

(** A state whose flow has changed at [sid] only. *)
Record own_state (sid : string) s s' : Prop := {
  os_own : own sid (flow s) (flow s');
  os_slots : slots s' = slots s;
  os_clock : clock s' = clock s;
  os_closed : sm_closed (sm s') = sm_closed (sm s)
}.

#[local] Instance own_state_preorder sid : PreOrder (own_state sid).
Proof.
  split; [constructor; done|]. intros a b c [O1 S1 C1 L1] [O2 S2 C2 L2].
  constructor; [by trans (flow b) | congruence..].
Qed.

Lemma core_own sid s s' : core s s' → own_state sid s s'.
Proof. intros []. constructor; [|done..]. by replace (flow s') with (flow s). Qed.

Lemma core_trans s1 s2 s3 : core s1 s2 → core s2 s3 → core s1 s3.
Proof. by intros ? ?; etrans. Qed.

(** The status and the future of [sid] both name [pid]. *)
Record settled (sid st pid : string) f : Prop := {
  se_entry : step_status f !! sid = Some {| se_status := Some st; se_pointer_id := Some pid |};
  se_future : step_futures f !! sid = Some (Some pid)
}.

(** From [s], where its future was pending, a step has settled in [s']. *)
Record settles (sid st pid : string) s s' : Prop := {
  sl_settled : settled sid st pid (flow s');
  sl_future j : j ≠ sid → step_futures (flow s') !! j = step_futures (flow s) !! j;
  sl_status j : j ≠ sid → step_status (flow s') !! j = step_status (flow s) !! j;
  sl_branch j : j ≠ sid → branch_decisions (flow s') !! j = branch_decisions (flow s) !! j;
  sl_replayed : replayed_step_ids (flow s') = replayed_step_ids (flow s);
  sl_slots : slots s' = slots s;
  sl_clock : clock s' = clock s;
  sl_closed : sm_closed (sm s') = sm_closed (sm s)
}.

Lemma settles_intro sid st pid s s1 s2 s' :
  own_state sid s s1 →
  step_status (flow s1) !! sid = Some {| se_status := Some st; se_pointer_id := Some pid |} →
  step_futures (flow s1) !! sid = Some None →
  core (set_flow (set_future sid pid (flow s1)) s1) s2 → core s2 s' →
  settles sid st pid s s'.
Proof.
  intros [[Hf Hst Hb Hr] Hsl Hck Hcl] He Hn H1 H2. pose proof (core_trans _ _ _ H1 H2) as [Hfl ? ? ?].
  simpl in *.
  constructor; rewrite ?Hfl; try congruence; simpl; rewrite ?Hn; eauto.
  - constructor; simpl; [done|]. rewrite Hn. by rewrite lookup_insert_eq.
  - intros j Hj. rewrite lookup_insert_ne by done. by rewrite Hf.
Qed.

(** What a branch resolution may do between the two. *)
Definition branch_ok (sid : string) (branch : E unit) : Prop := ∀ s (Q : run_state S → result unit → Prop),
  (∀ s', own_state sid s s' → step_status (flow s') = step_status (flow s) → Q s' (Ok tt)) →
  wp branch Q s.

Lemma clear_branch_ok step : branch_ok (step_id step) (clear_branch step).
Proof.
  intros s Q HQ. unfold clear_branch, mod_flow. destruct (branching step); wp_step; [|by apply HQ].
  apply HQ; [|done]. constructor; simpl; [|done..]. apply own_branch.
Qed.

Lemma error_branch_ok step : branch_ok (step_id step) (resolve_branch_targets step false).
Proof.
  intros s Q HQ. unfold resolve_branch_targets. destruct (branching step); [|wp_step; by apply HQ].
  repeat wp_step. unfold mod_flow. repeat wp_step. apply HQ; [|done]. constructor; simpl; [|done..].
  apply own_branch.
Qed.

Lemma wp_settle step status raw sum extra branch (Q : run_state S → result pc → Prop) s :
  sm_closed (sm s) = false → step_futures (flow s) !! step_id step = Some None →
  branch_ok (step_id step) branch →
  (∀ s' e, core s s' → Q s' (Raise e)) →
  (∀ s' q pid, settles (step_id step) status pid s s' → _pointer_id q = Ok pid →
     Q s' (Ok (Finished q))) →
  wp (settle v step status raw sum extra branch) Q s.
Proof.
  intros Hc Hf Hb HE HF. unfold settle. wp_step. apply wp_store. intros s1 [out|e] H1 Ho; wp_step; [|by apply HE].
  wp_step. unfold record_status, mod_flow. wp_step. wp_step. wp_step. apply Hb. intros s2 H2 Hst2. wp_step.
  wp_step. unfold set_result, mod_flow. wp_step. wp_step. wp_step.
  set (s3 := set_flow _ s1) in *.
  assert (own_state (step_id step) s s3) as H3.
  { trans s1; [by apply core_own|]. constructor; [apply own_status|done..]. }
  assert (own_state (step_id step) s s2) as H02 by (by trans s3).
  apply wp_persist.
  { simpl. by rewrite (os_closed _ _ _ H02). }
  intros s4 H4. wp_step. wp_step. apply (HF _ _ out.1); [|done].
  eapply settles_intro; [exact H02| | |exact H4|done].
  - rewrite Hst2. simpl. by rewrite lookup_insert_eq.
  - by rewrite (ow_futures _ _ _ (os_own _ _ _ H02)).
Qed.
Lemma wp_branch_true step (Q : run_state S → result unit → Prop) s :
  (∀ s' r, own_state (step_id step) s s' → step_status (flow s') = step_status (flow s) → Q s' r) →
  wp (resolve_branch_targets step true) Q s.
Proof.
  intros HQ. unfold resolve_branch_targets, mod_flow. destruct (branching step); [|wp_step; by apply HQ].
  repeat wp_step. destruct (evaluate_branch_condition _ _ _) as [b'|e]; simpl; repeat wp_step; apply HQ; try done.
  constructor; simpl; [|done..]. apply own_branch.
Qed.

Lemma own_settles sid st pid s s1 s' :
  own_state sid s s1 → settles sid st pid s1 s' → settles sid st pid s s'.
Proof.
  intros [[Hf Hst Hb Hr] Hsl Hck Hcl] [H1 H2 H3 H4 H5 H6 H7 H8].
  constructor; try congruence; intros j Hj;
    [rewrite H2 | rewrite H3 | rewrite H4]; auto. by rewrite Hf.
Qed.

Lemma wp_fail step started n exc (Q : run_state S → result pc → Prop) s :
  sm_closed (sm s) = false → step_futures (flow s) !! step_id step = Some None →
  (∀ s' e, own_state (step_id step) s s' → Q s' (Raise e)) →
  (∀ s' q pid, settles (step_id step) "error" pid s s' → _pointer_id q = Ok pid →
     Q s' (Ok (Finished q))) →
  wp (fail_step v step started n exc) Q s.
Proof.
  intros Hc Hf HE HF. unfold fail_step. repeat wp_step. apply wp_append. intros s1 r H1.
  pose proof (core_own (step_id step) _ _ H1) as O1.
  destruct r as [[]|e]; wp_step; [|by apply HE].
  destruct H1 as [F1 _ _ C1].
  apply wp_settle; rewrite ?F1, ?C1; try done.
  - apply error_branch_ok.
  - intros s2 e H2. apply HE. trans s1; [done|]. by apply core_own.
  - intros s2 q pid H2 Hq. apply (HF _ _ pid); [|done]. by eapply own_settles.
Qed.

(** ** Slots *)

(** Whether a suspended step holds the global slot, and the limit key of the
    attempt it is in. *)
Definition holds_global p : Z :=
  match p with
  | AwaitToolSlot _ _ _ | AwaitGlobalRate _ _ _ _ | AwaitToolRate _ _ _ _ _
  | InTool _ _ | RetrySleep _ _ _ => 1
  | _ => 0
  end.
Definition attempt_key p : option (option string) :=
  match p with
  | AwaitGlobalRate _ c _ _ | AwaitToolRate _ c _ _ _ | InTool _ c | RetrySleep _ c _ =>
      Some (tool_limit_key c)
  | _ => None
  end.
Definition busy p : Z := match attempt_key p with Some _ => 1 | None => 0 end.
Definition holds_tool (k : string) p : Z := if decide (attempt_key p = Some (Some k)) then 1 else 0.

(** A step going from [p] to [p'] gives up and takes exactly what the two
    counters say, and moves the in-flight figures with it. *)
Record slots_step p p' (x x' : slot_state) : Prop := {
  ss_global : (global_permits x' + holds_global p' = global_permits x + holds_global p)%Z;
  ss_dom : dom (tool_permits x') = dom (tool_permits x);
  ss_tool k : k ∈ dom (tool_permits x) →
    (default 0 (tool_permits x' !! k) + holds_tool k p' =
     default 0 (tool_permits x !! k) + holds_tool k p)%Z;
  ss_busy : (busy p <= inflight_global x → inflight_global x' + busy p = inflight_global x + busy p')%Z;
  ss_peak B : (busy p <= inflight_global x → inflight_global x - busy p + holds_global p <= B →
    max_inflight_global (saturation_metrics x) <= B →
    max_inflight_global (saturation_metrics x') <= B)%Z
}.

Lemma slots_step_refl p p' x :
  holds_global p = holds_global p' → attempt_key p = attempt_key p' → slots_step p p' x x.
Proof.
  intros Hg Hk. constructor; unfold busy, holds_tool; rewrite ?Hg, ?Hk; try done; lia.
Qed.

Lemma slots_step_to p p1 p2 x x' :
  slots_step p p1 x x' → holds_global p1 = holds_global p2 → attempt_key p1 = attempt_key p2 →
  slots_step p p2 x x'.
Proof.
  intros [G D T B P] Hg Hk. constructor; unfold busy, holds_tool in *; rewrite <- ?Hg, <- ?Hk; done.
Qed.

Lemma slots_step_trans p1 p2 p3 x1 x2 x3 :
  holds_global p1 = holds_global p2 →
  slots_step p1 p2 x1 x2 → slots_step p2 p3 x2 x3 → slots_step p1 p3 x1 x3.
Proof.
  intros Hg [G1 D1 T1 B1 P1] [G2 D2 T2 B2 P2].
  constructor; [lia | congruence | | | ].
  - intros k Hk. specialize (T1 k Hk). rewrite <- D1 in Hk. specialize (T2 k Hk). lia.
  - intros Hb. specialize (B1 Hb). unfold busy in *. destruct (attempt_key p1), (attempt_key p2), (attempt_key p3); lia.
  - intros B Hb H1 H2. specialize (B1 Hb). apply P2; [|lia|by apply P1].
    unfold busy in *. destruct (attempt_key p1), (attempt_key p2); lia.
Qed.
(** Writing rate buckets or wait counters moves no slot. *)
Lemma slots_step_neutral p x x' :
  global_permits x' = global_permits x → tool_permits x' = tool_permits x →
  inflight_global x' = inflight_global x →
  max_inflight_global (saturation_metrics x') = max_inflight_global (saturation_metrics x) →
  slots_step p p x x'.
Proof. intros H1 H2 H3 H4. constructor; rewrite ?H1, ?H2, ?H3, ?H4; try done; lia. Qed.

Lemma record_wait_peak w g m :
  (∀ x, max_inflight_global (g x) = max_inflight_global x) →
  max_inflight_global (record_wait w g m) = max_inflight_global m.
Proof. intros Hg. unfold record_wait. by destruct (Qle_bool w 0). Qed.

Lemma acquire_global_slots started c w w' t x m :
  max_inflight_global m = max_inflight_global (saturation_metrics x) → t = tool_permits x →
  slots_step (AwaitGlobalSlot started c w) (AwaitToolSlot started c w') x
    (set_saturation m (set_permits (global_permits x - 1)%Z t x)).
Proof. intros Hm ->. constructor; simpl; try done; rewrite ?Hm; cbn; lia. Qed.

Lemma tool_semaphore_Some key x k n :
  tool_semaphore key x = Some (k, n) ↔ key = Some k ∧ tool_permits x !! k = Some n.
Proof.
  unfold tool_semaphore. destruct key as [k'|]; [|naive_solver].
  rewrite fmap_Some. naive_solver.
Qed.

Lemma tool_semaphore_None key x :
  tool_semaphore key x = None ↔ ∀ k, key = Some k → k ∉ dom (tool_permits x).
Proof.
  unfold tool_semaphore. destruct key as [k'|]; [|naive_solver].
  rewrite fmap_None. setoid_rewrite not_elem_of_dom. naive_solver.
Qed.

(** Taking the tool permit, if the key has one, and entering the attempt. *)
Definition enter_attempt (key : option string) (x x1 : slot_state) : Prop :=
  global_permits x1 = global_permits x ∧ inflight_global x1 = inflight_global x ∧
  max_inflight_global (saturation_metrics x1) = max_inflight_global (saturation_metrics x) ∧
  tool_permits x1 = match tool_semaphore key x with
                    | Some (k, n) => <[k := (n - 1)%Z]> (tool_permits x)
                    | None => tool_permits x
                    end.

Lemma on_slot_acquired_fields key x :
  global_permits (on_slot_acquired key x) = global_permits x ∧
  tool_permits (on_slot_acquired key x) = tool_permits x ∧
  inflight_global (on_slot_acquired key x) = (inflight_global x + 1)%Z ∧
  max_inflight_global (saturation_metrics (on_slot_acquired key x)) =
    Z.max (max_inflight_global (saturation_metrics x)) (inflight_global x + 1).
Proof.
  unfold on_slot_acquired. destruct key; simpl; split_and!; try done;
    destruct (Z.ltb_spec (max_inflight_global (saturation_metrics x)) (inflight_global x + 1)); lia.
Qed.

Lemma holds_tool_idle k p : attempt_key p = None → holds_tool k p = 0%Z.
Proof. intros Hp. unfold holds_tool. by rewrite Hp, decide_False. Qed.

Lemma holds_tool_in k key p :
  attempt_key p = Some key → holds_tool k p = if decide (key = Some k) then 1%Z else 0%Z.
Proof. intros Hp. unfold holds_tool. rewrite Hp. repeat case_decide; congruence. Qed.

Lemma acquire_tool_slots started c w x x1 :
  enter_attempt (tool_limit_key c) x x1 →
  slots_step (AwaitToolSlot started c w) (InTool started c) x (on_slot_acquired (tool_limit_key c) x1).
Proof.
  intros (H1 & H2 & H3 & H4). destruct (on_slot_acquired_fields (tool_limit_key c) x1) as (F1 & F2 & F3 & F4).
  constructor; rewrite ?F1, ?F2, ?F3, ?F4, ?H1, ?H2, ?H3, ?H4; unfold busy; cbn; try lia.
  - destruct (tool_semaphore _ _) as [[k n]|] eqn:Ht; [|done].
    apply tool_semaphore_Some in Ht as [_ Ht]. apply elem_of_dom_2 in Ht. set_solver.
  - intros k Hk. rewrite (holds_tool_in k (tool_limit_key c) (InTool started c)) by done.
    rewrite (holds_tool_idle k (AwaitToolSlot started c w)) by done.
    destruct (tool_semaphore _ _) as [[k' n]|] eqn:Ht.
    + apply tool_semaphore_Some in Ht as [Hkey Ht]. rewrite Hkey.
      destruct (decide (k = k')) as [->|Hne].
      * rewrite lookup_insert_eq, Ht, decide_True by done. simpl. lia.
      * rewrite lookup_insert_ne, decide_False by congruence. done.
    + rewrite tool_semaphore_None in Ht. rewrite decide_False; [done|].
      intros Hkey. by eapply Ht.
Qed.

Lemma release_slots_fields key x :
  global_permits (release_slots key x) = (global_permits x + 1)%Z ∧
  tool_permits (release_slots key x) = match tool_semaphore key x with
                    | Some (k, n) => <[k := (n + 1)%Z]> (tool_permits x)
                    | None => tool_permits x
                    end ∧
  inflight_global (release_slots key x) = Z.max 0 (inflight_global x - 1) ∧
  saturation_metrics (release_slots key x) = saturation_metrics x.
Proof.
  unfold release_slots, tool_semaphore, on_slot_released, set_inflight. simpl.
  destruct key as [k|]; simpl; [|done]. by destruct (tool_permits x !! k).
Qed.

Lemma release_slots_step started c x :
  slots_step (InTool started c) NotStarted x (release_slots (tool_limit_key c) x).
Proof.
  destruct (release_slots_fields (tool_limit_key c) x) as (F1 & F2 & F3 & F4).
  constructor; rewrite ?F1, ?F2, ?F3, ?F4; unfold busy; cbn; try lia.
  - destruct (tool_semaphore _ _) as [[k n]|] eqn:Ht; [|done].
    apply tool_semaphore_Some in Ht as [_ Ht]. apply elem_of_dom_2 in Ht. set_solver.
  - intros k Hk. rewrite (holds_tool_in k (tool_limit_key c) (InTool started c)) by done.
    rewrite (holds_tool_idle k NotStarted) by done.
    destruct (tool_semaphore _ _) as [[k' n]|] eqn:Ht.
    + apply tool_semaphore_Some in Ht as [Hkey Ht]. rewrite Hkey.
      destruct (decide (k = k')) as [->|Hne].
      * rewrite lookup_insert_eq, Ht, decide_True by done. simpl. lia.
      * rewrite lookup_insert_ne, decide_False by congruence. done.
    + rewrite tool_semaphore_None in Ht. rewrite decide_False; [done|].
      intros Hkey. by eapply Ht.
Qed.
(** ** What a suspended step has been through *)

(** Step [sid] is done and succeeded. *)
Definition dep_ok f (sid : string) : Prop :=
  is_Some (future_done f sid) ∧ step_status f !! sid ≫= se_status = Some "ok".

(** What a step reference is answered with: the text stored under the pointer
    the step has ended with ([T pid text]: [text] was read under [pid]), or
    [None] when the reference has a path. *)
Definition reference_answer (T : string → string → Prop) f (ref_value : string) (w : pyval) : Prop :=
  if decide ((parse_reference ref_value).2 = "")
  then ∃ pid text, future_done f (parse_reference ref_value).1 = Some pid ∧ T pid text ∧ w = PStr text
  else w = PNone.
(** The step referred to has succeeded, and this is its answer. *)
Definition reference_ok (T : string → string → Prop) f (ref_value : string) (w : pyval) : Prop :=
  dep_ok f (parse_reference ref_value).1 ∧ reference_answer T f ref_value w.

(** [answered D T r r']: from [r], resolution has come to [r'] with answers to
    step references that satisfy [D] and texts of pointers that satisfy [T]. *)
Inductive answered (D : string → pyval → Prop) (T : string → string → Prop) {A} : resolution A → resolution A → Prop :=
  | an_refl r : answered D T r r
  | an_step ref_value key k w r :
      D ref_value w → answered D T (k w) r → answered D T (NeedStep ref_value key k) r
  | an_pointer pid key k text r :
      T pid text → answered D T (k (PStr text)) r → answered D T (NeedPointer pid key k) r.

Lemma answered_trans D T {A} (r1 r2 r3 : resolution A) :
  answered D T r1 r2 → answered D T r2 r3 → answered D T r1 r3.
Proof. induction 1; [done| |]; intros; [eapply an_step; eauto|eapply an_pointer; eauto]. Qed.

Lemma answered_mono (D D' : string → pyval → Prop) (T T' : string → string → Prop) {A} (r1 r2 : resolution A) :
  (∀ x w, D x w → D' x w) → (∀ i t, T i t → T' i t) → answered D T r1 r2 → answered D' T' r1 r2.
Proof.
  intros HD HT. induction 1 as [|ref key k w|]; [apply an_refl|eapply an_step; eauto|eapply an_pointer; eauto].
Qed.

(** What was read of the store so far. *)
Context (Seen : string → string → Prop).
Definition stored s : Prop := ∀ pid text, retrieve_pointer pid (pointer_store (sm s)) = Ok text → Seen pid text.
Lemma stored_same s s' : same_store s s' → stored s → stored s'.
Proof. unfold stored. by intros ->. Qed.

Definition root step : resolution payload :=
  resolve_arguments (max_reference_resolution_depth (limits v)) (arguments step).

(** The step needs no approval, or was given one. *)
Definition approved step : Prop :=
  approval_required step = true →
  ∃ d, dict_get (approvals (macro v)) (step_id step) = Some d ∧ decision d = APPROVE.

(** The step is under no branch, or a branch that is done has selected it. *)
Definition selected f step : Prop :=
  branch_controllers v (step_id step) = ∅ ∨
  ∃ c, c ∈ branch_controllers v (step_id step) ∧ is_Some (future_done f c) ∧
       step_id step ∈ default ∅ (branch_decisions f !! c).

(** The attempt a step is in. *)
Record call_good f step (c : call_ctx) : Prop := {
  cg_first : (1 <= attempt_count c)%Z;
  cg_last : (attempt_count c <= Z.max 1 (max_attempts (retry_policy (macro v))))%Z;
  cg_delay : (delay c == initial_delay_seconds (retry_policy (macro v)) *
                backoff_multiplier (retry_policy (macro v)) ^ (attempt_count c - 1))%Q;
  cg_args : answered (reference_ok Seen f) Seen (root step) (Resolved (resolved_args c));
  cg_valid : validate_arguments rt_float_repr rt_jsonschema_validate rt_registry (tool_name step)
               (PDict (resolved_args c)) = Ok tt;
  cg_tool : is_ok (get_tool rt_registry (tool_name step)) = true;
  cg_key : tool_limit_key c = _tool_limit_key v step
}.

Definition cleared f step : Prop := approved step ∧ selected f step.

Definition pc_good f step p : Prop :=
  match p with
  | NotStarted | Finished _ | Crashed _ => True
  | AwaitControllers _ => branch_controllers v (step_id step) ≠ ∅
  | AwaitReference _ _ ref_value key k =>
      cleared f step ∧ answered (reference_ok Seen f) Seen (root step) (NeedStep ref_value key k) ∧
      (parse_reference ref_value).1 ∈ dom (step_futures f)
  | AwaitGlobalSlot _ c _ | AwaitToolSlot _ c _ | AwaitGlobalRate _ c _ _ | AwaitToolRate _ c _ _ _
  | InTool _ c => cleared f step ∧ call_good f step c
  | RetrySleep _ c _ => cleared f step ∧ call_good f step c ∧
      (attempt_count c < max_attempts (retry_policy (macro v)))%Z
  end.

Definition suspended p : bool :=
  match p with NotStarted | Finished _ | Crashed _ => false | _ => true end.

(** Slots may have moved, nothing else. *)
Record moved s s' : Prop := {
  mv_flow : flow s' = flow s;
  mv_clock : clock s' = clock s;
  mv_closed : sm_closed (sm s') = sm_closed (sm s)
}.

#[local] Instance moved_preorder : PreOrder moved.
Proof. split; [by constructor|]. intros a b c [] []. constructor; congruence. Qed.

Definition statuses : list string := ["ok"; "error"; "skipped"; "rejected"; "paused"].

(** Only a step that waits for a permit takes it. *)
Definition next_pc p p' : Prop :=
  ((holds_global p' <= holds_global p)%Z ∨ ∃ a c w, p = AwaitGlobalSlot a c w) ∧
  (attempt_key p' = attempt_key p ∨ attempt_key p' = None ∨
   ∃ a c w, p = AwaitToolSlot a c w ∧ attempt_key p' = Some (tool_limit_key c)).

(** How one stretch of a step's task ends: at the next suspension point, with
    the step settled, or with an exception, whatever it held given back. *)
Inductive ends step p s : run_state S → result pc → Prop :=
  | ends_suspended s' p' :
      moved s s' → slots_step p p' (slots s) (slots s') → suspended p' = true → next_pc p p' →
      pc_good (flow s) step p' → ends step p s s' (Ok p')
  | ends_settled s1 s' st q pid :
      moved s s1 → slots_step p NotStarted (slots s) (slots s1) →
      settles (step_id step) st pid s1 s' → _pointer_id q = Ok pid → st ∈ statuses →
      (st = "ok" → ∃ started c, p = InTool started c) → ends step p s s' (Ok (Finished q))
  | ends_raised s1 s' e :
      moved s s1 → slots_step p NotStarted (slots s) (slots s1) →
      own_state (step_id step) s1 s' → ends step p s s' (Raise e).

(** ** The stretches before the retry loop *)

Definition idle p : Prop := holds_global p = 0%Z ∧ attempt_key p = None.

Lemma idle_step p p' x : idle p → idle p' → slots_step p p' x x.
Proof. intros [H1 H2] [H3 H4]. apply slots_step_refl; congruence. Qed.

Lemma core_moved s s' : core s s' → moved s s'.
Proof. intros []. by constructor. Qed.

Section before.
Context (step : ToolCall) (p0 : pc) (s0 : run_state S).
Hypothesis Hopen : sm_closed (sm s0) = false.
Hypothesis Hpending : step_futures (flow s0) !! step_id step = Some None.
Hypothesis Hidle : idle p0.
Hypothesis Hstored : stored s0.

Lemma raise_ends s e : core s0 s → ends step p0 s0 s (Raise e).
Proof.
  intros Hs. eapply (ends_raised _ _ _ s0); [done| |by apply core_own].
  by apply idle_step.
Qed.

Lemma settle_ends status raw sum extra branch s :
  core s0 s → branch_ok (step_id step) branch → status ∈ statuses → status ≠ "ok" →
  wp (settle v step status raw sum extra branch) (ends step p0 s0) s.
Proof.
  intros Hs Hb Hst Hne. pose proof Hs as [Hfl _ _ Hcl]. apply wp_settle; rewrite ?Hfl, ?Hcl; try done.
  - intros s' e Hs'. apply raise_ends. by trans s.
  - intros s' q pid Hs' Hq. eapply (ends_settled _ _ _ s0 s' status q pid); try done.
    + by apply idle_step.
    + eapply own_settles; [by apply core_own|done].
Qed.

Lemma branch_skip_ends s : core s0 s → wp (skip_branch_not_selected v step) (ends step p0 s0) s.
Proof.
  intros Hs. apply settle_ends; [done|apply clear_branch_ok| |done].
  apply (bool_decide_unpack _). by vm_compute.
Qed.

Lemma exit_skip_ends s : core s0 s → wp (skip_early_exit v step) (ends step p0 s0) s.
Proof.
  intros Hs. apply settle_ends; [done|apply clear_branch_ok| |done].
  apply (bool_decide_unpack _). by vm_compute.
Qed.

Lemma pause_ends s : core s0 s → wp (pause_step v step) (ends step p0 s0) s.
Proof.
  intros Hs. apply settle_ends; [done|apply clear_branch_ok| |done].
  apply (bool_decide_unpack _). by vm_compute.
Qed.

Lemma reject_ends d s : core s0 s → wp (reject_step v step d) (ends step p0 s0) s.
Proof.
  intros Hs. unfold reject_step. cbv zeta. wp_step. apply wp_append. intros s1 [[]|e] H1; wp_step.
  - apply settle_ends; [by trans s|apply error_branch_ok| |done].
    apply (bool_decide_unpack _). by vm_compute.
  - apply raise_ends. by trans s.
Qed.

Lemma suspend_ends s p' :
  core s0 s → idle p' → suspended p' = true → pc_good (flow s0) step p' → ends step p0 s0 s (Ok p').
Proof.
  intros Hs Hp Hsus Hgood. constructor; [by apply core_moved| |done| |done].
  - rewrite (co_slots _ _ Hs). by apply idle_step.
  - destruct Hidle as [I1 I2], Hp as [P1 P2]. split; [left; by rewrite I1, P1|left; congruence].
Qed.

Lemma prepare_ends started args inputs s :
  core s0 s → cleared (flow s0) step → answered (reference_ok Seen (flow s0)) Seen (root step) (Resolved args) →
  wp (prepare_call v step started args inputs) (ends step p0 s0) s.
Proof.
  intros Hs Hcl Hargs. unfold prepare_call. repeat wp_step.
  destruct (validate_arguments _ _ _ _ _) as [[]|e] eqn:Hv; wp_step; [|by apply raise_ends].
  repeat wp_step. destruct (get_tool _ _) as [fn|e] eqn:Ht; wp_step; [|by apply raise_ends].
  repeat wp_step. apply suspend_ends; [done..|]. split; [done|].
  constructor; simpl; rewrite ?Ht; try done; try lia.
  change (1 - 1)%Z with 0%Z. simpl. ring.
Qed.

Lemma advance_ends started inputs r s :
  core s0 s → stored s → cleared (flow s0) step → answered (reference_ok Seen (flow s0)) Seen (root step) r →
  wp (advance v step started inputs r) (ends step p0 s0) s.
Proof.
  intros Hs Hstd Hcl. revert inputs s Hs Hstd. induction r as [args|e|ref key k IH|pid key k IH];
    intros inputs s Hs Hstd Hr; simpl.
  - by apply prepare_ends.
  - wp_step. by apply raise_ends.
  - repeat wp_step. rewrite (co_flow _ _ Hs). destruct (decide _) as [Hd|Hd]; wp_step.
    + apply suspend_ends; [done..|]. simpl. split_and!; [done..|]. by apply elem_of_dom.
    + by apply raise_ends.
  - wp_step. apply wp_retrieve. intros s' Hs' Hsame. destruct (retrieve_pointer _ _) as [text|e] eqn:Hread; wp_step.
    + apply IH; [by trans s|by eapply stored_same|]. eapply answered_trans; [exact Hr|]. eapply an_pointer, an_refl. by apply Hstd.
    + apply raise_ends. by trans s.
Qed.

Lemma py_split_cons sep t : ∃ h l, py_split sep t = h :: l.
Proof. destruct t as [|c t]; simpl; [by eexists _, _|]. case_decide; [by eexists _, _|]. destruct (py_split sep t); eauto. Qed.

Lemma deliver_ends started inputs ref key k pid s :
  core s0 s → stored s → cleared (flow s0) step → answered (reference_ok Seen (flow s0)) Seen (root step) (NeedStep ref key k) →
  future_done (flow s0) (parse_reference ref).1 = Some pid →
  wp (deliver_reference v step started inputs ref key k pid) (ends step p0 s0) s.
Proof.
  intros Hs Hstd Hcl Hr Hpid. unfold deliver_reference.
  destruct (parse_reference ref) as [dep path] eqn:Href. repeat wp_step. rewrite (co_flow _ _ Hs).
  destruct (decide _) as [Hst|Hst]; [|wp_step; by apply raise_ends].
  wp_step. apply wp_retrieve. intros s' Hs' Hsame.
  destruct (retrieve_pointer _ _) as [text|e] eqn:Hread; wp_step; [|apply raise_ends; by trans s].
  apply advance_ends; [by trans s|by eapply stored_same|done|]. eapply answered_trans; [exact Hr|].
  apply (an_step _ _ _ _ _ (if decide (path = "") then PStr text
    else py_walk (PStr text) (py_split "."%char path))); [|apply an_refl].
  split; [rewrite Href; split; [by rewrite Hpid|done]|]. unfold reference_answer. rewrite Href. simpl in *.
  destruct (decide (path = "")); [exists pid, text; split_and!; [done|by apply Hstd|done]|].
  by destruct (py_split_cons "."%char path) as (h & l & ->).
Qed.

Lemma after_controllers_ends started s :
  core s0 s → stored s → selected (flow s0) step → wp (after_controllers v step started) (ends step p0 s0) s.
Proof.
  intros Hs Hstd Hsel. unfold after_controllers. repeat wp_step. rewrite (co_flow _ _ Hs).
  destruct (early_exit (flow s0)); [by apply exit_skip_ends|].
  destruct (approval_required step) eqn:Happ.
  2: { apply advance_ends; [done|done| |apply an_refl]. split; [|done]. intros ?. congruence. }
  wp_step. apply wp_append_same. intros s1 [[]|e] H1 Same1; wp_step; [|apply raise_ends; by trans s].
  assert (core s0 s1) as H01 by (by trans s).
  destruct (dict_get (approvals (macro v)) (step_id step)) as [d|] eqn:Hd; [|by apply pause_ends].
  destruct (decide (decision d = REJECT)) as [|Hd']; [by apply reject_ends|].
  wp_step. apply wp_append_same. intros s2 [[]|e] H2 Same2; wp_step; [|apply raise_ends; by trans s1].
  apply advance_ends; [by trans s1|by eapply stored_same, stored_same| |apply an_refl]. split; [|done]. intros _. exists d. split; [done|].
  by destruct (decision d).
Qed.

Lemma controllers_woken_ends started s :
  core s0 s → stored s →
  set_Forall (λ c, is_Some (future_done (flow s0) c)) (branch_controllers v (step_id step)) →
  wp (controllers_woken v step started) (ends step p0 s0) s.
Proof.
  intros Hs Hstd Hall. unfold controllers_woken. repeat wp_step. rewrite (co_flow _ _ Hs).
  case_bool_decide as Hsel; [|by apply branch_skip_ends].
  destruct Hsel as (c & Hc & Hin). apply after_controllers_ends; [done|done|]. right. exists c.
  split_and!; [done| |done]. by apply Hall.
Qed.
End before.

(** ** The retry loop *)

Lemma wp_catch {A} (body : E A) handler (Q : run_state S → result A → Prop) s :
  wp body (λ s' r, match r with Ok _ => Q s' r | Raise e => wp (handler e) Q s' end) s →
  wp (st_catch body handler) Q s.
Proof. unfold wp, st_catch. by destruct (body s) as [s' [a|e]]. Qed.

Lemma wp_mod_slots g (Q : run_state S → result unit → Prop) s :
  Q (set_slots (g (slots s)) s) (Ok tt) → wp (mod_slots g) Q s.
Proof. done. Qed.

(** An exception ends a step through [fail_step]. *)
Lemma in_step_ends step p0 s0 started n (body : E pc) :
  sm_closed (sm s0) = false → step_futures (flow s0) !! step_id step = Some None →
  wp body (ends step p0 s0) s0 → wp (in_step v step started n body) (ends step p0 s0) s0.
Proof.
  intros Hopen Hpend Hb. unfold in_step. apply wp_catch. eapply wp_mono; [exact Hb|].
  intros s' [p'|e] He; [done|]. inversion He as [|s1 s2 st q pid| s1 s2 e' Hm Hss Ho]; subst.
  assert (sm_closed (sm s') = false) as Hcl by (by rewrite (os_closed _ _ _ Ho), (mv_closed _ _ Hm)).
  assert (step_futures (flow s') !! step_id step = Some None) as Hf.
  { by rewrite (ow_futures _ _ _ (os_own _ _ _ Ho)), (mv_flow _ _ Hm). }
  apply wp_fail; [done|done| |].
  - intros s3 e3 H3. eapply ends_raised; [exact Hm|done|]. by trans s'.
  - intros s3 q pid H3 Hq. eapply (ends_settled _ _ _ s1 s3 "error" q pid); try done.
    + by eapply own_settles.
    + apply (bool_decide_unpack _). by vm_compute.
Qed.

Section attempt.
Context (step : ToolCall) (p0 : pc) (s0 : run_state S) (started : Q) (c : call_ctx).
Hypothesis Hheld : holds_global p0 = 1%Z.
Hypothesis Hkey : attempt_key p0 = Some (tool_limit_key c) ∨ ∃ a w, p0 = AwaitToolSlot a c w.
Hypothesis Hcleared : cleared (flow s0) step.
Hypothesis Hgood : call_good (flow s0) step c.

(** The step has both its slots. *)
Definition inside s : Prop := moved s0 s ∧ slots_step p0 (InTool started c) (slots s0) (slots s).

Lemma inside_core s s' : inside s → core s s' → inside s'.
Proof.
  intros [Hm Hss] Hc. split; [trans s; [done|by apply core_moved]|]. by rewrite (co_slots _ _ Hc).
Qed.

Lemma inside_slots s x :
  inside s → slots_step (InTool started c) (InTool started c) (slots s) x → inside (set_slots x s).
Proof.
  intros [[] Hss] Hx. split; [by constructor|]. eapply slots_step_trans; [|exact Hss|exact Hx]. done.
Qed.

Lemma inside_suspended s p' :
  inside s → holds_global p' = 1%Z → attempt_key p' = Some (tool_limit_key c) →
  suspended p' = true → pc_good (flow s0) step p' → ends step p0 s0 s (Ok p').
Proof.
  intros [Hm Hss] Hg Hk Hsus Hp. constructor; [done| |done| |done].
  - eapply slots_step_trans; [|exact Hss|by apply slots_step_refl]. done.
  - split; [left; by rewrite Hg, Hheld|]. destruct Hkey as [?|(a & w & ->)]; [left; congruence|].
    right; right. by exists a, c, w.
Qed.

(** After [release], the step holds nothing. *)
Definition outside s : Prop := moved s0 s ∧ slots_step p0 NotStarted (slots s0) (slots s).

Lemma wp_release (Q : run_state S → result unit → Prop) s :
  inside s → (∀ s', outside s' → clock s' = clock s → Q s' (Ok tt)) → wp (release c) Q s.
Proof.
  intros [Hm Hss] HQ. unfold release. apply wp_mod_slots, HQ; [|done]. destruct Hm. split; [by constructor|].
  eapply slots_step_trans; [|exact Hss|apply release_slots_step]. done.
Qed.

Lemma release_raise_ends s e :
  inside s → wp (release c;; st_raise e) (ends step p0 s0) s.
Proof.
  intros Hs. wp_step. apply wp_release; [done|]. intros s' [Hm Hss] _. repeat wp_step.
  by eapply ends_raised.
Qed.

Lemma attempt_failed_ends s e :
  inside s → wp (attempt_failed v step started c e) (ends step p0 s0) s.
Proof.
  intros Hs. unfold attempt_failed. cbv zeta.
  destruct (_ || _) eqn:Hstop; [by apply release_raise_ends|].
  apply orb_false_iff in Hstop as [_ Hmax]. apply Z.leb_gt in Hmax.
  apply wp_catch. wp_step. apply wp_append. intros s1 [[]|e1] H1; wp_step.
  - repeat wp_step. apply inside_suspended; try done. by eapply inside_core.
  - apply release_raise_ends. by eapply inside_core.
Qed.

(** Inside an attempt, an exception leaves the slots to [attempt_failed]. *)
Definition attempt_post s (r : result pc) : Prop :=
  match r with Ok p' => ends step p0 s0 s (Ok p') | Raise _ => inside s end.

Lemma in_attempt_ends body s :
  wp body attempt_post s → wp (in_attempt v step started c body) (ends step p0 s0) s.
Proof.
  intros Hb. unfold in_attempt. apply wp_catch. eapply wp_mono; [exact Hb|].
  intros s' [p'|e]; [done|]. apply attempt_failed_ends.
Qed.

Lemma start_call_post b s : inside s → wp (start_call v step started c b) attempt_post s.
Proof.
  intros Hs. unfold start_call. wp_step. apply wp_mod_slots. wp_step. wp_step. apply wp_append.
  set (s1 := set_slots _ s). assert (inside s1) as H1.
  { apply inside_slots; [done|]. destruct b; [|by apply slots_step_refl]. by apply slots_step_neutral. }
  intros s2 [[]|e] H2; wp_step; [|by eapply inside_core].
  wp_step. apply inside_suspended; try done. by eapply inside_core.
Qed.

Lemma tool_rate_post limited waited s :
  inside s → wp (tool_rate_pass v step started c limited waited) attempt_post s.
Proof.
  intros Hs. unfold tool_rate_pass. repeat wp_step.
  destruct (tool_bucket c (slots s)) as [[k b]|]; [|by apply start_call_post].
  destruct (try_acquire (clock s) b) as [b' wait]. wp_step. apply wp_mod_slots. wp_step.
  set (s1 := set_slots _ s).
  assert (inside s1) as H1 by (by apply inside_slots; [|apply slots_step_neutral]).
  destruct wait as [w|]; [wp_step; by apply inside_suspended|].
  wp_step. apply wp_mod_slots. wp_step. apply start_call_post. apply inside_slots; [done|].
  apply slots_step_neutral; try done. by apply record_wait_peak.
Qed.

Lemma global_rate_post waited s :
  inside s → wp (global_rate_pass v step started c waited) attempt_post s.
Proof.
  intros Hs. unfold global_rate_pass. repeat wp_step.
  destruct (global_rate_bucket (slots s)) as [b|]; [|by apply tool_rate_post].
  destruct (try_acquire (clock s) b) as [b' wait]. wp_step. apply wp_mod_slots. wp_step.
  set (s1 := set_slots _ s).
  assert (inside s1) as H1 by (by apply inside_slots; [|apply slots_step_neutral]).
  destruct wait as [w|]; [wp_step; by apply inside_suspended|].
  wp_step. apply wp_mod_slots. wp_step. apply tool_rate_post. apply inside_slots; [done|].
  apply slots_step_neutral; try done. by apply record_wait_peak.
Qed.

Lemma retry_wake_ends s :
  inside s → (attempt_count c < max_attempts (retry_policy (macro v)))%Z →
  wp (retry_wake v started c) (ends step p0 s0) s.
Proof.
  intros Hs Hmax. unfold retry_wake. wp_step. apply wp_release; [done|]. intros s' [Hm Hss] _. repeat wp_step.
  constructor; [done| |done| |].
  - by eapply slots_step_to.
  - split; [left; by rewrite Hheld|]. by right; left.
  - split; [done|]. destruct Hgood as [H1 H2 H3 H4 H5 H6 H7]. constructor; simpl; try done; try lia.
    rewrite H3. replace (attempt_count c + 1 - 1)%Z with (attempt_count c - 1 + 1)%Z by lia.
    rewrite Qpower_plus' by lia. simpl (_ ^ 1)%Q. ring.
Qed.
Lemma complete_ends raw s :
  p0 = InTool started c → sm_closed (sm s0) = false →
  step_futures (flow s0) !! step_id step = Some None → outside s →
  wp (complete_step v step started c raw) (ends step p0 s0) s.
Proof.
  intros Hp0 Hopen Hpend [Hm Hss]. set (sid := step_id step) in *.
  assert (∀ s' e, own_state sid s s' → ends step p0 s0 s' (Raise e)) as Hraise.
  { intros s' e Ho. by eapply ends_raised. }
  unfold complete_step. wp_step. apply wp_store. intros s1 [out|e] H1 Ho; wp_step.
  2: { apply Hraise. by apply core_own. }
  repeat wp_step. unfold record_status, mod_flow. repeat wp_step.
  set (s2 := set_flow _ s1). fold sid in s2.
  assert (own_state sid s s2) as O2.
  { trans s1; [by apply core_own|]. constructor; [apply own_status|done..]. }
  apply wp_branch_true. intros s3 r H3 Hst3.
  assert (own_state sid s s3) as O3 by (by trans s2).
  destruct r as [[]|e]; wp_step; [|by apply Hraise].
  wp_step. apply wp_append. intros s4 r H4.
  assert (own_state sid s s4) as O4 by (trans s3; [done|by apply core_own]).
  destruct r as [[]|e]; wp_step; [|by apply Hraise].
  wp_step. unfold set_result, mod_flow. repeat wp_step. fold sid.
  apply wp_persist.
  { simpl. by rewrite (os_closed _ _ _ O4), (mv_closed _ _ Hm). }
  intros s5 H5. repeat wp_step.
  eapply (ends_settled _ _ _ s s5 "ok" _ out.1); try done; [| |by eauto].
  - eapply settles_intro; [exact O4| | |exact H5|done].
    + rewrite (co_flow _ _ H4), Hst3. simpl. by rewrite lookup_insert_eq.
    + by rewrite (ow_futures _ _ _ (os_own _ _ _ O4)), (mv_flow _ _ Hm).
  - apply (bool_decide_unpack _). by vm_compute.
Qed.

Lemma tool_returned_ends outcome :
  p0 = InTool started c → sm_closed (sm s0) = false →
  step_futures (flow s0) !! step_id step = Some None →
  wp (tool_returned v step started c outcome) (ends step p0 s0) s0.
Proof.
  intros Hp0 Hopen Hpend.
  assert (inside s0) as Hin by (unfold inside; rewrite Hp0; split; [done|by apply slots_step_refl]).
  destruct outcome as [raw|e]; simpl; [|by apply attempt_failed_ends].
  wp_step. apply wp_release; [done|]. intros s1 H1 _. wp_step. by apply complete_ends.
Qed.
End attempt.

Lemma global_slot_ends step s0 started c w :
  cleared (flow s0) step → call_good (flow s0) step c →
  wp (global_slot_acquired started c w) (ends step (AwaitGlobalSlot started c w) s0) s0.
Proof.
  intros Hcl Hg. unfold global_slot_acquired. repeat wp_step. apply wp_mod_slots. repeat wp_step.
  constructor; [by constructor| |done| |done]; simpl.
  - apply acquire_global_slots; [|done]. by apply record_wait_peak.
  - split; [right; by eexists _, _, _|by left].
Qed.

Lemma tool_slot_ends step s0 started c w :
  cleared (flow s0) step → call_good (flow s0) step c →
  wp (tool_slot_acquired v step started c w) (ends step (AwaitToolSlot started c w) s0) s0.
Proof.
  intros Hcl Hg. unfold tool_slot_acquired. repeat wp_step.
  assert (∀ s1, moved s0 s1 → enter_attempt (tool_limit_key c) (slots s0) (slots s1) →
    wp (mod_slots (on_slot_acquired (tool_limit_key c));;
        in_attempt v step started c (global_rate_pass v step started c 0))
      (ends step (AwaitToolSlot started c w) s0) s1) as Hnext.
  { intros s1 [] He. wp_step. apply wp_mod_slots. wp_step. apply in_attempt_ends; [done|eauto|done..|].
    apply global_rate_post; [done|eauto|done..|]. split; [by constructor|]. by apply acquire_tool_slots. }
  destruct (tool_semaphore (tool_limit_key c) (slots s0)) as [[k n]|] eqn:Ht.
  - apply wp_mod_slots. wp_step. apply Hnext; [by constructor|]. unfold enter_attempt. rewrite Ht. simpl.
    split_and!; try done. by apply record_wait_peak.
  - wp_step. wp_step. apply Hnext; [done|]. unfold enter_attempt. by rewrite Ht.
Qed.
(** ** Whole tasks *)

(** The checkpoint has a final outcome for the step. *)
Definition replayable f (sid pid : string) : Prop :=
  step_status f !! sid ≫= se_pointer_id = Some pid ∧ pid ≠ "" ∧
  terminal_status (step_status f !! sid ≫= se_status) = true.

Definition pending f (sid : string) : Prop := step_futures f !! sid = Some None.

Inductive task_ends step p s : run_state S → result pc → Prop :=
  | task_ran s' r : pending (flow s) (step_id step) → ends step p s s' r → task_ends step p s s' r
  | task_replayed s' r pid :
      p = NotStarted → replayable (flow s) (step_id step) pid →
      core (set_flow (add_replayed (step_id step) (set_future (step_id step) pid (flow s))) s) s' →
      (∀ p', r = Ok p' → ∃ q, p' = Finished q ∧ _pointer_id q = Ok pid) →
      task_ends step p s s' r.

(** What a step's program counter says about its future. *)
Definition future_inv f (sid : string) p : Prop :=
  match p with
  | NotStarted => pending f sid ∨ ∃ pid, replayable f sid pid ∧ step_futures f !! sid = Some (Some pid)
  | Finished q => ∃ st pid, settled sid st pid f ∧ _pointer_id q = Ok pid ∧ st ∈ statuses
  | Crashed _ => True
  | _ => pending f sid
  end.

Lemma str_or_Some o pid : str_or o "" = pid → pid ≠ "" → o = Some pid.
Proof. destruct o as [t|]; simpl; [|congruence]. case_decide; congruence. Qed.

Lemma begin_task step s :
  sm_closed (sm s) = false → stored s → future_inv (flow s) (step_id step) NotStarted →
  wp (begin_step v step) (task_ends step NotStarted s) s.
Proof.
  intros Hopen Hstd Hf. unfold begin_step. cbv zeta. repeat wp_step.
  destruct (terminal_status _ && _) eqn:Hr.
  - apply andb_true_iff in Hr as [Ht Hpid]. apply negb_true_iff, bool_decide_eq_false in Hpid.
    set (pid := str_or _ "") in *.
    assert (replayable (flow s) (step_id step) pid) as Hrep.
    { split_and!; [|done|done]. apply str_or_Some; [|done]. done. }
    unfold set_result, mod_flow. repeat wp_step. apply wp_append. intros s1 r H1.
    destruct r as [[]|e]; wp_step; [|by eapply task_replayed].
    wp_step. apply wp_hydrate. intros s2 [q|e] H2 Hq; repeat wp_step.
    + eapply task_replayed; [done|done|by trans s1|]. intros p' [= <-]. exists q. split; [done|].
      rewrite Hq. simpl. by rewrite decide_False.
    + eapply task_replayed; [done|done|by trans s1|done].
  - assert (pending (flow s) (step_id step)) as Hp.
    { destruct Hf as [|(pid & (H1 & H2 & H3) & _)]; [done|]. rewrite H1, H3 in Hr. simpl in Hr.
      rewrite decide_False, bool_decide_false in Hr by done. done. }
    wp_step. apply wp_append_same. intros s1 r H1 Same1. apply (stored_same _ _ Same1) in Hstd.
    destruct r as [[]|e]; wp_step; [|constructor; [done|]; by apply raise_ends].
    repeat wp_step.
    assert (∀ s' r, ends step NotStarted s1 s' r → task_ends step NotStarted s s' r) as Hback.
    { intros s' r He. destruct H1 as [F1 S1 C1 L1]. constructor; [done|].
      destruct He as [s' p' [] ? ? ? Hg|sa s' st q pid [] ? ? ? ? ?|sa s' e [] ? ?].
      - constructor; [constructor; congruence|congruence|done|done|congruence].
      - eapply ends_settled; [| |done..]; [constructor; congruence|congruence].
      - eapply ends_raised; [| |done]; [constructor; congruence|congruence]. }
    eapply wp_mono; [|exact Hback]. destruct H1 as [F1 S1 C1 L1].
    apply in_step_ends; [congruence|by rewrite F1|]. destruct (decide _) as [He|He].
    + apply after_controllers_ends; rewrite ?F1, ?L1; try done. by left.
    + wp_step. by apply suspend_ends.
Qed.

Lemma resume_task step p s body :
  resume_step v step p s = Some body → sm_closed (sm s) = false → stored s →
  pc_good (flow s) step p → future_inv (flow s) (step_id step) p →
  wp body (task_ends step p s) s.
Proof.
  intros Hb Hopen Hstd Hg Hf.
  assert (pending (flow s) (step_id step) → ∀ started n (b : E pc), wp b (ends step p s) s →
    wp (in_step v step started n b) (task_ends step p s) s) as Hin.
  { intros Hp started n b Hw. eapply wp_mono; [by apply in_step_ends|]. by constructor. }
  destruct p as [|started|started inputs ref key k|started c w|started c w|started c w w'|started c l w w'|
    started c|started c w| |]; simpl in *; try discriminate.
  - injection Hb as <-. by apply begin_task.
  - destruct (decide _) as [Hall|]; [|done]. injection Hb as <-. apply Hin; [done|].
    by apply controllers_woken_ends.
  - destruct (future_done (flow s) (parse_reference ref).1) as [pid|] eqn:Hpid; [|done].
    injection Hb as <-. apply Hin; [done|]. destruct Hg as (? & ? & ?). by apply deliver_ends.
  - destruct (0 <? _)%Z; [|done]. injection Hb as <-. apply Hin; [done|]. by destruct Hg; apply global_slot_ends.
  - destruct (match tool_semaphore _ _ with Some _ => _ | None => _ end); [|done]. injection Hb as <-.
    apply Hin; [done|]. by destruct Hg; apply tool_slot_ends.
  - destruct (Qle_bool w' (clock s)); [|done]. injection Hb as <-. apply Hin; [done|].
    destruct Hg. apply in_attempt_ends; [done|by left|done..|].
    apply global_rate_post; [done|by left|done..|]. split; [done|].
    by apply slots_step_refl.
  - destruct (Qle_bool w' (clock s)); [|done]. injection Hb as <-. apply Hin; [done|].
    destruct Hg. apply in_attempt_ends; [done|by left|done..|].
    apply tool_rate_post; [done|by left|done..|]. split; [done|].
    by apply slots_step_refl.
  - destruct (Qle_bool w (clock s)); [|done]. injection Hb as <-. apply Hin; [done|].
    destruct Hg as (? & ? & ?). apply retry_wake_ends; [done..| |done].
    split; [done|]. by apply slots_step_refl.
Qed.

Lemma return_task step started c s outcome :
  sm_closed (sm s) = false → pc_good (flow s) step (InTool started c) → pending (flow s) (step_id step) →
  wp (in_step v step started (attempt_count c) (tool_returned v step started c outcome))
    (task_ends step (InTool started c) s) s.
Proof.
  intros Hopen [Hcl Hg] Hp. eapply wp_mono; [|by constructor]. apply in_step_ends; [done..|].
  apply tool_returned_ends; try done. by left.
Qed.
(** ** What a task leaves to the others *)

(** The slot bookkeeping, whatever the outcome. *)
Definition pc_of (r : result pc) : pc := match r with Ok p' => p' | Raise e => Crashed e end.

Lemma task_slots step p s s' r : task_ends step p s s' r → slots_step p (pc_of r) (slots s) (slots s').
Proof.
  intros [s1 r1 Hp He|s1 r1 pid -> Hr Hc Hq].
  - destruct He as [s1 p' Hm Hss _ _ _|sa s1 st q pid Hm Hss Hset _ _ _|sa s1 e Hm Hss Ho]; [done| |].
    + rewrite (sl_slots _ _ _ _ _ Hset). by eapply slots_step_to.
    + rewrite (os_slots _ _ _ Ho). by eapply slots_step_to.
  - rewrite (co_slots _ _ Hc). simpl. destruct r1 as [p'|e]; [|by apply slots_step_refl].
    destruct (Hq p' eq_refl) as (q & -> & _). by apply slots_step_refl.
Qed.

Lemma task_open step p s s' r : task_ends step p s s' r → sm_closed (sm s') = sm_closed (sm s).
Proof.
  intros [s1 r1 Hp He|s1 r1 pid -> Hr Hc Hq].
  - destruct He as [s1 p' Hm Hss _ _ _|sa s1 st q pid Hm Hss Hset _ _ _|sa s1 e Hm Hss Ho].
    + by apply mv_closed.
    + by rewrite (sl_closed _ _ _ _ _ Hset), (mv_closed _ _ Hm).
    + by rewrite (os_closed _ _ _ Ho), (mv_closed _ _ Hm).
  - by rewrite (co_closed _ _ Hc).
Qed.

(** The entries of every other step are as they were. *)
Lemma task_others step p s s' r j :
  task_ends step p s s' r → j ≠ step_id step →
  step_futures (flow s') !! j = step_futures (flow s) !! j ∧
  step_status (flow s') !! j = step_status (flow s) !! j ∧
  branch_decisions (flow s') !! j = branch_decisions (flow s) !! j.
Proof.
  intros [s1 r1 Hp He|s1 r1 pid -> Hr Hc Hq] Hj.
  - destruct He as [s1 p' Hm Hss _ _ _|sa s1 st q pid Hm Hss Hset _ _ _|sa s1 e Hm Hss [[Hf Hst Hb _] _ _ _]].
    + by rewrite (mv_flow _ _ Hm).
    + rewrite <- (mv_flow _ _ Hm). destruct Hset. auto.
    + rewrite <- (mv_flow _ _ Hm), Hf. auto.
  - rewrite (co_flow _ _ Hc). simpl. split_and!; try done.
    destruct (step_futures (flow s) !! step_id step) as [[?|]|]; try done. by rewrite lookup_insert_ne.
Qed.

Lemma task_domain step p s s' r :
  task_ends step p s s' r → dom (step_futures (flow s')) = dom (step_futures (flow s)).
Proof.
  intros Ht. apply set_eq. intros j. rewrite !elem_of_dom.
  destruct (decide (j = step_id step)) as [->|Hj].
  2: { by destruct (task_others _ _ _ _ _ j Ht Hj) as [-> _]. }
  destruct Ht as [s1 r1 Hp He|s1 r1 pid -> Hr Hc Hq].
  - unfold pending in Hp. rewrite Hp.
    destruct He as [s1 p' Hm Hss _ _ _|sa s1 st q pid Hm Hss Hset _ _ _|sa s1 e Hm Hss [[Hf _ _ _] _ _ _]].
    + by rewrite (mv_flow _ _ Hm), Hp.
    + destruct Hset as [[_ ->]]. by split; eexists.
    + by rewrite Hf, (mv_flow _ _ Hm), Hp.
  - rewrite (co_flow _ _ Hc). simpl.
    destruct (step_futures (flow s) !! step_id step) as [[?|]|] eqn:Hf; rewrite ?Hf; try done.
    rewrite lookup_insert_eq. by split; eexists.
Qed.

(** A step that is done stays as it is. *)
Lemma task_frozen step p s s' r j :
  task_ends step p s s' r → is_Some (future_done (flow s) j) →
  step_futures (flow s') !! j = step_futures (flow s) !! j ∧
  step_status (flow s') !! j = step_status (flow s) !! j ∧
  branch_decisions (flow s') !! j = branch_decisions (flow s) !! j.
Proof.
  intros Ht Hd. destruct (decide (j = step_id step)) as [->|Hj]; [|by eapply task_others].
  destruct Ht as [s1 r1 Hp He|s1 r1 pid -> Hr Hc Hq].
  - unfold future_done in Hd. rewrite Hp in Hd. by destruct Hd.
  - rewrite (co_flow _ _ Hc). simpl. split_and!; try done. unfold future_done in Hd.
    destruct (step_futures (flow s) !! step_id step) as [[?|]|] eqn:Hf; [done|by destruct Hd|done].
Qed.

Lemma done_frozen f f' j :
  step_futures f' !! j = step_futures f !! j → future_done f' j = future_done f j.
Proof. unfold future_done. by intros ->. Qed.

Lemma good_mono f f' step p :
  (∀ j, is_Some (future_done f j) →
    step_futures f' !! j = step_futures f !! j ∧ step_status f' !! j = step_status f !! j ∧
    branch_decisions f' !! j = branch_decisions f !! j) →
  dom (step_futures f') = dom (step_futures f) →
  pc_good f step p → pc_good f' step p.
Proof.
  intros Hfr Hdom.
  assert (∀ x w, reference_ok Seen f x w → reference_ok Seen f' x w) as Hdep.
  { intros x w [[Hd Hst] Hw]. destruct (Hfr _ Hd) as (Hf & Hs & _). split; [split; [by rewrite (done_frozen _ _ _ Hf)|by rewrite Hs]|].
    revert Hw. unfold reference_answer. by rewrite (done_frozen _ _ _ Hf). }
  assert (cleared f step → cleared f' step) as Hcl.
  { intros [Ha Hs]. split; [done|]. destruct Hs as [Hs|(c & Hc & Hd & Hin)]; [by left|right].
    destruct (Hfr c Hd) as (Hf & _ & Hb). exists c. rewrite (done_frozen _ _ _ Hf), Hb. done. }
  assert (∀ c, call_good f step c → call_good f' step c) as Hcg.
  { intros c []. constructor; try done. by eapply (answered_mono _ _ Seen). }
  destruct p; simpl; rewrite ?Hdom; try done; try (intros [? ?]; by auto);
    try (intros (? & ? & ?); by auto).
  intros (? & ? & ?). split_and!; [auto| |done]. by eapply (answered_mono _ _ Seen).
Qed.
(** ** Sums over the steps *)

Definition total (w : pc → Z) (m : gmap string pc) : Z := map_fold (λ _ p acc, w p + acc)%Z 0%Z m.

Lemma total_insert_new w m i p : m !! i = None → total w (<[i := p]> m) = (w p + total w m)%Z.
Proof. intros Hi. unfold total. apply (map_fold_insert_L (λ _ p acc, w p + acc)%Z); [|done]. intros. lia. Qed.

Lemma total_insert w m i p p' :
  m !! i = Some p → (total w (<[i := p']> m) + w p = total w m + w p')%Z.
Proof.
  intros Hi. rewrite <- insert_delete_eq, total_insert_new by apply lookup_delete_eq.
  rewrite <- (insert_id m i p) at 2 by done. rewrite <- (insert_delete_eq m i p).
  rewrite total_insert_new by apply lookup_delete_eq. lia.
Qed.

Lemma total_nonneg w m : (∀ p, 0 <= w p)%Z → (0 <= total w m)%Z.
Proof.
  intros Hw. unfold total. apply (map_fold_weak_ind (λ r _, 0 <= r)%Z); [done|].
  intros i p m' r _ Hr. specialize (Hw p). lia.
Qed.

Lemma total_le w w' m : (∀ p, w p <= w' p)%Z → (total w m <= total w' m)%Z.
Proof.
  intros Hw. induction m as [|i p m Hi _ IH] using map_first_key_ind; [done|].
  rewrite !total_insert_new by done. specialize (Hw p). lia.
Qed.

Lemma total_member w m i p : (∀ p, 0 <= w p)%Z → m !! i = Some p → (w p <= total w m)%Z.
Proof.
  intros Hw Hi. rewrite <- (insert_id m i p), <- (insert_delete_eq m i p) by done.
  rewrite total_insert_new by apply lookup_delete_eq.
  pose proof (total_nonneg w (delete i m) Hw). lia.
Qed.

Lemma total_size w m : (total w m = 0 → ∀ i p, (∀ p, 0 <= w p) → m !! i = Some p → w p = 0)%Z.
Proof. intros Ht i p Hw Hi. pose proof (total_member w m i p Hw Hi). specialize (Hw p). lia. Qed.

Lemma weights_nonneg k p :
  (0 <= holds_global p)%Z ∧ (0 <= busy p)%Z ∧ (0 <= holds_tool k p)%Z ∧ (busy p <= holds_global p)%Z ∧
  (holds_tool k p <= busy p)%Z.
Proof.
  unfold busy, holds_tool. destruct p; cbn; split_and!; try lia;
    repeat case_decide; simplify_eq; lia.
Qed.

(** ** The invariant *)



(** The permits of the limits. *)
Definition tool_limits : gmap string Z := tool_permits (initial_slots (limits v) 0).

Record slots_inv (x : slot_state) (m : gmap string pc) : Prop := {
  si_global : (global_permits x + total holds_global m = max_global_concurrency (limits v))%Z;
  si_nonneg : (0 <= global_permits x)%Z;
  si_dom : dom (tool_permits x) = dom tool_limits;
  si_tool k n : tool_limits !! k = Some n →
    (default 0 (tool_permits x !! k) + total (holds_tool k) m = n)%Z;
  si_tool_nonneg k : (0 <= default 0 (tool_permits x !! k))%Z;
  si_inflight : inflight_global x = total busy m;
  si_peak : (max_inflight_global (saturation_metrics x) <= max_global_concurrency (limits v))%Z
}.

(** A permit is taken only when there is one. *)
Definition permit_ok (x : slot_state) p p' : Prop :=
  (holds_global p < holds_global p' → 0 < global_permits x)%Z ∧
  (∀ k, k ∈ dom (tool_permits x) → holds_tool k p < holds_tool k p' → 0 < default 0 (tool_permits x !! k))%Z.

Lemma slots_inv_step x x' m i p p' :
  slots_inv x m → m !! i = Some p → slots_step p p' x x' → permit_ok x p p' →
  slots_inv x' (<[i := p']> m).
Proof.
  intros [G N D T TN I P] Hi [SG SD ST SB SP] [OG OT].
  assert (0 <= holds_global p ∧ 0 <= holds_global p' ∧ holds_global p' <= 1)%Z as Hw.
  { set (k := ""). pose proof (weights_nonneg k p) as (? & _). pose proof (weights_nonneg k p') as (? & _).
    split_and!; try done. by destruct p'. }
  pose proof (total_member holds_global m i p (λ p, proj1 (weights_nonneg "" p)) Hi) as Hmg.
  pose proof (total_member busy m i p (λ p, proj1 (proj2 (weights_nonneg "" p))) Hi) as Hmb.
  pose proof (total_insert holds_global m i p p' Hi) as Tg.
  pose proof (total_insert busy m i p p' Hi) as Tb.
  assert (busy p <= inflight_global x)%Z as Hb by lia.
  specialize (SB Hb).
  constructor.
  - lia.
  - destruct (Z.lt_ge_cases (holds_global p) (holds_global p')) as [Hlt|]; [|lia].
    specialize (OG Hlt). lia.
  - congruence.
  - intros k n Hk. pose proof (total_insert (holds_tool k) m i p p' Hi) as Tt.
    assert (k ∈ dom (tool_permits x)) as Hd by (rewrite D; by eapply elem_of_dom_2).
    specialize (ST k Hd). specialize (T k n Hk). lia.
  - intros k. destruct (decide (k ∈ dom (tool_permits x))) as [Hd|Hd].
    + specialize (ST k Hd). specialize (TN k).
      destruct (Z.lt_ge_cases (holds_tool k p) (holds_tool k p')) as [Hlt|]; [|lia].
      specialize (OT k Hd Hlt). pose proof (weights_nonneg k p) as (_ & _ & ? & _).
      assert (holds_tool k p' <= 1)%Z by (unfold holds_tool; case_decide; lia). lia.
    + rewrite <- SD in Hd. apply not_elem_of_dom in Hd. rewrite Hd. simpl. lia.
  - lia.
  - apply SP; [done| |done].
    assert (total busy (delete i m) <= total holds_global (delete i m))%Z as Hle.
    { apply total_le. intros q. by pose proof (weights_nonneg "" q) as (_ & _ & _ & ? & _). }
    assert (total holds_global m = holds_global p + total holds_global (delete i m))%Z as E1.
    { rewrite <- (insert_id m i p), <- (insert_delete_eq m i p) at 1 by done.
      by rewrite total_insert_new by apply lookup_delete_eq. }
    assert (total busy m = busy p + total busy (delete i m))%Z as E2.
    { rewrite <- (insert_id m i p), <- (insert_delete_eq m i p) at 1 by done.
      by rewrite total_insert_new by apply lookup_delete_eq. }
    lia.
Qed.
Lemma task_permits step p s s' r :
  task_ends step p s s' r →
  (∀ a c w, p = AwaitGlobalSlot a c w → (0 < global_permits (slots s))%Z) →
  (∀ a c w k n, p = AwaitToolSlot a c w → tool_semaphore (tool_limit_key c) (slots s) = Some (k, n) →
     (0 < n)%Z) →
  permit_ok (slots s) p (pc_of r).
Proof.
  intros Ht HG HT.
  assert (∀ q, holds_global q = 0%Z → attempt_key q = None → permit_ok (slots s) p q) as Hnone.
  { intros q Hq1 Hq2. split; [rewrite Hq1|intros k _; rewrite (holds_tool_idle k q Hq2)];
      pose proof (weights_nonneg "" p) as (? & _); [lia|]. pose proof (weights_nonneg k p) as (_ & _ & ? & _). lia. }
  destruct Ht as [s1 r1 Hp He|s1 r1 pid -> Hr Hc Hq].
  2: { destruct r1 as [p'|e]; [|by apply Hnone]. destruct (Hq p' eq_refl) as (q & -> & _). by apply Hnone. }
  destruct He as [s1 p' Hm Hss Hsus [Hg Hk] _|sa s1 st q pid Hm Hss Hset _ _ _|sa s1 e Hm Hss Ho];
    [|by apply Hnone..]. simpl. split.
  - intros Hlt. destruct Hg as [?|(a & c & w & Hp')]; [lia|]. by eapply HG.
  - intros k Hd Hlt. destruct Hk as [Hk|[Hk|(a & c & w & Hp' & Hk)]].
    + unfold holds_tool in Hlt. rewrite Hk in Hlt. lia.
    + rewrite (holds_tool_idle k p' Hk) in Hlt. pose proof (weights_nonneg k p) as (_ & _ & ? & _). lia.
    + rewrite (holds_tool_in k _ p' Hk) in Hlt. case_decide as Hkey; [|pose proof (weights_nonneg k p) as (_ & _ & ? & _); lia].
      apply elem_of_dom in Hd as [n Hn]. rewrite Hn. simpl. apply (HT a c w k n Hp').
      by apply tool_semaphore_Some.
Qed.

(** The entry a checkpoint already has for a step, if it is final. *)
Record inv (f0 : flow_state) (c : config (S := S)) : Prop := {
  in_open : sm_closed (sm (st c)) = false;
  in_pcs : dom (pcs c) = step_ids (macro v);
  in_futures : dom (step_futures (flow (st c))) = step_ids (macro v);
  in_steps sid step p : step_by_id (macro v) sid = Some step → pcs c !! sid = Some p →
    pc_good (flow (st c)) step p ∧ future_inv (flow (st c)) sid p;
  in_slots : slots_inv (slots (st c)) (pcs c);
  in_replay sid pid : sid ∈ step_ids (macro v) → replayable f0 sid pid →
    step_status (flow (st c)) !! sid = step_status f0 !! sid ∧
    is_Some (future_done (flow (st c)) sid) ∧
    ∃ p, pcs c !! sid = Some p ∧ suspended p = false
}.

Lemma step_by_id_id m sid step : step_by_id m sid = Some step → step_id step = sid.
Proof. unfold step_by_id. intros Hl. apply last_Some_elem_of, list_elem_of_filter in Hl. apply Hl. Qed.

Lemma future_inv_frame f f' sid p :
  step_futures f' !! sid = step_futures f !! sid → step_status f' !! sid = step_status f !! sid →
  future_inv f sid p → future_inv f' sid p.
Proof.
  intros Hf Hs. unfold future_inv, pending, replayable. destruct p; rewrite ?Hf, ?Hs; try done.
  intros (st & pid & [He Hfu] & ?). exists st, pid. split; [|done]. constructor; congruence.
Qed.

Lemma terminal_statuses o : terminal_status o = true → ∃ st, o = Some st ∧ st ∈ statuses.
Proof.
  unfold terminal_status, statuses. intros Ho%bool_decide_eq_true.
  repeat (apply elem_of_cons in Ho as [->|Ho]; [eexists; split; [done|]; set_solver|]).
  by apply elem_of_nil in Ho.
Qed.

(** The step that ran satisfies the invariant again. *)
Lemma task_future step p s s' r :
  task_ends step p s s' r → future_inv (flow s) (step_id step) p →
  pc_good (flow s') step (pc_of r) ∧ future_inv (flow s') (step_id step) (pc_of r).
Proof.
  intros [s1 r1 Hp He|s1 r1 pid -> Hr Hc Hq] Hf.
  - destruct He as [s1 p' Hm Hss Hsus _ Hg|sa s1 st q pid Hm Hss Hset Hq Hst _|sa s1 e Hm Hss Ho]; simpl; [| |done].
    + rewrite (mv_flow _ _ Hm). split; [done|]. by destruct p'.
    + split; [done|]. exists st, pid. by destruct Hset.
  - destruct r1 as [p'|e]; [|done]. destruct (Hq p' eq_refl) as (q & -> & Hqid). simpl. split; [done|].
    destruct Hr as (H1 & H2 & H3). rewrite (co_flow _ _ Hc).
    destruct (step_status (flow s) !! step_id step) as [[st pid']|] eqn:Hst; [|done]. simpl in *. subst pid'.
    apply terminal_statuses in H3 as (st' & -> & Hin). rename st' into st.
    exists st, pid. split_and!; [|done..].
    constructor; simpl; [done|]. destruct Hf as [Hf|(pid'' & (E1 & _) & Hf)].
    + rewrite Hf. by rewrite lookup_insert_eq.
    + rewrite Hst in E1. simpl in E1. simplify_eq. by rewrite Hf.
Qed.
(** ** Reachable configurations *)

Abbreviation cfg := (config (S := S)).

(** The step's task has not ended. *)
Definition live p : Prop := match p with Finished _ | Crashed _ => False | _ => True end.

(** [fire] runs one task, or moves the clock. *)
Inductive task_step (c c' : cfg) : Prop :=
  | ts_task sid step p (r : result pc) :
      step_by_id (macro v) sid = Some step → pcs c !! sid = Some p →
      task_ends step p (st c) (st c') r → pcs c' = <[sid := pc_of r]> (pcs c) →
      (∀ a k w, p = AwaitGlobalSlot a k w → (0 < global_permits (slots (st c)))%Z) →
      (∀ a k w key n, p = AwaitToolSlot a k w →
         tool_semaphore (tool_limit_key k) (slots (st c)) = Some (key, n) → (0 < n)%Z) →
      live p → task_step c c'
  | ts_tick q : c' = {| st := advance_clock q (st c); pcs := pcs c |} → task_step c c'.

Lemma run_task_wp sid body (c : cfg) Q :
  wp body Q (st c) →
  ∃ r, Q (st (run_task sid body c)) r ∧ pcs (run_task sid body c) = <[sid := pc_of r]> (pcs c).
Proof.
  unfold wp, run_task. destruct (body (st c)) as [s' r]. simpl. intros HQ. exists r.
  split; [done|]. by destruct r.
Qed.

Lemma fire_task f0 ch (c c' : cfg) : inv f0 c → stored (st c) → fire v ch c = Some c' → task_step c c'.
Proof.
  intros Hinv Hstd. destruct ch as [sid|sid outcome|q]; simpl.
  - destruct (step_by_id (macro v) sid) as [step|] eqn:Hstep; [simpl|done].
    destruct (pcs c !! sid) as [p|] eqn:Hp; [simpl|done].
    destruct (resume_step v step p (st c)) as [body|] eqn:Hb; [simpl|done]. intros [= <-].
    destruct (in_steps _ _ Hinv sid step p Hstep Hp) as [Hg Hf].
    rewrite <- (step_by_id_id _ _ _ Hstep) in Hf.
    pose proof (resume_task step p (st c) body Hb (in_open _ _ Hinv) Hstd Hg Hf) as Hw.
    destruct (run_task_wp sid body c _ Hw) as (r & Ht & Hpcs).
    eapply ts_task; [exact Hstep|exact Hp|exact Ht|exact Hpcs| | |].
    + intros a k w ->. simpl in Hb. destruct (Z.ltb_spec 0 (global_permits (slots (st c)))); [done|discriminate].
    + intros a k w key n -> Hsem. simpl in Hb. rewrite Hsem in Hb.
      destruct (Z.ltb_spec 0 n); [done|discriminate].
    + by destruct p.
  - destruct (step_by_id (macro v) sid) as [step|] eqn:Hstep; [simpl|done].
    destruct (pcs c !! sid) as [p|] eqn:Hp; [simpl|done].
    destruct p as [| | | | | | |started k| | |]; try discriminate. intros [= <-].
    destruct (in_steps _ _ Hinv sid step _ Hstep Hp) as [Hg Hf].
    rewrite <- (step_by_id_id _ _ _ Hstep) in Hf.
    pose proof (return_task step started k (st c) outcome (in_open _ _ Hinv) Hg Hf) as Hw.
    destruct (run_task_wp sid _ c _ Hw) as (r & Ht & Hpcs).
    by eapply ts_task.
  - destruct (Qle_bool q 0); [done|]. intros [= <-]. by eapply ts_tick.
Qed.

Lemma inv_task f0 (c c' : cfg) : inv f0 c → task_step c c' → inv f0 c'.
Proof.
  intros [Ho Hp Hfu Hst Hsl Hre] [sid step p r Hstep Hpc Ht Hpcs HG HT _|q ->]; [|by constructor].
  pose proof (step_by_id_id _ _ _ Hstep) as Hid.
  assert (∀ j, is_Some (future_done (flow (st c)) j) →
    step_futures (flow (st c')) !! j = step_futures (flow (st c)) !! j ∧
    step_status (flow (st c')) !! j = step_status (flow (st c)) !! j ∧
    branch_decisions (flow (st c')) !! j = branch_decisions (flow (st c)) !! j) as Hfr.
  { intros j. by eapply task_frozen. }
  destruct (Hst sid step p Hstep Hpc) as [Hg Hf]. rewrite <- Hid in Hf.
  constructor.
  - by rewrite (task_open _ _ _ _ _ Ht).
  - rewrite Hpcs, dom_insert_L, <- Hp. apply elem_of_dom_2 in Hpc. set_solver.
  - by rewrite (task_domain _ _ _ _ _ Ht).
  - intros j step' p' Hstep' Hpc'. rewrite Hpcs in Hpc'.
    destruct (decide (j = sid)) as [->|Hj].
    + rewrite lookup_insert_eq in Hpc'. simplify_eq. by eapply task_future.
    + rewrite lookup_insert_ne in Hpc' by done. destruct (Hst j step' p' Hstep' Hpc') as [Hg' Hf'].
      split; [eapply good_mono; [exact Hfr| |exact Hg']; by eapply task_domain|].
      assert (j ≠ step_id step) as Hj' by congruence.
      destruct (task_others _ _ _ _ _ j Ht Hj') as (E1 & E2 & _). by eapply future_inv_frame.
  - rewrite Hpcs. eapply slots_inv_step; [exact Hsl|exact Hpc|by eapply task_slots|by eapply task_permits].
  - intros j pid Hj Hrep. destruct (Hre j pid Hj Hrep) as (E1 & E2 & q & Hq & Hsus).
    destruct (Hfr j E2) as (F1 & F2 & _). split; [by rewrite F2|]. split; [by rewrite (done_frozen _ _ _ F1)|].
    rewrite Hpcs. destruct (decide (j = sid)) as [->|Hne].
    + rewrite lookup_insert_eq. eexists; split; [done|]. simplify_eq.
      destruct Ht as [s1 r1 Hpend _|s1 r1 pid' -> Hr Hc Hq'].
      * unfold future_done in E2. rewrite Hpend in E2. by destruct E2.
      * destruct r1 as [p'|e]; [|done]. destruct (Hq' p' eq_refl) as (? & -> & _). done.
    + rewrite lookup_insert_ne by done. by exists q.
Qed.

End effects.

Section told.
Context {S : Type} `{PointerStoreBackend S} {func : Type} `{Runtime func}.
Context (v : run_env).
Abbreviation cfg := (config (S := S)).

(** More may have been read. *)
Lemma inv_mono (T T' : string → string → Prop) f0 (c : cfg) : (∀ p t, T p t → T' p t) → inv v T f0 c → inv v T' f0 c.
Proof.
  intros HT [Ho Hp Hfu Hst Hsl Hre]. constructor; try done. intros sid step p Hstep Hpc.
  destruct (Hst sid step p Hstep Hpc) as [Hg Hf]. split; [|done].
  assert (∀ x w, reference_ok T (flow (st c)) x w → reference_ok T' (flow (st c)) x w) as Hdep.
  { intros x w [Hd Hw]. split; [done|]. revert Hw. unfold reference_answer. case_decide; [|done].
    intros (pid & text & Hpid & Ht & Hw). exists pid, text. auto. }
  assert (∀ k, call_good v T (flow (st c)) step k → call_good v T' (flow (st c)) step k) as Hcg.
  { intros k []. constructor; try done. by eapply (answered_mono _ _ T). }
  destruct p; simpl in *; try done; try (destruct Hg as [? ?]; by auto); try (destruct Hg as (? & ? & ?); by auto).
  destruct Hg as (? & ? & ?). split_and!; [done| |done]. by eapply (answered_mono _ _ T).
Qed.

(** Without regard to what was read. *)
Definition anything (p t : string) : Prop := True.
Lemma inv_reachable f0 (c c' : cfg) : inv v anything f0 c → rtc (cstep v) c c' → inv v anything f0 c'.
Proof.
  intros Hi. induction 1 as [|c1 c2 c3 [ch ? ? Hf] _ IH]; [done|]. apply IH.
  eapply inv_task; [exact Hi|]. by eapply fire_task.
Qed.

(** [text] was stored under [pid] at some time from [c0] to [c]. *)
Definition read_between (c0 c : cfg) (pid text : string) : Prop :=
  ∃ c1, rtc (cstep v) c0 c1 ∧ rtc (cstep v) c1 c ∧ retrieve_pointer pid (pointer_store (sm (st c1))) = Ok text.
Lemma inv_read f0 (c0 c : cfg) : inv v (read_between c0 c0) f0 c0 → rtc (cstep v) c0 c → inv v (read_between c0 c) f0 c.
Proof.
  intros Hi. revert c. refine (rtc_ind_r (λ c, inv v (read_between c0 c) f0 c) c0 Hi _). intros c c' Hr Hstep IH.
  destruct Hstep as [ch c c' Hf].
  assert (∀ p t, read_between c0 c p t → read_between c0 c' p t) as Hm.
  { intros p t (c1 & H1 & H2 & Ht). exists c1. split_and!; [done| |done]. eapply rtc_r; [done|]. by econstructor. }
  assert (inv v (read_between c0 c') f0 c) as Hi' by (by eapply inv_mono).
  eapply inv_task; [exact Hi'|]. eapply fire_task; [exact Hi'| |exact Hf].
  intros pid text Ht. exists c. split_and!; [done| |done]. apply rtc_once. by econstructor.
Qed.
End told.
