(* ===== verification/ExecutorResolve.v ===== *)
(** Argument resolution as a tree of questions: which steps it may ask for,
    how many times, and what the arguments become once every question has its
    answer. *)
From stdpp Require Import options.
From S2P Require Import Prelude Values Json SafeEval ToolRegistry PointerStore StateManager TokenBucket Models Executor ExecutorProofs.
Unset Default Proof Using.

(** ** The questions of a tree *)

(** On every path of the tree at most [n] steps are asked for, each by a
    reference that satisfies [P]. *)
Inductive asks (P : string → Prop) {A} : nat → resolution A → Prop :=
  | asks_done n a : asks P n (Resolved a)
  | asks_fail n e : asks P n (Failing e)
  | asks_step n ref_value key k :
      P ref_value → (∀ w, asks P n (k w)) → asks P (Datatypes.S n) (NeedStep ref_value key k)
  | asks_pointer n pid key k : (∀ w, asks P n (k w)) → asks P n (NeedPointer pid key k).

Section tree.
Context (P : string → Prop).

Lemma asks_le {A} n m (r : resolution A) : asks P n r → n ≤ m → asks P m r.
Proof.
  intros Hr. revert m. induction Hr as [| |n ref key k HP _ IH|n pid key k _ IH]; intros m Hm.
  - constructor.
  - constructor.
  - destruct m as [|m]; [lia|]. constructor; [done|]. intros w. apply IH. lia.
  - constructor. auto.
Qed.

Lemma asks_bind {A B} (f : A → resolution B) n m r :
  asks P n r → (∀ a, asks P m (f a)) → asks P (n + m) (rbind f r).
Proof.
  intros Hr Hf. induction Hr as [n a|n e|n ref key k HP _ IH|n pid key k _ IH]; simpl.
  - eapply asks_le; [apply Hf|lia].
  - constructor.
  - constructor; auto.
  - constructor; auto.
Qed.

Lemma asks_list {A} (f : nat → A → resolution A) (g : A → nat) l :
  Forall (λ x, ∀ i, asks P (g x) (f i x)) l → ∀ i, asks P (sum_list (g <$> l)) (resolve_list f i l).
Proof.
  induction 1 as [|x l Hx _ IH]; intros i; simpl; [constructor|].
  apply asks_bind; [done|]. intros y. rewrite <- (Nat.add_0_r (sum_list _)).
  apply asks_bind; [done|]. constructor.
Qed.
End tree.

Lemma asks_impl (P Q : string → Prop) {A} n (r : resolution A) :
  (∀ x, P x → Q x) → asks P n r → asks Q n r.
Proof. intros HPQ. induction 1; constructor; auto. Qed.

(** The strings in a value. *)
Fixpoint leaves (v : pyval) : nat :=
  match v with
  | PStr _ => 1
  | PList l => sum_list (leaves <$> l)
  | PDict d => sum_list ((λ kv, leaves kv.2) <$> d)
  | _ => 0
  end.

Lemma substring_all n (s : string) : String.length s ≤ n → String.substring 0 n s = s.
Proof.
  revert n. induction s as [|c s IH]; intros [|n] Hn; simpl in *; try done; [lia|].
  by rewrite IH by lia.
Qed.

(** The executor's reading of a reference agrees with the validator's, except
    that the validator takes a bare prefix for no reference. *)
Lemma parse_reference_head s :
  py_startswith s "$" = true →
  string_reference s = Some (parse_reference s).1 ∨ string_reference s = None ∧ (parse_reference s).1 = "".
Proof.
  intros [t Ht]%py_startswith_spec. subst s. unfold string_reference, parse_reference, ref_head.
  destruct (strip_prefix "$step:" ("$" +:+ t)) as [ref|] eqn:Hp.
  - destruct (decide (ref = "")) as [->|Hne]; [by right|left]. by destruct (py_partition _ ref).
  - change (strip_prefix "$" ("$" +:+ t)) with (Some t). cbn [String.substring].
    change (String.substring 1 (String.length ("$" +:+ t)) ("$" +:+ t)) with (String.substring 0 (Datatypes.S (String.length t)) t).
    rewrite substring_all by lia. destruct (decide (t = "")) as [->|Hne]; [by right|left]. by destruct (py_partition _ t).
Qed.

Definition asked_by (v : pyval) (ref_value : string) : Prop :=
  (parse_reference ref_value).1 = "" ∨ (parse_reference ref_value).1 ∈ refs_of v.

Lemma resolve_value_asks max_depth v : ∀ depth key,
  asks (asked_by v) (leaves v) (_resolve_argument_value max_depth depth v key).
Proof.
  induction v as [| | | |s|l IH|d IH] using pyval_rect_nested; intros depth key; simpl;
    (destruct (max_depth <? Z.of_nat depth)%Z; [constructor|]); try constructor.
  - unfold py_starts. destruct (py_startswith s "$") eqn:Hs; [constructor; [|constructor]|].
    + unfold asked_by. simpl. destruct (parse_reference_head s Hs) as [->|[-> ?]]; [right; set_solver|by left].
    + destruct (py_startswith s "ptr_"); repeat constructor.
  - rewrite <- (Nat.add_0_r (sum_list _)). apply asks_bind; [|constructor].
    apply (asks_list _ _ leaves). rewrite Forall_forall in IH |- *. intros x Hx i.
    eapply asks_impl; [|by apply IH]. intros ref [?|Hr]; [by left|right]. simpl.
    apply elem_of_union_list. exists (refs_of x). split; [apply list_elem_of_fmap; eauto|done].
  - rewrite <- (Nat.add_0_r (sum_list _)). apply asks_bind; [|constructor].
    apply (asks_list _ _ (λ kv, leaves kv.2)). rewrite Forall_forall in IH |- *. intros x Hx i.
    rewrite <- (Nat.add_0_r (leaves _)). apply asks_bind; [|constructor].
    eapply asks_impl; [|by apply IH]. intros ref [?|Hr]; [by left|right]. simpl.
    apply elem_of_union_list. exists (refs_of x.2). split; [apply list_elem_of_fmap; eauto|done].
Qed.

(** Answers lead to a tree that asks no more. *)
Lemma answered_asks D T (P : string → Prop) {A} n (r r' : resolution A) :
  asks P n r → answered D T r r' → asks P n r'.
Proof.
  intros Hr Ha. revert n Hr. induction Ha as [r|ref key k w r HD _ IH|pid key k text r _ _ IH]; intros n Hr; [done|..].
  - inversion Hr as [| |n' ? ? ? HP Hk|]; subst. eapply asks_le; [by apply IH|lia].
  - inversion Hr; subst. by apply IH.
Qed.

(** What resolving all of a step's arguments may ask for. *)
Definition asked_by_any (args : list (string * pyval)) (ref_value : string) : Prop :=
  (parse_reference ref_value).1 = "" ∨
  ∃ k v, (k, v) ∈ args ∧ (parse_reference ref_value).1 ∈ refs_of v.
Definition argument_leaves (args : list (string * pyval)) : nat := sum_list ((λ kv, leaves kv.2) <$> args).

Lemma resolve_arguments_asks max_depth args :
  asks (asked_by_any args) (argument_leaves args) (resolve_arguments max_depth args).
Proof.
  apply (asks_list _ _ (λ kv, leaves kv.2)). apply Forall_forall. intros [k v] Hx i.
  rewrite <- (Nat.add_0_r (leaves _)). apply asks_bind; [|constructor].
  eapply asks_impl; [|apply resolve_value_asks]. intros ref [?|Hr]; [by left|right]. eauto.
Qed.

(** ** What the answers make of the arguments *)

(** [resolves D T v w]: [w] is [v] with every string that refers to a step
    replaced by an answer that [D] gives to it, and every pointer identifier by
    a text that [T] gives to it; keys, shape and all other leaves are
    untouched. *)
Inductive resolves (D : string → pyval → Prop) (T : string → string → Prop) : pyval → pyval → Prop :=
  | rs_step s w : py_startswith s "$" = true → D s w → resolves D T (PStr s) w
  | rs_pointer s text : py_startswith s "$" = false → py_startswith s "ptr_" = true → T s text →
      resolves D T (PStr s) (PStr text)
  | rs_text s : py_startswith s "$" = false → py_startswith s "ptr_" = false →
      resolves D T (PStr s) (PStr s)
  | rs_list l l' : Forall2 (resolves D T) l l' → resolves D T (PList l) (PList l')
  | rs_dict d d' : Forall2 (λ x y, x.1 = y.1 ∧ resolves D T x.2 y.2) d d' →
      resolves D T (PDict d) (PDict d')
  | rs_scalar v : leaves v = 0 → resolves D T v v.

Section answers.
Context (D : string → pyval → Prop) (T : string → string → Prop).

Lemma answered_bind {A B} (f : A → resolution B) r b :
  answered D T (rbind f r) (Resolved b) →
  ∃ a, answered D T r (Resolved a) ∧ answered D T (f a) (Resolved b).
Proof.
  induction r as [a|e|ref key k IH|pid key k IH]; simpl; intros Ha.
  - exists a. split; [apply an_refl|done].
  - inversion Ha.
  - inversion Ha as [|ref' key' k' w r HD Hr|]; subst.
    destruct (IH w Hr) as (a & H1 & H2). exists a. split; [by eapply an_step|done].
  - inversion Ha as [| |pid' key' k' text r Ht Hr]; subst.
    destruct (IH _ Hr) as (a & H1 & H2). exists a. split; [by eapply an_pointer|done].
Qed.

Lemma answered_done {A} (a b : A) : answered D T (Resolved a) (Resolved b) → a = b.
Proof. by inversion 1. Qed.

Lemma answered_list {A} (f : nat → A → resolution A) l : ∀ i l',
  answered D T (resolve_list f i l) (Resolved l') →
  Forall2 (λ x y, ∃ i, answered D T (f i x) (Resolved y)) l l'.
Proof.
  induction l as [|x l IH]; intros i l' Hl; simpl in Hl.
  - apply answered_done in Hl as <-. constructor.
  - apply answered_bind in Hl as (y & Hy & Hl). apply answered_bind in Hl as (ys & Hys & Hl).
    apply answered_done in Hl as <-. constructor; eauto.
Qed.

Lemma answered_value max_depth v : ∀ depth key w,
  answered D T (_resolve_argument_value max_depth depth v key) (Resolved w) → resolves D T v w.
Proof.
  induction v as [| | | |s|l IH|d IH] using pyval_rect_nested; intros depth key w; simpl;
    (destruct (max_depth <? Z.of_nat depth)%Z; [by inversion 1|]);
    try (intros <-%answered_done; by apply rs_scalar).
  - unfold py_starts. destruct (py_startswith s "$") eqn:Hs; [|destruct (py_startswith s "ptr_") eqn:Hp].
    + inversion 1 as [|ref' key' k' w' r HD Hr|]; subst. apply answered_done in Hr as <-. by constructor.
    + inversion 1 as [| |pid' key' k' text r Ht Hr]; subst. apply answered_done in Hr as <-. by constructor.
    + intros <-%answered_done. by constructor.
  - intros (l' & Hl & <-%answered_done)%answered_bind. apply rs_list.
    apply answered_list in Hl. induction Hl as [|x y l l' [i Hx] _ IHl]; [constructor|].
    inversion_clear IH. constructor; eauto.
  - intros (d' & Hd & <-%answered_done)%answered_bind. apply rs_dict.
    apply answered_list in Hd. induction Hd as [|x y d d' [i Hx] _ IHd]; [constructor|].
    inversion_clear IH. constructor; [|by apply IHd].
    apply answered_bind in Hx as (w & Hw & <-%answered_done). simpl. eauto.
Qed.

Lemma answered_arguments max_depth args args' :
  answered D T (resolve_arguments max_depth args) (Resolved args') →
  Forall2 (λ x y, x.1 = y.1 ∧ resolves D T x.2 y.2) args args'.
Proof.
  intros Ha%answered_list. eapply Forall2_impl; [exact Ha|]. intros [k v] [k' v'] [i Hi]. simpl in *.
  apply answered_bind in Hi as (w & Hw & [= <- <-]%answered_done). split; [done|]. by eapply answered_value.
Qed.
End answers.
