(* ===== verification/ExecutorRuns.v ===== *)
(** Runs of the macro executor from their start: the invariant of
    [ExecutorProofs.v] holds when the tasks are created, so the properties
    below hold of every configuration of every schedule. *)
From stdpp Require Import options.
From S2P Require Import Prelude Graph Values Json SafeEval ToolRegistry PointerStore StateManager TokenBucket Models Executor ExecutorSamples ExecutorProofs ExecutorResolve.
Unset Default Proof Using.

(** Execution limits as pydantic lets them be built; the keys of a dict are
    distinct. *)
Definition limits_ok (l : ExecutionLimits) : Prop :=
  validate_limits_fields l = true ∧ Forall (λ kv, validate_tool_limit_fields kv.2 = true) (per_tool l) ∧
  NoDup (per_tool l).*1.

(** An open state manager on which [start_run] has made [c0], and what the
    event loop has made of it. *)
Record run {S} `{PointerStoreBackend S} {func} `{Runtime func} (v : run_env) (c0 c : config (S := S)) : Prop := {
  run_start : ∃ d m rid resume actor t n x x',
    sm_closed x = false ∧ limits_ok (default d (execution_limits m)) ∧
    start_run d m rid resume actor t n x = (x', Ok (v, c0));
  run_steps : rtc (cstep v) c0 c
}.

Section runs.
Context {S : Type} `{PointerStoreBackend S} {func : Type} `{Runtime func}.
Abbreviation cfg := (config (S := S)).

Lemma list_to_map_omap {A B} (g : A → option B) (l : list (string * A)) k b :
  (list_to_map (omap (λ kv, pair kv.1 <$> g kv.2) l) : gmap string B) !! k = Some b →
  ∃ a, (k, a) ∈ l ∧ g a = Some b.
Proof.
  induction l as [|[k' a] l IH]; csimpl; [done|]. destruct (g a) as [b'|] eqn:Hg; csimpl.
  - intros [[-> ->]|[Hne Hl]]%lookup_insert_Some; [exists a; split; [left|done]|].
    destruct (IH Hl) as (a' & ? & ?). exists a'. split; [by right|done].
  - intros Hl. destruct (IH Hl) as (a' & ? & ?). exists a'. split; [by right|done].
Qed.

Lemma initial_permits l t k n : limits_ok l → tool_permits (initial_slots l t) !! k = Some n → (1 <= n)%Z.
Proof.
  intros (_ & Hl & _) Hk. simpl in Hk. apply list_to_map_omap in Hk as (tl & Hin & Hn).
  rewrite Forall_forall in Hl. specialize (Hl _ Hin). unfold validate_tool_limit_fields in Hl. simpl in Hl.
  rewrite Hn in Hl. simpl in Hl. destruct (Z.leb_spec 1 n); [done|]. by destruct n.
Qed.

Lemma limits_positive l : limits_ok l → (1 <= max_global_concurrency l)%Z.
Proof.
  intros (Hg%andb_true_iff & _ & _). destruct Hg as [Hg _].
  repeat (apply andb_true_iff in Hg as [Hg _]). by apply Z.leb_le in Hg.
Qed.

Lemma total_zero w (m : gmap string pc) : (∀ i p, m !! i = Some p → w p = 0%Z) → total w m = 0%Z.
Proof.
  induction m as [|i p m Hi _ IH] using map_first_key_ind; intros Hw; [done|].
  rewrite total_insert_new by done. rewrite (Hw i p) by apply lookup_insert_eq. rewrite IH; [done|].
  intros j q Hj. apply (Hw j). rewrite lookup_insert_ne; [done|]. by intros ->; congruence.
Qed.

(** What [start_run] makes. *)
Lemma start_run_spec d m rid resume actor t n (x x' : state_manager S) v (c : cfg) :
  start_run d m rid resume actor t n x = (x', Ok (v, c)) → sm_closed x = false →
  macro v = m ∧ limits v = default d (execution_limits m) ∧ resumed v = resume ∧ env_run_id v = rid ∧
  sm_closed (sm (st c)) = false ∧
  slots (st c) = initial_slots (limits v) t ∧ clock (st c) = t ∧
  pcs c = set_to_map (λ sid, (sid, NotStarted)) (step_ids m) ∧
  ∃ statuses decisions read, flow (st c) = initial_flow m statuses decisions read ∧
    (resume = false → statuses = ∅ ∧ decisions = ∅).
Proof.
  unfold start_run. intros Hs Hopen.
  set (q := if resume then _ else _ : state_manager S * result (option checkpoint_row)) in Hs.
  assert (sm_closed q.1 = false) as Hq.
  { subst q. destruct resume; [|done]. unfold get_run_checkpoint, _connection, mbind, stm_bind, raise_if.
    rewrite Hopen. simpl. destruct (execution_run_checkpoints x !! rid); simpl; [|done].
    by destruct (bool_decide _). }
  assert (resume = false → ∀ o, q.2 = Ok o → o = None) as Hfresh by (intros -> o; by intros [= <-]).
  destruct q as [x1 [cp|e]]; [|done]. simpl in Hq. specialize (λ Hre, Hfresh Hre cp eq_refl).
  match type of Hs with context [_persist_checkpoint ?v0 _ _ ?s0] =>
    set (v1 := v0) in Hs; set (s1 := s0) in Hs end.
  destruct (persist_core v1 "active" None s1 Hq) as (s2 & Hcore & Hp).
  rewrite Hp in Hs. injection Hs as <- <- <-. destruct Hcore as [F1 S1 C1 L1].
  split_and!; try done; simpl; [by rewrite L1|]. rewrite F1. eexists _, _, _. split; [reflexivity|].
  intros Hre. by rewrite (Hfresh Hre).
Qed.
Lemma set_to_map_Some {A} (g : string → A) (X : gset string) k a :
  (set_to_map (λ i, (i, g i)) X : gmap string A) !! k = Some a ↔ k ∈ X ∧ a = g k.
Proof.
  rewrite lookup_set_to_map by (simpl; congruence). split; [intros (y & Hy & [= <- <-])|intros [Hk ->]]; eauto.
Qed.

Lemma set_to_map_dom {A} (g : string → A) (X : gset string) :
  dom (set_to_map (λ i, (i, g i)) X : gmap string A) = X.
Proof.
  apply set_eq. intros k. rewrite elem_of_dom. split.
  - intros [a Ha]. by apply set_to_map_Some in Ha as [? _].
  - intros Hk. exists (g k). by apply set_to_map_Some.
Qed.

(** The futures and statuses of a run's start agree. *)
Lemma initial_future m statuses decisions read (sid : string) :
  sid ∈ step_ids m →
  (pending (initial_flow m statuses decisions read) sid ∧
   ∀ pid, ¬ replayable (initial_flow m statuses decisions read) sid pid) ∨
  (∃ pid, replayable (initial_flow m statuses decisions read) sid pid ∧
   step_futures (initial_flow m statuses decisions read) !! sid = Some (Some pid)).
Proof.
  intros Hsid. unfold pending, replayable. cbn [step_futures step_status initial_flow].
  destruct (statuses !! sid) as [[st [pid|]]|] eqn:Hst; simpl.
  - destruct (terminal_status st) eqn:Ht; [destruct (decide (pid = "")) as [He|He]|].
    + left. split; [|naive_solver]. apply set_to_map_Some. split; [done|]. rewrite Hst. simpl. rewrite Ht. simpl. by rewrite decide_True.
    + right. exists pid. split; [done|]. apply set_to_map_Some. split; [done|]. rewrite Hst. simpl. rewrite Ht. simpl. by rewrite decide_False.
    + left. split; [|naive_solver]. apply set_to_map_Some. split; [done|]. rewrite Hst. simpl. by rewrite Ht.
  - left. split; [|naive_solver]. apply set_to_map_Some. split; [done|]. rewrite Hst. simpl. by destruct (terminal_status st).
  - left. split; [|naive_solver]. apply set_to_map_Some. split; [done|]. by rewrite Hst.
Qed.

Lemma start_inv (v : run_env) T (c0 c : cfg) : run v c0 c → inv v T (flow (st c0)) c0.
Proof.
  intros [(d & m & rid & resume & actor & t & n & x & x' & Hopen & Hl & Hs) _].
  destruct (start_run_spec _ _ _ _ _ _ _ _ _ _ _ Hs Hopen)
    as (Hm & Hlim & _ & _ & Hc & Hsl & Hck & Hpcs & statuses & decisions & read & Hf & _).
  rewrite <- Hlim in Hl. rewrite <- Hm in *.
  assert (∀ i p, pcs c0 !! i = Some p → p = NotStarted) as Hns.
  { intros i p. rewrite Hpcs. intros Hi%set_to_map_Some. tauto. }
  assert (∀ (w : pc → Z), w NotStarted = 0%Z → total w (pcs c0) = 0%Z) as Htot.
  { intros w Hw. apply total_zero. intros i p Hi. by rewrite (Hns i p Hi). }
  constructor; [done|by rewrite Hpcs, set_to_map_dom|rewrite Hf; exact (set_to_map_dom _ _)| | |].
  - intros sid step p Hstep Hp. rewrite (Hns _ _ Hp). split; [done|]. simpl. rewrite Hf.
    assert (sid ∈ step_ids (macro v)) as Hin.
    { rewrite Hpcs in Hp. by apply set_to_map_Some in Hp as [? _]. }
    destruct (initial_future (macro v) statuses decisions read sid Hin) as [[? _]|?]; [by left|by right].
  - rewrite Hsl. pose proof (limits_positive _ Hl) as H1.
    constructor; simpl; rewrite ?Htot by done; try lia; try done.
    + intros k q Hk. change (tool_permits (initial_slots (limits v) t)) with (tool_limits v).
      unfold tool_limits in Hk |- *. simpl in Hk |- *. rewrite Hk. simpl. rewrite Htot by done. lia.
    + intros k. destruct (tool_permits (initial_slots (limits v) t) !! k) as [q|] eqn:Hk; simpl in Hk; rewrite Hk; [|done].
      simpl. assert (1 <= q)%Z; [|lia]. by apply (initial_permits (limits v) t k).
  - intros sid pid Hsid Hrep. rewrite Hf in Hrep |- *. split; [done|].
    destruct (initial_future (macro v) statuses decisions read sid Hsid) as [[_ Hno]|(pid' & _ & Hfu)];
      [by destruct (Hno pid)|].
    split; [unfold future_done; rewrite Hfu; by eexists|]. exists NotStarted. split; [|done].
    rewrite Hpcs. by apply set_to_map_Some.
Qed.

Lemma run_inv_read (v : run_env) (c0 c : cfg) : run v c0 c → inv v (read_between v c0 c) (flow (st c0)) c.
Proof. intros Hr. apply inv_read; [by eapply start_inv|apply Hr]. Qed.
Lemma run_inv (v : run_env) (c0 c : cfg) : run v c0 c → inv v anything (flow (st c0)) c.
Proof. intros Hr. eapply inv_reachable; [by eapply start_inv|]. apply Hr. Qed.

Lemma run_limits (v : run_env) (c0 c : cfg) : run v c0 c → limits_ok (limits v).
Proof.
  intros [(d & m & rid & resume & actor & t & n & x & x' & Hopen & Hl & Hs) _].
  destruct (start_run_spec _ _ _ _ _ _ _ _ _ _ _ Hs Hopen) as (_ & Hlim & _). by rewrite Hlim.
Qed.

Lemma run_step (v : run_env) (c0 c c' : cfg) : run v c0 c → rtc (cstep v) c c' → run v c0 c'.
Proof. intros [Hs Hr] Hr'. split; [done|]. by trans c. Qed.

(** ** Concurrency *)

Lemma count_total (P : string * pc → Prop) `{!∀ x, Decision (P x)} (w : pc → Z) (m : gmap string pc) :
  (∀ p, 0 <= w p)%Z → (∀ i p, m !! i = Some p → P (i, p) → (1 <= w p)%Z) →
  (Z.of_nat (size (filter P m)) <= total w m)%Z.
Proof.
  intros Hw. induction m as [|i p m Hi _ IH] using map_first_key_ind; intros HP; [done|].
  assert (Z.of_nat (size (filter P m)) <= total w m)%Z as IH'.
  { apply IH. intros j q Hj. apply HP. rewrite lookup_insert_ne; [done|]. by intros ->; congruence. }
  rewrite total_insert_new by done. specialize (Hw p). destruct (decide (P (i, p))) as [Hd|Hd].
  - rewrite map_filter_insert_True by done. rewrite map_size_insert_None.
    + specialize (HP i p (lookup_insert_eq _ _ _) Hd). lia.
    + apply map_lookup_filter_None. by left.
  - rewrite map_filter_insert_not' by naive_solver. lia.
Qed.

(** The steps inside a call, and those of them under a limit key. *)
Definition calls (c : cfg) : gmap string pc := filter (λ x, is_in_tool x.2) (pcs c).
Definition calls_under (v : run_env) (k : string) (c : cfg) : gmap string pc :=
  filter (λ x, is_in_tool x.2 ∧ (step_by_id (macro v) x.1 ≫= _tool_limit_key v) = Some k) (pcs c).

Lemma tool_limits_lookup (v : run_env) k tl n :
  limits_ok (limits v) → (k, tl) ∈ per_tool (limits v) → max_concurrency tl = Some n →
  tool_limits v !! k = Some n.
Proof.
  intros (_ & _ & Hnd) Hin Hn. unfold tool_limits. simpl. revert Hnd Hin.
  induction (per_tool (limits v)) as [|[k' tl'] l IH]; csimpl; [by intros _ ?%elem_of_nil|].
  intros [Hk Hnd]%NoDup_cons [[= <- <-]|Hin]%elem_of_cons.
  - rewrite Hn. csimpl. by rewrite lookup_insert_eq.
  - specialize (IH Hnd Hin). destruct (max_concurrency tl') as [n'|]; csimpl; [|done].
    rewrite lookup_insert_ne; [done|]. intros ->. apply Hk, list_elem_of_fmap. by exists (k, tl).
Qed.

(** C3: at every moment of every schedule of a run, at most
    [max_global_concurrency] steps are inside a tool call, at most
    [max_concurrency] under each limited tool, and the peak the run reports is
    within the limit too. *)
Theorem concurrency_bounded (v : run_env) (c0 c : cfg) :
  run v c0 c →
  (Z.of_nat (size (calls c)) <= max_global_concurrency (limits v))%Z ∧
  (∀ k tl n, (k, tl) ∈ per_tool (limits v) → max_concurrency tl = Some n →
     (Z.of_nat (size (calls_under v k c)) <= n)%Z) ∧
  (inflight_global (slots (st c)) <= max_global_concurrency (limits v))%Z ∧
  (max_inflight_global (saturation_metrics (slots (st c))) <= max_global_concurrency (limits v))%Z.
Proof.
  intros Hr. pose proof (run_inv v c0 c Hr) as [_ Hpcs _ Hst [G N D T TN I P] _].
  assert (∀ p, 0 <= holds_global p)%Z as Hw by (intros p; apply (weights_nonneg "" p)).
  split_and!; [| | |done].
  - transitivity (total holds_global (pcs c)); [|lia]. apply count_total; [done|].
    intros i p _. by destruct p.
  - intros k tl n Hk Hn. pose proof (tool_limits_lookup v k tl n (run_limits _ _ _ Hr) Hk Hn) as Hl.
    specialize (T k n Hl). specialize (TN k).
    transitivity (total (holds_tool k) (pcs c)); [|lia].
    apply count_total; [intros p; apply (weights_nonneg k p)|].
    intros i p Hi [Hin Hkey]. simpl in *. destruct p as [| | | | | | |started ctx| | |]; try done.
    destruct (step_by_id (macro v) i) as [step|] eqn:Hstep; [|done]. simpl in Hkey.
    destruct (Hst i step _ Hstep Hi) as [[_ Hg] _].
    unfold holds_tool. simpl. rewrite (cg_key _ _ _ _ _ Hg), Hkey. by rewrite decide_True.
  - rewrite I. transitivity (total holds_global (pcs c)); [|lia]. apply total_le.
    intros p. by pose proof (weights_nonneg "" p) as (_ & _ & _ & ? & _).
Qed.

(** ** What a tool call presupposes *)

(** C1: a step is inside a tool call only after its approval, if it needs one,
    was given, and only if it is under no branch or a branching step that has
    finished selected it; its own outcome is then still open. *)
Theorem calls_cleared (v : run_env) (c0 c : cfg) sid step started k :
  run v c0 c → step_by_id (macro v) sid = Some step → pcs c !! sid = Some (InTool started k) →
  approved v step ∧ selected v (flow (st c)) step ∧ pending (flow (st c)) sid.
Proof.
  intros Hr Hstep Hp. pose proof (run_inv v c0 c Hr) as [_ _ _ Hst _ _].
  destruct (Hst sid step _ Hstep Hp) as [[[Ha Hs] _] Hf]. done.
Qed.

(** C2: a tool is called with its step's arguments in which nothing is touched
    but references and pointers: a reference to a step is replaced by the text
    that was stored, at some time of the run up to now, under the pointer that
    step ended with (by [None] when it has a path into that text), and that step
    has succeeded; a pointer is replaced by the text that was stored under it;
    the arguments pass the tool's validation and the tool is registered. *)
Theorem calls_have_inputs (v : run_env) (c0 c : cfg) sid step started k :
  run v c0 c → step_by_id (macro v) sid = Some step → pcs c !! sid = Some (InTool started k) →
  Forall2 (λ x y, x.1 = y.1 ∧ resolves (reference_ok (read_between v c0 c) (flow (st c))) (read_between v c0 c) x.2 y.2)
    (arguments step) (resolved_args k) ∧
  validate_arguments rt_float_repr rt_jsonschema_validate rt_registry (Models.tool_name step)
    (PDict (resolved_args k)) = Ok tt ∧
  is_ok (get_tool rt_registry (Models.tool_name step)) = true.
Proof.
  intros Hr Hstep Hp. pose proof (run_inv_read v c0 c Hr) as [_ _ _ Hst _ _].
  destruct (Hst sid step _ Hstep Hp) as [[_ Hg] _].
  split_and!; [eapply answered_arguments; exact (cg_args _ _ _ _ _ Hg)|by apply (cg_valid _ _ _ _ _ Hg)|by apply (cg_tool _ _ _ _ _ Hg)].
Qed.

(** The attempts of a step are numbered from one and never exceed the
    retry policy's [max_attempts]; a step sleeps only before an attempt it
    still has, and the delay before attempt [n + 1] is the initial delay times
    the backoff multiplier to the power [n - 1]. *)
Theorem retry_schedule (v : run_env) (c0 c : cfg) sid step p k :
  run v c0 c → step_by_id (macro v) sid = Some step → pcs c !! sid = Some p →
  (∃ started, p = InTool started k) ∨ (∃ started wake, p = RetrySleep started k wake) →
  let policy := retry_policy (macro v) in
  (1 <= attempt_count k <= Z.max 1 (max_attempts policy))%Z ∧
  (delay k == initial_delay_seconds policy * backoff_multiplier policy ^ (attempt_count k - 1))%Q ∧
  ((∃ started wake, p = RetrySleep started k wake) → attempt_count k < max_attempts policy)%Z.
Proof.
  intros Hr Hstep Hp Hcase. pose proof (run_inv v c0 c Hr) as [_ _ _ Hst _ _].
  destruct (Hst sid step _ Hstep Hp) as [Hg _].
  destruct Hcase as [(started & ->)|(started & wake & ->)]; simpl in Hg.
  - destruct Hg as [_ []]. split_and!; try done. by intros (? & ? & ?).
  - destruct Hg as (_ & [] & ?). by split_and!.
Qed.

(** ** Outcomes *)

Lemma step_by_id_total m sid : sid ∈ step_ids m → is_Some (step_by_id m sid).
Proof.
  intros (s & Hs & Hid)%elem_of_step_ids. unfold step_by_id.
  destruct (last (filter (λ s0, step_id s0 = sid) (steps m))) eqn:Hl; [done|].
  apply last_None in Hl. by eapply (filter_nil_not_elem_of (λ s0, step_id s0 = sid)) in Hl.
Qed.

Lemma step_frozen (v : run_env) f0 (c c' : cfg) j :
  inv v anything f0 c → cstep v c c' → is_Some (future_done (flow (st c)) j) →
  step_futures (flow (st c')) !! j = step_futures (flow (st c)) !! j ∧
  step_status (flow (st c')) !! j = step_status (flow (st c)) !! j ∧
  branch_decisions (flow (st c')) !! j = branch_decisions (flow (st c)) !! j.
Proof.
  intros Hi Hs Hd. inversion_clear Hs as [ch ? ? Hf].
  destruct (fire_task v anything f0 ch _ _ Hi (λ _ _ _, I) Hf) as [sid step p r _ _ Ht _ _ _ _|q ->]; [|done].
  by eapply task_frozen.
Qed.

Lemma run_frozen (v : run_env) f0 (c c' : cfg) j :
  inv v anything f0 c → rtc (cstep v) c c' → is_Some (future_done (flow (st c)) j) →
  step_futures (flow (st c')) !! j = step_futures (flow (st c)) !! j ∧
  step_status (flow (st c')) !! j = step_status (flow (st c)) !! j ∧
  branch_decisions (flow (st c')) !! j = branch_decisions (flow (st c)) !! j.
Proof.
  intros Hi Hr Hd. induction Hr as [|c1 c2 c3 H12 H23 IH]; [done|].
  destruct (step_frozen v f0 c1 c2 j Hi H12 Hd) as (E1 & E2 & E3).
  destruct IH as (F1 & F2 & F3).
  - eapply inv_reachable; [exact Hi|by apply rtc_once].
  - by rewrite (done_frozen _ _ _ E1).
  - by rewrite F1, F2, F3, E1, E2, E3.
Qed.

Lemma ended_forever (v : run_env) f0 (c c' : cfg) sid p :
  inv v anything f0 c → rtc (cstep v) c c' → pcs c !! sid = Some p → ¬ live p → pcs c' !! sid = Some p.
Proof.
  intros Hi Hr Hp Hl. induction Hr as [|c1 c2 c3 H12 H23 IH]; [done|].
  apply IH; [eapply inv_reachable; [exact Hi|by apply rtc_once]|].
  inversion_clear H12 as [ch ? ? Hf].
  destruct (fire_task v anything f0 ch _ _ Hi (λ _ _ _, I) Hf) as [sid' step p' r _ Hp' Ht -> _ _ Hl'|q ->]; [|done].
  rewrite lookup_insert_ne; [done|]. intros ->. by simplify_eq.
Qed.

(** C4: a step that has returned has one of the five statuses, its status
    entry, its future and the payload it returned name the same pointer, and
    nothing that happens later changes any of them or its branch decision. *)
Theorem outcomes_final (v : run_env) (c0 c c' : cfg) sid q :
  run v c0 c → sid ∈ step_ids (macro v) → pcs c !! sid = Some (Finished q) → rtc (cstep v) c c' →
  ∃ status pid, status ∈ statuses ∧ _pointer_id q = Ok pid ∧
    settled sid status pid (flow (st c)) ∧
    settled sid status pid (flow (st c')) ∧ pcs c' !! sid = Some (Finished q) ∧
    branch_decisions (flow (st c')) !! sid = branch_decisions (flow (st c)) !! sid.
Proof.
  intros Hr Hsid Hp Hr'. pose proof (run_inv v c0 c Hr) as Hi. pose proof Hi as [_ _ _ Hst _ _].
  assert (is_Some (step_by_id (macro v) sid)) as [step Hstep] by by apply step_by_id_total.
  destruct (Hst sid step _ Hstep Hp) as [_ (status & pid & Hset & Hq & Hin)].
  destruct (run_frozen v _ c c' sid Hi Hr') as (E1 & E2 & E3).
  { unfold future_done. destruct Hset as [_ ->]. by eexists. }
  exists status, pid. split_and!; [done..| | |done].
  - destruct Hset. constructor; congruence.
  - eapply ended_forever; [exact Hi|done..|]. by intros [].
Qed.

(** The status of no other step ever changes. *)
Lemma other_statuses (v : run_env) (c0 c : cfg) sid :
  run v c0 c → sid ∉ step_ids (macro v) →
  step_status (flow (st c)) !! sid = step_status (flow (st c0)) !! sid.
Proof.
  intros Hr Hsid. assert (∃ f0, inv v anything f0 c0) as [f0 Hi] by (eexists; by eapply start_inv). destruct Hr as [_ Hr].
  induction Hr as [|c1 c2 c3 H12 H23 IH]; [done|]. rewrite IH by (eapply inv_reachable; [exact Hi|by apply rtc_once]).
  inversion_clear H12 as [ch ? ? Hf].
  destruct (fire_task v anything f0 ch _ _ Hi (λ _ _ _, I) Hf) as [sid' step p r Hs _ Ht _ _ _ _|q ->]; [|done].
  eapply task_others; [exact Ht|]. intros ->. apply Hsid, elem_of_step_ids. exists step. split; [|done].
  unfold step_by_id in Hs. apply last_Some_elem_of, list_elem_of_filter in Hs. tauto.
Qed.

(** C7: a run resumed from a checkpoint never calls the tool of a step the
    checkpoint has a final outcome for: whatever the schedule, that step is
    not started or has ended, its status is the checkpoint's, and when it has
    returned, its payload names the checkpoint's pointer. *)
Theorem replay_never_reruns (v : run_env) (c0 c : cfg) sid pid :
  run v c0 c → sid ∈ step_ids (macro v) → replayable (flow (st c0)) sid pid →
  step_status (flow (st c)) !! sid = step_status (flow (st c0)) !! sid ∧
  is_Some (future_done (flow (st c)) sid) ∧
  ∃ p, pcs c !! sid = Some p ∧ suspended p = false ∧
       ∀ q, p = Finished q → _pointer_id q = Ok pid.
Proof.
  intros Hr Hsid Hrep. pose proof (run_inv v c0 c Hr) as [_ _ _ Hst _ Hre].
  destruct (Hre sid pid Hsid Hrep) as (E1 & E2 & p & Hp & Hsus).
  split_and!; [done..|]. exists p. split_and!; [done..|]. intros q ->.
  assert (is_Some (step_by_id (macro v) sid)) as [step Hstep] by by apply step_by_id_total.
  destruct (Hst sid step _ Hstep Hp) as [_ (status & pid' & [He _] & Hq & _)].
  destruct Hrep as (Hrep & _ & _). rewrite <- E1, He in Hrep. simpl in Hrep. congruence.
Qed.
End runs.

(** ** Concrete runs *)

Lemma fire_all_run {S} `{PointerStoreBackend S} {func} `{Runtime func} (v : run_env) chs (c c' : config (S := S)) :
  fire_all v chs c = Some c' → rtc (cstep v) c c'.
Proof.
  revert c. induction chs as [|ch chs IH]; intros c; simpl; [intros [= ->]; done|].
  destruct (fire v ch c) as [c1|] eqn:Hf; simpl; [|done]. intros Hc. eapply rtc_l; [by apply (fire_step v ch)|auto].
Qed.

Lemma sample_limits_ok : limits_ok sample_limits.
Proof.
  split_and!; [reflexivity|by repeat constructor|]. apply (bool_decide_unpack _). by vm_compute.
Qed.

Lemma sample_run chs :
  bool_decide (is_Some (fire_all sample_env chs sample_start)) = true →
  run sample_env sample_start (sample_after chs).
Proof.
  intros [c Hc]%bool_decide_eq_true. split.
  - exists default_execution_limits, sample_macro, "r1", false, None, 0%Q, 0, fresh_manager, start_sample.1.
    split_and!; [done|apply sample_limits_ok|]. vm_compute. reflexivity.
  - unfold sample_after. rewrite Hc. by eapply fire_all_run.
Qed.

Definition at_call : config (S := sqlite) := sample_after to_call.
Lemma at_call_run : run sample_env sample_start at_call.
Proof. apply sample_run. vm_compute. reflexivity. Qed.

(** The context of [b]'s call. *)
Definition call_b : call_ctx :=
  {| attempt_count := 1; delay := 1 # 4; resolved_args := [("url", PStr "body")];
     input_pointers := [("url", "ptr_0")]; tool_limit_key := Some "fetch" |}.

Lemma concurrency_bounded_witness :
  run sample_env sample_start at_call ∧
  (Z.of_nat (size (calls at_call)) <= 1)%Z ∧ size (calls at_call) = 1 ∧
  (Z.of_nat (size (calls_under sample_env "fetch" at_call)) <= 1)%Z ∧
  size (calls_under sample_env "fetch" at_call) = 1.
Proof.
  destruct (concurrency_bounded sample_env sample_start at_call at_call_run) as (H1 & H2 & _).
  split_and!; [apply at_call_run|exact H1|vm_compute; reflexivity| |vm_compute; reflexivity].
  eapply (H2 "fetch"); [apply list_elem_of_here|reflexivity].
Defined.

Lemma calls_cleared_witness :
  pcs at_call !! "b" = Some (InTool 0 call_b) ∧ approved sample_env sample_b ∧
  selected sample_env (flow (st at_call)) sample_b ∧ pending (flow (st at_call)) "b".
Proof.
  split; [vm_compute; reflexivity|].
  apply (calls_cleared sample_env sample_start at_call "b" sample_b 0 call_b);
    [apply at_call_run|vm_compute; reflexivity|vm_compute; reflexivity].
Defined.

Lemma calls_have_inputs_witness :
  Forall2 (λ x y, x.1 = y.1 ∧ resolves (reference_ok (read_between sample_env sample_start at_call) (flow (st at_call)))
      (read_between sample_env sample_start at_call) x.2 y.2)
    [("url", PStr "$step:a")] [("url", PStr "body")].
Proof.
  apply (calls_have_inputs sample_env sample_start at_call "b" sample_b 0 call_b);
    [apply at_call_run|vm_compute; reflexivity|vm_compute; reflexivity].
Defined.

Lemma retry_schedule_witness : (1 <= attempt_count call_b <= 3)%Z ∧ (delay call_b == 1 # 4)%Q.
Proof.
  destruct (retry_schedule sample_env sample_start at_call "b" sample_b (InTool 0 call_b) call_b)
    as (H1 & H2 & _);
    [apply at_call_run|vm_compute; reflexivity|vm_compute; reflexivity|left; by eexists|].
  split; [exact H1|exact H2].
Defined.

Definition at_end : config (S := sqlite) := sample_after to_end.
Definition payload_a : payload :=
  match pcs at_call !! "a" with Some (Finished q) => q | _ => [] end.

Lemma outcomes_final_witness :
  ∃ status pid, status ∈ statuses ∧ _pointer_id payload_a = Ok pid ∧
    settled "a" status pid (flow (st at_call)) ∧ settled "a" status pid (flow (st at_end)) ∧
    pcs at_end !! "a" = Some (Finished payload_a) ∧
    branch_decisions (flow (st at_end)) !! "a" = branch_decisions (flow (st at_call)) !! "a".
Proof.
  apply (outcomes_final sample_env sample_start at_call at_end "a" payload_a).
  - apply at_call_run.
  - apply (bool_decide_unpack _). vm_compute. exact I.
  - vm_compute. reflexivity.
  - apply (fire_all_run sample_env [Return "b" (Ok (PStr "done"))]). vm_compute. reflexivity.
Defined.

(** The sample resumed from the checkpoint it had left when it called [b]. *)
Definition resume_sample :=
  start_run default_execution_limits sample_macro "r1" true None 10 5 (sm (st at_call)).
Definition resumed_env : run_env := match resume_sample.2 with Ok (v, _) => v | Raise _ => no_env end.
Definition resumed_start : config (S := sqlite) :=
  match resume_sample.2 with Ok (_, c) => c | Raise _ => no_config end.
Definition resumed_after (chs : list choice) : config (S := sqlite) :=
  default resumed_start (fire_all resumed_env chs resumed_start).

Lemma resumed_run chs :
  bool_decide (is_Some (fire_all resumed_env chs resumed_start)) = true →
  run resumed_env resumed_start (resumed_after chs).
Proof.
  intros [c Hc]%bool_decide_eq_true. split.
  - exists default_execution_limits, sample_macro, "r1", true, None, 10%Q, 5, (sm (st at_call)), resume_sample.1.
    split_and!; [vm_compute; reflexivity|apply sample_limits_ok|]. vm_compute. reflexivity.
  - unfold resumed_after. rewrite Hc. by eapply fire_all_run.
Qed.

Lemma replay_never_reruns_witness :
  let c := resumed_after [Run "a"; Run "b"] in
  replayable (flow (st resumed_start)) "a" "ptr_0" ∧
  step_status (flow (st c)) !! "a" = step_status (flow (st resumed_start)) !! "a" ∧
  is_Some (future_done (flow (st c)) "a") ∧
  ∃ p, pcs c !! "a" = Some p ∧ suspended p = false ∧ ∀ q, p = Finished q → _pointer_id q = Ok "ptr_0".
Proof.
  assert (replayable (flow (st resumed_start)) "a" "ptr_0") as Hrep.
  { split_and!; [vm_compute; reflexivity|done|vm_compute; reflexivity]. }
  intros c. split; [exact Hrep|].
  apply (replay_never_reruns resumed_env resumed_start c "a" "ptr_0").
  - apply resumed_run. vm_compute. reflexivity.
  - apply (bool_decide_unpack _). vm_compute. exact I.
  - exact Hrep.
Defined.
