(* ===== verification/Settings.v ===== *)
(** The settings read from the environment ([eap/protocol/settings.py]) and
    the execution limits the runtime service makes of them
    ([scripts/eap_runtime_service.py]).

    The environment is a partial map of variables; [int], [float] and
    [json.loads] are parameters.  A JSON number is a [pyval], so the non-finite
    ones Python's parser also accepts are not among them. *)
From stdpp Require Import options.
From S2P Require Import Prelude Values Models ExecutorRuns.
Unset Default Proof Using.

(** What [float] answers. *)
Inductive pyfloat := Finite (q : Q) | Infinite (negative : bool) | NaN.

(** [f <= 0] and [f < 0]: no comparison with NaN holds. *)
Definition float_le_0 (f : pyfloat) : bool := match f with Finite q => Qle_bool q 0 | Infinite negative => negative | NaN => false end.
Definition float_lt_0 (f : pyfloat) : bool := match f with Finite q => Qlt_bool q 0 | Infinite negative => negative | NaN => false end.

Record LLMClientSettings := {
  base_url : string;
  model_name : string;
  api_key : string;
  timeout_seconds : Z;
  temperature : pyfloat;
  openai_api_mode : string;
  extra_headers : list (string * string)
}.

(** The fields hold whatever the JSON object held until they are validated. *)
Record ToolLimitSettings := {
  set_max_concurrency : pyval;
  set_requests_per_second : pyval;
  set_burst_capacity : pyval
}.

Record ExecutorLimitSettings := {
  set_max_global_concurrency : Z;
  set_max_total_runtime_seconds : option pyfloat;
  set_max_reference_resolution_depth : Z;
  set_global_requests_per_second : option pyfloat;
  set_global_burst_capacity : option Z;
  per_tool_limits : list (string * ToolLimitSettings)
}.

Record EAPSettings := { architect : LLMClientSettings; auditor : LLMClientSettings; executor : ExecutorLimitSettings }.

Definition DEFAULT_BASE_URL := "http://localhost:1234".
Definition DEFAULT_MODEL := "nemotron-orchestrator-8b".
Definition DEFAULT_TIMEOUT_SECONDS : Z := 60.
Definition DEFAULT_OPENAI_API_MODE := "chat_completions".
Definition DEFAULT_EXECUTOR_MAX_CONCURRENCY : Z := 8.

Section settings.
Context (py_int : string → result Z) (py_float : string → result pyfloat) (json_loads : string → result pyval).

(** [except ValueError], [except json.JSONDecodeError] *)
Definition except {A} (caught : exn_class → bool) (r : result A) (e : exn) : result A :=
  match r with Raise e' => Raise (if caught (exn_cls e') then e else e') | Ok a => Ok a end.

Definition _parse_float (value field_name : string) : result pyfloat :=
  except is_value_error (py_float value) (value_error ("Invalid float for " +:+ field_name +:+ ": " +:+ value)).
Definition _parse_int (value field_name : string) : result Z :=
  except is_value_error (py_int value) (value_error ("Invalid integer for " +:+ field_name +:+ ": " +:+ value)).

Definition _validate_base_url (base_url field_name : string) : result string :=
  let normalized := rstrip_slashes base_url in
  _ ← raise_if (bool_decide (normalized = ""))
        (value_error (field_name +:+ " is empty. Set it to your LLM gateway URL (e.g., 'http://localhost:1234'). See docs/configuration.md for details."));
  _ ← raise_if (negb (py_startswith normalized "http://" || py_startswith normalized "https://"))
        (value_error (field_name +:+ " must start with http:// or https:// (got '" +:+ normalized +:+ "'). Example: 'http://localhost:1234'. See docs/configuration.md."));
  Ok normalized.

Definition _parse_optional_float (value field_name : string) : result (option pyfloat) :=
  let normalized := py_strip value in
  if decide (normalized = "") then Ok None else Some <$> _parse_float normalized field_name.
Definition _parse_optional_int (value field_name : string) : result (option Z) :=
  let normalized := py_strip value in
  if decide (normalized = "") then Ok None else Some <$> _parse_int normalized field_name.

(** [value.strip() or "{}"], parsed. *)
Definition json_object (value field_name : string) : result (list (string * pyval)) :=
  let normalized := py_strip value in
  parsed ← except (λ c, bool_decide (c = JSONDecodeError)) (json_loads (if decide (normalized = "") then "{}" else normalized))
             (value_error (field_name +:+ " must be valid JSON."));
  match parsed with
  | PDict d => Ok d
  | _ => Raise (value_error (field_name +:+ " must be a JSON object."))
  end.

Definition add_header (field_name : string) (headers : list (string * string)) (item : string * pyval) : result (list (string * string)) :=
  _ ← raise_if (py_blank item.1) (value_error (field_name +:+ " keys must be non-empty strings."));
  match item.2 with
  | PStr raw_value =>
      _ ← raise_if (py_blank raw_value) (value_error (field_name +:+ " values must be non-empty strings."));
      Ok (dict_set headers (py_strip item.1) (py_strip raw_value))
  | _ => Raise (value_error (field_name +:+ " values must be non-empty strings."))
  end.

Definition _parse_extra_headers (value field_name : string) : result (list (string * string)) :=
  parsed ← json_object value field_name;
  fold_result (add_header field_name) [] parsed.

Definition _parse_openai_api_mode (value field_name : string) : result string :=
  let normalized := py_lower (py_strip value) in
  if bool_decide (normalized = "chat_completions") || bool_decide (normalized = "responses") then Ok normalized
  else Raise (value_error (field_name +:+ " must be one of: chat_completions, responses (got '" +:+ py_strip value +:+
    "'). Use 'chat_completions' for standard OpenAI-compatible gateways or 'responses' for the OpenAI Responses API. See docs/configuration.md.")).

Section environ.
Variable environ : string → option string.

(** [os.getenv] *)
Definition getenv (name default_ : string) : string := default default_ (environ name).
(** [os.getenv(f"{role_prefix}_{name}", os.getenv(f"EAP_{name}", default))] *)
Definition role_env (role_prefix name default_ : string) : string := getenv (role_prefix +:+ "_" +:+ name) (getenv ("EAP_" +:+ name) default_).

Definition _build_client_settings (role_prefix : string) : result LLMClientSettings :=
  base_url ← _validate_base_url (role_env role_prefix "BASE_URL" DEFAULT_BASE_URL) (role_prefix +:+ "_BASE_URL");
  let model_name := py_strip (role_env role_prefix "MODEL" DEFAULT_MODEL) in
  _ ← raise_if (bool_decide (model_name = "")) (value_error (role_prefix +:+
        "_MODEL cannot be empty. Set it to your model name (e.g., 'gpt-4o', 'nemotron-orchestrator-8b'). See docs/configuration.md."));
  let api_key := py_strip (role_env role_prefix "API_KEY" "not-needed") in
  _ ← raise_if (bool_decide (api_key = "")) (value_error (role_prefix +:+ "_API_KEY cannot be empty"));
  timeout_seconds ← _parse_int (role_env role_prefix "TIMEOUT_SECONDS" (pretty DEFAULT_TIMEOUT_SECONDS)) (role_prefix +:+ "_TIMEOUT_SECONDS");
  _ ← raise_if (timeout_seconds <=? 0)%Z (value_error (role_prefix +:+ "_TIMEOUT_SECONDS must be > 0"));
  temperature ← _parse_float (role_env role_prefix "TEMPERATURE" "0.0") (role_prefix +:+ "_TEMPERATURE");
  _ ← raise_if (float_lt_0 temperature) (value_error (role_prefix +:+ "_TEMPERATURE must be >= 0"));
  openai_api_mode ← _parse_openai_api_mode (role_env role_prefix "OPENAI_API_MODE" DEFAULT_OPENAI_API_MODE) (role_prefix +:+ "_OPENAI_API_MODE");
  global_extra_headers ← _parse_extra_headers (getenv "EAP_EXTRA_HEADERS_JSON" "{}") "EAP_EXTRA_HEADERS_JSON";
  role_extra_headers ← _parse_extra_headers (getenv (role_prefix +:+ "_EXTRA_HEADERS_JSON") "{}") (role_prefix +:+ "_EXTRA_HEADERS_JSON");
  Ok {| base_url := base_url; model_name := model_name; api_key := api_key; timeout_seconds := timeout_seconds; temperature := temperature;
        openai_api_mode := openai_api_mode; extra_headers := dict_update global_extra_headers role_extra_headers |}.

Definition is_int (v : pyval) : bool := match v with PInt _ => true | _ => false end.
Definition is_number (v : pyval) : bool := match v with PInt _ | PFloat _ => true | _ => false end.
Definition given (v : pyval) : bool := match v with PNone => false | _ => true end.
(** [v <= 0] of a number. *)
Definition number_le_0 (v : pyval) : bool := match v with PInt z => (z <=? 0)%Z | PFloat q => Qle_bool q 0 | _ => false end.

Definition _validate_tool_limit_settings (tool_name : string) (limits : ToolLimitSettings) : result unit :=
  let per_tool field := "Per-tool " +:+ field +:+ " for '" +:+ tool_name +:+ "'" in
  let c := set_max_concurrency limits in let r := set_requests_per_second limits in let b := set_burst_capacity limits in
  _ ← raise_if (py_blank tool_name) (value_error "Per-tool limit keys must be non-empty tool names.");
  _ ← raise_if (given c && negb (is_int c)) (value_error (per_tool "max_concurrency" +:+ " must be an integer."));
  _ ← raise_if (given c && number_le_0 c) (value_error (per_tool "max_concurrency" +:+ " must be > 0"));
  _ ← raise_if (given r && negb (is_number r)) (value_error (per_tool "requests_per_second" +:+ " must be numeric."));
  _ ← raise_if (given r && number_le_0 r) (value_error (per_tool "requests_per_second" +:+ " must be > 0"));
  _ ← raise_if (given b && negb (is_int b)) (value_error (per_tool "burst_capacity" +:+ " must be an integer."));
  _ ← raise_if (given b && number_le_0 b) (value_error (per_tool "burst_capacity" +:+ " must be > 0"));
  raise_if (given b && negb (given r)) (value_error (per_tool "burst_capacity" +:+ " requires requests_per_second")).

(** An entry of the JSON object of the limits. *)
Definition add_tool_limit (limits : list (string * ToolLimitSettings)) (item : string * pyval) : result (list (string * ToolLimitSettings)) :=
  match item.2 with
  | PDict raw =>
      let get k := default PNone (dict_get raw k) in
      let s := {| set_max_concurrency := get "max_concurrency"; set_requests_per_second := get "requests_per_second";
                  set_burst_capacity := get "burst_capacity" |} in
      _ ← _validate_tool_limit_settings item.1 s;
      Ok (dict_set limits item.1 s)
  | _ => Raise (value_error ("Per-tool limit for '" +:+ item.1 +:+ "' must be a JSON object."))
  end.

Definition _build_executor_limits : result ExecutorLimitSettings :=
  max_concurrency ← _parse_int (getenv "EAP_EXECUTOR_MAX_CONCURRENCY" (pretty DEFAULT_EXECUTOR_MAX_CONCURRENCY)) "EAP_EXECUTOR_MAX_CONCURRENCY";
  _ ← raise_if (max_concurrency <=? 0)%Z (value_error "EAP_EXECUTOR_MAX_CONCURRENCY must be > 0");
  max_total_runtime_seconds ← _parse_optional_float (getenv "EAP_EXECUTOR_MAX_TOTAL_RUNTIME_SECONDS" "") "EAP_EXECUTOR_MAX_TOTAL_RUNTIME_SECONDS";
  _ ← raise_if (negb (opt_all (negb ∘ float_le_0) max_total_runtime_seconds)) (value_error "EAP_EXECUTOR_MAX_TOTAL_RUNTIME_SECONDS must be > 0");
  max_reference_resolution_depth ← _parse_int (getenv "EAP_EXECUTOR_MAX_REFERENCE_RESOLUTION_DEPTH" "32") "EAP_EXECUTOR_MAX_REFERENCE_RESOLUTION_DEPTH";
  _ ← raise_if (max_reference_resolution_depth <=? 0)%Z (value_error "EAP_EXECUTOR_MAX_REFERENCE_RESOLUTION_DEPTH must be > 0");
  global_rps ← _parse_optional_float (getenv "EAP_EXECUTOR_GLOBAL_RPS" "") "EAP_EXECUTOR_GLOBAL_RPS";
  _ ← raise_if (negb (opt_all (negb ∘ float_le_0) global_rps)) (value_error "EAP_EXECUTOR_GLOBAL_RPS must be > 0");
  global_burst ← _parse_optional_int (getenv "EAP_EXECUTOR_GLOBAL_BURST" "") "EAP_EXECUTOR_GLOBAL_BURST";
  _ ← raise_if (negb (opt_all (Z.ltb 0) global_burst)) (value_error "EAP_EXECUTOR_GLOBAL_BURST must be > 0");
  _ ← raise_if (negb (is_None global_burst) && is_None global_rps) (value_error "EAP_EXECUTOR_GLOBAL_BURST requires EAP_EXECUTOR_GLOBAL_RPS");
  parsed ← json_object (getenv "EAP_EXECUTOR_PER_TOOL_LIMITS_JSON" "{}") "EAP_EXECUTOR_PER_TOOL_LIMITS_JSON";
  per_tool ← fold_result add_tool_limit [] parsed;
  Ok {| set_max_global_concurrency := max_concurrency; set_max_total_runtime_seconds := max_total_runtime_seconds;
        set_max_reference_resolution_depth := max_reference_resolution_depth; set_global_requests_per_second := global_rps;
        set_global_burst_capacity := global_burst; per_tool_limits := per_tool |}.

Definition load_settings : result EAPSettings :=
  a ← _build_client_settings "EAP_ARCHITECT";
  b ← _build_client_settings "EAP_AUDITOR";
  c ← _build_executor_limits;
  Ok {| architect := a; auditor := b; executor := c |}.

(** ** The execution limits of the runtime service *)

(** The float of a setting for a field [gt=0.0], which NaN fails. *)
Definition positive (f : option pyfloat) : bool := opt_all (λ f, match f with NaN => false | _ => negb (float_le_0 f) end) f.
(** The limits of [Models] are rational; an infinite one has no counterpart. *)
Definition rational (f : option pyfloat) : option (option Q) :=
  match f with None | Some NaN => Some None | Some (Finite q) => Some (Some q) | Some (Infinite _) => None end.

Definition int_field (v : pyval) : option Z := match v with PInt z => Some z | _ => None end.
Definition float_field (v : pyval) : option Q := match v with PInt z => Some (inject_Z z) | PFloat q => Some q | _ => None end.

(** [ToolExecutionLimit(...)], validated. *)
Definition tool_limit (item : string * ToolLimitSettings) : result (string * ToolExecutionLimit) :=
  let l := {| max_concurrency := int_field (set_max_concurrency item.2); requests_per_second := float_field (set_requests_per_second item.2);
              burst_capacity := int_field (set_burst_capacity item.2) |} in
  _ ← raise_if (negb (validate_tool_limit_fields l)) (Exn ValidationError "1 validation error for ToolExecutionLimit");
  _ ← except is_value_error (validate_bucket_contract l) (Exn ValidationError "1 validation error for ToolExecutionLimit");
  Ok (item.1, l).

(** [ExecutionLimits(...)], validated; [None] for infinite limits. *)
Definition _load_default_execution_limits : result (option ExecutionLimits) :=
  settings ← load_settings;
  let e := executor settings in
  per_tool ← map_result tool_limit (per_tool_limits e);
  let invalid := Exn ValidationError "1 validation error for ExecutionLimits" in
  _ ← raise_if (negb (positive (set_max_total_runtime_seconds e) && positive (set_global_requests_per_second e))) invalid;
  match rational (set_max_total_runtime_seconds e), rational (set_global_requests_per_second e) with
  | Some runtime, Some rps =>
      let l := {| max_global_concurrency := set_max_global_concurrency e; max_total_runtime_seconds := runtime;
                  max_reference_resolution_depth := set_max_reference_resolution_depth e; global_requests_per_second := rps;
                  global_burst_capacity := set_global_burst_capacity e; Models.per_tool := per_tool |} in
      _ ← raise_if (negb (validate_limits_fields l)) invalid;
      _ ← except is_value_error (validate_execution_limits l) invalid;
      Ok (Some l)
  | _, _ => Ok None
  end.

(** ** The type of loaded settings *)

Definition stripped (s : string) : Prop := s ≠ "" ∧ py_strip s = s.

(** The documented ranges of floats, [>= 0] and [> 0]; NaN is in neither. *)
Definition non_negative (f : pyfloat) : Prop := match f with Finite q => (0 <= q)%Q | Infinite negative => negative = false | NaN => False end.
Definition above_zero (f : pyfloat) : Prop := match f with Finite q => (0 < q)%Q | Infinite negative => negative = false | NaN => False end.

Record client_ok (c : LLMClientSettings) : Prop := {
  ok_base_url : ∃ rest, (base_url c = "http://" +:+ rest ∨ base_url c = "https://" +:+ rest) ∧ rstrip_slashes (base_url c) = base_url c;
  ok_model_name : stripped (model_name c);
  ok_api_key : stripped (api_key c);
  ok_timeout : (0 < timeout_seconds c)%Z;
  ok_temperature : temperature c = NaN ∨ non_negative (temperature c);
  ok_mode : openai_api_mode c = "chat_completions" ∨ openai_api_mode c = "responses";
  ok_headers : NoDup (extra_headers c).*1 ∧ Forall (λ h, stripped h.1 ∧ stripped h.2) (extra_headers c)
}.

(** [Optional[int]] and [Optional[float]], positive. *)
Definition positive_int (v : pyval) : Prop := v = PNone ∨ ∃ z, v = PInt z ∧ (0 < z)%Z.
Definition positive_number (v : pyval) : Prop := v = PNone ∨ ∃ q, float_field v = Some q ∧ (0 < q)%Q.
Definition tool_limit_ok (l : ToolLimitSettings) : Prop :=
  positive_int (set_max_concurrency l) ∧ positive_number (set_requests_per_second l) ∧ positive_int (set_burst_capacity l) ∧
  (set_burst_capacity l ≠ PNone → set_requests_per_second l ≠ PNone).

Record executor_ok (e : ExecutorLimitSettings) : Prop := {
  ok_concurrency : (0 < set_max_global_concurrency e)%Z;
  ok_runtime : ∀ f, set_max_total_runtime_seconds e = Some f → f = NaN ∨ above_zero f;
  ok_depth : (0 < set_max_reference_resolution_depth e)%Z;
  ok_rps : ∀ f, set_global_requests_per_second e = Some f → f = NaN ∨ above_zero f;
  ok_burst : ∀ b, set_global_burst_capacity e = Some b → (0 < b)%Z ∧ set_global_requests_per_second e ≠ None;
  ok_per_tool : NoDup (per_tool_limits e).*1 ∧ Forall (λ kv, py_blank kv.1 = false ∧ tool_limit_ok kv.2) (per_tool_limits e)
}.

Lemma stripped_strip s : py_strip s ≠ "" → stripped (py_strip s).
Proof. split; [done|apply py_strip_idemp]. Qed.
Lemma not_blank s : py_blank s = false → stripped (py_strip s).
Proof. intros ?%bool_decide_eq_false. by apply stripped_strip. Qed.

(** A dict built entry by entry. *)
Lemma dict_set_ok {V} (Q : string * V → Prop) d k v : NoDup d.*1 → Forall Q d → Q (k, v) →
  NoDup (dict_set d k v).*1 ∧ Forall Q (dict_set d k v).
Proof.
  intros Hnd HQ Hkv. split; [by apply dict_set_NoDup|]. rewrite Forall_forall.
  intros [k' v'] Hin%dict_get_Some; [|by apply dict_set_NoDup]. rewrite dict_get_set in Hin.
  case_decide as Hk; [by simplify_eq|]. apply dict_get_elem in Hin. rewrite Forall_forall in HQ. by apply HQ.
Qed.
Lemma fold_dict {A V} (f : list (string * V) → A → result (list (string * V))) (Q : string * V → Prop) l d d' :
  (∀ d a d', f d a = Ok d' → ∃ k v, d' = dict_set d k v ∧ Q (k, v)) → NoDup d.*1 → Forall Q d →
  fold_result f d l = Ok d' → NoDup d'.*1 ∧ Forall Q d'.
Proof.
  intros Hf. revert d. induction l as [|a l IH]; intros d Hnd HQ; cbn [fold_result]; [by intros [= <-]|].
  intros (d1 & (k & v & -> & Hkv)%Hf & H)%bind_Ok. destruct (dict_set_ok Q d k v); [done..|]. by apply IH in H.
Qed.
Lemma dict_update_ok {V} (Q : string * V → Prop) (e d : list (string * V)) : NoDup d.*1 → Forall Q d → Forall Q e →
  NoDup (dict_update d e).*1 ∧ Forall Q (dict_update d e).
Proof.
  intros Hd HQd HQe. unfold dict_update. revert d Hd HQd. induction HQe as [|[k v] e Hkv HQe IH]; intros d Hd HQd; [done|].
  cbn [foldl fst snd]. destruct (dict_set_ok Q d k v); [done..|]. by apply IH.
Qed.

Lemma headers_ok value field_name headers : _parse_extra_headers value field_name = Ok headers →
  NoDup headers.*1 ∧ Forall (λ h, stripped h.1 ∧ stripped h.2) headers.
Proof.
  intros (parsed & _ & H)%bind_Ok. revert H. apply fold_dict; [|constructor|constructor].
  intros d [k v] d' (u & Hk%raise_if_Ok & H)%bind_Ok. destruct v as [| | | |s| |]; try done. cbn in H.
  apply bind_Ok in H as (? & Hs%raise_if_Ok & [= <-]). eexists _, _. split; [done|]. by split; apply not_blank.
Qed.

Lemma tool_limits_ok environ_value limits :
  fold_result add_tool_limit [] environ_value = Ok limits →
  NoDup limits.*1 ∧ Forall (λ kv, py_blank kv.1 = false ∧ tool_limit_ok kv.2) limits.
Proof.
  apply fold_dict; [|constructor|constructor]. intros d [k v] d'. destruct v as [| | | | | |raw]; try done. cbn.
  set (l := Build_ToolLimitSettings _ _ _). intros (u & H & [= <-])%bind_Ok. exists k, l. split; [done|]. cbn [fst snd].
  unfold _validate_tool_limit_settings in H. generalize dependent l. intros [c r b]. cbn [set_max_concurrency set_requests_per_second set_burst_capacity].
  intros H. repeat (apply bind_Ok in H as (? & ?%raise_if_Ok & H)). apply raise_if_Ok in H. split; [done|]. unfold tool_limit_ok. cbn.
  split_and!.
  - destruct c; try done; [by left|]. right. eexists. split; [done|]. cbn in *. lia.
  - destruct r; try done; [by left|right..]; eexists; (split; [done|]); cbn in *.
    + change 0%Q with (inject_Z 0). rewrite <- Zlt_Qlt. lia.
    + apply Qnot_le_lt. intros Hq%Qle_bool_iff. congruence.
  - destruct b; try done; [by left|]. right. eexists. split; [done|]. cbn in *. lia.
  - by destruct b, r.
Qed.

Lemma base_url_ok value field_name u : _validate_base_url value field_name = Ok u →
  ∃ rest, (u = "http://" +:+ rest ∨ u = "https://" +:+ rest) ∧ rstrip_slashes u = u.
Proof.
  intros (? & _ & H)%bind_Ok. apply bind_Ok in H as (? & Hp%raise_if_Ok%negb_false_iff & [= <-]). unfold py_startswith in Hp.
  destruct (strip_prefix "http://" _) as [rest|] eqn:E1;
    [|destruct (strip_prefix "https://" _) as [rest|] eqn:E2; [|done]];
    exists rest; (split; [|apply rstrip_slashes_idemp]); [left|right]; by apply strip_prefix_Some.
Qed.

Lemma mode_ok value field_name mode : _parse_openai_api_mode value field_name = Ok mode → mode = "chat_completions" ∨ mode = "responses".
Proof.
  unfold _parse_openai_api_mode. intros H. destruct (bool_decide _) eqn:E1; [|destruct (bool_decide (_ = "responses")) eqn:E2; [|done]].
  all: injection H as <-. - left. by apply bool_decide_eq_true in E1. - right. by apply bool_decide_eq_true in E2.
Qed.

Lemma not_negative t : float_lt_0 t = false → t = NaN ∨ non_negative t.
Proof. destruct t as [q|n|]; [right|by right|by left]. cbn in *. unfold Qlt_bool in *. by apply Qle_bool_iff, negb_false_iff. Qed.
Lemma not_le_0 (o : option pyfloat) f : negb (opt_all (negb ∘ float_le_0) o) = false → o = Some f → f = NaN ∨ above_zero f.
Proof.
  intros H%negb_false_iff ->. cbn in H. apply negb_true_iff in H. destruct f as [q|n|]; [right|by right|by left]. cbn in *.
  apply Qnot_le_lt. intros Hq%Qle_bool_iff. congruence.
Qed.

Lemma client_settings_ok role_prefix c : _build_client_settings role_prefix = Ok c → client_ok c.
Proof.
  unfold _build_client_settings. intros H.
  apply bind_Ok in H as (u & Hu%base_url_ok & H). apply bind_Ok in H as (? & Hm%raise_if_Ok%bool_decide_eq_false & H).
  apply bind_Ok in H as (? & Hk%raise_if_Ok%bool_decide_eq_false & H). apply bind_Ok in H as (t & _ & H).
  apply bind_Ok in H as (? & Ht%raise_if_Ok & H). apply bind_Ok in H as (temp & _ & H).
  apply bind_Ok in H as (? & Htemp%raise_if_Ok%not_negative & H). apply bind_Ok in H as (mode & Hmode%mode_ok & H).
  apply bind_Ok in H as (g & [Hg1 Hg2]%headers_ok & H). apply bind_Ok in H as (r & [Hr1 Hr2]%headers_ok & [= <-]).
  split; cbn; [done|by apply stripped_strip..|lia|done|done|by apply dict_update_ok].
Qed.

Lemma executor_settings_ok e : _build_executor_limits = Ok e → executor_ok e.
Proof.
  unfold _build_executor_limits. intros H.
  apply bind_Ok in H as (c & _ & H). apply bind_Ok in H as (? & Hc%raise_if_Ok & H).
  apply bind_Ok in H as (rt & _ & H). apply bind_Ok in H as (? & Hrt%raise_if_Ok & H).
  apply bind_Ok in H as (d & _ & H). apply bind_Ok in H as (? & Hd%raise_if_Ok & H).
  apply bind_Ok in H as (rps & _ & H). apply bind_Ok in H as (? & Hrps%raise_if_Ok & H).
  apply bind_Ok in H as (b & _ & H). apply bind_Ok in H as (? & Hb%raise_if_Ok%negb_false_iff & H).
  apply bind_Ok in H as (? & Hbr%raise_if_Ok & H). apply bind_Ok in H as (parsed & _ & H).
  apply bind_Ok in H as (l & Hl%tool_limits_ok & [= <-]).
  split; cbn; [lia|intros f; by apply not_le_0|lia|intros f; by apply not_le_0| |done].
  intros z ->. cbn in *. split; [lia|]. by destruct rps.
Qed.

(** ** Errors *)

Definition raises_value_error {A} (r : result A) : Prop := ∀ e, r = Raise e → is_value_error (exn_cls e) = true.
Lemma ve_ok {A} (a : A) : raises_value_error (Ok a).
Proof. done. Qed.
Lemma ve_raise {A} m : raises_value_error (A := A) (Raise (value_error m)).
Proof. by intros e [= <-]. Qed.
Lemma ve_raise_if b m : raises_value_error (raise_if b (value_error m)).
Proof. destruct b; [apply ve_raise|apply ve_ok]. Qed.
Lemma ve_bind {A B} (r : result A) (k : A → result B) :
  raises_value_error r → (∀ a, raises_value_error (k a)) → raises_value_error (r ≫= k).
Proof. intros Hr Hk e [H|(a & _ & H)]%bind_Raise; [by apply Hr|by eapply Hk]. Qed.
Lemma ve_fmap {A B} (f : A → B) (r : result A) : raises_value_error r → raises_value_error (f <$> r).
Proof. intros Hr e. destruct r as [a|e']; [done|]. intros [= ->]. by apply Hr. Qed.
Lemma ve_except {A} caught (r : result A) m : (∀ e, r = Raise e → caught (exn_cls e) = true) →
  raises_value_error (except caught r (value_error m)).
Proof. intros Hr e. destruct r as [a|e']; [done|]. cbn. rewrite (Hr e' eq_refl). by intros [= <-]. Qed.
Lemma ve_fold {A B} (f : B → A → result B) b l : (∀ b a, raises_value_error (f b a)) → raises_value_error (fold_result f b l).
Proof. intros Hf. revert b. induction l as [|a l IH]; intros b; [apply ve_ok|]. apply ve_bind; [apply Hf|apply IH]. Qed.

(** What the parsers document: [int] and [float] raise [ValueError], and
    [json.loads] [JSONDecodeError]. *)
Definition parsers_documented : Prop :=
  (∀ s, raises_value_error (py_int s)) ∧ (∀ s, raises_value_error (py_float s)) ∧
  (∀ s e, json_loads s = Raise e → exn_cls e = JSONDecodeError).

Section documented.
Hypothesis Hparsers : parsers_documented.

Lemma ve_int value field_name : raises_value_error (_parse_int value field_name).
Proof. apply ve_except. intros e. apply Hparsers. Qed.
Lemma ve_float value field_name : raises_value_error (_parse_float value field_name).
Proof. apply ve_except. intros e. apply Hparsers. Qed.
Lemma ve_json value field_name : raises_value_error (json_object value field_name).
Proof.
  apply ve_bind; [|by intros []; apply ve_raise || apply ve_ok]. apply ve_except. intros e H. apply bool_decide_eq_true.
  by eapply Hparsers.
Qed.

Local Ltac ve := repeat first
  [ apply ve_raise_if | apply ve_raise | apply ve_ok | apply ve_int | apply ve_float | apply ve_json | apply ve_fmap | apply ve_fold; intros ? []
  | apply ve_bind; [|intros ?] | case_decide | case_match ].

Lemma ve_headers value field_name : raises_value_error (_parse_extra_headers value field_name).
Proof. unfold _parse_extra_headers, add_header. ve. Qed.
Lemma ve_client role_prefix : raises_value_error (_build_client_settings role_prefix).
Proof.
  unfold _build_client_settings, _validate_base_url, _parse_openai_api_mode.
  repeat (apply ve_bind; [first [apply ve_headers|ve]|intros ?]). apply ve_ok.
Qed.
Lemma ve_executor : raises_value_error _build_executor_limits.
Proof. unfold _build_executor_limits, _parse_optional_float, _parse_optional_int, add_tool_limit, _validate_tool_limit_settings. ve. Qed.
End documented.

(** ** NaN *)

(** No variable of the environment reads as NaN; nor does the default. *)
Definition no_nan : Prop :=
  py_float "0.0" ≠ Ok NaN ∧ ∀ name v, environ name = Some v → py_float v ≠ Ok NaN ∧ py_float (py_strip v) ≠ Ok NaN.

Lemma parsed_float value field_name f : _parse_float value field_name = Ok f → py_float value = Ok f.
Proof. unfold _parse_float. destruct (py_float value) as [x|e]; cbn; [by intros [= ->]|]. by destruct (is_value_error _). Qed.

Lemma client_not_nan role_prefix c : no_nan → _build_client_settings role_prefix = Ok c → temperature c ≠ NaN.
Proof.
  intros [Hd Hn] H. unfold _build_client_settings in H. do 5 apply bind_Ok in H as (? & _ & H).
  apply bind_Ok in H as (temp & Htemp%parsed_float & H). do 4 apply bind_Ok in H as (? & _ & H). injection H as <-. cbn. intros ->.
  revert Htemp. unfold role_env, getenv. destruct (environ (role_prefix +:+ _ +:+ _)) as [v|] eqn:E; [exact (proj1 (Hn _ _ E))|].
  clear E. cbn [default from_option]. destruct (environ _) as [v|] eqn:E; [exact (proj1 (Hn _ _ E))|exact Hd].
Qed.
Lemma optional_not_nan name o : no_nan → _parse_optional_float (getenv name "") name = Ok o → o ≠ Some NaN.
Proof.
  intros [_ Hn] H ->. unfold _parse_optional_float, getenv in H. destruct (environ name) as [v|] eqn:E; [|done]. cbn in H.
  case_decide; [done|]. destruct (_parse_float _ _) as [f|e] eqn:Ef; [|done]. injection H as ->. apply parsed_float in Ef. exact (proj2 (Hn _ _ E) Ef).
Qed.
Lemma executor_not_nan e : no_nan → _build_executor_limits = Ok e →
  set_max_total_runtime_seconds e ≠ Some NaN ∧ set_global_requests_per_second e ≠ Some NaN.
Proof.
  intros Hn H. unfold _build_executor_limits in H. do 2 apply bind_Ok in H as (? & _ & H).
  apply bind_Ok in H as (rt & Hrt%optional_not_nan & H); [|done]. do 3 apply bind_Ok in H as (? & _ & H).
  apply bind_Ok in H as (rps & Hrps%optional_not_nan & H); [|done]. do 6 apply bind_Ok in H as (? & _ & H). by injection H as <-.
Qed.

(** C32: When the parsers raise what they document, loading the settings either
    gives settings whose fields have their types and ranges - base URLs with an
    HTTP scheme and no trailing slash, stripped names and keys, a positive
    timeout, one of the two API modes, headers with distinct stripped names,
    positive limits, a burst only with a rate -, with one exception: a
    temperature, the total runtime or the global rate may be NaN, which the
    comparisons let through; or raises a [ValueError].  If no variable reads as
    NaN, there is no exception: those three are in the documented ranges.  (A
    NaN in the JSON of the per-tool limits is outside the model.) *)
Theorem settings_typed : parsers_documented →
  match load_settings with
  | Ok s => client_ok (architect s) ∧ client_ok (auditor s) ∧ executor_ok (executor s) ∧
      (no_nan → non_negative (temperature (architect s)) ∧ non_negative (temperature (auditor s)) ∧
         (∀ f, set_max_total_runtime_seconds (executor s) = Some f → above_zero f) ∧
         (∀ f, set_global_requests_per_second (executor s) = Some f → above_zero f))
  | Raise e => is_value_error (exn_cls e) = true
  end.
Proof.
  intros Hp. destruct load_settings as [s|e] eqn:E; unfold load_settings in E.
  - apply bind_Ok in E as (a & Ea & E). apply bind_Ok in E as (b & Eb & E). apply bind_Ok in E as (c & Ec & [= <-]). cbn.
    pose proof (client_settings_ok _ _ Ea) as Ha. pose proof (client_settings_ok _ _ Eb) as Hb. pose proof (executor_settings_ok _ Ec) as Hc.
    split_and!; [done..|]. intros Hn. destruct (executor_not_nan _ Hn Ec) as [N1 N2]. split_and!.
    + destruct (ok_temperature _ Ha) as [H|H]; [|done]. by destruct (client_not_nan _ _ Hn Ea).
    + destruct (ok_temperature _ Hb) as [H|H]; [|done]. by destruct (client_not_nan _ _ Hn Eb).
    + intros f Hf. destruct (ok_runtime _ Hc f Hf) as [->|]; done.
    + intros f Hf. destruct (ok_rps _ Hc f Hf) as [->|]; done.
  - enough (raises_value_error load_settings) as H by exact (H e E).
    repeat (apply ve_bind; [first [by apply ve_client|by apply ve_executor]|intros ?]). apply ve_ok.
Qed.

(** ** The execution limits *)

Definition not_nan (f : option pyfloat) : bool := match f with Some NaN => false | _ => true end.
Definition not_infinite (f : option pyfloat) : bool := match f with Some (Infinite _) => false | _ => true end.

Lemma positive_spec f : (∀ x, f = Some x → x = NaN ∨ above_zero x) → positive f = not_nan f.
Proof.
  destruct f as [[q|n|]|]; try done; intros H; destruct (H _ eq_refl) as [|H']; try done; cbn in *; [|by subst].
  apply negb_true_iff, not_true_iff_false. rewrite Qle_bool_iff. by apply Qlt_not_le.
Qed.
Lemma Qlt_bool_lt q : (0 < q)%Q → Qlt_bool 0 q = true.
Proof. intros H. unfold Qlt_bool. apply negb_true_iff, not_true_iff_false. rewrite Qle_bool_iff. by apply Qlt_not_le. Qed.
Lemma rational_positive f : (∀ x, f = Some x → x = NaN ∨ above_zero x) → not_infinite f = true →
  ∃ o, rational f = Some o ∧ opt_all (Qlt_bool 0) o = true ∧ (not_nan f = true → is_None o = is_None f).
Proof.
  destruct f as [[q|n|]|]; intros H Hi; try done; [|by exists None..].
  destruct (H _ eq_refl) as [|H']; [done|]. exists (Some q). split_and!; [done|by apply Qlt_bool_lt|done].
Qed.

Lemma int_field_ok v : positive_int v → opt_all (Z.leb 1) (int_field v) = true ∧ (v ≠ PNone → int_field v ≠ None).
Proof. intros [->|(z & -> & Hz)]; [done|]. split; [cbn; lia|done]. Qed.
Lemma float_field_ok v : positive_number v → opt_all (Qlt_bool 0) (float_field v) = true ∧ (v ≠ PNone → float_field v ≠ None).
Proof. intros [->|(q & Hq & Hpos)]; [done|]. rewrite Hq. split; [by apply Qlt_bool_lt|done]. Qed.

(** The tool limit a validated setting becomes. *)
Definition limit_of (l : ToolLimitSettings) : ToolExecutionLimit :=
  {| max_concurrency := int_field (set_max_concurrency l); requests_per_second := float_field (set_requests_per_second l);
     burst_capacity := int_field (set_burst_capacity l) |}.

Lemma tool_limit_made k l : tool_limit_ok l → tool_limit (k, l) = Ok (k, limit_of l) ∧ validate_tool_limit_fields (limit_of l) = true.
Proof.
  intros (Hc & Hr & Hb & Hbr). apply int_field_ok in Hc as [Hc _]. apply float_field_ok in Hr as [Hr Hr'].
  assert (validate_tool_limit_fields (limit_of l) = true) as Hv.
  { unfold validate_tool_limit_fields. cbn. rewrite Hc, Hr. by apply int_field_ok in Hb as [-> _]. }
  split; [|done]. unfold tool_limit. cbn [fst snd]. change (Build_ToolExecutionLimit _ _ _) with (limit_of l). rewrite Hv. unfold validate_bucket_contract. cbn.
  destruct Hb as [->|(z & Hz & _)]; [done|]. rewrite Hz in *. specialize (Hbr ltac:(done)). specialize (Hr' Hbr).
  by destruct (float_field _).
Qed.

Lemma tool_limits_made l : Forall (λ kv, py_blank kv.1 = false ∧ tool_limit_ok kv.2) l →
  map_result tool_limit l = Ok ((λ kv, (kv.1, limit_of kv.2)) <$> l) ∧
  Forall (λ kv, validate_tool_limit_fields kv.2 = true) ((λ kv, (kv.1, limit_of kv.2)) <$> l) ∧
  for_each (λ kv : string * ToolExecutionLimit, raise_if (py_blank kv.1) (value_error "per_tool keys must be non-empty tool names"))
    ((λ kv, (kv.1, limit_of kv.2)) <$> l) = Ok tt.
Proof.
  induction 1 as [|[k s] l [Hk Hs] _ (IH1 & IH2 & IH3)]; [by repeat constructor|].
  destruct (tool_limit_made k s Hs) as [H1 H2]. rewrite fmap_cons. cbn [map_result for_each fst snd]. rewrite H1. cbn [mbind result_bind].
  rewrite IH1. split_and!; [done|by constructor|]. cbn [fst] in Hk. by rewrite Hk.
Qed.

(** From loaded settings without infinite limits, the runtime service makes
    execution limits with exactly their values - as [Models] and the executor
    require them, with distinct tool names - when the reference depth is at
    most 256 and no float is NaN; otherwise building the limits raises
    [ValidationError], though the settings are valid. *)
Theorem limits_from_settings s : load_settings = Ok s →
  let e := executor s in
  not_infinite (set_max_total_runtime_seconds e) = true → not_infinite (set_global_requests_per_second e) = true →
  if (set_max_reference_resolution_depth e <=? 256)%Z && not_nan (set_max_total_runtime_seconds e) && not_nan (set_global_requests_per_second e)
  then ∃ l, _load_default_execution_limits = Ok (Some l) ∧ limits_ok l ∧ is_ok (validate_execution_limits l) = true ∧
    max_global_concurrency l = set_max_global_concurrency e ∧ max_reference_resolution_depth l = set_max_reference_resolution_depth e ∧
    global_burst_capacity l = set_global_burst_capacity e ∧ rational (set_max_total_runtime_seconds e) = Some (max_total_runtime_seconds l) ∧
    rational (set_global_requests_per_second e) = Some (global_requests_per_second l) ∧
    per_tool l = (λ kv, (kv.1, limit_of kv.2)) <$> per_tool_limits e
  else ∃ x, _load_default_execution_limits = Raise x ∧ exn_cls x = ValidationError.
Proof.
  intros Hs e Hi1 Hi2. unfold _load_default_execution_limits. rewrite Hs. cbn [mbind result_bind]. fold e.
  assert (executor_ok e) as [Hc Hrt Hd Hrps Hb [Hnd Hl]].
  { apply bind_Ok in Hs as (a & _ & Hs). apply bind_Ok in Hs as (b & _ & Hs). apply bind_Ok in Hs as (c & Hc & [= Hs]).
    unfold e. subst s. by apply executor_settings_ok. }
  destruct (tool_limits_made _ Hl) as (Hmade & Hvalid & Hkeys). rewrite Hmade. cbn [mbind result_bind].
  rewrite !positive_spec by done.
  destruct (rational_positive _ Hrt Hi1) as (rt & -> & Hrt' & _). destruct (rational_positive _ Hrps Hi2) as (rps & -> & Hrps' & Hnone).
  destruct (not_nan (set_max_total_runtime_seconds e)); [|rewrite andb_false_r; by eexists].
  destruct (not_nan (set_global_requests_per_second e)); [|rewrite andb_false_r; by eexists]. rewrite !andb_true_r. cbn [negb andb raise_if mbind result_bind].
  set (l := Build_ExecutionLimits _ _ _ _ _ _).
  assert (opt_all (Z.leb 1) (set_global_burst_capacity e) = true) as Hburst.
  { destruct (set_global_burst_capacity e) as [b|] eqn:E; [|done]. destruct (Hb b eq_refl). cbn. lia. }
  assert (validate_limits_fields l = (set_max_reference_resolution_depth e <=? 256)%Z) as ->.
  { unfold validate_limits_fields. cbn. rewrite Hrt', Hrps', Hburst, !andb_true_r.
    rewrite (proj2 (Z.leb_le _ _)) by lia. rewrite (proj2 (Z.leb_le 1 (set_max_reference_resolution_depth e))) by lia. done. }
  destruct (Z.leb_spec (set_max_reference_resolution_depth e) 256) as [Hle|Hgt]; [|by eexists]. cbn [negb raise_if mbind result_bind].
  assert (validate_execution_limits l = Ok tt) as Hv.
  { unfold validate_execution_limits. cbn [global_burst_capacity global_requests_per_second Models.per_tool l].
    rewrite Hnone by done. rewrite Hkeys. destruct (set_global_burst_capacity e) as [b|] eqn:E; [|done].
    destruct (Hb b eq_refl) as [_ Hb']. by destruct (set_global_requests_per_second e). }
  rewrite Hv. exists l. split_and!; try done; [|by rewrite Hv]. unfold limits_ok. split_and!; [|done|].
  - unfold validate_limits_fields. cbn. rewrite Hrt', Hrps', Hburst, !andb_true_r.
    rewrite (proj2 (Z.leb_le _ _)) by lia. rewrite (proj2 (Z.leb_le 1 (set_max_reference_resolution_depth e))) by lia.
    by apply Z.leb_le.
  - cbn. rewrite <- list_fmap_compose. exact Hnd.
Qed.
End environ.
End settings.

(** ** Concrete environments *)

Definition sample_int (s : string) : result Z :=
  if decide (s = "60") then Ok 60%Z else if decide (s = "8") then Ok 8%Z else if decide (s = "32") then Ok 32%Z
  else if decide (s = "300") then Ok 300%Z else Raise (value_error "invalid literal for int()").
Definition sample_float (s : string) : result pyfloat :=
  if decide (s = "0.0") then Ok (Finite 0) else if decide (s = "2.5") then Ok (Finite (5 # 2)) else if decide (s = "nan") then Ok NaN
  else Raise (value_error "could not convert string to float").
Definition sample_json (s : string) : result pyval :=
  if decide (s = "{}") then Ok (PDict [])
  else if decide (s = "limits") then Ok (PDict [("scrape_url", PDict [("max_concurrency", PInt 2); ("requests_per_second", PInt 5); ("burst_capacity", PInt 2)])])
  else if decide (s = "headers") then Ok (PDict [(" x-agent ", PStr " a ")])
  else Raise (Exn JSONDecodeError "Expecting value").
Definition environment (l : list (string * string)) (name : string) : option string := dict_get l name.

Lemma sample_documented : parsers_documented sample_int sample_float sample_json.
Proof.
  split_and!; intros s e; unfold sample_int, sample_float, sample_json; repeat (case_decide; [done|]); by intros [= <-].
Qed.

Example default_client : _build_client_settings sample_int sample_float sample_json (environment []) "EAP_AUDITOR" =
  Ok {| base_url := "http://localhost:1234"; model_name := "nemotron-orchestrator-8b"; api_key := "not-needed"; timeout_seconds := 60;
        temperature := Finite 0; openai_api_mode := "chat_completions"; extra_headers := [] |}.
Proof. vm_compute. reflexivity. Qed.

(** The role's variable wins over the global one, also when it is empty. *)
Example role_overrides : (λ c, (base_url c, extra_headers c)) <$>
  _build_client_settings sample_int sample_float sample_json
    (environment [("EAP_BASE_URL", "https://a/"); ("EAP_ARCHITECT_BASE_URL", "https://b//"); ("EAP_EXTRA_HEADERS_JSON", "headers")]) "EAP_ARCHITECT" =
  Ok ("https://b", [("x-agent", "a")]).
Proof. vm_compute. reflexivity. Qed.
Example empty_role_model : _build_client_settings sample_int sample_float sample_json
    (environment [("EAP_MODEL", "m"); ("EAP_ARCHITECT_MODEL", "")]) "EAP_ARCHITECT" =
  Raise (value_error "EAP_ARCHITECT_MODEL cannot be empty. Set it to your model name (e.g., 'gpt-4o', 'nemotron-orchestrator-8b'). See docs/configuration.md.").
Proof. vm_compute. reflexivity. Qed.

(** NaN passes for a temperature and for a positive rate. *)
Example nan_accepted : is_ok (load_settings sample_int sample_float sample_json
  (environment [("EAP_TEMPERATURE", "nan"); ("EAP_EXECUTOR_GLOBAL_RPS", "nan")])) = true.
Proof. vm_compute. reflexivity. Qed.

(** A reference depth the settings accept and the execution limits refuse. *)
Definition deep : string → option string := environment [("EAP_EXECUTOR_MAX_REFERENCE_RESOLUTION_DEPTH", "300")].
Example depth_accepted : is_ok (load_settings sample_int sample_float sample_json deep) = true.
Proof. vm_compute. reflexivity. Qed.
Example depth_refused : _load_default_execution_limits sample_int sample_float sample_json deep =
  Raise (Exn ValidationError "1 validation error for ExecutionLimits").
Proof. vm_compute. reflexivity. Qed.

Definition limited : string → option string :=
  environment [("EAP_EXECUTOR_GLOBAL_RPS", " 2.5 "); ("EAP_EXECUTOR_PER_TOOL_LIMITS_JSON", "limits")].

Lemma limited_no_nan : no_nan sample_float limited.
Proof.
  split; [done|]. intros name v. unfold limited, environment. simpl. repeat case_decide; intros [= <-]; split; vm_compute; done.
Qed.

Lemma settings_typed_witness : ∃ s, load_settings sample_int sample_float sample_json limited = Ok s ∧
  client_ok (architect s) ∧ executor_ok (executor s) ∧ non_negative (temperature (architect s)).
Proof.
  pose proof (settings_typed sample_int sample_float sample_json limited sample_documented) as H. revert H.
  destruct (load_settings sample_int sample_float sample_json limited) as [s|e] eqn:E; [|vm_compute in E; discriminate].
  intros (Ha & _ & He & Hn). exists s. exact (conj eq_refl (conj Ha (conj He (proj1 (Hn limited_no_nan))))).
Defined.

Lemma limits_from_settings_witness : ∃ s l, load_settings sample_int sample_float sample_json limited = Ok s ∧
  _load_default_execution_limits sample_int sample_float sample_json limited = Ok (Some l) ∧ limits_ok l ∧ max_reference_resolution_depth l = 32%Z.
Proof.
  destruct (load_settings sample_int sample_float sample_json limited) as [s|e] eqn:E; [|vm_compute in E; discriminate].
  pose proof (limits_from_settings sample_int sample_float sample_json limited s E) as H. exists s.
  vm_compute in E. injection E as <-. specialize (H eq_refl eq_refl). cbn in H. destruct H as (l & H1 & H2 & _ & _ & H3 & _).
  exists l. exact (conj eq_refl (conj H1 (conj H2 H3))).
Defined.
