(* ===== verification/ExecutorFrame.v ===== *)
(** What a run of the executor leaves alone: the records of every other run,
    and conversations; and what it records of its actor. *)
From stdpp Require Import options.
From S2P Require Import Prelude Graph Values Json SafeEval ToolRegistry PointerStore StateManager TokenBucket Models Executor ExecutorSamples ExecutorProofs ExecutorResolve ExecutorRuns.
Unset Default Proof Using.

Section frame.
Context {S : Type} `{PointerStoreBackend S} {func : Type} `{Runtime func}.
Context (v : run_env).
Abbreviation E := (stm (run_state S)).
Abbreviation own := (env_run_id v).

(** From [x] to [x'] only records of the run have been written, the checkpoint
    with the run's actor. *)
Record frame (x x' : state_manager S) : Prop := {
  fr_closed : sm_closed x' = sm_closed x;
  fr_checkpoints rid : rid ≠ own → execution_run_checkpoints x' !! rid = execution_run_checkpoints x !! rid;
  fr_summaries rid : rid ≠ own → execution_run_summaries x' !! rid = execution_run_summaries x !! rid;
  fr_diagnostics rid : rid ≠ own → execution_run_diagnostics x' !! rid = execution_run_diagnostics x !! rid;
  fr_events : ∃ es, execution_trace_events x' = execution_trace_events x ++ es ∧ Forall (λ e, run_id e = own) es;
  fr_sessions : conversation_sessions x' = conversation_sessions x;
  fr_turns : conversation_turns x' = conversation_turns x;
  fr_actor : execution_run_checkpoints x' !! own = execution_run_checkpoints x !! own ∨
    execution_run_checkpoints x' !! own ≫= StateManager.actor_metadata = Some (PDict (run_actor_metadata v))
}.

#[export] Instance frame_preorder : PreOrder frame.
Proof.
  split.
  - intros x. split; try done; [by exists []; rewrite app_nil_r|by left].
  - intros x y z [C1 K1 U1 D1 (es1 & E1 & F1) S1 T1 A1] [C2 K2 U2 D2 (es2 & E2 & F2) S2 T2 A2].
    split; try congruence; try (intros rid Hr; rewrite ?K2, ?U2, ?D2; auto).
    + exists (es1 ++ es2). rewrite E2, E1, app_assoc. split; [done|]. by apply Forall_app.
    + destruct A2 as [->|A2]; [|by right]. done.
Qed.

(** The call keeps to the frame. *)
Definition keeps {A} (m : E A) : Prop := ∀ s, frame (sm s) (sm (m s).1).

Lemma keeps_bind {A B} (m : E A) (k : A → E B) : keeps m → (∀ a, keeps (k a)) → keeps (m ≫= k).
Proof.
  intros Hm Hk s. unfold mbind, stm_bind. specialize (Hm s). destruct (m s) as [s' [a|e]]; [|done].
  transitivity (sm s'); [done|apply Hk].
Qed.
Lemma keeps_ret {A} (a : A) : keeps (mret a).
Proof. by intros s. Qed.
Lemma keeps_lift {A} (r : result A) : keeps (st_lift r).
Proof. by intros s. Qed.
Lemma keeps_get : keeps st_get.
Proof. by intros s. Qed.
Lemma keeps_mod_flow f : keeps (mod_flow f).
Proof. by intros s. Qed.
Lemma keeps_mod_slots f : keeps (mod_slots f).
Proof. by intros s. Qed.
Lemma keeps_fresh : keeps fresh_pointer.
Proof. by intros s. Qed.
Lemma keeps_now : keeps now.
Proof. by intros s. Qed.
Lemma keeps_catch {A} (body : E A) handler : keeps body → (∀ e, keeps (handler e)) → keeps (st_catch body handler).
Proof.
  intros Hb Hh s. unfold st_catch. specialize (Hb s). destruct (body s) as [s' [a|e]]; [done|].
  transitivity (sm s'); [done|apply Hh].
Qed.
Lemma keeps_lift_bind {A B} (r : result A) (k : A → E B) : (∀ a, r = Ok a → keeps (k a)) → keeps (st_lift r ≫= k).
Proof. intros Hk. destruct r as [a|e]; [by apply Hk|by intros s]. Qed.

Lemma keeps_on_sm {A} (m : stm (state_manager S) A) : (∀ x, frame x (m x).1) → keeps (on_sm m).
Proof. intros Hm s. unfold on_sm. specialize (Hm (sm s)). by destruct (m (sm s)). Qed.

Lemma frame_store x y : frame x (set_store y x).
Proof. split; try done; [by exists []; rewrite app_nil_r|by left]. Qed.

Lemma keeps_on_store {A} (f : S → S * result A) : keeps (on_sm (on_store f)).
Proof. apply keeps_on_sm. intros x. unfold on_store. destruct (f _) as [y r]. apply frame_store. Qed.

(** A guarded write of the run's row of one table. *)
Lemma keeps_write g : (∀ x, frame x (g x)) → keeps (on_sm (_connection;; st_modify g)).
Proof.
  intros Hg. apply keeps_on_sm. intros x. unfold _connection, mbind, stm_bind, raise_if.
  destruct (sm_closed x); [done|]. apply Hg.
Qed.
End frame.

Create HintDb keeps.
#[export] Hint Resolve keeps_ret keeps_lift keeps_get keeps_mod_flow keeps_mod_slots keeps_fresh keeps_now
  keeps_on_store : keeps.

(** Steps through a call that keeps to the frame. *)
Ltac keep :=
  lazymatch goal with
  | |- keeps _ (_ ≫= _) => apply keeps_bind; [|intros ?]
  | |- keeps _ (st_catch _ _) => apply keeps_catch; [|intros ?]
  | |- keeps _ (if ?b then _ else _) => destruct b
  | |- keeps _ (match ?x with _ => _ end) => destruct x
  | |- keeps _ (let '(_, _) := ?x in _) => destruct x
  | _ => solve [eauto with keeps]
  end.

Section run.
Context {S : Type} `{PointerStoreBackend S} {func : Type} `{Runtime func}.
Context (v : run_env).
Abbreviation E := (stm (run_state S)).
Abbreviation keepsv := (keeps (S := S) v).

Lemma contract_run_id e e' : validated (validate_event_fields e) (validate_event_contract e) = Ok e' → run_id e' = run_id e.
Proof.
  unfold validated, validate_event_contract. destruct (validate_event_fields e); [|done].
  destruct (match actor_scopes e with Some _ => _ | None => _ end) as [e1|ex] eqn:He1; [|done].
  assert (run_id e1 = run_id e) as <-.
  { destruct (actor_scopes e); [|by injection He1 as <-]. apply bind_Ok in He1 as (u & _ & He1). by injection He1 as <-. }
  cbn [mbind result_bind]. destruct (raise_if _ _) as [u|]; [|done]. cbn [mbind result_bind].
  destruct (for_each _ _) as [u'|]; [|done]. by intros [= <-].
Qed.

Lemma keeps_append step t a : keepsv (_append_trace_event v step t a).
Proof.
  unfold _append_trace_event. keep; [eauto with keeps|]. apply keeps_lift_bind. intros event He.
  assert (run_id event = env_run_id v) as Hid.
  { apply bind_Ok in He as (actor & _ & He). apply bind_Ok in He as (scopes & _ & He).
    apply bind_Ok in He as (op & _ & He). by apply contract_run_id in He. }
  apply keeps_write. intros x. split; try done; [|by left]. exists [stored_event event]. split; [done|]. by constructor.
Qed.

Lemma keeps_persist status final : keepsv (_persist_checkpoint v status final).
Proof.
  unfold _persist_checkpoint. repeat keep. apply keeps_write. intros x. split; try done.
  - intros rid Hr. simpl. by rewrite lookup_insert_ne.
  - by exists []; rewrite app_nil_r.
  - right. simpl. by rewrite lookup_insert_eq.
Qed.

Lemma keeps_store raw sum extra : keepsv (store_output v raw sum extra).
Proof.
  unfold store_output. repeat keep. apply keeps_on_sm. intros x. unfold store_and_point.
  unfold on_store, mbind, stm_bind. simpl. destruct (PointerStore.store_pointer _ _) as [y [u|e]]; simpl; apply frame_store.
Qed.

Lemma keeps_hydrate pid sid : keepsv (_hydrate_pointer_response pid sid).
Proof. unfold _hydrate_pointer_response, sm_list_pointers. repeat keep. Qed.
Lemma keeps_record sid status pid p raw : keepsv (record_status sid status pid p raw).
Proof. unfold record_status. keep. Qed.
Lemma keeps_branch step ok : keepsv (resolve_branch_targets step ok).
Proof. unfold resolve_branch_targets. repeat keep. Qed.
Lemma keeps_clear step : keepsv (clear_branch step).
Proof. unfold clear_branch. repeat keep. Qed.
Lemma keeps_set_result sid pid : keepsv (set_result sid pid).
Proof. unfold set_result. keep. Qed.
Lemma keeps_release c : keepsv (release c).
Proof. unfold release. keep. Qed.
#[local] Hint Resolve keeps_append keeps_persist keeps_store keeps_hydrate keeps_record keeps_branch
  keeps_clear keeps_set_result keeps_release : keeps.

Lemma keeps_settle step status raw sum extra branch :
  keepsv branch → keepsv (settle v step status raw sum extra branch).
Proof. intros Hb. unfold settle. repeat keep. Qed.
#[local] Hint Resolve keeps_settle : keeps.

Lemma keeps_fail step started k exc : keepsv (fail_step v step started k exc).
Proof. unfold fail_step. cbv zeta. repeat keep. Qed.
#[local] Hint Resolve keeps_fail : keeps.
Lemma keeps_in_step step started k body : keepsv body → keepsv (in_step v step started k body).
Proof. intros Hb. unfold in_step. repeat keep. Qed.

Lemma keeps_advance step started r : ∀ inputs, keepsv (advance v step started inputs r).
Proof.
  assert (∀ args inputs, keepsv (prepare_call v step started args inputs)) as Hp.
  { intros. unfold prepare_call. repeat keep. }
  induction r as [args|e|ref key k IH|pid key k IH]; intros inputs; simpl.
  - apply Hp.
  - unfold st_raise. eauto with keeps.
  - unfold st_raise. repeat keep.
  - unfold retrieve. keep; [eauto with keeps|apply IH].
Qed.
#[local] Hint Resolve keeps_advance : keeps.

Lemma keeps_deliver step started inputs ref key k pid :
  keepsv (deliver_reference v step started inputs ref key k pid).
Proof. unfold deliver_reference, retrieve, st_raise. repeat keep. Qed.

Lemma keeps_after step started : keepsv (after_controllers v step started).
Proof.
  unfold after_controllers, skip_early_exit, pause_step, reject_step. cbv zeta. repeat keep.
Qed.
#[local] Hint Resolve keeps_deliver keeps_after : keeps.

Lemma keeps_woken step started : keepsv (controllers_woken v step started).
Proof. unfold controllers_woken, skip_branch_not_selected. cbv zeta. repeat keep. Qed.

Lemma keeps_failed step started c exc : keepsv (attempt_failed v step started c exc).
Proof. unfold attempt_failed, st_raise. cbv zeta. repeat keep. Qed.
#[local] Hint Resolve keeps_woken keeps_failed : keeps.

Lemma keeps_start_call step started c b : keepsv (start_call v step started c b).
Proof. unfold start_call. repeat keep. Qed.
#[local] Hint Resolve keeps_start_call : keeps.
Lemma keeps_tool_rate step started c b w : keepsv (tool_rate_pass v step started c b w).
Proof. unfold tool_rate_pass. repeat keep. Qed.
#[local] Hint Resolve keeps_tool_rate : keeps.
Lemma keeps_global_rate step started c w : keepsv (global_rate_pass v step started c w).
Proof. unfold global_rate_pass. repeat keep. Qed.
#[local] Hint Resolve keeps_global_rate : keeps.

Lemma keeps_complete step started c raw : keepsv (complete_step v step started c raw).
Proof. unfold complete_step. repeat keep. Qed.
#[local] Hint Resolve keeps_complete : keeps.

Lemma keeps_resume step p s (body : E pc) : resume_step v step p s = Some body → keepsv body.
Proof.
  destruct p as [|started|started inputs ref key k|started c w|started c w|started c w w'|started c l w w'|
    started c|started c w| |]; simpl; intros Hb; try done.
  - injection Hb as <-. unfold begin_step, in_step. cbv zeta. repeat keep.
  - case_decide; [|done]. injection Hb as <-. apply keeps_in_step. eauto with keeps.
  - apply bind_Some in Hb as (pid & _ & Hb). injection Hb as <-. apply keeps_in_step. eauto with keeps.
  - destruct (0 <? _)%Z; [|done]. injection Hb as <-. apply keeps_in_step. unfold global_slot_acquired. repeat keep.
  - destruct (match tool_semaphore _ _ with Some _ => _ | None => _ end); [|done]. injection Hb as <-.
    apply keeps_in_step. unfold tool_slot_acquired, in_attempt. repeat keep.
  - destruct (Qle_bool _ _); [|done]. injection Hb as <-. apply keeps_in_step. unfold in_attempt. repeat keep.
  - destruct (Qle_bool _ _); [|done]. injection Hb as <-. apply keeps_in_step. unfold in_attempt. repeat keep.
  - destruct (Qle_bool _ _); [|done]. injection Hb as <-. apply keeps_in_step. unfold retry_wake. repeat keep.
Qed.

Lemma cstep_frame (c c' : config) : cstep v c c' → frame v (sm (st c)) (sm (st c')).
Proof.
  intros [ch c1 c1' Hf]. destruct ch as [sid|sid outcome|q]; simpl in Hf.
  - apply bind_Some in Hf as (step & _ & Hf). apply bind_Some in Hf as (p & _ & Hf).
    apply bind_Some in Hf as (body & Hb & Hf). injection Hf as <-.
    pose proof (keeps_resume _ _ _ _ Hb (st c1)) as Hk. unfold run_task. by destruct (body (st c1)).
  - apply bind_Some in Hf as (step & _ & Hf). apply bind_Some in Hf as (p & _ & Hf).
    destruct p as [| | | | | | |started ctx| | |]; try done. injection Hf as <-.
    assert (keepsv (in_step v step started (attempt_count ctx) (tool_returned v step started ctx outcome))) as Hk.
    { apply keeps_in_step. unfold tool_returned. repeat keep. }
    specialize (Hk (st c1)). unfold run_task. by destruct (in_step _ _ _ _ _ (st c1)).
  - destruct (Qle_bool q 0); [done|]. by injection Hf as <-.
Qed.

Lemma keeps_map {A B} (f : A → E B) l : (∀ a, keepsv (f a)) → keepsv (st_map f l).
Proof. intros Hf. induction l as [|a l IH]; simpl; repeat keep. Qed.

Lemma keeps_timeout c : keepsv (timeout_results v c).
Proof.
  unfold timeout_results. keep; [eauto with keeps|]. keep; [|repeat keep]. apply keeps_map. intros step.
  unfold _mark_step_timeout. cbv zeta. keep; [eauto with keeps|].
  destruct (pcs c !! step_id step) as [[]|]; repeat keep.
Qed.

Lemma keeps_finish results : keepsv (finish_run v results).
Proof.
  unfold finish_run. cbv zeta. repeat keep; apply keeps_write; intros x; split; try done; simpl;
    first [by exists []; rewrite app_nil_r|by left|intros rid Hr; by rewrite lookup_insert_ne].
Qed.

Lemma outcome_frame c s r : run_outcome v c s r → frame v (sm (st c)) (sm s).
Proof.
  destruct 1 as [results s r _ Hf|sid e _|bound s r _ _ Hf].
  - pose proof (keeps_finish results (st c)) as Hk. by rewrite Hf in Hk.
  - done.
  - assert (keepsv (results ← timeout_results v c; finish_run v results)) as Hk
      by (apply keeps_bind; [apply keeps_timeout|apply keeps_finish]).
    specialize (Hk (st c)). by rewrite Hf in Hk.
Qed.

Lemma csteps_frame (c c' : config) : rtc (cstep v) c c' → frame v (sm (st c)) (sm (st c')).
Proof.
  induction 1 as [c|c1 c2 c3 Hs _ IH]; [done|]. transitivity (sm (st c2)); [by apply cstep_frame|done].
Qed.
End run.

Section isolation.
Context {S : Type} `{PointerStoreBackend S} {func : Type} `{Runtime func}.

(** The actor a run is recorded under. *)
Definition actor_of_start (resume : bool) (actor_metadata : option pyval) (x : state_manager S) (rid : string)
  : payload :=
  let operation := if resume then "resume" else "execute" in
  let normalized := _normalize_actor_metadata actor_metadata operation in
  complete_actor_metadata
    match (if resume then execution_run_checkpoints x !! rid ≫= StateManager.actor_metadata else None) with
    | Some (PDict stored) =>
        if is_nil stored then normalized else merge_actor_metadata stored normalized operation
    | _ => normalized
    end operation.

Lemma persist_frame v status final (s s' : run_state S) :
  sm_closed (sm s) = false → _persist_checkpoint v status final s = (s', Ok tt) →
  frame v (sm s) (sm s') ∧
  execution_run_checkpoints (sm s') !! env_run_id v ≫= StateManager.actor_metadata = Some (PDict (run_actor_metadata v)).
Proof.
  intros Hc Hp. pose proof (keeps_persist v status final s) as Hk. rewrite Hp in Hk. split; [done|].
  revert Hp. unfold _persist_checkpoint, on_sm, upsert_run_checkpoint, _connection, now, mbind, stm_bind, raise_if, st_get.
  simpl. rewrite Hc. intros [= <-]. simpl. by rewrite lookup_insert_eq.
Qed.

Lemma start_frame d m rid resume actor t n (x x' : state_manager S) v (c : config) :
  sm_closed x = false → start_run d m rid resume actor t n x = (x', Ok (v, c)) →
  env_run_id v = rid ∧ run_actor_metadata v = actor_of_start resume actor x rid ∧
  frame v x (sm (st c)) ∧
  execution_run_checkpoints (sm (st c)) !! rid ≫= StateManager.actor_metadata = Some (PDict (run_actor_metadata v)).
Proof.
  intros Hopen. unfold start_run, actor_of_start.
  set (q := if resume then _ else _ : state_manager S * result (option checkpoint_row)). intros Hs.
  assert (q.1 = x ∧ ∀ o, q.2 = Ok o →
    match o with Some cp => StateManager.actor_metadata cp | None => None end =
    (if resume then Some (default (PDict []) (execution_run_checkpoints x !! rid ≫= StateManager.actor_metadata)) else None))
    as [Hq Ho].
  { subst q. destruct resume; [|split; [done|]; by intros o [= <-]].
    unfold get_run_checkpoint, _connection, mbind, stm_bind, raise_if. rewrite Hopen. simpl.
    destruct (execution_run_checkpoints x !! rid) as [cp|]; simpl; [|done].
    destruct (bool_decide _); simpl; split; try done. by intros o [= <-]. }
  destruct q as [x1 [o|e]]; [|done]. simpl in Hq. subst x1. specialize (Ho o eq_refl).
  match type of Hs with context [_persist_checkpoint ?v0 _ _ ?s0] =>
    set (v1 := v0) in Hs; set (s1 := s0) in Hs end.
  destruct (persist_core v1 "active" None s1 Hopen) as (s2 & _ & Hp).
  rewrite Hp in Hs. injection Hs as <- <- <-. destruct (persist_frame v1 "active" None s1 s2 Hopen Hp) as [Hf Ha].
  split_and!; [done| |done|done]. subst v1. simpl. f_equal. clear -Ho.
  destruct o as [cp|]; [rewrite Ho|]; destruct resume; simpl in *; try done.
  - by destruct (_ ≫= _) as [[]|].
Qed.

Lemma run_metadata_checkpoint (x : state_manager S) rid d :
  execution_run_checkpoints x !! rid ≫= StateManager.actor_metadata = Some (PDict d) → run_metadata x rid = d.
Proof. intros Hd. unfold run_metadata. by rewrite Hd. Qed.

(** What a whole run, from its start to any of its ends, does to the state
    manager. *)
Lemma whole_run_frame d m rid resume actor t n (x x0 : state_manager S) v c0 c s r :
  sm_closed x = false → start_run d m rid resume actor t n x = (x0, Ok (v, c0)) →
  rtc (cstep v) c0 c → run_outcome v c s r →
  env_run_id v = rid ∧ frame v x (sm s) ∧ run_metadata (sm s) rid = actor_of_start resume actor x rid.
Proof.
  intros Hopen Hs Hc Hr. destruct (start_frame _ _ _ _ _ _ _ _ _ _ _ Hopen Hs) as (<- & Ha & Hf & Hcp).
  assert (frame v (sm (st c0)) (sm s)) as Hf'.
  { transitivity (sm (st c)); [by apply csteps_frame|by eapply outcome_frame]. }
  split_and!; [done|by transitivity (sm (st c0))|]. rewrite <- Ha. apply run_metadata_checkpoint.
  destruct (fr_actor _ _ _ Hf') as [->|Hrow]; done.
Qed.

(** C15: a run, whatever its schedule and however it ends, leaves every other
    run's checkpoint, summary, diagnostics and trace as they were, and all
    conversations; it is recorded under the actor it was started by. *)
Theorem runs_isolated d m rid resume actor t n (x x0 : state_manager S) v c0 c s r :
  sm_closed x = false → start_run d m rid resume actor t n x = (x0, Ok (v, c0)) →
  rtc (cstep v) c0 c → run_outcome v c s r →
  (∀ other, other ≠ rid →
     execution_run_checkpoints (sm s) !! other = execution_run_checkpoints x !! other ∧
     execution_run_summaries (sm s) !! other = execution_run_summaries x !! other ∧
     execution_run_diagnostics (sm s) !! other = execution_run_diagnostics x !! other ∧
     List.filter (λ e, bool_decide (run_id e = other)) (execution_trace_events (sm s)) =
       List.filter (λ e, bool_decide (run_id e = other)) (execution_trace_events x)) ∧
  conversation_sessions (sm s) = conversation_sessions x ∧ conversation_turns (sm s) = conversation_turns x ∧
  run_metadata (sm s) rid = actor_of_start resume actor x rid.
Proof.
  intros Hopen Hs Hc Hr. destruct (whole_run_frame _ _ _ _ _ _ _ _ _ _ _ _ _ _ Hopen Hs Hc Hr) as (<- & [] & Ha).
  split_and!; [|done..]. intros other Hne. split_and!; auto.
  destruct fr_events0 as (es & -> & Hes). rewrite List.filter_app.
  assert (List.filter (λ e, bool_decide (run_id e = other)) es = []) as ->; [|by rewrite app_nil_r].
  clear -Hes Hne. induction Hes as [|e es He _ IH]; simpl; [done|]. by rewrite bool_decide_eq_false_2 by congruence.
Qed.

(** ** Owners *)

Definition field (d : payload) (k : string) : pyval := default PNone (dict_get d k).

Lemma complete_owner d op :
  dict_get (complete_actor_metadata d op) "owner_actor_id" =
  Some (if py_truthy (field d "owner_actor_id") then field d "owner_actor_id" else field d "actor_id").
Proof.
  unfold complete_actor_metadata, field. rewrite dict_get_set_ne, dict_get_set_ne by done.
  destruct (py_truthy (default PNone (dict_get d "owner_actor_id"))) eqn:Ho.
  - destruct (dict_get d "owner_actor_id") as [o|] eqn:Hd; [|done].
    destruct (py_truthy (default PNone (dict_get d "actor_id"))); [|rewrite dict_get_set_ne by done]; by rewrite Hd.
  - set (d' := dict_set d "owner_actor_id" _).
    destruct (py_truthy (default PNone (dict_get d' "actor_id"))); [|rewrite dict_get_set_ne by done];
      apply dict_get_set_eq.
Qed.

Lemma merge_owner stored fresh op :
  dict_get (merge_actor_metadata stored fresh op) "owner_actor_id" = dict_get stored "owner_actor_id".
Proof.
  unfold merge_actor_metadata. rewrite dict_get_set_ne by done.
  assert (∀ keys, "owner_actor_id" ∉ keys → ∀ d,
    dict_get (foldl (λ d k, match dict_get fresh k with
                            | Some w => if py_truthy w then dict_set d k w else d | None => d end) d keys)
      "owner_actor_id" = dict_get d "owner_actor_id") as Hfold.
  { induction keys as [|k keys IH]; intros Hk d; simpl; [done|]. rewrite IH by set_solver.
    destruct (dict_get fresh k) as [w|]; [|done]. destruct (py_truthy w); [|done].
    apply dict_get_set_ne. set_solver. }
  apply Hfold. vm_compute. set_solver.
Qed.

(** The owner a run is recorded under. *)
Lemma owner_fresh actor x rid o :
  py_strip (py_str rt_float_repr (field actor "owner_actor_id")) = o → o ≠ "" →
  is_Some (dict_get actor "owner_actor_id") →
  field (actor_of_start false (Some (PDict actor)) x rid) "owner_actor_id" = PStr o.
Proof.
  intros Ho Hne [w Hw]. unfold actor_of_start, field at 1. rewrite complete_owner. simpl.
  assert (field (_normalize_actor_metadata (Some (PDict actor)) "execute") "owner_actor_id" = PStr o) as ->.
  { unfold field, _normalize_actor_metadata in *. rewrite Hw in *. simpl in *. rewrite Ho. by rewrite decide_False. }
  simpl. by rewrite bool_decide_eq_false_2.
Qed.

Lemma owner_resumed actor x rid stored :
  execution_run_checkpoints x !! rid ≫= StateManager.actor_metadata = Some (PDict stored) →
  py_truthy (field stored "owner_actor_id") = true →
  field (actor_of_start true actor x rid) "owner_actor_id" = field stored "owner_actor_id".
Proof.
  intros Hst Ho. unfold actor_of_start, field at 1. rewrite Hst, complete_owner.
  destruct stored as [|kv stored]; [done|].
  assert (∀ fresh op, field (merge_actor_metadata (kv :: stored) fresh op) "owner_actor_id" =
    field (kv :: stored) "owner_actor_id") as Hm by (intros; unfold field; by rewrite merge_owner).
  cbn [is_nil]. rewrite Hm, Ho. done.
Qed.

(** The owner of a run is the one it was started with, and stays it: a
    resumption by somebody else records that actor, but not as the owner. *)
Theorem owner_kept d m rid actor t n stored (x x0 : state_manager S) v c0 c s r :
  sm_closed x = false → start_run d m rid true actor t n x = (x0, Ok (v, c0)) →
  rtc (cstep v) c0 c → run_outcome v c s r →
  execution_run_checkpoints x !! rid ≫= StateManager.actor_metadata = Some (PDict stored) →
  py_truthy (field stored "owner_actor_id") = true →
  field (run_metadata (sm s) rid) "owner_actor_id" = field stored "owner_actor_id".
Proof.
  intros Hopen Hs Hc Hr Hrow Ho. destruct (whole_run_frame _ _ _ _ _ _ _ _ _ _ _ _ _ _ Hopen Hs Hc Hr) as (_ & _ & ->).
  by apply owner_resumed.
Qed.
End isolation.

(** ** The claims at a concrete run: the sample, started by one actor,
    interrupted in [b]'s call, resumed by another actor and run to its end. *)

Definition actor_of (name : string) : pyval := PDict [("actor_id", PStr name); ("owner_actor_id", PStr name)].
Definition started (r : state_manager sqlite * result (run_env * config)) : run_env * config :=
  match r.2 with Ok vc => vc | Raise _ => (no_env, no_config) end.
Definition schedule_from (vc : run_env * config (S := sqlite)) (chs : list choice) : config :=
  default vc.2 (fire_all vc.1 chs vc.2).

Definition by_alice :=
  start_run default_execution_limits sample_macro "r1" false (Some (actor_of "alice")) 0 0 fresh_manager.
Definition alice_call : config := schedule_from (started by_alice) to_call.
Definition by_bob :=
  start_run default_execution_limits sample_macro "r1" true (Some (actor_of "bob")) 10 5 (sm (st alice_call)).
Definition bob_end : config :=
  schedule_from (started by_bob) [Run "b"; Run "a"; Run "b"; Run "b"; Run "b"; Run "b"; Return "b" (Ok (PStr "done"))].
Definition results_of (vc : run_env * config (S := sqlite)) (c : config (S := sqlite)) : list payload :=
  default [] (gathered vc.1 c).

(** A second run, by a third actor, on the manager the first left. *)
Definition by_carol :=
  start_run default_execution_limits sample_macro "r2" false (Some (actor_of "carol")) 20 9 (sm (st bob_end)).
Definition carol_end : config := schedule_from (started by_carol) to_end.

(** A run gathered at the end of a schedule has an outcome. *)
Lemma schedule_outcome (vc : run_env * config (S := sqlite)) chs :
  bool_decide (is_Some (fire_all vc.1 chs vc.2)) = true →
  bool_decide (is_Some (gathered vc.1 (schedule_from vc chs))) = true →
  rtc (cstep vc.1) vc.2 (schedule_from vc chs) ∧
  run_outcome vc.1 (schedule_from vc chs)
    (finish_run vc.1 (results_of vc (schedule_from vc chs)) (st (schedule_from vc chs))).1
    (finish_run vc.1 (results_of vc (schedule_from vc chs)) (st (schedule_from vc chs))).2.
Proof.
  intros [c Hc]%bool_decide_eq_true [l Hl]%bool_decide_eq_true. split.
  - unfold schedule_from. rewrite Hc. by eapply fire_all_run.
  - apply (out_gathered _ _ l); unfold results_of; rewrite Hl; [done|by destruct (finish_run _ _ _)].
Qed.

Lemma runs_isolated_witness :
  ∃ s r, run_outcome (started by_carol).1 carol_end s r ∧
    execution_run_checkpoints (sm s) !! "r1" = execution_run_checkpoints (sm (st bob_end)) !! "r1" ∧
    is_Some (execution_run_checkpoints (sm (st bob_end)) !! "r1") ∧
    field (run_metadata (sm s) "r2") "owner_actor_id" = PStr "carol".
Proof.
  destruct (schedule_outcome (started by_carol) to_end) as [Hc Hr];
    [vm_compute; reflexivity|vm_compute; reflexivity|].
  eexists _, _. split; [exact Hr|].
  destruct (runs_isolated default_execution_limits sample_macro "r2" false (Some (actor_of "carol")) 20 9
    (sm (st bob_end)) by_carol.1 (started by_carol).1 (started by_carol).2 carol_end
    _ _ ltac:(vm_compute; reflexivity) ltac:(vm_compute; reflexivity) Hc Hr) as (Hothers & _ & _ & ->).
  split_and!; [apply (Hothers "r1"); discriminate|eexists; vm_compute; reflexivity|vm_compute; reflexivity].
Defined.

Lemma owner_kept_witness :
  ∃ s r, run_outcome (started by_bob).1 bob_end s r ∧
    field (run_metadata (sm s) "r1") "owner_actor_id" = PStr "alice".
Proof.
  destruct (schedule_outcome (started by_bob)
    [Run "b"; Run "a"; Run "b"; Run "b"; Run "b"; Run "b"; Return "b" (Ok (PStr "done"))]) as [Hc Hr];
    [vm_compute; reflexivity|vm_compute; reflexivity|].
  eexists _, _. split; [exact Hr|].
  rewrite (owner_kept default_execution_limits sample_macro "r1" (Some (actor_of "bob")) 10 5
    (run_metadata (sm (st alice_call)) "r1") (sm (st alice_call)) by_bob.1 (started by_bob).1 (started by_bob).2 bob_end
    _ _ ltac:(vm_compute; reflexivity) ltac:(vm_compute; reflexivity) Hc Hr); vm_compute; reflexivity.
Defined.
