(* ===== verification/ExecutorTermination.v ===== *)
(** Termination of the executor model without rate limits: every switch to a
    step's task uses up some of a bound computed from the macro alone. *)
From stdpp Require Import options.
From S2P Require Import Prelude Graph Values Json SafeEval ToolRegistry PointerStore StateManager TokenBucket Models Executor ExecutorSamples ExecutorProofs ExecutorResolve ExecutorRuns ExecutorProgress.
Unset Default Proof Using.

Section termination.
Context {S : Type} `{PointerStoreBackend S} {func : Type} `{Runtime func}.
Context (v : run_env).
Abbreviation cfg := (config (S := S)).
Abbreviation E := (stm (run_state S)).

(** ** Calls without rate buckets *)

Definition no_rate (s : run_state S) : Prop :=
  global_rate_bucket (slots s) = None ∧ per_tool_buckets (slots s) = ∅.

(** From a state without buckets, [m] ends in one, with a result that
    satisfies [P] if it does not raise. *)
Definition plain {A} (P : A → Prop) (m : E A) : Prop :=
  ∀ s, no_rate s → wp m (λ s' r, no_rate s' ∧ ∀ a, r = Ok a → P a) s.

Lemma plain_ret {A} (P : A → Prop) a : P a → plain P (mret a).
Proof. intros HP s Hs. wp_step. split; [done|]. by intros ? [= <-]. Qed.

Lemma plain_raise {A} (P : A → Prop) e : plain P (st_raise e : E A).
Proof. intros s Hs. wp_step. by split. Qed.

Lemma plain_bind {A B} (Q : A → Prop) (P : B → Prop) m k :
  plain Q m → (∀ a, Q a → plain P (k a)) → plain P (m ≫= k).
Proof.
  intros Hm Hk s Hs. apply wp_bind. eapply wp_mono; [by apply Hm|]. intros s' [a|e] [Hs' Hq]; [|by split].
  apply Hk; [by apply Hq|done].
Qed.

(** Ignoring what the first call returns. *)
Lemma plain_seq {A B} (P : B → Prop) (m : E A) k :
  plain (λ _, True) m → (∀ a, plain P (k a)) → plain P (m ≫= k).
Proof. intros Hm Hk. eapply plain_bind; [exact Hm|]. auto. Qed.

Lemma plain_get {B} (P : B → Prop) k : (∀ s, no_rate s → plain P (k s)) → plain P (st_get ≫= k).
Proof. intros Hk s Hs. wp_step. wp_step. by apply Hk. Qed.

Lemma plain_lift {A} (r : result A) : plain (λ _, True) (st_lift r : E A).
Proof. intros s Hs. wp_step. done. Qed.

Lemma plain_on_sm {A} (m : stm (state_manager S) A) : plain (λ _, True) (on_sm m).
Proof. intros s Hs. unfold wp, on_sm. by destruct (m (sm s)). Qed.

Lemma plain_mod_flow f : plain (λ _, True) (mod_flow f : E unit).
Proof. intros s Hs. unfold mod_flow. wp_step. done. Qed.

Lemma plain_mod_slots g :
  (∀ x, global_rate_bucket (g x) = global_rate_bucket x ∧ per_tool_buckets (g x) = per_tool_buckets x) →
  plain (λ _, True) (mod_slots g : E unit).
Proof.
  intros Hg s [H1 H2]. unfold mod_slots. wp_step. split; [|done]. unfold no_rate. simpl.
  by rewrite (proj1 (Hg _)), (proj2 (Hg _)).
Qed.

Lemma plain_catch {A} (P : A → Prop) body handler :
  plain P body → (∀ e, plain P (handler e)) → plain P (st_catch body handler : E A).
Proof.
  intros Hb Hh s Hs. apply wp_catch. eapply wp_mono; [by apply Hb|].
  intros s' [a|e] [Hs' Ha]; [done|by apply Hh].
Qed.

Lemma plain_fresh : plain (λ _, True) (fresh_pointer : E string).
Proof. intros s Hs. unfold wp, fresh_pointer. done. Qed.

Lemma plain_now : plain (λ _, True) (now : E Z).
Proof. intros s Hs. apply wp_now. done. Qed.
End termination.

Create HintDb plain.
#[export] Hint Resolve plain_ret plain_raise plain_lift plain_on_sm plain_mod_flow plain_fresh plain_now : plain.

(** Steps through a call that ends with a result of the expected form. *)
Ltac plain_step :=
  lazymatch goal with
  | |- plain _ (st_get ≫= _) => apply plain_get; intros ? ?
  | |- plain _ (_ ≫= _) => apply plain_seq; [|intros ?]
  | |- plain _ (mret _) => apply plain_ret
  | |- plain _ (if ?b then _ else _) => destruct b
  | |- plain _ (match ?x with _ => _ end) => destruct x
  | _ => solve [eauto with plain]
  end.

Section ranks.
Context {S : Type} `{PointerStoreBackend S} {func : Type} `{Runtime func}.
Context (v : run_env).
Abbreviation cfg := (config (S := S)).
Abbreviation E := (stm (run_state S)).
Abbreviation policy := (retry_policy (macro v)).

(** ** How many switches a step has left *)

Definition tries : nat := Z.to_nat (Z.max 1 (max_attempts policy)).
Definition left_after (c : call_ctx) : nat := 4 * Z.to_nat (Z.max 1 (max_attempts policy) - attempt_count c).

(** A step at [p] is switched to at most [n] more times. *)
Definition ranked (step : ToolCall) (n : nat) (p : pc) : Prop :=
  match p with
  | NotStarted => 2 + argument_leaves (arguments step) + 4 * tries ≤ n
  | AwaitControllers _ => 1 + argument_leaves (arguments step) + 4 * tries ≤ n
  | AwaitReference _ _ ref_value key k =>
      ∃ m, asks (λ _, True) m (NeedStep ref_value key k) ∧ m + 4 * tries ≤ n
  | AwaitGlobalSlot _ c _ => 4 + left_after c ≤ n
  | AwaitToolSlot _ c _ => 3 + left_after c ≤ n
  | InTool _ c => 2 + left_after c ≤ n
  | RetrySleep _ c _ => 1 + left_after c ≤ n ∧ (attempt_count c < max_attempts policy)%Z
  | AwaitGlobalRate _ _ _ _ | AwaitToolRate _ _ _ _ _ => False
  | Finished _ | Crashed _ => True
  end.

Lemma plain_append step t x : plain (λ _, True) (_append_trace_event v step t x : E unit).
Proof. unfold _append_trace_event. repeat plain_step. Qed.
Lemma plain_persist status final : plain (λ _, True) (_persist_checkpoint v status final : E unit).
Proof. unfold _persist_checkpoint. repeat plain_step. Qed.
Lemma plain_store raw sum extra : plain (λ _, True) (store_output v raw sum extra : E _).
Proof. unfold store_output. repeat plain_step; done. Qed.
Lemma plain_hydrate pid sid : plain (λ _, True) (_hydrate_pointer_response pid sid : E _).
Proof. unfold _hydrate_pointer_response. repeat plain_step; done. Qed.
Lemma plain_record sid status pid p raw : plain (λ _, True) (record_status sid status pid p raw : E unit).
Proof. unfold record_status. repeat plain_step. Qed.
Lemma plain_branch step ok : plain (λ _, True) (resolve_branch_targets step ok : E unit).
Proof. unfold resolve_branch_targets. repeat plain_step; done. Qed.
Lemma plain_clear step : plain (λ _, True) (clear_branch step : E unit).
Proof. unfold clear_branch. repeat plain_step; done. Qed.
Lemma plain_set_result sid pid : plain (λ _, True) (set_result sid pid : E unit).
Proof. unfold set_result. repeat plain_step. Qed.
Lemma plain_release c : plain (λ _, True) (release c : E unit).
Proof.
  apply plain_mod_slots. intros x. unfold release_slots, on_slot_released, tool_semaphore. simpl.
  destruct (tool_limit_key c) as [k|]; simpl; [|done]. by destruct (tool_permits x !! k).
Qed.
#[local] Hint Resolve plain_append plain_persist plain_store plain_hydrate plain_record plain_branch
  plain_clear plain_set_result plain_release : plain.

Section one_step.
Context (step : ToolCall) (n : nat).
Abbreviation R := (ranked step n).

Lemma plain_settle status raw sum extra branch :
  plain (λ _, True) branch → plain R (settle v step status raw sum extra branch : E pc).
Proof. intros Hb. unfold settle. repeat plain_step; done. Qed.
#[local] Hint Resolve plain_settle : plain.

Lemma plain_fail started k exc : plain R (fail_step v step started k exc : E pc).
Proof. unfold fail_step. cbv zeta. repeat plain_step. Qed.

Lemma plain_in_step started k body : plain R body → plain R (in_step v step started k body : E pc).
Proof. intros Hb. apply plain_catch; [done|]. apply plain_fail. Qed.

Lemma plain_advance started m r :
  asks (λ _, True) m r → m + 4 * tries ≤ n → ∀ inputs, plain R (advance v step started inputs r : E pc).
Proof.
  intros Hr Hm. induction Hr as [m a|m e|m ref key k HP Hk _|m pid key k Hk IH]; intros inputs; simpl.
  - unfold prepare_call. repeat plain_step. simpl. unfold left_after, tries in *. simpl. lia.
  - eauto with plain.
  - repeat plain_step. exists (Datatypes.S m). split; [|lia]. by constructor.
  - plain_step; [eauto with plain|]. by apply IH.
Qed.

Lemma plain_deliver started m inputs ref key k pid :
  asks (λ _, True) m (NeedStep ref key k) → m + 4 * tries ≤ Datatypes.S n →
  plain R (deliver_reference v step started inputs ref key k pid : E pc).
Proof.
  intros Hr Hm. inversion Hr as [| |m' ? ? ? _ Hk|]; subst. unfold deliver_reference.
  destruct (parse_reference ref) as [dep path]. plain_step. destruct (decide _); [|eauto with plain].
  plain_step; [eauto with plain|]. apply (plain_advance _ m'); [done|lia].
Qed.

Lemma plain_after started :
  argument_leaves (arguments step) + 4 * tries ≤ n → plain R (after_controllers v step started : E pc).
Proof.
  intros Hn. unfold after_controllers.
  assert (plain R (advance v step started []
    (resolve_arguments (max_reference_resolution_depth (limits v)) (arguments step)) : E pc)) as Hadv.
  { eapply plain_advance; [eapply asks_impl; [|apply resolve_arguments_asks]; done|done]. }
  plain_step. destruct (early_exit _); [unfold skip_early_exit; eauto with plain|].
  cbv zeta. destruct (approval_required step); [|done]. plain_step; [eauto with plain|].
  destruct (dict_get _ _); [|unfold pause_step; eauto with plain].
  destruct (decide _); [unfold reject_step; cbv zeta; repeat plain_step|].
  plain_step; [eauto with plain|done].
Qed.

Lemma plain_woken started :
  argument_leaves (arguments step) + 4 * tries ≤ n → plain R (controllers_woken v step started : E pc).
Proof.
  intros Hn. unfold controllers_woken. plain_step. cbv zeta. case_bool_decide; [by apply plain_after|].
  unfold skip_branch_not_selected. eauto with plain.
Qed.

Lemma plain_failed started c e :
  1 + left_after c ≤ n → plain R (attempt_failed v step started c e : E pc).
Proof.
  intros Hn. unfold attempt_failed. cbv zeta. destruct (_ || _) eqn:Hb.
  - plain_step; eauto with plain.
  - apply orb_false_iff in Hb as [_ Hb%Z.leb_gt]. apply plain_catch; [|intros e'; plain_step; eauto with plain].
    plain_step; [eauto with plain|]. plain_step. apply plain_ret. by split.
Qed.

Lemma plain_pass started c :
  2 + left_after c ≤ n →
  plain R (in_attempt v step started c (global_rate_pass v step started c 0) : E pc).
Proof.
  intros Hn. apply plain_catch; [|intros e; apply plain_failed; lia].
  unfold global_rate_pass. apply plain_get. intros s [Hg Ht]. rewrite Hg.
  unfold tool_rate_pass. intros s1 Hs1. unfold wp, mbind, stm_bind, st_get. cbn [fst snd].
  assert (tool_bucket c (slots s1) = None) as ->.
  { unfold tool_bucket. destruct (tool_limit_key c) as [k|]; [|done]. by rewrite (proj2 Hs1), lookup_empty. }
  assert (plain R (start_call v step started c false : E pc)) as Hp; [|by apply Hp].
  unfold start_call. plain_step; [by apply plain_mod_slots|]. plain_step; [eauto with plain|].
  by apply plain_ret.
Qed.

Lemma plain_complete started c raw : plain R (complete_step v step started c raw : E pc).
Proof. unfold complete_step. repeat plain_step. done. Qed.
End one_step.

(** Every resumption uses up one switch. *)
Lemma resume_ranked step p s (body : E pc) n :
  resume_step v step p s = Some body → ranked step n p →
  ∃ n', n = Datatypes.S n' ∧ plain (ranked step n') body.
Proof.
  intros Hb Hp.
  assert (∀ n' started k (b : E pc), plain (ranked step n') b → n = Datatypes.S n' →
    ∃ n', n = Datatypes.S n' ∧ plain (ranked step n') (in_step v step started k b)) as Hin.
  { intros n' started k b Hb' ->. exists n'. split; [done|]. by apply plain_in_step. }
  destruct p as [|started|started inputs ref key k|started c w|started c w|started c w w'|started c l w w'|
    started c|started c w| |]; simpl in Hb, Hp; try done.
  - injection Hb as <-. destruct n as [|n]; [lia|]. exists n. split; [done|].
    unfold begin_step. plain_step. cbv zeta. destruct (_ && _).
    + repeat plain_step; done.
    + plain_step; [eauto with plain|]. plain_step. cbv zeta. apply plain_in_step.
      destruct (decide _); [apply plain_after; lia|]. apply plain_ret. simpl. lia.
  - destruct (decide _); [|done]. injection Hb as <-. destruct n as [|n]; [lia|].
    apply (Hin n); [|done]. apply plain_woken. lia.
  - destruct (future_done _ _) as [pid|]; [|done]. injection Hb as <-. destruct Hp as (m & Hm & Hle).
    destruct n as [|n]; [inversion Hm; subst; lia|]. apply (Hin n); [|done]. by eapply plain_deliver.
  - destruct (0 <? _)%Z; [|done]. injection Hb as <-. destruct n as [|n]; [lia|]. apply (Hin n); [|done].
    unfold global_slot_acquired. repeat plain_step; [by apply plain_mod_slots|]. simpl. lia.
  - destruct (match tool_semaphore _ _ with Some _ => _ | None => _ end); [|done]. injection Hb as <-.
    destruct n as [|n]; [lia|]. apply (Hin n); [|done].
    unfold tool_slot_acquired. plain_step. plain_step.
    + destruct (tool_semaphore _ _) as [[? ?]|]; [by apply plain_mod_slots|eauto with plain].
    + plain_step; [|apply plain_pass; lia]. apply plain_mod_slots. intros x. unfold on_slot_acquired.
      by destruct (tool_limit_key c).
  - destruct (Qle_bool _ _); [|done]. injection Hb as <-. destruct Hp as [Hle Hmax].
    destruct n as [|n]; [lia|]. apply (Hin n); [|done]. unfold retry_wake.
    plain_step; [eauto with plain|]. plain_step. apply plain_ret. simpl. unfold left_after in *. simpl. lia.
Qed.

Lemma return_ranked step started c outcome n :
  ranked step n (InTool started c) →
  ∃ n', n = Datatypes.S n' ∧
    plain (ranked step n') (in_step v step started (attempt_count c) (tool_returned v step started c outcome) : E pc).
Proof.
  simpl. intros Hn. destruct n as [|n]; [lia|]. exists n. split; [done|]. apply plain_in_step.
  destruct outcome as [raw|e]; simpl; [|apply plain_failed; lia].
  plain_step; [eauto with plain|]. apply plain_complete.
Qed.

(** ** The bound *)

Definition ranks (f : string → nat) (c : cfg) : Prop :=
  ∀ sid step p, step_by_id (macro v) sid = Some step → pcs c !! sid = Some p → ranked step (f sid) p.
Definition remaining (f : string → nat) : nat := sum_list ((λ s, f (step_id s)) <$> steps (macro v)).

Lemma sum_list_cons n l : sum_list (n :: l) = n + sum_list l.
Proof. done. Qed.

Lemma sum_list_lt {A} (f g : A → nat) l x :
  (∀ y, g y ≤ f y) → x ∈ l → g x < f x → sum_list (g <$> l) < sum_list (f <$> l).
Proof.
  intros Hle. assert (∀ l, sum_list (g <$> l) ≤ sum_list (f <$> l)) as Hall.
  { intros l'. induction l' as [|y l' IH]; [done|]. rewrite !fmap_cons. rewrite !sum_list_cons. specialize (Hle y). lia. }
  intros Hin Hlt. induction l as [|y l IH]; [by apply elem_of_nil in Hin|]. rewrite !fmap_cons. rewrite !sum_list_cons.
  apply elem_of_cons in Hin as [->|Hin]; [specialize (Hall l); lia|].
  specialize (Hle y). specialize (IH Hin). lia.
Qed.

Lemma switch_ranks (f : string → nat) sid step n' (body : E pc) (c : cfg) :
  no_rate (st c) → ranks f c → step_by_id (macro v) sid = Some step →
  f sid = Datatypes.S n' → plain (ranked step n') body →
  ∃ f', no_rate (st (run_task sid body c)) ∧ ranks f' (run_task sid body c) ∧ remaining f' < remaining f.
Proof.
  intros Hr Hf Hs Hn Hb.
  destruct (run_task_wp sid body c _ (Hb (st c) Hr)) as (r & [Hr' Hres] & Hpcs).
  exists (λ j, if decide (j = sid) then n' else f j). split_and!; [done| |].
  - intros j step' p Hs' Hp. rewrite Hpcs in Hp. destruct (decide (j = sid)) as [->|Hj].
    + rewrite lookup_insert_eq in Hp. simplify_eq. destruct r as [p|e]; [by apply Hres|done].
    + rewrite lookup_insert_ne in Hp by done. by apply Hf.
  - unfold remaining. apply (sum_list_lt _ _ _ step).
    + intros y. case_decide as Hy; [rewrite Hy; lia|done].
    + unfold step_by_id in Hs. apply last_Some_elem_of, list_elem_of_filter in Hs. tauto.
    + apply step_by_id_id in Hs. rewrite Hs, decide_True by done. rewrite Hn. lia.
Qed.

Lemma fire_ranks (f : string → nat) ch (c c' : cfg) :
  no_rate (st c) → ranks f c → fire v ch c = Some c' →
  ∃ f', no_rate (st c') ∧ ranks f' c' ∧
    (if is_tick ch then remaining f' = remaining f else remaining f' < remaining f).
Proof.
  intros Hr Hf. destruct ch as [sid|sid outcome|q]; simpl.
  - destruct (step_by_id (macro v) sid) as [step|] eqn:Hs; [simpl|done].
    destruct (pcs c !! sid) as [p|] eqn:Hp; [simpl|done].
    destruct (resume_step v step p (st c)) as [body|] eqn:Hb; [simpl|done]. intros [= <-].
    destruct (resume_ranked step p (st c) body (f sid) Hb (Hf sid step p Hs Hp)) as (n' & Hn & Hplain).
    by eapply switch_ranks.
  - destruct (step_by_id (macro v) sid) as [step|] eqn:Hs; [simpl|done].
    destruct (pcs c !! sid) as [p|] eqn:Hp; [simpl|done].
    destruct p as [| | | | | | |started k| | |]; try discriminate. intros [= <-].
    destruct (return_ranked step started k outcome (f sid) (Hf sid step _ Hs Hp)) as (n' & Hn & Hplain).
    by eapply switch_ranks.
  - destruct (Qle_bool q 0); [done|]. intros [= <-]. exists f. by split_and!.
Qed.

Definition switches (chs : list choice) : nat := length (List.filter (λ ch, negb (is_tick ch)) chs).

Lemma fire_all_ranks chs : ∀ (f : string → nat) (c c' : cfg),
  no_rate (st c) → ranks f c → fire_all v chs c = Some c' →
  ∃ f', no_rate (st c') ∧ ranks f' c' ∧ switches chs + remaining f' ≤ remaining f.
Proof.
  induction chs as [|ch chs IH]; intros f c c' Hr Hf; simpl; [intros [= <-]; exists f; by split_and!|].
  destruct (fire v ch c) as [c1|] eqn:Hc; simpl; [|done]. intros Hall.
  destruct (fire_ranks f ch c c1 Hr Hf Hc) as (f1 & Hr1 & Hf1 & Hle).
  destruct (IH f1 c1 c' Hr1 Hf1 Hall) as (f2 & Hr2 & Hf2 & Hle2). exists f2. split_and!; [done..|].
  unfold switches in *. simpl. destruct (is_tick ch); simpl; lia.
Qed.

(** The switches a step's arguments and the retry policy allow. *)
Definition switch_bound (step : ToolCall) : nat := 2 + argument_leaves (arguments step) + 4 * tries.

Definition no_rate_limits (l : ExecutionLimits) : Prop :=
  global_requests_per_second l = None ∧ Forall (λ kv, requests_per_second kv.2 = None) (per_tool l).

Lemma start_ranks (c0 c : cfg) :
  run v c0 c → no_rate_limits (limits v) → NoDup (step_id <$> steps (macro v)) →
  ∃ f, no_rate (st c0) ∧ ranks f c0 ∧ remaining f = sum_list (switch_bound <$> steps (macro v)).
Proof.
  intros [(d & m & rid & resume & actor & t & n & x & x' & Hopen & Hl & Hs) _] [Hg Ht] Hnd.
  destruct (start_run_spec _ _ _ _ _ _ _ _ _ _ _ Hs Hopen) as (Hm & _ & _ & _ & _ & Hsl & _ & Hpcs & _).
  exists (λ sid, match step_by_id (macro v) sid with Some s => switch_bound s | None => 0 end). split_and!.
  - unfold no_rate. rewrite Hsl. simpl. rewrite Hg. split; [done|].
    clear -Ht. induction Ht as [|kv l Hkv _ IH]; csimpl; [done|]. by rewrite Hkv.
  - intros sid step p Hstep Hp. rewrite Hpcs in Hp. apply set_to_map_Some in Hp as [_ ->]. simpl. rewrite Hstep. unfold switch_bound. lia.
  - unfold remaining. f_equal. apply list_fmap_ext. intros i s Hi.
    assert (step_by_id (macro v) (step_id s) = Some s) as ->; [|done].
    apply step_by_id_spec; [done|]. split; [by eapply list_elem_of_lookup_2|done].
Qed.

(** Without rate limits no schedule of a run switches between tasks more
    often than the macro allows: per step two switches, one for every string in
    its arguments and four for each attempt. *)
Theorem switches_bounded (c0 c : cfg) chs :
  run v c0 c0 → no_rate_limits (limits v) → NoDup (step_id <$> steps (macro v)) →
  fire_all v chs c0 = Some c →
  switches chs ≤ sum_list (switch_bound <$> steps (macro v)).
Proof.
  intros Hr Hno Hnd Hall. destruct (start_ranks c0 c0 Hr Hno Hnd) as (f & H1 & H2 & <-).
  destruct (fire_all_ranks chs f c0 c H1 H2 Hall) as (f' & _ & _ & Hle). lia.
Qed.

Definition is_crashed (p : pc) : bool := match p with Crashed _ => true | _ => false end.

Lemma fire_all_app chs1 chs2 (c c1 c2 : cfg) :
  fire_all v chs1 c = Some c1 → fire_all v chs2 c1 = Some c2 → fire_all v (chs1 ++ chs2) c = Some c2.
Proof.
  revert c. induction chs1 as [|ch chs1 IH]; intros c; simpl; [by intros [= ->]|].
  destruct (fire v ch c); simpl; [apply IH|done].
Qed.

Lemma completes_from (c0 : cfg) : ∀ k (f : string → nat) (c : cfg),
  remaining f ≤ k → run v c0 c → macro_wf (macro v) → "" ∉ step_ids (macro v) →
  no_rate (st c) → ranks f c →
  ∃ chs c', fire_all v chs c = Some c' ∧
    ((∃ results, gathered v c' = Some results) ∨ ∃ sid e, pcs c' !! sid = Some (Crashed e)).
Proof.
  induction k as [|k IH]; intros f c Hk Hr Hwf Hempty Hno Hf;
    (destruct (gathered v c) as [results|] eqn:Hg; [exists [], c; split; [done|left; by eexists]|]);
    (destruct (decide (map_Exists (λ _ p, is_crashed p = true) (pcs c))) as [(sid & p & Hp & Hc)|Hnc];
      [exists [], c; split; [done|right]; destruct p; try done; by eexists _, _|]).
  all: destruct (run_progress v c0 c Hr Hwf Hempty) as (ticks & ch & c1 & _ & Ht & Hch & Hfire);
    [intros sid e He; apply Hnc; exists sid, (Crashed e); by split|done|].
  all: destruct (fire_all_ranks _ f c c1 Hno Hf Hfire) as (f1 & Hno1 & Hf1 & Hle).
  all: assert (1 ≤ switches (ticks ++ [ch])) by
    (unfold switches; rewrite List.filter_app, length_app; simpl; rewrite Hch; simpl; lia).
  - lia.
  - destruct (IH f1 c1) as (chs & c' & Hchs & Hend); [lia| |done..|].
    { eapply run_step; [exact Hr|]. by eapply fire_all_run. }
    exists ((ticks ++ [ch]) ++ chs), c'. split; [|done]. by eapply fire_all_app.
Qed.

(** C6: without rate limits, whatever a run of a valid macro has done so far,
    the event loop can bring it to the point where every step has returned, or
    a task has crashed. *)
Theorem run_completes (c0 c : cfg) chs :
  run v c0 c0 → macro_wf (macro v) → "" ∉ step_ids (macro v) → no_rate_limits (limits v) →
  fire_all v chs c0 = Some c →
  ∃ chs' c', fire_all v chs' c = Some c' ∧
    ((∃ results, gathered v c' = Some results) ∨ ∃ sid e, pcs c' !! sid = Some (Crashed e)).
Proof.
  intros Hr Hwf Hempty Hno Hall.
  destruct (start_ranks c0 c0 Hr Hno (mw_unique _ Hwf)) as (f & H1 & H2 & _).
  destruct (fire_all_ranks chs f c0 c H1 H2 Hall) as (f' & H1' & H2' & _).
  eapply (completes_from c0 (remaining f') f'); [done| |done..].
  eapply run_step; [exact Hr|]. by eapply fire_all_run.
Qed.
End ranks.

(** ** Concrete runs *)

Lemma sample_no_rate : no_rate_limits sample_limits.
Proof. split; [done|]. by repeat constructor. Qed.

Lemma switches_bounded_witness :
  switches to_end ≤ 30 ∧ sum_list (switch_bound sample_env <$> [sample_a; sample_b]) = 30.
Proof.
  split; [|vm_compute; reflexivity].
  apply (switches_bounded sample_env sample_start at_end to_end).
  - apply sample_start_run.
  - apply sample_no_rate.
  - apply (mw_unique _ sample_macro_wf).
  - vm_compute. reflexivity.
Defined.

Lemma run_completes_witness :
  ∃ chs' c', fire_all sample_env chs' at_call = Some c' ∧
    ((∃ results, gathered sample_env c' = Some results) ∨ ∃ sid e, pcs c' !! sid = Some (Crashed e)).
Proof.
  apply (run_completes sample_env sample_start at_call to_call).
  - apply sample_start_run.
  - apply sample_macro_wf.
  - apply (bool_decide_unpack _). vm_compute. exact I.
  - apply sample_no_rate.
  - vm_compute. reflexivity.
Defined.
