(* ===== verification/ExecutorEnds.v ===== *)
(** How a run ends and begins again: the summary and checkpoint that
    [finish_run] writes, what the overall timeout gives back, and what a
    resumed run restores. *)
From stdpp Require Import options.
From S2P Require Import Prelude Graph Values Json SafeEval ToolRegistry PointerStore StateManager TokenBucket Models Executor ExecutorSamples ExecutorProofs ExecutorResolve ExecutorRuns.
Unset Default Proof Using.

(** ** Counting statuses *)

Lemma map_by_keys {A} (m : gmap string A) (l : list string) :
  NoDup l → dom m = list_to_set l →
  (map_to_list m).*2 ≡ₚ omap (λ k, m !! k) l.
Proof.
  intros Hnd Hdom. revert m Hdom. induction Hnd as [|k l Hk Hnd IH]; intros m Hdom; csimpl.
  - apply dom_empty_inv_L in Hdom as ->. by rewrite map_to_list_empty.
  - assert (is_Some (m !! k)) as [a Ha] by (apply elem_of_dom; set_solver).
    rewrite Ha, <- (insert_delete_id m k a) at 1 by done.
    rewrite map_to_list_insert by apply lookup_delete_eq. csimpl. f_equiv.
    rewrite IH by (rewrite dom_delete_L; set_solver). clear -Hk.
    induction l as [|j l IHl]; csimpl; [done|]. apply not_elem_of_cons in Hk as [Hne Hk].
    rewrite lookup_delete_ne by done. destruct (m !! j); [f_equiv|]; auto.
Qed.

Lemma filter_sum {A} (f1 f2 f3 : A → bool) (l : list A) :
  (∀ x, x ∈ l → (f1 x = true ∧ f2 x = false ∧ f3 x = false) ∨ (f1 x = false ∧ f2 x = true ∧ f3 x = false) ∨
                (f1 x = false ∧ f2 x = false ∧ f3 x = true)) →
  length (List.filter f1 l) + length (List.filter f2 l) + length (List.filter f3 l) = length l.
Proof.
  induction l as [|x l IH]; intros Hall; simpl; [done|].
  assert (length (List.filter f1 l) + length (List.filter f2 l) + length (List.filter f3 l) = length l) as IH'
    by (apply IH; intros y Hy; apply Hall; by right).
  destruct (Hall x (list_elem_of_here _ _)) as [(-> & -> & ->)|[(-> & -> & ->)|(-> & -> & ->)]]; simpl; lia.
Qed.

Section ends.
Context {S : Type} `{PointerStoreBackend S} {func : Type} `{Runtime func}.
Context (v : run_env).
Abbreviation cfg := (config (S := S)).
Abbreviation E := (stm (run_state S)).
Implicit Types (s : run_state S).

(** The statuses a run has recorded, one per step, when every step has
    returned. *)
Definition status_of (s : run_state S) (step : ToolCall) : option string :=
  step_status (flow s) !! step_id step ≫= se_status.
Definition steps_with (l : list string) (s : run_state S) : nat :=
  length (List.filter (λ step, match status_of s step with
                               | Some st => bool_decide (st ∈ l) | None => false end) (steps (macro v))).

Lemma gathered_Some (c : cfg) results :
  gathered v c = Some results →
  Forall2 (λ step q, pcs c !! step_id step = Some (Finished q)) (steps (macro v)) results.
Proof.
  unfold gathered. intros Hg%mapM_Some. eapply Forall2_impl; [exact Hg|]. simpl. intros step q Hq.
  destruct (pcs c !! step_id step) as [[]|]; congruence.
Qed.

(** Every step of a finished run is settled. *)
Lemma gathered_settled (c0 c : cfg) results step :
  run v c0 c → NoDup (step_id <$> steps (macro v)) → gathered v c = Some results → step ∈ steps (macro v) →
  ∃ q status pid, pcs c !! step_id step = Some (Finished q) ∧ _pointer_id q = Ok pid ∧
    settled (step_id step) status pid (flow (st c)) ∧ status ∈ statuses.
Proof.
  intros Hr Hnd Hg%gathered_Some Hs. pose proof (run_inv v c0 c Hr) as Hi.
  apply list_elem_of_lookup in Hs as [i Hi']. destruct (Forall2_lookup_l _ _ _ _ _ Hg Hi') as (q & _ & Hq).
  apply list_elem_of_lookup_2 in Hi' as Hs.
  assert (step_by_id (macro v) (step_id step) = Some step) as Hstep by (by apply step_by_id_spec).
  destruct (in_steps _ _ _ _ Hi _ _ _ Hstep Hq) as [_ (status & pid & Hset & Hpid & Hin)].
  by exists q, status, pid.
Qed.

(** The map's count is the count over the macro's steps. *)
Lemma count_status_steps l s :
  NoDup (step_id <$> steps (macro v)) → dom (step_status (flow s)) = step_ids (macro v) →
  count_status l (flow s) = Z.of_nat (steps_with l s).
Proof.
  intros Hnd Hdom. unfold count_status, steps_with. f_equal.
  rewrite (Permutation_length (filter_Permutation_bool _ _ _ (map_by_keys _ _ Hnd Hdom))).
  assert (∀ step, step ∈ steps (macro v) → is_Some (step_status (flow s) !! step_id step)) as Hsome.
  { intros step Hs. apply elem_of_dom. rewrite Hdom. apply elem_of_step_ids. eauto. }
  clear Hnd Hdom. induction (steps (macro v)) as [|step ss IH]; csimpl; [done|].
  destruct (Hsome step (list_elem_of_here _ _)) as [e He]. rewrite He. csimpl.
  unfold status_of at 1. rewrite He. csimpl. unfold has_status at 1.
  assert (length (List.filter (has_status l) (omap (λ k, step_status (flow s) !! k) (step_id <$> ss))) =
    length (List.filter (λ step, match status_of s step with
      | Some st => bool_decide (st ∈ l) | None => false end) ss)) as IH' by (apply IH; intros; apply Hsome; by right).
  destruct (se_status e) as [t|]; [destruct (bool_decide (t ∈ l))|]; simpl; lia.
Qed.

(** A call on an open state manager that writes one table. *)
Definition with_sm (x : state_manager S) s : run_state S :=
  {| sm := x; clock := clock s; next_id := next_id s; flow := flow s; slots := slots s |}.

Lemma wp_write g (Q : run_state S → result unit → Prop) s :
  sm_closed (sm s) = false → Q (with_sm (g (sm s)) s) (Ok tt) →
  wp (on_sm (_connection;; st_modify g)) Q s.
Proof.
  intros Hc HQ. unfold wp, on_sm, _connection, mbind, stm_bind, raise_if. by rewrite Hc.
Qed.

(** What [finish_run] writes. *)
Lemma finish_run_spec results s :
  sm_closed (sm s) = false → (∀ q, last results = Some q → is_ok (_pointer_id q) = true) →
  wp (finish_run v results) (λ s' r, ∃ p row cp, r = Ok p ∧ flow s' = flow s ∧
    execution_run_summaries (sm s') !! env_run_id v = Some row ∧
    total_steps row = Z.of_nat (length (steps (macro v))) ∧
    succeeded_steps row = count_status ["ok"] (flow s) ∧
    failed_steps row = count_status ["error"; "rejected"; "paused"] (flow s) ∧
    execution_run_checkpoints (sm s') !! env_run_id v = Some cp ∧
    StateManager.status cp = (if (0 <? count_status ["paused"] (flow s))%Z then "awaiting_approval" else "completed") ∧
    StateManager.step_status cp = status_value (flow s) ∧
    StateManager.branch_decisions cp = decisions_value (flow s)) s.
Proof.
  intros Hc Hok. unfold finish_run. cbv zeta. apply wp_bind, wp_now. wp_step. wp_step. wp_step. wp_step. cbv zeta.
  assert (∃ final, wp (match last results with
      | Some p => st_lift (Some <$> _pointer_id p) | None => mret None end : E (option string))
      (λ s' r, s' = s ∧ r = Ok final) s) as [final Hfinal].
  { destruct (last results) as [q|]; [|by exists None; wp_step].
    specialize (Hok q eq_refl). destruct (_pointer_id q) as [pid|e] eqn:Hpid; [|done].
    exists (Some pid). by wp_step. }
  wp_step. eapply wp_mono; [exact Hfinal|]. intros ? ? [-> ->]. wp_step. wp_step.
  unfold _persist_checkpoint. apply wp_bind, wp_now. wp_step. wp_step. wp_step. wp_step.
  apply wp_write; [done|]. wp_step. wp_step. apply wp_write; [done|]. wp_step.
  apply wp_bind, wp_now. wp_step. wp_step. apply wp_write; [done|]. wp_step. wp_step.
  eexists _, _, _. split; [reflexivity|]. simpl. rewrite !lookup_insert_eq. by split_and!.
Qed.

Lemma fresh_dom (c0 c : cfg) results :
  run v c0 c → resumed v = false → NoDup (step_id <$> steps (macro v)) → gathered v c = Some results →
  dom (step_status (flow (st c))) = step_ids (macro v).
Proof.
  intros Hr Hres Hnd Hg. apply set_eq. intros sid. rewrite elem_of_dom. split.
  - intros Hs. destruct (decide (sid ∈ step_ids (macro v))) as [|Hn]; [done|].
    rewrite (other_statuses v c0 c sid Hr Hn) in Hs.
    destruct Hr as [(d & m & rid & resume & actor & t & n & x & x' & Hopen & Hl & Hst) _].
    destruct (start_run_spec _ _ _ _ _ _ _ _ _ _ _ Hst Hopen)
      as (_ & _ & Hre & _ & _ & _ & _ & _ & ss & ds & read & Hf & Hfresh).
    destruct (Hfresh ltac:(congruence)) as [-> _]. rewrite Hf in Hs. simpl in Hs. rewrite lookup_empty in Hs. by destruct Hs.
  - intros (step & Hs & <-)%elem_of_step_ids.
    destruct (gathered_settled c0 c results step Hr Hnd Hg Hs) as (q & status & pid & _ & _ & [-> _] & _). by eexists.
Qed.

(** C10: the summary of a fresh run whose steps have all returned counts every
    step exactly once: the succeeded, the failed (an error, a rejection or a
    pause) and the skipped ones add up to the total; its checkpoint says
    "awaiting_approval" exactly when some step paused, and "completed"
    otherwise. *)
Theorem run_accounting (c0 c : cfg) results :
  run v c0 c → resumed v = false → NoDup (step_id <$> steps (macro v)) → gathered v c = Some results →
  ∃ s' p row cp, finish_run v results (st c) = (s', Ok p) ∧
    execution_run_summaries (sm s') !! env_run_id v = Some row ∧
    execution_run_checkpoints (sm s') !! env_run_id v = Some cp ∧
    total_steps row = Z.of_nat (length (steps (macro v))) ∧
    succeeded_steps row = Z.of_nat (steps_with ["ok"] (st c)) ∧
    failed_steps row = Z.of_nat (steps_with ["error"; "rejected"; "paused"] (st c)) ∧
    (succeeded_steps row + failed_steps row + Z.of_nat (steps_with ["skipped"] (st c)) = total_steps row)%Z ∧
    StateManager.status cp =
      (if (0 <? Z.of_nat (steps_with ["paused"] (st c)))%Z then "awaiting_approval" else "completed").
Proof.
  intros Hr Hres Hnd Hg. pose proof (run_inv v c0 c Hr) as Hi. pose proof (fresh_dom c0 c results Hr Hres Hnd Hg) as Hdom.
  assert (∀ q, last results = Some q → is_ok (_pointer_id q) = true) as Hok.
  { intros q Hq%last_Some_elem_of%list_elem_of_lookup. destruct Hq as [i Hq].
    destruct (Forall2_lookup_r _ _ _ _ _ (gathered_Some _ _ Hg) Hq) as (step & Hs & Hp).
    apply list_elem_of_lookup_2 in Hs.
    destruct (gathered_settled c0 c results step Hr Hnd Hg Hs) as (q' & status & pid & Hq' & Hpid & _).
    simplify_eq. by rewrite Hpid. }
  pose proof (finish_run_spec results (st c) (in_open _ _ _ _ Hi) Hok) as Hw. unfold wp in Hw.
  destruct (finish_run v results (st c)) as [s' r] eqn:Hfin. simpl in Hw.
  destruct Hw as (p & row & cp & -> & _ & Hrow & Ht & Hs & Hf & Hcp & Hst & _).
  rewrite !count_status_steps in * by done.
  exists s', p, row, cp. split_and!; try done. rewrite Ht, Hs, Hf.
  assert (steps_with ["ok"] (st c) + steps_with ["error"; "rejected"; "paused"] (st c) + steps_with ["skipped"] (st c) =
    length (steps (macro v))); [|lia].
  apply filter_sum. intros step Hin.
  destruct (gathered_settled c0 c results step Hr Hnd Hg Hin) as (q & status & pid & _ & _ & [He _] & Hstat).
  unfold status_of. rewrite He. simpl.
  repeat (apply elem_of_cons in Hstat as [->|Hstat]; [tauto|]). by apply elem_of_nil in Hstat.
Qed.

(** ** The overall timeout *)

Lemma cancel_release_fields p x :
  global_permits (cancel_release p x) = (global_permits x + holds_global p)%Z ∧
  inflight_global (cancel_release p x) =
    (if decide (holds_global p = 0%Z) then inflight_global x else Z.max 0 (inflight_global x - 1)) ∧
  dom (tool_permits (cancel_release p x)) = dom (tool_permits x) ∧
  ∀ k, k ∈ dom (tool_permits x) →
    default 0%Z (tool_permits (cancel_release p x) !! k) = (default 0 (tool_permits x !! k) + holds_tool k p)%Z.
Proof.
  assert (∀ key, attempt_key p = Some key → holds_global p = 1%Z → cancel_release p x = release_slots key x →
    global_permits (cancel_release p x) = (global_permits x + holds_global p)%Z ∧
    inflight_global (cancel_release p x) =
      (if decide (holds_global p = 0%Z) then inflight_global x else Z.max 0 (inflight_global x - 1)) ∧
    dom (tool_permits (cancel_release p x)) = dom (tool_permits x) ∧
    ∀ k, k ∈ dom (tool_permits x) →
      default 0%Z (tool_permits (cancel_release p x) !! k) = (default 0 (tool_permits x !! k) + holds_tool k p)%Z) as Hrel.
  { intros key Hkey Hg ->. destruct (release_slots_fields key x) as (-> & -> & -> & _). rewrite Hg.
    rewrite decide_False by done. split_and!; [done|done| |].
    - destruct (tool_semaphore _ _) as [[k n]|] eqn:Ht; [|done].
      apply tool_semaphore_Some in Ht as [_ Ht]. apply elem_of_dom_2 in Ht. set_solver.
    - intros k Hk. rewrite (holds_tool_in k key p Hkey). destruct (tool_semaphore _ _) as [[k' n]|] eqn:Ht.
      + apply tool_semaphore_Some in Ht as [-> Ht]. destruct (decide (k = k')) as [->|Hne].
        * rewrite lookup_insert_eq, Ht, decide_True by done. done.
        * rewrite lookup_insert_ne, decide_False by congruence. lia.
      + rewrite tool_semaphore_None in Ht. rewrite decide_False; [lia|]. intros Hk'. by eapply Ht. }
  assert (∀ k, attempt_key p = None → holds_tool k p = 0%Z) as Hidle by (intros; by apply holds_tool_idle).
  destruct p; try (eapply Hrel; reflexivity); simpl; split_and!; try lia; try done;
    try (intros; rewrite Hidle by done; lia).
Qed.

(** Cancelling every task gives every slot back. *)
Lemma cancel_all x (m : gmap string pc) :
  (total busy m = inflight_global x)%Z →
  let y := foldr cancel_release x (map_to_list m).*2 in
  global_permits y = (global_permits x + total holds_global m)%Z ∧
  dom (tool_permits y) = dom (tool_permits x) ∧
  (∀ k, k ∈ dom (tool_permits x) →
    default 0%Z (tool_permits y !! k) = (default 0 (tool_permits x !! k) + total (holds_tool k) m)%Z) ∧
  inflight_global y = 0%Z.
Proof.
  intros Hb. cbv zeta.
  assert (foldr cancel_release x (map_to_list m).*2 = map_fold (λ _, cancel_release) x m) as ->.
  { clear. rewrite map_fold_foldr.
    induction (map_to_list m) as [|[i p] l IH]; csimpl; [done|]. by f_equal. }
  assert (global_permits (map_fold (λ _, cancel_release) x m) = (global_permits x + total holds_global m)%Z ∧
    dom (tool_permits (map_fold (λ _, cancel_release) x m)) = dom (tool_permits x) ∧
    (∀ k, k ∈ dom (tool_permits x) → default 0%Z (tool_permits (map_fold (λ _, cancel_release) x m) !! k) =
      (default 0 (tool_permits x !! k) + total (holds_tool k) m)%Z) ∧
    (0 <= inflight_global (map_fold (λ _, cancel_release) x m) <= Z.max 0 (inflight_global x - total busy m))%Z)
    as (H1 & H2 & H3 & H4); [|split_and!; [done..|lia]].
  assert (0 <= inflight_global x)%Z as Hx by (rewrite <- Hb; apply total_nonneg, (weights_nonneg "")).
  clear Hb. induction m as [|i p m Hi Hfst IH] using map_first_key_ind.
  - assert (∀ w, total w ∅ = 0%Z) as Ht by done. rewrite map_fold_empty, !Ht.
    split_and!; [lia|done|intros k _; rewrite Ht; lia|lia|lia].
  - rewrite map_fold_insert_first_key by done. destruct IH as (I1 & I2 & I3 & I4).
    set (y := map_fold (λ _, cancel_release) x m) in *.
    destruct (cancel_release_fields p y) as (F1 & F2 & F3 & F4).
    rewrite !total_insert_new by done. pose proof (weights_nonneg "" p) as (? & ? & _ & ? & _).
    assert (holds_global p = 0 ∨ holds_global p = 1)%Z by (destruct p; simpl; lia).
    split_and!; [lia|congruence| | |].
    + intros k Hk. rewrite F4 by congruence. rewrite I3, total_insert_new by done. lia.
    + rewrite F2. case_decide; lia.
    + rewrite F2. case_decide; lia.
Qed.

Definition has_pointer (f : flow_state) (sid : string) : Prop :=
  ∃ e pid, step_status f !! sid = Some e ∧ se_pointer_id e = Some pid.

(** What the timeout's writes leave alone. *)
Record timed s s' : Prop := {
  td_slots : slots s' = slots s;
  td_closed : sm_closed (sm s') = sm_closed (sm s);
  td_pointer j : has_pointer (flow s) j → has_pointer (flow s') j
}.

#[local] Instance timed_preorder : PreOrder timed.
Proof. split; [by constructor|]. intros a b c [] []. constructor; [congruence..|auto]. Qed.

Lemma core_timed s s' : core s s' → timed s s'.
Proof. intros [F1 S1 C1 L1]. constructor; [done..|]. by rewrite F1. Qed.

Lemma mark_timed step s :
  wp (_mark_step_timeout v step) (λ s' r, timed s s' ∧ ∀ q, r = Ok q →
    is_ok (_pointer_id q) = true ∧ has_pointer (flow s') (step_id step)) s.
Proof.
  unfold _mark_step_timeout. cbv zeta. wp_step. apply wp_append. intros s1 [[]|e] H1; wp_step.
  2: { split; [by apply core_timed|done]. }
  wp_step. apply wp_store. intros s2 [out|e] H2 Ho; wp_step.
  2: { split; [apply core_timed; by eapply core_trans|done]. }
  unfold record_status, set_result, mod_flow. repeat wp_step.
  split; [trans s2; [apply core_timed; by eapply core_trans|]|].
  - constructor; [done..|]. intros j (e & pid & He & Hp). unfold has_pointer. simpl.
    destruct (decide (j = step_id step)) as [->|Hj].
    + rewrite lookup_insert_eq. by eexists _, _.
    + rewrite lookup_insert_ne by done. eauto.
  - intros q [= <-]. split; [by rewrite Ho|]. unfold has_pointer. simpl. rewrite lookup_insert_eq. by eexists _, _.
Qed.

(** The loop over the steps. *)
Definition timeout_result (c : cfg) (step : ToolCall) : E payload :=
  s ← st_get;
  match pcs c !! step_id step with
  | Some (Finished p) => mret p
  | _ =>
      match step_status (flow s) !! step_id step ≫= se_pointer_id with
      | Some pid => if decide (pid = "") then _mark_step_timeout v step
                    else _hydrate_pointer_response (Some pid) (step_id step)
      | None => _mark_step_timeout v step
      end
  end.

Definition timeout_payload (c : cfg) (step : ToolCall) (q : payload) : Prop :=
  is_ok (_pointer_id q) = true ∧ ∀ q', pcs c !! step_id step = Some (Finished q') → q = q'.

Lemma timeout_result_timed c0 c step s :
  run v c0 c → step ∈ steps (macro v) → NoDup (step_id <$> steps (macro v)) →
  (∀ j, has_pointer (flow (st c)) j → has_pointer (flow s) j) →
  wp (timeout_result c step) (λ s' r, timed s s' ∧ ∀ q, r = Ok q →
    timeout_payload c step q ∧ has_pointer (flow s') (step_id step)) s.
Proof.
  intros Hr Hin Hnd Hmono. unfold timeout_result. wp_step. wp_step. wp_step.
  assert (∀ s', (∀ q', pcs c !! step_id step ≠ Some (Finished q')) →
    wp (_mark_step_timeout v step) (λ s'' r, timed s' s'' ∧ ∀ q, r = Ok q →
      timeout_payload c step q ∧ has_pointer (flow s'') (step_id step)) s') as Hmark.
  { intros s' Hn. eapply wp_mono; [apply mark_timed|]. intros s'' r [Ht Hq]. split; [done|].
    intros q Hq'. destruct (Hq q Hq') as [H1 H2]. split; [|done]. split; [done|]. intros q' Hq''. by destruct (Hn q'). }
  assert ((∃ q, pcs c !! step_id step = Some (Finished q)) ∨ ∀ q', pcs c !! step_id step ≠ Some (Finished q'))
    as [[q Hq]|Hn].
  { destruct (pcs c !! step_id step) as [[]|]; try (right; congruence). left. by eexists. }
  - rewrite Hq. wp_step. split; [done|]. intros ? [= <-].
    assert (step_by_id (macro v) (step_id step) = Some step) as Hstep by (by apply step_by_id_spec).
    destruct (in_steps _ _ _ _ (run_inv v c0 c Hr) _ _ _ Hstep Hq) as [_ (status & pid & [He Hf] & Hpid & _)].
    split; [split; [by rewrite Hpid|naive_solver]|]. apply Hmono. by eexists _, _.
  - assert (∀ (body : E payload) Q, wp (match step_status (flow s) !! step_id step ≫= se_pointer_id with
      | Some pid => if decide (pid = "") then _mark_step_timeout v step
                    else _hydrate_pointer_response (Some pid) (step_id step)
      | None => _mark_step_timeout v step end) Q s →
      wp (match pcs c !! step_id step with Some (Finished p) => mret p | _ =>
      match step_status (flow s) !! step_id step ≫= se_pointer_id with
      | Some pid => if decide (pid = "") then _mark_step_timeout v step
                    else _hydrate_pointer_response (Some pid) (step_id step)
      | None => _mark_step_timeout v step end end) Q s) as Hskip.
    { intros _ Q HQ. destruct (pcs c !! step_id step) as [[| | | | | | | | |q|]|]; try done. by destruct (Hn q). }
    apply (Hskip (mret [])). clear Hskip.
    destruct (step_status (flow s) !! step_id step ≫= se_pointer_id) as [pid|] eqn:Hpid; [|by apply Hmark].
    destruct (decide (pid = "")); [by apply Hmark|]. apply wp_hydrate. intros s' r Hc Hq.
    split; [by apply core_timed|]. intros q ->. split; [split; [by rewrite Hq|intros q' Hq'; by destruct (Hn q')]|].
    apply (td_pointer _ _ (core_timed _ _ Hc)). apply bind_Some in Hpid as (e & He & Hp). by eexists _, _.
Qed.

Lemma timeout_loop c0 c : run v c0 c → NoDup (step_id <$> steps (macro v)) → ∀ l s,
  Forall (λ step, step ∈ steps (macro v)) l → (∀ j, has_pointer (flow (st c)) j → has_pointer (flow s) j) →
  wp (st_map (timeout_result c) l) (λ s' r, timed s s' ∧ ∀ qs, r = Ok qs →
    Forall2 (timeout_payload c) l qs ∧ Forall (λ step, has_pointer (flow s') (step_id step)) l) s.
Proof.
  intros Hr Hnd l. induction l as [|step l IH]; intros s Hl Hmono; simpl.
  - wp_step. split; [done|]. intros ? [= <-]. by repeat constructor.
  - apply Forall_cons in Hl as [Hstep Hl]. wp_step. eapply wp_mono; [by eapply timeout_result_timed|].
    intros s1 [q|e] [H1 Hq]; wp_step; [|by split]. wp_step.
    destruct (Hq q eq_refl) as [Hp Hpt].
    eapply wp_mono; [apply IH; [done|]|].
    { intros j Hj. by apply (td_pointer _ _ H1), Hmono. }
    intros s2 [qs|e] [H2 Hqs]; wp_step; [wp_step|split; [by trans s1|done]].
    split; [by trans s1|]. intros ? [= <-]. destruct (Hqs qs eq_refl) as [Hf Ha].
    split; [by constructor|]. constructor; [|done]. by apply (td_pointer _ _ H2).
Qed.

(** When the overall timeout fires, every permit is free again and nothing
    counts as in flight, however the tasks were interrupted; and when the
    replacement results are made, there is one for each step, carrying a
    pointer, unchanged for a step that had returned, and every step has a
    status that names a pointer. *)
Theorem timeout_recovers (c0 c : cfg) s' r :
  run v c0 c → NoDup (step_id <$> steps (macro v)) → timeout_results v c (st c) = (s', r) →
  global_permits (slots s') = max_global_concurrency (limits v) ∧
  (∀ k n, tool_limits v !! k = Some n → tool_permits (slots s') !! k = Some n) ∧
  inflight_global (slots s') = 0%Z ∧
  ∀ results, r = Ok results →
    Forall2 (timeout_payload c) (steps (macro v)) results ∧
    Forall (λ step, has_pointer (flow s') (step_id step)) (steps (macro v)).
Proof.
  intros Hr Hnd Heq. pose proof (run_inv v c0 c Hr) as Hi. pose proof (in_slots _ _ _ _ Hi) as [G N D T TN I P].
  set (x := foldr cancel_release (slots (st c)) (map_to_list (pcs c)).*2).
  assert (slots s' = x ∧ ∀ results, r = Ok results →
    Forall2 (timeout_payload c) (steps (macro v)) results ∧
    Forall (λ step, has_pointer (flow s') (step_id step)) (steps (macro v))) as [Hx Hres].
  { assert (wp (timeout_results v c) (λ s' r, slots s' = x ∧ ∀ results, r = Ok results →
      Forall2 (timeout_payload c) (steps (macro v)) results ∧
      Forall (λ step, has_pointer (flow s') (step_id step)) (steps (macro v))) (st c)) as Hw.
    { unfold timeout_results. wp_step. apply wp_mod_slots. wp_step. wp_step. fold x.
      eapply wp_mono; [apply (timeout_loop c0 c Hr Hnd); [by apply Forall_forall|done]|].
      intros s1 [qs|e] [[H1 H2 H3] Hqs]; wp_step; [|done]. wp_step.
      apply wp_persist; [by rewrite H2; apply (in_open _ _ _ _ Hi)|]. intros s2 [F2 S2 C2 L2]. repeat wp_step.
      split; [by rewrite S2, H1|]. intros ? [= <-]. rewrite F2. by apply Hqs. }
    unfold wp in Hw. by rewrite Heq in Hw. }
  rewrite Hx. destruct (cancel_all (slots (st c)) (pcs c) (eq_sym I)) as (A1 & A2 & A3 & A4). fold x in A1, A2, A3, A4.
  split_and!; [lia| |done|done]. intros k n Hk.
  assert (k ∈ dom (tool_permits (slots (st c)))) as Hd by (rewrite D; by eapply elem_of_dom_2).
  specialize (A3 k Hd). specialize (T k n Hk). rewrite <- A2 in Hd. apply elem_of_dom in Hd as [n' Hn'].
  rewrite Hn' in A3 |- *. simpl in A3. f_equal. lia.
Qed.

(** ** Checkpoints *)

Lemma entry_roundtrip e : entry_of_value (entry_value e) = e.
Proof. by destruct e as [[?|] [?|]]. Qed.

Lemma status_roundtrip f :
  (list_to_map ((λ kv, (kv.1, entry_of_value kv.2)) <$> dict_items (status_value f)) : gmap string status_entry)
  = step_status f.
Proof.
  unfold status_value, dict_items. rewrite <- list_fmap_compose.
  rewrite (list_fmap_ext _ id).
  - by rewrite list_fmap_id, list_to_map_to_list.
  - intros i [k e] _. simpl. by rewrite entry_roundtrip.
Qed.

Lemma decisions_roundtrip f :
  (list_to_map ((λ kv, (kv.1, list_to_set (str_items kv.2))) <$> dict_items (decisions_value f)) : gmap string (gset string))
  = branch_decisions f.
Proof.
  unfold decisions_value, dict_items. rewrite <- list_fmap_compose.
  rewrite (list_fmap_ext _ id).
  - by rewrite list_fmap_id, list_to_map_to_list.
  - intros i [k X] _. simpl. f_equal. rewrite <- (list_to_set_sorted_set X) at 2. f_equal.
    induction (sorted_set X) as [|x l IH]; csimpl; [done|]. by f_equal.
Qed.

Lemma initial_replayable m statuses decisions read sid pid :
  sid ∈ step_ids m →
  future_done (initial_flow m statuses decisions read) sid = Some pid ↔
  replayable (initial_flow m statuses decisions read) sid pid.
Proof.
  intros Hsid. unfold future_done.
  destruct (initial_future m statuses decisions read sid Hsid) as [[Hp Hn]|(pid' & Hrep & ->)].
  - rewrite Hp. simpl. split; [done|]. intros Hr. by destruct (Hn pid).
  - simpl. split; [by intros [= <-]|]. intros Hr. destruct Hr as [H1 _], Hrep as [H2 _]. congruence.
Qed.

(** [f'] takes over the final outcomes of [f], and nothing else. *)
Definition replays (m : BatchedMacroRequest) (f f' : flow_state) : Prop :=
  ∀ sid pid, sid ∈ step_ids m → future_done f' sid = Some pid ↔ replayable f sid pid.

(** C9: resuming a run from the checkpoint it last wrote starts from exactly
    the statuses and branch decisions the run had, with the run's original
    start time; the steps whose outcome is final, and no others, have their
    future set, to the pointer the checkpoint names; an early exit is
    forgotten. *)
Theorem resume_restores d m actor t n status final (s s' : run_state S) :
  sm_closed (sm s) = false → status ∈ ["active"; "awaiting_approval"] →
  _persist_checkpoint v status final s = (s', Ok tt) →
  ∃ x v' c', start_run d m (env_run_id v) true actor t n (sm s') = (x, Ok (v', c')) ∧
    step_status (flow (st c')) = step_status (flow s) ∧
    branch_decisions (flow (st c')) = branch_decisions (flow s) ∧
    run_started_at v' = run_started_at v ∧ early_exit (flow (st c')) = false ∧
    replays m (flow s) (flow (st c')).
Proof.
  intros Hopen Hstatus Hp.
  assert (sm_closed (sm s') = false ∧ ∃ cp, execution_run_checkpoints (sm s') !! env_run_id v = Some cp ∧
    StateManager.status cp = status ∧ StateManager.started_at_utc cp = run_started_at v ∧
    StateManager.step_status cp = status_value (flow s) ∧
    StateManager.branch_decisions cp = decisions_value (flow s)) as (Hopen' & cp & Hcp & H1 & H2 & H3 & H4).
  { assert (wp (_persist_checkpoint v status final) (λ s1 _, sm_closed (sm s1) = false ∧
      ∃ cp, execution_run_checkpoints (sm s1) !! env_run_id v = Some cp ∧
      StateManager.status cp = status ∧ StateManager.started_at_utc cp = run_started_at v ∧
      StateManager.step_status cp = status_value (flow s) ∧
      StateManager.branch_decisions cp = decisions_value (flow s)) s) as Hw.
    { unfold _persist_checkpoint. apply wp_bind, wp_now. repeat wp_step. apply wp_write; [done|].
      split; [done|]. simpl. rewrite lookup_insert_eq. by eexists. }
    unfold wp in Hw. by rewrite Hp in Hw. }
  destruct (start_run d m (env_run_id v) true actor t n (sm s')) as [x r] eqn:Hs.
  revert Hs. unfold start_run.
  assert (get_run_checkpoint (env_run_id v) (sm s') = (sm s', Ok {|
    StateManager.started_at_utc := StateManager.started_at_utc cp; updated_at_utc := updated_at_utc cp;
    StateManager.status := StateManager.status cp; StateManager.macro_payload := StateManager.macro_payload cp;
    StateManager.step_status := StateManager.step_status cp;
    StateManager.branch_decisions := StateManager.branch_decisions cp;
    StateManager.final_pointer_id := StateManager.final_pointer_id cp;
    StateManager.actor_metadata := Some (default (PDict []) (StateManager.actor_metadata cp)) |})) as Hget.
  { unfold get_run_checkpoint, _connection, mbind, stm_bind, raise_if. rewrite Hopen'. simpl. by rewrite Hcp. }
  unfold mbind at 1, stm_bind at 1. rewrite Hget. cbn [fst snd StateManager.status].
  unfold mbind at 1, stm_bind at 1. unfold st_raise_if, st_lift, raise_if. rewrite H1.
  rewrite bool_decide_eq_false_2 by (by intros Hn; apply Hn). cbn [mret stm_ret].
  match goal with |- context [_persist_checkpoint ?v0 "active" None ?s0] => set (v1 := v0); set (s1 := s0) end.
  intros Hs.
  destruct (persist_core v1 "active" None s1 Hopen') as (s2 & [F2 _ _ _] & Hp2).
  rewrite Hp2 in Hs. injection Hs as <- <-. eexists _, _, _. split; [reflexivity|].
  cbn [st]. rewrite F2. subst s1 v1. cbn -[initial_flow list_to_map status_value decisions_value].
  rewrite H3, H4, status_roundtrip, decisions_roundtrip.
  split_and!; [done..|]. intros sid pid Hsid. rewrite initial_replayable by done. done.
Qed.

(** A run that has no checkpoint, or whose checkpoint is neither "active"
    nor "awaiting_approval", cannot be resumed: the call raises and nothing has
    changed. *)
Theorem resume_refused d m rid actor t n (x : state_manager S) :
  sm_closed x = false →
  (execution_run_checkpoints x !! rid = None →
   ∃ e, start_run d m rid true actor t n x = (x, Raise e) ∧ exn_cls e = KeyError) ∧
  (∀ cp, execution_run_checkpoints x !! rid = Some cp →
   StateManager.status cp ∉ ["active"; "awaiting_approval"] →
   ∃ e, start_run d m rid true actor t n x = (x, Raise e) ∧ exn_cls e = ValueError).
Proof.
  intros Hopen. unfold start_run, get_run_checkpoint, _connection, mbind, stm_bind, raise_if. rewrite Hopen. simpl. split.
  - intros ->. simpl. by eexists.
  - intros cp -> Hst. cbn [mret stm_ret fst snd StateManager.status st_raise_if st_lift].
    unfold mret, stm_ret. simpl. rewrite bool_decide_eq_true_2 by done. simpl. by eexists.
Qed.
End ends.

(** ** Concrete runs *)

Definition results_at_end : list payload := default [] (gathered sample_env at_end).

Lemma at_end_run : run sample_env sample_start at_end.
Proof. apply sample_run. vm_compute. reflexivity. Qed.

Lemma run_accounting_witness :
  ∃ s' p row cp, finish_run sample_env results_at_end (st at_end) = (s', Ok p) ∧
    execution_run_summaries (sm s') !! "r1" = Some row ∧
    execution_run_checkpoints (sm s') !! "r1" = Some cp ∧
    total_steps row = 2%Z ∧ succeeded_steps row = 2%Z ∧ StateManager.status cp = "completed".
Proof.
  destruct (run_accounting sample_env sample_start at_end results_at_end)
    as (s' & p & row & cp & H1 & H2 & H3 & H4 & H5 & _ & _ & H6).
  - apply at_end_run.
  - vm_compute. reflexivity.
  - apply (bool_decide_unpack _). vm_compute. exact I.
  - vm_compute. reflexivity.
  - exists s', p, row, cp. split_and!; [exact H1|exact H2|exact H3|exact H4| |].
    + rewrite H5. vm_compute. reflexivity.
    + rewrite H6. vm_compute. reflexivity.
Defined.

(** The sample interrupted in [b]'s call. *)
Lemma timeout_recovers_witness :
  let s' := (timeout_results sample_env at_call (st at_call)).1 in
  global_permits (slots (st at_call)) = 0%Z ∧ global_permits (slots s') = 1%Z ∧
  tool_permits (slots s') !! "fetch" = Some 1%Z ∧ inflight_global (slots s') = 0%Z.
Proof.
  destruct (timeout_results sample_env at_call (st at_call)) as [s' r] eqn:Heq.
  destruct (timeout_recovers sample_env sample_start at_call s' r) as (H1 & H2 & H3 & _).
  - apply at_call_run.
  - apply (bool_decide_unpack _). vm_compute. exact I.
  - exact Heq.
  - split_and!; [vm_compute; reflexivity|exact H1| |exact H3]. apply H2. vm_compute. reflexivity.
Defined.

Lemma resume_restores_witness :
  ∃ x v' c', start_run default_execution_limits sample_macro "r1" true None 10 5
      (sm (_persist_checkpoint sample_env "active" None (st at_call)).1) = (x, Ok (v', c')) ∧
    step_status (flow (st c')) = step_status (flow (st at_call)).
Proof.
  destruct (resume_restores sample_env default_execution_limits sample_macro None 10 5 "active" None
    (st at_call) (_persist_checkpoint sample_env "active" None (st at_call)).1) as (x & v' & c' & H1 & H2 & _).
  - vm_compute. reflexivity.
  - apply list_elem_of_here.
  - vm_compute. reflexivity.
  - exists x, v', c'. split; [exact H1|exact H2].
Defined.

Lemma resume_refused_witness :
  ∃ e, start_run default_execution_limits sample_macro "r9" true None 10 5 fresh_manager = (fresh_manager, Raise e) ∧
    exn_cls e = KeyError.
Proof.
  destruct (resume_refused default_execution_limits sample_macro "r9" None 10 5 fresh_manager) as [H _].
  - reflexivity.
  - apply H. reflexivity.
Defined.

(** ** Two behaviours worth knowing *)

(** A macro of [a] and a second step that reads it. *)
Definition two_steps (a b : ToolCall) : BatchedMacroRequest :=
  {| steps := [a; b]; return_final_state_only := true; retry_policy := default_retry_policy;
     execution_limits := Some sample_limits; approvals := [] |}.
Definition reader (reference : string) : ToolCall :=
  {| tool_name := "fetch"; arguments := [("url", PStr reference)]; step_id := "b";
     branching := None; approval := None |}.
Definition source (needs_approval : bool) : ToolCall :=
  {| tool_name := "fetch"; arguments := [("url", PStr "x.org")]; step_id := "a"; branching := None;
     approval := Some {| required := needs_approval; prompt := None |} |}.

Definition statuses_after (m : BatchedMacroRequest) (chs : list choice) : option (list (option string)) :=
  match (start_run default_execution_limits m "r2" false None 0 0 fresh_manager).2 with
  | Ok (v, c) => (λ c', status_of (st c') <$> steps m) <$> fire_all v chs c
  | Raise _ => None
  end.

(** A reference with a path is answered with [None] whatever the step
    returned: the stored output is text, and a path leads nowhere in a text. *)
Example path_reference_fails :
  statuses_after (two_steps (source false) (reader "$step:a.link"))
    [Run "b"; Run "a"; Run "a"; Run "a"; Return "a" (Ok (PDict [("link", PStr "y.org")])); Run "b"]
  = Some [Some "ok"; Some "error"].
Proof. vm_compute. reflexivity. Qed.

(** A step that reads one awaiting approval does not wait for the decision: it
    fails. *)
Example paused_dependency_fails :
  statuses_after (two_steps (source true) (reader "$step:a")) [Run "b"; Run "a"; Run "b"]
  = Some [Some "paused"; Some "error"].
Proof. vm_compute. reflexivity. Qed.
