(* ===== verification/Distributed.v ===== *)
(** The coordinator of distributed workers, [DistributedCoordinator] of
    [eap/environment/distributed_executor.py]: its two tables, the operations
    workers call on them, and the worker loop.

    An instant is its microseconds, where the tables keep ISO-8601 text (in UTC
    the texts order as the instants do); JSON columns hold the values they
    encode.  A call is the sequence of its actions on the database, so that
    other clients' can come in between: a [SELECT] outside a transaction is one
    action, and so is everything from a connection's first write to its commit,
    during which SQLite lets no other connection write.  Fresh lease identifiers
    and clock readings are arguments.  Rows that agree on every [ORDER BY]
    column come in an unspecified order. *)
From stdpp Require Import options.
From S2P Require Import Prelude Graph Values Json SafeEval ToolRegistry PointerStore StateManager Models.
Unset Default Proof Using.

(** ** Tables *)

Inductive step_state := Queued | Started | Completed | Failed.
Inductive lease_state := Active | LeaseCompleted | LeaseFailed | Expired.

#[global] Instance step_state_eq_dec : EqDecision step_state.
Proof. solve_decision. Defined.
#[global] Instance lease_state_eq_dec : EqDecision lease_state.
Proof. solve_decision. Defined.

(** A row of [distributed_steps], keyed by run and step. *)
Record dist_step := {
  ds_tool_name : string;
  ds_arguments : list (string * pyval);
  ds_depends_on : list string;
  ds_status : step_state;
  ds_attempt : Z;
  ds_max_attempts : Z;
  next_attempt_at_utc : option Z;
  ds_output_pointer_id : option string;
  last_error : option ToolErrorPayload;
  ds_updated_at_utc : Z
}.

(** A row of [distributed_leases], keyed by its identifier. *)
Record lease := {
  ls_run_id : string;
  ls_step_id : string;
  worker_id : string;
  ls_attempt : Z;
  issued_at_utc : Z;
  heartbeat_at_utc : Z;
  lease_expires_at_utc : Z;
  ls_status : lease_state
}.

Record coordinator := {
  distributed_steps : gmap (string * string) dist_step;
  distributed_leases : gmap string lease
}.

Definition empty_coordinator : coordinator := {| distributed_steps := ∅; distributed_leases := ∅ |}.

Definition lease_key (l : lease) : string * string := (ls_run_id l, ls_step_id l).

Definition set_steps (m : gmap (string * string) dist_step) (c : coordinator) : coordinator :=
  {| distributed_steps := m; distributed_leases := distributed_leases c |}.
Definition set_leases (m : gmap string lease) (c : coordinator) : coordinator :=
  {| distributed_steps := distributed_steps c; distributed_leases := m |}.

(** The [UPDATE] statements: no effect on a row that is not there. *)
Definition update_step (k : string * string) (f : dist_step → dist_step) (c : coordinator) : coordinator :=
  set_steps (alter f k (distributed_steps c)) c.
Definition update_lease (id : string) (f : lease → lease) (c : coordinator) : coordinator :=
  set_leases (alter f id (distributed_leases c)) c.

Definition set_lease_status (s : lease_state) (l : lease) : lease :=
  {| ls_run_id := ls_run_id l; ls_step_id := ls_step_id l; worker_id := worker_id l;
     ls_attempt := ls_attempt l; issued_at_utc := issued_at_utc l;
     heartbeat_at_utc := heartbeat_at_utc l; lease_expires_at_utc := lease_expires_at_utc l;
     ls_status := s |}.

(** [with sqlite3.connect(...) as conn]: an exception rolls back. *)
Definition transaction {A} (m : stm coordinator A) : stm coordinator A := λ c,
  match m c with
  | (_, Raise e) => (c, Raise e)
  | ok => ok
  end.

(** ** Calls *)

(** A call that acts on a shared [St]: over, or about to do its next action,
    after which it goes on. *)
Inductive prog (St A : Type) :=
  | Done (r : result A)
  | Act (f : St → St * prog St A).
Arguments Done {_ _} _.
Arguments Act {_ _} _.

Fixpoint prog_ind' {St A} (P : prog St A → Prop) (HD : ∀ r, P (Done r))
    (HA : ∀ f, (∀ s, P (f s).2) → P (Act f)) (p : prog St A) : P p :=
  match p with
  | Done r => HD r
  | Act f => HA f (λ s, prog_ind' P HD HA (f s).2)
  end.

#[global] Instance prog_ret St : MRet (prog St) := λ A a, Done (Ok a).
#[global] Instance prog_bind St : MBind (prog St) := λ A B k, fix bind p :=
  match p with
  | Done (Ok a) => k a
  | Done (Raise e) => Done (Raise e)
  | Act f => Act (λ s, let '(s', p') := f s in (s', bind p'))
  end.

(** One action. *)
Definition atomically {St A} (m : stm St A) : prog St A := Act (λ s, let '(s', r) := m s in (s', Done r)).
Definition read {St A} (f : St → A) : prog St A := atomically (λ s, (s, Ok (f s))).
Definition write {St} (f : St → St) : prog St unit := atomically (st_modify f).

(** [try: ... except Exception as exc] *)
Fixpoint attempt {St A} (p : prog St A) : prog St (result A) :=
  match p with
  | Done r => Done (Ok r)
  | Act f => Act (λ s, let '(s', p') := f s in (s', attempt p'))
  end.

(** A call on a part of a larger state. *)
Fixpoint on_part {St St' A} (get : St → St') (set : St' → St → St) (p : prog St' A) : prog St A :=
  match p with
  | Done r => Done r
  | Act f => Act (λ s, let '(s', p') := f (get s) in (set s' s, on_part get set p'))
  end.

(** A call during which nobody else acts. *)
Fixpoint alone {St A} (p : prog St A) (s : St) : St * result A :=
  match p with
  | Done r => (s, r)
  | Act f => let '(s', p') := f s in alone p' s'
  end.

(** ** Dependencies *)

(** [value.replace("$step:", "")]; [skip] characters of an occurrence remain. *)
Fixpoint remove_marker (skip : nat) (s : string) : string :=
  match s with
  | EmptyString => EmptyString
  | String c s' =>
      match skip with
      | Datatypes.S k => remove_marker k s'
      | O => if py_startswith s "$step:" then remove_marker 5 s' else String c (remove_marker 0 s')
      end
  end.

(** [dep_step_id] of an argument, when it is a reference. *)
Definition dep_step_id (value : pyval) : option string :=
  match value with
  | PStr s => if py_startswith s "$step:" then Some (ref_head (remove_marker 0 s)) else None
  | _ => None
  end.

(** [_extract_dependencies] *)
Definition _extract_dependencies (arguments : list (string * pyval)) : list string :=
  sorted_set (list_to_set (filter (λ d, d ≠ "") (omap dep_step_id arguments.*2))).

(** ** Operations *)

(** [enqueue_macro] under the run's identifier. *)
Definition enqueue_step (rid : string) (max_attempts now : Z) (c : coordinator) (step : ToolCall)
  : coordinator :=
  set_steps (<[(rid, step_id step) :=
    {| ds_tool_name := Models.tool_name step; ds_arguments := arguments step;
       ds_depends_on := _extract_dependencies (arguments step); ds_status := Queued;
       ds_attempt := 0; ds_max_attempts := max_attempts; next_attempt_at_utc := Some now;
       ds_output_pointer_id := None; last_error := None; ds_updated_at_utc := now |}]>
    (distributed_steps c)) c.
Definition enqueue_macro (m : BatchedMacroRequest) (rid : string) (now : Z) : prog coordinator string :=
  write (λ c, foldl (enqueue_step rid (max_attempts (retry_policy m)) now) c (steps m));;
  mret rid.

(** [_expire_stale_leases] *)
Definition stale (now : Z) (l : lease) : bool :=
  bool_decide (ls_status l = Active) && (lease_expires_at_utc l <=? now)%Z.
Definition requeue (now : Z) (s : dist_step) : dist_step :=
  if decide (ds_status s = Started) then
    {| ds_tool_name := ds_tool_name s; ds_arguments := ds_arguments s;
       ds_depends_on := ds_depends_on s; ds_status := Queued; ds_attempt := ds_attempt s;
       ds_max_attempts := ds_max_attempts s; next_attempt_at_utc := Some now;
       ds_output_pointer_id := ds_output_pointer_id s; last_error := last_error s;
       ds_updated_at_utc := now |}
  else s.
Definition expire_lease (now : Z) (c : coordinator) (row : string * lease) : coordinator :=
  update_step (lease_key row.2) (requeue now) (update_lease row.1 (set_lease_status Expired) c).
Definition expired_rows (now : Z) (c : coordinator) : list (string * lease) :=
  List.filter (λ row, stale now row.2) (map_to_list (distributed_leases c)).
Definition _expire_stale_leases (now : Z) : prog coordinator unit :=
  rows ← read (expired_rows now);
  write (λ c, foldl (expire_lease now) c rows).

(** [_completed_pointer_map] *)
Definition _completed_pointer_map (rid : string) (c : coordinator) : gmap string string :=
  list_to_map (omap (λ row,
    if decide (row.1.1 = rid ∧ ds_status row.2 = Completed)
    then pid ← ds_output_pointer_id row.2; if decide (pid = "") then None else Some (row.1.2, pid)
    else None) (map_to_list (distributed_steps c))).

(** The queue: [ORDER BY next_attempt_at_utc ASC, step_id ASC]; SQLite sorts
    [NULL] first. *)
Definition queue_before (a b : (string * string) * dist_step) : Prop :=
  let na := default (-1)%Z (next_attempt_at_utc a.2) in
  let nb := default (-1)%Z (next_attempt_at_utc b.2) in
  (na < nb)%Z ∨ na = nb ∧ String.le a.1.2 b.1.2.
#[local] Instance queue_before_dec : RelDecision queue_before.
Proof. intros a b. unfold queue_before. apply _. Defined.
Definition queued_rows (c : coordinator) : list ((string * string) * dist_step) :=
  merge_sort queue_before
    (List.filter (λ row, bool_decide (ds_status row.2 = Queued)) (map_to_list (distributed_steps c))).

(** What [claim_work] returns for one step. *)
Record claim := {
  cl_lease_id : string;
  cl_run_id : string;
  cl_step_id : string;
  cl_tool_name : string;
  cl_arguments : list (string * pyval);
  cl_attempt : Z;
  cl_expires_at_utc : Z
}.

Definition integrity_error (table : string) : exn :=
  Exn (OtherError "IntegrityError") ("UNIQUE constraint failed: " +:+ table).

(** A row whose time has come, and whose dependencies have outputs. *)
Definition due (now : Z) (s : dist_step) : bool :=
  match next_attempt_at_utc s with Some t => (t <=? now)%Z | None => true end.
Definition supplied (completed : gmap string string) (s : dist_step) : bool :=
  forallb (λ dep, bool_decide (is_Some (completed !! dep))) (ds_depends_on s).
Definition claimable (now : Z) (completed : gmap string string) (s : dist_step) : bool :=
  due now s && supplied completed s.

Definition start_step (next_attempt now : Z) (s : dist_step) : dist_step :=
  {| ds_tool_name := ds_tool_name s; ds_arguments := ds_arguments s;
     ds_depends_on := ds_depends_on s; ds_status := Started; ds_attempt := next_attempt;
     ds_max_attempts := ds_max_attempts s; next_attempt_at_utc := next_attempt_at_utc s;
     ds_output_pointer_id := ds_output_pointer_id s; last_error := last_error s;
     ds_updated_at_utc := now |}.

Section coordinator.
Context (lease_ttl : Z). (* [lease_ttl_seconds] *)

(** The writes for one claimed row. *)
Definition claim_row (worker : string) (now clock : Z) (lease_id : string)
    (row : (string * string) * dist_step) : stm coordinator claim :=
  let '((rid, sid), s) := row in
  let next_attempt := (ds_attempt s + 1)%Z in
  let expires_at := (clock + lease_ttl)%Z in
  c ← st_get;
  st_raise_if (bool_decide (is_Some (distributed_leases c !! lease_id)))
    (integrity_error "distributed_leases.lease_id");;
  st_modify (λ c, set_leases (<[lease_id :=
    {| ls_run_id := rid; ls_step_id := sid; worker_id := worker; ls_attempt := next_attempt;
       issued_at_utc := now; heartbeat_at_utc := now; lease_expires_at_utc := expires_at;
       ls_status := Active |}]> (distributed_leases c)) c);;
  st_modify (update_step (rid, sid) (start_step next_attempt now));;
  mret {| cl_lease_id := lease_id; cl_run_id := rid; cl_step_id := sid;
          cl_tool_name := ds_tool_name s; cl_arguments := ds_arguments s;
          cl_attempt := next_attempt; cl_expires_at_utc := expires_at |}.

(** The loop over the rows once a row is claimed: the connection has written,
    so nobody else commits until it does, and the [completed] maps, read through
    connections of their own, are those of what was [committed] before. *)
Fixpoint claim_rows (worker : string) (capacity now clock : Z) (fresh : nat → string)
    (committed : coordinator) (rows : list ((string * string) * dist_step)) (claims : list claim)
  : stm coordinator (list claim) :=
  match rows with
  | [] => mret claims
  | row :: rows =>
      if (capacity <=? Z.of_nat (length claims))%Z then mret claims
      else if claimable now (_completed_pointer_map row.1.1 committed) row.2 then
        claimed ← claim_row worker now clock (fresh (length claims)) row;
        claim_rows worker capacity now clock fresh committed rows (claims ++ [claimed])
      else claim_rows worker capacity now clock fresh committed rows claims
  end.

(** The loop up to the first row that is claimed, with the row as it was
    read. *)
Fixpoint scan_rows (worker : string) (capacity now clock : Z) (fresh : nat → string)
    (rows : list ((string * string) * dist_step)) : prog coordinator (list claim) :=
  match rows with
  | [] => mret []
  | row :: rows =>
      let continue := scan_rows worker capacity now clock fresh rows in
      if due now row.2 then
        completed ← read (_completed_pointer_map row.1.1);
        if supplied completed row.2 then
          atomically (transaction (
            c ← st_get;
            claimed ← claim_row worker now clock (fresh O) row;
            claim_rows worker capacity now clock fresh c rows [claimed]))
        else continue
      else continue
  end.

(** [claim_work] *)
Definition claim_work (worker : string) (capacity now clock : Z) (fresh : nat → string)
  : prog coordinator (list claim) :=
  if (capacity <=? 0)%Z then mret []
  else
    _expire_stale_leases now;;
    rows ← read queued_rows;
    scan_rows worker capacity now clock fresh rows.

(** [heartbeat] *)
Definition extend_lease (now clock : Z) (l : lease) : lease :=
  {| ls_run_id := ls_run_id l; ls_step_id := ls_step_id l; worker_id := worker_id l;
     ls_attempt := ls_attempt l; issued_at_utc := issued_at_utc l; heartbeat_at_utc := now;
     lease_expires_at_utc := (clock + lease_ttl)%Z; ls_status := ls_status l |}.
Definition heartbeat (lease_id worker : string) (now clock : Z) : prog coordinator bool :=
  row ← read (λ c, distributed_leases c !! lease_id);
  match row with
  | None => mret false
  | Some l =>
      if bool_decide (worker_id l ≠ worker) || bool_decide (ls_status l ≠ Active) ||
         (lease_expires_at_utc l <=? now)%Z then mret false
      else write (update_lease lease_id (extend_lease now clock));; mret true
  end.

(** [complete_lease] *)
Definition finish_step (output_pointer_id : string) (now : Z) (s : dist_step) : dist_step :=
  {| ds_tool_name := ds_tool_name s; ds_arguments := ds_arguments s;
     ds_depends_on := ds_depends_on s; ds_status := Completed; ds_attempt := ds_attempt s;
     ds_max_attempts := ds_max_attempts s; next_attempt_at_utc := next_attempt_at_utc s;
     ds_output_pointer_id := Some output_pointer_id; last_error := last_error s;
     ds_updated_at_utc := now |}.
Definition complete_lease (lease_id worker output_pointer_id : string) (now : Z) : prog coordinator bool :=
  row ← read (λ c, distributed_leases c !! lease_id);
  match row with
  | None => mret false
  | Some l =>
      if bool_decide (worker_id l ≠ worker) || bool_decide (ls_status l ≠ Active) then mret false
      else
        write (λ c, update_step (lease_key l) (finish_step output_pointer_id now)
                      (update_lease lease_id (set_lease_status LeaseCompleted) c));;
        mret true
  end.

(** [fail_lease], the delay in microseconds. *)
Definition give_back (can_retry : bool) (error : ToolErrorPayload) (retry_delay now : Z) (s : dist_step)
  : dist_step :=
  {| ds_tool_name := ds_tool_name s; ds_arguments := ds_arguments s;
     ds_depends_on := ds_depends_on s;
     ds_status := if can_retry then Queued else Failed; ds_attempt := ds_attempt s;
     ds_max_attempts := ds_max_attempts s;
     next_attempt_at_utc := if can_retry then Some (now + Z.max 0 retry_delay)%Z else None;
     ds_output_pointer_id := ds_output_pointer_id s; last_error := Some error;
     ds_updated_at_utc := now |}.
Definition fail_lease (lease_id worker : string) (error : ToolErrorPayload) (retry_delay now : Z)
  : prog coordinator bool :=
  row ← read (λ c, distributed_leases c !! lease_id);
  match row with
  | None => mret false
  | Some l =>
      if bool_decide (worker_id l ≠ worker) || bool_decide (ls_status l ≠ Active) then mret false
      else
        step_row ← read (λ c, distributed_steps c !! lease_key l);
        match step_row with
        | None => mret false
        | Some s =>
            let can_retry := (ds_attempt s <? ds_max_attempts s)%Z in
            write (λ c, update_step (lease_key l) (give_back can_retry error retry_delay now)
                          (update_lease lease_id (set_lease_status LeaseFailed) c));;
            mret true
        end
  end.

(** [list_run_steps] *)
Definition step_before (a b : string * dist_step) : Prop := String.le a.1 b.1.
#[local] Instance step_before_dec : RelDecision step_before.
Proof. intros a b. unfold step_before. apply _. Defined.
Definition run_rows (rid : string) (c : coordinator) : list (string * dist_step) :=
  merge_sort step_before
    (omap (λ row, if decide (row.1.1 = rid) then Some (row.1.2, row.2) else None)
       (map_to_list (distributed_steps c))).
Definition list_run_steps (rid : string) : prog coordinator (list (string * dist_step)) := read (run_rows rid).
End coordinator.

(** ** The worker loop *)
Section worker.
Context {S : Type} `{PointerStoreBackend S} {func : Type}.
Context (float_repr : Q → string) (getsizeof : pyval → Z).
Context (registry : ToolRegistry.registry (func := func)).
(** What calling a tool with its keyword arguments gives. *)
Context (call : func → list (string * pyval) → result pyval).
Context (lease_ttl : Z).

(** [_resolve_runtime_arguments] *)
Fixpoint _resolve_runtime_arguments (arguments : list (string * pyval))
    (output_pointer_by_step : gmap string string) : stm (state_manager S) (list (string * pyval)) :=
  match arguments with
  | [] => mret []
  | (key, value) :: arguments =>
      resolved ← match dep_step_id value with
                 | Some dep =>
                     match output_pointer_by_step !! dep with
                     | Some pid =>
                         if decide (pid = "") then
                           st_raise (Exn KeyError ("Missing dependency pointer for step '" +:+ dep +:+ "'."))
                         else text ← retrieve pid; mret (PStr text)
                     | None => st_raise (Exn KeyError ("Missing dependency pointer for step '" +:+ dep +:+ "'."))
                     end
                 | None => mret value
                 end;
      rest ← _resolve_runtime_arguments arguments output_pointer_by_step;
      mret ((key, resolved) :: rest)
  end.

(** The body of the loop's [try] up to [complete_lease]. *)
Definition run_task (worker : string) (now : Z) (pointer_name : string)
    (completed : gmap string string) (task : claim) : stm (state_manager S) string :=
  resolved_args ← _resolve_runtime_arguments (cl_arguments task) completed;
  tool ← st_lift (get_tool registry (cl_tool_name task));
  result ← st_lift (call tool resolved_args);
  pointer ← (λ m, (store_and_point float_repr getsizeof now pointer_name result
    ("Distributed step '" +:+ cl_step_id task +:+ "' completed.")
    [("run_id", PStr (cl_run_id task)); ("step_id", PStr (cl_step_id task));
     ("worker_id", PStr worker)] PNone m).2);
  match dict_get pointer "pointer_id" with
  | Some (PStr pid) => mret pid
  | _ => st_raise (Exn KeyError "pointer_id")
  end.

(** What one turn of the loop reads from outside: the clock when it claims and
    when it is done, the identifiers it draws. *)
Record moment := { mo_claim : Z; mo_done : Z; mo_lease : nat → string; mo_pointer : string }.

Record worker_state := { ws_coordinator : coordinator; ws_manager : state_manager S }.

Definition on_coordinator {A} : prog coordinator A → prog worker_state A :=
  on_part ws_coordinator (λ c w, {| ws_coordinator := c; ws_manager := ws_manager w |}).
Definition on_manager {A} (m : stm (state_manager S) A) : prog worker_state A :=
  on_part ws_manager (λ m w, {| ws_coordinator := ws_coordinator w; ws_manager := m |}) (atomically m).

Definition task_error (worker : string) (task : claim) (exc : exn) : ToolErrorPayload :=
  {| error_type := "tool_execution_error"; message := exn_str exc;
     err_step_id := cl_step_id task; err_tool_name := cl_tool_name task;
     details := Some (PDict [("run_id", PStr (cl_run_id task)); ("worker_id", PStr worker)]) |}.

(** One turn of [execute_worker_loop]; without work the worker sleeps.  What a
    task does with the worker's state manager is one action. *)
Definition worker_turn (worker : string) (t : moment) : prog worker_state unit :=
  claimed ← on_coordinator (claim_work lease_ttl worker 1 (mo_claim t) (mo_claim t) (mo_lease t));
  match claimed with
  | [] => mret tt
  | task :: _ =>
      completed_map ← on_coordinator (read (_completed_pointer_map (cl_run_id task)));
      outcome ← attempt (
        output_pointer_id ← on_manager (run_task worker (mo_done t) (mo_pointer t) completed_map task);
        on_coordinator (complete_lease (cl_lease_id task) worker output_pointer_id (mo_done t)));
      match outcome with
      | Ok _ => mret tt
      | Raise exc =>
          on_coordinator (fail_lease (cl_lease_id task) worker (task_error worker task exc) 0 (mo_done t));;
          mret tt
      end
  end.

(** [execute_worker_loop], one moment per iteration. *)
Fixpoint execute_worker_loop (worker : string) (ts : list moment) : prog worker_state unit :=
  match ts with
  | [] => mret tt
  | t :: ts => worker_turn worker t;; execute_worker_loop worker ts
  end.
End worker.

(** ** Clients of one database *)

Inductive dist_op :=
  | EnqueueMacro (m : BatchedMacroRequest) (rid : string) (now : Z)
  | ClaimWork (worker : string) (capacity now clock : Z) (fresh : nat → string)
  | Heartbeat (id worker : string) (now clock : Z)
  | CompleteLease (id worker pid : string) (now : Z)
  | FailLease (id worker : string) (error : ToolErrorPayload) (retry_delay now : Z)
  | ListRunSteps (rid : string).

Definition discard {A} (p : prog coordinator A) : prog coordinator unit := p;; mret tt.
Definition op_prog (ttl : Z) (op : dist_op) : prog coordinator unit :=
  match op with
  | EnqueueMacro m rid now => discard (enqueue_macro m rid now)
  | ClaimWork worker capacity now clock fresh => discard (claim_work ttl worker capacity now clock fresh)
  | Heartbeat id worker now clock => discard (heartbeat ttl id worker now clock)
  | CompleteLease id worker pid now => discard (complete_lease id worker pid now)
  | FailLease id worker error delay now => discard (fail_lease id worker error delay now)
  | ListRunSteps rid => discard (list_run_steps rid)
  end.

(** The database and the calls under way. *)
Record clients := { database : coordinator; under_way : list (prog coordinator unit) }.

(** A client calls an operation; a call does its next action; a call ends, has
    failed because the database stayed locked, or has died with its process. *)
Inductive client_step (ttl : Z) : clients → clients → Prop :=
  | cs_call op c ps :
      client_step ttl {| database := c; under_way := ps |}
        {| database := c; under_way := op_prog ttl op :: ps |}
  | cs_act c f before after :
      client_step ttl {| database := c; under_way := before ++ Act f :: after |}
        {| database := (f c).1; under_way := before ++ (f c).2 :: after |}
  | cs_end c p before after :
      client_step ttl {| database := c; under_way := before ++ p :: after |}
        {| database := c; under_way := before ++ after |}.
