(* ===== verification/DistributedProofs.v ===== *)
(** What the coordinator of [Distributed.v] guarantees to its workers.  Over
    any interleaving of its clients' actions: started steps are leased, leases
    keep their holder and end once, and the queue of a valid macro does not run
    dry.  When calls do not overlap: leases are exclusive, completed steps are
    final, only ready steps are handed out. *)
From stdpp Require Import options.
From S2P Require Import Prelude Graph Values Json SafeEval ToolRegistry PointerStore StateManager Models Executor ExecutorSamples ExecutorProgress Distributed.
Unset Default Proof Using.

(** ** Calls without interruption

    What each call comes to when no other client acts during it. *)

Lemma alone_bind {St A B} (p : prog St A) (k : A → prog St B) s :
  alone (p ≫= k) s = (alone p ≫= λ a, alone (k a)) s.
Proof.
  revert s. induction p as [[a|e]|f IH] using prog_ind'; intros s; [done..|].
  specialize (IH s). unfold mbind, stm_bind, prog_bind in *. simpl. by destruct (f s) as [s' p'].
Qed.

Lemma alone_attempt {St A} (p : prog St A) s :
  alone (attempt p) s = ((alone p s).1, Ok (alone p s).2).
Proof.
  revert s. induction p as [r|f IH] using prog_ind'; intros s; [done|].
  specialize (IH s). simpl. by destruct (f s) as [s' p'].
Qed.

Lemma alone_on_part {St St' A} (get : St → St') set (p : prog St' A) :
  (∀ s s', get (set s' s) = s') → (∀ s s1 s2, set s2 (set s1 s) = set s2 s) → (∀ s, set (get s) s = s) →
  ∀ s, alone (on_part get set p) s = (set (alone p (get s)).1 s, (alone p (get s)).2).
Proof.
  intros Hget Hset Hsame. induction p as [r|f IH] using prog_ind'; intros s; simpl; [by rewrite Hsame|].
  specialize (IH (get s)). destruct (f (get s)) as [s' p']. simpl in IH. by rewrite IH, Hget, Hset.
Qed.

Definition enqueue_at_once (m : BatchedMacroRequest) (rid : string) (now : Z) (c : coordinator) : coordinator :=
  foldl (enqueue_step rid (max_attempts (retry_policy m)) now) c (steps m).
Definition expire_at_once (now : Z) (c : coordinator) : coordinator :=
  foldl (expire_lease now) c (expired_rows now c).

Section at_once.
Context (ttl : Z).

Definition claim_at_once (worker : string) (capacity now clock : Z) (fresh : nat → string)
  : stm coordinator (list claim) :=
  if (capacity <=? 0)%Z then mret []
  else
    st_modify (expire_at_once now);;
    c ← st_get;
    transaction (claim_rows ttl worker capacity now clock fresh c (queued_rows c) []).
Definition heartbeat_at_once (id worker : string) (now clock : Z) (c : coordinator) : coordinator * bool :=
  match distributed_leases c !! id with
  | None => (c, false)
  | Some l =>
      if bool_decide (worker_id l ≠ worker) || bool_decide (ls_status l ≠ Active) ||
         (lease_expires_at_utc l <=? now)%Z then (c, false)
      else (update_lease id (extend_lease ttl now clock) c, true)
  end.
Definition complete_at_once (id worker pid : string) (now : Z) (c : coordinator) : coordinator * bool :=
  match distributed_leases c !! id with
  | None => (c, false)
  | Some l =>
      if bool_decide (worker_id l ≠ worker) || bool_decide (ls_status l ≠ Active) then (c, false)
      else (update_step (lease_key l) (finish_step pid now) (update_lease id (set_lease_status LeaseCompleted) c), true)
  end.
Definition fail_at_once (id worker : string) (error : ToolErrorPayload) (retry_delay now : Z) (c : coordinator)
  : coordinator * bool :=
  match distributed_leases c !! id with
  | None => (c, false)
  | Some l =>
      if bool_decide (worker_id l ≠ worker) || bool_decide (ls_status l ≠ Active) then (c, false)
      else
        match distributed_steps c !! lease_key l with
        | None => (c, false)
        | Some s =>
            (update_step (lease_key l) (give_back (ds_attempt s <? ds_max_attempts s)%Z error retry_delay now)
               (update_lease id (set_lease_status LeaseFailed) c), true)
        end
  end.

Lemma alone_claim_work worker capacity now clock fresh c :
  alone (claim_work ttl worker capacity now clock fresh) c = claim_at_once worker capacity now clock fresh c.
Proof.
  unfold claim_work, claim_at_once. destruct (Z.leb_spec capacity 0) as [|Hcap]; [done|].
  unfold mbind, stm_bind, st_modify, st_get. cbn. fold (expire_at_once now c). generalize (expire_at_once now c) as c1.
  clear c. intros c. induction (queued_rows c) as [|row rows IH]; [done|]. cbn [scan_rows claim_rows length].
  destruct (Z.leb_spec capacity (Z.of_nat 0)); [lia|]. unfold claimable.
  destruct (due now row.2); [|exact IH]. cbn. destruct (supplied _ row.2); [|exact IH]. cbn.
  match goal with |- context [transaction (st_get ≫= ?F) c] =>
    change (transaction (st_get ≫= F) c) with (transaction (F c) c) end.
  cbn beta. generalize (transaction (claim_row ttl worker now clock (fresh 0) row ≫= λ claimed, claim_rows ttl worker capacity now clock fresh c rows [claimed]) c).
  by intros [].
Qed.
Lemma alone_heartbeat id worker now clock c :
  alone (heartbeat ttl id worker now clock) c = ((heartbeat_at_once id worker now clock c).1, Ok (heartbeat_at_once id worker now clock c).2).
Proof.
  unfold heartbeat, heartbeat_at_once. cbn. destruct (distributed_leases c !! id) as [l|]; [|done].
  by destruct (_ || _).
Qed.
Lemma alone_complete_lease id worker pid now c :
  alone (complete_lease id worker pid now) c = ((complete_at_once id worker pid now c).1, Ok (complete_at_once id worker pid now c).2).
Proof.
  unfold complete_lease, complete_at_once. cbn. destruct (distributed_leases c !! id) as [l|]; [|done].
  by destruct (_ || _).
Qed.
Lemma alone_fail_lease id worker error delay now c :
  alone (fail_lease id worker error delay now) c =
  ((fail_at_once id worker error delay now c).1, Ok (fail_at_once id worker error delay now c).2).
Proof.
  unfold fail_lease, fail_at_once. cbn. destruct (distributed_leases c !! id) as [l|]; [|done].
  destruct (_ || _); [done|]. cbn. by destruct (distributed_steps c !! lease_key l).
Qed.

Lemma alone_discard {A} (p : prog coordinator A) c : (alone (discard p) c).1 = (alone p c).1.
Proof. unfold discard. rewrite alone_bind. unfold mbind, stm_bind. by destruct (alone p c) as [c' [a|e]]. Qed.
End at_once.

(** ** The invariant *)

Definition active (c : coordinator) (id : string) (l : lease) : Prop :=
  distributed_leases c !! id = Some l ∧ ls_status l = Active.

Record dist_inv (c : coordinator) : Prop := {
  di_step id l : active c id l →
    ∃ s, distributed_steps c !! lease_key l = Some s ∧ ds_status s = Started ∧ ds_attempt s = ls_attempt l;
  di_unique id1 id2 l1 l2 : active c id1 l1 → active c id2 l2 → lease_key l1 = lease_key l2 → id1 = id2;
  di_started k s : distributed_steps c !! k = Some s → ds_status s = Started →
    ∃ id l, active c id l ∧ lease_key l = k
}.

Lemma empty_inv : dist_inv empty_coordinator.
Proof. split; unfold active; simpl; intros *; rewrite lookup_empty; naive_solver. Qed.

(** Ending an active lease, its step no longer started. *)
Definition retire (id : string) (status : lease_state) (k : string * string) (f : dist_step → dist_step)
    (c : coordinator) : coordinator :=
  update_step k f (update_lease id (set_lease_status status) c).

Lemma active_retire c id l status f j l' :
  active c id l → status ≠ Active →
  active (retire id status (lease_key l) f c) j l' ↔ active c j l' ∧ j ≠ id.
Proof.
  intros [Hl Ha] Hs. unfold active, retire. simpl. destruct (decide (j = id)) as [->|Hj].
  - rewrite lookup_alter_eq, Hl. simpl. split; [|tauto]. intros [[= <-] Ha']. by simpl in Ha'.
  - rewrite lookup_alter_ne by done. tauto.
Qed.

Lemma retire_inv c id l status f :
  dist_inv c → active c id l → status ≠ Active → (∀ s, ds_status (f s) ≠ Started) →
  dist_inv (retire id status (lease_key l) f c).
Proof.
  intros [I1 I2 I3] Hact Hs Hf. split.
  - intros j l' [Hj Hne]%(active_retire c id l status f j l' Hact Hs).
    destruct (I1 j l' Hj) as (s & Hk & Hst & Hatt). exists s. split_and!; [|done..].
    simpl. rewrite lookup_alter_ne; [done|]. intros Heq. apply Hne. by eapply I2.
  - intros j1 j2 l1 l2 [H1 _]%(active_retire c id l status f _ _ Hact Hs) [H2 _]%(active_retire c id l status f _ _ Hact Hs).
    by eapply I2.
  - intros k s Hk Hst. simpl in Hk. destruct (decide (lease_key l = k)) as [<-|Hne].
    + rewrite lookup_alter_eq in Hk. apply fmap_Some in Hk as (s' & _ & ->). by destruct (Hf s').
    + rewrite lookup_alter_ne in Hk by done. destruct (I3 k s Hk Hst) as (j & l' & Hj & Hkey).
      exists j, l'. split; [|done]. apply active_retire; [done..|]. split; [done|]. intros ->.
      destruct Hj as [Hj _], Hact as [Hl _]. simplify_eq.
Qed.

Lemma requeue_not_started now s : ds_status (requeue now s) ≠ Started.
Proof. unfold requeue. by case_decide. Qed.

(** Expiring a list of distinct active leases. *)
Lemma expire_list_inv now rows : ∀ c,
  dist_inv c → NoDup rows.*1 → Forall (λ row, active c row.1 row.2) rows →
  dist_inv (foldl (expire_lease now) c rows) ∧
  (∀ id l, active (foldl (expire_lease now) c rows) id l ↔ active c id l ∧ id ∉ rows.*1).
Proof.
  induction rows as [|[id l] rows IH]; intros c Hi Hnd Hact; simpl.
  - split; [done|]. intros. set_solver.
  - apply NoDup_cons in Hnd as [Hid Hnd]. apply Forall_cons in Hact as [Hl Hact]. simpl in *.
    change (expire_lease now c (id, l)) with (retire id Expired (lease_key l) (requeue now) c).
    assert (∀ j l', active (retire id Expired (lease_key l) (requeue now) c) j l' ↔ active c j l' ∧ j ≠ id) as Hr.
    { intros. by apply active_retire. }
    destruct (IH (retire id Expired (lease_key l) (requeue now) c)) as [H1 H2].
    + apply retire_inv; [done..|]. apply requeue_not_started.
    + done.
    + apply Forall_forall. intros [j l'] Hin. rewrite Forall_forall in Hact. apply Hr. split; [by apply (Hact (j, l'))|].
      simpl. intros ->. apply Hid, list_elem_of_fmap. by exists (id, l').
    + split; [done|]. intros j l'. rewrite H2, Hr, not_elem_of_cons. tauto.
Qed.

Lemma stale_rows now c :
  let rows := expired_rows now c in
  NoDup rows.*1 ∧ ∀ id l, (id, l) ∈ rows ↔ active c id l ∧ (lease_expires_at_utc l <= now)%Z.
Proof.
  intros rows. split.
  - pose proof (NoDup_fst_map_to_list (distributed_leases c)) as Hnd. subst rows. unfold expired_rows.
    induction (map_to_list (distributed_leases c)) as [|r l IH]; simpl; [constructor|].
    apply NoDup_cons in Hnd as [Hr Hnd]. destruct (stale now r.2); [|by apply IH].
    rewrite fmap_cons. constructor; [|by apply IH]. intros (r' & Heq & Hin)%list_elem_of_fmap.
    apply Hr, list_elem_of_fmap. exists r'. split; [done|]. rewrite list_elem_of_In in Hin |- *.
    by apply filter_In in Hin as [? _].
  - intros id l. subst rows. unfold expired_rows. rewrite list_elem_of_In, filter_In, <- list_elem_of_In, elem_of_map_to_list.
    unfold stale, active. simpl. rewrite andb_true_iff, bool_decide_eq_true, Z.leb_le. tauto.
Qed.

Lemma expire_inv now c : dist_inv c → dist_inv (expire_at_once now c).
Proof.
  intros Hi. destruct (stale_rows now c) as [Hnd Hrows]. apply expire_list_inv; [done|done|].
  apply Forall_forall. intros [id l] Hin. by apply Hrows in Hin as [? _].
Qed.

Lemma active_expire now c id l :
  dist_inv c →
  active (expire_at_once now c) id l ↔ active c id l ∧ (now < lease_expires_at_utc l)%Z.
Proof.
  intros Hi. destruct (stale_rows now c) as [Hnd Hrows].
  destruct (expire_list_inv now (expired_rows now c) c)
    as [_ Hact]; [done|done| |].
  { apply Forall_forall. intros [j l'] Hin. by apply Hrows in Hin as [? _]. }
  unfold expire_at_once. rewrite Hact. split.
  - intros [Ha Hn]. split; [done|]. apply Z.nle_gt. intros Hle. apply Hn, list_elem_of_fmap.
    exists (id, l). split; [done|]. by apply Hrows.
  - intros [Ha Hlt]. split; [done|]. intros ([j l'] & Heq & Hin)%list_elem_of_fmap.
    apply Hrows in Hin as [Hj Hle]. simpl in Heq. subst j. destruct Ha as [Ha _], Hj as [Hj _].
    simplify_eq. lia.
Qed.

(** Expiry only puts started steps back into the queue. *)
Lemma expire_list_steps now rows : ∀ c k s,
  distributed_steps c !! k = Some s → ds_status s ≠ Started →
  distributed_steps (foldl (expire_lease now) c rows) !! k = Some s.
Proof.
  induction rows as [|[id l] rows IH]; intros c k s Hk Hs; simpl; [done|].
  apply IH; [|done]. simpl. destruct (decide (lease_key l = k)) as [->|Hne].
  - rewrite lookup_alter_eq, Hk. simpl. unfold requeue. by rewrite decide_False.
  - by rewrite lookup_alter_ne.
Qed.

(** ** Claims *)

Definition claim_key (cl : claim) : string * string := (cl_run_id cl, cl_step_id cl).

Section claims.
Context (lease_ttl : Z) (worker : string) (capacity now clock : Z) (fresh : nat → string).

Definition new_lease (k : string * string) (s : dist_step) : lease :=
  {| ls_run_id := k.1; ls_step_id := k.2; worker_id := worker; ls_attempt := ds_attempt s + 1;
     issued_at_utc := now; heartbeat_at_utc := now; lease_expires_at_utc := clock + lease_ttl;
     ls_status := Active |}.

(** The state after one row is claimed. *)
Definition claimed (id : string) (k : string * string) (s : dist_step) (c : coordinator) : coordinator :=
  {| distributed_steps := alter (start_step (ds_attempt s + 1) now) k (distributed_steps c);
     distributed_leases := <[id := new_lease k s]> (distributed_leases c) |}.

Lemma claim_row_spec id k s c c' r :
  claim_row lease_ttl worker now clock id (k, s) c = (c', r) →
  (is_Some (distributed_leases c !! id) ∧ c' = c ∧ r = Raise (integrity_error "distributed_leases.lease_id")) ∨
  (distributed_leases c !! id = None ∧ c' = claimed id k s c ∧
   r = Ok {| cl_lease_id := id; cl_run_id := k.1; cl_step_id := k.2; cl_tool_name := ds_tool_name s;
             cl_arguments := ds_arguments s; cl_attempt := ds_attempt s + 1;
             cl_expires_at_utc := clock + lease_ttl |}).
Proof.
  unfold claim_row. destruct k as [rid sid]. unfold mbind, stm_bind, st_get, st_raise_if, st_lift, raise_if.
  destruct (distributed_leases c !! id) as [l|] eqn:Hl; intros [= <- <-]; [left|right]; split_and!; try done; by eexists.
Qed.

Lemma claimed_inv id k s c :
  dist_inv c → distributed_leases c !! id = None →
  distributed_steps c !! k = Some s → ds_status s = Queued →
  dist_inv (claimed id k s c) ∧
  (∀ j l, active (claimed id k s c) j l ↔ active c j l ∨ j = id ∧ l = new_lease k s).
Proof.
  intros [I1 I2 I3] Hid Hk Hq.
  assert (∀ j l, active (claimed id k s c) j l ↔ active c j l ∨ j = id ∧ l = new_lease k s) as Hact.
  { intros j l. unfold active, claimed. simpl. destruct (decide (j = id)) as [->|Hj].
    - rewrite lookup_insert_eq, Hid. split; [by intros [[= <-] _]; right|]. by intros [[? _]|[_ ->]].
    - rewrite lookup_insert_ne by done. split; [by left|]. by intros [?|[? _]]. }
  assert (∀ j l, active c j l → lease_key l ≠ k) as Hne.
  { intros j l Hj Heq. destruct (I1 j l Hj) as (s' & Hs' & Hst & _). congruence. }
  split; [|done]. split.
  - intros j l [Hj|[-> ->]]%Hact.
    + destruct (I1 j l Hj) as (s' & Hs' & Hst & Hatt). exists s'. split_and!; [|done..].
      simpl. rewrite lookup_alter_ne; [done|]. intros Heq. by eapply Hne.
    + exists (start_step (ds_attempt s + 1) now s). split_and!; [|done..]. simpl.
      unfold lease_key. simpl. rewrite <- surjective_pairing. by rewrite lookup_alter_eq, Hk.
  - intros j1 j2 l1 l2 [H1|[-> ->]]%Hact [H2|[-> ->]]%Hact Heq; [by eapply I2| | |done];
      exfalso; unfold lease_key at 1 2 in Heq; simpl in Heq.
    + apply (Hne j1 l1 H1). rewrite (surjective_pairing k). exact Heq.
    + apply (Hne j2 l2 H2). rewrite (surjective_pairing k). symmetry. exact Heq.
  - intros k' s' Hk' Hst. simpl in Hk'. destruct (decide (k = k')) as [<-|Hkk].
    + exists id, (new_lease k s). split; [apply Hact; by right|]. unfold lease_key. simpl. by destruct k.
    + rewrite lookup_alter_ne in Hk' by done. destruct (I3 k' s' Hk' Hst) as (j & l & Hj & Hkey).
      exists j, l. split; [|done]. apply Hact. by left.
Qed.

(** What a claim says, in the state after it. *)
Record claim_good (committed c' : coordinator) (s : dist_step) (cl : claim) : Prop := {
  cgd_ready : claimable now (_completed_pointer_map (cl_run_id cl) committed) s = true;
  cgd_tool : cl_tool_name cl = ds_tool_name s;
  cgd_args : cl_arguments cl = ds_arguments s;
  cgd_attempt : cl_attempt cl = (ds_attempt s + 1)%Z;
  cgd_lease : active c' (cl_lease_id cl) (new_lease (claim_key cl) s);
  cgd_step : distributed_steps c' !! claim_key cl = Some (start_step (ds_attempt s + 1) now s)
}.

Lemma claim_rows_spec committed rows : ∀ claims c c' r,
  dist_inv c → NoDup rows.*1 →
  Forall (λ row, distributed_steps c !! row.1 = Some row.2 ∧ ds_status row.2 = Queued) rows →
  claim_rows lease_ttl worker capacity now clock fresh committed rows claims c = (c', r) →
  dist_inv c' ∧
  (∀ k, k ∉ rows.*1 → distributed_steps c' !! k = distributed_steps c !! k) ∧
  (∀ id l, active c id l → active c' id l) ∧
  ∀ out, r = Ok out → ∃ new, out = claims ++ new ∧
    (Z.of_nat (length out) <= Z.max capacity (Z.of_nat (length claims)))%Z ∧
    NoDup (claim_key <$> new) ∧
    (∀ k, k ∉ claim_key <$> new → distributed_steps c' !! k = distributed_steps c !! k) ∧
    Forall (λ cl, ∃ s, (claim_key cl, s) ∈ rows ∧ claim_good committed c' s cl) new.
Proof.
  induction rows as [|[k s] rows IH]; intros claims c c' r Hi Hnd Hrows; cbn [claim_rows fst snd].
  - intros [= <- <-]. split_and!; [done|done|done|]. intros out [= <-]. exists [].
    rewrite app_nil_r. split_and!; [done|lia|constructor|done|constructor].
  - apply NoDup_cons in Hnd as [Hk Hnd]. apply Forall_cons in Hrows as [[Hks Hq] Hrows]. simpl in Hks, Hq.
    destruct (Z.leb_spec capacity (Z.of_nat (length claims))) as [Hcap|Hcap].
    { intros [= <- <-]. split_and!; [done|done|done|]. intros out [= <-]. exists [].
      rewrite app_nil_r. split_and!; [done|lia|constructor|done|constructor]. }
    destruct (claimable now _ s) eqn:Hready.
    + unfold mbind at 1, stm_bind at 1.
      destruct (claim_row lease_ttl worker now clock (fresh (length claims)) (k, s) c) as [c1 r1] eqn:Hrow.
      destruct (claim_row_spec _ _ _ _ _ _ Hrow) as [(_ & -> & ->)|(Hid & -> & ->)].
      { intros Heq. simplify_eq. by split_and!. }
      destruct (claimed_inv _ _ _ _ Hi Hid Hks Hq) as [Hi1 Hact1].
      intros Hrest. edestruct IH as (J1 & J2 & J3 & J4); [exact Hi1|exact Hnd| |exact Hrest|].
      { eapply Forall_impl; [apply Forall_and; split; [exact Hrows|apply Forall_forall; intros x Hx; exact Hx]|].
        intros [k' s'] [[H1 H2] Hin]. split; [|done]. simpl. rewrite lookup_alter_ne; [done|].
        intros ->. apply Hk, list_elem_of_fmap. by exists (k', s'). }
      split_and!; [done| | |].
      * intros k' Hk'. apply not_elem_of_cons in Hk' as [Hne Hk']. rewrite J2 by done. simpl.
        by rewrite lookup_alter_ne.
      * intros id l Hl. apply J3, Hact1. by left.
      * intros out Hout. destruct (J4 out Hout) as (new & -> & Hlen & Hndn & Hsame & Hgood).
        eexists (_ :: new). rewrite <- app_assoc. split; [reflexivity|]. split_and!.
        -- rewrite !length_app in *. simpl in *. lia.
        -- rewrite fmap_cons. constructor; [|done]. intros (cl & Heq & Hin)%list_elem_of_fmap.
           rewrite Forall_forall in Hgood. destruct (Hgood cl Hin) as (s' & Hs' & _).
           apply Hk, list_elem_of_fmap. exists (claim_key cl, s'). split; [|done]. rewrite <- Heq. by destruct k.
        -- intros k'. rewrite fmap_cons, not_elem_of_cons. intros [Hne Hk']. rewrite Hsame by done. simpl.
           rewrite lookup_alter_ne; [done|]. intros <-. apply Hne. unfold claim_key. simpl. by destruct k.
        -- constructor.
           ++ exists s. unfold claim_key. simpl. rewrite <- surjective_pairing.
              split; [left|]. constructor; simpl; try done.
              ** apply J3, Hact1. right. split; [done|]. unfold claim_key. simpl. by destruct k.
              ** unfold claim_key. simpl. rewrite <- surjective_pairing, J2 by done. simpl. by rewrite lookup_alter_eq, Hks.
           ++ eapply Forall_impl; [exact Hgood|]. intros cl (s' & Hs' & Hg). exists s'. split; [by right|done].
    + intros Hrest. destruct (IH _ _ _ _ Hi Hnd Hrows Hrest) as (J1 & J2 & J3 & J4). split_and!; [done| |done|].
      * intros k' Hk'. apply not_elem_of_cons in Hk' as [_ Hk']. by apply J2.
      * intros out Hout. destruct (J4 out Hout) as (new & -> & Hlen & Hndn & Hsame & Hgood). exists new.
        split_and!; [done..|]. eapply Forall_impl; [exact Hgood|]. intros cl (s' & Hs' & Hg). exists s'. split; [by right|done].
Qed.
End claims.

Lemma queued_rows_spec c :
  NoDup (queued_rows c).*1 ∧
  ∀ k s, (k, s) ∈ queued_rows c ↔ distributed_steps c !! k = Some s ∧ ds_status s = Queued.
Proof.
  unfold queued_rows.
  set (l := List.filter (λ row, bool_decide (ds_status row.2 = Queued)) (map_to_list (distributed_steps c))).
  assert (NoDup l.*1 ∧ ∀ k s, (k, s) ∈ l ↔ distributed_steps c !! k = Some s ∧ ds_status s = Queued) as [Hnd Hin].
  { split.
    - pose proof (NoDup_fst_map_to_list (distributed_steps c)) as Hnd. subst l.
      induction (map_to_list (distributed_steps c)) as [|r l IH]; simpl; [constructor|].
      apply NoDup_cons in Hnd as [Hr Hnd]. destruct (bool_decide _); [|by apply IH].
      rewrite fmap_cons. constructor; [|by apply IH]. intros (r' & Heq & Hin)%list_elem_of_fmap.
      apply Hr, list_elem_of_fmap. exists r'. split; [done|]. rewrite list_elem_of_In in Hin |- *.
      by apply filter_In in Hin as [? _].
    - intros k s. subst l. rewrite list_elem_of_In, filter_In, <- list_elem_of_In, elem_of_map_to_list.
      by rewrite bool_decide_eq_true. }
  pose proof (merge_sort_Permutation queue_before l) as Hperm. split.
  - by rewrite Hperm.
  - intros k s. by rewrite Hperm.
Qed.

Lemma completed_pointer c rid dep pid :
  _completed_pointer_map rid c !! dep = Some pid ↔
  ∃ s, distributed_steps c !! (rid, dep) = Some s ∧ ds_status s = Completed ∧
       ds_output_pointer_id s = Some pid ∧ pid ≠ "".
Proof.
  unfold _completed_pointer_map.
  set (g row := if decide (row.1.1 = rid ∧ ds_status row.2 = Completed)
    then pid ← ds_output_pointer_id row.2; if decide (pid = "") then None else Some (row.1.2, pid) else None).
  assert (∀ row d p, g row = Some (d, p) ↔ row.1 = (rid, d) ∧ ds_status row.2 = Completed ∧
    ds_output_pointer_id row.2 = Some p ∧ p ≠ "") as Hg.
  { intros [[r d'] s] d p. unfold g. simpl. case_decide as Hd.
    - destruct Hd as [-> Hc]. destruct (ds_output_pointer_id s) as [p'|]; simpl; [|naive_solver].
      case_decide; naive_solver.
    - naive_solver. }
  rewrite <- elem_of_list_to_map.
  - rewrite list_elem_of_omap. split.
    + intros ([k s] & Hin & Hrow). apply elem_of_map_to_list in Hin. apply Hg in Hrow as (Hk & ?). simpl in Hk. subst k. by exists s.
    + intros (s & Hs & ?). exists ((rid, dep), s). split; [by apply elem_of_map_to_list|]. by apply Hg.
  - pose proof (NoDup_fst_map_to_list (distributed_steps c)) as Hnd.
    induction (map_to_list (distributed_steps c)) as [|row l IH]; csimpl; [constructor|].
    apply NoDup_cons in Hnd as [Hr Hnd]. destruct (g row) as [[d p]|] eqn:Hrow; [|by apply IH].
    csimpl. constructor; [|by apply IH]. intros ([d' p'] & Heq & Hin)%list_elem_of_fmap. simpl in Heq. subst d'.
    apply list_elem_of_omap in Hin as (row' & Hin & Hrow'). apply Hg in Hrow as [H1 _], Hrow' as [H2 _].
    apply Hr, list_elem_of_fmap. exists row'. split; [congruence|done].
Qed.

Lemma claimable_spec now c rid s :
  claimable now (_completed_pointer_map rid c) s = true ↔
  (∀ t, next_attempt_at_utc s = Some t → (t <= now)%Z) ∧
  ∀ dep, dep ∈ ds_depends_on s → ∃ sd pid, distributed_steps c !! (rid, dep) = Some sd ∧
    ds_status sd = Completed ∧ ds_output_pointer_id sd = Some pid ∧ pid ≠ "".
Proof.
  unfold claimable, due, supplied. rewrite andb_true_iff, forallb_forall. f_equiv.
  - destruct (next_attempt_at_utc s) as [t|]; [|naive_solver]. rewrite Z.leb_le. naive_solver.
  - setoid_rewrite bool_decide_eq_true. setoid_rewrite <- list_elem_of_In. unfold is_Some.
    setoid_rewrite completed_pointer. naive_solver.
Qed.

(** ** Operations in sequence *)

(** The database after a call that nobody interrupts. *)
Definition perform (ttl : Z) (op : dist_op) (c : coordinator) : coordinator := (alone (op_prog ttl op) c).1.

Lemma perform_eq ttl op c :
  perform ttl op c =
  match op with
  | EnqueueMacro m rid now => enqueue_at_once m rid now c
  | ClaimWork worker capacity now clock fresh => (claim_at_once ttl worker capacity now clock fresh c).1
  | Heartbeat id worker now clock => (heartbeat_at_once ttl id worker now clock c).1
  | CompleteLease id worker pid now => (complete_at_once id worker pid now c).1
  | FailLease id worker error delay now => (fail_at_once id worker error delay now c).1
  | ListRunSteps rid => c
  end.
Proof.
  unfold perform. destruct op; cbn [op_prog]; [done|..|done]; rewrite alone_discard.
  - by rewrite alone_claim_work.
  - by rewrite alone_heartbeat.
  - by rewrite alone_complete_lease.
  - by rewrite alone_fail_lease.
Qed.

(** A run is enqueued once. *)
Definition op_ok (op : dist_op) (c : coordinator) : Prop :=
  match op with
  | EnqueueMacro _ rid _ => ∀ sid, distributed_steps c !! (rid, sid) = None
  | _ => True
  end.

Inductive dstep (ttl : Z) : coordinator → coordinator → Prop :=
  | dstep_op op c : op_ok op c → dstep ttl c (perform ttl op c).

Section operations.
Context (ttl : Z).

Lemma enqueue_spec m rid now c :
  distributed_leases (enqueue_at_once m rid now c) = distributed_leases c ∧
  (∀ k, k.1 ≠ rid → distributed_steps (enqueue_at_once m rid now c) !! k = distributed_steps c !! k) ∧
  (∀ k s, distributed_steps (enqueue_at_once m rid now c) !! k = Some s →
    distributed_steps c !! k = Some s ∨ k.1 = rid ∧ ds_status s = Queued).
Proof.
  unfold enqueue_at_once. generalize (max_attempts (retry_policy m)) as n. intros n. revert c.
  induction (steps m) as [|step l IH]; intros c; simpl; [naive_solver|].
  destruct (IH (enqueue_step rid n now c step)) as (H1 & H2 & H3). split_and!; [done| |].
  - intros k Hk. rewrite H2 by done. simpl. rewrite lookup_insert_ne; [done|]. by intros <-.
  - intros k s Hs. destruct (H3 k s Hs) as [Hk|]; [|by right]. simpl in Hk.
    apply lookup_insert_Some in Hk as [[<- <-]|[_ Hk]]; [by right|by left].
Qed.

Lemma enqueue_inv m rid now c :
  dist_inv c → (∀ sid, distributed_steps c !! (rid, sid) = None) → dist_inv (enqueue_at_once m rid now c).
Proof.
  intros [I1 I2 I3] Hfresh. destruct (enqueue_spec m rid now c) as (El & Eo & En).
  assert (∀ id l, active (enqueue_at_once m rid now c) id l ↔ active c id l) as Hact by (intros; unfold active; by rewrite El).
  split.
  - intros id l Hl%Hact. destruct (I1 id l Hl) as (s & Hs & ?). exists s. split; [|done]. rewrite Eo; [done|].
    destruct (lease_key l) as [r sid]. simpl. intros ->. congruence.
  - intros id1 id2 l1 l2 H1%Hact H2%Hact. by eapply I2.
  - intros k s Hk Hst. destruct (En k s Hk) as [Hk'|[_ Hq]]; [|congruence].
    destruct (I3 k s Hk' Hst) as (id & l & Hl & Hkey). exists id, l. split; [by apply Hact|done].
Qed.

(** [claim_work], whatever its outcome. *)
Lemma claim_work_spec worker capacity now clock fresh c c' r :
  dist_inv c → claim_at_once ttl worker capacity now clock fresh c = (c', r) →
  dist_inv c' ∧
  (∀ k s, distributed_steps c !! k = Some s → ds_status s = Completed ∨ ds_status s = Failed →
    distributed_steps c' !! k = Some s) ∧
  ∀ out, r = Ok out → (Z.of_nat (length out) <= Z.max 0 capacity)%Z ∧ NoDup (claim_key <$> out) ∧
    (∀ k, k ∉ claim_key <$> out → (capacity <= 0)%Z ∨
       distributed_steps c' !! k = distributed_steps (expire_at_once now c) !! k) ∧
    Forall (λ cl, ∃ s, distributed_steps (expire_at_once now c) !! claim_key cl = Some s ∧
      ds_status s = Queued ∧
      claim_good ttl worker now clock (expire_at_once now c) c' s cl) out.
Proof.
  intros Hi. unfold claim_at_once. destruct (Z.leb_spec capacity 0) as [Hcap|Hcap].
  { intros [= <- <-]. split_and!; [done|done|]. intros out [= <-]. split_and!; [simpl; lia|constructor|by left|constructor]. }
  unfold mbind, stm_bind, st_modify, st_get, transaction.
  set (c1 := expire_at_once now c). pose proof (expire_inv now c Hi) as Hi1. fold c1 in Hi1.
  assert (∀ k s, distributed_steps c !! k = Some s → ds_status s = Completed ∨ ds_status s = Failed →
    distributed_steps c1 !! k = Some s) as Hkeep.
  { intros k s Hk Hs. apply expire_list_steps; [done|]. by destruct Hs as [-> | ->]. }
  destruct (claim_rows ttl worker capacity now clock fresh c1 (queued_rows c1) [] c1) as [c2 r2] eqn:Hrows.
  destruct (queued_rows_spec c1) as [Hnd Hq].
  destruct (claim_rows_spec _ _ _ _ _ _ _ _ _ _ _ _ Hi1 Hnd
    ltac:(apply Forall_forall; intros [k s] Hin; by apply Hq) Hrows) as (J1 & J2 & J3 & J4).
  destruct r2 as [out|e]; intros [= <- <-].
  - split_and!; [done| |].
    + intros k s Hk Hs. rewrite J2; [by apply Hkeep|]. intros ([k' s'] & Heq & Hin)%list_elem_of_fmap.
      apply Hq in Hin as [Hin Hq']. simpl in Heq. subst k'. rewrite (Hkeep k s Hk Hs) in Hin. simplify_eq.
      destruct Hs; congruence.
    + intros ? [= <-]. destruct (J4 out eq_refl) as (new & -> & Hlen & Hndn & Hsame & Hgood). simpl in Hlen |- *.
      split_and!; [lia|done|intros k Hk; right; by apply Hsame|]. eapply Forall_impl; [exact Hgood|]. intros cl (s & Hin & Hg).
      apply Hq in Hin as [? ?]. by exists s.
  - split_and!; [done|done|done].
Qed.

Lemma perform_inv op c :
  dist_inv c → op_ok op c → dist_inv (perform ttl op c) ∧
  ∀ k s, distributed_steps c !! k = Some s → ds_status s = Completed ∨ ds_status s = Failed →
    distributed_steps (perform ttl op c) !! k = Some s.
Proof.
  intros Hi Hok.
  assert (∀ id l status f, active c id l → status ≠ Active → (∀ s, ds_status (f s) ≠ Started) →
    dist_inv (retire id status (lease_key l) f c) ∧
    ∀ k s, distributed_steps c !! k = Some s → ds_status s = Completed ∨ ds_status s = Failed →
      distributed_steps (retire id status (lease_key l) f c) !! k = Some s) as Hretire.
  { intros id l status f Hl Hs Hf. split; [by apply retire_inv|]. intros k s Hk Hcf. simpl.
    rewrite lookup_alter_ne; [done|]. intros <-. destruct (di_step _ Hi id l Hl) as (s' & Hs' & Hst & _).
    simplify_eq. by destruct Hcf; congruence. }
  rewrite perform_eq.
  destruct op as [m rid now|worker capacity now clock fresh|id worker now clock|id worker pid now|id worker error delay now|rid];
    simpl in *; [..|done].
  - split; [by apply enqueue_inv|]. intros k s Hk _. destruct (enqueue_spec m rid now c) as (_ & Eo & _).
    rewrite Eo; [done|]. destruct k as [r sid]. simpl. intros ->. by rewrite Hok in Hk.
  - destruct (claim_at_once ttl worker capacity now clock fresh c) as [c' r] eqn:Hc.
    by destruct (claim_work_spec _ _ _ _ _ _ _ _ Hi Hc) as (? & ? & _).
  - unfold heartbeat_at_once. destruct (distributed_leases c !! id) as [l|] eqn:Hl; [|done].
    destruct (_ || _); [done|]. simpl. set (f := extend_lease ttl now clock). split; [|done].
    assert (∀ j l', active (update_lease id f c) j l' → ∃ l0, active c j l0 ∧ lease_key l' = lease_key l0 ∧
      ls_attempt l' = ls_attempt l0) as Hback.
    { intros j l' [Hj Ha]. simpl in Hj. destruct (decide (j = id)) as [->|Hne].
      - rewrite lookup_alter_eq, Hl in Hj. simpl in Hj. injection Hj as <-. by exists l.
      - rewrite lookup_alter_ne in Hj by done. by exists l'. }
    destruct Hi as [I1 I2 I3]. split.
    + intros j l' (l0 & H0 & Hk & Ha)%Hback. destruct (I1 j l0 H0) as (s & Hs & Hst & Hatt). exists s.
      rewrite Hk, Ha. done.
    + intros j1 j2 l1 l2 (l3 & H3 & Hk3 & _)%Hback (l4 & H4 & Hk4 & _)%Hback Heq. eapply I2; [done..|congruence].
    + intros k s Hk Hst. destruct (I3 k s Hk Hst) as (j & l' & [Hj Ha] & Hkey).
      destruct (decide (j = id)) as [->|Hne].
      * rewrite Hl in Hj. injection Hj as <-. exists id, (f l). split; [|done]. split; [|done]. simpl. by rewrite lookup_alter_eq, Hl.
      * exists j, l'. split; [|done]. split; [|done]. simpl. by rewrite lookup_alter_ne.
  - unfold complete_at_once. destruct (distributed_leases c !! id) as [l|] eqn:Hl; [|done].
    destruct (_ || _) eqn:Hg; [done|]. apply orb_false_iff in Hg as [_ Hg%bool_decide_eq_false].
    apply dec_stable in Hg. by apply (Hretire id l).
  - unfold fail_at_once. destruct (distributed_leases c !! id) as [l|] eqn:Hl; [|done].
    destruct (_ || _) eqn:Hg; [done|]. apply orb_false_iff in Hg as [_ Hg%bool_decide_eq_false].
    apply dec_stable in Hg. destruct (distributed_steps c !! lease_key l) as [s|]; [|done].
    apply (Hretire id l); [done..|]. intros s'. simpl. by destruct (_ <? _)%Z.
Qed.

Lemma dsteps_inv c c' :
  dist_inv c → rtc (dstep ttl) c c' → dist_inv c' ∧
  ∀ k s, distributed_steps c !! k = Some s → ds_status s = Completed ∨ ds_status s = Failed →
    distributed_steps c' !! k = Some s.
Proof.
  intros Hi. induction 1 as [c|c1 c2 c3 [op c Hok] _ IH]; [done|].
  destruct (perform_inv op c Hi Hok) as [H1 H2]. destruct (IH H1) as [H3 H4]. split; [done|]. auto.
Qed.

End operations.

(** ** Calls that overlap

    Every action keeps what [leased] and [leases_kept] say, whatever other
    clients did since the call's earlier actions; so the two hold over any
    interleaving. *)

(** Every started step is held by an active lease that carries its attempt. *)
Definition leased (c : coordinator) : Prop :=
  ∀ k s, distributed_steps c !! k = Some s → ds_status s = Started →
    ∃ id l, active c id l ∧ lease_key l = k ∧ ls_attempt l = ds_attempt s.

(** A lease stays its worker's, on its attempt of its step, and once ended is
    never active again. *)
Definition leases_kept (c c' : coordinator) : Prop :=
  ∀ id l, distributed_leases c !! id = Some l →
    ∃ l', distributed_leases c' !! id = Some l' ∧ lease_key l' = lease_key l ∧
      worker_id l' = worker_id l ∧ ls_attempt l' = ls_attempt l ∧
      (ls_status l ≠ Active → ls_status l' ≠ Active).

#[global] Instance leases_kept_preorder : PreOrder leases_kept.
Proof.
  split.
  - intros c id l Hl. by exists l.
  - intros c1 c2 c3 H12 H23 id l Hl. destruct (H12 id l Hl) as (l2 & Hl2 & E1 & E2 & E3 & E4).
    destruct (H23 id l2 Hl2) as (l3 & Hl3 & F1 & F2 & F3 & F4). exists l3.
    split_and!; [done|congruence..|auto].
Qed.

(** What one action does. *)
Definition keeps (c c' : coordinator) : Prop := leases_kept c c' ∧ (leased c → leased c').

Lemma keeps_refl c : keeps c c.
Proof. by split. Qed.
Lemma keeps_trans c1 c2 c3 : keeps c1 c2 → keeps c2 c3 → keeps c1 c3.
Proof. intros [H1 L1] [H2 L2]. split; [by trans c2|auto]. Qed.

Lemma retire_keeps c id k st f :
  (∀ l, distributed_leases c !! id = Some l → lease_key l = k) → st ≠ Active →
  (∀ s, ds_status (f s) ≠ Started) → keeps c (retire id st k f c).
Proof.
  intros Hkey Hst Hf. split.
  - intros j l Hj. destruct (decide (j = id)) as [->|Hne].
    + exists (set_lease_status st l). simpl. by rewrite lookup_alter_eq, Hj.
    + exists l. simpl. by rewrite lookup_alter_ne.
  - intros Hl k' s Hk Hs. simpl in Hk. destruct (decide (k = k')) as [<-|Hne].
    { rewrite lookup_alter_eq in Hk. apply fmap_Some in Hk as (s' & _ & ->). by destruct (Hf s'). }
    rewrite lookup_alter_ne in Hk by done. destruct (Hl k' s Hk Hs) as (j & l & [Hj Ha] & Hjk & Hatt).
    exists j, l. split_and!; [|done..]. split; [|done]. simpl. rewrite lookup_alter_ne; [done|].
    intros <-. apply Hne. by rewrite <- (Hkey l Hj).
Qed.

Lemma expire_rows_keep now rows : ∀ c,
  Forall (λ row, ∀ l, distributed_leases c !! row.1 = Some l → lease_key l = lease_key row.2) rows →
  keeps c (foldl (expire_lease now) c rows).
Proof.
  induction rows as [|[id l] rows IH]; intros c Hrows; [apply keeps_refl|].
  apply Forall_cons in Hrows as [Hid Hrows]. simpl.
  assert (keeps c (expire_lease now c (id, l))) as Hone
    by (apply retire_keeps; [exact Hid|done|apply requeue_not_started]).
  eapply keeps_trans; [exact Hone|]. apply IH. eapply Forall_impl; [exact Hrows|]. intros [j l'] Hj l2. simpl.
  intros Hl2. apply lookup_alter_Some in Hl2 as [(Heq & l3 & Hl3 & ->)|[_ Hl2]]; [subst j; exact (Hj l3 Hl3)|exact (Hj l2 Hl2)].
Qed.

Lemma extend_keeps ttl id now clock c : keeps c (update_lease id (extend_lease ttl now clock) c).
Proof.
  split.
  - intros j l Hj. simpl. rewrite lookup_alter. case_decide as Hd; [rewrite Hd|]; rewrite Hj; simpl; eexists; by split_and!.
  - intros Hl k s Hk Hs. destruct (Hl k s Hk Hs) as (j & l & [Hj Ha] & Hkey & Hatt).
    exists j. unfold active. simpl. rewrite lookup_alter. case_decide as Hd; [rewrite Hd|]; rewrite Hj; simpl; eexists; by split_and!.
Qed.

Lemma claimed_keeps ttl worker now clock id k s c :
  distributed_leases c !! id = None → keeps c (claimed ttl worker now clock id k s c).
Proof.
  intros Hid. split.
  - intros j l Hj. exists l. simpl. rewrite lookup_insert_ne; [done|]. congruence.
  - intros Hl k' s' Hk Hs. simpl in Hk. destruct (decide (k = k')) as [<-|Hne].
    + rewrite lookup_alter_eq in Hk. apply fmap_Some in Hk as (s0 & _ & ->). eexists id, _. split_and!.
      * split; [by apply lookup_insert_eq|done].
      * by destruct k.
      * done.
    + rewrite lookup_alter_ne in Hk by done. destruct (Hl k' s' Hk Hs) as (j & l & [Hj Ha] & Hkey & Hatt).
      exists j, l. split_and!; [|done..]. split; [|done]. simpl. rewrite lookup_insert_ne; [done|]. congruence.
Qed.

Lemma claim_row_keeps ttl worker now clock id row c : keeps c (claim_row ttl worker now clock id row c).1.
Proof.
  destruct row as [k s]. destruct (claim_row ttl worker now clock id (k, s) c) as [c' r] eqn:E.
  apply claim_row_spec in E as [(_ & -> & _)|(Hid & -> & _)]; [apply keeps_refl|by apply claimed_keeps].
Qed.

Lemma claim_rows_keep ttl worker capacity now clock fresh committed rows : ∀ claims c,
  keeps c (claim_rows ttl worker capacity now clock fresh committed rows claims c).1.
Proof.
  induction rows as [|row rows IH]; intros claims c; cbn [claim_rows]; [apply keeps_refl|].
  destruct (_ <=? _)%Z; [apply keeps_refl|]. destruct (claimable _ _ _); [|apply IH].
  unfold mbind, stm_bind. pose proof (claim_row_keeps ttl worker now clock (fresh (length claims)) row c) as H1.
  destruct (claim_row _ _ _ _ _ _ _) as [c1 [cl|e]]; [|exact H1].
  eapply keeps_trans; [exact H1|apply IH].
Qed.

Lemma transaction_keeps {A} (m : stm coordinator A) c : keeps c (m c).1 → keeps c (transaction m c).1.
Proof. unfold transaction. destruct (m c) as [c' [a|e]]; [done|]. intros _. apply keeps_refl. Qed.

Lemma enqueue_keeps m rid now c : keeps c (enqueue_at_once m rid now c).
Proof.
  destruct (enqueue_spec m rid now c) as (El & _ & En). split.
  - intros id l Hl. exists l. by rewrite El.
  - intros Hl k s Hk Hs. destruct (En k s Hk) as [Hk'|[_ Hq]]; [|congruence].
    destruct (Hl k s Hk' Hs) as (id & l & [Hi Ha] & ?). exists id, l. unfold active. by rewrite El.
Qed.

(** A call under way that has seen the leases of [c]: whatever the others have
    done since, its next action keeps them, and so on. *)
Inductive safe {A} : coordinator → prog coordinator A → Prop :=
  | safe_done c r : safe c (Done r)
  | safe_act c f :
      (∀ c', leases_kept c c' → keeps c' (f c').1 ∧ safe (f c').1 (f c').2) → safe c (Act f).

Lemma safe_kept {A} c c' (p : prog coordinator A) : safe c p → leases_kept c c' → safe c' p.
Proof.
  intros Hp Hc. inversion Hp as [|c0 f Hf]; subst; constructor. intros c2 H2. apply Hf. by trans c'.
Qed.

Lemma safe_bind {A B} (p : prog coordinator A) (k : A → prog coordinator B) : ∀ c,
  safe c p → (∀ c' a, leases_kept c c' → safe c' (k a)) → safe c (p ≫= k).
Proof.
  induction p as [[a|e]|f IH] using prog_ind'; intros c Hp Hk; [by apply Hk|constructor|].
  inversion Hp as [|c0 f0 Hf]; subst. cbn. constructor. intros c' Hc. destruct (Hf c' Hc) as [Hkeep Hsafe].
  specialize (IH c'). destruct (f c') as [c2 p']. simpl in *. split; [done|]. apply IH; [done|].
  intros c3 a H3. apply Hk. trans c'; [done|]. trans c2; [apply Hkeep|done].
Qed.

Lemma safe_atomically {A} (m : stm coordinator A) c :
  (∀ c', leases_kept c c' → keeps c' (m c').1) → safe c (atomically m).
Proof.
  intros Hm. constructor. intros c' Hc. specialize (Hm c' Hc). destruct (m c') as [c2 r]. split; [done|constructor].
Qed.

Lemma safe_read {A B} (g : coordinator → A) (k : A → prog coordinator B) c :
  (∀ c', leases_kept c c' → safe c' (k (g c'))) → safe c (read g ≫= k).
Proof. intros Hk. cbn. constructor. intros c' Hc. cbn. split; [apply keeps_refl|by apply Hk]. Qed.

Lemma safe_write {B} (f : coordinator → coordinator) (p : prog coordinator B) c :
  (∀ c', leases_kept c c' → keeps c' (f c')) → (∀ c', safe c' p) → safe c (write f;; p).
Proof. intros Hf Hp. cbn. constructor. intros c' Hc. cbn. split; [by apply Hf|apply Hp]. Qed.

Lemma scan_rows_safe ttl worker capacity now clock fresh rows : ∀ c,
  safe c (scan_rows ttl worker capacity now clock fresh rows).
Proof.
  induction rows as [|row rows IH]; intros c; cbn [scan_rows]; [constructor|].
  destruct (due now row.2); [|apply IH]. apply safe_read. intros c1 _. destruct (supplied _ row.2); [|apply IH].
  apply safe_atomically. intros c2 _. apply transaction_keeps. unfold mbind, stm_bind, st_get.
  pose proof (claim_row_keeps ttl worker now clock (fresh 0) row c2) as H1.
  destruct (claim_row _ _ _ _ _ _ _) as [c3 [cl|e]]; [|exact H1]. eapply keeps_trans; [exact H1|apply claim_rows_keep].
Qed.

(** What was read of a lease that is there still holds of its step. *)
Lemma key_known c c' id l :
  distributed_leases c !! id = Some l → leases_kept c c' →
  ∀ l', distributed_leases c' !! id = Some l' → lease_key l' = lease_key l.
Proof. intros Hl Hc l' Hl'. destruct (Hc id l Hl) as (l2 & Hl2 & Hk & _). congruence. Qed.

Lemma op_safe ttl op c : safe c (op_prog ttl op).
Proof.
  destruct op as [m rid now|worker capacity now clock fresh|id worker now clock|id worker pid now|id worker error delay now|rid];
    (apply safe_bind; [|intros; constructor]).
  - apply safe_write; [|constructor]. intros c' _. apply enqueue_keeps.
  - unfold claim_work. destruct (_ <=? _)%Z; [constructor|]. apply safe_bind.
    + apply safe_read. intros c1 _. apply safe_atomically. intros c2 H12. apply expire_rows_keep, Forall_forall.
      intros [id l] Hin. apply stale_rows in Hin as [[Hl _] _]. by eapply key_known.
    + intros c1 _ _. apply safe_read. intros c2 _. apply scan_rows_safe.
  - apply safe_read. intros c1 _. destruct (distributed_leases c1 !! id) as [l|]; [|constructor].
    destruct (_ || _); [constructor|]. apply safe_write; [|constructor]. intros c2 _. apply extend_keeps.
  - apply safe_read. intros c1 _. destruct (distributed_leases c1 !! id) as [l|] eqn:Hl; [|constructor].
    destruct (_ || _); [constructor|]. apply safe_write; [|constructor]. intros c2 H12.
    apply retire_keeps; [by eapply key_known|done|done].
  - apply safe_read. intros c1 _. destruct (distributed_leases c1 !! id) as [l|] eqn:Hl; [|constructor].
    destruct (_ || _); [constructor|]. apply safe_read. intros c2 H12.
    destruct (distributed_steps c2 !! lease_key l) as [s|]; [|constructor].
    apply safe_write; [|constructor]. intros c3 H23.
    apply retire_keeps; [eapply key_known; [exact Hl|by trans c2]|done|]. intros s'. simpl. by destruct (_ <? _)%Z.
  - apply safe_atomically. intros c' _. apply keeps_refl.
Qed.

Definition no_clients : clients := {| database := empty_coordinator; under_way := [] |}.
Definition clients_ok (s : clients) : Prop := leased (database s) ∧ Forall (safe (database s)) (under_way s).

Lemma no_clients_ok : clients_ok no_clients.
Proof. split; [|constructor]. intros k s Hk. simpl in Hk. by rewrite lookup_empty in Hk. Qed.

Lemma client_step_ok ttl s s' :
  client_step ttl s s' → clients_ok s → clients_ok s' ∧ leases_kept (database s) (database s').
Proof.
  intros Hstep [Hl Hps]. destruct Hstep as [op c ps|c f before after|c p before after]; simpl in *.
  - split; [|done]. split; [done|]. constructor; [apply op_safe|done].
  - apply Forall_app in Hps as [Hb [Hf Ha]%Forall_cons]. inversion Hf as [|c0 f0 Hact]; subst.
    destruct (Hact c ltac:(done)) as [[Hk Hkl] Hsafe]. split; [|done]. split; [by apply Hkl|]. simpl.
    apply Forall_app. split; [|constructor; [done|]]; (eapply Forall_impl; [eassumption|]);
      intros p Hp; by eapply safe_kept.
  - split; [|done]. split; [done|]. apply Forall_app in Hps as [Hb [_ Ha]%Forall_cons]. by apply Forall_app.
Qed.

Lemma clients_reachable ttl s s' :
  clients_ok s → rtc (client_step ttl) s s' → clients_ok s' ∧ leases_kept (database s) (database s').
Proof.
  intros Hs. induction 1 as [s|s1 s2 s3 H12 _ IH]; [done|].
  destruct (client_step_ok ttl s1 s2 H12 Hs) as [Hs2 Hk2]. destruct (IH Hs2) as [Hs3 Hk3].
  split; [done|]. by trans (database s2).
Qed.

Lemma expire_rows_started now rows : ∀ c k s,
  distributed_steps (foldl (expire_lease now) c rows) !! k = Some s → ds_status s = Started →
  distributed_steps c !! k = Some s ∧ ∀ row, row ∈ rows → lease_key row.2 ≠ k.
Proof.
  induction rows as [|[id l] rows IH]; intros c k s Hk Hs; simpl in Hk.
  { split; [done|]. by intros row ?%elem_of_nil. }
  destruct (IH _ _ _ Hk Hs) as [H1 H2]. simpl in H1. destruct (decide (lease_key l = k)) as [Heq|Hne].
  - rewrite Heq, lookup_alter_eq in H1. apply fmap_Some in H1 as (s' & _ & ->). by destruct (requeue_not_started now s').
  - rewrite lookup_alter_ne in H1 by done. split; [done|]. intros row [->|Hin]%elem_of_cons; [done|by apply H2].
Qed.

(** A step all of whose active leases have run out is given back. *)
Lemma given_back now c k s :
  leased c → (∀ id l, active c id l → lease_key l = k → (lease_expires_at_utc l <= now)%Z) →
  distributed_steps (expire_at_once now c) !! k = Some s → ds_status s ≠ Started.
Proof.
  intros Hl Hexp Hk Hs. destruct (expire_rows_started _ _ _ _ _ Hk Hs) as [Hk0 Hrows].
  destruct (Hl k s Hk0 Hs) as (id & l & Hact & Hkey & _). apply (Hrows (id, l)); [|done].
  apply stale_rows. split; [done|]. by eapply Hexp.
Qed.

Section guarantees.
Context (ttl : Z).

(** C11: whatever coordinator calls clients make and however their actions on
    the database interleave, runs enqueued anew, overlapping claims and calls
    that die halfway included: a started step is held by an active lease that
    carries its attempt; once the active leases on a step have run out, expiry
    leaves it not started; a lease stays its worker's, on one attempt of one
    step, and once ended is never active again.  Leases are also exclusive when
    calls do not overlap and no run is enqueued twice: a step is then started
    exactly while one lease on it is active, which carries its attempt.
    (Claims that overlap can share a step, see [overlapping_claims].) *)
Theorem leases_hold :
  (∀ s s', rtc (client_step ttl) no_clients s → rtc (client_step ttl) s s' →
     (∀ k row, distributed_steps (database s) !! k = Some row → ds_status row = Started →
        ∃ id l, active (database s) id l ∧ lease_key l = k ∧ ls_attempt l = ds_attempt row) ∧
     (∀ now k row,
        (∀ id l, active (database s) id l → lease_key l = k → (lease_expires_at_utc l <= now)%Z) →
        distributed_steps (alone (_expire_stale_leases now) (database s)).1 !! k = Some row →
        ds_status row ≠ Started) ∧
     (∀ id l, distributed_leases (database s) !! id = Some l →
        ∃ l', distributed_leases (database s') !! id = Some l' ∧ lease_key l' = lease_key l ∧
          worker_id l' = worker_id l ∧ ls_attempt l' = ls_attempt l ∧
          (ls_status l ≠ Active → ls_status l' ≠ Active))) ∧
  (∀ c, rtc (dstep ttl) empty_coordinator c →
     (∀ id1 id2 l1 l2, active c id1 l1 → active c id2 l2 → lease_key l1 = lease_key l2 → id1 = id2) ∧
     (∀ k s, distributed_steps c !! k = Some s →
        ds_status s = Started ↔ ∃ id l, active c id l ∧ lease_key l = k) ∧
     (∀ id l, active c id l → ∃ s, distributed_steps c !! lease_key l = Some s ∧ ds_attempt s = ls_attempt l)).
Proof.
  split.
  - intros s s' Hs Hs'. destruct (clients_reachable ttl _ _ no_clients_ok Hs) as [Hok _].
    split_and!; [apply Hok| |apply (clients_reachable ttl _ _ Hok Hs')].
    intros now k row Hexp Hrow. eapply given_back; [apply Hok|exact Hexp|exact Hrow].
  - intros c Hr. destruct (dsteps_inv ttl _ _ empty_inv Hr) as [[I1 I2 I3] _]. split_and!; [done| |].
    + intros k s Hk. split; [by apply I3|]. intros (id & l & Hl & <-).
      destruct (I1 id l Hl) as (s' & Hs' & Hst & _). congruence.
    + intros id l Hl. destruct (I1 id l Hl) as (s & Hs & _ & Ha). eauto.
Qed.

(** A step that has completed, or has failed for good, keeps its row, its
    output pointer included, whatever workers do afterwards. *)
Theorem distributed_outcomes_final c c' k s :
  rtc (dstep ttl) empty_coordinator c → rtc (dstep ttl) c c' →
  distributed_steps c !! k = Some s → ds_status s = Completed ∨ ds_status s = Failed →
  distributed_steps c' !! k = Some s.
Proof.
  intros Hr Hr' Hk Hs. destruct (dsteps_inv ttl _ _ empty_inv Hr) as [Hi _].
  by apply (dsteps_inv ttl _ _ Hi Hr').
Qed.

(** [claim_work] hands out at most [capacity] steps, each once, and only
    steps that were queued and due and all of whose dependencies have
    completed with an output; the worker then holds an active lease on each,
    and the step is started on its next attempt. *)
Theorem claims_are_ready worker capacity now clock fresh c c' out :
  rtc (dstep ttl) empty_coordinator c →
  alone (claim_work ttl worker capacity now clock fresh) c = (c', Ok out) →
  (Z.of_nat (length out) <= Z.max 0 capacity)%Z ∧ NoDup (claim_key <$> out) ∧
  ∀ cl, cl ∈ out → ∃ s l, ds_status s = Queued ∧
    (∀ t, next_attempt_at_utc s = Some t → (t <= now)%Z) ∧
    (∀ dep, dep ∈ ds_depends_on s → ∃ sd pid, distributed_steps c' !! (cl_run_id cl, dep) = Some sd ∧
       ds_status sd = Completed ∧ ds_output_pointer_id sd = Some pid ∧ pid ≠ "") ∧
    distributed_steps c' !! claim_key cl = Some (start_step (ds_attempt s + 1) now s) ∧
    cl_attempt cl = (ds_attempt s + 1)%Z ∧ cl_arguments cl = ds_arguments s ∧
    active c' (cl_lease_id cl) l ∧ worker_id l = worker ∧ lease_key l = claim_key cl.
Proof.
  rewrite alone_claim_work. intros Hr Hc. destruct (dsteps_inv ttl _ _ empty_inv Hr) as [Hi _].
  destruct (claim_work_spec ttl _ _ _ _ _ _ _ _ Hi Hc) as (Hi' & _ & Hout).
  destruct (Hout out eq_refl) as (Hlen & Hnd & _ & Hgood). split_and!; [done|done|].
  intros cl Hcl. rewrite Forall_forall in Hgood. destruct (Hgood cl Hcl) as (s & Hs & Hq & [Hready _ Hargs Hatt Hl Hst]).
  apply claimable_spec in Hready as [Htime Hdeps].
  exists s, (new_lease ttl worker now clock (claim_key cl) s). split_and!; try done.
  intros dep Hdep. destruct (Hdeps dep Hdep) as (sd & pid & Hsd & Hcomp & Hpid & Hne).
  exists sd, pid. split_and!; [|done..].
  revert Hc. unfold claim_at_once. destruct (capacity <=? 0)%Z.
  { intros [= <- <-]. by apply elem_of_nil in Hcl. }
  unfold mbind, stm_bind, st_modify, st_get, transaction.
  destruct (claim_rows ttl worker capacity now clock fresh _ _ [] _) as [c2 [out2|e]] eqn:Hrows; [|done].
  intros [= <- <-]. destruct (queued_rows_spec (expire_at_once now c)) as [Hndq Hq'].
  destruct (claim_rows_spec _ _ _ _ _ _ _ _ _ _ _ _ (expire_inv now c Hi) Hndq
    ltac:(apply Forall_forall; intros [k' s'] Hin; by apply Hq') Hrows) as (_ & J2 & _).
  rewrite J2; [done|]. intros ([k' s'] & Heq & Hin)%list_elem_of_fmap. apply Hq' in Hin as [Hin Hq2].
  simpl in Heq. subst k'. simplify_eq. congruence.
Qed.

(** Only the worker that holds an active lease can act on it: a heartbeat
    is accepted exactly when the lease is its caller's, active and not
    expired, a completion or failure exactly when it is its caller's and
    active; a refused call changes nothing. *)
Theorem lease_calls_guarded id worker now clock pid error delay c :
  rtc (dstep ttl) empty_coordinator c →
  let h := alone (heartbeat ttl id worker now clock) c in
  let d := alone (complete_lease id worker pid now) c in
  let f := alone (fail_lease id worker error delay now) c in
  (h.2 = Ok true ↔ ∃ l, active c id l ∧ worker_id l = worker ∧ (now < lease_expires_at_utc l)%Z) ∧
  (d.2 = Ok true ↔ ∃ l, active c id l ∧ worker_id l = worker) ∧
  (f.2 = Ok true ↔ ∃ l, active c id l ∧ worker_id l = worker) ∧
  (h.2 ≠ Ok true → h.1 = c) ∧ (d.2 ≠ Ok true → d.1 = c) ∧ (f.2 ≠ Ok true → f.1 = c).
Proof.
  intros Hr. destruct (dsteps_inv ttl _ _ empty_inv Hr) as [[I1 _ _] _].
  rewrite alone_heartbeat, alone_complete_lease, alone_fail_lease. cbn [fst snd].
  unfold heartbeat_at_once, complete_at_once, fail_at_once, active.
  destruct (distributed_leases c !! id) as [l|] eqn:Hl.
  2: { split_and!; try done; (split; [done|]); by intros (l & [? _] & _). }
  assert (∀ R : lease → Prop, (∃ l', (Some l = Some l' ∧ ls_status l' = Active) ∧ worker_id l' = worker ∧ R l') ↔
    ls_status l = Active ∧ worker_id l = worker ∧ R l) as Hone.
  { intros R. split; [by intros (l' & [[= <-] ?] & ? & ?)|]. intros (? & ? & ?). by exists l. }
  assert ((∃ l', (Some l = Some l' ∧ ls_status l' = Active) ∧ worker_id l' = worker) ↔
    ls_status l = Active ∧ worker_id l = worker) as Htwo.
  { split; [by intros (l' & [[= <-] ?] & ?)|]. intros [? ?]. by exists l. }
  rewrite Hone, Htwo.
  destruct (decide (worker_id l = worker ∧ ls_status l = Active)) as [[Hw Ha]|Hno].
  - rewrite !(bool_decide_eq_false_2 (worker_id l ≠ worker)), !(bool_decide_eq_false_2 (ls_status l ≠ Active)) by tauto.
    destruct (I1 id l (conj Hl Ha)) as (s & -> & _). cbn [orb].
    destruct (Z.leb_spec (lease_expires_at_utc l) now); simpl; split_and!; try done; (split; [done|lia || tauto]).
  - assert (bool_decide (worker_id l ≠ worker) || bool_decide (ls_status l ≠ Active) = true) as Hg.
    { apply orb_true_iff. rewrite !bool_decide_eq_true. destruct (decide (worker_id l = worker)); tauto. }
    rewrite Hg. cbn [orb fst snd]. split_and!; try done; (split; [done|tauto]).
Qed.

(** ** The queue does not run dry *)

Lemma claim_rows_some worker capacity now clock fresh committed rows : Inj (=) (=) fresh → ∀ claims c,
  (∀ n, length claims ≤ n → distributed_leases c !! fresh n = None) →
  ∃ c' out, claim_rows ttl worker capacity now clock fresh committed rows claims c = (c', Ok out) ∧
    length claims ≤ length out ∧
    ((∃ k s, (k, s) ∈ rows ∧ claimable now (_completed_pointer_map k.1 committed) s = true) →
     (Z.of_nat (length claims) < capacity)%Z → length claims < length out).
Proof.
  intros Hinj. induction rows as [|[k s] rows IH]; intros claims c Hfresh; cbn [claim_rows fst snd].
  - exists c, claims. split_and!; [done|done|]. intros (k & s & Hin & _). by apply elem_of_nil in Hin.
  - destruct (Z.leb_spec capacity (Z.of_nat (length claims))) as [Hcap|Hcap].
    { exists c, claims. split_and!; [done|done|lia]. }
    destruct (claimable now _ s) eqn:Hready.
    + unfold mbind at 1, stm_bind at 1.
      destruct (claim_row ttl worker now clock (fresh (length claims)) (k, s) c) as [c1 r1] eqn:Hrow.
      destruct (claim_row_spec _ _ _ _ _ _ _ _ _ _ Hrow) as [([l Hl] & _ & _)|(_ & -> & ->)].
      { by rewrite Hfresh in Hl. }
      edestruct IH as (c' & out & Hout & Hlen & _); [|exists c', out; split_and!; [exact Hout| |]].
      * intros n. rewrite length_app. simpl. intros Hn. rewrite lookup_insert_ne; [apply Hfresh; lia|].
        intros Heq. apply Hinj in Heq. lia.
      * rewrite length_app in Hlen. simpl in Hlen. lia.
      * rewrite length_app in Hlen. simpl in Hlen. lia.
    + destruct (IH claims c Hfresh) as (c' & out & Hout & Hlen & Hmore). exists c', out.
      split_and!; [done|done|]. intros (k' & s' & Hin & Hs') Hlt. apply Hmore; [|done].
      apply elem_of_cons in Hin as [[= -> ->]|Hin]; [congruence|eauto].
Qed.

Lemma expire_list_row now rows : ∀ c k,
  (∀ s, distributed_steps c !! k = Some s →
     ∃ s', distributed_steps (foldl (expire_lease now) c rows) !! k = Some s' ∧ (s' = s ∨ s' = requeue now s)) ∧
  (distributed_steps c !! k = None → distributed_steps (foldl (expire_lease now) c rows) !! k = None).
Proof.
  assert (∀ s, requeue now (requeue now s) = requeue now s) as Hidem.
  { intros s. unfold requeue at 1. rewrite decide_False; [done|]. apply requeue_not_started. }
  induction rows as [|[id l] rows IH]; intros c k; simpl; [eauto|].
  destruct (IH (expire_lease now c (id, l)) k) as [H1 H2]. split.
  - intros s Hk. destruct (decide (lease_key l = k)) as [Heq|Hne].
    + destruct (H1 (requeue now s)) as (s' & Hs' & Hcase).
      { simpl. rewrite Heq. by rewrite lookup_alter_eq, Hk. }
      exists s'. split; [done|]. rewrite Hidem in Hcase. tauto.
    + apply H1. simpl. by rewrite lookup_alter_ne.
  - intros Hk. apply H2. simpl. destruct (decide (lease_key l = k)) as [->|Hne].
    + by rewrite lookup_alter_eq, Hk.
    + by rewrite lookup_alter_ne.
Qed.

Lemma expire_fresh now id c :
  distributed_leases c !! id = None → distributed_leases (expire_at_once now c) !! id = None.
Proof.
  unfold expire_at_once. generalize (expired_rows now c) as rows. intros rows. revert c.
  induction rows as [|[j l] rows IH]; intros c Hf; simpl; [done|]. apply IH. simpl.
  rewrite lookup_alter. case_decide; [subst; by rewrite Hf|done].
Qed.

(** The run's rows are those of its macro's steps, with their dependencies. *)
Definition rows_of (m : BatchedMacroRequest) (rid : string) (c : coordinator) : Prop :=
  ∀ sid row, distributed_steps c !! (rid, sid) = Some row →
    ∃ step, step ∈ steps m ∧ step_id step = sid ∧ ds_depends_on row = _extract_dependencies (arguments step).

(** No reference repeats the marker: [value.replace] removes all of them. *)
Definition one_marker (m : BatchedMacroRequest) : Prop :=
  ∀ step k t, step ∈ steps m → (k, PStr ("$step:" +:+ t)) ∈ arguments step → remove_marker 0 t = t.

Definition has_output (row : dist_step) : Prop :=
  ds_status row = Completed ∧ ∃ pid, ds_output_pointer_id row = Some pid ∧ pid ≠ "".

(** A step of the run that no worker can be given: it has failed, or an answer
    it needs cannot come - from a name that is no step of the run, from a step
    that completed with no output, or from a step that is itself blocked. *)
Inductive blocked (c : coordinator) (rid : string) : string → Prop :=
  | bl_failed sid row :
      distributed_steps c !! (rid, sid) = Some row → ds_status row = Failed → blocked c rid sid
  | bl_no_step sid row d :
      distributed_steps c !! (rid, sid) = Some row → d ∈ ds_depends_on row →
      distributed_steps c !! (rid, d) = None → blocked c rid sid
  | bl_no_output sid row d drow :
      distributed_steps c !! (rid, sid) = Some row → d ∈ ds_depends_on row →
      distributed_steps c !! (rid, d) = Some drow → ds_status drow = Completed → ¬ has_output drow → blocked c rid sid
  | bl_waits sid row d :
      distributed_steps c !! (rid, sid) = Some row → d ∈ ds_depends_on row → blocked c rid d → blocked c rid sid.

Lemma extracted_reference arguments d :
  d ∈ _extract_dependencies arguments → d ≠ "" ∧
  ∃ k t, (k, PStr ("$step:" +:+ t)) ∈ arguments ∧ d = ref_head (remove_marker 0 t).
Proof.
  unfold _extract_dependencies. rewrite elem_of_sorted_set, elem_of_list_to_set, list_elem_of_filter, list_elem_of_omap.
  intros (Hne & v & Hv & Hd). split; [done|]. apply list_elem_of_fmap in Hv as ([k v'] & -> & Hin). simpl in Hd, Hin.
  destruct v' as [| | | |text| |]; try done. simpl in Hd. destruct (py_startswith text "$step:") eqn:Hs; [|done].
  apply py_startswith_spec in Hs as [t ->]. exists k, t. split; [done|]. by injection Hd as <-.
Qed.

Lemma extracted_depends m step d :
  macro_wf m → one_marker m → step ∈ steps m → d ∈ _extract_dependencies (arguments step) → d ∈ step_ids m →
  depends m d (step_id step).
Proof.
  intros Hwf Hone Hstep (Hne & k & t & Hin & ->)%extracted_reference Hd.
  rewrite (Hone step k t Hstep Hin) in *. split; [done|]. exists step. split; [done|]. left. split; [done|].
  exists k, (PStr ("$step:" +:+ t)). split; [done|]. simpl. unfold string_reference.
  replace (strip_prefix "$step:" ("$step:" +:+ t)) with (Some t) by (symmetry; by apply strip_prefix_Some).
  rewrite decide_False; [by apply elem_of_singleton|]. intros ->. by apply Hne.
Qed.

(** A queued row of the run that is not claimed lacks an answer. *)
Lemma unclaimed now rid c sid row :
  distributed_steps c !! (rid, sid) = Some row → due now row = true →
  claimable now (_completed_pointer_map rid c) row = false →
  ∃ d, d ∈ ds_depends_on row ∧ _completed_pointer_map rid c !! d = None.
Proof.
  intros _ Hdue. unfold claimable. rewrite Hdue. intros Hs.
  destruct (decide (Exists (λ d, _completed_pointer_map rid c !! d = None) (ds_depends_on row))) as [He|He].
  - by apply Exists_exists in He.
  - apply not_true_iff_false in Hs. destruct Hs. apply forallb_forall. intros d Hd. apply bool_decide_eq_true, not_eq_None_Some.
    intros Hn. apply He, Exists_exists. exists d. split; [|done]. by apply list_elem_of_In.
Qed.

(** An open row of a run whose leases have run out is queued once they are
    expired, and is due. *)
Lemma open_row_queued now rid c sid row :
  leased c →
  (∀ sid row t, distributed_steps c !! (rid, sid) = Some row → ds_status row = Queued →
     next_attempt_at_utc row = Some t → (t <= now)%Z) →
  (∀ id l, active c id l → ls_run_id l = rid → (lease_expires_at_utc l <= now)%Z) →
  distributed_steps c !! (rid, sid) = Some row → ds_status row ≠ Completed → ds_status row ≠ Failed →
  ∃ row1, distributed_steps (expire_at_once now c) !! (rid, sid) = Some row1 ∧ ds_status row1 = Queued ∧
    ds_depends_on row1 = ds_depends_on row ∧ due now row1 = true.
Proof.
  intros Hl Hdue Hexp Hrow Hc Hf.
  destruct (expire_list_row now (expired_rows now c) c (rid, sid)) as [H1 _].
  destruct (H1 row Hrow) as (row1 & Hrow1 & Hcase). exists row1. split; [done|].
  assert (ds_status row1 ≠ Started) as Hns.
  { eapply given_back; [exact Hl| |exact Hrow1]. intros id l Hact Hkey. apply (Hexp id l Hact).
    unfold lease_key in Hkey. by injection Hkey. }
  assert (due now row = true ∨ ds_status row = Started) as Hd.
  { destruct (ds_status row) eqn:Hst; [left|by right|done..]. unfold due.
    destruct (next_attempt_at_utc row) as [t|] eqn:Ht; [|done]. apply Z.leb_le. by eapply Hdue. }
  unfold requeue in Hcase. destruct (decide (ds_status row = Started)) as [Hst|Hst]; destruct Hcase as [-> | ->]; try done.
  - split_and!; [done..|]. unfold due. simpl. apply Z.leb_refl.
  - destruct Hd as [Hd|]; [|done]. destruct (ds_status row); done.
  - destruct Hd as [Hd|]; [|done]. destruct (ds_status row); done.
Qed.

(** C12: however clients' calls have interleaved, runs enqueued anew and dead
    workers included: if the rows of a run are those of a valid macro (no
    reference of which repeats the marker [$step:]), its queued rows are due and
    the leases on it have run out, then the next call of [claim_work], with room
    for a step, lease identifiers that are new and nobody acting during it,
    hands out a step, or every open step of the run is [blocked]: it has failed,
    or it needs an answer that cannot come, from a name that is no step of the
    run, from a step that completed with no output, or from a blocked step.  So
    the queue strands a run only when it has failed or asks for such an
    answer. *)
Theorem queue_progress m rid s worker capacity now clock fresh :
  rtc (client_step ttl) no_clients s → macro_wf m → one_marker m → rows_of m rid (database s) →
  (∀ sid row t, distributed_steps (database s) !! (rid, sid) = Some row → ds_status row = Queued →
     next_attempt_at_utc row = Some t → (t <= now)%Z) →
  (∀ id l, active (database s) id l → ls_run_id l = rid → (lease_expires_at_utc l <= now)%Z) →
  Inj (=) (=) fresh → (∀ n, distributed_leases (database s) !! fresh n = None) → (0 < capacity)%Z →
  (∃ c' cl out, alone (claim_work ttl worker capacity now clock fresh) (database s) = (c', Ok (cl :: out))) ∨
  (∀ sid row, distributed_steps (database s) !! (rid, sid) = Some row → ds_status row ≠ Completed →
     blocked (database s) rid sid).
Proof.
  intros Hr Hwf Hone Hrows Hdue Hexp Hinj Hfresh Hcap.
  destruct (clients_reachable ttl _ _ no_clients_ok Hr) as [[Hl _] _].
  set (c := database s) in *. set (c1 := expire_at_once now c).
  destruct (claim_rows_some worker capacity now clock fresh c1 (queued_rows c1) Hinj [] c1)
    as (c' & out & Hout & _ & Hmore); [intros n _; by apply expire_fresh|].
  destruct out as [|cl out]; [right|left; exists c', cl, out].
  2: { rewrite alone_claim_work. unfold claim_at_once. destruct (Z.leb_spec capacity 0); [lia|].
       unfold mbind, stm_bind, st_modify, st_get, transaction. fold c1. by rewrite Hout. }
  enough (∀ sid, sid ∈ step_ids m → ∀ row, distributed_steps c !! (rid, sid) = Some row →
    ds_status row ≠ Completed → blocked c rid sid) as Hall.
  { intros sid row Hrow. destruct (Hrows sid row Hrow) as (step & Hstep & <- & _).
    apply Hall; [|done]. apply elem_of_step_ids. eauto. }
  refine (depends_ind m (λ sid, ∀ row, distributed_steps c !! (rid, sid) = Some row → ds_status row ≠ Completed → blocked c rid sid) Hwf _).
  intros sid _ IH row Hrow Hopen.
  destruct (decide (ds_status row = Failed)) as [Hf|Hf]; [by eapply bl_failed|].
  destruct (open_row_queued now rid c sid row Hl Hdue Hexp Hrow Hopen Hf) as (row1 & Hrow1 & Hq & Hdeps & Hdue1).
  destruct (unclaimed now rid c1 sid row1 Hrow1 Hdue1) as (d & Hd & Hnone).
  { apply not_true_iff_false. intros Hclaim. apply (Nat.lt_irrefl 0), Hmore; [|simpl; lia].
    exists (rid, sid), row1. split; [|done]. by apply (queued_rows_spec c1). }
  rewrite Hdeps in Hd. destruct (distributed_steps c !! (rid, d)) as [drow|] eqn:Hdrow; [|by eapply bl_no_step].
  destruct (decide (ds_status drow = Completed)) as [Hcomp|Hcomp].
  - eapply bl_no_output; [exact Hrow|exact Hd|exact Hdrow|done|]. intros (_ & pid & Hpid & Hne).
    rewrite (proj2 (completed_pointer c1 rid d pid)) in Hnone; [done|]. exists drow. split; [|done].
    apply expire_list_steps; [done|]. congruence.
  - eapply bl_waits; [exact Hrow|exact Hd|]. destruct (Hrows sid row Hrow) as (step & Hstep & <- & He).
    rewrite He in Hd. eapply IH; [|exact Hdrow|done]. apply extracted_depends; try done.
    destruct (Hrows d drow Hdrow) as (dstep & Hdstep & <- & _). apply elem_of_step_ids. eauto.
Qed.
End guarantees.

(** ** The worker loop *)

Lemma claim_rows_nil ttl worker capacity now clock fresh committed rows : ∀ claims c c',
  claim_rows ttl worker capacity now clock fresh committed rows claims c = (c', Ok []) → c' = c.
Proof.
  assert (∀ rows claims c c' out, claim_rows ttl worker capacity now clock fresh committed rows claims c = (c', Ok out) →
    length claims ≤ length out) as Hlen.
  { clear. induction rows as [|[k s] rows IH]; intros claims c c' out; cbn [claim_rows fst snd]; [by intros [= <- <-]|].
    destruct (_ <=? _)%Z; [by intros [= <- <-]|]. destruct (claimable _ _ _); [|apply IH].
    intros (c1 & cl & _ & Hrest)%st_bind_Ok. apply IH in Hrest. rewrite length_app in Hrest. lia. }
  induction rows as [|[k s] rows IH]; intros claims c c'; cbn [claim_rows fst snd]; [by intros [= <- _]|].
  destruct (_ <=? _)%Z; [by intros [= <- _]|]. destruct (claimable _ _ _); [|apply IH].
  intros (c1 & cl & _ & Hrest)%st_bind_Ok. apply Hlen in Hrest. rewrite length_app in Hrest. simpl in Hrest. lia.
Qed.

Lemma expire_started now c k s :
  distributed_steps (expire_at_once now c) !! k = Some s → ds_status s = Started →
  distributed_steps c !! k = Some s.
Proof.
  unfold expire_at_once.
  generalize (expired_rows now c) as rows.
  intros rows. revert c. induction rows as [|[id l] rows IH]; intros c; simpl; [done|].
  intros Hk Hs. specialize (IH _ Hk Hs). simpl in IH. destruct (decide (lease_key l = k)) as [Heq|Hne].
  - rewrite Heq, lookup_alter_eq in IH. apply fmap_Some in IH as (s' & _ & ->). by destruct (requeue_not_started now s').
  - by rewrite lookup_alter_ne in IH.
Qed.

Section worker.
Context {S : Type} `{PointerStoreBackend S} {func : Type}.
Context (float_repr : Q → string) (getsizeof : pyval → Z).
Context (registry : ToolRegistry.registry (func := func)).
Context (call : func → list (string * pyval) → result pyval) (ttl : Z).
Abbreviation turn := (worker_turn float_repr getsizeof registry call ttl (S := S)).

Lemma alone_on_coordinator {A} (p : prog coordinator A) (w : worker_state (S := S)) :
  alone (on_coordinator p) w =
  ({| ws_coordinator := (alone p (ws_coordinator w)).1; ws_manager := ws_manager w |}, (alone p (ws_coordinator w)).2).
Proof. unfold on_coordinator. rewrite alone_on_part; [done..|by intros []]. Qed.

Lemma alone_on_manager {A} (m : stm (state_manager S) A) (w : worker_state (S := S)) :
  alone (on_manager m) w =
  ({| ws_coordinator := ws_coordinator w; ws_manager := (m (ws_manager w)).1 |}, (m (ws_manager w)).2).
Proof. unfold on_manager. cbn. by destruct (m (ws_manager w)). Qed.

Lemma alone_worker_turn worker t w :
  alone (turn worker t) w =
  match claim_at_once ttl worker 1 (mo_claim t) (mo_claim t) (mo_lease t) (ws_coordinator w) with
  | (c, Raise e) => ({| ws_coordinator := c; ws_manager := ws_manager w |}, Raise e)
  | (c, Ok []) => ({| ws_coordinator := c; ws_manager := ws_manager w |}, Ok tt)
  | (c, Ok (task :: _)) =>
      match run_task float_repr getsizeof registry call worker (mo_done t) (mo_pointer t)
              (_completed_pointer_map (cl_run_id task) c) task (ws_manager w) with
      | (m, Ok pid) =>
          ({| ws_coordinator := (complete_at_once (cl_lease_id task) worker pid (mo_done t) c).1;
              ws_manager := m |}, Ok tt)
      | (m, Raise exc) =>
          ({| ws_coordinator := (fail_at_once (cl_lease_id task) worker (task_error worker task exc) 0 (mo_done t) c).1;
              ws_manager := m |}, Ok tt)
      end
  end.
Proof.
  unfold worker_turn. rewrite alone_bind. unfold mbind at 1, stm_bind. rewrite alone_on_coordinator, alone_claim_work.
  destruct (claim_at_once _ _ _ _ _ _ _) as [c [[|task tasks]|e]]; [done| |done]. cbn [fst snd].
  rewrite alone_bind. unfold mbind at 1, stm_bind. rewrite alone_on_coordinator. cbn [alone read atomically fst snd ws_coordinator ws_manager].
  rewrite alone_bind. unfold mbind at 1, stm_bind at 1. rewrite alone_attempt, alone_bind.
  unfold mbind at 1 3. unfold stm_bind. rewrite alone_on_manager. cbn [fst snd ws_coordinator ws_manager].
  destruct (run_task _ _ _ _ _ _ _ _ _ _) as [m [pid|exc]]; cbn [fst snd].
  - rewrite alone_on_coordinator. cbn [fst snd ws_coordinator ws_manager]. by rewrite alone_complete_lease.
  - rewrite alone_bind. unfold mbind, stm_bind. rewrite alone_on_coordinator. cbn [fst snd ws_coordinator ws_manager]. by rewrite alone_fail_lease.
Qed.

(** How a turn leaves the step it claimed. *)
Definition turn_outcome (s s' : dist_step) : Prop :=
  (ds_status s' = Completed ∧ is_Some (ds_output_pointer_id s')) ∨
  (is_Some (last_error s') ∧
   ds_status s' = if (ds_attempt s + 1 <? ds_max_attempts s)%Z then Queued else Failed).

(** A worker's turn hangs on to nothing: the state it leaves is one that
    the coordinator's operations reach; it works on at most one step, which
    ends up completed with an output, or with its error recorded and back in
    the queue exactly when attempts are left; and any step that is started
    afterwards was started before, by another worker. *)
Theorem worker_turn_settles worker t w w' :
  rtc (dstep ttl) empty_coordinator (ws_coordinator w) → alone (turn worker t) w = (w', Ok tt) →
  rtc (dstep ttl) empty_coordinator (ws_coordinator w') ∧
  (∀ k s', distributed_steps (ws_coordinator w') !! k = Some s' → ds_status s' = Started →
     distributed_steps (ws_coordinator w) !! k = Some s') ∧
  (ws_coordinator w' = expire_at_once (mo_claim t) (ws_coordinator w) ∨
   ∃ k s s', distributed_steps (expire_at_once (mo_claim t) (ws_coordinator w)) !! k = Some s ∧
     ds_status s = Queued ∧ distributed_steps (ws_coordinator w') !! k = Some s' ∧ turn_outcome s s').
Proof.
  intros Hr. pose proof (dsteps_inv ttl _ _ empty_inv Hr) as [Hi _]. rewrite alone_worker_turn.
  destruct w as [c m]. simpl in *. set (now := mo_claim t).
  destruct (claim_at_once ttl worker 1 now now (mo_lease t) c) as [c1 r] eqn:Hc.
  assert (dstep ttl c c1) as H01.
  { pose proof (dstep_op ttl (ClaimWork worker 1 now now (mo_lease t)) c I) as Hd. rewrite perform_eq, Hc in Hd. exact Hd. }
  pose proof (claim_work_spec ttl _ _ _ _ _ _ _ _ Hi Hc) as (Hi1 & _ & Hout).
  destruct r as [out|e]; [|done]. destruct (Hout out eq_refl) as (Hlen & _ & Hsame & Hgood).
  destruct out as [|task [|task2 out]]; [| |simpl in Hlen; lia].
  { intros [= <-]. simpl.
    assert (∀ k, distributed_steps c1 !! k = distributed_steps (expire_at_once now c) !! k) as Hs.
    { intros k. destruct (Hsame k); [by intros ?%elem_of_nil|lia|done]. }
    split_and!; [by eapply rtc_r| |].
    - intros k s' Hk Hst. rewrite Hs in Hk. by eapply expire_started.
    - left. revert Hc. unfold claim_at_once, mbind, stm_bind, st_modify, st_get, transaction. simpl.
      destruct (claim_rows _ _ _ _ _ _ _ _ [] _) as [c2 [out2|e2]] eqn:Hrows; [|done]. intros [= <- ->].
      by apply claim_rows_nil in Hrows. }
  apply Forall_cons in Hgood as [(s & Hs & Hq & [_ _ _ Hatt Hl Hst]) _].
  set (k := claim_key task) in *.
  assert (∀ f st c2, c2 = retire (cl_lease_id task) st k f c1 → (∀ s, ds_status (f s) ≠ Started) →
    ∀ k' s', distributed_steps c2 !! k' = Some s' → ds_status s' = Started → distributed_steps c !! k' = Some s') as Hback.
  { intros f st c2 -> Hf k' s' Hk' Hst'. simpl in Hk'. destruct (decide (k = k')) as [->|Hne].
    - rewrite lookup_alter_eq in Hk'. apply fmap_Some in Hk' as (s0 & _ & ->). by destruct (Hf s0).
    - rewrite lookup_alter_ne in Hk' by done. destruct (Hsame k') as [?|He]; [|lia|].
      { intros ->%list_elem_of_singleton. done. }
      rewrite He in Hk'. by eapply expire_started. }
  assert (lease_key (new_lease ttl worker now now k s) = k) as Hkey by (symmetry; apply surjective_pairing).
  destruct Hl as [Hl Ha].
  destruct (run_task _ _ _ _ _ _ _ _ _ m) as [m' [pid|exc]] eqn:Hrun; intros [= <-]; simpl.
  - assert (dstep ttl c1 (complete_at_once (cl_lease_id task) worker pid (mo_done t) c1).1) as H12
      by (rewrite <- (perform_eq ttl (CompleteLease (cl_lease_id task) worker pid (mo_done t))); by constructor).
    split; [by eapply rtc_r; [eapply rtc_r|]|]. revert H12. unfold complete_at_once. rewrite Hl. cbn [worker_id ls_status new_lease].
    rewrite !bool_decide_eq_false_2 by tauto. cbn [orb fst]. rewrite Hkey. intros _. split.
    + eapply Hback; [reflexivity|done].
    + right. eexists k, s, _. split_and!; [done|done|by simpl; rewrite lookup_alter_eq, Hst|]. left. split; [done|by eexists].
  - set (err := task_error worker task exc).
    assert (dstep ttl c1 (fail_at_once (cl_lease_id task) worker err 0 (mo_done t) c1).1) as H12
      by (rewrite <- (perform_eq ttl (FailLease (cl_lease_id task) worker err 0 (mo_done t))); by constructor).
    split; [by eapply rtc_r; [eapply rtc_r|]|]. revert H12. unfold fail_at_once. rewrite Hl. cbn [worker_id ls_status new_lease].
    rewrite !bool_decide_eq_false_2 by tauto. cbn [orb fst]. rewrite Hkey, Hst. intros _. split.
    + eapply Hback; [reflexivity|]. intros s0. simpl. by destruct (_ <? _)%Z.
    + right. eexists k, s, _. split_and!; [done|done|by simpl; rewrite lookup_alter_eq, Hst|]. right. split; [by eexists|done].
Qed.
End worker.

(** ** Concrete runs *)

Definition sample_error : ToolErrorPayload :=
  {| error_type := "tool_execution_error"; message := "boom"; err_step_id := "a"; err_tool_name := "fetch";
     details := None |}.
Definition lease_names (n : nat) : string := "lease_" +:+ pretty n.
Definition other_names (n : nat) : string := "other_" +:+ pretty n.
Definition queued_sample : coordinator := perform 30 (EnqueueMacro sample_macro "r" 0) empty_coordinator.
Definition claim_sample := alone (claim_work 30 "w1" 5 10 10 lease_names) queued_sample.
Definition claimed_sample : coordinator := claim_sample.1.
Definition claims_sample : list claim := match claim_sample.2 with Ok l => l | Raise _ => [] end.
Definition completed_sample : coordinator := perform 30 (CompleteLease "lease_0" "w1" "ptr_0" 11) claimed_sample.

Lemma queued_reach : rtc (dstep 30) empty_coordinator queued_sample.
Proof.
  apply rtc_once. apply (dstep_op 30 (EnqueueMacro sample_macro "r" 0)). intros sid. apply lookup_empty.
Qed.
Lemma claimed_reach : rtc (dstep 30) empty_coordinator claimed_sample.
Proof.
  eapply rtc_r; [apply queued_reach|].
  replace claimed_sample with (perform 30 (ClaimWork "w1" 5 10 10 lease_names) queued_sample); [by constructor|].
  apply alone_discard.
Qed.
Lemma completed_reach : rtc (dstep 30) claimed_sample completed_sample.
Proof. apply rtc_once. by constructor. Qed.

(** A schedule: who calls what, and which call under way acts next. *)
Inductive move := Call (op : dist_op) | Next (n : nat).
Definition make_move (ttl : Z) (s : clients) (mv : move) : clients :=
  match mv with
  | Call op => {| database := database s; under_way := op_prog ttl op :: under_way s |}
  | Next n =>
      match under_way s !! n with
      | Some (Act f) => {| database := (f (database s)).1; under_way := <[n := (f (database s)).2]> (under_way s) |}
      | _ => s
      end
  end.
Definition schedule (ttl : Z) (l : list move) : clients := foldl (make_move ttl) no_clients l.

Lemma make_move_step ttl s mv : rtc (client_step ttl) s (make_move ttl s mv).
Proof.
  destruct s as [c ps], mv as [op|n]; simpl; [apply rtc_once; constructor|].
  destruct (ps !! n) as [[r|f]|] eqn:Hn; [done| |done]. apply rtc_once.
  rewrite insert_take_drop by (by eapply lookup_lt_Some). rewrite <- (take_drop_middle ps n (Act f) Hn) at 1. constructor.
Qed.
Lemma schedule_reach ttl l : rtc (client_step ttl) no_clients (schedule ttl l).
Proof.
  unfold schedule. generalize no_clients as s. induction l as [|mv l IH]; intros s; [done|].
  simpl. etransitivity; [apply make_move_step|apply IH].
Qed.

(** Two workers that both read the queue before either has written. *)
Definition enqueue_moves : list move := [Call (EnqueueMacro sample_macro "r" 0); Next 0].
Definition overlap : clients := schedule 30
  (enqueue_moves ++
   [Call (ClaimWork "w1" 1 10 10 lease_names); Call (ClaimWork "w2" 1 10 10 other_names)] ++
   (Next <$> [1; 1; 1; 1; 0; 0; 0; 0; 1; 0])).

(** Both get the step, each with an active lease on it. *)
Example overlapping_claims :
  (λ l, (lease_key l, worker_id l, ls_status l)) <$> (distributed_leases (database overlap) !! "lease_0")
    = Some (("r", "a"), "w1", Active) ∧
  (λ l, (lease_key l, worker_id l, ls_status l)) <$> (distributed_leases (database overlap) !! "other_0")
    = Some (("r", "a"), "w2", Active).
Proof. vm_compute. done. Qed.

Lemma leases_hold_witness :
  (ds_status <$> distributed_steps (database overlap) !! ("r", "a")) = Some Started ∧
  (∃ id l, active (database overlap) id l ∧ lease_key l = ("r", "a")) ∧
  (ds_status <$> distributed_steps claimed_sample !! ("r", "a")) = Some Started ∧
  ∃ id l, active claimed_sample id l ∧ lease_key l = ("r", "a").
Proof.
  pose proof (leases_hold 30) as [Hoverlap Hserial]. split_and!; [vm_compute; reflexivity| |vm_compute; reflexivity|].
  - destruct (Hoverlap overlap overlap (schedule_reach 30 _) (rtc_refl _ _)) as [Hheld _].
    destruct (distributed_steps (database overlap) !! ("r", "a")) as [s|] eqn:Hs; [|exfalso; revert Hs; vm_compute; congruence].
    destruct (Hheld ("r", "a") s Hs) as (id & l & Hl & Hk & _); [|exact (ex_intro _ id (ex_intro _ l (conj Hl Hk)))].
    revert Hs. vm_compute. intros [= <-]. reflexivity.
  - destruct (distributed_steps claimed_sample !! ("r", "a")) as [s|] eqn:Hs; [|exfalso; revert Hs; vm_compute; congruence].
    apply (proj1 (proj2 (Hserial claimed_sample claimed_reach)) ("r", "a") s Hs).
    revert Hs. vm_compute. intros [= <-]. reflexivity.
Defined.

Definition completed_row : dist_step :=
  default {| ds_tool_name := ""; ds_arguments := []; ds_depends_on := []; ds_status := Queued;
             ds_attempt := 0; ds_max_attempts := 0; next_attempt_at_utc := None;
             ds_output_pointer_id := None; last_error := None; ds_updated_at_utc := 0 |}
    (distributed_steps completed_sample !! ("r", "a")).

Lemma distributed_outcomes_final_witness :
  distributed_steps (perform 30 (FailLease "lease_0" "w1" sample_error 0 12) completed_sample) !! ("r", "a") = Some completed_row ∧
  ds_output_pointer_id completed_row = Some "ptr_0".
Proof.
  split; [|vm_compute; reflexivity].
  apply (distributed_outcomes_final 30 completed_sample).
  - etransitivity; [apply claimed_reach|apply completed_reach].
  - apply rtc_once. by constructor.
  - vm_compute. reflexivity.
  - left. vm_compute. reflexivity.
Defined.

Lemma claims_are_ready_witness :
  (Z.of_nat (length claims_sample) <= 5)%Z ∧ (cl_step_id <$> claims_sample) = ["a"].
Proof.
  split; [|vm_compute; reflexivity].
  apply (claims_are_ready 30 "w1" 5 10 10 lease_names queued_sample claimed_sample claims_sample).
  - apply queued_reach.
  - vm_compute. reflexivity.
Defined.

Lemma lease_calls_guarded_witness :
  (alone (complete_lease "lease_0" "w2" "ptr_9" 11) claimed_sample).2 = Ok false ∧
  (alone (complete_lease "lease_0" "w2" "ptr_9" 11) claimed_sample).1 = claimed_sample.
Proof.
  assert ((alone (complete_lease "lease_0" "w2" "ptr_9" 11) claimed_sample).2 = Ok false) as Hf by (vm_compute; reflexivity).
  split; [exact Hf|].
  apply (lease_calls_guarded 30 "lease_0" "w2" 11 11 "ptr_9" sample_error 0 claimed_sample claimed_reach). intros E. discriminate (eq_trans (eq_sym Hf) E).
Defined.

(** The worker that held [a] has died; another asks after the lease ran out. *)
Definition dead_worker : clients := schedule 30
  (enqueue_moves ++ [Call (ClaimWork "w1" 5 10 10 lease_names)] ++ (Next <$> [0; 0; 0; 0; 0])).

Lemma dead_worker_rows : rows_of sample_macro "r" (database dead_worker).
Proof.
  assert (map_Forall (λ k row, bool_decide (k.2 = "a" ∧ ds_depends_on row = [] ∨ k.2 = "b" ∧ ds_depends_on row = ["a"]) = true)
    (distributed_steps (database dead_worker))) as Hall by (apply (bool_decide_unpack _); vm_compute; exact I).
  intros sid row Hrow. specialize (Hall _ _ Hrow). cbn beta in Hall. apply bool_decide_eq_true in Hall. cbn [snd] in Hall. destruct Hall as [[-> ->]|[-> ->]].
  - exists sample_a. split_and!; [left|done|vm_compute; reflexivity].
  - exists sample_b. split_and!; [right; left|done|vm_compute; reflexivity].
Qed.

Lemma queue_progress_witness :
  let again := claim_work 30 "w2" 1 100 100 other_names in
  (∃ cl, (alone again (database dead_worker)).2 = Ok [cl]) ∧
  ((∃ c' cl out, alone again (database dead_worker) = (c', Ok (cl :: out))) ∨
   (∀ sid row, distributed_steps (database dead_worker) !! ("r", sid) = Some row → ds_status row ≠ Completed →
      blocked (database dead_worker) "r" sid)).
Proof.
  split; [eexists; vm_compute; reflexivity|].
  apply (queue_progress 30 sample_macro "r" dead_worker "w2" 1 100 100 other_names).
  - apply schedule_reach.
  - apply sample_macro_wf.
  - intros step k t Hstep Hin. repeat (apply elem_of_cons in Hstep as [->|Hstep]); [| |by apply elem_of_nil in Hstep];
      repeat (apply elem_of_cons in Hin as [Hin|Hin]); try (by apply elem_of_nil in Hin); simplify_eq/=;
      match goal with E : _ = "a" |- _ => change (t = "a") in E; rewrite E; reflexivity end.
  - apply dead_worker_rows.
  - assert (map_Forall (λ _ s, match next_attempt_at_utc s with Some t => (t <=? 100)%Z | None => true end = true)
      (distributed_steps (database dead_worker))) as Hall by (apply (bool_decide_unpack _); vm_compute; exact I).
    intros sid s t Hk _ Ht. specialize (Hall _ s Hk). cbn beta in Hall. rewrite Ht in Hall. by apply Z.leb_le.
  - assert (map_Forall (λ _ l, (lease_expires_at_utc l <=? 100)%Z = true)
      (distributed_leases (database dead_worker))) as Hall by (apply (bool_decide_unpack _); vm_compute; exact I).
    intros id l [Hl _] _. apply Z.leb_le. exact (Hall id l Hl).
  - intros n1 n2 Heq. by simplify_eq/=.
  - intros n.
    destruct (distributed_leases (database dead_worker) !! other_names n) as [l|] eqn:Hl; [|done].
    assert (map_Forall (λ id _, py_startswith id "lease_" = true) (distributed_leases (database dead_worker))) as Hall
      by (apply (bool_decide_unpack _); vm_compute; exact I).
    exact (False_ind _ (diff_false_true (Hall _ l Hl))).
  - lia.
Defined.

Definition sample_moment : moment :=
  {| mo_claim := 10; mo_done := 12; mo_lease := lease_names; mo_pointer := "ptr_0" |}.
Definition turn_sample := alone (worker_turn (λ _, "0.5") (λ _, 49%Z) sample_registry (λ _ _, Ok (PStr "body")) 30 "w1"
  sample_moment) {| ws_coordinator := queued_sample; ws_manager := fresh_manager |}.

Lemma worker_turn_settles_witness :
  turn_sample.2 = Ok tt ∧
  (ds_status <$> distributed_steps (ws_coordinator turn_sample.1) !! ("r", "a")) = Some Completed ∧
  rtc (dstep 30) empty_coordinator (ws_coordinator turn_sample.1).
Proof.
  assert (turn_sample.2 = Ok tt) as Hok by (vm_compute; reflexivity).
  split_and!; [exact Hok|vm_compute; reflexivity|].
  apply (worker_turn_settles (λ _, "0.5") (λ _, 49%Z) sample_registry (λ _ _, Ok (PStr "body")) 30 "w1"
    sample_moment {| ws_coordinator := queued_sample; ws_manager := fresh_manager |}).
  - apply queued_reach.
  - rewrite <- Hok. apply surjective_pairing.
Defined.
