(* ===== verification/Text.v ===== *)
(** Standard-library texts the HTTP surface needs: [str.upper], percent
    decoding ([urllib.parse.unquote]) and the text of an instant
    ([datetime.isoformat] in UTC).

    A string is the list of its Latin-1 characters; where decoding yields a
    code point above 255 the substitute character [SUB] stands for it. *)
From stdpp Require Import options.
From S2P Require Import Prelude Values Json.
From Stdlib Require Ascii.

(** [str.upper] on ASCII letters; the program only compares the result with
    ASCII names. *)
Definition py_upper_char (c : ascii) : ascii :=
  let n := code c in
  if (97 <=? n) && (n <=? 122) then Ascii.ascii_of_nat (n - 32) else c.
Fixpoint py_upper (s : string) : string :=
  match s with EmptyString => EmptyString | String c s' => String (py_upper_char c) (py_upper s') end.

(** ** [unquote] *)

Definition SUB : ascii := Ascii.ascii_of_nat 26.

Definition hex_value (c : ascii) : option nat :=
  let n := code c in
  if (48 <=? n) && (n <=? 57) then Some (n - 48)
  else if (65 <=? n) && (n <=? 70) then Some (n - 55)
  else if (97 <=? n) && (n <=? 102) then Some (n - 87)
  else None.

(** A byte to decode, or a character that is already text: [unquote] decodes
    the runs of ASCII characters only. *)
Inductive quoted := Byte (n : nat) | Text (c : ascii).

Definition plain (c : ascii) : quoted := if code c <? 128 then Byte (code c) else Text c.

Fixpoint unquote_bytes (s : string) : list quoted :=
  match s with
  | EmptyString => []
  | String c s' =>
      match s' with
      | String a (String b s'') =>
          if decide (c = "%"%char) then
            match hex_value a, hex_value b with
            | Some m, Some n => Byte (16 * m + n) :: unquote_bytes s''
            | _, _ => plain c :: unquote_bytes s'
            end
          else plain c :: unquote_bytes s'
      | _ => plain c :: unquote_bytes s'
      end
  end.

(** A UTF-8 sequence under way: the bytes it still needs, the range the next
    one must be in, and the code point so far. *)
Record sequence := { missing : nat; low : nat; high : nat; point : nat }.

Definition lead (b : nat) : option sequence :=
  let seq m l h p := Some {| missing := m; low := l; high := h; point := p |} in
  if (194 <=? b) && (b <=? 223) then seq 1 128 191 (b - 192)
  else if b =? 224 then seq 2 160 191 0
  else if b =? 237 then seq 2 128 159 13
  else if (225 <=? b) && (b <=? 239) then seq 2 128 191 (b - 224)
  else if b =? 240 then seq 3 144 191 0
  else if (241 <=? b) && (b <=? 243) then seq 3 128 191 (b - 240)
  else if b =? 244 then seq 3 128 143 4
  else None.

Definition character (point : nat) : ascii := if point <? 256 then Ascii.ascii_of_nat point else SUB.

(** [bytes.decode("utf-8", "replace")]: an ill-formed sequence gives one
    replacement character for its longest valid start. *)
Fixpoint decode_utf8 (pending : option sequence) (l : list quoted) : string :=
  let flush s := match pending with Some _ => String SUB s | None => s end in
  match l with
  | [] => flush ""
  | Text c :: l => flush (String c (decode_utf8 None l))
  | Byte b :: l =>
      let start :=
        if b <? 128 then String (Ascii.ascii_of_nat b) (decode_utf8 None l)
        else match lead b with
             | Some q => decode_utf8 (Some q) l
             | None => String SUB (decode_utf8 None l)
             end in
      match pending with
      | None => start
      | Some q =>
          if (low q <=? b) && (b <=? high q) then
            let p := 64 * point q + (b - 128) in
            if missing q =? 1 then String (character p) (decode_utf8 None l)
            else decode_utf8 (Some {| missing := missing q - 1; low := 128; high := 191; point := p |}) l
          else String SUB start
      end
  end.

(** [unquote(s)] *)
Definition unquote (s : string) : string := decode_utf8 None (unquote_bytes s).

Example unquote_examples :
  unquote "/v1/a%2Fb%20c" = "/v1/a/b c" ∧ unquote "100%" = "100%" ∧ unquote "%zz%4" = "%zz%4" ∧
  unquote "%C3%A9" = String (Ascii.ascii_of_nat 233) "" ∧
  unquote "%E2%82%ACx%FF%C3" = String SUB (String "x" (String SUB (String SUB ""))).
Proof. split_and!; vm_compute; reflexivity. Qed.

Lemma plain_text s :
  Forall (λ c, c ≠ "%"%char) (String.list_ascii_of_string s) →
  unquote_bytes s = plain <$> String.list_ascii_of_string s.
Proof.
  induction s as [|c s IH]; [done|]. intros [Hc Hs]%Forall_cons.
  transitivity (plain c :: unquote_bytes s); [|by rewrite IH].
  destruct s as [|a [|b s]]; try done. simpl. by rewrite decide_False.
Qed.

(** A text without escapes is itself. *)
Lemma unquote_plain s :
  Forall (λ c, c ≠ "%"%char) (String.list_ascii_of_string s) → unquote s = s.
Proof.
  intros Hs. unfold unquote. rewrite (plain_text s Hs). clear Hs.
  induction s as [|c s IH]; [done|]. cbn [String.list_ascii_of_string fmap list_fmap].
  unfold plain at 1. destruct (code c <? 128) eqn:Hc.
  - cbn [decode_utf8]. rewrite Hc, IH. f_equal. apply Ascii.ascii_nat_embedding.
  - cbn [decode_utf8]. by rewrite IH.
Qed.

(** ** [isoformat] *)

(** Decimal digits, with leading zeros. *)
Fixpoint digits (width : nat) (n : Z) : string :=
  match width with
  | O => ""
  | Datatypes.S w => digits w (n / 10) +:+ String (Ascii.ascii_of_nat (48 + Z.to_nat (n mod 10))) ""
  end.

(** The date of a day, counted from 1970-01-01: the year and the day of a
    calendar that starts in March, shifted back. *)
Definition civil (days : Z) : Z * Z * Z :=
  let z := (days + 719468)%Z in
  let era := (z / 146097)%Z in
  let doe := (z mod 146097)%Z in
  let yoe := ((doe - doe / 1460 + doe / 36524 - doe / 146096) / 365)%Z in
  let doy := (doe - (365 * yoe + yoe / 4 - yoe / 100))%Z in
  let mp := ((5 * doy + 2) / 153)%Z in
  let day := (doy - (153 * mp + 2) / 5 + 1)%Z in
  let month := (if mp <? 10 then mp + 3 else mp - 9)%Z in
  let year := (yoe + era * 400 + if month <=? 2 then 1 else 0)%Z in
  (year, month, day).

(** [isoformat()] of an instant, in microseconds since the epoch. *)
Definition isoformat (t : Z) : string :=
  let '(year, month, day) := civil (t / 86400000000) in
  let us := (t mod 86400000000)%Z in
  let s := (us / 1000000)%Z in
  let fraction := (us mod 1000000)%Z in
  digits 4 year +:+ "-" +:+ digits 2 month +:+ "-" +:+ digits 2 day +:+ "T" +:+
  digits 2 (s / 3600) +:+ ":" +:+ digits 2 (s / 60 mod 60) +:+ ":" +:+ digits 2 (s mod 60) +:+
  (if (fraction =? 0)%Z then "" else "." +:+ digits 6 fraction) +:+ "+00:00".

Example isoformat_examples :
  isoformat 0 = "1970-01-01T00:00:00+00:00" ∧
  isoformat 1709210096000250 = "2024-02-29T12:34:56.000250+00:00" ∧
  isoformat 1735689599999999 = "2024-12-31T23:59:59.999999+00:00" ∧
  isoformat (-1) = "1969-12-31T23:59:59.999999+00:00".
Proof. split_and!; vm_compute; reflexivity. Qed.
