(* ===== verification/Url.v ===== *)
(** URLs and network addresses, as far as the program uses Python's
    [urllib.parse.urlparse] and [ipaddress]: the scheme, authority, host and
    port of a text of code points below 256, and the classes of an address (the
    networks are those of CPython 3.10 to 3.12.3).  The check of a bracketed
    host and [urljoin] are parameters of what uses them. *)
From stdpp Require Import options.
From S2P Require Import Prelude Values Json.
Unset Default Proof Using.

(** ** [urlparse] *)

Record url_parts := { scheme : string; netloc : string }.

Fixpoint string_filter (p : ascii → bool) (s : string) : string :=
  match s with "" => "" | String c s => if p c then String c (string_filter p s) else string_filter p s end.
Fixpoint lstrip_controls (s : string) : string :=
  match s with String c s' => if code c <=? 32 then lstrip_controls s' else s | _ => "" end.
Definition char_of (n : nat) : ascii := Ascii.ascii_of_nat n.

Definition in_range (lo hi : nat) (c : ascii) : bool := (lo <=? code c) && (code c <=? hi).
Definition ascii_letter (c : ascii) : bool := in_range 65 90 c || in_range 97 122 c.
Definition scheme_char (c : ascii) : bool := ascii_letter c || in_range 48 57 c || existsb (Nat.eqb (code c)) [43; 45; 46].

(** [url.find(':')] splits off a scheme when it is one. *)
Definition split_scheme (url : string) : string * string :=
  match py_partition ":"%char url with
  | (String c s, Some rest) =>
      if ascii_letter c && forallb scheme_char (String.list_ascii_of_string (String c s)) then (py_lower (String c s), rest) else ("", url)
  | _ => ("", url)
  end.

(** [_splitnetloc]: up to the first of [/?#]. *)
Fixpoint before_any (stops : list nat) (s : string) : string :=
  match s with
  | "" => ""
  | String c s => if existsb (Nat.eqb (code c)) stops then "" else String c (before_any stops s)
  end.

Definition invalid_ipv6 : exn := value_error "Invalid IPv6 URL".

Section parse.
(** The check of what is between brackets ([_check_bracketed_netloc]). *)
Context (check_bracketed_netloc : string → result unit).

Definition urlparse (url : string) : result url_parts :=
  let url := string_filter (λ c, negb (existsb (Nat.eqb (code c)) [9; 10; 13])) (lstrip_controls url) in
  let '(scheme, rest) := split_scheme url in
  match strip_prefix "//" rest with
  | None => Ok {| scheme := scheme; netloc := "" |}
  | Some rest =>
      let netloc := before_any [47; 63; 35] rest in
      let opens := has_char 91 netloc in
      let closes := has_char 93 netloc in
      _ ← raise_if (negb (eqb opens closes)) invalid_ipv6;
      _ ← (if opens && closes then check_bracketed_netloc netloc else Ok tt);
      Ok {| scheme := scheme; netloc := netloc |}
  end.
End parse.

(** [netloc.rpartition('@')[2]] *)
Definition after_last_at (netloc : string) : string := default netloc (last (py_split "@"%char netloc)).

(** [_hostinfo]: the host and the text of the port. *)
Definition hostinfo (netloc : string) : string * option string :=
  let info := after_last_at netloc in
  let '(hostname, port) :=
    match py_partition "["%char info with
    | (_, Some bracketed) =>
        let '(hostname, rest) := py_partition "]"%char bracketed in
        (hostname, (py_partition ":"%char (default "" rest)).2)
    | (_, None) => py_partition ":"%char info
    end in
  (hostname, match port with Some "" => None | _ => port end).

(** [hostname]: lower case, but for a zone. *)
Definition hostname (p : url_parts) : option string :=
  match (hostinfo (netloc p)).1 with
  | "" => None
  | h => Some (match py_partition "%"%char h with
               | (name, Some zone) => py_lower name +:+ "%" +:+ zone
               | (name, None) => py_lower name
               end)
  end.

(** [port] *)
Definition port (p : url_parts) : result (option Z) :=
  match (hostinfo (netloc p)).2 with
  | None => Ok None
  | Some text =>
      _ ← raise_if (negb (forallb (in_range 48 57) (String.list_ascii_of_string text)))
            (value_error ("Port could not be cast to integer value as " +:+ repr_str text));
      let n := default 0%Z (int_of_str text) in
      _ ← raise_if (negb ((0 <=? n)%Z && (n <=? 65535)%Z)) (value_error "Port out of range 0-65535");
      Ok (Some n)
  end.

(** ** [ipaddress] *)

Inductive address := IPv4 (n : Z) | IPv6 (n : Z).
#[export] Instance address_eq_dec : EqDecision address.
Proof. solve_decision. Defined.

(** [address in network] for a network of [width]-bit addresses. *)
Definition in_network (width n base prefix : Z) : bool := (Z.shiftr n (width - prefix) =? Z.shiftr base (width - prefix))%Z.
Definition v4 (a b c d : Z) : Z := (((a * 256 + b) * 256 + c) * 256 + d)%Z.
(** The first 32 bits of an IPv6 address. *)
Definition v6 (a b : Z) : Z := Z.shiftl (a * 65536 + b) 96.

Definition v4_any (n : Z) (networks : list (Z * Z)) : bool := existsb (λ net, in_network 32 n net.1 net.2) networks.
Definition v6_any (n : Z) (networks : list (Z * Z)) : bool := existsb (λ net, in_network 128 n net.1 net.2) networks.

Definition is_private (a : address) : bool :=
  match a with
  | IPv4 n => v4_any n
      [(v4 0 0 0 0, 8); (v4 10 0 0 0, 8); (v4 127 0 0 0, 8); (v4 169 254 0 0, 16); (v4 172 16 0 0, 12); (v4 192 0 0 0, 29);
       (v4 192 0 0 170, 31); (v4 192 0 2 0, 24); (v4 192 168 0 0, 16); (v4 198 18 0 0, 15); (v4 198 51 100 0, 24);
       (v4 203 0 113 0, 24); (v4 240 0 0 0, 4); (v4 255 255 255 255, 32)]%Z
  | IPv6 n => v6_any n
      [(1, 128); (0, 128); (Z.shiftl 65535 32, 96); (v6 256 0, 64); (v6 8193 0, 23); (v6 8193 2, 48); (v6 8193 3512, 32);
       (v6 8193 16, 28); (v6 64512 0, 7); (v6 65152 0, 10)]%Z
  end.
Definition is_loopback (a : address) : bool :=
  match a with IPv4 n => in_network 32 n (v4 127 0 0 0) 8 | IPv6 n => (n =? 1)%Z end.
Definition is_link_local (a : address) : bool :=
  match a with IPv4 n => in_network 32 n (v4 169 254 0 0) 16 | IPv6 n => in_network 128 n (v6 65152 0) 10 end.
Definition is_reserved (a : address) : bool :=
  match a with
  | IPv4 n => in_network 32 n (v4 240 0 0 0) 4
  | IPv6 n => v6_any n
      [(v6 0 0, 8); (v6 256 0, 8); (v6 512 0, 7); (v6 1024 0, 6); (v6 2048 0, 5); (v6 4096 0, 4); (v6 16384 0, 3); (v6 24576 0, 3);
       (v6 32768 0, 3); (v6 40960 0, 3); (v6 49152 0, 3); (v6 57344 0, 4); (v6 61440 0, 5); (v6 63488 0, 6); (v6 65024 0, 9)]%Z
  end.
Definition is_multicast (a : address) : bool :=
  match a with IPv4 n => in_network 32 n (v4 224 0 0 0) 4 | IPv6 n => in_network 128 n (v6 65280 0) 8 end.
