(* ===== verification/WebTools.v ===== *)
(** The web tools ([eap/environment/tools/web_tools.py]): checking a URL before
    each request, following redirects, reading a bounded body, and the three
    tools built on it.

    What the outside answers depends on when it is asked: the network is given
    by the number of calls made so far, and the calls are kept in a trace.  A
    socket address is its number, with its text as a parameter; the HTML parser,
    codecs, [urljoin] and the JSON parser are parameters. *)
From stdpp Require Import options.
From S2P Require Import Prelude Values Json CanonicalJson Url.
Unset Default Proof Using.

Definition DEFAULT_MAX_REDIRECTS : nat := 5.
(** [_CGNAT_NETWORK] *)
Definition in_cgnat (a : address) : bool := match a with IPv4 n => in_network 32 n (v4 100 64 0 0) 10 | IPv6 _ => false end.

Record response := {
  is_redirect : bool;
  location : option string;
  raise_for_status : result unit;
  encoding : option string;
  iter_content : list (result string)
}.

(** The outside, at each number of calls made. *)
Record network := {
  monotonic : nat → Q;
  getaddrinfo : nat → string → option Z → result (list address);
  get : nat → string → list (string * string) → result response
}.

Inductive event :=
  | LookedUp (host : string) (port : option Z) (addresses : list address)
  | Fetched (url : string)
  | Closed (url : string).

Record web := { tick : nat; trace : list event }.

(** A page: its text without scripts and styles, and its anchors. *)
Record page := { page_text : string; anchors : list (string * string) }.

Definition gaierror : exn_class := OtherError "gaierror".
Definition timeout_error (m : string) : exn := Exn (OtherError "TimeoutError") m.

Section web_tools.
Context (check_bracketed_netloc : string → result unit) (urljoin : string → string → result string) (address_text : address → string).
Context (decode : string → string → result string) (json_loads : string → result pyval) (parse_html : string → page).
Context (float_repr : Q → string).
(** [EAP_WEB_TOOL_HOST_ALLOWLIST], and the outside. *)
Context (host_allowlist_env : string) (net : network).

Abbreviation M := (stm web).

(** A call to the outside. *)
Definition call {A} (f : nat → result A) (e : A → list event) : M A := λ s,
  match f (tick s) with
  | Raise x => ({| tick := S (tick s); trace := trace s |}, Raise x)
  | Ok a => ({| tick := S (tick s); trace := trace s ++ e a |}, Ok a)
  end.
Definition now : M Q := call (λ n, Ok (monotonic net n)) (λ _, []).

Fixpoint rstrip_dots (s : string) : string :=
  match s with
  | "" => ""
  | String c s => match rstrip_dots s with "" => if code c =? 46 then "" else String c "" | r => String c r end
  end.

(** [_normalize_host] *)
Definition _normalize_host (host : string) : string := rstrip_dots (py_lower (py_strip host)).

(** [_load_host_allowlist] *)
Definition _load_host_allowlist (extra_allowlist : option (list string)) : list string :=
  (_normalize_host <$> List.filter (λ h, negb (py_blank h)) (py_split ","%char host_allowlist_env)) ++
  (_normalize_host <$> List.filter (λ h, negb (py_blank h)) (default [] extra_allowlist)).

(** [_is_unsafe_ip] *)
Definition _is_unsafe_ip (a : address) : bool :=
  is_private a || is_loopback a || is_link_local a || is_reserved a || is_multicast a || in_cgnat a.

(** The host a URL is checked for, or why it is refused. *)
Definition url_host (url : string) : result (url_parts * string) :=
  parsed ← urlparse check_bracketed_netloc url;
  match hostname parsed with
  | Some h =>
      _ ← raise_if (negb (bool_decide (scheme parsed = "http") || bool_decide (scheme parsed = "https")) || bool_decide (netloc parsed = ""))
            (value_error ("Invalid URL '" +:+ url +:+ "'. URL must include http/https scheme and host."));
      Ok (parsed, _normalize_host h)
  | None => Raise (value_error ("Invalid URL '" +:+ url +:+ "'. URL must include http/https scheme and host."))
  end.

(** [socket.getaddrinfo], a failed lookup refused. *)
Definition resolve (host : string) (port : option Z) : M (list address) := λ s,
  match call (λ n, getaddrinfo net n host port) (λ addresses, [LookedUp host port addresses]) s with
  | (s, Raise e) =>
      (s, Raise (if decide (exn_cls e = gaierror) then value_error ("URL host '" +:+ host +:+ "' could not be resolved safely.") else e))
  | r => r
  end.

Definition allowed (allowlist : list string) (a : address) : bool := bool_decide (address_text a ∈ allowlist) || negb (_is_unsafe_ip a).

(** [_validate_safe_url] *)
Definition _validate_safe_url (url : string) (host_allowlist : option (list string)) : M unit :=
  '(parsed, host) ← st_lift (url_host url);
  let allowlist := _load_host_allowlist host_allowlist in
  if bool_decide (host ∈ allowlist) then mret tt else
  port ← st_lift (port parsed);
  addresses ← resolve host port;
  st_raise_if (bool_decide (addresses = [])) (value_error ("URL host '" +:+ host +:+ "' did not resolve to any address."));;
  match List.find (λ a, negb (allowed allowlist a)) addresses with
  | Some a =>
      st_raise (value_error ("URL host '" +:+ host +:+ "' resolved to disallowed address '" +:+ address_text a +:+ "'."))
  | None => mret tt
  end.

(** [_response_text] *)
Definition _response_text (r : response) (body_bytes : string) : result string := decode (str_or (encoding r) "utf-8") body_bytes.

(** [_read_streaming_body] *)
Fixpoint _read_streaming_body (chunks : list (result string)) (body : string) (max_bytes : Z) (deadline : Q) : M string :=
  match chunks with
  | [] => mret body
  | chunk :: chunks =>
      chunk ← st_lift chunk;
      t ← now;
      st_raise_if (negb (Qle_bool t deadline)) (timeout_error "Response body streaming exceeded timeout_seconds budget.");;
      if decide (chunk = "") then _read_streaming_body chunks body max_bytes deadline else
      let body := body +:+ chunk in
      st_raise_if (max_bytes <? Z.of_nat (String.length body))%Z (value_error ("Response body exceeds max_bytes=" +:+ pretty max_bytes +:+ "."));;
      _read_streaming_body chunks body max_bytes deadline
  end.

(** [finally: response.close()] *)
Definition closing {A} (url : string) (body : M A) : M A := λ s,
  let '(s, r) := body s in ({| tick := tick s; trace := trace s ++ [Closed url] |}, r).

Definition too_many_redirects (url : string) : exn := value_error ("Too many redirects fetching URL '" +:+ url +:+ "'.").

(** The loop; an iteration ends in the text or in the next URL. *)
Definition one_request (url current_url : string) (last : bool) (timeout_seconds max_bytes : Z) (headers : list (string * string))
    (host_allowlist : option (list string)) (deadline : Q) : M (string + string) :=
  _validate_safe_url current_url host_allowlist;;
  t ← now;
  st_raise_if (negb (Qle_bool t deadline)) (timeout_error "HTTP request exceeded timeout_seconds budget before completion.");;
  r ← call (λ n, get net n current_url headers) (λ _, [Fetched current_url]);
  closing current_url
    (if is_redirect r then
       st_raise_if last (too_many_redirects url);;
       match location r with
       | None | Some "" => st_raise (value_error ("Redirect response for URL '" +:+ current_url +:+ "' omitted Location header."))
       | Some l => next ← st_lift (urljoin current_url l); mret (inr next)
       end
     else
       st_lift (raise_for_status r);;
       body_bytes ← _read_streaming_body (iter_content r) "" max_bytes deadline;
       text ← st_lift (_response_text r body_bytes);
       mret (inl text)).

Fixpoint requests (url : string) (redirects : nat) (current_url : string) (timeout_seconds max_bytes : Z) (headers : list (string * string))
    (host_allowlist : option (list string)) (deadline : Q) : M string :=
  next ← one_request url current_url (redirects =? 0) timeout_seconds max_bytes headers host_allowlist deadline;
  match next, redirects with
  | inl text, _ => mret text
  | inr _, O => st_raise (too_many_redirects url)
  | inr u, S redirects => requests url redirects u timeout_seconds max_bytes headers host_allowlist deadline
  end.

(** [_load_text_response] *)
Definition _load_text_response (url : string) (timeout_seconds max_bytes : Z) (headers : list (string * string))
    (host_allowlist : option (list string)) : M string :=
  st_raise_if (timeout_seconds <? 1)%Z (value_error "'timeout_seconds' must be >= 1.");;
  st_raise_if (max_bytes <? 1)%Z (value_error "'max_bytes' must be >= 1.");;
  t ← now;
  requests url DEFAULT_MAX_REDIRECTS url timeout_seconds max_bytes headers host_allowlist (t + inject_Z (timeout_seconds * 2))%Q.

(** [except Exception as exc: raise RuntimeError(f"...: {exc}") from exc] *)
Definition wrap_errors {A} (message : exn → string) (body : M A) : M A := λ s,
  match body s with (s, Raise e) => (s, Raise (Exn RuntimeError (message e))) | r => r end.

Definition newline : string := char_str (Ascii.ascii_of_nat 10).

(** [text.splitlines()] *)
Definition line_break (c : ascii) : bool := existsb (Nat.eqb (code c)) [10; 11; 12; 13; 28; 29; 30; 133].
Fixpoint lines_from (line : string) (s : string) : list string :=
  match s with
  | "" => if decide (line = "") then [] else [line]
  | String c s =>
      if line_break c then
        line :: match s with
                | String d s' => if (code c =? 13) && (code d =? 10) then lines_from "" s' else lines_from "" s
                | _ => []
                end
      else lines_from (line +:+ char_str c) s
  end.
Definition splitlines (s : string) : list string := lines_from "" s.

(** [line.split("  ")] *)
Fixpoint split_two_spaces (phrase : string) (s : string) : list string :=
  match s with
  | "" => [phrase]
  | String c s =>
      match s with
      | String d s' =>
          if (code c =? 32) && (code d =? 32) then phrase :: split_two_spaces "" s' else split_two_spaces (phrase +:+ char_str c) s
      | _ => split_two_spaces (phrase +:+ char_str c) s
      end
  end.

(** The cleaned text of a page. *)
Definition cleaned_text (text : string) : string :=
  let lines := py_strip <$> splitlines text in
  let chunks := py_strip <$> flat_map (split_two_spaces "") lines in
  py_join newline (List.filter (λ c, negb (bool_decide (c = ""))) chunks).

(** [scrape_url] *)
Definition scrape_url (url : string) (timeout_seconds max_bytes max_characters : Z) (host_allowlist : option (list string)) : M string :=
  _validate_safe_url url host_allowlist;;
  st_raise_if (max_characters <? 1)%Z (value_error "'max_characters' must be >= 1.");;
  wrap_errors (λ exc, "Error scraping URL '" +:+ url +:+ "': " +:+ exn_str exc) (
    text_html ← _load_text_response url timeout_seconds max_bytes [] host_allowlist;
    let cleaned := cleaned_text (page_text (parse_html text_html)) in
    mret (if (max_characters <? Z.of_nat (String.length cleaned))%Z then String.substring 0 (Z.to_nat max_characters) cleaned else cleaned)).

(** [fetch_json_url] *)
Definition fetch_json_url (url : string) (timeout_seconds max_bytes : Z) (host_allowlist : option (list string)) : M string :=
  _validate_safe_url url host_allowlist;;
  wrap_errors (λ exc, "Error fetching JSON URL '" +:+ url +:+ "': " +:+
    (if decide (exn_cls exc = OtherError "JSONDecodeError") then "response was not valid JSON." else exn_str exc)) (
    body_text ← _load_text_response url timeout_seconds max_bytes [("Accept", "application/json")] host_allowlist;
    parsed ← st_lift (json_loads body_text);
    mret (json_indented float_repr 0 parsed)).

(** An anchor's URL and text, when it counts. *)
Definition link_of (url source_domain : string) (same_domain_only : bool) (anchor : string * string) : result (option (string * string)) :=
  joined ← urljoin url anchor.1;
  let normalized := py_strip joined in
  parsed ← urlparse check_bracketed_netloc normalized;
  Ok (if negb (bool_decide (scheme parsed = "http") || bool_decide (scheme parsed = "https")) || bool_decide (netloc parsed = "") then None
      else if same_domain_only && negb (bool_decide (netloc parsed = source_domain)) then None
      else Some (normalized, anchor.2)).

(** The loop over the anchors: the links, and whether it was cut short. *)
Fixpoint collect_links (url source_domain : string) (same_domain_only : bool) (max_links : Z) (l : list (string * string))
    (links : list (string * string)) (seen_urls : list string) : result (list (string * string) * bool) :=
  match l with
  | [] => Ok (links, false)
  | anchor :: l =>
      link ← link_of url source_domain same_domain_only anchor;
      match link with
      | None => collect_links url source_domain same_domain_only max_links l links seen_urls
      | Some (normalized, text) =>
          if bool_decide (normalized ∈ seen_urls) then collect_links url source_domain same_domain_only max_links l links seen_urls
          else if (max_links <=? Z.of_nat (length links))%Z then Ok (links, true)
          else collect_links url source_domain same_domain_only max_links l (links ++ [(normalized, text)]) (seen_urls ++ [normalized])
      end
  end.

Definition links_payload (url : string) (same_domain_only include_text : bool) (max_links : Z) (links : list (string * string))
    (truncated : bool) : pyval :=
  PDict [("source_url", PStr url); ("same_domain_only", PBool same_domain_only); ("include_text", PBool include_text);
         ("max_links", PInt max_links); ("truncated", PBool truncated); ("link_count", PInt (Z.of_nat (length links)));
         ("links", PList ((λ l, PDict (("url", PStr l.1) :: if include_text then [("text", PStr l.2)] else [])) <$> links))].

(** [extract_links_from_url] *)
Definition extract_links_from_url (url : string) (same_domain_only include_text : bool) (timeout_seconds max_bytes max_links : Z)
    (host_allowlist : option (list string)) : M string :=
  _validate_safe_url url host_allowlist;;
  st_raise_if (max_links <? 1)%Z (value_error "'max_links' must be >= 1.");;
  wrap_errors (λ exc, "Error extracting links from URL '" +:+ url +:+ "': " +:+ exn_str exc) (
    source ← st_lift (urlparse check_bracketed_netloc url);
    html ← _load_text_response url timeout_seconds max_bytes [] host_allowlist;
    '(links, truncated) ← st_lift (collect_links url (netloc source) same_domain_only max_links (anchors (parse_html html)) [] []);
    mret (json_dumps float_repr (links_payload url same_domain_only include_text max_links links truncated))).
End web_tools.
