(* ===== verification/WebToolsProofs.v ===== *)
(** What the web tools do on the network, whatever it answers, and what they
    return. *)
From stdpp Require Import options.
From S2P Require Import Prelude Values Json CanonicalJson Url WebTools.
Unset Default Proof Using.

Section web_tools.
Context (check_bracketed_netloc : string → result unit) (urljoin : string → string → result string) (address_text : address → string).
Context (decode : string → string → result string) (json_loads : string → result pyval) (parse_html : string → page).
Context (float_repr : Q → string) (host_allowlist_env : string) (net : network).

Abbreviation M := (stm web).
Abbreviation url_host := (url_host check_bracketed_netloc).
Abbreviation validate := (_validate_safe_url check_bracketed_netloc address_text host_allowlist_env net).
Abbreviation allowed := (allowed address_text).
Abbreviation load := (_load_text_response check_bracketed_netloc urljoin address_text decode host_allowlist_env net).
Abbreviation requests := (requests check_bracketed_netloc urljoin address_text decode host_allowlist_env net).
Abbreviation one_request := (one_request check_bracketed_netloc urljoin address_text decode host_allowlist_env net).

(** ** What a run adds to the trace *)

Definition emits {A} (m : M A) (Q : list event → result A → Prop) : Prop :=
  ∀ s s' r, m s = (s', r) → ∃ ev, trace s' = trace s ++ ev ∧ Q ev r.

Lemma emits_ret {A} (a : A) (Q : list event → result A → Prop) : Q [] (Ok a) → emits (mret a) Q.
Proof. intros HQ s s' r [= <- <-]. exists []. by rewrite app_nil_r. Qed.
Lemma emits_lift {A} (x : result A) (Q : list event → result A → Prop) : Q [] x → emits (st_lift x) Q.
Proof. intros HQ s s' r [= <- <-]. exists []. by rewrite app_nil_r. Qed.
Lemma emits_bind {A B} (m : M A) (f : A → M B) (P : list event → result A → Prop) (Q : list event → result B → Prop) :
  emits m P → (∀ e ev, P ev (Raise e) → Q ev (Raise e)) →
  (∀ a ev0, P ev0 (Ok a) → emits (f a) (λ ev r, Q (ev0 ++ ev) r)) → emits (m ≫= f) Q.
Proof.
  intros Hm He Hf s s' r H. unfold mbind, stm_bind in H. destruct (m s) as [s1 [a|e]] eqn:E.
  - destruct (Hm _ _ _ E) as (ev & Htr & HP). destruct (Hf a ev HP _ _ _ H) as (ev' & Htr' & HQ). exists (ev ++ ev').
    split; [by rewrite Htr', Htr, app_assoc|done].
  - injection H as <- <-. destruct (Hm _ _ _ E) as (ev & Htr & HP). exists ev. split; [done|by apply He].
Qed.
Lemma emits_impl {A} (m : M A) (P Q : list event → result A → Prop) : emits m P → (∀ ev r, P ev r → Q ev r) → emits m Q.
Proof. intros Hm Himpl s s' r H. destruct (Hm _ _ _ H) as (ev & ? & ?). eauto. Qed.
Lemma emits_call {A} (f : nat → result A) e (Q : list event → result A → Prop) :
  (∀ n a, f n = Ok a → Q (e a) (Ok a)) → (∀ x, Q [] (Raise x)) → emits (call f e) Q.
Proof.
  intros Hok Hraise s s' r. unfold call. destruct (f (tick s)) as [a|x] eqn:E; intros [= <- <-]; simpl.
  - eauto.
  - exists []. by rewrite app_nil_r.
Qed.

(** ** Checked fetches *)

(** [url] has been checked when [before] had happened, and nothing since. *)
Definition checked (allowlist : list string) (before : list event) (url : string) : Prop :=
  ∃ parsed host, url_host url = Ok (parsed, host) ∧
    (scheme parsed = "http" ∨ scheme parsed = "https") ∧
    (host ∈ allowlist ∨
     ∃ earlier n p addresses, before = earlier ++ [LookedUp host p addresses] ∧ port parsed = Ok p ∧
       getaddrinfo net n host p = Ok addresses ∧ addresses ≠ [] ∧ Forall (λ a, allowed allowlist a = true) addresses).

Definition fetched (ev : list event) : list string := omap (λ e, match e with Fetched u => Some u | _ => None end) ev.

(** Every fetch is checked, and closed before anything else. *)
Definition careful (allowlist : list string) (ev : list event) : Prop :=
  ∀ before u after, ev = before ++ Fetched u :: after → checked allowlist before u ∧ ∃ after', after = Closed u :: after'.

Lemma checked_later allowlist ev before u : checked allowlist before u → checked allowlist (ev ++ before) u.
Proof.
  intros (parsed & host & Hh & Hs & [Hin|(earlier & n & p & addresses & -> & Hrest)]).
  - exists parsed, host. auto.
  - exists parsed, host. split_and!; [done..|]. right. exists (ev ++ earlier), n, p, addresses. by rewrite app_assoc.
Qed.

Lemma careful_app allowlist ev ev' : careful allowlist ev → careful allowlist ev' → careful allowlist (ev ++ ev').
Proof.
  intros H H' before u after Heq. apply app_eq_inv in Heq as [(k & -> & Hk)|(k & -> & Hk)].
  - destruct k as [|e k]; simpl in Hk.
    + destruct (H' [] u after (eq_sym Hk)) as [Hc Ha]. split; [|done]. rewrite <- (app_nil_r before). by apply checked_later.
    + injection Hk as <- ->. destruct (H before u k eq_refl) as [Hc (after' & ->)]. split; [done|]. by exists (after' ++ ev').
  - destruct (H' k u after Hk) as [Hc Ha]. split; [by apply checked_later|done].
Qed.

Lemma careful_quiet allowlist ev : fetched ev = [] → careful allowlist ev.
Proof.
  intros Hf before u after ->. unfold fetched in Hf. rewrite omap_app in Hf. by apply app_nil in Hf as [_ Hf].
Qed.

Lemma fetched_app ev ev' : fetched (ev ++ ev') = fetched ev ++ fetched ev'.
Proof. apply omap_app. Qed.

(** ** The check *)

Definition validated (allowlist : list string) (url : string) (ev : list event) (r : result unit) : Prop :=
  fetched ev = [] ∧ (r = Ok tt → checked allowlist ev url).

Lemma url_host_scheme url parsed host : url_host url = Ok (parsed, host) → scheme parsed = "http" ∨ scheme parsed = "https".
Proof.
  unfold WebTools.url_host. intros (p & _ & H)%bind_Ok. destruct (hostname p) as [h|]; [|done].
  apply bind_Ok in H as ([] & H & [= <- _]). apply raise_if_Ok in H. apply orb_false_iff in H as [H _].
  apply negb_false_iff, orb_true_iff in H as [H|H]; apply bool_decide_eq_true in H; auto.
Qed.

(** A step that adds nothing to the trace. *)
Lemma emits_quiet {A B} (m : M A) (f : A → M B) (P : result A → Prop) (Q : list event → result B → Prop) :
  emits m (λ ev r, ev = [] ∧ P r) → (∀ e, Q [] (Raise e)) → (∀ a, P (Ok a) → emits (f a) Q) → emits (m ≫= f) Q.
Proof.
  intros Hm He Hf. eapply emits_bind; [exact Hm|by intros e ev [-> _]|]. intros a ev0 [-> Ha]. simpl. by apply Hf.
Qed.
Lemma lift_quiet {A} (x : result A) : emits (st_lift x) (λ ev r, ev = [] ∧ r = x).
Proof. by apply emits_lift. Qed.
Lemma raise_if_quiet b e : emits (st_raise_if b e : M unit) (λ ev r, ev = [] ∧ (r = Ok tt → b = false)).
Proof. apply emits_lift. split; [done|]. by intros ?%raise_if_Ok. Qed.
Lemma now_quiet : emits (now net) (λ ev r, ev = [] ∧ True).
Proof. by apply emits_call. Qed.

Lemma resolve_emits host p : emits (resolve net host p)
  (λ ev r, fetched ev = [] ∧ ∀ a, r = Ok a → ev = [LookedUp host p a] ∧ ∃ n, getaddrinfo net n host p = Ok a).
Proof.
  intros s s' r. unfold resolve, call. destruct (getaddrinfo net (tick s) host p) as [a|e] eqn:Ha; intros [= <- <-]; simpl.
  - exists [LookedUp host p a]. split; [done|]. split; [done|]. intros b [= <-]. eauto.
  - exists []. split; [by rewrite app_nil_r|]. split; [done|]. by intros a [=].
Qed.

Lemma validate_emits url allow : emits (validate url allow) (validated (_load_host_allowlist host_allowlist_env allow) url).
Proof.
  unfold _validate_safe_url. set (allowlist := _load_host_allowlist _ allow).
  eapply emits_quiet; [apply lift_quiet|by split|]. intros [parsed host] Hh. cbn beta iota. symmetry in Hh.
  pose proof (url_host_scheme _ _ _ Hh) as Hs. case_bool_decide as Hin.
  { apply emits_ret. split; [done|]. intros _. exists parsed, host. auto. }
  eapply emits_quiet; [apply lift_quiet|by split|]. intros p Hp. cbn beta in Hp. symmetry in Hp.
  eapply emits_bind; [apply resolve_emits|by intros e ev [Hf _]; split|]. intros addresses ev0 [Hf Hl].
  destruct (Hl addresses eq_refl) as [-> [n Hn]]. clear Hl.
  eapply emits_quiet; [apply raise_if_quiet|by split|]. intros [] Hne. specialize (Hne eq_refl). apply bool_decide_eq_false in Hne.
  destruct (List.find _ addresses) as [a|] eqn:Hfind; [by apply emits_lift|].
  apply emits_ret. split; [done|]. intros _. exists parsed, host. split_and!; [done..|].
  right. exists [], n, p, addresses. split_and!; [done..|]. apply Forall_forall. intros a Ha.
  eapply find_none in Hfind; [|by apply list_elem_of_In]. by apply negb_false_iff in Hfind.
Qed.

(** ** Requests *)

Lemma closing_emits {A} u (m : M A) P : emits m P → emits (closing u m) (λ ev r, ∃ ev0, ev = ev0 ++ [Closed u] ∧ P ev0 r).
Proof.
  intros Hm s s' r. unfold closing. destruct (m s) as [s1 r1] eqn:E. intros [= <- <-].
  destruct (Hm _ _ _ E) as (ev & Htr & HP). exists (ev ++ [Closed u]). simpl. rewrite Htr, app_assoc. eauto.
Qed.

Lemma read_emits chunks body max_bytes deadline : (Z.of_nat (String.length body) <= max_bytes)%Z →
  emits (_read_streaming_body net chunks body max_bytes deadline)
    (λ ev r, ev = [] ∧ ∀ b, r = Ok b → (Z.of_nat (String.length b) <= max_bytes)%Z).
Proof.
  revert body. induction chunks as [|chunk chunks IH]; intros body Hb; cbn [_read_streaming_body].
  { apply emits_ret. split; [done|]. by intros b [= <-]. }
  eapply emits_quiet; [apply lift_quiet|by split|]. intros c _.
  eapply emits_quiet; [apply now_quiet|by split|]. intros t _.
  eapply emits_quiet; [apply raise_if_quiet|by split|]. intros [] _.
  case_decide; [by apply IH|].
  eapply emits_quiet; [apply raise_if_quiet|by split|]. intros [] Hlen. specialize (Hlen eq_refl). apply Z.ltb_ge in Hlen.
  by apply IH.
Qed.

(** A text that is some body of at most so many bytes, decoded. *)
Definition bounded_text (max_bytes : Z) (text : string) : Prop :=
  ∃ codec body, (Z.of_nat (String.length body) <= max_bytes)%Z ∧ decode codec body = Ok text.

Definition visited (allowlist : list string) (u : string) (max_bytes : Z) (ev : list event) (r : result (string + string)) : Prop :=
  (fetched ev = [] ∧ ∃ e, r = Raise e) ∨
  (∃ pre, ev = pre ++ [Fetched u; Closed u] ∧ fetched pre = [] ∧ checked allowlist pre u ∧
     ∀ text, r = Ok (inl text) → bounded_text max_bytes text).

Lemma one_request_emits url u last timeout_seconds max_bytes headers allow deadline : (1 <= max_bytes)%Z →
  emits (one_request url u last timeout_seconds max_bytes headers allow deadline)
    (visited (_load_host_allowlist host_allowlist_env allow) u max_bytes).
Proof.
  intros Hmax. unfold WebTools.one_request. set (allowlist := _load_host_allowlist _ allow).
  eapply emits_bind; [apply validate_emits|by intros e ev [Hf _]; left; eauto|]. intros [] pre [Hf Hc]. specialize (Hc eq_refl).
  eapply emits_quiet; [apply now_quiet|by intros e; left; rewrite app_nil_r; eauto|]. intros t _.
  eapply emits_quiet; [apply raise_if_quiet|by intros e; left; rewrite app_nil_r; eauto|]. intros [] _.
  eapply (emits_bind _ _ (λ ev r, match r with Ok _ => ev = [Fetched u] | Raise _ => ev = [] end)); [by apply emits_call| |].
  { intros e ev ->. left. rewrite app_nil_r. eauto. }
  intros r ev0 ->. eapply emits_impl; [apply (closing_emits _ _ (λ ev r, ev = [] ∧ ∀ text, r = Ok (inl text) → bounded_text max_bytes text))|].
  2: { intros ev x (ev0 & -> & -> & Hx). right. exists pre. split_and!; [done..|exact Hx]. }
  destruct (is_redirect r).
  - eapply emits_quiet; [apply raise_if_quiet|by split|]. intros [] _. destruct (location r) as [[|c l]|]; try by apply emits_lift.
    eapply emits_quiet; [apply lift_quiet|by split|]. intros v _. by apply emits_ret.
  - eapply emits_quiet; [apply lift_quiet|by split|]. intros [] _.
    eapply emits_quiet; [apply read_emits; simpl; lia|by split|]. intros body Hbody.
    eapply emits_quiet; [apply lift_quiet|by split|]. intros text Htext.
    apply emits_ret. split; [done|]. intros x [= <-]. exists (str_or (encoding r) "utf-8"), body. split; [by apply Hbody|done].
Qed.

Definition fetching (allowlist : list string) (limit : nat) (u : string) (max_bytes : Z) (ev : list event) (r : result string) : Prop :=
  careful allowlist ev ∧ length (fetched ev) ≤ limit ∧ (fetched ev = [] ∨ head (fetched ev) = Some u) ∧
  ∀ text, r = Ok text → bounded_text max_bytes text ∧ fetched ev ≠ [].

Lemma visited_fetching allowlist u max_bytes ev r : visited allowlist u max_bytes ev r →
  careful allowlist ev ∧ length (fetched ev) ≤ 1 ∧ (fetched ev = [] ∨ head (fetched ev) = Some u).
Proof.
  intros [[Hf _]|(pre & -> & Hf & Hc & _)].
  - rewrite Hf. split_and!; [by apply careful_quiet|simpl; lia|by left].
  - rewrite fetched_app, Hf. split_and!; [|simpl; lia|by right].
    intros before v after Heq. clear -Hf Hc Heq.
    assert (before = pre ∧ v = u ∧ after = [Closed u]) as (-> & -> & ->); [|by split; [|eexists]]. clear Hc.
    revert before Hf Heq. induction pre as [|e pre IH]; intros [|e' before] Hf Heq; simpl in Heq.
    + by injection Heq as -> <-.
    + injection Heq as <- Heq. destruct before as [|e before]; [done|]. injection Heq as <- Heq. by destruct before.
    + injection Heq as -> _. done.
    + injection Heq as -> Heq. assert (fetched pre = []) as Hf' by (by destruct e').
      by destruct (IH before Hf' Heq) as (-> & -> & ->).
Qed.

Lemma requests_emits url redirects u timeout_seconds max_bytes headers allow deadline : (1 <= max_bytes)%Z →
  emits (requests url redirects u timeout_seconds max_bytes headers allow deadline)
    (fetching (_load_host_allowlist host_allowlist_env allow) (S redirects) u max_bytes).
Proof.
  intros Hmax. revert u. induction redirects as [|redirects IH]; intros u; cbn [WebTools.requests].
  all: eapply emits_bind; [by apply one_request_emits|..].
  all: try (intros e ev Hv; destruct (visited_fetching _ _ _ _ _ Hv) as (H1 & H2 & H3);
    split_and!; [exact H1|lia|exact H3|by intros text [=]]).
  all: intros next ev0 Hv; destruct (visited_fetching _ _ _ _ _ Hv) as (H1 & H2 & H3).
  all: destruct Hv as [[_ [e He]]|(pre & -> & Hpre & Hc & Htext)]; [done|].
  all: destruct next as [text|v].
  - apply emits_ret. rewrite app_nil_r. split_and!; [done|lia|done|]. intros x [= <-]. split; [by apply Htext|].
    by rewrite fetched_app, Hpre.
  - apply emits_lift. rewrite app_nil_r. split_and!; [done|lia|done|by intros x [=]].
  - apply emits_ret. rewrite app_nil_r. split_and!; [done|lia|done|]. intros x [= <-]. split; [by apply Htext|].
    by rewrite fetched_app, Hpre.
  - eapply emits_impl; [apply IH|]. intros ev r (I1 & I2 & I3 & I4). split_and!.
    + by apply careful_app.
    + rewrite fetched_app, length_app. rewrite !fetched_app, Hpre in *. simpl in *. lia.
    + right. by rewrite !fetched_app, Hpre.
    + intros text Ht. destruct (I4 text Ht) as [Hb Hn]. split; [done|]. by rewrite !fetched_app, Hpre.
Qed.

Lemma load_emits url timeout_seconds max_bytes headers allow :
  emits (load url timeout_seconds max_bytes headers allow)
    (fetching (_load_host_allowlist host_allowlist_env allow) 6 url max_bytes).
Proof.
  assert (∀ e, fetching (_load_host_allowlist host_allowlist_env allow) 6 url max_bytes [] (Raise e)) as Hraise.
  { intros e. split_and!; [by apply careful_quiet|simpl; lia|by left|by intros t [=]]. }
  unfold WebTools._load_text_response.
  eapply emits_quiet; [apply raise_if_quiet|done|]. intros [] _.
  eapply emits_quiet; [apply raise_if_quiet|done|]. intros [] Hmax. specialize (Hmax eq_refl). apply Z.ltb_ge in Hmax.
  eapply emits_quiet; [apply now_quiet|done|]. intros t _. by apply (requests_emits url 5).
Qed.

(** ** The tools *)

Inductive web_call :=
  | ScrapeUrl (timeout_seconds max_bytes max_characters : Z)
  | FetchJsonUrl (timeout_seconds max_bytes : Z)
  | ExtractLinks (same_domain_only include_text : bool) (timeout_seconds max_bytes max_links : Z).

Definition run_call (c : web_call) (url : string) (allow : option (list string)) : M string :=
  match c with
  | ScrapeUrl timeout max_bytes max_characters =>
      scrape_url check_bracketed_netloc urljoin address_text decode parse_html host_allowlist_env net
        url timeout max_bytes max_characters allow
  | FetchJsonUrl timeout max_bytes =>
      fetch_json_url check_bracketed_netloc urljoin address_text decode json_loads float_repr host_allowlist_env net
        url timeout max_bytes allow
  | ExtractLinks same_domain include_text timeout max_bytes max_links =>
      extract_links_from_url check_bracketed_netloc urljoin address_text decode parse_html float_repr host_allowlist_env net
        url same_domain include_text timeout max_bytes max_links allow
  end.

Definition tool_run (allowlist : list string) (url : string) (ev : list event) (r : result string) : Prop :=
  careful allowlist ev ∧ length (fetched ev) ≤ 6 ∧ (fetched ev = [] ∨ head (fetched ev) = Some url) ∧
  (∀ text, r = Ok text → fetched ev ≠ []) ∧ (∀ e, r = Raise e → fetched ev ≠ [] → exn_cls e = RuntimeError).

Lemma tool_run_quiet allowlist url ev e : fetched ev = [] → tool_run allowlist url ev (Raise e).
Proof. intros Hf. split_and!; [by apply careful_quiet|rewrite Hf; simpl; lia|by left|by intros t [=]|by rewrite Hf]. Qed.

(** The body of a tool, before its errors are wrapped. *)
Definition body_run (allowlist : list string) (url : string) (ev : list event) (r : result string) : Prop :=
  careful allowlist ev ∧ length (fetched ev) ≤ 6 ∧ (fetched ev = [] ∨ head (fetched ev) = Some url) ∧
  ∀ text, r = Ok text → fetched ev ≠ [].

Lemma body_raise allowlist url e : body_run allowlist url [] (Raise e).
Proof. split_and!; [by apply careful_quiet|simpl; lia|by left|by intros t [=]]. Qed.

(** A page loaded, and something computed from it. *)
Lemma load_body url timeout_seconds max_bytes headers allow (g : string → M string) :
  (∀ t, emits (g t) (λ ev _, ev = [])) →
  emits (text ← load url timeout_seconds max_bytes headers allow; g text) (body_run (_load_host_allowlist host_allowlist_env allow) url).
Proof.
  intros Hg. eapply emits_bind; [apply load_emits|by intros e ev (H1 & H2 & H3 & _); split_and!|].
  intros text ev0 (H1 & H2 & H3 & H4). eapply emits_impl; [apply Hg|]. intros ev r ->. rewrite app_nil_r.
  split_and!; [done..|]. intros _ _. by destruct (H4 text eq_refl).
Qed.

Lemma wrap_body allowlist url (message : exn → string) (body : M string) ev0 : fetched ev0 = [] →
  emits body (body_run allowlist url) → emits (wrap_errors message body) (λ ev r, tool_run allowlist url (ev0 ++ ev) r).
Proof.
  intros Hf Hb s s' r. unfold wrap_errors. destruct (body s) as [s1 x] eqn:E.
  destruct (Hb _ _ _ E) as (ev & Htr & Hc & Hlen & Hhead & Htext). intros H.
  assert (s' = s1 ∧ match r with Ok _ => x = r | Raise e => exn_cls e = RuntimeError end) as [-> Hr]
    by (destruct x; injection H as <- <-; done).
  exists ev. split; [done|]. split_and!; rewrite ?fetched_app, ?Hf; simpl; [|done|done| |].
  - apply careful_app; [by apply careful_quiet|done].
  - intros t ->. by apply (Htext t).
  - intros e -> _. done.
Qed.

Lemma run_call_emits c url allow : emits (run_call c url allow) (tool_run (_load_host_allowlist host_allowlist_env allow) url).
Proof.
  destruct c as [timeout max_bytes max_chars|timeout max_bytes|same include timeout max_bytes max_links]; cbn [run_call].
  all: eapply emits_bind; [apply validate_emits|by intros x ev [Hf _]; apply tool_run_quiet|]; intros [] ev0 [Hf _].
  1, 3: eapply emits_quiet; [apply raise_if_quiet|by intros x; rewrite app_nil_r; apply tool_run_quiet|]; intros [] _.
  all: apply wrap_body; [done|].
  - apply load_body. intros t. by apply emits_ret.
  - eapply emits_quiet; [apply lift_quiet|by apply body_raise|]. intros source _. apply load_body. intros t.
    eapply emits_quiet; [apply lift_quiet|done|]. intros [links truncated] _. by apply emits_ret.
  - apply load_body. intros t. eapply emits_quiet; [apply lift_quiet|done|]. intros v _. by apply emits_ret.
Qed.

(** A resolver that gives one answer whenever it is asked. *)
Definition stable : Prop := ∀ n n' host p, getaddrinfo net n host p = getaddrinfo net n' host p.

(** C34: Whatever the network answers, a web tool makes at most six requests, the
    first for the URL it was given; each request is for a URL that was checked
    right before it (http or https, and a host on the allowlist or one that
    resolved only to allowed addresses), and its response is closed before
    anything else happens.  If names resolve the same way each time they are
    asked for, the hosts requested have no address that is not allowed.  A
    failure after the first request is a [RuntimeError], and an answer comes
    from a request. *)
Theorem fetches_checked c url allow s s' r : run_call c url allow s = (s', r) →
  let allowlist := _load_host_allowlist host_allowlist_env allow in
  ∃ ev, trace s' = trace s ++ ev ∧ length (fetched ev) ≤ 6 ∧ (fetched ev = [] ∨ head (fetched ev) = Some url) ∧
    (∀ before u after, ev = before ++ Fetched u :: after → checked allowlist before u ∧ ∃ after', after = Closed u :: after') ∧
    (stable → ∀ u, u ∈ fetched ev → ∃ parsed host, url_host u = Ok (parsed, host) ∧
       (host ∈ allowlist ∨ ∃ p, port parsed = Ok p ∧ ∀ n addresses a,
          getaddrinfo net n host p = Ok addresses → a ∈ addresses → allowed allowlist a = true)) ∧
    (∀ text, r = Ok text → fetched ev ≠ []) ∧ (∀ e, r = Raise e → fetched ev ≠ [] → exn_cls e = RuntimeError).
Proof.
  intros Hrun allowlist. destruct (run_call_emits c url allow s s' r Hrun) as (ev & Htr & Hc & Hlen & Hhead & Hok & Herr).
  exists ev. split_and!; [done..| |done|done]. intros Hst u Hu. unfold fetched in Hu. apply list_elem_of_omap in Hu as (e & He & Hu).
  destruct e as [|v|]; try done. injection Hu as <-. apply list_elem_of_split in He as (before & after & ->).
  destruct (Hc before v after eq_refl) as [(parsed & host & Hh & _ & [Hin|(earlier & n & p & addresses & _ & Hp & Hn & _ & Hall)]) _].
  - exists parsed, host. auto.
  - exists parsed, host. split; [done|]. right. exists p. split; [done|]. intros n' addresses' a Hn' Ha.
    rewrite (Hst n' n), Hn in Hn'. injection Hn' as <-. rewrite Forall_forall in Hall. by apply Hall.
Qed.

(** ** The answers *)

(** The first of the links with each URL. *)
Fixpoint firsts (seen : list string) (l : list (string * string)) : list (string * string) :=
  match l with
  | [] => []
  | link :: l => if bool_decide (link.1 ∈ seen) then firsts seen l else link :: firsts (seen ++ [link.1]) l
  end.

Abbreviation link_of := (link_of check_bracketed_netloc urljoin).
Abbreviation collect_links := (collect_links check_bracketed_netloc urljoin).

Lemma collect_all url domain same max l ls links : (Z.of_nat (length links) <= max)%Z →
  map_result (link_of url domain same) l = Ok ls →
  collect_links url domain same max l links links.*1 =
    Ok (links ++ take (Z.to_nat max - length links) (firsts links.*1 (omap id ls)),
        (max <? Z.of_nat (length links + length (firsts links.*1 (omap id ls))))%Z).
Proof.
  revert links ls. induction l as [|a l IH]; intros links ls Hlen; cbn [map_result WebTools.collect_links].
  { intros [= <-]. cbn. rewrite take_nil, app_nil_r, Nat.add_0_r. do 2 f_equal. symmetry. by apply Z.ltb_ge. }
  intros (x & Hx & H)%bind_Ok. apply bind_Ok in H as (xs & Hxs & [= <-]). rewrite Hx. cbn [mbind result_bind].
  destruct x as [[u text]|]; cbn [omap list_omap id]; [|by apply IH]. cbn [firsts fst].
  case_bool_decide as Hu; [by apply IH|].
  destruct (Z.leb_spec max (Z.of_nat (length links))) as [Hfull|Hroom].
  - replace (Z.to_nat max - length links) with 0 by lia. rewrite take_0, app_nil_r. do 2 f_equal. symmetry. apply Z.ltb_lt.
    cbn [length]. lia.
  - assert ((links ++ [(u, text)]).*1 = links.*1 ++ [u]) as Hkeys by (by rewrite fmap_app). rewrite <- Hkeys.
    rewrite (IH _ xs); [|rewrite length_app; simpl; lia|done]. rewrite length_app, <- app_assoc. cbn [length app].
    replace (Z.to_nat max - length links) with (S (Z.to_nat max - (length links + 1))) by lia.
    cbn [take]. do 3 f_equal. lia.
Qed.

Lemma collect_sound url domain same max l links seen result truncated : (Z.of_nat (length links) <= max)%Z → seen = links.*1 →
  NoDup links.*1 → collect_links url domain same max l links seen = Ok (result, truncated) →
  NoDup result.*1 ∧ (Z.of_nat (length result) <= max)%Z ∧
  (∀ link, link ∈ result → link ∈ links ∨ (∃ a, a ∈ l ∧ link_of url domain same a = Ok (Some link))).
Proof.
  intros Hlen -> Hnd. revert links Hlen Hnd. induction l as [|a l IH]; intros links Hlen Hnd; cbn [WebTools.collect_links].
  { intros [= <- <-]. auto. }
  intros (x & Hx & H)%bind_Ok.
  assert (∀ link, (link ∈ links ∨ (∃ a, a ∈ l ∧ link_of url domain same a = Ok (Some link))) →
    link ∈ links ∨ (∃ b, b ∈ a :: l ∧ link_of url domain same b = Ok (Some link))) as Hweak
    by (intros link [?|(b & ? & ?)]; [by left|right; exists b; by split; [right|]]).
  destruct x as [[u text]|]; [|destruct (IH links Hlen Hnd H) as (? & ? & ?); eauto].
  case_bool_decide as Hu; [destruct (IH links Hlen Hnd H) as (? & ? & ?); eauto|].
  destruct (Z.leb_spec max (Z.of_nat (length links))) as [Hfull|Hroom]; [injection H as <- <-; eauto|].
  assert ((links ++ [(u, text)]).*1 = links.*1 ++ [u]) as Hkeys by (by rewrite fmap_app). rewrite <- Hkeys in H.
  apply IH in H as (H1 & H2 & H3); [|rewrite length_app; simpl; lia|].
  - split_and!; [done..|]. intros link [[Hin|Hin%list_elem_of_singleton]%elem_of_app|(b & Hb & Hl)]%H3; [by left| |].
    + subst link. right. exists a. split; [left|done].
    + right. exists b. by split; [right|].
  - rewrite Hkeys. apply NoDup_app. split_and!; [done| |by apply NoDup_singleton]. intros v Hv ->%list_elem_of_singleton. done.
Qed.

(** What a tool answers of the text it loaded. *)
Definition answers (c : web_call) (url src text : string) : Prop :=
  match c with
  | ScrapeUrl _ _ max_characters =>
      let cleaned := cleaned_text (page_text (parse_html src)) in
      (Z.of_nat (String.length text) <= max_characters)%Z ∧ ∃ rest, cleaned = text +:+ rest ∧
      (rest = "" ∨ Z.of_nat (String.length text) = max_characters)
  | FetchJsonUrl _ _ => ∃ v, json_loads src = Ok v ∧ text = json_indented float_repr 0 v
  | ExtractLinks same_domain include_text _ _ max_links => ∃ source links truncated,
      urlparse check_bracketed_netloc url = Ok source ∧
      text = json_dumps float_repr (links_payload url same_domain include_text max_links links truncated) ∧
      NoDup links.*1 ∧ (Z.of_nat (length links) <= max_links)%Z ∧
      (∀ link, link ∈ links → ∃ a, a ∈ anchors (parse_html src) ∧ link_of url (netloc source) same_domain a = Ok (Some link)) ∧
      ∀ all, map_result (link_of url (netloc source) same_domain) (anchors (parse_html src)) = Ok all →
        links = take (Z.to_nat max_links) (firsts [] (omap id all)) ∧
        truncated = (max_links <? Z.of_nat (length (firsts [] (omap id all))))%Z
  end.
Definition call_max_bytes (c : web_call) : Z :=
  match c with ScrapeUrl _ b _ | FetchJsonUrl _ b | ExtractLinks _ _ _ b _ => b end.

Lemma wrap_Ok {A} (message : exn → string) (body : M A) s s' a : wrap_errors message body s = (s', Ok a) → body s = (s', Ok a).
Proof. unfold wrap_errors. destruct (body s) as [s1 [x|e]]; [done|]. by intros [=]. Qed.

Lemma load_Ok url timeout_seconds max_bytes headers allow s s' text :
  load url timeout_seconds max_bytes headers allow s = (s', Ok text) → bounded_text max_bytes text.
Proof. intros H. destruct (load_emits _ _ _ _ _ _ _ _ H) as (ev & _ & _ & _ & _ & Ht). by destruct (Ht text eq_refl). Qed.

Lemma substring_split n s : n ≤ String.length s → String.length (String.substring 0 n s) = n ∧ ∃ rest, s = String.substring 0 n s +:+ rest.
Proof.
  revert s. induction n as [|n IH]; intros s Hn; [split; [by destruct s|]; exists s; by destruct s|].
  destruct s as [|c s]; simpl in Hn; [lia|]. destruct (IH s ltac:(lia)) as [Hl [rest Hr]]. cbn [String.substring]. split.
  - simpl. by rewrite Hl.
  - exists rest. change (String c s = String c (String.substring 0 n s +:+ rest)). by rewrite <- Hr.
Qed.

(** An answer is computed from a text the tool loaded, the decoding of a
    body of at most [max_bytes]: a scrape gives its cleaned text, cut at
    [max_characters]; the JSON tool its value printed; and the link tool
    different links, at most [max_links], each of an anchor that counts - when
    no anchor is malformed the first of them, said to be truncated exactly when
    there are more. *)
Theorem answers_exact c url allow s s' text : run_call c url allow s = (s', Ok text) →
  ∃ src, bounded_text (call_max_bytes c) src ∧ answers c url src text.
Proof.
  destruct c as [timeout max_bytes max_chars|timeout max_bytes|same include timeout max_bytes max_links]; cbn [run_call answers call_max_bytes].
  - intros (? & [] & _ & H)%st_bind_Ok. apply st_bind_Ok in H as (s1 & [] & Hb & H). apply wrap_Ok in H.
    injection Hb as _ Hb. apply raise_if_Ok, Z.ltb_ge in Hb. apply st_bind_Ok in H as (s2 & src & Hload & H).
    exists src. split; [by eapply load_Ok|]. injection H as _ <-. set (cleaned := cleaned_text _).
    destruct (Z.ltb_spec max_chars (Z.of_nat (String.length cleaned))) as [Hlt|Hge].
    + destruct (substring_split (Z.to_nat max_chars) cleaned) as [Hl [rest Hr]]; [lia|]. rewrite Hl. split; [lia|]. exists rest.
      split; [done|]. right. lia.
    + split; [lia|]. exists "". rewrite str_app_nil. auto.
  - intros (? & [] & _ & H)%st_bind_Ok. apply wrap_Ok, st_bind_Ok in H as (s1 & src & Hload & H).
    exists src. split; [by eapply load_Ok|]. apply st_bind_Ok in H as (s2 & v & Hv & H). injection Hv as _ Hv. injection H as _ <-. eauto.
  - intros (? & [] & _ & H)%st_bind_Ok. apply st_bind_Ok in H as (s1 & [] & Hb & H). apply wrap_Ok in H.
    injection Hb as _ Hb. apply raise_if_Ok, Z.ltb_ge in Hb. apply st_bind_Ok in H as (s2 & source & Hsource & H).
    injection Hsource as _ Hsource. apply st_bind_Ok in H as (s3 & src & Hload & H). exists src. split; [by eapply load_Ok|].
    apply st_bind_Ok in H as (s4 & [links truncated] & Hl & H). injection Hl as _ Hl. injection H as _ <-.
    exists source, links, truncated. split; [done|]. split; [done|].
    destruct (collect_sound url (netloc source) same max_links _ [] [] _ _ ltac:(simpl; lia) eq_refl ltac:(constructor) Hl) as (H1 & H2 & H3).
    split_and!; [done..| |].
    + intros link Hin. destruct (H3 link Hin) as [?%elem_of_nil|?]; [done|done].
    + intros all Hall. pose proof (collect_all url (netloc source) same max_links _ all [] ltac:(simpl; lia) Hall) as Hc.
      cbn [fmap list_fmap] in Hc. rewrite Hl in Hc. injection Hc as -> ->. by rewrite Nat.sub_0_r.
Qed.
End web_tools.

(** ** A concrete network *)

Definition sample_page : response :=
  {| is_redirect := false; location := None; raise_for_status := Ok tt; encoding := None; iter_content := [Ok "some"; Ok ""; Ok "  text"] |}.
Definition sample_redirect : response :=
  {| is_redirect := true; location := Some "http://example.com/page"; raise_for_status := Ok tt; encoding := None; iter_content := [] |}.
Definition resolver (rebinds_at : nat) (n : nat) (host : string) (_ : option Z) : result (list address) :=
  if decide (host = "example.com") then Ok [IPv4 (if n <? rebinds_at then v4 93 184 216 34 else v4 127 0 0 1)]
  else Raise (Exn gaierror "Name or service not known").
Definition sample_network (rebinds_at : nat) : network :=
  {| monotonic := λ _, 0%Q; getaddrinfo := resolver rebinds_at;
     get := λ _ url _, Ok (if decide (url = "http://example.com/") then sample_redirect else sample_page) |}.
Definition sample_html (src : string) : page :=
  {| page_text := src; anchors := [("http://example.com/a", "A"); ("mailto:x", "X"); ("http://example.com/a", "again"); ("http://b.example/", "B")] |}.
Definition sample_fetch (rebinds_at : nat) (c : web_call) (url : string) : web * result string :=
  run_call (λ _, Ok tt) (λ _ l, Ok l) (λ _, "") (λ _ b, Ok b) (λ _, Ok PNone) sample_html (λ _, "0.5") "" (sample_network rebinds_at)
    c url None {| tick := 0; trace := [] |}.

Example scraped : (sample_fetch 100 (ScrapeUrl 10 1000 6) "http://example.com/").2 = Ok ("some" +:+ newline +:+ "t").
Proof. vm_compute. reflexivity. Qed.
Example loopback_refused : (sample_fetch 0 (ScrapeUrl 10 1000 6) "http://example.com/").2 =
  Raise (value_error "URL host 'example.com' resolved to disallowed address ''.").
Proof. vm_compute. reflexivity. Qed.

(** A name that resolves to the loopback address only once the request is made
    passes the check. *)
Example rebinding_passes :
  (fetched (trace (sample_fetch 4 (ScrapeUrl 10 1000 6) "http://example.com/page").1), resolver 4 4 "example.com" None) =
  (["http://example.com/page"], Ok [IPv4 (v4 127 0 0 1)]).
Proof. vm_compute. reflexivity. Qed.

(** One malformed link fails the whole page. *)
Example malformed_link : WebTools.collect_links (λ _, Ok tt) (λ _ l, Ok l) "http://example.com/" "example.com" false 10
  [("http://example.com/a", "A"); ("http://[", "bad")] [] [] = Raise invalid_ipv6.
Proof. vm_compute. reflexivity. Qed.

(** Deprecated site-local addresses count as safe. *)
Example site_local_allowed : _is_unsafe_ip (IPv6 (v6 65216 0 + 1)) = false.
Proof. vm_compute. reflexivity. Qed.

Lemma fetches_checked_witness :
  ∃ ev, trace (sample_fetch 100 (ExtractLinks false true 10 1000 5) "http://example.com/").1 = [] ++ ev ∧ length (fetched ev) ≤ 6.
Proof.
  destruct (fetches_checked _ _ _ _ _ _ _ _ _ _ _ _ _ _ _ (surjective_pairing
    (sample_fetch 100 (ExtractLinks false true 10 1000 5) "http://example.com/"))) as (ev & Htr & Hlen & _).
  exists ev. exact (conj Htr Hlen).
Defined.

Lemma answers_exact_witness :
  ∃ src, bounded_text (λ _ b, Ok b) 1000 src ∧
    ∃ rest, cleaned_text (page_text (sample_html src)) = ("some" +:+ newline +:+ "t") +:+ rest.
Proof.
  destruct (answers_exact (λ _, Ok tt) (λ _ l, Ok l) (λ _, "") (λ _ b, Ok b) (λ _, Ok PNone) sample_html (λ _, "0.5") "" (sample_network 100)
    (ScrapeUrl 10 1000 6) "http://example.com/" None {| tick := 0; trace := [] |}
    (sample_fetch 100 (ScrapeUrl 10 1000 6) "http://example.com/").1 ("some" +:+ newline +:+ "t")) as (src & Hsrc & _ & rest & Hrest & _).
  - vm_compute. reflexivity.
  - exists src. split; [exact Hsrc|]. exists rest. exact Hrest.
Defined.
