(* ===== verification/BuiltinTools.v ===== *)
(** The bundled tools as the registry and the model know them: their schemas,
    their Python signatures ([eap/environment/tools/]), the binding of a call's
    keyword arguments, and the registry of the runtime service.

    A tool is its name; what it does is in [FileTools] and [WebTools]. *)
From stdpp Require Import options.
From S2P Require Import Prelude Values Json ToolRegistry.
Unset Default Proof Using.

(** ** Schemas *)

Definition FETCH_SCHEMA : pyval :=
  PDict [("name", PStr "fetch_user_data"); ("description", PStr "Fetches massive amounts of raw data from the database.");
    ("parameters", PDict [("type", PStr "object");
      ("properties", PDict [
        ("query", PDict [("type", PStr "string")])]);
      ("required", PList [PStr "query"])])].

Definition ANALYZE_SCHEMA : pyval :=
  PDict [("name", PStr "analyze_data"); ("description", PStr "Analyzes raw data based on a specific focus.");
    ("parameters", PDict [("type", PStr "object");
      ("properties", PDict [
        ("raw_data", PDict [("type", PStr "string")]);
        ("focus", PDict [("type", PStr "string")])]);
      ("required", PList [PStr "raw_data"; PStr "focus"])])].

Definition SCRAPE_SCHEMA : pyval :=
  PDict [("name", PStr "scrape_url"); ("description", PStr "Fetches a URL and returns cleaned page text.");
    ("parameters", PDict [("type", PStr "object");
      ("properties", PDict [
        ("url", PDict [("type", PStr "string"); ("minLength", PInt 1); ("description", PStr "The full URL to scrape (e.g., https://example.com).")]);
        ("timeout_seconds", PDict [("type", PStr "integer"); ("minimum", PInt 1); ("maximum", PInt 120); ("description", PStr "HTTP timeout for the request.")]);
        ("max_bytes", PDict [("type", PStr "integer"); ("minimum", PInt 1); ("maximum", PInt 10000000); ("description", PStr "Maximum response size in bytes before failing.")]);
        ("max_characters", PDict [("type", PStr "integer"); ("minimum", PInt 1); ("maximum", PInt 500000); ("description", PStr "Maximum cleaned text characters to return.")])]);
      ("required", PList [PStr "url"]); ("additionalProperties", PBool false)])].

Definition FETCH_JSON_SCHEMA : pyval :=
  PDict [("name", PStr "fetch_json_url"); ("description", PStr "Fetches JSON from a URL and returns pretty-printed JSON text.");
    ("parameters", PDict [("type", PStr "object");
      ("properties", PDict [
        ("url", PDict [("type", PStr "string"); ("minLength", PInt 1); ("description", PStr "The full URL to fetch JSON from.")]);
        ("timeout_seconds", PDict [("type", PStr "integer"); ("minimum", PInt 1); ("maximum", PInt 120); ("description", PStr "HTTP timeout for the request.")]);
        ("max_bytes", PDict [("type", PStr "integer"); ("minimum", PInt 1); ("maximum", PInt 10000000); ("description", PStr "Maximum response size in bytes before failing.")])]);
      ("required", PList [PStr "url"]); ("additionalProperties", PBool false)])].

Definition EXTRACT_LINKS_SCHEMA : pyval :=
  PDict [("name", PStr "extract_links_from_url"); ("description", PStr "Extracts normalized links from a webpage and returns JSON metadata.");
    ("parameters", PDict [("type", PStr "object");
      ("properties", PDict [
        ("url", PDict [("type", PStr "string"); ("minLength", PInt 1); ("description", PStr "The full URL to extract links from.")]);
        ("same_domain_only", PDict [("type", PStr "boolean"); ("description", PStr "If true, only include links on the source domain.")]);
        ("include_text", PDict [("type", PStr "boolean"); ("description", PStr "If true, include anchor text for each link.")]);
        ("timeout_seconds", PDict [("type", PStr "integer"); ("minimum", PInt 1); ("maximum", PInt 120); ("description", PStr "HTTP timeout for the request.")]);
        ("max_bytes", PDict [("type", PStr "integer"); ("minimum", PInt 1); ("maximum", PInt 10000000); ("description", PStr "Maximum response size in bytes before failing.")]);
        ("max_links", PDict [("type", PStr "integer"); ("minimum", PInt 1); ("maximum", PInt 5000); ("description", PStr "Maximum number of links to return.")])]);
      ("required", PList [PStr "url"]); ("additionalProperties", PBool false)])].

Definition READ_FILE_SCHEMA : pyval :=
  PDict [("name", PStr "read_local_file"); ("description", PStr "Reads UTF-8 text content from a local file path.");
    ("parameters", PDict [("type", PStr "object");
      ("properties", PDict [
        ("file_path", PDict [("type", PStr "string"); ("minLength", PInt 1); ("description", PStr "The local file path to read.")]);
        ("max_characters", PDict [("type", PStr "integer"); ("minimum", PInt 1); ("maximum", PInt 1000000); ("description", PStr "Maximum characters to read before failing.")])]);
      ("required", PList [PStr "file_path"]); ("additionalProperties", PBool false)])].

Definition WRITE_FILE_SCHEMA : pyval :=
  PDict [("name", PStr "write_local_file"); ("description", PStr "Writes or appends UTF-8 text to a local file path.");
    ("parameters", PDict [("type", PStr "object");
      ("properties", PDict [
        ("file_path", PDict [("type", PStr "string"); ("minLength", PInt 1); ("description", PStr "The local file path to write.")]);
        ("content", PDict [("type", PStr "string"); ("description", PStr "UTF-8 text content to write to the file.")]);
        ("mode", PDict [("type", PStr "string"); ("enum", PList [PStr "overwrite"; PStr "append"]); ("description", PStr "Choose overwrite to replace content or append to add to existing content.")]);
        ("create_directories", PDict [("type", PStr "boolean"); ("description", PStr "Create missing parent directories before writing.")])]);
      ("required", PList [PStr "file_path"; PStr "content"]); ("additionalProperties", PBool false)])].

Definition LIST_DIRECTORY_SCHEMA : pyval :=
  PDict [("name", PStr "list_local_directory"); ("description", PStr "Lists files/directories from a local directory and returns JSON metadata.");
    ("parameters", PDict [("type", PStr "object");
      ("properties", PDict [
        ("directory_path", PDict [("type", PStr "string"); ("minLength", PInt 1); ("description", PStr "The local directory path to list.")]);
        ("recursive", PDict [("type", PStr "boolean"); ("description", PStr "Whether to include nested entries recursively.")]);
        ("include_hidden", PDict [("type", PStr "boolean"); ("description", PStr "Whether to include hidden entries (names starting with '.').")]);
        ("max_entries", PDict [("type", PStr "integer"); ("minimum", PInt 1); ("maximum", PInt 1000); ("description", PStr "Maximum number of entries to return.")])]);
      ("required", PList [PStr "directory_path"]); ("additionalProperties", PBool false)])].

Definition INVOKE_MCP_TOOL_SCHEMA : pyval :=
  PDict [("name", PStr "invoke_mcp_tool"); ("description", PStr "Invoke a tool on an external MCP stdio server and return its JSON result payload.");
    ("parameters", PDict [("type", PStr "object");
      ("properties", PDict [
        ("server_command", PDict [("type", PStr "string"); ("minLength", PInt 1)]);
        ("tool_name", PDict [("type", PStr "string"); ("minLength", PInt 1)]);
        ("tool_arguments", PDict [("type", PStr "object")]);
        ("timeout_seconds", PDict [("type", PStr "integer"); ("minimum", PInt 1); ("maximum", PInt 120)]);
        ("working_directory", PDict [("type", PStr "string"); ("minLength", PInt 1)]);
        ("require_listed_tool", PDict [("type", PStr "boolean")])]);
      ("required", PList [PStr "server_command"; PStr "tool_name"]); ("additionalProperties", PBool false)])].

Definition INVOKE_OPENCLAW_TOOL_SCHEMA : pyval :=
  PDict [("name", PStr "invoke_openclaw_tool"); ("description", PStr "Invoke an OpenClaw gateway tool through HTTP /tools/invoke and return JSON response payload.");
    ("parameters", PDict [("type", PStr "object");
      ("properties", PDict [
        ("base_url", PDict [("type", PStr "string"); ("minLength", PInt 1)]);
        ("api_key", PDict [("type", PStr "string"); ("minLength", PInt 1)]);
        ("tool_name", PDict [("type", PStr "string"); ("minLength", PInt 1)]);
        ("tool_arguments", PDict [("type", PStr "object")]);
        ("timeout_seconds", PDict [("type", PStr "integer"); ("minimum", PInt 1); ("maximum", PInt 120)]);
        ("account_id", PDict [("type", PStr "string"); ("minLength", PInt 1)]);
        ("channel_id", PDict [("type", PStr "string"); ("minLength", PInt 1)])]);
      ("required", PList [PStr "base_url"; PStr "api_key"; PStr "tool_name"]); ("additionalProperties", PBool false)])].

(** ** Signatures *)

(** The annotations of the parameters. *)
Inductive annotation := TStr | TInt | TBool | TOptStr | TOptDict | TOptHosts.
Record parameter := { pname : string; panno : annotation; pdefault : option pyval }.
Definition required_parameter (n : string) (a : annotation) : parameter := {| pname := n; panno := a; pdefault := None |}.
Definition optional_parameter (n : string) (a : annotation) (v : pyval) : parameter := {| pname := n; panno := a; pdefault := Some v |}.

Inductive builtin :=
  | fetch_user_data | analyze_data | scrape_url | fetch_json_url | extract_links_from_url
  | read_local_file | write_local_file | list_local_directory | invoke_mcp_tool | invoke_openclaw_tool.

#[global] Instance builtin_eq_dec : EqDecision builtin.
Proof. solve_decision. Defined.

Definition builtins : list builtin :=
  [fetch_user_data; analyze_data; scrape_url; fetch_json_url; extract_links_from_url;
   read_local_file; write_local_file; list_local_directory; invoke_mcp_tool; invoke_openclaw_tool].

Definition name_of (t : builtin) : string :=
  match t with
  | fetch_user_data => "fetch_user_data" | analyze_data => "analyze_data" | scrape_url => "scrape_url" | fetch_json_url => "fetch_json_url"
  | extract_links_from_url => "extract_links_from_url" | read_local_file => "read_local_file" | write_local_file => "write_local_file"
  | list_local_directory => "list_local_directory" | invoke_mcp_tool => "invoke_mcp_tool" | invoke_openclaw_tool => "invoke_openclaw_tool"
  end.
Definition schema_of (t : builtin) : pyval :=
  match t with
  | fetch_user_data => FETCH_SCHEMA | analyze_data => ANALYZE_SCHEMA | scrape_url => SCRAPE_SCHEMA | fetch_json_url => FETCH_JSON_SCHEMA
  | extract_links_from_url => EXTRACT_LINKS_SCHEMA | read_local_file => READ_FILE_SCHEMA | write_local_file => WRITE_FILE_SCHEMA
  | list_local_directory => LIST_DIRECTORY_SCHEMA | invoke_mcp_tool => INVOKE_MCP_TOOL_SCHEMA | invoke_openclaw_tool => INVOKE_OPENCLAW_TOOL_SCHEMA
  end.

Definition web_parameters (more : list parameter) : list parameter :=
  [optional_parameter "timeout_seconds" TInt (PInt 10); optional_parameter "max_bytes" TInt (PInt 1000000)] ++ more ++
  [optional_parameter "host_allowlist" TOptHosts PNone].
Definition fetch_user_data_parameters : list parameter := [required_parameter "query" TStr].
Definition analyze_data_parameters : list parameter := [required_parameter "raw_data" TStr; required_parameter "focus" TStr].
Definition scrape_url_parameters : list parameter :=
  required_parameter "url" TStr :: web_parameters [optional_parameter "max_characters" TInt (PInt 100000)].
Definition fetch_json_url_parameters : list parameter := required_parameter "url" TStr :: web_parameters [].
Definition extract_links_parameters : list parameter :=
  [required_parameter "url" TStr; optional_parameter "same_domain_only" TBool (PBool false); optional_parameter "include_text" TBool (PBool false)] ++
  web_parameters [optional_parameter "max_links" TInt (PInt 200)].
Definition read_local_file_parameters : list parameter :=
  [required_parameter "file_path" TStr; optional_parameter "max_characters" TInt (PInt 200000); optional_parameter "sandbox_root" TOptStr PNone].
Definition write_local_file_parameters : list parameter :=
  [required_parameter "file_path" TStr; required_parameter "content" TStr; optional_parameter "mode" TStr (PStr "overwrite");
   optional_parameter "create_directories" TBool (PBool false); optional_parameter "sandbox_root" TOptStr PNone].
Definition list_local_directory_parameters : list parameter :=
  [required_parameter "directory_path" TStr; optional_parameter "recursive" TBool (PBool false); optional_parameter "include_hidden" TBool (PBool false);
   optional_parameter "max_entries" TInt (PInt 200); optional_parameter "sandbox_root" TOptStr PNone].
Definition invoke_mcp_tool_parameters : list parameter :=
  [required_parameter "server_command" TStr; required_parameter "tool_name" TStr; optional_parameter "tool_arguments" TOptDict PNone;
   optional_parameter "timeout_seconds" TInt (PInt 30); optional_parameter "working_directory" TOptStr PNone;
   optional_parameter "require_listed_tool" TBool (PBool true)].
Definition invoke_openclaw_tool_parameters : list parameter :=
  [required_parameter "base_url" TStr; required_parameter "api_key" TStr; required_parameter "tool_name" TStr;
   optional_parameter "tool_arguments" TOptDict PNone; optional_parameter "timeout_seconds" TInt (PInt 30);
   optional_parameter "account_id" TOptStr PNone; optional_parameter "channel_id" TOptStr PNone].

Definition signature (t : builtin) : list parameter :=
  match t with
  | fetch_user_data => fetch_user_data_parameters | analyze_data => analyze_data_parameters | scrape_url => scrape_url_parameters
  | fetch_json_url => fetch_json_url_parameters | extract_links_from_url => extract_links_parameters | read_local_file => read_local_file_parameters
  | write_local_file => write_local_file_parameters | list_local_directory => list_local_directory_parameters
  | invoke_mcp_tool => invoke_mcp_tool_parameters | invoke_openclaw_tool => invoke_openclaw_tool_parameters
  end.

(** A call with keyword arguments: the values of the parameters, or why the call fails. *)
Definition argument (arguments : list (string * pyval)) (p : parameter) : result pyval :=
  match dict_get arguments (pname p), pdefault p with
  | Some v, _ => Ok v
  | None, Some d => Ok d
  | None, None => Raise (py_type_error ("missing required argument: '" +:+ pname p +:+ "'"))
  end.
Definition bind_call (t : builtin) (arguments : list (string * pyval)) : result (list pyval) :=
  match List.find (λ k, negb (bool_decide (k ∈ map pname (signature t)))) arguments.*1 with
  | Some k => Raise (py_type_error (name_of t +:+ "() got an unexpected keyword argument '" +:+ k +:+ "'"))
  | None => map_result (argument arguments) (signature t)
  end.

Definition has_annotation (a : annotation) (v : pyval) : bool :=
  match a, v with
  | TStr, PStr _ | TInt, PInt _ | TBool, PBool _ | TOptStr, (PNone | PStr _) | TOptDict, (PNone | PDict _) => true
  | TOptHosts, PNone => true
  | TOptHosts, PList l => forallb is_str l
  | _, _ => false
  end.

(** ** Registries *)

(** The [parameters] block of a schema. *)
Definition parameters_of (schema : pyval) : pyval := default (PDict []) (py_get schema "parameters").

Section registries.
Context (sha256_hex : string → string) (float_repr : Q → string).
(** Whether [jsonschema] is installed, and accepts a schema. *)
Context (jsonschema_available : bool) (check_schema : pyval → bool).

Definition register_builtin (r : registry (func := builtin)) (t : builtin) : result registry :=
  register sha256_hex float_repr jsonschema_available check_schema r (Plain (PStr (name_of t))) (Callable t) (Plain (schema_of t)).
(** A registry of the given tools. *)
Definition register_all (l : list builtin) : result registry := fold_result register_builtin empty_registry l.

(** [_register_default_tools] of the runtime service. *)
Definition _register_default_tools (r : registry (func := builtin)) : result registry :=
  r ← register_builtin r fetch_user_data; register_builtin r analyze_data.

(** What registering the tools comes to. *)
Definition compiled (t : builtin) : bool :=
  let params := parameters_of (schema_of t) in jsonschema_available && is_dict params && check_schema params.
Definition registered (l : list builtin) : registry (func := builtin) :=
  {| _tools := (λ t, (name_of t, t)) <$> l; _schemas := (λ t, (name_of t, schema_of t)) <$> l;
     _hashes := (λ t, (name_of t, hashed_name sha256_hex float_repr (name_of t) (schema_of t))) <$> l;
     _validators := (λ t, (name_of t, parameters_of (schema_of t))) <$> List.filter compiled l |}.

Lemma name_of_inj t u : name_of t = name_of u → t = u.
Proof. by destruct t, u. Qed.

Lemma fresh_name {V} (f : builtin → V) l t : t ∉ l → name_of t ∉ ((λ t, (name_of t, f t)) <$> l).*1.
Proof.
  intros Ht Hin. rewrite <- list_fmap_compose in Hin. apply list_elem_of_fmap in Hin as (u & Hu & Hin). cbn in Hu.
  apply name_of_inj in Hu as ->. done.
Qed.
Lemma dict_set_new {V} (d : list (string * V)) k v : k ∉ d.*1 → dict_set d k v = d ++ [(k, v)].
Proof.
  induction d as [|[k' v'] d IH]; [done|]. rewrite fmap_cons, not_elem_of_cons. intros [Hne Hd]. cbn in Hne |- *.
  rewrite decide_False by congruence. by rewrite IH.
Qed.
Lemma dict_del_new {V} (d : list (string * V)) k : k ∉ d.*1 → dict_del d k = d.
Proof.
  unfold dict_del. induction d as [|[k' v'] d IH]; [done|]. rewrite fmap_cons, not_elem_of_cons. intros [Hne Hd]. cbn in Hne.
  rewrite filter_cons_True by (cbn; congruence). by rewrite IH.
Qed.

Lemma register_next l t : t ∉ l → register_builtin (registered l) t = Ok (registered (l ++ [t])).
Proof.
  intros Ht. assert (t ∉ List.filter compiled l) as Hf.
  { intros Hin. apply Ht. rewrite list_elem_of_In in Hin |- *. by apply filter_In in Hin as [? _]. }
  transitivity (Ok (A := registry (func := builtin))
    {| _tools := dict_set (_tools (registered l)) (name_of t) t; _schemas := dict_set (_schemas (registered l)) (name_of t) (schema_of t);
       _hashes := dict_set (_hashes (registered l)) (name_of t) (hashed_name sha256_hex float_repr (name_of t) (schema_of t));
       _validators := if compiled t then dict_set (dict_del (_validators (registered l)) (name_of t)) (name_of t) (parameters_of (schema_of t))
                      else dict_del (_validators (registered l)) (name_of t) |}).
  { destruct t; reflexivity. }
  f_equal. unfold registered. cbn [_tools _schemas _hashes _validators]. rewrite List.filter_app, !fmap_app.
  rewrite !dict_set_new by by apply fresh_name. rewrite dict_del_new by by apply fresh_name. cbn [List.filter].
  destruct (compiled t); [|by rewrite app_nil_r]. by rewrite dict_set_new by by apply fresh_name.
Qed.

Lemma register_all_eq l : NoDup l → register_all l = Ok (registered l).
Proof.
  intros Hnd. enough (∀ d, NoDup (d ++ l) → fold_result register_builtin (registered d) l = Ok (registered (d ++ l))) as H by by apply (H []).
  clear Hnd. induction l as [|t l IH]; intros d Hnd; cbn [fold_result]; [by rewrite app_nil_r|]. rewrite register_next.
  - cbn [mbind result_bind]. rewrite IH; [by rewrite <- app_assoc|by rewrite <- app_assoc].
  - apply NoDup_app in Hnd as (_ & Hd & _). intros Hin. apply (Hd t Hin). left.
Qed.
Lemma default_tools : _register_default_tools empty_registry = register_all [fetch_user_data; analyze_data].
Proof. reflexivity. Qed.

Lemma dict_get_named {V} (f : builtin → V) l n : dict_get ((λ t, (name_of t, f t)) <$> l) n =
  f <$> List.find (λ t, bool_decide (name_of t = n)) l.
Proof.
  induction l as [|t l IH]; [done|]. rewrite fmap_cons. cbn [dict_get List.find]. rewrite IH.
  destruct (decide (name_of t = n)); [by rewrite bool_decide_eq_true_2|by rewrite bool_decide_eq_false_2].
Qed.

(** A reference resolves to a tool's function, to the schema of that tool, and
    to its validator if it has one. *)
Lemma registered_lookup l ref t : get_tool (registered l) ref = Ok t →
  t ∈ l ∧ _resolve_original_name (registered l) ref = Ok (name_of t) ∧ get_schema (registered l) ref = Ok (schema_of t) ∧
  dict_get (_validators (registered l)) (name_of t) = if compiled t then Some (parameters_of (schema_of t)) else None.
Proof.
  unfold get_tool, get_schema. intros (n & Hn & H)%bind_Ok. rewrite Hn. cbn [mbind result_bind]. unfold dict_index in *.
  cbn [_tools _schemas _validators registered] in *. rewrite (dict_get_named (λ t, t)) in H. rewrite (dict_get_named schema_of).
  destruct (List.find _ l) as [u|] eqn:E; [|done]. cbn in H. injection H as ->.
  apply List.find_some in E as [Hin Hname%bool_decide_eq_true]. subst n. split_and!; [by apply list_elem_of_In|done|done|].
  rewrite (dict_get_named (λ t, parameters_of (schema_of t))). destruct (List.find _ (List.filter _ _)) as [u|] eqn:E.
  - apply List.find_some in E as [[_ Hu]%filter_In Hname%bool_decide_eq_true]. apply name_of_inj in Hname as ->. by rewrite Hu.
  - destruct (compiled t) eqn:Hc; [|done]. eapply List.find_none in E; [|apply filter_In; split; [exact Hin|done]].
    by rewrite bool_decide_eq_true_2 in E.
Qed.
End registries.

(** ** Schemas that fit their functions *)

Definition properties_of (schema : pyval) : list (string * pyval) :=
  match py_get schema "parameters" ≫= λ p, py_get p "properties" with Some (PDict d) => d | _ => [] end.
Definition required_of (schema : pyval) : list pyval :=
  match py_get schema "parameters" ≫= λ p, py_get p "required" with Some (PList l) => l | _ => [] end.
Definition closed (schema : pyval) : bool :=
  match py_get schema "parameters" ≫= λ p, py_get p "additionalProperties" with Some (PBool b) => negb b | _ => false end.

(** The schema types a parameter can be given by. *)
Definition type_fits (a : annotation) (type : option pyval) : bool :=
  match a, type with
  | (TStr | TOptStr), Some (PStr "string") | TInt, Some (PStr "integer") | TBool, Some (PStr "boolean") | TOptDict, Some (PStr "object") => true
  | _, _ => false
  end.
Definition parameter_fits (schema : pyval) (p : parameter) : bool :=
  let default_fits := match pdefault p with Some d => has_annotation (panno p) d | None => true end in
  match dict_get (properties_of schema) (pname p) with
  | Some (PDict fs) =>
      type_fits (panno p) (dict_get fs "type") && default_fits &&
      match pdefault p with None => existsb (py_eqb (PStr (pname p))) (required_of schema) | Some _ => true end
  | Some _ => false
  | None => default_fits && negb (is_None (pdefault p))
  end.
(** Every property is a parameter, and every parameter can be had from the
    schema or by default. *)
Definition fits (t : builtin) : bool :=
  forallb (λ kv, bool_decide (kv.1 ∈ map pname (signature t)) && typed_field kv.2) (properties_of (schema_of t)) &&
  forallb (parameter_fits (schema_of t)) (signature t) && forallb is_str (required_of (schema_of t)).

(** A property schema as [jsonschema] reads it: to it a float without a
    fractional part is an integer too. *)
Definition integral (v : pyval) (z : Z) : Prop := ∃ q, v = PFloat q ∧ (q == inject_Z z)%Q.
Definition admitted (fs : list (string * pyval)) (v : pyval) : Prop := field_ok fs v ∨ ∃ z, integral v z ∧ field_ok fs (PInt z).

(** What a validated call gives a parameter; [lenient] when [jsonschema] may
    have validated it. *)
Record value_ok (lenient : bool) (schema : pyval) (p : parameter) (v : pyval) : Prop := {
  vo_typed : has_annotation (panno p) v = true ∨ lenient = true ∧ panno p = TInt ∧ ∃ z, integral v z;
  vo_schema : ∀ fs, dict_get (properties_of schema) (pname p) = Some (PDict fs) →
    pdefault p = Some v ∨ field_ok fs v ∨ lenient = true ∧ admitted fs v;
  vo_hidden : dict_get (properties_of schema) (pname p) = None → pdefault p = Some v
}.

Lemma type_fits_ok a fs v : type_fits a (dict_get fs "type") = true → field_ok fs v → has_annotation a v = true.
Proof.
  intros Hf [Hty _ _ _ _]. destruct (dict_get fs "type") as [[| | | |t| |]|]; try by destruct a.
  specialize (Hty t eq_refl). apply (proj2 (has_type_valid (λ _, "") t v)) in Hty. unfold type_fits in Hf.
  destruct a; repeat case_match; simplify_eq; try done; by destruct v.
Qed.
Lemma annotated_int a z : has_annotation a (PInt z) = true → a = TInt.
Proof. by destruct a. Qed.

(** What passed the checks: every required field, no unknown one if the schema
    is closed, and values as the schema says. *)
Record checked (lenient : bool) (t : builtin) (args : list (string * pyval)) : Prop := {
  ck_required k : PStr k ∈ required_of (schema_of t) → k ∈ args.*1;
  ck_closed k : closed (schema_of t) = true → k ∈ args.*1 → k ∈ (properties_of (schema_of t)).*1;
  ck_fields k v fs : (k, v) ∈ args → dict_get (properties_of (schema_of t)) k = Some (PDict fs) →
    field_ok fs v ∨ lenient = true ∧ admitted fs v
}.

Lemma parameter_value lenient t args p : checked lenient t args →
  (closed (schema_of t) = false → ∀ k, k ∈ map pname (signature t) → k ∈ (properties_of (schema_of t)).*1) →
  parameter_fits (schema_of t) p = true → p ∈ signature t →
  ∃ v, argument args p = Ok v ∧ value_ok lenient (schema_of t) p v.
Proof.
  intros [Hreq Hclosed Hfields] Hopen Hfit Hp. unfold parameter_fits in Hfit. unfold argument.
  destruct (dict_get (properties_of (schema_of t)) (pname p)) as [fs|] eqn:Efs.
  - destruct fs as [| | | | | |fs]; try done. apply andb_true_iff in Hfit as [[Hty Hd]%andb_true_iff Hr].
    destruct (dict_get args (pname p)) as [v|] eqn:Ev.
    + exists v. split; [done|]. apply dict_get_elem in Ev. pose proof (Hfields _ _ _ Ev Efs) as Hok. split; [|intros fs' [= <-]%(eq_trans (eq_sym Efs)); by right|congruence].
      destruct Hok as [Hok|(Hl & [Hok|(z & Hv & Hok)])]; [left; by eapply type_fits_ok..|right].
      split_and!; [done|by eapply annotated_int, type_fits_ok|by exists z].
    + destruct (pdefault p) as [d|] eqn:Ed.
      * exists d. split; [done|]. split; [by left|by left|done].
      * exfalso. apply existsb_exists in Hr as (r & Hr & Heq). apply dict_get_None in Ev. apply Ev, Hreq, list_elem_of_In.
        destruct r; try done. cbn in Heq. apply bool_decide_eq_true in Heq. by subst.
  - apply andb_true_iff in Hfit as [Hd Hsome]. destruct (pdefault p) as [d|] eqn:Ed; [|done]. apply dict_get_None in Efs.
    assert (dict_get args (pname p) = None) as ->.
    { apply dict_get_None. intros Hin. destruct (closed (schema_of t)) eqn:Ec; [by apply Efs, Hclosed|].
      apply Efs, Hopen; [done|]. apply list_elem_of_In, in_map. by apply list_elem_of_In. }
    exists d. split; [done|]. split; [by left|intros fs Hfs; apply dict_get_None in Efs; congruence|done].
Qed.

Definition required_names (schema : pyval) : list string := omap (λ v, match v with PStr k => Some k | _ => None end) (required_of schema).

(** The schemas have the shape the argument checks are characterised for. *)
Lemma schema_shape t : params_shape (parameters_of (schema_of t)) (required_names (schema_of t)) (properties_of (schema_of t)) (negb (closed (schema_of t))).
Proof.
  assert (fits t = true) as Hfit by (by destruct t). unfold fits in Hfit. apply andb_true_iff in Hfit as [[Hp _]%andb_true_iff _].
  unfold params_shape. split_and!; [by destruct t..|]. rewrite forallb_forall in Hp. rewrite Forall_forall. intros kv Hin%list_elem_of_In.
  apply Hp, andb_true_iff in Hin. tauto.
Qed.

Lemma find_none_iff (l names : list string) : (∀ k, k ∈ l → k ∈ names) → List.find (λ k, negb (bool_decide (k ∈ names))) l = None.
Proof.
  intros H. destruct (List.find _ l) as [k|] eqn:E; [|done]. apply List.find_some in E as [Hk Hn].
  apply list_elem_of_In, H in Hk. by rewrite bool_decide_eq_true_2 in Hn.
Qed.

Lemma map_result_each {A B} (f : A → result B) (R : A → B → Prop) l : (∀ a, a ∈ l → ∃ b, f a = Ok b ∧ R a b) →
  ∃ bs, map_result f l = Ok bs ∧ Forall2 R l bs.
Proof.
  induction l as [|a l IH]; intros H; [by exists []|]. destruct (H a) as (b & Hb & HR); [left|].
  destruct IH as (bs & Hbs & HRs); [intros x Hx; apply H; by right|]. exists (b :: bs). cbn [map_result]. rewrite Hb. cbn [mbind result_bind].
  rewrite Hbs. split; [done|by constructor].
Qed.

Section calls.
Context (sha256_hex : string → string) (float_repr : Q → string) (jsonschema_available : bool) (check_schema : pyval → bool).
Context (jsonschema_validate : pyval → pyval → verdict).

(** What a JSON Schema (Draft 2020-12) validator accepts, for schemas of the
    keywords the tools use. *)
Definition jsonschema_law : Prop := ∀ params required properties additional args,
  params_shape params required properties additional → jsonschema_validate params (PDict args) = Valid →
  (∀ k, k ∈ required → k ∈ args.*1) ∧ (additional = false → ∀ k, k ∈ args.*1 → k ∈ properties.*1) ∧
  ∀ k v fs, (k, v) ∈ args → dict_get properties k = Some (PDict fs) → admitted fs v.

Lemma validated_checked l t ref args : jsonschema_law →
  get_tool (registered sha256_hex float_repr jsonschema_available check_schema l) ref = Ok t →
  validate_arguments float_repr jsonschema_validate (registered sha256_hex float_repr jsonschema_available check_schema l) ref (PDict args) = Ok tt →
  checked jsonschema_available t args.
Proof.
  intros Hlaw Hget Hval. apply registered_lookup in Hget as (_ & Hname & Hschema & Hv).
  unfold validate_arguments in Hval. rewrite Hschema, Hname in Hval. cbn [mbind result_bind] in Hval. rewrite Hv in Hval. clear Hv Hname Hschema.
  assert (attr_get (schema_of t) "parameters" = Ok (Some (parameters_of (schema_of t)))) as Hp by (by destruct t).
  rewrite Hp in Hval. cbn [mbind result_bind default from_option id] in Hval.
  assert (attr_get (parameters_of (schema_of t)) "type" = Ok (Some (PStr "object"))) as Ht by (by destruct t).
  rewrite Ht in Hval. cbn -[_validate_arguments_builtin compiled] in Hval.
  assert ((∀ k, PStr k ∈ required_of (schema_of t) → k ∈ required_names (schema_of t)) ∧
    (closed (schema_of t) = true → negb (closed (schema_of t)) = false)) as [Hr Hc].
  { split; [|by intros ->]. intros k Hk. apply list_elem_of_omap. by exists (PStr k). }
  destruct (compiled jsonschema_available check_schema t) eqn:Ec.
  - assert (jsonschema_available = true) as -> by (by destruct jsonschema_available).
    destruct (jsonschema_validate _ _) eqn:Ev; try done.
    destruct (Hlaw _ _ _ _ _ (schema_shape t) Ev) as (H1 & H2 & H3). split; [by auto|by auto|]. intros k v fs Hin Hfs. right. eauto.
  - apply (validate_arguments_builtin_Ok float_repr _ _ _ _ _ _ _ (schema_shape t)) in Hval as (H1 & H2 & H3).
    split; [by auto|by auto|]. intros k v fs Hin Hfs. left. eauto.
Qed.

(** C23: In a registry of any of the bundled tools, with or without
    [jsonschema], arguments that pass validation for a tool - by name or hashed
    name - bind to the parameters of its function: none is missing; none is
    unknown (of the two demonstration tools, whose schemas leave unknown fields
    open, provided that all names are parameters); each value has the type the
    parameter is annotated with and is the default or as the schema says, but
    that with [jsonschema] an integer within the schema's bounds may come as a
    float without a fractional part; and a parameter the schema does not name,
    such as the host allowlist or the sandbox root, always has its default. *)
Theorem validated_calls_bind l r t ref args : jsonschema_law →
  NoDup l → register_all sha256_hex float_repr jsonschema_available check_schema l = Ok r →
  get_tool r ref = Ok t → validate_arguments float_repr jsonschema_validate r ref (PDict args) = Ok tt →
  closed (schema_of t) = true ∨ (∀ k, k ∈ args.*1 → k ∈ map pname (signature t)) →
  ∃ values, bind_call t args = Ok values ∧ Forall2 (value_ok jsonschema_available (schema_of t)) (signature t) values.
Proof.
  intros Hlaw Hnd Hreg Hget Hval Hopen. rewrite register_all_eq in Hreg by done. injection Hreg as <-.
  pose proof (validated_checked l t ref args Hlaw Hget Hval) as Hck.
  assert (fits t = true) as Hfit by (by destruct t). unfold fits in Hfit. apply andb_true_iff in Hfit as [[Hprops Hparams]%andb_true_iff _].
  rewrite forallb_forall in Hprops, Hparams. unfold bind_call. rewrite find_none_iff.
  - apply map_result_each. intros p Hin. apply parameter_value with (args := args); [done| |by apply Hparams, list_elem_of_In|done].
    intros Hc k Hk. destruct t; try done; by vm_compute in Hk |- *.
  - destruct Hopen as [Hc|Hopen]; [|done]. intros k Hk%(ck_closed _ _ _ Hck); [|done]. apply list_elem_of_fmap in Hk as ([k' fs] & -> & Hin).
    apply list_elem_of_In, Hprops, andb_true_iff in Hin as [Hin _]. by apply bool_decide_eq_true in Hin.
Qed.

Lemma bounded_int schema p v lo hi d fs : value_ok false schema p v → panno p = TInt → pdefault p = Some (PInt d) → (lo <= d <= hi)%Z →
  dict_get (properties_of schema) (pname p) = Some (PDict fs) → dict_get fs "type" = Some (PStr "integer") →
  bound_of fs "minimum" = Some (inject_Z lo) → bound_of fs "maximum" = Some (inject_Z hi) →
  ∃ z, v = PInt z ∧ (lo <= z <= hi)%Z.
Proof.
  intros [Hty Hs _] Ha Hd Hr Hfs Hi Hlo Hhi. destruct Hty as [Hty|[? _]]; [|done]. rewrite Ha in Hty. destruct v as [| |z| | | |]; try done. exists z. split; [done|].
  destruct (Hs fs Hfs) as [Heq|[Hok|[? _]]]; [assert (z = d) as -> by congruence; done| |done].
  destruct (ok_number _ _ Hok (inject_Z z) (or_introl Hi) eq_refl) as [H1 H2]. specialize (H1 _ Hlo). specialize (H2 _ Hhi).
  by rewrite <- Zle_Qle in H1, H2.
Qed.
End calls.

(** A scrape that the built-in checks validated passes the tool's own argument checks and has no host
    allowlist but the environment's. *)
Corollary scrape_in_range values : Forall2 (value_ok false SCRAPE_SCHEMA) (signature scrape_url) values →
  ∃ url timeout_seconds max_bytes max_characters, values = [PStr url; PInt timeout_seconds; PInt max_bytes; PInt max_characters; PNone] ∧
    url ≠ "" ∧ (1 <= timeout_seconds <= 120)%Z ∧ (1 <= max_bytes <= 10000000)%Z ∧ (1 <= max_characters <= 500000)%Z.
Proof.
  intros (u & l & Hu & H & ->)%Forall2_cons_inv_l. apply Forall2_cons_inv_l in H as (t & l1 & Ht & H & ->).
  apply Forall2_cons_inv_l in H as (b & l2 & Hb & H & ->). apply Forall2_cons_inv_l in H as (c & l3 & Hc & H & ->).
  apply Forall2_cons_inv_l in H as (a & l4 & Ha & H & ->). apply Forall2_nil_inv_l in H as ->.
  destruct (bounded_int _ _ _ 1 120 10 _ Ht eq_refl eq_refl ltac:(lia) eq_refl eq_refl eq_refl eq_refl) as (t' & -> & Ht').
  destruct (bounded_int _ _ _ 1 10000000 1000000 _ Hb eq_refl eq_refl ltac:(lia) eq_refl eq_refl eq_refl eq_refl) as (b' & -> & Hb').
  destruct (bounded_int _ _ _ 1 500000 100000 _ Hc eq_refl eq_refl ltac:(lia) eq_refl eq_refl eq_refl eq_refl) as (c' & -> & Hc').
  destruct Hu as [[Hty|[? _]] Hs _]; [|done]. destruct u as [| | | |url| |]; try done.
  exists url, t', b', c'. split_and!; [|intros ->|lia..].
  - pose proof (vo_hidden _ _ _ _ Ha eq_refl) as [= <-]. done.
  - destruct (Hs _ eq_refl) as [[=]|[Hok|[[=] _]]]. destruct (ok_string _ _ Hok eq_refl) as [Hmin _]. specialize (Hmin 1%Q eq_refl). by vm_compute in Hmin.
Qed.

(** ** Concrete calls *)

(** A validator for the keywords the tools' schemas use. *)
Definition as_integer (v : pyval) : pyval :=
  match v with PFloat q => if Qeq_bool q (inject_Z (Qround.Qfloor q)) then PInt (Qround.Qfloor q) else v | _ => v end.
Definition accepts (props : list (string * pyval)) (k : string) (v : pyval) : bool :=
  is_ok (validate_field (λ _, "0.5") (PDict props) k v).
Definition sample_validate (params arguments : pyval) : verdict :=
  match arguments, py_get params "properties" with
  | PDict args, Some (PDict props) =>
      let required := match default (PList []) (py_get params "required") with PList l => l | _ => [] end in
      let additional := default (PBool true) (py_get params "additionalProperties") in
      if forallb (λ k, existsb (λ kv : string * pyval, py_eqb (PStr kv.1) k) args) required &&
         (py_eqb additional (PBool true) || forallb (λ kv : string * pyval, bool_decide (kv.1 ∈ props.*1)) args) &&
         forallb (λ kv, accepts props kv.1 kv.2 || accepts props kv.1 (as_integer kv.2)) args
      then Valid else Invalid [] "not valid"
  | _, _ => Invalid [] "not an object"
  end.

Lemma as_integer_integral v : as_integer v = v ∨ ∃ z, integral v z ∧ as_integer v = PInt z.
Proof.
  destruct v as [| | |q| | |]; try by left. simpl. destruct (Qeq_bool _ _) eqn:E; [right|by left].
  apply Qeq_bool_iff in E. eexists. split; [by exists q|done].
Qed.

Lemma sample_validate_law : jsonschema_law sample_validate.
Proof.
  intros params required props additional args (Hp & Hr & Ha & Ht). unfold sample_validate. rewrite Hp, Hr, Ha.
  destruct (_ && _) eqn:E; [|done]. intros _. apply andb_true_iff in E as [[E1 E2]%andb_true_iff E3]. rewrite forallb_forall in E1, E3. split_and!.
  - intros k Hk. destruct (proj1 (existsb_exists _ _) (E1 (PStr k) ltac:(apply list_elem_of_In, list_elem_of_fmap; eauto))) as ([k' v] & Hin & Heq).
    cbn in Heq. apply bool_decide_eq_true in Heq as ->. apply list_elem_of_fmap. exists (k, v). split; [done|by apply list_elem_of_In].
  - intros -> k ([k' v] & -> & Hin)%list_elem_of_fmap. apply orb_true_iff in E2 as [E2|E2]; [done|]. rewrite forallb_forall in E2. apply list_elem_of_In, E2 in Hin.
    by apply bool_decide_eq_true in Hin.
  - intros k v fs Hin Hfs. apply list_elem_of_In, E3 in Hin. cbn [fst snd] in Hin.
    assert (∀ w, accepts props k w = true → field_ok fs w) as Hacc.
    { intros w Hw. unfold accepts, is_ok in Hw. destruct (validate_field _ _ _ _) as [[]|] eqn:Ev; [|done].
      revert fs Hfs. apply (validate_field_Ok (λ _, "0.5")); [|exact Ev]. intros fs' Hfs'. rewrite Forall_forall in Ht. by apply (Ht (k, fs')), dict_get_elem. }
    apply orb_true_iff in Hin as [Hin|Hin]; [left; by apply Hacc|].
    destruct (as_integer_integral v) as [Heq|(z & Hz & Heq)]; rewrite Heq in Hin; [left; by apply Hacc|right].
    exists z. split; [done|by apply Hacc].
Qed.

Definition sample_args : list (string * pyval) := [("url", PStr "http://example.com/"); ("max_characters", PInt 500)].
Definition bundled (jsonschema_available : bool) : registry (func := builtin) :=
  match register_all (λ _, "0123456789abcdef") (λ _, "0.5") jsonschema_available (λ _, true) builtins with Ok r => r | Raise _ => empty_registry end.
Definition validate (jsonschema_available : bool) (ref : string) (args : list (string * pyval)) : result unit :=
  validate_arguments (λ _, "0.5") sample_validate (bundled jsonschema_available) ref (PDict args).

Example bound_scrape : bind_call scrape_url sample_args = Ok [PStr "http://example.com/"; PInt 10; PInt 1000000; PInt 500; PNone].
Proof. vm_compute. reflexivity. Qed.
(** A call cannot widen the host allowlist or move the sandbox. *)
Example allowlist_refused : ∀ b, is_ok (validate b "scrape_url" (("host_allowlist", PList [PStr "localhost"]) :: sample_args)) = false.
Proof. intros []; vm_compute; reflexivity. Qed.
(** An unknown argument of the demonstration tools passes validation and fails
    the call. *)
Example unknown_accepted : ∀ b, validate b "fetch_user_data" [("query", PStr "q"); ("limit", PInt 3)] = Ok tt ∧
  is_ok (bind_call fetch_user_data [("query", PStr "q"); ("limit", PInt 3)]) = false.
Proof. intros []; split; vm_compute; reflexivity. Qed.
(** With [jsonschema], a float that is a whole number is an integer. *)
Example whole_float : let args := [("file_path", PStr "a.txt"); ("max_characters", PFloat 5)] in
  validate true "read_local_file" args = Ok tt ∧ is_ok (validate false "read_local_file" args) = false ∧
  bind_call read_local_file args = Ok [PStr "a.txt"; PFloat 5; PNone].
Proof. split_and!; vm_compute; reflexivity. Qed.

Lemma validated_calls_bind_witness :
  ∃ values, bind_call scrape_url sample_args = Ok values ∧ Forall2 (value_ok true SCRAPE_SCHEMA) (signature scrape_url) values.
Proof.
  apply (validated_calls_bind (λ _, "0123456789abcdef") (λ _, "0.5") true (λ _, true) sample_validate builtins (bundled true) scrape_url "scrape_url" sample_args).
  - apply sample_validate_law.
  - apply (bool_decide_unpack _). vm_compute. exact I.
  - vm_compute. reflexivity.
  - vm_compute. reflexivity.
  - vm_compute. reflexivity.
  - left. reflexivity.
Defined.
