(* ===== verification/Providers.v ===== *)
(** The LLM providers ([eap/agent/providers]) and the HTTP client they share
    ([eap/protocol/http_client.py]).

    What a server answers depends on when it is asked: it is given by the number
    of requests sent so far.  A post may send several: the session retries as
    the client configures it, and follows redirects.  Every request sent, every
    post and the closing of responses are kept in a trace.  UTF-8 decoding, the
    JSON parser, and what [requests] and [urllib3] decide by themselves (which
    failures are passing, waiting before a retry, where a redirect leads) are
    parameters.  A stream is a computation over the body of the [for] loop that
    consumes it; when the body raises, the generator is closed with the loop. *)
From stdpp Require Import options.
From S2P Require Import Prelude Values Json CanonicalJson Text.
Unset Default Proof Using.

(** ** Requests and responses *)

Record http_request := {
  rq_method : string; rq_url : string; rq_params : list (string * string); rq_json : pyval; rq_headers : list (string * string); rq_stream : bool;
  rq_timeout : Q * Q
}.
(** A response: its status and the words of its error, its body as JSON and as
    text, its headers, and the lines [iter_lines] yields, the connection's
    failures among them. *)
Record http_response := {
  status_code : Z; reason : string; rs_json : result pyval; rs_text : string; rs_headers : list (string * string);
  rs_lines : list (result string)
}.
(** A request on the wire; a post that has ended, with whether its answer is
    handed over (open); the closing of that answer. *)
Inductive http_event := Sent (r : http_request) | Posted (r : http_request) (answered : bool) | ResponseClosed.
(** The requests sent, the chunks a streaming call has collected, and what its
    callback was told. *)
Record wire := { posts : nat; http_trace : list http_event; collected : list pyval; heard : list pyval }.

Definition HTTPError : exn_class := OtherError "HTTPError".
Definition ConnectionError : exn_class := OtherError "ConnectionError".
Definition Timeout : exn_class := OtherError "Timeout".
Definition index_error (m : string) : exn := Exn (OtherError "IndexError") m.
Definition key_error (k : string) : exn := Exn KeyError (repr_str k).

(** [response.raise_for_status()] *)
Definition raise_for_status (r : http_response) : result unit :=
  raise_if ((400 <=? status_code r) && (status_code r <? 600))%Z (Exn HTTPError (reason r)).

(** [v[0]], [v[k]] *)
Definition not_subscriptable (v : pyval) : exn := py_type_error ("'" +:+ type_name v +:+ "' object is not subscriptable").
Definition item0 (v : pyval) : result pyval :=
  match v with
  | PList (x :: _) => Ok x
  | PList [] => Raise (index_error "list index out of range")
  | PStr (String c _) => Ok (PStr (char_str c))
  | PStr "" => Raise (index_error "string index out of range")
  | PDict _ => Raise (Exn KeyError "0")
  | _ => Raise (not_subscriptable v)
  end.
Definition item (k : string) (v : pyval) : result pyval :=
  match v with
  | PDict d => match dict_get d k with Some x => Ok x | None => Raise (key_error k) end
  | PList _ => Raise (py_type_error "list indices must be integers or slices, not str")
  | PStr _ => Raise (py_type_error "string indices must be integers, not 'str'")
  | _ => Raise (not_subscriptable v)
  end.
Definition get_or (v : pyval) (k : string) (d : pyval) : result pyval := o ← attr_get v k; Ok (default d o).
(** A non-empty text. *)
Definition some_text (v : option pyval) : option string :=
  match v with Some (PStr s) => if decide (s = "") then None else Some s | _ => None end.

(** ** Completions *)

Record ProviderMessage := { role : string; msg_content : string }.
Record CompletionRequest := {
  model : string; messages : list ProviderMessage; temperature : Q; tools : option (list pyval); metadata : list (string * pyval)
}.
Record CompletionResponse := { text : pyval; raw_response : pyval }.

(** [response.headers.get(name)], whatever the case of its letters *)
Definition header (name : string) (headers : list (string * string)) : option string :=
  snd <$> List.find (λ kv, bool_decide (py_lower kv.1 = py_lower name)) headers.

Definition DEFAULT_RETRY_STATUS_CODES : list Z := [429; 500; 502; 503; 504]%Z.
(** [BoundedHTTPClient] with a session of its own: its timeouts,
    [(connect, read)], and the [Retry] its session mounts, where [max_retries]
    is [total], [connect], [read] and [status].  With [raise_on_status=False]
    the last answer is handed over whatever its status.  The sizes of the pool
    have no counterpart. *)
Record BoundedHTTPClient := {
  timeout : Q * Q; max_retries : Z; backoff_factor : Q; status_forcelist : list Z; allowed_methods : list string; respect_retry_after_header : bool
}.
Definition new_http_client (timeout_seconds : Q) (connect_timeout_seconds : option Q) (retries : Z) (backoff : Q) (retry_status_codes : list Z)
  : result BoundedHTTPClient :=
  _ ← raise_if (Qle_bool timeout_seconds 0) (value_error "timeout_seconds must be > 0");
  let resolved_connect_timeout := default (if Qle_bool timeout_seconds 5 then timeout_seconds else 5%Q) connect_timeout_seconds in
  _ ← raise_if (Qle_bool resolved_connect_timeout 0) (value_error "connect_timeout_seconds must be > 0");
  _ ← raise_if (retries <? 0)%Z (value_error "max_retries must be >= 0");
  _ ← raise_if (negb (Qle_bool 0 backoff)) (value_error "backoff_factor must be >= 0");
  Ok {| timeout := (resolved_connect_timeout, timeout_seconds); max_retries := retries; backoff_factor := backoff;
        status_forcelist := retry_status_codes; allowed_methods := ["GET"; "POST"]; respect_retry_after_header := true |}.
(** [BoundedHTTPClient(timeout_seconds=timeout_seconds)] *)
Definition default_http_client (timeout_seconds : Z) : result BoundedHTTPClient := new_http_client (inject_Z timeout_seconds) None 2 (1 # 4) DEFAULT_RETRY_STATUS_CODES.

Inductive api_mode := ChatCompletions | Responses.
Inductive provider :=
  | OpenAIProvider (endpoint api_key : string) (timeout_seconds : Z) (extra_headers : list (string * string)) (mode : api_mode)
      (client : BoundedHTTPClient)
  | AnthropicProvider (endpoint api_key : string) (client : BoundedHTTPClient)
  | GoogleProvider (base_url api_key : string) (client : BoundedHTTPClient)
  | OllamaProvider (base_url : string) (extra_headers : list (string * string)) (client : BoundedHTTPClient).

Definition update_headers (h l : list (string * string)) : list (string * string) := foldl (λ h kv, dict_set h kv.1 kv.2) h l.

(** ** Request bodies *)

Definition chat_messages (r : CompletionRequest) : pyval :=
  PList ((λ m, PDict [("role", PStr (role m)); ("content", PStr (msg_content m))]) <$> messages r).
Definition with_tools (r : CompletionRequest) (payload : list (string * pyval)) : pyval :=
  PDict (payload ++ match tools r with Some (t :: l) => [("tools", PList (t :: l))] | _ => [] end).
Definition openai_payload (m : api_mode) (stream : bool) (r : CompletionRequest) : pyval :=
  with_tools r
    ([("model", PStr (model r));
      match m with
      | Responses => ("input", PList ((λ m, PDict [("role", PStr (role m)); ("content", PList [PDict [("type", PStr "text"); ("text", PStr (msg_content m))]])]) <$> messages r))
      | ChatCompletions => ("messages", chat_messages r)
      end;
      ("temperature", PFloat (temperature r))] ++ if stream then [("stream", PBool true)] else []).

(** The texts of the system messages, and the others. *)
Definition system_chunks (r : CompletionRequest) : list string := msg_content <$> List.filter (λ m, bool_decide (role m = "system")) (messages r).
Definition other_messages (r : CompletionRequest) : list ProviderMessage := List.filter (λ m, negb (bool_decide (role m = "system"))) (messages r).
Definition paragraph : string := String (Ascii.ascii_of_nat 10) (String (Ascii.ascii_of_nat 10) "").

(** [int(v)] *)
Definition to_int (v : pyval) : result Z :=
  match v with
  | PInt z => Ok z
  | PBool b => Ok (if b then 1 else 0)%Z
  | PFloat q => Ok (Z.quot (Qnum q) (Zpos (Qden q)))
  | PStr s => match int_of_str (py_strip s) with Some z => Ok z
              | None => Raise (value_error ("invalid literal for int() with base 10: " +:+ repr_str s)) end
  | _ => Raise (py_type_error ("int() argument must be a string, a bytes-like object or a real number, not '" +:+ type_name v +:+ "'"))
  end.
Definition anthropic_payload (r : CompletionRequest) : result pyval :=
  max_tokens ← to_int (default (PInt 1024) (dict_get (metadata r) "max_tokens"));
  Ok (with_tools r
    ([("model", PStr (model r));
      ("messages", PList ((λ m, PDict [("role", PStr (if decide (role m = "assistant") then "assistant" else "user")); ("content", PStr (msg_content m))]) <$> other_messages r));
      ("temperature", PFloat (temperature r)); ("max_tokens", PInt max_tokens)] ++
     match system_chunks r with [] => [] | l => [("system", PStr (py_join paragraph l))] end)).

(** [_to_google_tools]: the bodies of the function tools *)
Definition google_declaration (tool : pyval) : result (list pyval) :=
  type ← attr_get tool "type";
  if py_eqb (default PNone type) (PStr "function") then
    function_body ← get_or tool "function" (PDict []);
    Ok (if is_dict function_body then [function_body] else [])
  else Ok [].
Definition _to_google_tools (l : list pyval) : result (list pyval) :=
  declarations ← map_result google_declaration l;
  Ok (match concat declarations with [] => [] | d => [PDict [("functionDeclarations", PList d)]] end).
Definition google_payload (r : CompletionRequest) : result pyval :=
  google_tools ← match tools r with Some (t :: l) => _to_google_tools (t :: l) | _ => Ok [] end;
  Ok (PDict
    ([("contents", PList ((λ m, PDict [("role", PStr (if decide (role m = "assistant") then "model" else "user")); ("parts", PList [PDict [("text", PStr (msg_content m))]])])
         <$> other_messages r));
      ("generationConfig", PDict [("temperature", PFloat (temperature r))])] ++
     match system_chunks r with [] => [] | l => [("systemInstruction", PDict [("parts", PList [PDict [("text", PStr (py_join paragraph l))]])])] end ++
     match google_tools with [] => [] | l => [("tools", PList l)] end)).

Definition ollama_payload (stream : bool) (r : CompletionRequest) : pyval :=
  PDict [("model", PStr (model r)); ("messages", chat_messages r); ("stream", PBool stream);
         ("options", PDict [("temperature", PFloat (temperature r))])].

(** [quote(model, safe='')] *)
Definition unreserved (c : ascii) : bool :=
  let n := code c in
  ((48 <=? n) && (n <=? 57)) || ((65 <=? n) && (n <=? 90)) || ((97 <=? n) && (n <=? 122)) || (n =? 45) || (n =? 46) || (n =? 95) || (n =? 126).
Definition quote_byte (c : ascii) : string := if unreserved c then char_str c else "%" +:+ py_upper (hex2 (code c)).
Definition percent_quote (s : string) : string := concat_map_str quote_byte (utf8 s).
Definition _endpoint_for_model (base_url model : string) : string := base_url +:+ "/models/" +:+ percent_quote model +:+ ":generateContent".

Definition bearer (api_key : string) (headers : list (string * string)) : list (string * string) :=
  if decide (api_key = "" ∨ api_key = "not-needed") then headers else dict_set headers "Authorization" ("Bearer " +:+ api_key).

(** ** The network *)

(** The servers, at each number of requests sent, and what [requests] and
    [urllib3] settle by themselves: whether a failure to get an answer may be
    passing, for a method that may be retried or not; the wait before a retry,
    which a [Retry-After] that is no time makes fail; and the request a redirect
    leads to, if the response is one. *)
Record network := {
  server : nat → http_request → result http_response;
  transient : bool → exn → bool;
  pause : http_response → result unit;
  redirect : http_request → http_response → result (option http_request)
}.
(** [Session.max_redirects] *)
Definition max_redirects : nat := 30.
Definition TooManyRedirects : exn := Exn (OtherError "TooManyRedirects") ("Exceeded " +:+ pretty (Z.of_nat max_redirects) +:+ " redirects.").

(** A method the client retries. *)
Definition method_retryable (c : BoundedHTTPClient) (rq : http_request) : bool := bool_decide (rq_method rq ∈ allowed_methods c).
(** The answers it asks again after: a status of its list, or one that comes
    with the time to wait. *)
Definition is_retry (c : BoundedHTTPClient) (rq : http_request) (response : http_response) : bool :=
  method_retryable c rq &&
  (bool_decide (status_code response ∈ status_forcelist c) ||
   respect_retry_after_header c && negb (bool_decide (str_or (header "Retry-After" (rs_headers response)) "" = "")) &&
   bool_decide (status_code response ∈ [413; 429; 503]%Z)).

(** ** Texts of answers *)

Section providers.
Context (utf8_decode : string → result string) (json_loads : string → result pyval) (float_repr : Q → string).
Context (net : network).

(** The texts of the blocks of an [output] list. *)
Definition block_text (block : pyval) : option string := some_text (py_get block "text").
Definition output_blocks (output : option pyval) : list pyval :=
  match output with
  | Some (PList items) => flat_map (λ item, match py_get item "content" with Some (PList blocks) => List.filter is_dict blocks | _ => [] end) items
  | _ => []
  end.
(** [_extract_responses_text] *)
Definition _extract_responses_text (raw_json : pyval) : result string :=
  output_text ← attr_get raw_json "output_text";
  match some_text output_text with
  | Some t => Ok t
  | None =>
      output ← attr_get raw_json "output";
      match omap block_text (output_blocks output) with
      | [] => Raise (key_error "Responses payload did not include output_text content.")
      | fragments => Ok (String.concat "" fragments)
      end
  end.

Definition chat_text (raw_json : pyval) : result pyval :=
  choices ← item "choices" raw_json;
  first ← item0 choices;
  message ← item "message" first;
  item "content" message.
Definition anthropic_text (raw_json : pyval) : result string :=
  content ← get_or raw_json "content" (PList []);
  Ok (match content with
      | PList l => String.concat "" (omap (λ i, match i with
                     | PDict d => if py_eqb (default PNone (dict_get d "type")) (PStr "text")
                                  then Some (py_str float_repr (default (PStr "") (dict_get d "text"))) else None
                     | _ => None end) l)
      | _ => ""
      end).
Definition google_text (raw_json : pyval) : result string :=
  candidates ← get_or raw_json "candidates" (PList []);
  Ok (match candidates with
      | PList (PDict first :: _) =>
          match default (PDict []) (dict_get first "content") with
          | PDict content =>
              match default (PList []) (dict_get content "parts") with
              | PList parts => String.concat "" (omap (λ p, match p with
                                 | PDict d => Some (py_str float_repr (default (PStr "") (dict_get d "text"))) | _ => None end) parts)
              | _ => ""
              end
          | _ => ""
          end
      | _ => ""
      end).
Definition ollama_text (raw_json : pyval) : result pyval :=
  message ← get_or raw_json "message" (PDict []);
  get_or message "content" (PStr "").

(** ** Posting *)

Abbreviation M := (stm wire).

Definition log (e : http_event) (s : wire) : wire := {| posts := posts s; http_trace := http_trace s ++ [e]; collected := collected s; heard := heard s |}.
Definition exchange (rq : http_request) : M http_response := λ s,
  ({| posts := S (posts s); http_trace := http_trace s ++ [Sent rq]; collected := collected s; heard := heard s |}, server net (posts s) rq).
(** A request with this many retries left. *)
Fixpoint send_retrying (c : BoundedHTTPClient) (rq : http_request) (more : nat) : M http_response := λ s,
  let '(s', r) := exchange rq s in
  match more, r with
  | S more, Ok response => if is_retry c rq response then (st_lift (pause net response);; send_retrying c rq more) s' else (s', r)
  | S more, Raise e => if transient net (method_retryable c rq) e then send_retrying c rq more s' else (s', r)
  | 0, _ => (s', r)
  end.
(** A request, and those its redirects lead to. *)
Fixpoint send_following (c : BoundedHTTPClient) (rq : http_request) (redirects : nat) : M http_response :=
  response ← send_retrying c rq (Z.to_nat (max_retries c));
  next ← st_lift (redirect net rq response);
  match next, redirects with
  | None, _ => mret response
  | Some rq', S redirects => send_following c rq' redirects
  | Some _, 0 => st_raise TooManyRedirects
  end.
(** [self._http_client.post(...)]; a response that came back is open. *)
Definition post (c : BoundedHTTPClient) (rq : http_request) : M http_response := λ s,
  let '(s', r) := send_following c rq max_redirects s in (log (Posted rq (is_ok r)) s', r).
(** [try: ... finally: response.close()] *)
Definition closing {A} (body : M A) : M A := λ s, let '(s, r) := body s in (log ResponseClosed s, r).

Definition _headers (p : provider) : option (list (string * string)) :=
  match p with
  | OpenAIProvider _ key _ extra _ _ => Some (bearer key extra)
  | AnthropicProvider _ key _ => Some [("x-api-key", key); ("anthropic-version", "2023-06-01"); ("content-type", "application/json")]
  | GoogleProvider _ _ _ => None
  | OllamaProvider _ extra _ => Some (update_headers [("Content-Type", "application/json")] extra)
  end.
(** [self._http_client] *)
Definition http_client (p : provider) : BoundedHTTPClient :=
  match p with OpenAIProvider _ _ _ _ _ c | AnthropicProvider _ _ c | GoogleProvider _ _ c | OllamaProvider _ _ c => c end.
(** What the provider posts for a completion. *)
Definition completion_request (p : provider) (stream : bool) (r : CompletionRequest) : result http_request :=
  match p with
  | OpenAIProvider endpoint _ _ _ m client =>
      Ok {| rq_method := "POST"; rq_url := endpoint; rq_params := []; rq_json := openai_payload m stream r; rq_headers := default [] (_headers p); rq_stream := stream; rq_timeout := timeout client |}
  | AnthropicProvider endpoint _ client =>
      payload ← anthropic_payload r;
      Ok {| rq_method := "POST"; rq_url := endpoint; rq_params := []; rq_json := payload; rq_headers := default [] (_headers p); rq_stream := stream; rq_timeout := timeout client |}
  | GoogleProvider base key client =>
      payload ← google_payload r;
      Ok {| rq_method := "POST"; rq_url := _endpoint_for_model base (model r); rq_params := [("key", key)]; rq_json := payload; rq_headers := []; rq_stream := stream; rq_timeout := timeout client |}
  | OllamaProvider base _ client =>
      Ok {| rq_method := "POST"; rq_url := base +:+ "/api/chat"; rq_params := []; rq_json := ollama_payload stream r; rq_headers := default [] (_headers p); rq_stream := stream; rq_timeout := timeout client |}
  end.

(** A missing Responses path is told apart from other failures. *)
Definition responses_unavailable (message : string) (resp : http_response) : result unit :=
  match raise_for_status resp with
  | Raise e => Raise (if bool_decide (status_code resp ∈ [404; 405; 410; 501]%Z) then Exn RuntimeError message else e)
  | r => r
  end.
Definition completion_text (p : provider) (resp : http_response) : result CompletionResponse :=
  _ ← match p with
      | OpenAIProvider _ _ _ _ Responses _ => responses_unavailable "OpenAI Responses API path is unavailable on this endpoint." resp
      | _ => raise_for_status resp
      end;
  raw_json ← rs_json resp;
  t ← match p with
      | OpenAIProvider _ _ _ _ ChatCompletions _ => chat_text raw_json
      | OpenAIProvider _ _ _ _ Responses _ => PStr <$> _extract_responses_text raw_json
      | AnthropicProvider _ _ _ => PStr <$> anthropic_text raw_json
      | GoogleProvider _ _ _ => PStr <$> google_text raw_json
      | OllamaProvider _ _ _ => ollama_text raw_json
      end;
  Ok {| text := t; raw_response := raw_json |}.
(** [complete]; [complete_with_tools] is the same call. *)
Definition complete (p : provider) (r : CompletionRequest) : M CompletionResponse :=
  rq ← st_lift (completion_request p false r);
  resp ← post (http_client p) rq;
  closing (st_lift (completion_text p resp)).
Definition complete_with_tools := complete.

(** ** Streams *)

Inductive line_event := Skipped | Finished | Event (payload : pyval).
(** A line of the event stream. *)
Definition sse_line (raw_line : string) : result line_event :=
  if decide (raw_line = "") then Ok Skipped else
  line ← utf8_decode raw_line;
  match strip_prefix "data:" line with
  | None => Ok Skipped
  | Some rest =>
      let data := py_strip rest in
      if decide (data = "[DONE]") then Ok Finished else
      match json_loads data with
      | Ok v => Ok (Event v)
      | Raise e => if decide (exn_cls e = JSONDecodeError) then Ok Skipped else Raise e
      end
  end.
(** [for raw_line in response.iter_lines()], each line with what is carried
    over from the lines before it, until one stops the loop. *)
Fixpoint for_lines {A} (line : A → string → M (A + A)) (a : A) (lines : list (result string)) : M A :=
  match lines with
  | [] => mret a
  | l :: lines =>
      raw_line ← st_lift l;
      next ← line a raw_line;
      match next with inl a => for_lines line a lines | inr a => mret a end
  end.
Definition chat_token (payload_obj : pyval) : result pyval :=
  choices ← get_or payload_obj "choices" (PList [PDict []]);
  first ← item0 choices;
  delta ← get_or first "delta" (PDict []);
  get_or delta "content" PNone.
(** [if token: yield str(token)] *)
Definition yield_text (body : string → M unit) (token : pyval) : M unit := if py_truthy token then body (py_str float_repr token) else mret tt.
Definition chat_line (body : string → M unit) (u : unit) (raw_line : string) : M (unit + unit) :=
  e ← st_lift (sse_line raw_line);
  match e with
  | Skipped => mret (inl tt)
  | Finished => mret (inr tt)
  | Event payload_obj => token ← st_lift (chat_token payload_obj); yield_text body token;; mret (inl tt)
  end.

(** A text, and whether it is an increment. *)
Abbreviation token_of_event := (option (string * bool)).
(** [block_type in {...}] *)
Definition hashable (v : pyval) : bool := match v with PList _ | PDict _ => false | _ => true end.
Fixpoint block_tokens (blocks : list pyval) : result token_of_event :=
  match blocks with
  | [] => Ok None
  | block :: blocks =>
      match block_text block with
      | None => block_tokens blocks
      | Some t =>
          let block_type := default PNone (py_get block "type") in
          if py_eqb block_type (PStr "output_text.delta") then Ok (Some (t, true)) else
          _ ← raise_if (negb (hashable block_type)) (py_type_error ("unhashable type: '" +:+ type_name block_type +:+ "'"));
          if py_eqb block_type (PStr "output_text") || py_eqb block_type (PStr "text") then Ok (Some (t, false)) else block_tokens blocks
      end
  end.
Definition error_event_message (payload_obj : pyval) : string :=
  match py_get payload_obj "error" with
  | Some (PDict error) =>
      default "Responses stream returned an error event." (some_text (dict_get error "message")) +:+
      match some_text (dict_get error "code") with Some c => " (code=" +:+ c +:+ ")" | None => "" end
  | _ => "Responses stream returned an error event."
  end.
(** The text of an event by its type; [Some None] ends the search with none. *)
Definition typed_token (event_type payload_obj : pyval) : option token_of_event :=
  let increment := match some_text (py_get payload_obj "delta") with Some t => Some t | None => some_text (py_get payload_obj "text") end in
  if py_eqb event_type (PStr "response.output_text.delta") && negb (is_None increment) then Some ((λ t, (t, true)) <$> increment)
  else if py_eqb event_type (PStr "response.output_text.done") && negb (is_None (some_text (py_get payload_obj "text")))
  then Some ((λ t, (t, false)) <$> some_text (py_get payload_obj "text"))
  else if py_eqb event_type (PStr "response.completed") then
    match py_get payload_obj "response" with
    | Some (PDict r) => Some (match _extract_responses_text (PDict r) with Ok t => Some (t, false) | Raise _ => None end)
    | _ => None
    end
  else None.
(** [_extract_responses_stream_token] of a dictionary *)
Definition _extract_responses_stream_token (payload_obj : pyval) : result token_of_event :=
  let event_type := default PNone (py_get payload_obj "type") in
  _ ← raise_if (py_eqb event_type (PStr "response.error")) (Exn RuntimeError (error_event_message payload_obj));
  match typed_token event_type payload_obj with
  | Some t => Ok t
  | None =>
      let choice := match py_get payload_obj "choices" with Some (PList (c :: _)) => c | _ => PNone end in
      match some_text (py_get (default PNone (py_get choice "delta")) "content") with
      | Some t => Ok (Some (t, true))
      | None =>
          t ← block_tokens (output_blocks (py_get payload_obj "output"));
          match t with
          | Some t => Ok (Some t)
          | None => Ok ((λ t, (t, false)) <$> some_text (py_get payload_obj "output_text"))
          end
      end
  end.

(** What the loop has seen: an increment, a whole text. *)
Record seen := { saw_incremental : bool; emitted_final_fallback : bool }.
Definition take_token (body : string → M unit) (a : seen) (t : token_of_event) : M seen :=
  match t with
  | None => mret a
  | Some (t, true) => body t;; mret {| saw_incremental := true; emitted_final_fallback := emitted_final_fallback a |}
  | Some (t, false) =>
      if saw_incremental a || emitted_final_fallback a then mret a
      else body t;; mret {| saw_incremental := saw_incremental a; emitted_final_fallback := true |}
  end.
Definition responses_line (body : string → M unit) (a : seen) (raw_line : string) : M (seen + seen) :=
  e ← st_lift (sse_line raw_line);
  match e with
  | Skipped => mret (inl a)
  | Finished => mret (inr a)
  | Event payload_obj =>
      if negb (is_dict payload_obj) then mret (inl a) else
      t ← st_lift (_extract_responses_stream_token payload_obj);
      a ← take_token body a t;
      mret (inl a)
  end.
Definition ollama_line (body : string → M unit) (u : unit) (raw_line : string) : M (unit + unit) :=
  if decide (raw_line = "") then mret (inl tt) else
  line ← st_lift (utf8_decode raw_line);
  match json_loads line with
  | Raise e => if decide (exn_cls e = JSONDecodeError) then mret (inl tt) else st_raise e
  | Ok (PDict d) =>
      message ← st_lift (get_or (PDict d) "message" (PDict []));
      content ← st_lift (get_or message "content" PNone);
      yield_text body content;;
      mret (if py_truthy (default (PBool false) (dict_get d "done")) then inr tt else inl tt)
  | Ok _ => mret (inl tt)
  end.

(** A stream that cannot be reached is reported in the provider's words. *)
Definition post_stream (p : provider) (rq : http_request) : M http_response := λ s,
  match p, post (http_client p) rq s with
  | OpenAIProvider endpoint _ timeout_seconds _ m _, (s, Raise e) =>
      let path := match m with Responses => "responses streaming endpoint" | ChatCompletions => "streaming endpoint" end in
      let advice := match m with
                    | Responses => "supports the /v1/responses path. See docs/streaming_compatibility.md for supported gateways."
                    | ChatCompletions => "reachable."
                    end in
      (s, Raise (if decide (exn_cls e = ConnectionError)
                 then Exn RuntimeError ("Failed to connect to " +:+ path +:+ " (" +:+ endpoint +:+ "). Verify the gateway is running and " +:+ advice)
                 else if decide (exn_cls e = Timeout)
                 then Exn RuntimeError ("Timeout connecting to " +:+ path +:+ " (" +:+ endpoint +:+
                        "). Consider increasing EAP_TIMEOUT_SECONDS (current: " +:+ pretty timeout_seconds +:+ "s).")
                 else e))
  | _, r => r
  end.
Definition stream_lines (p : provider) (body : string → M unit) (resp : http_response) : M unit :=
  match p with
  | OpenAIProvider endpoint _ _ _ Responses _ =>
      st_lift (responses_unavailable ("OpenAI Responses API path is unavailable on this endpoint (" +:+ endpoint +:+
        "). Switch to chat_completions mode or use a compatible gateway. See docs/streaming_compatibility.md.") resp);;
      for_lines (responses_line body) {| saw_incremental := false; emitted_final_fallback := false |} (rs_lines resp);;
      mret tt
  | OpenAIProvider _ _ _ _ ChatCompletions _ => st_lift (raise_for_status resp);; for_lines (chat_line body) tt (rs_lines resp)
  | _ => st_lift (raise_for_status resp);; for_lines (ollama_line body) tt (rs_lines resp)
  end.
(** [for token in self.stream(request): body(token)] *)
Definition stream (p : provider) (r : CompletionRequest) (body : string → M unit) : M unit :=
  match p with
  | AnthropicProvider _ _ _ => st_raise (Exn (OtherError "NotImplementedError") "Streaming not implemented for AnthropicProvider yet.")
  | GoogleProvider _ _ _ => st_raise (Exn (OtherError "NotImplementedError") "Streaming not implemented for GoogleProvider yet.")
  | _ =>
      rq ← st_lift (completion_request p true r);
      resp ← post_stream p rq;
      closing (stream_lines p body resp)
  end.

(** ** What a post sends *)

(** Asked again: after an answer to retry and the wait it asks for, or after a
    passing failure. *)
Definition asked_again (c : BoundedHTTPClient) (rq : http_request) (r : result http_response) : Prop :=
  match r with
  | Ok response => is_retry c rq response = true ∧ pause net response = Ok tt
  | Raise e => transient net (method_retryable c rq) e = true
  end.
(** [k] tries of a request, of [S more] at most, the first when [n] requests
    were sent before, end in [r]. *)
Record tried (c : BoundedHTTPClient) (rq : http_request) (more n k : nat) (r : result http_response) : Prop := {
  tr_tries : 1 ≤ k ≤ S more;
  tr_earlier : ∀ i, S i < k → asked_again c rq (server net (n + i) rq);
  tr_last : match server net (n + pred k) rq with
            | Ok response => (r = Ok response ∧ (k = S more ∨ is_retry c rq response = false)) ∨
                             (is_retry c rq response = true ∧ ∃ e, pause net response = Raise e ∧ r = Raise e)
            | Raise e => r = Raise e ∧ (k = S more ∨ transient net (method_retryable c rq) e = false)
            end
}.
(** The requests a request leads to over at most [m] redirects, each with its
    tries, and what comes of it. *)
Inductive followed (c : BoundedHTTPClient) : nat → http_request → nat → list (http_request * nat) → result http_response → Prop :=
  | followed_failed m rq n k e : tried c rq (Z.to_nat (max_retries c)) n k (Raise e) → followed c m rq n [(rq, k)] (Raise e)
  | followed_answered m rq n k response : tried c rq (Z.to_nat (max_retries c)) n k (Ok response) → redirect net rq response = Ok None →
      followed c m rq n [(rq, k)] (Ok response)
  | followed_lost m rq n k response e : tried c rq (Z.to_nat (max_retries c)) n k (Ok response) → redirect net rq response = Raise e →
      followed c m rq n [(rq, k)] (Raise e)
  | followed_endless rq n k response rq' : tried c rq (Z.to_nat (max_retries c)) n k (Ok response) → redirect net rq response = Ok (Some rq') →
      followed c 0 rq n [(rq, k)] (Raise TooManyRedirects)
  | followed_on m rq n k response rq' l r : tried c rq (Z.to_nat (max_retries c)) n k (Ok response) →
      redirect net rq response = Ok (Some rq') → followed c m rq' (n + k) l r → followed c (S m) rq n ((rq, k) :: l) r.
Definition tries (l : list (http_request * nat)) : nat := sum_list (snd <$> l).
Definition sent (l : list (http_request * nat)) : list http_event := flat_map (λ qk, replicate qk.2 (Sent qk.1)) l.
Definition after_sending (s : wire) (n : nat) (l : list http_event) : wire :=
  {| posts := posts s + n; http_trace := http_trace s ++ l; collected := collected s; heard := heard s |}.

Lemma after_sending_twice s n l n' l' : after_sending (after_sending s n l) n' l' = after_sending s (n + n') (l ++ l').
Proof. unfold after_sending. cbn. by rewrite Nat.add_assoc, app_assoc. Qed.
Lemma exchange_sent rq s : exchange rq s = (after_sending s 1 [Sent rq], server net (posts s) rq).
Proof. unfold exchange, after_sending. by rewrite Nat.add_1_r. Qed.
Lemma tried_again c rq more n k r : asked_again c rq (server net n rq) → tried c rq more (n + 1) k r → tried c rq (S more) n (S k) r.
Proof.
  intros Hn [Ht He Hl]. destruct k as [|k]; [lia|]. split; [lia| |].
  - intros [|i] Hi; [by rewrite Nat.add_0_r|]. specialize (He i ltac:(lia)). by replace (n + S i) with (n + 1 + i) by lia.
  - cbn in *. replace (n + S k) with (n + 1 + k) by lia. destruct (server net (n + 1 + k) rq) as [response|e].
    + destruct Hl as [[-> [?|?]]|?]; [left|left|by right]; (split; [done|]); [left; lia|by right].
    + destruct Hl as [-> [?|?]]; (split; [done|]); [left; lia|by right].
Qed.
Lemma send_retrying_sent c rq more s s' r : send_retrying c rq more s = (s', r) →
  ∃ k, tried c rq more (posts s) k r ∧ s' = after_sending s k (replicate k (Sent rq)).
Proof.
  revert s. induction more as [|more IH]; intros s H; cbn [send_retrying] in H; rewrite exchange_sent in H.
  - injection H as <- <-. exists 1. split; [|done]. split; [lia|intros; lia|]. cbn. rewrite Nat.add_0_r. destruct (server net (posts s) rq); eauto.
  - assert (asked_again c rq (server net (posts s) rq) → send_retrying c rq more (after_sending s 1 [Sent rq]) = (s', r) →
      ∃ k, tried c rq (S more) (posts s) k r ∧ s' = after_sending s k (replicate k (Sent rq))) as Hon.
    { intros Ha (k & Hk & ->)%IH. exists (S k). split; [by apply tried_again|]. by rewrite after_sending_twice. }
    destruct (server net (posts s) rq) as [response|e] eqn:E.
    + destruct (is_retry c rq response) eqn:Er.
      * unfold mbind, stm_bind, st_lift in H. destruct (pause net response) as [[]|e] eqn:Ep; [by apply Hon|]. injection H as <- <-.
        exists 1. split; [|done]. split; [lia|intros; lia|]. cbn. rewrite Nat.add_0_r, E. right. by eauto.
      * injection H as <- <-. exists 1. split; [|done]. split; [lia|intros; lia|]. cbn. rewrite Nat.add_0_r, E. by auto.
    + destruct (transient net _ e) eqn:Et; [by apply Hon|]. injection H as <- <-. exists 1. split; [|done]. split; [lia|intros; lia|].
      cbn. rewrite Nat.add_0_r, E. by auto.
Qed.
Lemma send_following_sent c m rq s s' r : send_following c rq m s = (s', r) →
  ∃ l, followed c m rq (posts s) l r ∧ s' = after_sending s (tries l) (sent l).
Proof.
  revert rq s. induction m as [|m IH]; intros rq s H; cbn [send_following] in H; unfold mbind, stm_bind, st_lift in H;
    (destruct (send_retrying c rq _ s) as [s1 [response|e]] eqn:E; apply send_retrying_sent in E as (k & Hk & ->);
     assert (after_sending s k (replicate k (Sent rq)) = after_sending s (tries [(rq, k)]) (sent [(rq, k)])) as Hone
       by (unfold tries, sent; cbn; by rewrite Nat.add_0_r, app_nil_r);
     [|injection H as <- <-; exists [(rq, k)]; split; [by constructor|done]]);
    destruct (redirect net rq response) as [[rq'|]|e] eqn:Er; cbn in H; try (injection H as <- <-; exists [(rq, k)]; split; [by econstructor|done]).
  apply IH in H as (l & Hl & ->). exists ((rq, k) :: l). split; [by econstructor|]. by rewrite after_sending_twice.
Qed.
Lemma post_sent c rq s s' r : post c rq s = (s', r) →
  ∃ l, followed c max_redirects rq (posts s) l r ∧ s' = after_sending s (tries l) (sent l ++ [Posted rq (is_ok r)]).
Proof.
  unfold post. destruct (send_following c rq max_redirects s) as [s1 x] eqn:E. intros [= <- <-]. apply send_following_sent in E as (l & Hl & ->).
  exists l. split; [done|]. unfold log, after_sending. cbn. by rewrite app_assoc.
Qed.
(** An answer that is neither retried nor a redirect is the first and last. *)
Lemma post_answered c rq s response : server net (posts s) rq = Ok response → is_retry c rq response = false → redirect net rq response = Ok None →
  post c rq s = (after_sending s 1 [Sent rq; Posted rq true], Ok response).
Proof.
  intros Hs Hr Hd. unfold post. assert (send_following c rq max_redirects s = (after_sending s 1 [Sent rq], Ok response)) as ->.
  { cbn [send_following max_redirects]. unfold mbind, stm_bind, st_lift. destruct (Z.to_nat (max_retries c)); cbn [send_retrying];
      rewrite exchange_sent, Hs; rewrite ?Hr; by rewrite Hd. }
  unfold log, after_sending. cbn. by rewrite <- app_assoc.
Qed.
(** A request leads to others over the server's redirects. *)
Definition leads_to : http_request → http_request → Prop := rtc (λ rq rq', ∃ response, redirect net rq response = Ok (Some rq')).
Lemma followed_leads c m rq n l r : followed c m rq n l r → Forall (λ qk, leads_to rq qk.1 ∧ 1 ≤ qk.2 ≤ S (Z.to_nat (max_retries c))) l ∧ 1 ≤ length l ≤ S m.
Proof.
  induction 1 as [? ? ? ? ? [Ht _ _]|? ? ? ? ? [Ht _ _]|? ? ? ? ? ? [Ht _ _]|? ? ? ? ? [Ht _ _]|m rq n k response rq' l r [Ht _ _] Hr H IH];
    try (split; [constructor; [split; [constructor|done]|constructor]|cbn; lia]).
  destruct IH as [IH Hl]. split; [|cbn; lia]. constructor; [split; [constructor|done]|]. eapply Forall_impl; [exact IH|].
  intros [q k'] [Hq Hk]. split; [|done]. econstructor; [by exists response|done].
Qed.
(** A streaming provider only words the failures of its post anew. *)
Lemma post_stream_post p rq s s' x : post_stream p rq s = (s', x) → ∃ y, post (http_client p) rq s = (s', y) ∧ is_ok x = is_ok y.
Proof.
  unfold post_stream. intros H.
  destruct p; cbn [http_client]; destruct (post _ rq s) as [s1 [y|e]]; injection H as <- <-; eexists; (split; [reflexivity|done]).
Qed.

(** ** What a stream does, step by step *)

(** A relation between states that a computation goes through. *)
Section through.
Context (R : wire → wire → Prop) `{!PreOrder R}.
Definition through {A} (m : M A) : Prop := ∀ s s' r, m s = (s', r) → R s s'.
Lemma through_seq {A B} (m : M A) (f : A → M B) : through m → (∀ a, through (f a)) → through (m ≫= f).
Proof.
  intros Hm Hf s s' r H. unfold mbind, stm_bind in H. destruct (m s) as [s1 [a|e]] eqn:E.
  - transitivity s1; [by eapply Hm|by eapply Hf].
  - injection H as <- _. by eapply Hm.
Qed.
Lemma lift_through {A} (x : result A) : through (st_lift x).
Proof. intros s s' r [= <- _]. reflexivity. Qed.
Hint Resolve lift_through : core.
Lemma for_lines_through {A} (line : A → string → M (A + A)) a lines : (∀ a t, through (line a t)) → through (for_lines line a lines).
Proof.
  intros Hl. revert a. induction lines as [|l lines IH]; intros a; [apply lift_through|]. apply through_seq; [done|intros t].
  apply through_seq; [apply Hl|]. intros [a'|a']; [apply IH|apply lift_through].
Qed.

Context (body : string → M unit) (Hbody : ∀ t, through (body t)).
Lemma yield_through v : through (yield_text body v).
Proof. unfold yield_text. destruct (py_truthy v); [apply Hbody|apply lift_through]. Qed.
Lemma responses_line_through a t : through (responses_line body a t).
Proof.
  apply through_seq; [done|]. intros [| |v]; [apply lift_through..|]. cbn. destruct (is_dict v); [|apply lift_through].
  apply through_seq; [done|]. intros o. apply through_seq; [|intros ?; apply lift_through]. unfold take_token.
  destruct o as [[x []]|]; [|destruct (_ || _)|]; try apply lift_through; (apply through_seq; [apply Hbody|intros ?; apply lift_through]).
Qed.
Lemma chat_line_through u t : through (chat_line body u t).
Proof.
  apply through_seq; [done|]. intros [| |v]; [apply lift_through..|]. apply through_seq; [done|intros tok].
  apply through_seq; [apply yield_through|intros ?; apply lift_through].
Qed.
Lemma ollama_line_through u t : through (ollama_line body u t).
Proof.
  unfold ollama_line. case_decide; [apply lift_through|]. apply through_seq; [done|intros line].
  destruct (json_loads line) as [[]|e]; try apply lift_through; [|case_decide; apply lift_through]. apply through_seq; [done|intros m].
  apply through_seq; [done|intros c]. apply through_seq; [apply yield_through|intros ?; apply lift_through].
Qed.
Lemma stream_lines_through p resp : through (stream_lines p body resp).
Proof.
  unfold stream_lines. destruct p as [? ? ? ? [] ?| | |]; (apply through_seq; [done|intros ?]).
  - apply for_lines_through, chat_line_through.
  - apply through_seq; [|intros ?; apply lift_through]. apply for_lines_through, responses_line_through.
  - apply for_lines_through, ollama_line_through.
  - apply for_lines_through, ollama_line_through.
  - apply for_lines_through, ollama_line_through.
Qed.
(** Posting and closing themselves go through the relation. *)
Lemma stream_through p r : (∀ c rq, through (post c rq)) → (∀ s, R s (log ResponseClosed s)) → through (stream p r body).
Proof.
  intros Hpost Hlog. assert (through (rq ← st_lift (completion_request p true r); resp ← post_stream p rq; closing (stream_lines p body resp))) as H.
  { apply through_seq; [done|intros rq]. apply through_seq.
    - intros s s' x Hx. apply post_stream_post in Hx as (y & Hy & _). by eapply Hpost.
    - intros resp s s' x Hx. unfold closing in Hx. destruct (stream_lines p body resp s) as [s1 y] eqn:E. injection Hx as <- _.
      transitivity s1; [by eapply stream_lines_through|apply Hlog]. }
  unfold stream. destruct p; try exact H; apply lift_through.
Qed.
Lemma complete_through p r : (∀ c rq, through (post c rq)) → (∀ s, R s (log ResponseClosed s)) → through (complete p r).
Proof.
  intros Hpost Hlog. apply through_seq; [done|intros rq]. apply through_seq; [apply Hpost|]. intros resp s s' x [= <- _]. apply Hlog.
Qed.
End through.

(** ** What is posted, and that it is closed *)

(** Every answer that is handed over is closed before anything else is sent. *)
Definition is_sent (e : http_event) : Prop := match e with Sent _ => True | _ => False end.
Inductive paired : list http_event → Prop :=
  | paired_nil : paired []
  | paired_failed l0 rq l : Forall is_sent l0 → paired l → paired (l0 ++ Posted rq false :: l)
  | paired_closed l0 rq l : Forall is_sent l0 → paired l → paired (l0 ++ Posted rq true :: ResponseClosed :: l).
Lemma paired_app l l' : paired l → paired l' → paired (l ++ l').
Proof. induction 1; intros; [done|rewrite <- app_assoc; cbn; constructor; auto..]. Qed.
Lemma sent_are_sent l : Forall is_sent (sent l).
Proof. apply Forall_flat_map, Forall_true. intros [q k]. by apply Forall_replicate. Qed.

(** Posted is what the provider posts; sent is that, and what redirects make of
    it. *)
Definition to (p : provider) (e : http_event) : Prop :=
  match e with
  | ResponseClosed => True
  | Posted rq _ => (∃ stream r, completion_request p stream r = Ok rq)
  | Sent rq' => (∃ stream r rq, completion_request p stream r = Ok rq ∧ leads_to rq rq')
  end.
Definition same_trace (s s' : wire) : Prop := http_trace s' = http_trace s.
#[export] Instance same_trace_preorder : PreOrder same_trace.
Proof. split; [done|]. intros s1 s2 s3 H1 H2. red. by rewrite H2. Qed.
Abbreviation quiet := (through same_trace).
Definition same_collected (s s' : wire) : Prop := collected s' = collected s.
#[export] Instance same_collected_preorder : PreOrder same_collected.
Proof. split; [done|]. intros s1 s2 s3 H1 H2. red. by rewrite H2. Qed.
Definition closes {A} (p : provider) (m : M A) : Prop := ∀ s s' r, m s = (s', r) → ∃ l, http_trace s' = http_trace s ++ l ∧ paired l ∧ Forall (to p) l.

Lemma quiet_closes {A} p (m : M A) : quiet m → closes p m.
Proof. intros Hm s s' r H. exists []. rewrite (Hm _ _ _ H), app_nil_r. split; [done|]. split; constructor. Qed.
Lemma closes_seq {A B} p (m : M A) (f : A → M B) : closes p m → (∀ a, closes p (f a)) → closes p (m ≫= f).
Proof.
  intros Hm Hf s s' r H. unfold mbind, stm_bind in H. destruct (m s) as [s1 [a|e]] eqn:E.
  - destruct (Hm _ _ _ E) as (l1 & E1 & P1 & F1). destruct (Hf _ _ _ _ H) as (l2 & E2 & P2 & F2). exists (l1 ++ l2).
    rewrite E2, E1, app_assoc. split; [done|]. split; [by apply paired_app|by apply Forall_app].
  - injection H as <- _. by eapply Hm.
Qed.

Lemma sent_to p stream r rq c m n l x : completion_request p stream r = Ok rq → followed c m rq n l x → Forall (to p) (sent l).
Proof.
  intros Hrq [Hl _]%followed_leads. apply Forall_flat_map. eapply Forall_impl; [exact Hl|]. intros [q k] [Hq _]. apply Forall_replicate. cbn. eauto.
Qed.
(** A post and the reading of its answer. *)
Lemma exchange_closes {A} p rq c (send : M http_response) (f : http_response → M A) stream r : completion_request p stream r = Ok rq →
  (∀ s s' x, send s = (s', x) → ∃ x', post c rq s = (s', x') ∧ is_ok x = is_ok x') → (∀ resp, quiet (f resp)) →
  closes p (send ≫= λ resp, closing (f resp)).
Proof.
  intros Hrq Hsend Hf s s' x H. unfold mbind, stm_bind in H. destruct (send s) as [s1 y] eqn:E. destruct (Hsend _ _ _ E) as (y' & Hp & Hy).
  apply post_sent in Hp as (l & Hl & ->). rewrite <- Hy in H, E. pose proof (sent_to _ _ _ _ _ _ _ _ _ Hrq Hl) as Hto. destruct y as [resp|e].
  - unfold closing in H. destruct (f resp _) as [s2 z] eqn:Ef. injection H as <- _. exists (sent l ++ [Posted rq true; ResponseClosed]).
    cbn. rewrite (Hf _ _ _ _ Ef). cbn. rewrite <- !app_assoc. split; [done|]. split; [repeat constructor; apply sent_are_sent|].
    apply Forall_app. split; [done|]. repeat constructor. by exists stream, r.
  - injection H as <- _. exists (sent l ++ [Posted rq false]). split; [done|]. split; [repeat constructor; apply sent_are_sent|].
    apply Forall_app. split; [done|]. repeat constructor. by exists stream, r.
Qed.

Lemma raised_closes {A} p e : closes p (st_raise (A:=A) e).
Proof. apply quiet_closes, lift_through; apply _. Qed.
Lemma complete_closes p r : closes p (complete p r).
Proof.
  unfold complete. destruct (completion_request p false r) as [rq|e] eqn:E; [|exact (raised_closes p e)].
  refine (exchange_closes p rq (http_client p) (post (http_client p) rq) (λ resp, st_lift (completion_text p resp)) false r E _ (λ _, lift_through _ _)).
  intros s s' x H. by exists x.
Qed.

Lemma stream_closes p r body : (∀ t, quiet (body t)) → closes p (stream p r body).
Proof.
  intros Hb. assert (closes p (rq ← st_lift (completion_request p true r); resp ← post_stream p rq; closing (stream_lines p body resp))) as H.
  { destruct (completion_request p true r) as [rq|e] eqn:E; [|exact (raised_closes p e)].
    refine (exchange_closes p rq (http_client p) (post_stream p rq) (stream_lines p body) true r E _ (λ _, stream_lines_through _ _ Hb _ _)).
    apply post_stream_post. }
  unfold stream. destruct p; try exact H; apply quiet_closes, lift_through; apply _.
Qed.

(** ** Which texts of a Responses stream are yielded *)

(** What a line gives: a token, or the end of the stream. *)
Definition event_token (raw_line : string) : result (option token_of_event) :=
  e ← sse_line raw_line;
  match e with
  | Skipped => Ok (Some None)
  | Finished => Ok None
  | Event payload_obj => if is_dict payload_obj then Some <$> _extract_responses_stream_token payload_obj else Ok (Some None)
  end.
(** The lines up to the end of the stream give these tokens. *)
Definition gives (lines : list (result string)) (tokens : list token_of_event) : Prop := ∃ raws rest,
  lines = (Ok <$> raws) ++ rest ∧ Forall2 (λ raw t, event_token raw = Ok (Some t)) raws tokens ∧
  (rest = [] ∨ ∃ last rest', rest = Ok last :: rest' ∧ event_token last = Ok None).
Definition increments (tokens : list token_of_event) : list string :=
  omap (λ t, match t with Some (x, true) => Some x | _ => None end) tokens.
(** The first text, and the increments after it. *)
Fixpoint chosen (tokens : list token_of_event) : list string :=
  match tokens with
  | [] => []
  | None :: tokens => chosen tokens
  | Some (x, _) :: tokens => x :: increments tokens
  end.

(** A body that never raises, as an update of the state. *)
Definition performs (body : string → M unit) (f : string → wire → wire) : Prop := ∀ t s, body t s = (f t s, Ok tt).
Definition emitted (a : seen) (tokens : list token_of_event) : list string :=
  if saw_incremental a || emitted_final_fallback a then increments tokens else chosen tokens.

Lemma token_lines body f a lines tokens s : performs body f → gives lines tokens →
  ∃ a', for_lines (responses_line body) a lines s = (foldl (λ s t, f t s) s (emitted a tokens), Ok a').
Proof.
  intros Hf (raws & rest & -> & Hraws & Hrest). revert a s. induction Hraws as [|raw t raws tokens Ht _ IH]; intros a s.
  - cbn. assert (emitted a [] = []) as -> by (unfold emitted; by destruct (_ || _)). destruct Hrest as [->|(l & rest' & -> & Hl)]; [by exists a|].
    cbn. unfold responses_line, mbind, stm_bind, st_lift. unfold event_token in Hl. destruct (sse_line l) as [[| |v]|]; try done; [by exists a|].
    cbn in Hl. destruct (is_dict v); [|done]. by destruct (_extract_responses_stream_token v).
  - assert (∃ a1, responses_line body a raw s = (foldl (λ s t, f t s) s (emitted a [t]), Ok (inl a1)) ∧
      emitted a (t :: tokens) = emitted a [t] ++ emitted a1 tokens) as (a1 & E1 & E2).
    { unfold event_token in Ht. unfold responses_line, mbind, stm_bind, st_lift. destruct (sse_line raw) as [[| |v]|]; try done; cbn in Ht.
      - injection Ht as <-. exists a. cbn. unfold emitted. by destruct (_ || _).
      - destruct (is_dict v); cbn.
        + destruct (_extract_responses_stream_token v) as [o|]; [|done]. injection Ht as <-. unfold take_token, mbind, stm_bind, emitted.
          destruct a as [[] []], o as [[x []]|]; cbn; rewrite ?Hf; by eexists.
        + injection Ht as <-. exists a. unfold emitted. by destruct (_ || _). }
    destruct (IH a1 (foldl (λ s t, f t s) s (emitted a [t]))) as [a' E3]. exists a'. rewrite E2, foldl_app, <- E3. cbn.
    unfold mbind, stm_bind, st_lift at 1. by rewrite E1.
Qed.
End providers.

(** A network without redirects, on which every failure is passing. *)
Definition plain (f : nat → http_request → result http_response) : network :=
  {| server := f; transient := λ _ _, true; pause := λ _, Ok tt; redirect := λ _ _, Ok None |}.

(** ** The factory *)

Definition DEFAULT_GOOGLE_BASE_URL := "https://generativelanguage.googleapis.com/v1beta".
Definition DEFAULT_ANTHROPIC_BASE_URL := "https://api.anthropic.com".
Definition DEFAULT_OLLAMA_BASE_URL := "http://localhost:11434".

Definition _normalize_provider_name (provider_name : option string) : string := py_lower (py_strip (str_or provider_name "local")).
Definition _normalize_openai_api_mode (openai_api_mode : option string) : result api_mode :=
  let normalized := py_lower (py_strip (str_or openai_api_mode "chat_completions")) in
  if decide (normalized = "chat_completions") then Ok ChatCompletions
  else if decide (normalized = "responses") then Ok Responses
  else Raise (value_error ("Unsupported OpenAI API mode: " +:+ default "None" openai_api_mode)).

Record provider_args := {
  pa_base_url : string; pa_api_key : string; pa_timeout_seconds : Z; pa_extra_headers : list (string * string); pa_openai_api_mode : option string
}.
Definition base_or (base_url default : string) : string := if decide (base_url = "") then default else rstrip_slashes base_url.
(** A key is needed elsewhere than at an OpenAI-compatible or Ollama server. *)
Definition needs_key (name api_key : string) : result unit :=
  raise_if (bool_decide (api_key = "") || bool_decide (api_key = "not-needed")) (value_error (name +:+ " provider requires a valid API key")).
Definition _build_provider (provider_name : option string) (a : provider_args) : result provider :=
  let normalized := _normalize_provider_name provider_name in
  if decide (normalized = "local" ∨ normalized = "openai") then
    mode ← _normalize_openai_api_mode (pa_openai_api_mode a);
    let endpoint := rstrip_slashes (pa_base_url a) +:+ match mode with Responses => "/v1/responses" | ChatCompletions => "/v1/chat/completions" end in
    client ← default_http_client (pa_timeout_seconds a);
    Ok (OpenAIProvider endpoint (pa_api_key a) (pa_timeout_seconds a) (pa_extra_headers a) mode client)
  else if decide (normalized = "anthropic") then
    _ ← needs_key "anthropic" (pa_api_key a);
    client ← default_http_client (pa_timeout_seconds a);
    Ok (AnthropicProvider (base_or (pa_base_url a) DEFAULT_ANTHROPIC_BASE_URL +:+ "/v1/messages") (pa_api_key a) client)
  else if decide (normalized = "google") then
    _ ← needs_key "google" (pa_api_key a);
    client ← default_http_client (pa_timeout_seconds a);
    Ok (GoogleProvider (rstrip_slashes (base_or (pa_base_url a) DEFAULT_GOOGLE_BASE_URL)) (pa_api_key a) client)
  else if decide (normalized = "ollama") then
    client ← default_http_client (pa_timeout_seconds a);
    Ok (OllamaProvider (rstrip_slashes (base_or (pa_base_url a) DEFAULT_OLLAMA_BASE_URL)) (pa_extra_headers a) client)
  else Raise (value_error ("Unsupported provider: " +:+ default "None" provider_name)).

Definition create_provider (provider_name : option string) (a : provider_args) (fallback_provider_name : option string) : result provider :=
  match _build_provider provider_name a with
  | Raise e =>
      if is_value_error (exn_cls e) && negb (bool_decide (str_or fallback_provider_name "" = "")) then _build_provider fallback_provider_name a
      else Raise e
  | r => r
  end.
