(* ===== verification/AgentClient.v ===== *)
(** The agent client ([eap/agent/agent_client.py]): chatting, streaming with a
    fallback, and planning a macro, over the providers and the compiler. *)
From stdpp Require Import options.
From S2P Require Import Prelude Values Json CanonicalJson Models Compiler Providers.
Unset Default Proof Using.

(** [json.dumps(v, indent=2)] *)
Fixpoint json_dumps_indent (float_repr : Q → string) (level : nat) (v : pyval) : string :=
  match v with
  | PNone => "null"
  | PBool b => if b then "true" else "false"
  | PInt z => pretty z
  | PFloat q => float_repr q
  | PStr s => json_str s
  | PList [] => "[]"
  | PList l =>
      "[" +:+ indent (S level) +:+ py_join ("," +:+ indent (S level)) (json_dumps_indent float_repr (S level) <$> l) +:+ indent level +:+ "]"
  | PDict [] => "{}"
  | PDict d =>
      "{" +:+ indent (S level) +:+ py_join ("," +:+ indent (S level)) ((λ kv, json_str kv.1 +:+ ": " +:+ json_dumps_indent float_repr (S level) kv.2) <$> d)
        +:+ indent level +:+ "}"
  end.

Record AgentClient := {
  ac_base_url : string; ac_model_name : string; ac_api_key : string; ac_system_prompt : string; ac_temperature : Q;
  ac_extra_headers : list (string * string); ac_provider : provider
}.
(** [AgentClient(...)] *)
Definition new_agent_client (base_url model_name api_key system_prompt : string) (temperature : Q) (timeout_seconds : Z)
    (provider_name openai_api_mode fallback_provider_name : option string) (given : option provider) (extra_headers : list (string * string))
  : result AgentClient :=
  let base_url := rstrip_slashes base_url in
  p ← match given with
      | Some p => Ok p
      | None => create_provider provider_name
                  {| pa_base_url := base_url; pa_api_key := api_key; pa_timeout_seconds := timeout_seconds; pa_extra_headers := extra_headers;
                     pa_openai_api_mode := openai_api_mode |} fallback_provider_name
      end;
  Ok {| ac_base_url := base_url; ac_model_name := model_name; ac_api_key := api_key; ac_system_prompt := system_prompt;
        ac_temperature := temperature; ac_extra_headers := extra_headers; ac_provider := p |}.
(** [AgentClient._headers] *)
Definition client_headers (c : AgentClient) : list (string * string) :=
  match _headers (ac_provider c) with Some h => h | None => bearer (ac_api_key c) (ac_extra_headers c) end.

Definition newline : string := String (Ascii.ascii_of_nat 10) "".
Definition protocol_instructions (manifest_str : string) : string :=
  "### ENVIRONMENT MANIFEST ###" +:+ newline +:+ manifest_str +:+ paragraph +:+
  "### SYSTEM RULES ###" +:+ newline +:+
  "1. Output ONLY a JSON object. No conversational text." +:+ newline +:+
  "2. Use the exact key names: 'steps', 'step_id', 'tool_name', 'arguments'." +:+ newline +:+
  "3. Use the hashed IDs for 'tool_name'." +:+ newline.

Definition ask (c : AgentClient) (system user : string) : CompletionRequest :=
  {| model := ac_model_name c; messages := [{| role := "system"; msg_content := system |}; {| role := "user"; msg_content := user |}];
     temperature := ac_temperature c; tools := None; metadata := [] |}.

Section agent_client.
Context (utf8_decode : string → result string) (json_loads : string → result pyval) (float_repr : Q → string).
Context (net : network).
(** The compiler's parameters. *)
Context (sha256_hex : string → string) (raw_decode : string → nat → result pyval) (read_macro : list (string * pyval) → result BatchedMacroRequest).
Abbreviation M := (stm wire).

Definition chat (c : AgentClient) (user_input : string) : M pyval :=
  response ← complete float_repr net (ac_provider c) (ask c (ac_system_prompt c) user_input);
  mret (text response).

(** [chunks = []], [chunks.append(chunk)], [on_token(chunk)] *)
Definition start_collecting : M unit := st_modify (λ s, {| posts := posts s; http_trace := http_trace s; collected := []; heard := heard s |}).
Definition collect (chunk : pyval) : M unit :=
  st_modify (λ s, {| posts := posts s; http_trace := http_trace s; collected := collected s ++ [chunk]; heard := heard s |}).
Definition tell (on_token : option (pyval → result unit)) (chunk : pyval) : M unit :=
  match on_token with
  | None => mret tt
  | Some f => st_modify (λ s, {| posts := posts s; http_trace := http_trace s; collected := collected s; heard := heard s ++ [chunk] |});; st_lift (f chunk)
  end.
Definition emit (on_token : option (pyval → result unit)) (chunk : pyval) : M unit := collect chunk;; tell on_token chunk.
(** ["".join(chunks)] *)
Fixpoint join_chunks (i : nat) (chunks : list pyval) : result string :=
  match chunks with
  | [] => Ok ""
  | PStr t :: chunks => rest ← join_chunks (S i) chunks; Ok (t +:+ rest)
  | v :: _ => Raise (py_type_error ("sequence item " +:+ pretty i +:+ ": expected str instance, " +:+ type_name v +:+ " found"))
  end.

(** What is left to emit of the answer of the fallback. *)
Definition remaining_text (fallback_text : pyval) (streamed_text : string) : result pyval :=
  if decide (streamed_text = "") then Ok fallback_text else
  match fallback_text with
  | PStr t => Ok (PStr (match strip_prefix streamed_text t with Some rest => rest | None => t end))
  | v => Raise (attribute_error ("'" +:+ type_name v +:+ "' object has no attribute 'startswith'"))
  end.
Definition collected_text : M string := s ← st_get; st_lift (join_chunks 0 (collected s)).
(** The handler of a stream that failed. *)
Definition fall_back (c : AgentClient) (request : CompletionRequest) (on_token : option (pyval → result unit)) : M unit :=
  response ← complete float_repr net (ac_provider c) request;
  streamed_text ← collected_text;
  remaining ← st_lift (remaining_text (text response) streamed_text);
  if py_truthy remaining then emit on_token remaining else mret tt.
Definition stream_chat (c : AgentClient) (user_input : string) (on_token : option (pyval → result unit)) (fallback_to_non_stream : bool) : M string :=
  let request := ask c (ac_system_prompt c) user_input in
  start_collecting;;
  (λ s, match stream utf8_decode json_loads float_repr net (ac_provider c) request (λ t, emit on_token (PStr t)) s with
        | (s, Raise e) => if fallback_to_non_stream then fall_back c request on_token s else (s, Raise e)
        | r => r
        end);;
  collected_text.

(** [self.compiler.compile(raw_text)], of text or of anything else. *)
Definition compile_text (raw_text : pyval) : result BatchedMacroRequest :=
  match raw_text with
  | PStr t => compile float_repr sha256_hex raw_decode read_macro (Text t)
  | PDict d => compile float_repr sha256_hex raw_decode read_macro (Payload d)
  | PList l => Raise (value_error ("Compiler Error: " +:+
      if existsb (py_eqb (PStr "steps")) l then "list indices must be integers or slices, not str"
      else "eap.protocol.models.BatchedMacroRequest() argument after ** must be a mapping, not list"))
  | v => Raise (value_error ("Compiler Error: argument of type '" +:+ type_name v +:+ "' is not iterable"))
  end.
Definition block_of (title : string) (content : option string) : string :=
  match content with
  | Some t => if decide (t = "") then "" else paragraph +:+ "### " +:+ title +:+ " ###" +:+ newline +:+ t
  | None => ""
  end.
Definition plan_request (c : AgentClient) (user_input : string) (hashed_manifest : pyval) (error_feedback memory_context : option string) : CompletionRequest :=
  ask c (ac_system_prompt c +:+ paragraph +:+ protocol_instructions (json_dumps_indent float_repr 0 hashed_manifest))
    (user_input +:+ block_of "MEMORY CONTEXT" memory_context +:+ block_of "FIX PREVIOUS ERROR" error_feedback).
Definition generate_macro (c : AgentClient) (user_input : string) (hashed_manifest : pyval) (error_feedback memory_context : option string)
  : M BatchedMacroRequest :=
  response ← complete_with_tools float_repr net (ac_provider c) (plan_request c user_input hashed_manifest error_feedback memory_context);
  st_lift (compile_text (text response)).

(** ** What was collected and told *)

(** The chunks and what the callback was told of them grow alike. *)
Definition told (on_token : option (pyval → result unit)) (l : list pyval) : list pyval := match on_token with Some _ => l | None => [] end.
Definition grows (on_token : option (pyval → result unit)) (s s' : wire) : Prop :=
  ∃ l, collected s' = collected s ++ l ∧ heard s' = heard s ++ told on_token l.
#[local] Instance grows_preorder on_token : PreOrder (grows on_token).
Proof.
  split.
  - intros s. exists []. by destruct on_token; cbn; rewrite !app_nil_r.
  - intros s1 s2 s3 (l1 & C1 & H1) (l2 & C2 & H2). exists (l1 ++ l2). rewrite C2, C1, H2, H1, <- !app_assoc. split; [done|]. by destruct on_token.
Qed.
Abbreviation emits on_token := (through (grows on_token)).
Lemma emit_emits on_token v : emits on_token (emit on_token v).
Proof. intros s s' r H. exists [v]. unfold emit, collect, tell in H. destruct on_token; injection H as <- _; cbn; by rewrite ?app_nil_r. Qed.
Lemma post_emits on_token client rq : emits on_token (post net client rq).
Proof. intros s s' r (l & _ & ->)%post_sent. exists []. by destruct on_token; cbn; rewrite !app_nil_r. Qed.
Lemma emit_quiet on_token v : through same_trace (emit on_token v).
Proof. intros s s' r H. unfold emit, collect, tell in H. by destruct on_token; injection H as <- _. Qed.

Lemma join_strs i ts : join_chunks i (PStr <$> ts) = Ok (String.concat "" ts).
Proof.
  revert i. induction ts as [|t ts IH]; intros i; [done|]. cbn [fmap list_fmap join_chunks]. rewrite IH. cbn. destruct ts; [by rewrite str_app_nil|done].
Qed.
Lemma join_app i l l' : join_chunks i (l ++ l') = (a ← join_chunks i l; b ← join_chunks (i + length l) l'; Ok (a +:+ b)).
Proof.
  revert i. induction l as [|v l IH]; intros i.
  - cbn. rewrite Nat.add_0_r. by destruct (join_chunks i l').
  - destruct v; try done. cbn [app join_chunks]. rewrite IH. replace (i + length (PStr s :: l)) with (S i + length l) by (cbn; lia).
    destruct (join_chunks (S i) l) as [x|]; [cbn|done]. destruct (join_chunks _ l') as [y|]; [cbn|done]. by rewrite str_app_assoc.
Qed.

(** The chunks of a stream are texts. *)
Definition texts (s s' : wire) : Prop := ∃ ts, collected s' = collected s ++ (PStr <$> ts).
#[local] Instance texts_preorder : PreOrder texts.
Proof.
  split; [intros s; exists []; by rewrite app_nil_r|]. intros s1 s2 s3 [t1 E1] [t2 E2]. exists (t1 ++ t2). by rewrite E2, E1, fmap_app, app_assoc.
Qed.
Lemma emit_texts on_token t : through texts (emit on_token (PStr t)).
Proof. intros s s' r H. exists [t]. unfold emit, collect, tell in H. by destruct on_token; injection H as <- _. Qed.
Lemma post_texts client rq : through texts (post net client rq).
Proof. intros s s' r (l & _ & ->)%post_sent. exists []. by rewrite app_nil_r. Qed.
Lemma log_texts s : texts s (log ResponseClosed s).
Proof. exists []. by rewrite app_nil_r. Qed.
Lemma log_grows on_token s : grows on_token s (log ResponseClosed s).
Proof. exists []. by destruct on_token; cbn; rewrite !app_nil_r. Qed.

Abbreviation streaming c u on_token := (stream utf8_decode json_loads float_repr net (ac_provider c) (ask c (ac_system_prompt c) u) (λ t, emit on_token (PStr t))).
Lemma streaming_emits c u on_token : emits on_token (streaming c u on_token).
Proof. apply stream_through; [apply _|intros; apply emit_emits|intros; apply post_emits|apply log_grows]. Qed.
Lemma streaming_texts c u on_token : through texts (streaming c u on_token).
Proof. apply stream_through; [apply _|intros; apply emit_texts|intros; apply post_texts|apply log_texts]. Qed.
Lemma completing_emits on_token p r : emits on_token (complete float_repr net p r).
Proof. apply complete_through; [apply _|intros; apply post_emits|apply log_grows]. Qed.
Lemma fall_back_emits c r on_token : emits on_token (fall_back c r on_token).
Proof.
  apply through_seq; [apply _|apply completing_emits|intros resp]. apply through_seq; [apply _|intros s s' x [= <- _]; reflexivity|intros t].
  apply through_seq; [apply _|apply lift_through; apply _|intros v]. destruct (py_truthy v); [apply emit_emits|apply lift_through; apply _].
Qed.

Lemma emit_closes p on_token v : closes net p (emit on_token v).
Proof. apply quiet_closes, emit_quiet. Qed.
Lemma fall_back_closes c r on_token : closes net (ac_provider c) (fall_back c r on_token).
Proof.
  apply closes_seq; [apply complete_closes|intros resp]. apply closes_seq; [apply quiet_closes; by intros s s' x [= <- _]|intros t].
  apply closes_seq; [apply quiet_closes, lift_through; apply _|intros v]. destruct (py_truthy v); [apply emit_closes|apply quiet_closes, lift_through; apply _].
Qed.

(** What a fallback after [streamed] answers, of the text [v] of the complete
    answer. *)
Definition fallback_answer (streamed : string) (v : pyval) : string :=
  match v with PStr t => if py_startswith t streamed then t else streamed +:+ t | _ => streamed end.

Lemma fall_back_Ok c r on_token s s' ts t : collected s = PStr <$> ts → fall_back c r on_token s = (s', Ok tt) → join_chunks 0 (collected s') = Ok t →
  ∃ s2 resp, complete float_repr net (ac_provider c) r s = (s2, Ok resp) ∧ t = fallback_answer (String.concat "" ts) (text resp).
Proof.
  intros Hts H Hj. apply st_bind_Ok in H as (s2 & resp & Hc & H). exists s2, resp. split; [done|].
  assert (collected s2 = collected s) as Hs2.
  { refine (complete_through float_repr net same_collected (ac_provider c) r _ _ s s2 _ Hc); [|done]. by intros client rq s0 s0' x (l & _ & ->)%post_sent. }
  apply st_bind_Ok in H as (s3 & st & Hst & H). injection Hst as <- Hst. rewrite Hs2, Hts, join_strs in Hst. injection Hst as <-.
  apply st_bind_Ok in H as (s4 & v & Hv & H). injection Hv as <- Hv. unfold remaining_text in Hv.
  assert (py_truthy v = false → t = String.concat "" ts) as Hfalsy.
  { intros Hf. rewrite Hf in H. injection H as <-. rewrite Hs2, Hts, join_strs in Hj. by injection Hj. }
  assert (py_truthy v = true → join_chunks 0 ((PStr <$> ts) ++ [v]) = Ok t) as Htruthy.
  { intros Hf. rewrite Hf in H. rewrite <- Hts, <- Hs2. unfold emit, collect, tell in H. by destruct on_token; injection H as <-. }
  assert (∀ u, v = PStr u → t = String.concat "" ts +:+ u) as Hstr.
  { intros u ->. destruct (decide (u = "")) as [->|Hu]; [rewrite str_app_nil; by apply Hfalsy|]. cbn in Htruthy.
    rewrite bool_decide_eq_false_2 in Htruthy by done. specialize (Htruthy eq_refl). rewrite join_app, join_strs in Htruthy. cbn in Htruthy. rewrite str_app_nil in Htruthy. by injection Htruthy. }
  assert ((∀ u, v ≠ PStr u) → t = String.concat "" ts) as Hother.
  { intros Hu. destruct (py_truthy v) eqn:Ev; [|by apply Hfalsy]. specialize (Htruthy eq_refl). rewrite join_app, join_strs in Htruthy.
    destruct v; try done. by destruct (Hu s0). }
  case_decide as Hst.
  - injection Hv as <-. destruct (text resp) as [| | | |u| |]; try by apply Hother. by rewrite (Hstr u eq_refl), Hst.
  - destruct (text resp) as [| | | |u| |]; try done. injection Hv as <-. cbn. rewrite (Hstr _ eq_refl). unfold py_startswith.
    destruct (strip_prefix _ u) as [rest|] eqn:E; [|done]. by apply strip_prefix_Some in E as ->.
Qed.

(** ** What the client promises *)

(** C35: A streamed chat, whatever the server, the callback and the fallback do,
    leaves no answer of the server open, posts only what its provider posts, and
    sends only that and what redirects of the server make of it.  The callback was told exactly the chunks that were collected, in order.
    When a text is returned it is those chunks joined, and it is the streamed
    text or, where the stream failed, the complete answer when that begins with
    what was streamed, and otherwise both one after the other; without the
    fallback a failure of the stream is passed on. *)
Theorem streamed_chat c user_input on_token fallback s s' r :
  stream_chat c user_input on_token fallback s = (s', r) →
  (∃ l, http_trace s' = http_trace s ++ l ∧ paired l ∧ Forall (to net (ac_provider c)) l) ∧
  heard s' = heard s ++ told on_token (collected s') ∧
  ∃ s0 s1 streamed ts, start_collecting s = (s0, Ok tt) ∧ streaming c user_input on_token s0 = (s1, streamed) ∧ collected s1 = PStr <$> ts ∧
    match streamed, r with
    | Ok _, r => s' = s1 ∧ r = Ok (String.concat "" ts)
    | Raise e, Ok t => fallback = true ∧ join_chunks 0 (collected s') = Ok t ∧
        ∃ s2 resp, complete float_repr net (ac_provider c) (ask c (ac_system_prompt c) user_input) s1 = (s2, Ok resp) ∧
          t = fallback_answer (String.concat "" ts) (text resp)
    | Raise e, Raise e' => fallback = false → s' = s1 ∧ e' = e
    end.
Proof.
  intros H. unfold stream_chat in H. set (s0 := (start_collecting s).1). rewrite (st_bind_eq start_collecting _ s s0 tt eq_refl) in H.
  destruct (streaming c user_input on_token s0) as [s1 streamed] eqn:E.
  pose proof (streaming_emits _ _ _ _ _ _ E) as Hg. pose proof (streaming_texts _ _ _ _ _ _ E) as [ts Hts]. cbn in Hts.
  assert (∃ l, http_trace s1 = http_trace s ++ l ∧ paired l ∧ Forall (to net (ac_provider c)) l) as Htr.
  { refine (stream_closes utf8_decode json_loads float_repr net (ac_provider c) _ _ _ s0 s1 _ E). intros t. apply emit_quiet. }
  unfold mbind, stm_bind in H. rewrite E in H. destruct streamed as [[]|e].
  - injection H as <- <-. split; [done|]. split; [destruct Hg as (l & C & Hh); cbn in C; by rewrite Hh, C|].
    exists s0, s1, (Ok tt), ts. split; [done|]. split; [done|]. split; [done|]. split; [done|]. by rewrite Hts, join_strs.
  - destruct fallback.
    + destruct (fall_back c _ on_token s1) as [s2 x] eqn:Ef. pose proof (fall_back_emits _ _ _ _ _ _ Ef) as Hg2.
      pose proof (fall_back_closes _ _ _ _ _ _ Ef) as (l2 & T2 & P2 & F2). destruct Htr as (l1 & T1 & P1 & F1).
      assert (s' = s2) as -> by (destruct x; by injection H as <- _).
      assert (grows on_token s0 s2) as (l & C & Hh) by (by transitivity s1). cbn in C. split.
      { exists (l1 ++ l2). rewrite T2, T1, app_assoc. split; [done|]. split; [by apply paired_app|by apply Forall_app]. }
      split; [by rewrite Hh, C|]. exists s0, s1, (Raise e), ts. do 3 (split; [done|]). destruct r as [t|e']; [|done].
      destruct x as [[]|]; [|done]. injection H as Hj. split; [done|]. split; [done|]. by eapply fall_back_Ok.
    + injection H as <- <-. split; [done|]. split; [destruct Hg as (l & C & Hh); cbn in C; by rewrite Hh, C|].
      exists s0, s1, (Raise e), ts. done.
Qed.

(** The payload of an answer: the first JSON object in its text, or itself. *)
Definition payload_of (raw_text : pyval) (d : list (string * pyval)) : Prop :=
  match raw_text with
  | PStr t => _extract_first_json_object raw_decode t "No JSON object found in output." = Ok d
  | PDict d' => d' = d
  | _ => False
  end.
Lemma compile_text_Ok v m : reads_steps read_macro → compile_text v = Ok m →
  macro_wf m ∧ check_parts m = Ok tt ∧
  ∃ d l, payload_of v d ∧ dict_get d "steps" = Some (PList l) ∧ Forall2 (step_meant float_repr sha256_hex) l (steps m).
Proof.
  intros Hreads H. destruct v as [| | | |t| |d]; try done; cbn [compile_text compile] in H.
  - destruct (_extract_first_json_object _ _ _) as [d|e] eqn:E; [|by apply rewrapped_Ok in H].
    apply compile_payload_Ok in H as (H1 & H2 & l & H3); [|done]. split; [done|]. split; [done|]. by exists d, l.
  - apply compile_payload_Ok in H as (H1 & H2 & l & H3); [|done]. split; [done|]. split; [done|]. by exists d, l.
Qed.
Lemma compile_text_Raise v e : compile_text v = Raise e → ∃ m, e = value_error ("Compiler Error: " +:+ m).
Proof.
  destruct v as [| | | |t| |d]; cbn [compile_text compile]; try (intros [= <-]; by eexists).
  - destruct (_extract_first_json_object _ _ _) as [d|e']; unfold compile_payload; [destruct (heal _ _ d)|]; cbn [snd]; apply rewrapped_Raise.
  - unfold compile_payload. destruct (heal _ _ d). cbn [snd]. apply rewrapped_Raise.
Qed.

(** Planning leaves no answer of the server open and posts only what its
    provider posts.  Whatever text the model answers, a macro that is returned is well formed, its parts are
    valid, and its steps are those of the first JSON object in the text, healed
    as documented; a text that gives none is refused with a ValueError, and any
    other failure is the provider's. *)
Theorem planned_macro c user_input manifest feedback memory s s' r :
  reads_steps read_macro →
  generate_macro c user_input manifest feedback memory s = (s', r) →
  (∃ l, http_trace s' = http_trace s ++ l ∧ paired l ∧ Forall (to net (ac_provider c)) l) ∧
  let '(s1, completion) := complete float_repr net (ac_provider c) (plan_request c user_input manifest feedback memory) s in
  s' = s1 ∧
  match completion, r with
  | Ok resp, Ok m => macro_wf m ∧ check_parts m = Ok tt ∧
      ∃ d l, payload_of (text resp) d ∧ dict_get d "steps" = Some (PList l) ∧ Forall2 (step_meant float_repr sha256_hex) l (steps m)
  | Ok resp, Raise e => ∃ m, e = value_error ("Compiler Error: " +:+ m)
  | Raise e, r => r = Raise e
  end.
Proof.
  intros Hreads H. unfold generate_macro, complete_with_tools, mbind, stm_bind in H.
  destruct (complete _ _ _ _ s) as [s1 x] eqn:E. split.
  - assert (s' = s1) as -> by (destruct x; by injection H as <- _). by eapply complete_closes.
  - destruct x as [resp|e]; injection H as <- <-; (split; [done|]); [|done].
    destruct (compile_text (text resp)) as [m|e] eqn:Ec; [by apply compile_text_Ok|by eapply compile_text_Raise].
Qed.

(** *** A Responses stream *)

Definition willing (on_token : option (pyval → result unit)) : Prop := match on_token with Some f => ∀ v, f v = Ok tt | None => True end.
Definition emitted_state (on_token : option (pyval → result unit)) (t : string) (s : wire) : wire :=
  {| posts := posts s; http_trace := http_trace s; collected := collected s ++ [PStr t]; heard := heard s ++ told on_token [PStr t] |}.
Lemma emit_performs on_token : willing on_token → performs (λ t, emit on_token (PStr t)) (emitted_state on_token).
Proof.
  intros Hw t s. unfold emit, collect, tell, emitted_state. destruct on_token as [f|].
  - unfold mbind, stm_bind, st_modify, st_lift. by rewrite Hw.
  - cbn. by rewrite app_nil_r.
Qed.
Lemma foldl_emitted on_token ts s : foldl (λ s t, emitted_state on_token t s) s ts =
  {| posts := posts s; http_trace := http_trace s; collected := collected s ++ (PStr <$> ts); heard := heard s ++ told on_token (PStr <$> ts) |}.
Proof.
  revert s. induction ts as [|t ts IH]; intros s; cbn [foldl fmap list_fmap].
  - destruct s, on_token; cbn; by rewrite !app_nil_r.
  - rewrite IH. cbn. rewrite <- !app_assoc. f_equal. f_equal. by destruct on_token.
Qed.

(** Every delta of a Responses stream is answered once, in order, and a text
    that repeats them all is left out; a stream without deltas is answered by
    its first complete text. *)
Theorem responses_streamed c user_input on_token fallback s endpoint key seconds headers client rq resp tokens :
  ac_provider c = OpenAIProvider endpoint key seconds headers Responses client →
  completion_request (ac_provider c) true (ask c (ac_system_prompt c) user_input) = Ok rq →
  server net (posts s) rq = Ok resp → is_retry client rq resp = false → redirect net rq resp = Ok None → raise_for_status resp = Ok tt → gives utf8_decode json_loads (rs_lines resp) tokens → willing on_token →
  ∃ s', stream_chat c user_input on_token fallback s = (s', Ok (String.concat "" (chosen tokens))) ∧
    heard s' = heard s ++ told on_token (PStr <$> chosen tokens).
Proof.
  intros Hp Hrq Hserver Hretry Hredirect Hstatus Hgives Hw. destruct (streaming c user_input on_token (start_collecting s).1) as [s1 x] eqn:E.
  assert (x = Ok tt ∧ collected s1 = PStr <$> chosen tokens ∧ heard s1 = heard s ++ told on_token (PStr <$> chosen tokens)) as (-> & Hc & Hh).
  { unfold stream in E. rewrite Hp in E. rewrite <- Hp, Hrq in E. rewrite Hp in E. unfold mbind, stm_bind, st_lift at 1, post_stream in E. cbn [http_client] in E.
    rewrite (post_answered net client rq (start_collecting s).1 resp Hserver Hretry Hredirect) in E. unfold closing, stream_lines, responses_unavailable in E. rewrite Hstatus in E. unfold mbind, stm_bind, st_lift in E.
    destruct (token_lines utf8_decode json_loads (λ t, emit on_token (PStr t)) (emitted_state on_token) {| saw_incremental := false; emitted_final_fallback := false |}
      (rs_lines resp) tokens (after_sending (start_collecting s).1 1 [Sent rq; Posted rq true])
      (emit_performs _ Hw) Hgives) as [a' Ea].
    rewrite Ea, foldl_emitted in E. by injection E as <- <-. }
  exists s1. split; [|done]. unfold stream_chat. rewrite (st_bind_eq start_collecting _ s _ tt eq_refl). unfold mbind, stm_bind. change (start_collecting s).1 with
    {| posts := posts s; http_trace := http_trace s; collected := []; heard := heard s |} in E. rewrite E. unfold collected_text, mbind, stm_bind, st_get, st_lift. by rewrite Hc, join_strs.
Qed.
End agent_client.

(** ** Runs *)

Definition json (k : string) (v : pyval) : pyval := PDict [(k, v)].
Definition delta_line (t : string) : pyval := PDict [("type", PStr "response.output_text.delta"); ("delta", PStr t)].
Definition chat_chunk (t : string) : pyval := json "choices" (PList [json "delta" (json "content" (PStr t))]).
(** The texts of the sample streams, and what they parse to. *)
Definition sample_texts : list (string * pyval) :=
  [("d1", delta_line "Hel"); ("d2", delta_line "lo"); ("done", PDict [("type", PStr "response.output_text.done"); ("text", PStr "Hello")]);
   ("c1", chat_chunk "Hel"); ("c2", chat_chunk "lo"); ("usage", PDict [("choices", PList []); ("usage", json "total_tokens" (PInt 7))])].
Definition sample_json (t : string) : result pyval :=
  match dict_get sample_texts t with Some v => Ok v | None => Raise (Exn JSONDecodeError "Expecting value") end.
Definition answer (v : result pyval) (lines : list (result string)) : http_response :=
  {| status_code := 200; reason := ""; rs_json := v; rs_text := ""; rs_headers := []; rs_lines := lines |}.
Definition chat_answer (t : string) : pyval := json "choices" (PList [json "message" (json "content" (PStr t))]).
Definition broken : exn := Exn (OtherError "ChunkedEncodingError") "Connection broken".
(** A stream of these lines, and after it a complete answer. *)
Definition sample_server (lines : list (result string)) (t : string) : network :=
  plain (λ _ rq, Ok (answer (Ok (if rq_stream rq then PNone else chat_answer t)) lines)).
Definition sample_http_client : BoundedHTTPClient :=
  {| timeout := (5, 60)%Q; max_retries := 2; backoff_factor := 1 # 4; status_forcelist := DEFAULT_RETRY_STATUS_CODES; allowed_methods := ["GET"; "POST"];
     respect_retry_after_header := true |}.
Definition sample_client (m : api_mode) : AgentClient :=
  {| ac_base_url := "http://localhost:1234"; ac_model_name := "m"; ac_api_key := "key"; ac_system_prompt := "s"; ac_temperature := 0%Q; ac_extra_headers := [];
     ac_provider := OpenAIProvider "http://localhost:1234/v1/chat/completions" "key" 60 [] m sample_http_client |}.
Definition no_wire : wire := {| posts := 0; http_trace := []; collected := []; heard := [] |}.
Definition sample_stream (m : api_mode) (lines : list (result string)) (t : string) : wire * result string :=
  stream_chat Ok sample_json (λ _, "") (sample_server lines t) (sample_client m) "hi" (Some (λ _, Ok tt)) true no_wire.

(** The repeated text of a Responses stream is left out. *)
Example deltas_once : (λ x, (heard x.1, x.2)) (sample_stream Responses [Ok "data: d1"; Ok ""; Ok "data: d2"; Ok "data: done"; Ok "data: [DONE]"] "") =
  ([PStr "Hel"; PStr "lo"], Ok "Hello").
Proof. vm_compute. reflexivity. Qed.
(** A broken stream is completed by the rest of the fallback's answer... *)
Example rest_emitted : (λ x, (heard x.1, x.2)) (sample_stream ChatCompletions [Ok "data: c1"; Raise broken] "Hello") = ([PStr "Hel"; PStr "lo"], Ok "Hello").
Proof. vm_compute. reflexivity. Qed.
(** ... but another answer is put behind what was streamed. *)
Example answers_concatenated : (λ x, (heard x.1, x.2)) (sample_stream ChatCompletions [Ok "data: c1"; Raise broken] "Hi there") =
  ([PStr "Hel"; PStr "Hi there"], Ok "HelHi there").
Proof. vm_compute. reflexivity. Qed.
(** A chunk without choices, such as the usage chunk at the end of a stream,
    makes the whole stream fail. *)
Example usage_chunk_fails : (λ x, (heard x.1, x.2)) (sample_stream ChatCompletions [Ok "data: c1"; Ok "data: c2"; Ok "data: usage"; Ok "data: [DONE]"] "Hello!!") =
  ([PStr "Hel"; PStr "lo"; PStr "!!"], Ok "Hello!!") ∧
  length (http_trace (sample_stream ChatCompletions [Ok "data: c1"; Ok "data: c2"; Ok "data: usage"; Ok "data: [DONE]"] "Hello!!").1) = 6.
Proof. split; vm_compute; reflexivity. Qed.
(** A server that is busy is asked again, three times in all, within one post. *)
Definition busy : http_response :=
  {| status_code := 503; reason := "busy"; rs_json := Ok PNone; rs_text := ""; rs_headers := []; rs_lines := [] |}.
Definition busy_server (n : nat) (rq : http_request) : result http_response :=
  match n with 0 => Raise (Exn ConnectionError "refused") | 1 => Ok busy | _ => Ok (answer (Ok (chat_answer "Hello")) []) end.
Definition busy_chat (late : nat) : wire * result pyval :=
  chat (λ _, "") (plain (λ n, busy_server (n - late))) (sample_client ChatCompletions) "hi" no_wire.
Example asked_thrice : (busy_chat 0).2 = Ok (PStr "Hello") ∧ posts (busy_chat 0).1 = 3 ∧ length (http_trace (busy_chat 0).1) = 5.
Proof. split_and!; vm_compute; reflexivity. Qed.
Example then_answered_busy : (busy_chat 1).2 = Raise (Exn HTTPError "busy") ∧ posts (busy_chat 1).1 = 3.
Proof. split; vm_compute; reflexivity. Qed.
(** Without a content there is no text, and planning is refused. *)
Example null_content_refused : compile_text (λ _, "") (λ _, "") (λ _ _, Ok PNone) (λ _, Raise (value_error "")) PNone =
  Raise (value_error "Compiler Error: argument of type 'NoneType' is not iterable").
Proof. reflexivity. Qed.

(** ** Witnesses *)

Definition broken_run : wire * result string := sample_stream ChatCompletions [Ok "data: c1"; Raise broken] "Hi there".

Lemma streamed_chat_witness : heard broken_run.1 = told (Some (λ _ : pyval, Ok tt)) (collected broken_run.1) ∧
  ∃ l, http_trace broken_run.1 = l ∧ paired l.
Proof.
  destruct (streamed_chat Ok sample_json (λ _, "") (sample_server [Ok "data: c1"; Raise broken] "Hi there") (sample_client ChatCompletions) "hi"
    (Some (λ _, Ok tt)) true no_wire broken_run.1 broken_run.2 (surjective_pairing _)) as ((l & Hl & Hp & _) & Hh & _).
  split; [exact Hh|]. exists l. exact (conj Hl Hp).
Defined.

Definition planning_server : network := plain (λ _ _, Ok (answer (Ok (chat_answer "x { y{...}")) [])).
Definition sample_plan : wire * result BatchedMacroRequest :=
  generate_macro (λ _, "") planning_server (λ _, "0123456789abcdef") sample_decode sample_read_macro (sample_client ChatCompletions)
    "plan" (PDict []) None None no_wire.
Lemma planned_macro_witness : ∃ m, sample_plan.2 = Ok m ∧ macro_wf m.
Proof.
  pose proof (planned_macro (λ _, "") planning_server (λ _, "0123456789abcdef") sample_decode sample_read_macro (sample_client ChatCompletions)
    "plan" (PDict []) None None no_wire sample_plan.1 sample_plan.2 sample_reads (surjective_pairing _)) as [_ H].
  destruct (sample_plan.2) as [m|e] eqn:E; [|vm_compute in E; discriminate].
  exists m. split; [reflexivity|]. cbv beta in H. revert H. destruct (complete _ _ _ _ _) as [s1 [resp|e]]; [|by intros [_ [=]]].
  intros (_ & Hwf & _). exact Hwf.
Defined.
