(* ===== verification/McpClient.v ===== *)
(** The MCP stdio client ([eap/environment/mcp_client.py]) and the tool built on
    it ([eap/environment/tools/mcp_tools.py]): framed JSON messages over the
    pipes of a server process, with deadlines.

    Writing ends when the server has taken what is written, which can take any
    time, or never does: a server that does not read, or that stands still
    because nobody reads its error output, blocks the client without a deadline.
    A server answers each thing it takes with bytes that arrive later, each at
    its own time; its output can end and it can exit at any time.  A reading of
    the clock takes [tick] microseconds, waiting takes as long as it takes.
    Splitting the command, starting the process and decoding UTF-8 and JSON are
    parameters. *)
From stdpp Require Import options.
From S2P Require Import Prelude Values Json.
Unset Default Proof Using.

(** [MCPClientError], a subclass of RuntimeError *)
Definition MCPClientError : exn_class := OtherError "MCPClientError".
Definition mcp_error (m : string) : exn := Exn MCPClientError m.

(** What the server does on its own: the bytes it sends, when its output ends,
    when it exits. *)
Record output := { sends : list (Z * ascii); ends_at : option Z; exits_at : option Z }.
(** What comes of writing: the server takes it by a time and answers these
    bytes, or the pipe turns out broken, or the write never returns. *)
Inductive delivery := Taken (by_time : Z) (replies : list (Z * ascii)) | Broken (at_time : Z) (e : exn) | Blocks.
(** What a computation that does not return is said to end with; nothing
    catches it. *)
Definition never_returns : exn := Exn (OtherError "never returns") "".
(** The client's handle and counter, and the world: the clock, the bytes under
    way, everything written, and whether the process lives. *)
Record mcp := {
  has_process : bool; request_id : Z;
  clock : Z; incoming : list (Z * ascii); eof_at : option Z; exit_at : option Z; written : string; live : bool
}.
Abbreviation M := (stm mcp).

Definition set_clock (t : Z) (s : mcp) : mcp :=
  {| has_process := has_process s; request_id := request_id s; clock := t; incoming := incoming s; eof_at := eof_at s; exit_at := exit_at s;
     written := written s; live := live s |}.
Definition set_incoming (l : list (Z * ascii)) (s : mcp) : mcp :=
  {| has_process := has_process s; request_id := request_id s; clock := clock s; incoming := l; eof_at := eof_at s; exit_at := exit_at s;
     written := written s; live := live s |}.
Definition set_request_id (n : Z) (s : mcp) : mcp :=
  {| has_process := has_process s; request_id := n; clock := clock s; incoming := incoming s; eof_at := eof_at s; exit_at := exit_at s;
     written := written s; live := live s |}.
Definition set_process (handle alive : bool) (s : mcp) : mcp :=
  {| has_process := handle; request_id := request_id s; clock := clock s; incoming := incoming s; eof_at := eof_at s; exit_at := exit_at s;
     written := written s; live := alive |}.
Definition connect (o : output) (s : mcp) : mcp :=
  {| has_process := true; request_id := request_id s; clock := clock s; incoming := sends o; eof_at := ends_at o; exit_at := exits_at o;
     written := ""; live := true |}.

Definition CR : ascii := Ascii.ascii_of_nat 13.
Definition LF : ascii := Ascii.ascii_of_nat 10.
Definition crlf : string := String CR (String LF "").
Definition delimiter : string := crlf +:+ crlf.
(** [text.split("\r\n")] *)
Fixpoint split_lines (s : string) : list string :=
  match s with
  | "" => [""]
  | String c s' =>
      match s' with
      | String d s'' => if decide (c = CR ∧ d = LF) then "" :: split_lines s''
                        else match split_lines s' with h :: t => String c h :: t | [] => [String c ""] end
      | "" => [String c ""]
      end
  end.
(** [line.split(":", 1)[1]], where there is one *)
Definition after_colon (line : string) : string := default "" (py_partition ":"%char line).2.

(** [v <= w] of numbers *)
Definition num_le (v w : pyval) : Prop := Qle_bool (default 0%Q (py_num v)) (default 0%Q (py_num w)) = true.
#[local] Instance num_le_dec : RelDecision num_le.
Proof. intros v w. unfold num_le. apply _. Defined.

Section mcp_client.
Context (float_repr : Q → string) (decode_replace : string → string) (utf8_decode : string → result string) (json_loads : string → result pyval).
Context (shlex_split : string → result (list string)).
(** [Popen], and what comes of writing at that time what, with all that was
    written before, is this. *)
Context (spawn : list string → result output) (answers : string → Z → delivery).
(** What reading the clock takes. *)
Context (tick : Z).
(** [self.timeout_seconds], in microseconds *)
Context (timeout : Z).

(** [time.time()] *)
Definition now : M Z := λ s, (set_clock (clock s + tick) s, Ok (clock s)).
(** [select.select([fd], [], [], wait)]: something to read, or the end of it *)
Definition select (wait : Z) : M bool := λ s,
  let ready_at := match incoming s with (t, _) :: _ => Some t | [] => eof_at s end in
  match ready_at with
  | Some t => if (t <=? clock s + wait)%Z then (set_clock (Z.max (clock s) t) s, Ok true) else (set_clock (clock s + wait) s, Ok false)
  | None => (set_clock (clock s + wait) s, Ok false)
  end.
(** The bytes that are there, at most [n]. *)
Fixpoint available (n : nat) (t : Z) (l : list (Z * ascii)) : string * list (Z * ascii) :=
  match n, l with
  | S n, (a, c) :: l' => if (a <=? t)%Z then let '(chunk, rest) := available n t l' in (String c chunk, rest) else ("", l)
  | _, _ => ("", l)
  end.
(** [os.read(fd, n)] *)
Definition os_read (n : nat) : M string := λ s, let '(chunk, rest) := available n (clock s) (incoming s) in (set_incoming rest s, Ok chunk).

(** [_require_process] *)
Definition _require_process : M unit :=
  s ← st_get;
  st_raise_if (negb (has_process s)) (mcp_error "MCP client not started.");;
  st_raise_if (match exit_at s with Some t => (t <=? clock s)%Z | None => false end) (mcp_error "MCP server process exited unexpectedly.").

(** One turn of a reading loop: nothing yet, the end, or some bytes. *)
Inductive turn := Nothing | AtEnd | Bytes (chunk : string).
Definition read_turn (deadline : Z) (n : nat) (late : string) : M turn :=
  t ← now;
  st_raise_if (deadline <? t)%Z (mcp_error late);;
  t ← now;
  readable ← select (Z.max 0 (deadline - t));
  if readable : bool then chunk ← os_read n; mret (if decide (chunk = "") then AtEnd else Bytes chunk) else mret Nothing.

(** Out of fuel, which [fuel_enough] shows never to happen. *)
Definition no_fuel : exn := Exn (OtherError "RecursionError") "out of fuel".
(** [_read_until] *)
Fixpoint read_until (fuel : nat) (data : string) (deadline : Z) : M string :=
  if py_substring delimiter data then mret data else
  match fuel with
  | O => st_raise no_fuel
  | S fuel =>
      r ← read_turn deadline 1 "Timed out waiting for MCP response header.";
      match r with
      | Nothing => read_until fuel data deadline
      | AtEnd => mret data
      | Bytes chunk => read_until fuel (data +:+ chunk) deadline
      end
  end.
(** [_read_exact] *)
Fixpoint read_exact (fuel : nat) (data : string) (byte_count deadline : Z) : M string :=
  if (byte_count <=? Z.of_nat (String.length data))%Z then mret data else
  match fuel with
  | O => st_raise no_fuel
  | S fuel =>
      r ← read_turn deadline (Z.to_nat (byte_count - Z.of_nat (String.length data))) "Timed out waiting for MCP response body.";
      match r with
      | Nothing => read_exact fuel data byte_count deadline
      | AtEnd => st_raise (mcp_error "MCP server closed stream before full response body.")
      | Bytes chunk => read_exact fuel (data +:+ chunk) byte_count deadline
      end
  end.
(** A turn takes a byte, or is the last but one. *)
Definition turns (s : mcp) : nat := 2 + length (incoming s).
Definition _read_until (deadline : Z) : M string := λ s, read_until (turns s) "" deadline s.
Definition _read_exact (byte_count deadline : Z) : M string := λ s, read_exact (turns s) "" byte_count deadline s.

(** [_parse_content_length] *)
Definition is_length_line (line : string) : bool := py_startswith (py_lower line) "content-length:".
Definition _parse_content_length (header_text : string) : result Z :=
  match List.find is_length_line (split_lines header_text) with
  | Some line =>
      let value := py_strip (after_colon line) in
      match int_of_str value with Some z => Ok z
      | None => Raise (value_error ("invalid literal for int() with base 10: " +:+ repr_str value)) end
  | None => Raise (mcp_error "Missing Content-Length header from MCP message.")
  end.
Definition message_of (body : string) : result pyval :=
  text ← utf8_decode body;
  match json_loads text with
  | Raise e => Raise (if decide (exn_cls e = JSONDecodeError) then mcp_error ("Failed to decode MCP message: " +:+ exn_str e) else e)
  | r => r
  end.
Definition _read_message (deadline : Z) : M pyval :=
  _require_process;;
  header ← _read_until deadline;
  st_raise_if (bool_decide (header = "")) (mcp_error "MCP server closed stream before header.");;
  content_length ← st_lift (_parse_content_length (decode_replace header));
  body ← _read_exact content_length deadline;
  st_lift (message_of body).

(** [_write_message] *)
Definition frame (payload : pyval) : string :=
  let raw := json_dumps_with float_repr false "," ":" payload in
  "Content-Length: " +:+ pretty (Z.of_nat (String.length raw)) +:+ delimiter +:+ raw.
Definition send (framed : string) : M unit := λ s,
  let w := written s +:+ framed in
  match answers w (clock s) with
  | Blocks => (s, Raise never_returns)
  | Broken t e => (set_clock (Z.max (clock s) t) s, Raise e)
  | Taken t l => ({| has_process := has_process s; request_id := request_id s; clock := Z.max (clock s) t; incoming := incoming s ++ l;
                     eof_at := eof_at s; exit_at := exit_at s; written := w; live := live s |}, Ok tt)
  end.
Definition _write_message (payload : pyval) : M unit := _require_process;; send (frame payload).

Definition notification (method : string) (params : pyval) : pyval := PDict [("jsonrpc", PStr "2.0"); ("method", PStr method); ("params", params)].
Definition notify (method : string) (params : pyval) : M unit := _write_message (notification method params).

(** What a message is to the request with this id: of no concern, or its
    answer. *)
Definition response_to (id : Z) (incoming : pyval) : result (option pyval) :=
  has_id ← py_in (PStr "id") incoming;
  if negb has_id then Ok None else
  i ← attr_get incoming "id";
  if negb (py_eqb (default PNone i) (PInt id)) then Ok None else
  has_error ← py_in (PStr "error") incoming;
  if has_error : bool then
    Raise (mcp_error ("MCP error response: " +:+ py_str float_repr (default PNone (py_get incoming "error"))))
  else r ← attr_get incoming "result"; Ok (Some (default (PDict []) r)).
(** The loop of [request]; a message takes at least a byte. *)
Fixpoint await (fuel : nat) (id deadline : Z) : M pyval :=
  match fuel with
  | O => st_raise no_fuel
  | S fuel =>
      message ← _read_message deadline;
      r ← st_lift (response_to id message);
      match r with Some v => mret v | None => await fuel id deadline end
  end.
Definition await_reply (id deadline : Z) : M pyval := λ s, await (S (length (incoming s))) id deadline s.
Definition request_message (id : Z) (method : string) (params : pyval) : pyval :=
  PDict [("jsonrpc", PStr "2.0"); ("id", PInt id); ("method", PStr method); ("params", params)].
Definition request (method : string) (params : pyval) : M pyval :=
  s ← st_get;
  let id := (request_id s + 1)%Z in
  st_modify (set_request_id id);;
  _write_message (request_message id method params);;
  t ← now;
  await_reply id (t + timeout).

Definition initialize : M pyval :=
  response ← request "initialize"
    (PDict [("protocolVersion", PStr "2024-11-05"); ("capabilities", PDict []);
            ("clientInfo", PDict [("name", PStr "eap-mcp-bridge"); ("version", PStr "0.1.0")])]);
  notify "notifications/initialized" (PDict []);;
  mret response.
Definition list_tools : M pyval := request "tools/list" (PDict []).
Definition call_tool (tool_name : string) (arguments : pyval) : M pyval :=
  request "tools/call" (PDict [("name", PStr tool_name); ("arguments", arguments)]).

Definition start (server_command : string) : M unit :=
  s ← st_get;
  if has_process s then mret tt else
  command_parts ← st_lift (shlex_split server_command);
  st_raise_if (bool_decide (command_parts = [])) (mcp_error "MCP server_command must not be empty.");;
  o ← st_lift (spawn command_parts);
  st_modify (connect o);;
  initialize;;
  mret tt.
(** [close]: the process is terminated, or killed where that does not do, and
    waited for (no time is counted for that). *)
Definition close : M unit := s ← st_get; if has_process s then st_modify (set_process false false) else mret tt.

(** [with MCPStdioClient(...) as client]: closed after the body, not after a
    start that fails, and never where the body does not return. *)
Definition then_close {A} (body : M A) : M A := λ s,
  let '(s, r) := body s in
  if match r with Raise e => bool_decide (e = never_returns) | Ok _ => false end then (s, r) else
  match close s with (s, Ok _) => (s, r) | (s, Raise e) => (s, Raise e) end.
Definition with_client {A} (server_command : string) (body : M A) : M A := start server_command;; then_close body.

(** [{tool.get("name") for tool in tools if isinstance(tool, dict)}], without
    repetitions *)
Definition add_name (names : list pyval) (name : pyval) : list pyval := if existsb (py_eqb name) names then names else names ++ [name].
Definition tool_names (listed : pyval) : result (list pyval) :=
  tools ← attr_get listed "tools";
  tools ← py_iter (default (PList []) tools);
  fold_result (λ names tool, match tool with
    | PDict d => match default PNone (dict_get d "name") with
                 | (PList _ | PDict _) as v => Raise (py_type_error ("unhashable type: '" +:+ type_name v +:+ "'"))
                 | v => Ok (add_name names v)
                 end
    | _ => Ok names
    end) [] tools.
(** [sorted(name for name in names if name)], of texts or of numbers *)
Definition sorted_names (names : list pyval) : result (list pyval) :=
  let l := List.filter py_truthy names in
  if forallb is_str l then Ok (PStr <$> py_sorted (omap (λ v, match v with PStr t => Some t | _ => None end) l))
  else if forallb (λ v, negb (is_None (py_num v))) l
  then Ok (merge_sort num_le l)
  else Raise (py_type_error "'<' not supported between instances of these types").

(** [invoke_mcp_tool_stdio] *)
Definition check_listed (tool_name : string) : M unit :=
  listed ← list_tools;
  available_names ← st_lift (tool_names listed);
  if existsb (py_eqb (PStr tool_name)) available_names then mret tt else
  l ← st_lift (sorted_names available_names);
  st_raise (mcp_error ("MCP tool '" +:+ tool_name +:+ "' is not advertised by server. Available tools: " +:+ py_repr float_repr (PList l))).
Definition invoke_mcp_tool_stdio (server_command tool_name : string) (tool_arguments : pyval) (require_listed_tool : bool) : M pyval :=
  with_client server_command
    ((if require_listed_tool then check_listed tool_name else mret tt);; call_tool tool_name tool_arguments).

(** [invoke_mcp_tool]: what the step gets. *)
Definition invoke_mcp_tool (server_command tool_name : string) (tool_arguments : option (list (string * pyval))) (require_listed_tool : bool) : M string := λ s,
  match invoke_mcp_tool_stdio server_command tool_name (PDict (default [] tool_arguments)) require_listed_tool s with
  | (s, Ok result) => (s, Ok (json_dumps_sorted float_repr result))
  | (s, Raise e) => (s, Raise (if decide (exn_cls e = MCPClientError) then Exn RuntimeError (exn_str e) else e))
  end.
End mcp_client.
