(* ===== verification/McpClientProofs.v ===== *)
(** What the MCP client guarantees for any timing and any splitting of the
    server's bytes. *)
From stdpp Require Import options.
From S2P Require Import Prelude Values Json McpClient.
Unset Default Proof Using.

Definition bytes_of (l : list (Z * ascii)) : string := String.string_of_list_ascii l.*2.
Lemma bytes_of_app l l' : bytes_of (l ++ l') = bytes_of l +:+ bytes_of l'.
Proof.
  unfold bytes_of. rewrite fmap_app. induction l.*2 as [|c cs IH]; [done|]. cbn. by rewrite IH.
Qed.
Lemma bytes_of_length l : String.length (bytes_of l) = length l.
Proof. unfold bytes_of. induction l as [|[t c] l IH]; [done|]. cbn in *. by rewrite IH. Qed.

#[local] Arguments bytes_of : simpl never.

(** [s'] is [s] after these bytes were read. *)
Record took (s s' : mcp) (data : string) : Prop := {
  tk_bytes : ∃ l, incoming s = l ++ incoming s' ∧ bytes_of l = data;
  tk_clock : (clock s <= clock s')%Z;
  tk_rest : has_process s' = has_process s ∧ request_id s' = request_id s ∧ eof_at s' = eof_at s ∧ exit_at s' = exit_at s ∧
            written s' = written s ∧ live s' = live s
}.
Lemma took_refl s : took s s "".
Proof. split; [by exists []|lia|done]. Qed.
Lemma took_trans s1 s2 s3 a b : took s1 s2 a → took s2 s3 b → took s1 s3 (a +:+ b).
Proof.
  intros [(l1 & E1 & B1) C1 R1] [(l2 & E2 & B2) C2 R2]. split.
  - exists (l1 ++ l2). by rewrite E1, E2, bytes_of_app, B1, B2, app_assoc.
  - lia.
  - destruct R1 as (? & ? & ? & ? & ? & ?), R2 as (? & ? & ? & ? & ? & ?). split_and!; congruence.
Qed.
Lemma took_length s s' data : took s s' data → length (incoming s) = String.length data + length (incoming s').
Proof. intros [(l & -> & <-) _ _]. by rewrite length_app, bytes_of_length. Qed.
Lemma took_clock s t : (clock s <= t)%Z → took s (set_clock t s) "".
Proof. intros Ht. split; [by exists []|done|by destruct s]. Qed.

Lemma bytes_split l a b : bytes_of l = a +:+ b → ∃ l1 l2, l = l1 ++ l2 ∧ bytes_of l1 = a ∧ bytes_of l2 = b.
Proof.
  revert a. induction l as [|[t c] l IH]; intros a H.
  - exists [], []. destruct a; [by destruct b|done].
  - destruct a as [|c' a]; [by exists [], ((t, c) :: l)|]. change (String c (bytes_of l) = String c' (a +:+ b)) in H. injection H as -> H.
    destruct (IH a H) as (l1 & l2 & -> & <- & <-). by exists ((t, c') :: l1), l2.
Qed.

(** ** The first empty line of a header *)

Fixpoint line_feeds (s : string) : nat := match s with "" => 0 | String c s => (if decide (c = LF) then 1 else 0) + line_feeds s end.
Lemma line_feeds_app s t : line_feeds (s +:+ t) = line_feeds s + line_feeds t.
Proof. induction s as [|c s IH]; [done|]. change (String c s +:+ t) with (String c (s +:+ t)). cbn [line_feeds]. rewrite IH. lia. Qed.
Lemma delimiter_line_feeds s : py_substring delimiter s = true → 2 ≤ line_feeds s.
Proof. intros H. apply substring_app in H as (a & b & ->). rewrite !line_feeds_app. change (line_feeds delimiter) with 2. lia. Qed.
(** A proper part of a text that ends with a line feed has one fewer. *)
Lemma line_feeds_part t a b : t +:+ String LF "" = a +:+ b → b ≠ "" → line_feeds a ≤ line_feeds t.
Proof.
  revert a. induction t as [|c t IH]; intros a H Hb.
  - destruct a as [|c a]; [cbn; lia|]. change (String LF "" = String c (a +:+ b)) in H. injection H as _ H. destruct a; [|done]. by destruct b.
  - destruct a as [|c' a]; [cbn; lia|]. change (String c (t +:+ String LF "") = String c' (a +:+ b)) in H. injection H as -> H.
    cbn [line_feeds]. specialize (IH a H Hb). lia.
Qed.

Definition plain_line (s : string) : bool := forallb (λ c, negb (bool_decide (c = CR)) && negb (bool_decide (c = LF))) (String.list_ascii_of_string s).
Lemma plain_line_cons c s : plain_line (String c s) = true → c ≠ CR ∧ c ≠ LF ∧ plain_line s = true.
Proof. unfold plain_line. cbn. rewrite !andb_true_iff, !negb_true_iff, !bool_decide_eq_false. by intros [[? ?] ?]. Qed.
Lemma plain_line_feeds s : plain_line s = true → line_feeds s = 0.
Proof. induction s as [|c s IH]; [done|]. intros (_ & H & Hs)%plain_line_cons. cbn [line_feeds]. rewrite decide_False by done. by apply IH. Qed.
Lemma plain_line_app s t : plain_line s = true → plain_line t = true → plain_line (s +:+ t) = true.
Proof.
  intros Hs Ht. induction s as [|c s IH]; [done|]. apply plain_line_cons in Hs as (H1 & H2 & Hs).
  change (negb (bool_decide (c = CR)) && negb (bool_decide (c = LF)) && plain_line (s +:+ t) = true). by rewrite !bool_decide_eq_false_2, IH.
Qed.
Lemma split_plain_line a b : plain_line a = true → split_lines (a +:+ crlf +:+ b) = a :: split_lines b.
Proof.
  induction a as [|c a IH]; [done|]. intros (H & _ & Ha)%plain_line_cons. specialize (IH Ha). change (String c a +:+ crlf +:+ b) with (String c (a +:+ crlf +:+ b)).
  destruct (a +:+ crlf +:+ b) as [|d t] eqn:E; [by destruct a|]. cbn [split_lines] in *. rewrite decide_False by (by intros [? _]).
  by rewrite IH.
Qed.

(** The header that [_write_message] puts before [n] bytes. *)
Definition header_of (n : Z) : string := "Content-Length: " +:+ pretty n +:+ delimiter.
Lemma header_line (n : Z) : plain_line ("Content-Length: " +:+ pretty n) = true.
Proof. apply plain_line_app; [done|]. by apply pretty_chars. Qed.
Lemma header_parsed n : _parse_content_length (header_of n) = Ok n.
Proof.
  unfold _parse_content_length, header_of, delimiter. rewrite <- str_app_assoc, split_plain_line by apply header_line. change (split_lines crlf) with [""; ""].
  cbn [List.find]. change (is_length_line ("Content-Length: " +:+ pretty n)) with true. cbv iota beta zeta.
  change (after_colon ("Content-Length: " +:+ pretty n)) with (" " +:+ pretty n). change (py_strip (" " +:+ pretty n)) with (py_strip (pretty n)).
  by rewrite py_strip_pretty, int_of_str_pretty.
Qed.
(** No part of it ends with an empty line but the whole. *)
Lemma header_minimal n a b : header_of n = a +:+ b → b ≠ "" → py_substring delimiter a = false.
Proof.
  intros H Hb. apply not_true_is_false. intros Hs%delimiter_line_feeds.
  set (t := ("Content-Length: " +:+ pretty n) +:+ String CR (String LF (String CR ""))).
  assert (header_of n = t +:+ String LF "") as E by (unfold t, header_of; by rewrite !str_app_assoc).
  rewrite E in H. apply line_feeds_part in H; [|done]. unfold t in H. rewrite line_feeds_app, (plain_line_feeds _ (header_line n)) in H.
  change (line_feeds (String CR (String LF (String CR "")))) with 1 in H. lia.
Qed.

Section mcp_proofs.
Context (float_repr : Q → string) (decode_replace : string → string) (utf8_decode : string → result string) (json_loads : string → result pyval).
Context (answers : string → Z → delivery) (tick timeout : Z).
Hypothesis tick_pos : (0 < tick)%Z.

Lemma available_spec n t l : let '(chunk, rest) := available n t l in
  ∃ l1, l = l1 ++ rest ∧ bytes_of l1 = chunk ∧ String.length chunk ≤ n ∧ (n ≠ 0 → chunk = "" → match l with (a, _) :: _ => (t < a)%Z | [] => True end).
Proof.
  revert l. induction n as [|n IH]; intros l; [exists []; by split_and!|]. destruct l as [|[a c] l]; [exists []; split_and!; cbn; try done; lia|].
  cbn [available]. destruct (Z.leb_spec a t) as [Ha|Ha].
  - specialize (IH l). destruct (available n t l) as [chunk rest]. destruct IH as (l1 & -> & <- & Hl & _). exists ((a, c) :: l1).
    split_and!; [done|done|cbn; lia|done].
  - exists []. split_and!; [done|done|cbn; lia|by intros].
Qed.

(** ** One turn *)

Lemma wp_time (Q : mcp → result Z → Prop) s : Q (set_clock (clock s + tick) s) (Ok (clock s)) → wp (now tick) Q s.
Proof. done. Qed.
(** Something to read at the latest when the wait is over, or the wait. *)
Lemma wp_select wait (Q : mcp → result bool → Prop) s : (0 <= wait)%Z →
  (∀ t, (clock s <= t <= clock s + wait)%Z → match incoming s with (a, _) :: _ => (a <= t)%Z | [] => True end → Q (set_clock t s) (Ok true)) →
  Q (set_clock (clock s + wait) s) (Ok false) → wp (select wait) Q s.
Proof.
  intros Hw Ht Hf. unfold wp, select. set (ready := match incoming s with (t, _) :: _ => Some t | [] => eof_at s end).
  destruct ready as [t|] eqn:Er; [|exact Hf]. destruct (Z.leb_spec t (clock s + wait)) as [H|H]; [|exact Hf]. apply Ht; [lia|].
  destruct (incoming s) as [|[a c] l]; [done|]. injection Er as ->. lia.
Qed.
Lemma wp_os_read n (Q : mcp → result string → Prop) s : n ≠ 0 → match incoming s with (a, _) :: _ => (a <= clock s)%Z | [] => True end →
  (∀ s' chunk, took s s' chunk → clock s' = clock s → String.length chunk ≤ n → (chunk = "" → incoming s = []) → Q s' (Ok chunk)) → wp (os_read n) Q s.
Proof.
  intros Hn Ha HQ. unfold wp, os_read. pose proof (available_spec n (clock s) (incoming s)) as H. destruct (available n _ _) as [chunk rest].
  destruct H as (l & E & B & L & A). apply HQ; [|done|done|].
  - split; [by exists l|cbn; lia|done].
  - intros Hc. specialize (A Hn Hc). destruct (incoming s) as [|[a c] l']; [done|lia].
Qed.
Lemma took_then_clock s s1 t data : took s s1 data → (clock s1 <= t)%Z → took s (set_clock t s1) data.
Proof. intros H Ht. rewrite <- (str_app_nil data). eapply took_trans; [exact H|by apply took_clock]. Qed.

(** What a turn may find, and when. *)
Definition turn_found (deadline : Z) (n : nat) (late : string) (s s' : mcp) (r : result turn) : Prop :=
  ((deadline < clock s)%Z ∧ s' = set_clock (clock s + tick) s ∧ r = Raise (mcp_error late)) ∨
  ((clock s <= deadline)%Z ∧ (clock s' <= deadline + 2 * tick)%Z ∧
   match r with
   | Ok Nothing => (deadline < clock s')%Z ∧ took s s' ""
   | Ok AtEnd => incoming s = [] ∧ took s s' ""
   | Ok (Bytes chunk) => chunk ≠ "" ∧ String.length chunk ≤ n ∧ took s s' chunk
   | Raise _ => False
   end).
Lemma wp_turn deadline n late s : n ≠ 0 → wp (read_turn tick deadline n late) (turn_found deadline n late s) s.
Proof.
  intros Hn. apply wp_bind, wp_time. cbn. apply wp_bind. unfold wp, st_raise_if, st_lift, raise_if. destruct (Z.ltb_spec deadline (clock s)) as [Hd|Hd]; [by left|].
  cbn. apply wp_bind, wp_time. cbn. set (s1 := set_clock _ (set_clock _ s)). assert (clock s1 = clock s + tick + tick)%Z as Hc1 by done.
  assert (took s s1 "") as T1. { split; [by exists []|lia|by destruct s]. }
  apply wp_bind, wp_select; [lia| |]; rewrite Hc1.
  - intros t Ht Hready. cbn. apply wp_bind, wp_os_read; [done|exact Hready|]. intros s3 chunk T3 E3 Hlen Hnil. cbn. apply wp_ret. right.
    assert (took s s3 chunk) as T.
    { change chunk with ("" +:+ chunk). eapply took_trans; [|exact T3]. apply took_then_clock; [exact T1|lia]. }
    change (clock s3 = t) in E3.
    split; [done|]. split; [lia|]. case_decide as Hch; [subst chunk; split; [by apply Hnil|done]|done].
  - cbn. right. split; [done|]. cbn. split; [lia|]. split; [lia|]. apply took_then_clock; [exact T1|lia].
Qed.

(** ** The reading loops *)

(** Turns that are left: one where the deadline has passed. *)
Definition budget (deadline : Z) (s : mcp) : nat := if (deadline <? clock s)%Z then 1 else 2 + length (incoming s).
Lemma budget_turns deadline s : budget deadline s ≤ turns s.
Proof. unfold budget, turns. destruct (_ <? _)%Z; lia. Qed.
Lemma turn_budget deadline n late s s' t : turn_found deadline n late s s' (Ok t) → t ≠ AtEnd → budget deadline s' < budget deadline s.
Proof.
  intros [(_ & _ & [=])|(Hd & _ & H)] Ht. unfold budget. rewrite (proj2 (Z.ltb_ge deadline (clock s))) by lia. destruct t as [| |chunk]; [|done|].
  - destruct H as [H _]. rewrite (proj2 (Z.ltb_lt deadline (clock s'))) by lia. lia.
  - destruct H as (Hc & _ & H). apply took_length in H. assert (String.length chunk ≠ 0) by (by destruct chunk). destruct (_ <? _)%Z; lia.
Qed.

(** More fuel changes nothing. *)
Lemma read_until_fuel fuel fuel' data deadline s : budget deadline s ≤ fuel → budget deadline s ≤ fuel' →
  read_until tick fuel data deadline s = read_until tick fuel' data deadline s.
Proof.
  revert fuel' data s. induction fuel as [|fuel IH]; intros fuel' data s H1 H2; [unfold budget in H1; destruct (_ <? _)%Z; lia|].
  destruct fuel' as [|fuel']; [unfold budget in H2; destruct (_ <? _)%Z; lia|]. cbn [read_until]. destruct (py_substring delimiter data); [done|].
  pose proof (wp_turn deadline 1 "Timed out waiting for MCP response header." s (Nat.neq_succ_0 _)) as W. unfold wp in W.
  unfold mbind, stm_bind. destruct (read_turn _ _ _ _ s) as [s' [t|e]]; [|done]. cbn in W. destruct t; [| done |];
    (assert (budget deadline s' < budget deadline s) by (by eapply turn_budget)); apply IH; lia.
Qed.
Lemma read_exact_fuel fuel fuel' data count deadline s : budget deadline s ≤ fuel → budget deadline s ≤ fuel' →
  read_exact tick fuel data count deadline s = read_exact tick fuel' data count deadline s.
Proof.
  revert fuel' data s. induction fuel as [|fuel IH]; intros fuel' data s H1 H2; [unfold budget in H1; destruct (_ <? _)%Z; lia|].
  destruct fuel' as [|fuel']; [unfold budget in H2; destruct (_ <? _)%Z; lia|]. cbn [read_exact]. destruct (Z.leb_spec count (Z.of_nat (String.length data))); [done|].
  assert (Z.to_nat (count - Z.of_nat (String.length data)) ≠ 0) as Hn by lia.
  pose proof (wp_turn deadline _ "Timed out waiting for MCP response body." s Hn) as W. unfold wp in W.
  unfold mbind, stm_bind. destruct (read_turn _ _ _ _ s) as [s' [t|e]]; [|done]. cbn in W. destruct t; [| done |];
    (assert (budget deadline s' < budget deadline s) by (by eapply turn_budget)); apply IH; lia.
Qed.

(** What a loop has read, and how late it can be. *)
Definition read_by (deadline : Z) (s s' : mcp) (data : string) : Prop := took s s' data ∧ (clock s' <= Z.max (clock s) (deadline + 2 * tick))%Z.
Definition raised_by (deadline : Z) (s s' : mcp) : Prop := ∃ data, took s s' data ∧ (clock s' <= Z.max (clock s) (deadline + 2 * tick) + tick)%Z.
Lemma read_until_spec fuel data deadline s : budget deadline s ≤ fuel → wp (read_until tick fuel data deadline) (λ s' r,
  match r with
  | Ok d => ∃ more, d = data +:+ more ∧ read_by deadline s s' more ∧ (py_substring delimiter d = true ∨ incoming s' = []) ∧
      ∀ a b, more = a +:+ b → b ≠ "" → py_substring delimiter (data +:+ a) = false
  | Raise e => e = mcp_error "Timed out waiting for MCP response header." ∧ raised_by deadline s s'
  end) s.
Proof.
  revert data s. induction fuel as [|fuel IH]; intros data s Hf; [unfold budget in Hf; destruct (_ <? _)%Z; lia|].
  cbn [read_until]. destruct (py_substring delimiter data) eqn:Ed.
  { apply wp_ret. exists "". rewrite str_app_nil. split; [done|]. split; [split; [apply took_refl|lia]|]. split; [by left|]. intros [|] [|]; done. }
  apply wp_bind. eapply wp_mono; [by apply wp_turn|]. intros s1 [t|e] H; cbn.
  - destruct t as [| |chunk].
    + assert (budget deadline s1 < budget deadline s) by (by eapply turn_budget). destruct H as [(_ & _ & [=])|(Hd & Hc & Hl & T)].
      eapply wp_mono; [apply IH; lia|]. intros s2 [d|e]; cbn.
      * intros (more & -> & [T2 C2] & Hend & Hmin). exists more. split; [done|]. split; [|by split]. split; [exact (took_trans _ _ _ _ _ T T2)|lia].
      * intros [-> (m & T2 & C2)]. split; [done|]. exists m. split; [exact (took_trans _ _ _ _ _ T T2)|lia].
    + destruct H as [(_ & _ & [=])|(Hd & Hc & Hn & T)]. apply wp_ret. exists "". rewrite str_app_nil. split; [done|]. split; [split; [done|lia]|].
      split; [right|by intros [|] [|]]. apply took_length in T. rewrite Hn in T. by destruct (incoming s1).
    + assert (budget deadline s1 < budget deadline s) by (by eapply turn_budget). destruct H as [(_ & _ & [=])|(Hd & Hc & Hl & Hlen & T)].
      eapply wp_mono; [apply IH; lia|]. intros s2 [d|e]; cbn.
      * intros (more & -> & [T2 C2] & Hend & Hmin). exists (chunk +:+ more). rewrite str_app_assoc in *. split; [done|].
        split; [split; [exact (took_trans _ _ _ _ _ T T2)|lia]|]. split; [done|]. destruct chunk as [|c [|c' chunk]]; [done| |cbn in Hlen; lia].
        intros [|a0 a] b; [intros _ _; by rewrite str_app_nil|]. intros [= <- E] Hb. specialize (Hmin a b E Hb). by rewrite str_app_assoc in Hmin.
      * intros [-> (m & T2 & C2)]. split; [done|]. exists (chunk +:+ m). split; [exact (took_trans _ _ _ _ _ T T2)|lia].
  - destruct H as [(Hd & -> & [= ->])|(_ & _ & [])]. split; [done|]. exists "". split; [apply took_clock; lia|cbn; lia].
Qed.

Lemma read_exact_spec fuel data count deadline s : budget deadline s ≤ fuel → wp (read_exact tick fuel data count deadline) (λ s' r,
  match r with
  | Ok d => ∃ more, d = data +:+ more ∧ read_by deadline s s' more ∧ (Z.of_nat (String.length d) = Z.max count (Z.of_nat (String.length data)))%Z
  | Raise e => exn_cls e = MCPClientError ∧ raised_by deadline s s'
  end) s.
Proof.
  revert data s. induction fuel as [|fuel IH]; intros data s Hf; [unfold budget in Hf; destruct (_ <? _)%Z; lia|].
  cbn [read_exact]. destruct (Z.leb_spec count (Z.of_nat (String.length data))) as [Hl|Hl].
  { apply wp_ret. exists "". rewrite str_app_nil. split; [done|]. split; [split; [apply took_refl|lia]|lia]. }
  assert (Z.to_nat (count - Z.of_nat (String.length data)) ≠ 0) as Hn by lia.
  apply wp_bind. eapply wp_mono; [by apply wp_turn|]. intros s1 [t|e] H; cbn.
  - destruct t as [| |chunk].
    + assert (budget deadline s1 < budget deadline s) by (by eapply turn_budget). destruct H as [(_ & _ & [=])|(Hd & Hc & Hl' & T)].
      eapply wp_mono; [apply IH; lia|]. intros s2 [d|e]; cbn.
      * intros (more & -> & [T2 C2] & Hend). exists more. split; [done|]. split; [|done]. split; [exact (took_trans _ _ _ _ _ T T2)|lia].
      * intros [He (m & T2 & C2)]. split; [done|]. exists m. split; [exact (took_trans _ _ _ _ _ T T2)|lia].
    + destruct H as [(_ & _ & [=])|(Hd & Hc & Hnil & T)]. apply wp_raise. split; [done|]. exists "". split; [done|lia].
    + assert (budget deadline s1 < budget deadline s) by (by eapply turn_budget). destruct H as [(_ & _ & [=])|(Hd & Hc & Hl' & Hlen & T)].
      eapply wp_mono; [apply IH; lia|]. intros s2 [d|e]; cbn.
      * intros (more & -> & [T2 C2] & Hend). exists (chunk +:+ more). rewrite str_app_assoc in *. split; [done|].
        split; [split; [exact (took_trans _ _ _ _ _ T T2)|lia]|]. rewrite !str_length_app in *. lia.
      * intros [He (m & T2 & C2)]. split; [done|]. exists (chunk +:+ m). split; [exact (took_trans _ _ _ _ _ T T2)|lia].
  - destruct H as [(Hd & -> & [= ->])|(_ & _ & [])]. split; [done|]. exists "". split; [apply took_clock; lia|cbn; lia].
Qed.

(** ** Messages *)

(** A message read from [s] to [s']: a header up to its first empty line, then
    as many bytes as it says, and what they decode to. *)
Definition message_read (deadline : Z) (s s' : mcp) (m : pyval) : Prop := ∃ header body n,
  read_by deadline s s' (header +:+ body) ∧ header ≠ "" ∧ (py_substring delimiter header = true ∨ incoming s' = []) ∧
  (∀ a b, header = a +:+ b → b ≠ "" → py_substring delimiter a = false) ∧
  _parse_content_length (decode_replace header) = Ok n ∧ (Z.of_nat (String.length body) = Z.max n 0)%Z ∧
  message_of utf8_decode json_loads body = Ok m.
Abbreviation read_message := (_read_message decode_replace utf8_decode json_loads tick).
Lemma wp_required (Q : mcp → result unit → Prop) s : (∀ r, Q s r) → wp _require_process Q s.
Proof.
  intros HQ. apply wp_bind, wp_get. cbn. apply wp_bind. unfold wp, st_raise_if, st_lift, raise_if. destruct (negb _); cbn; [apply HQ|].
  unfold wp. destruct (match exit_at s with Some t => _ | None => _ end); apply HQ.
Qed.
Lemma read_by_trans deadline s1 s2 s3 a b : read_by deadline s1 s2 a → read_by deadline s2 s3 b → read_by deadline s1 s3 (a +:+ b).
Proof. intros [T1 C1] [T2 C2]. split; [exact (took_trans _ _ _ _ _ T1 T2)|lia]. Qed.
Lemma raised_after deadline s1 s2 s3 a : read_by deadline s1 s2 a → raised_by deadline s2 s3 → raised_by deadline s1 s3.
Proof. intros [T1 C1] (b & T2 & C2). exists (a +:+ b). split; [exact (took_trans _ _ _ _ _ T1 T2)|lia]. Qed.
Lemma read_raised deadline s1 s2 a : read_by deadline s1 s2 a → raised_by deadline s1 s2.
Proof. intros [T C]. exists a. split; [done|lia]. Qed.
Lemma raised_here deadline s : raised_by deadline s s.
Proof. exists "". split; [apply took_refl|lia]. Qed.

Lemma wp_until deadline s (Q : mcp → result string → Prop) : wp (read_until tick (turns s) "" deadline) Q s → wp (_read_until tick deadline) Q s.
Proof. done. Qed.
Lemma wp_exact count deadline s (Q : mcp → result string → Prop) : wp (read_exact tick (turns s) "" count deadline) Q s → wp (_read_exact tick count deadline) Q s.
Proof. done. Qed.

Lemma read_message_spec deadline s : wp (read_message deadline) (λ s' r,
  match r with Ok m => message_read deadline s s' m | Raise _ => raised_by deadline s s' end) s.
Proof.
  apply wp_bind, wp_required. intros [[]|e]; cbn; [|apply raised_here]. apply wp_bind, wp_until. eapply wp_mono; [apply read_until_spec, budget_turns|].
  intros s1 [header|e]; cbn; [|by intros [_ ?]]. intros (h & -> & R1 & Hend & Hmin). cbn.
  apply wp_bind. unfold wp, st_raise_if, st_lift, raise_if. destruct (bool_decide _) eqn:Eh; cbn; [by eapply read_raised|]. apply bool_decide_eq_false in Eh.
  apply wp_bind. unfold wp, st_lift. cbn [fst snd]. destruct (_parse_content_length _) as [n|e] eqn:En; cbn; [|by eapply read_raised].
  apply wp_bind, wp_exact. eapply wp_mono; [apply read_exact_spec, budget_turns|]. intros s2 [body|e]; cbn; [|intros [_ ?]; by eapply raised_after].
  intros (b & -> & R2 & Hlen). change ("" +:+ b) with b in *. change ("" +:+ h) with h in *. cbn in Hlen. assert (read_by deadline s s2 (h +:+ b)) as R by (by eapply read_by_trans).
  unfold wp, st_lift. cbn [fst snd]. destruct (message_of utf8_decode json_loads b) as [m|e] eqn:Em; [|by eapply read_raised].
  exists h, b, n. split_and!; try done. destruct Hend as [?|Hnil]; [by left|right]. destruct R2 as [T _]. apply took_length in T. rewrite Hnil in T.
  destruct (incoming s2); [done|cbn in T; lia].
Qed.

(** ** Requests *)

(** A message without this identifier, and the result with it. *)
Definition foreign (id : Z) (m : pyval) : Prop := ∀ i, py_get m "id" = Some i → py_eqb i (PInt id) = false.
Definition result_of (id : Z) (m v : pyval) : Prop := ∃ d i, m = PDict d ∧ dict_get d "id" = Some i ∧ py_eqb i (PInt id) = true ∧
  dict_get d "error" = None ∧ v = default (PDict []) (dict_get d "result").
Lemma response_to_Ok id m o : response_to float_repr id m = Ok o → match o with Some v => result_of id m v | None => foreign id m end.
Proof.
  unfold response_to. destruct m as [|b|z|q|t|l|d]; try (by intros [=]).
  - cbn. destruct (py_substring "id" t); [done|]. by intros [= <-].
  - cbn. destruct (existsb _ l); [done|]. by intros [= <-].
  - cbn [py_in mbind result_bind attr_get]. destruct (dict_get d "id") as [i|] eqn:Ei; cbn; [|intros [= <-] i; cbn; by rewrite Ei].
    destruct (py_eqb i (PInt id)) eqn:Eq; cbn; [|intros [= <-] i'; cbn; rewrite Ei; by intros [= <-]].
    destruct (dict_get d "error") eqn:Ee; cbn; [done|]. intros [= <-]. by exists d, i.
Qed.
(** Messages read until one answers the request. *)
Inductive answered (id deadline : Z) : mcp → pyval → mcp → Prop :=
  | answer_read s s' m v : message_read deadline s s' m → result_of id m v → answered id deadline s v s'
  | other_read s s1 s' m v : message_read deadline s s1 m → foreign id m → answered id deadline s1 v s' →
      answered id deadline s v s'.
Abbreviation awaiting := (await float_repr decode_replace utf8_decode json_loads tick).

Lemma message_read_shorter deadline s s' m : message_read deadline s s' m → length (incoming s') < length (incoming s).
Proof.
  intros (h & b & n & [T _] & Hh & _). apply took_length in T. rewrite str_length_app in T. destruct h; [done|]. cbn in T. lia.
Qed.
Lemma message_read_by deadline s s' m : message_read deadline s s' m → ∃ data, read_by deadline s s' data.
Proof. intros (h & b & n & R & _). by eexists. Qed.

Lemma await_fuel fuel fuel' id deadline s : length (incoming s) < fuel → length (incoming s) < fuel' → awaiting fuel id deadline s = awaiting fuel' id deadline s.
Proof.
  revert fuel' s. induction fuel as [|fuel IH]; intros fuel' s H1 H2; [lia|]. destruct fuel' as [|fuel']; [lia|]. cbn [await].
  pose proof (read_message_spec deadline s) as W. unfold wp in W. unfold mbind, stm_bind. destruct (read_message deadline s) as [s1 [m|e]]; [|done].
  cbn in W. apply message_read_shorter in W. unfold st_lift. destruct (response_to float_repr id m) as [[v|]|e]; [done| |done]. apply IH; lia.
Qed.
Lemma await_spec fuel id deadline s : length (incoming s) < fuel → wp (awaiting fuel id deadline) (λ s' r,
  match r with
  | Ok v => answered id deadline s v s' ∧ ∃ data, read_by deadline s s' data
  | Raise _ => raised_by deadline s s'
  end) s.
Proof.
  revert s. induction fuel as [|fuel IH]; intros s H; [lia|]. cbn [await]. apply wp_bind. eapply wp_mono; [apply read_message_spec|].
  intros s1 [m|e] Hm; cbn; [|done]. pose proof Hm as Hl. apply message_read_shorter in Hl. apply message_read_by in Hm as Hr. destruct Hr as [data Hr].
  apply wp_bind. unfold wp at 1, st_lift. cbn [fst snd]. destruct (response_to float_repr id m) as [[v|]|e] eqn:Er; cbn; try apply response_to_Ok in Er.
  - split; [by eapply answer_read|by exists data].
  - eapply wp_mono; [apply IH; lia|]. intros s2 [v|e]; cbn; [|intros; by eapply raised_after]. intros [Ha [d Hd]]. split; [by eapply other_read|].
    exists (data +:+ d). by eapply read_by_trans.
  - by eapply read_raised.
Qed.

Lemma wp_reply id deadline s (Q : mcp → result pyval → Prop) : wp (awaiting (S (length (incoming s))) id deadline) Q s →
  wp (await_reply float_repr decode_replace utf8_decode json_loads tick id deadline) Q s.
Proof. done. Qed.

(** When a write that returns has returned. *)
Definition write_ends (d : delivery) (t : Z) : option Z :=
  match d with Taken t' _ | Broken t' _ => Some (Z.max t t') | Blocks => None end.
(** After the request is written, or the failure to write it. *)
Lemma wp_write_message payload s (Q : mcp → result unit → Prop) :
  let d := answers (written s +:+ frame float_repr payload) (clock s) in
  (∀ e, Q s (Raise e)) →
  (d = Blocks → Q s (Raise never_returns)) →
  (∀ t e, write_ends d (clock s) = Some t → Q (set_clock t s) (Raise e)) →
  (∀ s' t l, d = Taken t l → incoming s' = incoming s ++ l → clock s' = Z.max (clock s) t →
     request_id s' = request_id s → written s' = written s +:+ frame float_repr payload → Q s' (Ok tt)) →
  wp (_write_message float_repr answers payload) Q s.
Proof.
  intros d Hr Hblock Hbroken Hok. apply wp_bind, wp_required. intros [[]|e]; cbn; [|apply Hr]. unfold wp, send. fold d.
  destruct d as [t l|t e|] eqn:E; cbn; [by eapply Hok|by apply Hbroken|by apply Hblock].
Qed.

(** C37: Whatever a server sends, when and in what pieces, a request either never
    gets its message written (the write does not return: nothing bounds it), or
    it ends: before anything is written, or at most its timeout and three
    readings of the clock after the write returned, however long that took.
    Its value is the result of the first message that was read with the
    request's new id and without an error; every message before it belongs to
    another request or is a notification.  Each message was cut out of the
    server's bytes exactly: a header that ends with its first empty line and as
    many bytes as it says, and no byte after the answer was read.  No run of
    the loops is cut short by the fuel they have in the model. *)
Theorem request_answered method params s s' r : (0 <= timeout)%Z →
  request float_repr decode_replace utf8_decode json_loads answers tick timeout method params s = (s', r) →
  let id := (request_id s + 1)%Z in
  let message := written s +:+ frame float_repr (request_message id method params) in let write := answers message (clock s) in
  request_id s' = id ∧
  ((write = Blocks ∧ r = Raise never_returns) ∨
   (∃ e, r = Raise e ∧ clock s' = clock s ∧ written s' = written s) ∨
   ∃ t, write_ends write (clock s) = Some t ∧ (t <= clock s' <= t + timeout + 3 * tick)%Z ∧
     match r with
     | Ok v => written s' = message ∧
         ∃ sent t' l, write = Taken t' l ∧ incoming sent = incoming s ++ l ∧ answered id (t + timeout) sent v s'
     | Raise _ => True
     end) ∧
  (∀ fuel deadline s0, length (incoming s0) < fuel →
     awaiting fuel id deadline s0 = await_reply float_repr decode_replace utf8_decode json_loads tick id deadline s0).
Proof.
  intros Ht H id message write.
  assert (wp (request float_repr decode_replace utf8_decode json_loads answers tick timeout method params) (λ s' r,
    request_id s' = id ∧
    ((write = Blocks ∧ r = Raise never_returns) ∨ (∃ e, r = Raise e ∧ clock s' = clock s ∧ written s' = written s) ∨
     ∃ t, write_ends write (clock s) = Some t ∧ (t <= clock s' <= t + timeout + 3 * tick)%Z ∧
       match r with
       | Ok v => written s' = message ∧
           ∃ sent t' l, write = Taken t' l ∧ incoming sent = incoming s ++ l ∧ answered id (t + timeout) sent v s'
       | Raise _ => True
       end)) s) as W.
  { apply wp_bind, wp_get. cbn. apply wp_bind, wp_modify. cbn. apply wp_bind, wp_write_message.
    - intros e. cbn. split; [done|]. right. left. by exists e.
    - intros E. cbn. split; [done|]. by left.
    - intros t e E. cbn. split; [done|]. right. right. exists t. split; [exact E|]. split; [lia|done].
    - intros s1 t l Hl Hi Hc Hid Hw. cbn in Hc, Hid, Hi, Hw, Hl |- *. apply wp_bind, wp_time. cbn.
      apply wp_reply. eapply wp_mono; [apply await_spec; lia|].
      assert (write_ends write (clock s) = Some (clock s1)) as Hends by (rewrite Hc; assert (write = Taken t l) as -> by exact Hl; done).
      intros s2 [v|e]; cbn.
      + intros [Ha (data & [T C])]. pose proof T as [_ Hcl (_ & Hrid & _ & _ & Hwr & _)]. cbn in Hcl, Hrid, Hwr, C. rewrite Hrid, Hid, Hwr. split; [done|].
        right. right. exists (clock s1). split; [done|]. split; [lia|]. split; [exact Hw|]. by exists (set_clock (clock s1 + tick) s1), t, l.
      + intros (data & T & C). pose proof T as [_ Hcl (_ & Hrid & _)]. cbn in Hcl, Hrid, C. rewrite Hrid, Hid. split; [done|].
        right. right. exists (clock s1). split; [done|]. split; [lia|done]. }
  unfold wp in W. rewrite H in W. destruct W as (W1 & W2). split; [done|]. split; [done|].
  intros fuel deadline s0 Hf. apply await_fuel; [done|lia].
Qed.

(** ** A frame that arrives in time is read *)

Section in_time.
Context (rest : list (Z * ascii)) (latest : Z).
Definition arrives (l : list (Z * ascii)) : Prop := Forall (λ b, (b.1 <= latest)%Z) l.
(** [s'] is [s] after the first of the bytes [l] were read in [n] turns. *)
Definition progress (s s' : mcp) (n : nat) : Prop := (clock s' <= Z.max latest (clock s) + 2 * tick * Z.of_nat n)%Z.

Lemma turn_live deadline n late a c l s : n ≠ 0 → incoming s = (a, c) :: l → (a <= latest)%Z → (Z.max latest (clock s) + 2 * tick <= deadline)%Z →
  wp (read_turn tick deadline n late) (λ s' r, ∃ chunk, r = Ok (Bytes chunk) ∧ chunk ≠ "" ∧ String.length chunk ≤ n ∧ took s s' chunk ∧ progress s s' 1) s.
Proof.
  intros Hn Hi Ha Hd. apply wp_bind, wp_time. cbn. apply wp_bind. unfold wp, st_raise_if, st_lift, raise_if. rewrite (proj2 (Z.ltb_ge _ _)) by lia. cbn.
  apply wp_bind, wp_time. cbn. set (s1 := set_clock _ (set_clock _ s)). assert (clock s1 = clock s + tick + tick)%Z as Hc1 by done.
  apply wp_bind. unfold wp, select. change (incoming s1) with (incoming s). rewrite Hi, Hc1. rewrite (proj2 (Z.leb_le _ _)) by lia. cbn.
  apply wp_bind, wp_os_read; [done|cbn; rewrite Hi; lia|]. intros s3 chunk T3 E3 Hlen Hnil. cbn in E3. cbn. case_decide as Hch.
  { exfalso. specialize (Hnil Hch). cbn in Hnil. by rewrite Hi in Hnil. }
  apply wp_ret. exists chunk. split; [done|]. split; [done|]. split; [done|]. split; [|unfold progress; lia].
  change chunk with ("" +:+ chunk). eapply took_trans; [|exact T3]. split; [by exists []|cbn; lia|by destruct s].
Qed.

(** What was taken is the beginning of what there was. *)
Lemma took_prefix s s' l chunk : incoming s = l ++ rest → took s s' chunk → String.length chunk ≤ length l →
  ∃ l1 l2, l = l1 ++ l2 ∧ bytes_of l1 = chunk ∧ incoming s' = l2 ++ rest.
Proof.
  intros Hi [(l1 & E & B) _ _] Hlen. rewrite Hi in E. rewrite <- B, bytes_of_length in Hlen. apply app_eq_inv in E as [(k & H1 & H2)|(k & H1 & H2)].
  - exists l1, k. by rewrite H1.
  - subst l1. rewrite length_app in Hlen. destruct k; [|cbn in Hlen; lia]. exists l, []. rewrite !app_nil_r in *. by rewrite H2, <- B.
Qed.

Lemma until_live fuel l data deadline s : incoming s = l ++ rest → arrives l → length l ≤ fuel →
  (Z.max latest (clock s) + 2 * tick * Z.of_nat (length l) <= deadline)%Z → py_substring delimiter (data +:+ bytes_of l) = true →
  (∀ l1 l2, l = l1 ++ l2 → l2 ≠ [] → py_substring delimiter (data +:+ bytes_of l1) = false) →
  wp (read_until tick fuel data deadline) (λ s' r, r = Ok (data +:+ bytes_of l) ∧ took s s' (bytes_of l) ∧ incoming s' = rest ∧ progress s s' (length l)) s.
Proof.
  revert l data s. induction fuel as [|fuel IH]; intros l data s Hi Harr Hf Hd Hyes Hno; destruct l as [|[a c] l].
  - cbn [bytes_of] in Hyes. unfold bytes_of in Hyes. cbn in Hyes. cbn [read_until]. rewrite str_app_nil in Hyes. rewrite Hyes. apply wp_ret.
    unfold bytes_of. cbn. rewrite str_app_nil. split_and!; [done|apply took_refl|done|unfold progress; lia].
  - cbn in Hf. lia.
  - unfold bytes_of in Hyes. cbn in Hyes. cbn [read_until]. rewrite str_app_nil in Hyes. rewrite Hyes. apply wp_ret.
    unfold bytes_of. cbn. rewrite str_app_nil. split_and!; [done|apply took_refl|done|unfold progress; lia].
  - cbn [read_until]. specialize (Hno [] ((a, c) :: l) eq_refl ltac:(done)) as Hn0. unfold bytes_of in Hn0. cbn in Hn0. rewrite str_app_nil in Hn0. rewrite Hn0.
    apply Forall_cons in Harr as [Ha Harr]. cbn in Hf, Hd. apply wp_bind. eapply wp_mono.
    { eapply (turn_live deadline 1); [done|exact Hi|exact Ha|lia]. }
    intros s1 r (chunk & -> & Hne & Hlen & T & Hp). cbn. destruct (took_prefix s s1 ((a, c) :: l) chunk Hi T ltac:(cbn; lia)) as (l1 & l2 & El & B & Hi1).
    assert (l1 = [(a, c)] ∧ l2 = l) as [-> ->].
    { destruct l1 as [|b [|b' l1]]; [by destruct Hne| |]; injection El as <- El; [done|]. rewrite <- B, bytes_of_length in Hlen. cbn in Hlen. lia. }
    assert (data +:+ bytes_of ((a, c) :: l) = (data +:+ chunk) +:+ bytes_of l) as Eb by (rewrite <- B, str_app_assoc; done).
    unfold progress in Hp. eapply wp_mono; [apply (IH l)|].
    + exact Hi1.
    + done.
    + lia.
    + lia.
    + by rewrite <- Eb.
    + intros k1 k2 -> Hk. specialize (Hno ((a, c) :: k1) k2 eq_refl Hk). rewrite <- B, str_app_assoc. exact Hno.
    + intros s2 r (-> & T2 & Hi2 & Hp2). split; [by rewrite Eb|]. split; [|split; [done|unfold progress in *; cbn; lia]].
      change (bytes_of ((a, c) :: l)) with (bytes_of [(a, c)] +:+ bytes_of l). rewrite B. by eapply took_trans.
Qed.

Lemma exact_live fuel l data deadline s : incoming s = l ++ rest → arrives l → length l ≤ fuel →
  (Z.max latest (clock s) + 2 * tick * Z.of_nat (length l) <= deadline)%Z →
  wp (read_exact tick fuel data (Z.of_nat (String.length data + length l)) deadline)
     (λ s' r, r = Ok (data +:+ bytes_of l) ∧ took s s' (bytes_of l) ∧ incoming s' = rest ∧ progress s s' (length l)) s.
Proof.
  revert l data s. induction fuel as [|fuel IH]; intros l data s Hi Harr Hf Hd; destruct l as [|[a c] l]; try (cbn in Hf; lia).
  1, 2: cbn [read_exact]; rewrite (proj2 (Z.leb_le _ _)) by (cbn; lia); apply wp_ret; unfold bytes_of; cbn; rewrite str_app_nil;
    split_and!; [done|apply took_refl|done|unfold progress; lia].
  cbn [read_exact]. rewrite (proj2 (Z.leb_gt _ _)) by (cbn; lia). apply Forall_cons in Harr as [Ha Harr]. cbn in Hf, Hd.
  set (n := Z.to_nat _). assert (n = S (length l)) as Hn by (unfold n; cbn; lia). apply wp_bind. eapply wp_mono.
  { eapply (turn_live deadline n); [lia|exact Hi|exact Ha|lia]. }
  intros s1 r (chunk & -> & Hne & Hlen & T & Hp). cbn. destruct (took_prefix s s1 ((a, c) :: l) chunk Hi T ltac:(cbn; lia)) as (l1 & l2 & El & B & Hi1).
  destruct l1 as [|b l1]; [by destruct Hne|]. injection El as <- ->. unfold progress in Hp.
  assert (String.length data + S (length (l1 ++ l2)) = String.length (data +:+ chunk) + length l2) as Ec.
  { rewrite str_length_app, <- B, bytes_of_length, length_app. cbn. lia. }
  rewrite Ec. rewrite length_app in Hf, Hd. eapply wp_mono; [apply (IH l2)|].
  - exact Hi1.
  - by apply Forall_app in Harr as [_ ?].
  - lia.
  - nia.
  - intros s2 r (-> & T2 & Hi2 & Hp2). change ((a, c) :: l1 ++ l2) with (((a, c) :: l1) ++ l2). rewrite bytes_of_app, B, str_app_assoc. split; [done|].
    split; [by eapply took_trans|]. split; [done|]. unfold progress in *. rewrite length_app. cbn [length]. nia.
Qed.
End in_time.

Lemma live_required s : has_process s = true → exit_at s = None → _require_process s = (s, Ok tt).
Proof. intros Hp Hx. unfold _require_process, mbind, stm_bind, st_get, st_raise_if, st_lift, raise_if. cbn. by rewrite Hp, Hx. Qed.

(** C38: What one end writes the other reads: a message framed as
    [_write_message] frames it, whose bytes arrive (whole or in any pieces, each
    at its own time) with two readings of the clock per byte to spare before the
    deadline, is read back as what its body decodes to, up to its last byte and
    no further, for any server that is alive. *)
Theorem frames_read_back rest latest l s payload m deadline :
  let raw := json_dumps_with float_repr false "," ":" payload in let head := header_of (Z.of_nat (String.length raw)) in
  has_process s = true → exit_at s = None → incoming s = l ++ rest → bytes_of l = frame float_repr payload → arrives latest l →
  (Z.max latest (clock s) + 2 * tick * Z.of_nat (length l) <= deadline)%Z →
  decode_replace head = head → message_of utf8_decode json_loads raw = Ok m →
  ∃ s', read_message deadline s = (s', Ok m) ∧ incoming s' = rest.
Proof.
  intros raw head Hp Hx Hi Hb Harr Hd Hdec Hm.
  assert (bytes_of l = head +:+ raw) as Hb' by (rewrite Hb; unfold frame, head, header_of; by rewrite !str_app_assoc).
  clearbody raw. apply bytes_split in Hb' as (l1 & l2 & -> & B1 & B2). apply Forall_app in Harr as [A1 A2]. rewrite length_app in Hd. rewrite <- app_assoc in Hi.
  assert (wp (read_message deadline) (λ s' r, r = Ok m ∧ incoming s' = rest) s) as W.
  { apply wp_bind. unfold wp at 1. rewrite (live_required s Hp Hx). cbn [fst snd]. apply wp_bind, wp_until.
    eapply wp_mono; [eapply (until_live (l2 ++ rest) latest _ l1 "" deadline s Hi A1)|].
    - unfold turns. rewrite Hi, length_app. lia.
    - nia.
    - change ("" +:+ bytes_of l1) with (bytes_of l1). rewrite B1. unfold head, header_of. rewrite <- (str_app_nil delimiter), <- str_app_assoc. apply app_substring.
    - intros k1 k2 -> Hk. change ("" +:+ bytes_of k1) with (bytes_of k1).
      apply (header_minimal (Z.of_nat (String.length raw)) _ (bytes_of k2)); [by rewrite <- bytes_of_app|].
      intros E. apply (f_equal String.length) in E. rewrite bytes_of_length in E. by destruct k2.
    - intros s1 r (-> & T & Hi1 & Hp1). change ("" +:+ bytes_of l1) with (bytes_of l1). rewrite B1. cbn.
      apply wp_bind. unfold wp, st_raise_if, st_lift, raise_if. cbn [fst snd]. rewrite bool_decide_eq_false_2 by done. cbn [fst snd].
      apply wp_bind. unfold wp at 1, st_lift. cbn [fst snd]. rewrite Hdec. unfold head at 1. rewrite header_parsed. cbn [wp_next].
      rewrite <- B2, bytes_of_length. apply wp_bind, wp_exact. change (length l2) with (String.length "" + length l2). unfold progress in Hp1.
      eapply wp_mono; [eapply (exact_live rest latest _ l2 "" deadline s1 Hi1 A2)|].
      + unfold turns. rewrite Hi1, length_app. lia.
      + nia.
      + intros s2 r (-> & _ & Hi2 & _). change ("" +:+ bytes_of l2) with (bytes_of l2). rewrite B2. unfold wp, st_lift. cbn [wp_next fst snd]. rewrite Hm. by split. }
  unfold wp in W. destruct (read_message deadline s) as [s' r]. cbn [fst snd] in W. destruct W as [-> W]. by exists s'.
Qed.
End mcp_proofs.

(** ** A server *)

Definition answer_to (id : Z) (v : pyval) : pyval := PDict [("jsonrpc", PStr "2.0"); ("id", PInt id); ("result", v)].
Definition hello : pyval := answer_to 1 (PDict []).
Definition progress_note : pyval := notification "notifications/progress" (PDict [("done", PInt 1)]).
Definition stale : pyval := answer_to 1 (PDict [("tools", PList [PDict [("name", PStr "old")]])]).
Definition listing : pyval := answer_to 2 (PDict [("tools", PList [PDict [("name", PStr "echo")]; PStr "?"])]).
Definition echoed : pyval := answer_to 3 (PDict [("content", PStr "hi")]).
Definition refused : pyval := PDict [("jsonrpc", PStr "2.0"); ("id", PInt 1); ("error", PDict [("code", PInt 32600)])].
Definition raw_of (v : pyval) : string := json_dumps_with (λ _, "") false "," ":" v.
(** Decoding what [json.dumps] writes of these messages. *)
Definition sample_decode (t : string) : result pyval :=
  match List.find (λ v, bool_decide (raw_of v = t)) [hello; progress_note; stale; listing; echoed; refused] with
  | Some v => Ok v
  | None => Raise (Exn JSONDecodeError "Expecting value: line 1 column 1 (char 0)")
  end.
(** Bytes one after the other, from [t] on. *)
Fixpoint spread (t : Z) (s : string) : list (Z * ascii) := match s with "" => [] | String c s => (t, c) :: spread (t + 1)%Z s end.
Definition framed (v : pyval) : string := frame (λ _, "") v.
(** Greets, lists its tools after a notification and an answer to something
    else, and echoes. *)
Definition sample_answers (first : string) (w : string) (t : Z) : delivery :=
  Taken (t + 5) (if py_substring "tools/call" w then spread (t + 40) (framed echoed)
      else if py_substring "tools/list" w then spread (t + 900) (framed progress_note +:+ framed stale +:+ framed listing)
      else if py_substring "notifications" w then []
      else spread (t + 10) first).
Definition silent (_ : list string) : result output := Ok {| sends := []; ends_at := None; exits_at := None |}.
Definition sample_split (s : string) : result (list string) := Ok (if decide (s = "") then [] else [s]).
Definition no_client : mcp :=
  {| has_process := false; request_id := 0; clock := 1000; incoming := []; eof_at := None; exit_at := None; written := ""; live := false |}.
Definition connected : mcp := set_request_id 1 (connect {| sends := []; ends_at := None; exits_at := None |} no_client).
Definition sample_run (first : string) (server tool : string) : mcp * result string :=
  invoke_mcp_tool (λ _, "") id Ok sample_decode sample_split silent (sample_answers first) 1 30000000 server tool None true no_client.

(** A whole session: what came of the call, nothing left running. *)
Example tool_called : (let '(s, r) := sample_run (framed hello) "server" "echo" in (live s, has_process s, request_id s, r)) =
  (false, false, 3%Z, Ok (json_dumps_sorted (λ _, "") (PDict [("content", PStr "hi")]))).
Proof. vm_compute. reflexivity. Qed.
Example unlisted_refused : (let '(s, r) := sample_run (framed hello) "server" "nope" in (live s, request_id s, r)) =
  (false, 2%Z, Raise (Exn RuntimeError "MCP tool 'nope' is not advertised by server. Available tools: ['echo']")).
Proof. vm_compute. reflexivity. Qed.
(** The handshake fails inside [__enter__]: the error is reported, the server
    process goes on. *)
Example failed_start_leaks : (let '(s, r) := sample_run (framed refused) "server" "echo" in (live s, has_process s, r)) =
  (true, true, Raise (Exn RuntimeError "MCP error response: {'code': 32600}")).
Proof. vm_compute. reflexivity. Qed.
(** A length that is no number is no protocol error for the caller. *)
Example bad_length_escapes : (sample_run ("Content-Length: many" +:+ delimiter) "server" "echo").2 =
  Raise (value_error "invalid literal for int() with base 10: 'many'").
Proof. vm_compute. reflexivity. Qed.
Example mute_server_times_out : (let '(s, r) := sample_run "" "server" "echo" in (clock s, live s, r)) =
  (30001007%Z, true, Raise (Exn RuntimeError "Timed out waiting for MCP response header.")).
Proof. vm_compute. reflexivity. Qed.

(** A server that reads too little holds the call up for ever; the process is
    not closed. *)
Definition deaf_answers (w : string) (t : Z) : delivery := if py_substring "tools/call" w then Blocks else sample_answers (framed hello) w t.
Example deaf_server_hangs :
  (let '(s, r) := invoke_mcp_tool (λ _, "") id Ok sample_decode sample_split silent deaf_answers 1 30000000 "server" "echo" None true no_client in
   (live s, has_process s, r)) = (true, true, Raise never_returns).
Proof. vm_compute. reflexivity. Qed.

Definition ask_tools : mcp * result pyval :=
  list_tools (λ _, "") id Ok sample_decode (sample_answers (framed hello)) 1 30000000 connected.
Lemma request_answered_witness : match ask_tools with
  | (s', Ok v) => v = PDict [("tools", PList [PDict [("name", PStr "echo")]; PStr "?"])] ∧ (1005 <= clock s' <= 30001008)%Z ∧ request_id s' = 2%Z
  | _ => False
  end.
Proof.
  destruct ask_tools as [s' r] eqn:E. pose proof (request_answered (λ _, "") id Ok sample_decode (sample_answers (framed hello)) 1 30000000 eq_refl
    "tools/list" (PDict []) connected s' r ltac:(lia) E) as (Hi & [[[=] _]|[(e & -> & _)|(t & Ht & Hc & _)]] & _); [vm_compute in E; discriminate|].
  injection Ht as <-. vm_compute in E. injection E as <- <-. split; [reflexivity|]. split; [exact Hc|reflexivity].
Defined.

Definition piecewise : list (Z * ascii) := spread 900 (framed listing).
Definition mid_session : mcp := set_incoming (piecewise ++ spread 2000 "Content") connected.
Lemma frames_read_back_witness : ∃ s', _read_message id Ok sample_decode 1 5000 mid_session = (s', Ok listing) ∧ incoming s' = spread 2000 "Content".
Proof.
  apply (frames_read_back (λ _, "") id Ok sample_decode 1 eq_refl (spread 2000 "Content") 1100 piecewise mid_session listing listing 5000); try done.
  unfold arrives. vm_compute piecewise. repeat constructor; done.
Defined.
