(* ===== verification/OpenClaw.v ===== *)
(** The client of OpenClaw gateways ([eap/environment/openclaw_client.py]) and
    the tool built on it ([eap/environment/tools/openclaw_tools.py]), over the
    HTTP client of [Providers].

    A failure of a gateway is a value of its own, [OpenClawToolInvokeError], with
    the fields of the exception; any other exception is an [exn].  Releasing the
    pooled session has no counterpart. *)
From stdpp Require Import options.
From S2P Require Import Prelude Values Json Text Providers.
Unset Default Proof Using.

Record OpenClawToolInvokeRequest := { oc_name : string; oc_arguments : list (string * pyval) }.
Record OpenClawToolInvokeResponse := { oc_status_code : Z; oc_payload : list (string * pyval) }.
Record OpenClawToolInvokeError := {
  er_message : string; er_status_code : Z; er_error_type : string; er_details : option (list (string * pyval)); er_retry_after_seconds : option Z
}.

(** [except ValueError]: JSON and UTF-8 errors are kinds of it. *)
Definition value_error_caught (c : exn_class) : bool :=
  is_value_error c || bool_decide (c = JSONDecodeError) || bool_decide (c = OtherError "UnicodeDecodeError").
(** A text that is not blank, stripped. *)
Definition stripped (v : option pyval) : option string :=
  match v with Some (PStr s) => if py_blank s then None else Some (py_strip s) | _ => None end.

Definition _parse_retry_after_seconds (value : option string) : option Z :=
  match value with
  | None => None
  | Some value => if decide (py_strip value = "") then None else int_of_str (py_strip value)
  end.
(** [payload.get("error")] where it is a dictionary *)
Definition error_dict (payload : list (string * pyval)) : option (list (string * pyval)) :=
  match dict_get payload "error" with Some (PDict d) => Some d | _ => None end.
Definition nested (payload : list (string * pyval)) (k : string) : option pyval := d ← error_dict payload; dict_get d k.
Definition _extract_error_code (payload : list (string * pyval)) : option string :=
  match stripped (nested payload "code") with Some c => Some c | None => stripped (dict_get payload "code") end.
Definition _extract_error_message (payload : list (string * pyval)) (default_message : string) : string :=
  match stripped (nested payload "message") with
  | Some m => m
  | None => default default_message (stripped (dict_get payload "message"))
  end.
(** [details.update(value)], or [details["details"] = value] *)
Definition add_details (details : list (string * pyval)) (value : option pyval) : list (string * pyval) :=
  match value with
  | Some (PDict d) => foldl (λ details kv, dict_set details kv.1 kv.2) details d
  | None | Some PNone => details
  | Some v => dict_set details "details" v
  end.
Definition _extract_error_details (payload : list (string * pyval)) (fallback_code : option string) : option (list (string * pyval)) :=
  let details := add_details [] (nested payload "details") in
  let details := add_details details (dict_get payload "details") in
  let details := match fallback_code with
    | Some c => if negb (bool_decide (c = "")) && is_None (dict_get details "code") then dict_set details "code" (PStr c) else details
    | None => details
    end in
  match details with [] => None | _ => Some details end.
Definition _map_error_type (status_code : Z) (error_code : option string) : string :=
  if py_substring "POLICY_DENIED" (py_upper (default "" error_code)) then "policy_denied"
  else if bool_decide (status_code = 401 ∨ status_code = 403)%Z then "unauthorized"
  else if bool_decide (status_code = 429)%Z then "rate_limited"
  else if bool_decide (status_code = 400)%Z then "validation_error"
  else "tool_execution_error".

Definition success (status_code : Z) : bool := ((200 <=? status_code) && (status_code <? 300))%Z.

Section openclaw.
Context (float_repr : Q → string) (net : network).
Abbreviation M := (stm wire).

(** [_read_json_payload] *)
Definition _read_json_payload (response : http_response) : result (list (string * pyval)) :=
  payload ← match rs_json response with
            | Raise e => if value_error_caught (exn_cls e)
                         then Ok (PDict [("message", PStr (str_or (Some (py_strip (rs_text response))) "OpenClaw response was not valid JSON."))])
                         else Raise e
            | r => r
            end;
  Ok (match payload with PDict d => d | v => [("message", PStr (json_dumps float_repr v))] end).

(** What comes of a response. *)
Abbreviation outcome := (OpenClawToolInvokeResponse + OpenClawToolInvokeError)%type.
Definition failure (response : http_response) (payload : list (string * pyval)) : OpenClawToolInvokeError :=
  let error_code := _extract_error_code payload in
  {| er_message := _extract_error_message payload ("OpenClaw /tools/invoke failed with HTTP " +:+ pretty (status_code response) +:+ ".");
     er_status_code := status_code response; er_error_type := _map_error_type (status_code response) error_code;
     er_details := _extract_error_details payload error_code;
     er_retry_after_seconds := _parse_retry_after_seconds (header "Retry-After" (rs_headers response)) |}.
Definition outcome_of (response : http_response) : result outcome :=
  payload ← _read_json_payload response;
  Ok (if success (status_code response) then inl {| oc_status_code := status_code response; oc_payload := payload |}
      else inr (failure response payload)).

Definition set_if_given (k : string) (v : option string) (headers : list (string * string)) : list (string * string) :=
  match v with Some v => if py_blank v then headers else dict_set headers k (py_strip v) | None => headers end.
Definition openclaw_headers (key : string) (account_id channel_id : option string) : list (string * string) :=
  set_if_given "x-openclaw-channel-id" channel_id
    (set_if_given "x-openclaw-account-id" account_id [("Authorization", "Bearer " +:+ key); ("Content-Type", "application/json")]).
(** [normalized_base.startswith(("http://", "https://"))] *)
Definition http_url (u : string) : bool := py_startswith u "http://" || py_startswith u "https://".
Definition invoke_openclaw_tools_api (base_url api_key : string) (request : OpenClawToolInvokeRequest) (timeout_seconds : Z)
    (account_id channel_id : option string) (http_client : option BoundedHTTPClient) : M outcome :=
  let normalized_base := rstrip_slashes (py_strip base_url) in
  st_raise_if (negb (http_url normalized_base)) (value_error "base_url must start with http:// or https://");;
  let normalized_key := py_strip api_key in
  st_raise_if (bool_decide (normalized_key = "")) (value_error "api_key cannot be empty");;
  st_raise_if (py_blank (oc_name request)) (value_error "request.name cannot be empty");;
  client ← st_lift (match http_client with Some c => Ok c | None => default_http_client timeout_seconds end);
  response ← post net client {| rq_method := "POST"; rq_url := normalized_base +:+ "/tools/invoke"; rq_params := [];
                            rq_json := PDict [("name", PStr (oc_name request)); ("arguments", PDict (oc_arguments request))];
                            rq_headers := openclaw_headers normalized_key account_id channel_id; rq_stream := false;
                            rq_timeout := timeout client |};
  closing (st_lift (outcome_of response)).

(** [OpenClawToolsClient] *)
Record OpenClawToolsClient := {
  oc_base_url : string; oc_api_key : string; oc_timeout_seconds : Z; oc_account_id : option string; oc_channel_id : option string;
  oc_http_client : BoundedHTTPClient
}.
Definition new_openclaw_client (base_url api_key : string) (timeout_seconds : Z) (account_id channel_id : option string)
    (http_client : option BoundedHTTPClient) : result OpenClawToolsClient :=
  client ← match http_client with Some c => Ok c | None => default_http_client timeout_seconds end;
  Ok {| oc_base_url := base_url; oc_api_key := api_key; oc_timeout_seconds := timeout_seconds; oc_account_id := account_id;
        oc_channel_id := channel_id; oc_http_client := client |}.
Definition invoke (c : OpenClawToolsClient) (request : OpenClawToolInvokeRequest) : M outcome :=
  invoke_openclaw_tools_api (oc_base_url c) (oc_api_key c) request (oc_timeout_seconds c) (oc_account_id c) (oc_channel_id c) (Some (oc_http_client c)).

(** [invoke_openclaw_tool]: what the step gets. *)
Definition failure_message (e : OpenClawToolInvokeError) : string :=
  "OpenClaw /tools/invoke failed (" +:+ er_error_type e +:+ ", status=" +:+ pretty (er_status_code e) +:+ "): " +:+ er_message e.
Definition invoke_openclaw_tool (base_url api_key tool_name : string) (tool_arguments : option (list (string * pyval))) (timeout_seconds : Z)
    (account_id channel_id : option string) : M string :=
  o ← invoke_openclaw_tools_api base_url api_key {| oc_name := tool_name; oc_arguments := default [] tool_arguments |} timeout_seconds
        account_id channel_id None;
  match o with
  | inl response => mret (json_dumps_sorted float_repr (PDict (oc_payload response)))
  | inr e => st_raise (Exn RuntimeError (failure_message e))
  end.

(** ** What a call sends and reports *)

(** The client of a call: three tries of a request at most, after failures that
    may pass and answers that say to try again. *)
Record default_policy (t : Z) (c : BoundedHTTPClient) : Prop := {
  dp_time : (0 < t)%Z ∧ timeout c = (if Qle_bool (inject_Z t) 5 then inject_Z t else 5%Q, inject_Z t);
  dp_retries : max_retries c = 2%Z;
  dp_statuses : status_forcelist c = [429; 500; 502; 503; 504]%Z;
  dp_methods : allowed_methods c = ["GET"; "POST"];
  dp_waits : respect_retry_after_header c = true
}.
Lemma default_client_Ok t c : default_http_client t = Ok c → default_policy t c.
Proof.
  unfold default_http_client, new_http_client, mbind, result_bind, raise_if. destruct (Qle_bool (inject_Z t) 0) eqn:E; [done|]. cbn [default].
  set (ct := if Qle_bool (inject_Z t) 5 then inject_Z t else 5%Q). destruct (Qle_bool ct 0); [done|]. intros [= <-]. split; try done. split; [|done]. apply Z.nle_gt. intros Ht.
  assert (Qle_bool (inject_Z t) 0 = true) as H by (apply Qle_bool_iff; change 0%Q with (inject_Z 0); by rewrite <- Zle_Qle). congruence.
Qed.
Lemma default_client_Raise t e : default_http_client t = Raise e → ∃ m, e = value_error m.
Proof.
  unfold default_http_client, new_http_client, mbind, result_bind, raise_if. destruct (Qle_bool (inject_Z t) 0); [intros [= <-]; by eexists|]. cbn [default].
  set (ct := if Qle_bool (inject_Z t) 5 then inject_Z t else 5%Q). destruct (Qle_bool ct 0); [intros [= <-]; by eexists|done].
Qed.
Lemma set_if_given_other k v (h : list (string * string)) k' : k ≠ k' → dict_get (set_if_given k v h) k' = dict_get h k'.
Proof. intros Hk. unfold set_if_given. destruct v as [v|]; [|done]. destruct (py_blank v); [done|]. by apply dict_get_set_ne. Qed.
(** The request a call stands for. *)
Record asked (base_url api_key tool_name : string) (arguments : list (string * pyval)) (timeout_seconds : Z) (rq : http_request) : Prop := {
  as_method : rq_method rq = "POST";
  as_url : http_url (rstrip_slashes (py_strip base_url)) = true ∧ rq_url rq = rstrip_slashes (py_strip base_url) +:+ "/tools/invoke";
  as_body : rq_json rq = PDict [("name", PStr tool_name); ("arguments", PDict arguments)] ∧ py_blank tool_name = false;
  as_key : py_strip api_key ≠ "" ∧ dict_get (rq_headers rq) "Authorization" = Some ("Bearer " +:+ py_strip api_key);
  as_time : (0 < timeout_seconds)%Z ∧ (rq_timeout rq).2 = inject_Z timeout_seconds
}.
(** The kind of a failure, from the response's status and the error code in its
    body. *)
Record kind_of_failure (status : Z) (code : option string) (kind : string) : Prop := {
  kf_denied : kind = "policy_denied" ↔ ∃ c, code = Some c ∧ py_substring "POLICY_DENIED" (py_upper c) = true;
  kf_status : kind ≠ "policy_denied" →
    match status with 401%Z | 403%Z => kind = "unauthorized" | 429%Z => kind = "rate_limited" | 400%Z => kind = "validation_error"
                    | _ => kind = "tool_execution_error" end
}.
Lemma error_type_kind status code : kind_of_failure status code (_map_error_type status code).
Proof.
  unfold _map_error_type. destruct (py_substring _ _) eqn:E.
  - split; [|done]. split; [|done]. intros _. destruct code as [c|]; [by exists c|done].
  - split.
    + split; [by repeat case_bool_decide|]. intros (c & -> & Hc). cbn in E. congruence.
    + intros _. case_bool_decide as H1; [by destruct H1 as [-> | ->]|]. case_bool_decide as H2; [by subst|]. case_bool_decide as H3; [by subst|].
      destruct status as [|p|p]; try done. repeat (destruct p as [p|p|]; try done); exfalso; auto.
Qed.

(** A text that is not blank, and that text stripped. *)
Definition gives_text (v : option pyval) (t : string) : Prop := ∃ w, v = Some (PStr w) ∧ py_strip w = t ∧ t ≠ "".
Lemma stripped_gives v t : stripped v = Some t ↔ gives_text v t.
Proof.
  unfold stripped, gives_text, py_blank. split.
  - destruct v as [[| | | |w| |]|]; try done. case_bool_decide; [done|]. intros [= <-]. by exists w.
  - intros (w & -> & <- & Hw). by rewrite bool_decide_eq_false_2.
Qed.
Lemma stripped_None v : stripped v = None → ∀ t, ¬ gives_text v t.
Proof. intros Hv t Ht. apply stripped_gives in Ht. congruence. Qed.
(** The message of a failure: the one of the [error] in the payload, else the
    payload's own, else one that names the status. *)
Inductive message_of_failure (status : Z) (d : list (string * pyval)) : string → Prop :=
  | message_of_error e t : dict_get d "error" = Some (PDict e) → gives_text (dict_get e "message") t → message_of_failure status d t
  | message_of_payload t : (∀ e t, dict_get d "error" = Some (PDict e) → ¬ gives_text (dict_get e "message") t) →
      gives_text (dict_get d "message") t → message_of_failure status d t
  | message_of_status : (∀ e t, dict_get d "error" = Some (PDict e) → ¬ gives_text (dict_get e "message") t) →
      (∀ t, ¬ gives_text (dict_get d "message") t) →
      message_of_failure status d ("OpenClaw /tools/invoke failed with HTTP " +:+ pretty status +:+ ".").
Lemma message_read status d :
  message_of_failure status d (_extract_error_message d ("OpenClaw /tools/invoke failed with HTTP " +:+ pretty status +:+ ".")).
Proof.
  unfold _extract_error_message. destruct (stripped (nested d "message")) as [t|] eqn:En.
  - unfold nested, error_dict in En. destruct (dict_get d "error") as [[| | | | | |e]|] eqn:Ee; try done. cbn in En. eapply message_of_error; [done|].
    by apply stripped_gives.
  - assert (∀ e t, dict_get d "error" = Some (PDict e) → ¬ gives_text (dict_get e "message") t) as Hno.
    { intros e t Ee. apply stripped_None. unfold nested, error_dict in En. by rewrite Ee in En. }
    destruct (stripped (dict_get d "message")) as [t|] eqn:E; [apply message_of_payload; [done|by apply stripped_gives]|].
    apply message_of_status; [done|by apply stripped_None].
Qed.

(** The payload a response stands for: its JSON, or its text where that is no
    JSON. *)
Definition payload_read (response : http_response) (d : list (string * pyval)) : Prop :=
  match rs_json response with
  | Ok (PDict d') => d = d'
  | Ok v => d = [("message", PStr (json_dumps float_repr v))]
  | Raise e => value_error_caught (exn_cls e) = true ∧
      d = [("message", PStr (if decide (py_strip (rs_text response) = "") then "OpenClaw response was not valid JSON." else py_strip (rs_text response)))]
  end.
Lemma payload_exact response : match _read_json_payload response with
  | Ok d => payload_read response d
  | Raise e => rs_json response = Raise e ∧ value_error_caught (exn_cls e) = false
  end.
Proof.
  unfold _read_json_payload, payload_read, mbind, result_bind. destruct (rs_json response) as [[]|e]; try done.
  destruct (value_error_caught (exn_cls e)) eqn:E; [|done]. split; [done|]. unfold str_or. by case_decide.
Qed.

(** What a call reports of the answer to its post. *)
Definition reported (answer : result http_response) (r : result string) : Prop :=
  match answer, r with
  | Raise e, r => r = Raise e
  | Ok response, Ok t => (200 <= status_code response < 300)%Z ∧ ∃ d, payload_read response d ∧ t = json_dumps_sorted float_repr (PDict d)
  | Ok response, Raise e =>
      (rs_json response = Raise e ∧ value_error_caught (exn_cls e) = false) ∨
      (¬ (200 <= status_code response < 300)%Z ∧ ∃ d kind message, payload_read response d ∧ message_of_failure (status_code response) d message ∧
         kind_of_failure (status_code response) (_extract_error_code d) kind ∧
         e = Exn RuntimeError ("OpenClaw /tools/invoke failed (" +:+ kind +:+ ", status=" +:+ pretty (status_code response) +:+ "): " +:+ message))
  end.
Lemma outcome_reported response : reported (Ok response)
  (o ← outcome_of response;
   match o with inl response => Ok (json_dumps_sorted float_repr (PDict (oc_payload response))) | inr e => Raise (Exn RuntimeError (failure_message e)) end).
Proof.
  pose proof (payload_exact response) as Hp. unfold outcome_of, mbind, result_bind. destruct (_read_json_payload response) as [d|e]; [|by left].
  destruct (success (status_code response)) eqn:Es; cbn.
  - apply andb_true_iff in Es as [?%Z.leb_le ?%Z.ltb_lt]. split; [lia|]. by exists d.
  - right. split; [apply andb_false_iff in Es as [?%Z.leb_gt|?%Z.ltb_ge]; lia|]. exists d, (_map_error_type (status_code response) (_extract_error_code d)).
    eexists. split; [done|]. split; [apply message_read|]. split; [apply error_type_kind|done].
Qed.

(** C36: A call of the OpenClaw tool either sends nothing and is refused with a
    ValueError, or makes one post (to the gateway named, with the key, under
    the timeout given).  On the wire that is the request, and what at most
    thirty redirects make of it, each sent once to three times: again only
    after a failure that may pass, or an answer with status 429, 500, 502, 503
    or 504, or one with a Retry-After and status 413, 429 or 503.  The last
    answer is closed, whatever it is, and gives its payload as JSON exactly
    when the status is a success; any other status becomes a RuntimeError that
    names the status, the kind of failure, and the message of the error in the
    payload, or the payload's own, or one that names the status.  Failures to
    get an answer are passed on as they are. *)
Theorem tool_call_reported base_url api_key tool_name arguments timeout_seconds account_id channel_id s s' r :
  invoke_openclaw_tool base_url api_key tool_name arguments timeout_seconds account_id channel_id s = (s', r) →
  (s' = s ∧ ∃ m, r = Raise (value_error m)) ∨
  ∃ rq c l answer, asked base_url api_key tool_name (default [] arguments) timeout_seconds rq ∧ default_policy timeout_seconds c ∧
    followed net c max_redirects rq (posts s) l answer ∧
    (1 ≤ length l ≤ 31 ∧ Forall (λ qk, leads_to net rq qk.1 ∧ 1 ≤ qk.2 ≤ 3) l) ∧
    posts s' = posts s + tries l ∧
    http_trace s' = http_trace s ++ sent l ++ Posted rq (is_ok answer) :: (if is_ok answer then [ResponseClosed] else []) ∧
    reported answer r.
Proof.
  unfold invoke_openclaw_tool, invoke_openclaw_tools_api, mbind, stm_bind, st_raise_if, raise_if, st_lift. cbn [oc_name oc_arguments].
  destruct (http_url (rstrip_slashes (py_strip base_url))) eqn:Eu; cbn [negb]; [|intros [= <- <-]; left; split; [done|by eexists]].
  case_bool_decide as Ek; [intros [= <- <-]; left; split; [done|by eexists]|].
  destruct (py_blank tool_name) eqn:En; [intros [= <- <-]; left; split; [done|by eexists]|].
  destruct (default_http_client timeout_seconds) as [c|e] eqn:Ec; [|apply default_client_Raise in Ec as [m ->]; intros [= <- <-]; left; split; [done|by eexists]].
  apply default_client_Ok in Ec as Hc. destruct (dp_time _ _ Hc) as [Ht Etimeout]. set (rq := Build_http_request _ _ _ _ _ _ _).
  assert (asked base_url api_key tool_name (default [] arguments) timeout_seconds rq) as Hasked.
  { split; cbn; [done|done|done| |by rewrite Etimeout]. split; [done|]. unfold openclaw_headers. by rewrite !set_if_given_other. }
  destruct (post net c rq s) as [s1 answer] eqn:Ep. apply post_sent in Ep as (l & Hl & ->). intros H. right. exists rq, c, l, answer.
  do 3 (split; [done|]). destruct (followed_leads _ _ _ _ _ _ _ Hl) as [Hleads Hlen]. rewrite (dp_retries _ _ Hc) in Hleads. split; [done|].
  destruct answer as [response|e]; [|by injection H as <- <-]. pose proof (outcome_reported response) as Hr. unfold closing in H.
  unfold mbind, result_bind in Hr. destruct (outcome_of response) as [[o|o]|e]; injection H as <- <-; (split; [done|]); (split; [|done]);
    cbn; by rewrite <- !app_assoc.
Qed.
End openclaw.

(** ** A gateway *)

Definition gateway (status : Z) (body : result pyval) : network := plain (λ n rq,
  Ok {| status_code := status; reason := ""; rs_json := body; rs_text := " <html>login</html> "; rs_headers := [("retry-after", " 30 ")]; rs_lines := [] |}).
Definition denied_body : pyval :=
  PDict [("error", PDict [("code", PStr "tool_policy_denied"); ("details", PDict [("tool", PStr "exec")])]); ("message", PStr " not allowed ");
         ("details", PStr "see policy")].
Definition idle : wire := {| posts := 0; http_trace := []; collected := []; heard := [] |}.
Definition sample_call (status : Z) (body : result pyval) (timeout_seconds : Z) : wire * result string :=
  invoke_openclaw_tool (λ _, "") (gateway status body) " https://gw.example/ " " k " "exec" None timeout_seconds (Some "acc") None idle.

Example denied_failure : failure {| status_code := 403; reason := ""; rs_json := Ok denied_body; rs_text := ""; rs_headers := [("retry-after", " 30 ")]; rs_lines := [] |}
    (match denied_body with PDict d => d | _ => [] end) =
  {| er_message := "not allowed"; er_status_code := 403; er_error_type := "policy_denied";
     er_details := Some [("tool", PStr "exec"); ("details", PStr "see policy"); ("code", PStr "tool_policy_denied")]; er_retry_after_seconds := Some 30%Z |}.
Proof. vm_compute. reflexivity. Qed.
(** What the step learns of it: neither the details nor when to retry. *)
Example denied_call : (sample_call 403 (Ok denied_body) 30).2 =
  Raise (Exn RuntimeError "OpenClaw /tools/invoke failed (policy_denied, status=403): not allowed").
Proof. vm_compute. reflexivity. Qed.
(** A success that is no JSON counts as a payload. *)
Example login_page_accepted : (sample_call 200 (Raise (Exn JSONDecodeError "Expecting value")) 30).2 =
  Ok (json_dumps_sorted (λ _, "") (PDict [("message", PStr "<html>login</html>")])).
Proof. vm_compute. reflexivity. Qed.
Example no_time_refused : sample_call 200 (Ok (PDict [])) 0 = (idle, Raise (value_error "timeout_seconds must be > 0")).
Proof. vm_compute. reflexivity. Qed.

(** A gateway that fails is asked three times, under the key each time. *)
Example asked_three_times : posts (sample_call 500 (Ok (PDict [])) 30).1 = 3 ∧
  (sample_call 500 (Ok (PDict [])) 30).2 = Raise (Exn RuntimeError
    "OpenClaw /tools/invoke failed (tool_execution_error, status=500): OpenClaw /tools/invoke failed with HTTP 500.").
Proof. split; vm_compute; reflexivity. Qed.

Lemma tool_call_reported_witness : match sample_call 403 (Ok denied_body) 30 with
  | (s', Raise e) => ∃ rq l answer, rq_url rq = "https://gw.example/tools/invoke" ∧ posts s' = tries l ∧ Forall (λ qk, qk.2 ≤ 3) l ∧
      http_trace s' = sent l ++ Posted rq (is_ok answer) :: (if is_ok answer then [ResponseClosed] else []) ∧
      reported (λ _, "") answer (Raise e)
  | _ => False
  end.
Proof.
  destruct (sample_call 403 (Ok denied_body) 30) as [s' [t|e]] eqn:E; [by vm_compute in E|].
  destruct (tool_call_reported (λ _, "") (gateway 403 (Ok denied_body)) " https://gw.example/ " " k " "exec" None 30 (Some "acc") None idle s' (Raise e) E)
    as [[-> [m [= ->]]]|(rq & c & l & answer & Ha & _ & _ & [_ Hk] & Hp & Ht & Hr)]; [by vm_compute in E|].
  exists rq, l, answer. split; [exact (proj2 (as_url _ _ _ _ _ _ Ha))|]. split; [exact Hp|].
  split; [|split; [exact Ht|exact Hr]]. eapply Forall_impl; [exact Hk|]. intros qk [_ [_ Hqk]]. exact Hqk.
Defined.
