(* ===== verification/StateFiles.v ===== *)
(** The state manager and its files ([eap/protocol/state_manager.py]): opening
    and reopening its database, fresh identifiers, and the export of its metrics
    to a file.  The rest of the manager is in [StateManager], the schema of the
    database in [Migrations]. *)
From stdpp Require Import options.
From S2P Require Import Prelude Values Json CanonicalJson Text Models PointerStore StateManager FileSystem FileTools FileToolsProofs.
Unset Default Proof Using.

(** ** Opening *)

(** [StateManager(db_path, pointer_store)] over the tables that an earlier
    manager left in the file *)
Definition open_state_manager {S} (store : S) (left_by : state_manager S) : state_manager S :=
  {| pointer_store := store; sm_closed := false; execution_trace_events := execution_trace_events left_by;
     execution_run_summaries := execution_run_summaries left_by; execution_run_checkpoints := execution_run_checkpoints left_by;
     execution_run_diagnostics := execution_run_diagnostics left_by; conversation_sessions := conversation_sessions left_by;
     conversation_turns := conversation_turns left_by |}.
(** [_reopen_connection] *)
Definition _reopen_connection {S} (m : state_manager S) : state_manager S := open_state_manager (pointer_store m) m.

(** [_generate_id], [_generate_session_id], [_generate_turn_id] from the digits
    of a fresh UUID *)
Definition _generate_id (hex : string) : string := "ptr_" +:+ String.substring 0 8 hex.
Definition _generate_session_id (hex : string) : string := "sess_" +:+ String.substring 0 10 hex.
Definition _generate_turn_id (hex : string) : string := "turn_" +:+ String.substring 0 12 hex.

(** ** Exporting metrics *)

(** The values of [ExecutionTraceEventType] *)
Definition trace_event_name (t : ExecutionTraceEventType) : string :=
  match t with
  | REPLAYED => "replayed" | QUEUED => "queued" | APPROVAL_REQUIRED => "approval_required" | APPROVED => "approved" | REJECTED => "rejected"
  | STARTED => "started" | RETRIED => "retried" | FAILED => "failed" | COMPLETED => "completed"
  end.
(** The dictionary that [collect_operational_metrics] returns. *)
Definition metrics_payload (snapshot_utc : Z) (db_path : string) (mt : operational_metrics) : pyval :=
  PDict
    [("snapshot_utc", PStr (isoformat snapshot_utc)); ("db_path", PStr db_path);
     ("pointer_store", PDict [("total_pointers", PInt (total_pointers mt)); ("active_pointers", PInt (active_pointers mt));
                              ("expired_pointers", PInt (expired_pointers mt))]);
     ("execution", PDict
       [("run_count", PInt (run_count mt)); ("failed_run_count", PInt (failed_run_count mt)); ("total_steps", PInt (m_total_steps mt));
        ("succeeded_steps", PInt (m_succeeded_steps mt)); ("failed_steps", PInt (m_failed_steps mt)); ("avg_duration_ms", PFloat (avg_duration_ms mt));
        ("trace_event_total", PInt (trace_event_total mt)); ("diagnostics_run_count", PInt (diagnostics_run_count mt));
        ("trace_events_by_type", PDict ((λ row, (trace_event_name row.1, PInt row.2)) <$> trace_events_by_type mt))]);
     ("conversation", PDict [("session_count", PInt (session_count mt)); ("turn_count", PInt (turn_count mt))])].

Section export.
Context {S : Type} `{PointerStoreBackend S}.
Context (float_repr : Q → string).
(** The working directory, [self.db_path]. *)
Context (cwd : path) (db_path : string).
(** A manager and the files around it. *)
Record workspace := { manager : state_manager S; files : file_system }.
Abbreviation M := (stm workspace).
Definition on_manager {A} (f : stm (state_manager S) A) : M A := λ w,
  let '(m, r) := f (manager w) in ({| manager := m; files := files w |}, r).
Definition on_files {A} (f : stm file_system A) : M A := λ w,
  let '(fs, r) := f (files w) in ({| manager := manager w; files := fs |}, r).

(** [str(Path(output_path).parent) != "."] *)
Definition has_parent (p : pure_path) : bool := p.1 || negb (bool_decide (parent p.2 = [])).
Definition export_operational_metrics (output_path : string) (now : Z) : M pyval :=
  metrics ← on_manager (collect_operational_metrics now);
  let p := parse_path output_path in
  let output := from_base cwd p in
  (if has_parent p then on_files (mkdir_parents (length output) (parent output)) else mret tt);;
  on_files (write_text false output (json_indented float_repr 0 (metrics_payload now db_path metrics)));;
  w ← st_get;
  resolved ← st_lift (resolve (files w) false output);
  mret (PDict [("output_path", PStr (path_str resolved)); ("snapshot_utc", PStr (isoformat now))]).
End export.
Arguments workspace : clear implicits.

(** ** What an export does *)

(** The manager as it was; the file and the directories on the way to it,
    nothing else. *)
Record export_effect (fs fs' : file_system) (output : path) : Prop := {
  xe_ok : fs_ok fs';
  xe_rest p : p ≠ output → fs' !! p = fs !! p ∨ (fs !! p = None ∧ fs' !! p = Some Directory ∧ p `prefix_of` output)
}.
Lemma effect_of_write fs fs' create output : write_effect fs fs' create [] output → export_effect fs fs' output.
Proof. intros [Hok Hrest]. split; [done|]. intros p Hp. destruct (Hrest p Hp) as [?|(_ & _ & ? & ? & ?)]; [by left|by right]. Qed.

(** A file written leaves its path without links. *)
Lemma written_canonical fs fs' output content r : fs_ok fs → canonical fs output → write_text false output content fs = (fs', r) → canonical fs' output.
Proof.
  intros Hok Hcan Hw. destruct (open_write_spec fs false output content fs' r Hok Hcan Hw) as [(-> & _)|(_ & -> & _)]; [done|].
  destruct Hcan as [Hn Hl]. split; [done|]. intros q Hq. destruct (decide (q = output)) as [->|Hne]; [by rewrite lookup_insert_eq|].
  rewrite lookup_insert_ne by done. by apply Hl.
Qed.

(** A file written after its directories were made. *)
Lemma written_exactly fs fs1 fs2 output text r : fs_ok fs → canonical fs output → prepared fs true output fs1 → write_text false output text fs1 = (fs2, r) →
  export_effect fs fs2 output ∧ match r with Ok _ => fs2 !! output = Some (FileSystem.File text) | Raise _ => fs2 !! output = fs !! output end ∧
  canonical fs2 output.
Proof.
  intros Hok Hcan Hp Hw. destruct (write_end fs fs1 false true [] output text fs2 r Hok Hcan (fs_root fs Hok) (prefix_nil output) Hp Hw) as [He1 Ht1].
  pose proof (links_canonical _ _ _ (dirs_links _ _ _ (prepared_dirs _ _ _ _ Hok Hp)) Hcan) as Hcan1.
  split; [by apply (effect_of_write _ _ true)|]. split; [|exact (written_canonical _ _ _ _ _ (da_ok _ _ _ (prepared_dirs _ _ _ _ Hok Hp)) Hcan1 Hw)].
  destruct r; [|exact Ht1]. destruct Ht1 as [_ ->]. unfold written. by destruct (fs !! output) as [[]|].
Qed.

(** An export leaves the manager and every other file as they are, even when
    it fails.  When it answers, the file holds exactly the text of the metrics,
    whose pointer counts are those of the store, and the path it reports is that
    file's; when it raises, the file is as it was. *)
Theorem metrics_exported {S} `{PointerStoreLaws S} float_repr cwd db_path output_path now (m m' : state_manager S) fs fs' rows r :
  represents (pointer_store m) rows → sm_closed m = false → fs_ok fs →
  let output := from_base cwd (parse_path output_path) in canonical fs output →
  export_operational_metrics float_repr cwd db_path output_path now {| manager := m; files := fs |} = ({| manager := m'; files := fs' |}, r) →
  m' = m ∧ export_effect fs fs' output ∧
  match r with
  | Ok report => ∃ mt, report = PDict [("output_path", PStr (path_str output)); ("snapshot_utc", PStr (isoformat now))] ∧
      total_pointers mt = Z.of_nat (size rows) ∧ (total_pointers mt = active_pointers mt + expired_pointers mt)%Z ∧
      expired_pointers mt = Z.of_nat (expired_count now rows) ∧
      fs' !! output = Some (FileSystem.File (json_indented float_repr 0 (metrics_payload now db_path mt)))
  | Raise _ => fs' !! output = fs !! output
  end.
Proof.
  intros Hrep Hc Hok output Hcan. destruct (metrics_exact m rows now Hrep Hc) as (mt & Hmt & Ht & He & Hsum & _).
  unfold export_operational_metrics, on_manager, on_files, mbind, stm_bind. cbn [manager files]. rewrite Hmt. cbn [files manager].
  fold output. set (text := json_indented float_repr 0 (metrics_payload now db_path mt)).
  assert (∀ fs1, prepared fs true output fs1 → export_effect fs fs1 output ∧ fs1 !! output = fs !! output) as Hkept.
  { intros fs1 Hp. split; [|by eapply prepared_target]. apply (effect_of_write _ _ true).
    eapply prepared_effect; [done|apply (fs_root fs Hok)|apply prefix_nil|exact Hp|by eapply da_ok, prepared_dirs|done]. }
  set (made := if has_parent (parse_path output_path) then mkdir_parents (length output) (parent output) fs else (fs, Ok tt)).
  assert (prepared fs true output made.1) as Hmade.
  { unfold made. destruct (has_parent _); [right|by left]. destruct (mkdir_parents _ _ fs) as [fs1 r1] eqn:Hm.
    by destruct (mkdir_parents_spec _ _ _ _ _ Hok (canonical_parent _ _ Hcan) Hm). }
  destruct made as [fs1 r1] eqn:Emade; unfold made in Emade; clear made. cbn [fst] in Hmade.
  assert ((if has_parent (parse_path output_path) then on_files (mkdir_parents (length output) (parent output)) else mret tt)
    {| manager := m; files := fs |} = ({| manager := m; files := fs1 |}, r1)) as Estep.
  { revert Emade. unfold on_files. cbn [files manager]. destruct (has_parent _); intros Emade; cbn [files manager]; [by rewrite Emade|]. by injection Emade as <- <-. }
  unfold on_files in Estep. intros Hrun. destruct r1 as [[]|e1].
  - rewrite Estep in Hrun. cbn [files manager] in Hrun. destruct (write_text false output text fs1) as [fs2 rw] eqn:Hw.
    destruct (written_exactly _ _ _ _ _ _ Hok Hcan Hmade Hw) as (He1 & Ht1 & Hcan2). destruct rw as [[]|ew]; cbn in Hrun.
    + unfold st_get, st_lift in Hrun. cbn in Hrun. rewrite resolve_known in Hrun by (done || apply He1). injection Hrun as <- <- <-.
      split; [done|]. split; [done|]. exists mt. split; [done|]. split; [done|]. split; [done|]. split; [done|exact Ht1].
    + injection Hrun as <- <- <-. by split_and!.
  - rewrite Estep in Hrun. injection Hrun as <- <- <-. destruct (Hkept _ Hmade) as [? ?]. by split_and!.
Qed.

Definition sample_files : file_system := {[ [] := Directory; ["srv"] := Directory; ["srv"; "full"] := FileSystem.File "" ]}.
Definition sample_export (output_path : string) : workspace sqlite * result pyval :=
  export_operational_metrics (λ _, "0.0") ["srv"] "state.db" output_path 0 {| manager := sample_manager; files := sample_files |}.
Example exported_below : (let '(w, r) := sample_export "out/m.json" in (dom (files w), r)) =
  ({[ []; ["srv"]; ["srv"; "full"]; ["srv"; "out"]; ["srv"; "out"; "m.json"] ]},
   Ok (PDict [("output_path", PStr "/srv/out/m.json"); ("snapshot_utc", PStr "1970-01-01T00:00:00+00:00")])).
Proof. vm_compute. reflexivity. Qed.
(** A file where a directory is needed: nothing is written. *)
Example export_below_file : (let '(w, r) := sample_export "full/m.json" in (bool_decide (files w = sample_files), is_ok r)) = (true, false).
Proof. vm_compute. reflexivity. Qed.
