(* ===== verification/Logging.v ===== *)
(** Logging ([eap/protocol/logging_config.py]): the redaction of secrets, the
    JSON formatter and the configuration of the package's logger.

    Messages are matched on characters below 256.  The formatting of a message
    with its arguments, the clock's text and the numbers of the level names are
    parameters. *)
From stdpp Require Import options.
From S2P Require Import Prelude Values Json CanonicalJson Text.
Unset Default Proof Using.

(** ** [RedactionFilter] *)

(** [(?i)text] at the beginning: what was read and what follows *)
Fixpoint prefix_ignoring_case (text s : string) : option (string * string) :=
  match text, s with
  | "", _ => Some ("", s)
  | String a text, String c s =>
      if decide (py_lower_char c = a) then '(read, rest) ← prefix_ignoring_case text s; Some (String c read, rest) else None
  | _, "" => None
  end.
Definition orelse {A} (x y : option A) : option A := match x with Some _ => x | None => y end.
(** [api[_-]?key|token|password] *)
Definition secret_name (s : string) : option (string * string) :=
  orelse (prefix_ignoring_case "api_key" s) (orelse (prefix_ignoring_case "api-key" s) (orelse (prefix_ignoring_case "apikey" s)
    (orelse (prefix_ignoring_case "token" s) (prefix_ignoring_case "password" s)))).
(** [[:=]] *)
Definition separator (s : string) : option string :=
  match s with String c s => if decide (c = ":"%char ∨ c = "="%char) then Some s else None | "" => None end.
(** [[^\s,;]+] as far as it goes: what was read and what follows *)
Definition value_char (c : ascii) : bool := negb (py_isspace c || bool_decide (c = ","%char) || bool_decide (c = ";"%char)).
Fixpoint value_chars (s : string) : string * string :=
  match s with
  | String c s' => if value_char c then let '(value, rest) := value_chars s' in (String c value, rest) else ("", s)
  | "" => ("", "")
  end.
(** The pattern at the beginning: the name, the value and what follows.  No part
    of it can give back characters to another one. *)
Definition match_secret (s : string) : option (string * string * string) :=
  '(name, s) ← secret_name s;
  s ← separator (py_lstrip s);
  let '(value, rest) := value_chars (py_lstrip s) in
  if decide (value = "") then None else Some (name, value, rest).

(** [_pattern.sub(...)]; [skip] characters belong to the last match. *)
Definition MARK : string := "[REDACTED]".
Fixpoint redact_from (skip : nat) (s : string) : string :=
  match s with
  | "" => ""
  | String c s' =>
      match skip with
      | S skip => redact_from skip s'
      | O => match match_secret s with
             | Some (name, _, rest) => name +:+ "=" +:+ MARK +:+ redact_from (String.length s - String.length rest - 1) s'
             | None => String c (redact_from 0 s')
             end
      end
  end.
Definition redact (message : string) : string := redact_from 0 message.

Record log_record := {
  levelname : string; logger_name : string; msg : string; args : list pyval; created : Z;
  exc_text : option string; extra_step_id : option pyval; extra_tool_name : option pyval
}.
Section logging.
(** [msg % args], the local time in either formatter's format, JSON's floats. *)
Context (percent_format : string → list pyval → string) (format_time asctime : Z → string) (float_repr : Q → string).
Definition getMessage (r : log_record) : string := match args r with [] => msg r | l => percent_format (msg r) l end.
(** [RedactionFilter.filter]; it never drops a record. *)
Definition filter_record (r : log_record) : log_record :=
  let message := getMessage r in
  let redacted := redact message in
  if decide (redacted = message) then r else
  {| levelname := levelname r; logger_name := logger_name r; msg := redacted; args := []; created := created r;
     exc_text := exc_text r; extra_step_id := extra_step_id r; extra_tool_name := extra_tool_name r |}.
(** [JsonFormatter.format] *)
Definition format_json (r : log_record) : string :=
  json_dumps float_repr (PDict
    ([("timestamp_utc", PStr (format_time (created r))); ("level", PStr (levelname r)); ("logger", PStr (logger_name r)); ("message", PStr (getMessage r))] ++
     match extra_step_id r with Some v => [("step_id", v)] | None => [] end ++
     match extra_tool_name r with Some v => [("tool_name", v)] | None => [] end)).
(** [logging.Formatter(...)] with the text format; a traceback follows the
    message. *)
Definition format_text (r : log_record) : string :=
  asctime (created r) +:+ " | " +:+ levelname r +:+ " | " +:+ logger_name r +:+ " | " +:+ getMessage r +:+
  match exc_text r with Some t => String (Ascii.ascii_of_nat 10) t | None => "" end.

(** ** [configure_logging] *)

Record handler := { to_stdout : bool; json_format : bool; redacts : bool }.
Record logger := { log_level : Z; handlers : list handler; propagate : bool }.
(** [getattr(logging, name, logging.INFO)] *)
Context (level_number : string → option Z).
Definition INFO : Z := 20.
Definition json_enabled (use_json : option bool) (log_format : option string) (env : string → option string) : bool :=
  match use_json with
  | Some b => b
  | None =>
      let requested_format := py_lower (py_strip (str_or log_format (default "json" (env "EAP_LOG_FORMAT")))) in
      let legacy_json_flag := py_strip (default "" (env "EAP_LOG_JSON")) in
      if decide (legacy_json_flag = "") then negb (bool_decide (requested_format = "text"))
      else bool_decide (py_lower legacy_json_flag ∈ ["1"; "true"; "yes"])
  end.
Definition configure_logging (level : option string) (use_json : option bool) (log_format : option string) (stream_given : bool)
    (env : string → option string) (l : logger) : logger :=
  let level_name := py_upper (str_or level (default "INFO" (env "EAP_LOG_LEVEL"))) in
  {| log_level := default INFO (level_number level_name);
     handlers := [{| to_stdout := negb stream_given; json_format := json_enabled use_json log_format env; redacts := true |}];
     propagate := false |}.
(** What a handler writes of a record. *)
Definition handle (h : handler) (r : log_record) : string :=
  let r := if redacts h then filter_record r else r in
  if json_format h then format_json r else format_text r.
End logging.
