(* ===== verification/LoggingProofs.v ===== *)
(** No secret the pattern recognises is left in a message that was redacted. *)
From stdpp Require Import options.
From S2P Require Import Prelude Values Logging.
Unset Default Proof Using.

(** ** Texts *)

Definition all_chars (p : ascii → bool) (s : string) : bool := forallb p (String.list_ascii_of_string s).
Lemma all_chars_cons p c s : all_chars p (String c s) = p c && all_chars p s.
Proof. done. Qed.
Lemma all_chars_app p a b : all_chars p (a +:+ b) = all_chars p a && all_chars p b.
Proof. induction a as [|c a IH]; [done|]. change (String c a +:+ b) with (String c (a +:+ b)). by rewrite !all_chars_cons, IH, andb_assoc. Qed.
#[local] Arguments all_chars : simpl never.

(** The second of two ways to cut a text is before or after the first. *)
Lemma str_app_cases a t x y : a +:+ t = x +:+ y → (∃ k, x = a +:+ k ∧ t = k +:+ y) ∨ (∃ k, a = x +:+ k ∧ y = k +:+ t).
Proof.
  revert x. induction a as [|c a IH]; intros x H; [left; by exists x|]. destruct x as [|d x]; [right; by exists (String c a)|].
  change (String c (a +:+ t) = String d (x +:+ y)) in H. injection H as -> H. destruct (IH x H) as [(k & -> & ->)|(k & -> & ->)]; [left|right]; by exists k.
Qed.
Lemma py_lower_app a b : py_lower (a +:+ b) = py_lower a +:+ py_lower b.
Proof. induction a as [|c a IH]; [done|]. exact (f_equal (String (py_lower_char c)) IH). Qed.

Lemma lstrip_spec s : ∃ ws, s = ws +:+ py_lstrip s ∧ all_chars py_isspace ws = true.
Proof.
  induction s as [|c s (ws & E & Hw)]; [by exists ""|]. cbn [py_lstrip]. destruct (py_isspace c) eqn:Hc; [|by exists ""].
  exists (String c ws). split; [exact (f_equal (String c) E)|]. by rewrite all_chars_cons, Hc.
Qed.
Lemma lstrip_app ws c s : all_chars py_isspace ws = true → py_isspace c = false → py_lstrip (ws +:+ String c s) = String c s.
Proof.
  intros Hw Hc. induction ws as [|d ws IH]; [change (py_lstrip (String c s) = String c s); cbn [py_lstrip]; by rewrite Hc|]. rewrite all_chars_cons in Hw. apply andb_true_iff in Hw as [Hd Hw].
  change (String d ws +:+ String c s) with (String d (ws +:+ String c s)). cbn [py_lstrip]. rewrite Hd. by apply IH.
Qed.
Definition stops (s : string) : Prop := match s with String c _ => value_char c = false | "" => True end.
Lemma value_chars_spec s : let '(v, r) := value_chars s in s = v +:+ r ∧ all_chars value_char v = true ∧ stops r.
Proof.
  induction s as [|c s IH]; [done|]. cbn [value_chars]. destruct (value_char c) eqn:Hc; [|by split_and!].
  destruct (value_chars s) as [v r]. destruct IH as (-> & Hv & Hr). split; [done|]. split; [|done]. by rewrite all_chars_cons, Hc.
Qed.
Lemma value_chars_app v r : all_chars value_char v = true → stops r → value_chars (v +:+ r) = (v, r).
Proof.
  intros Hv Hr. induction v as [|c v IH].
  - destruct r as [|c r]; [done|]. change (value_char c = false) in Hr. change (value_chars (String c r) = ("", String c r)). cbn [value_chars]. by rewrite Hr.
  - rewrite all_chars_cons in Hv. apply andb_true_iff in Hv as [Hc Hv]. change (String c v +:+ r) with (String c (v +:+ r)). cbn [value_chars]. by rewrite Hc, IH.
Qed.

(** ** Names of secrets *)

Definition secrets : list string := ["api_key"; "api-key"; "apikey"; "token"; "password"].
Definition is_secret (name : string) : Prop := py_lower name ∈ secrets.
Lemma prefix_Some text s n r : prefix_ignoring_case text s = Some (n, r) ↔ s = n +:+ r ∧ py_lower n = text.
Proof.
  revert s n. induction text as [|a text IH]; intros s n.
  - cbn. split; [by intros [= <- <-]|]. intros [-> H]. destruct n; [done|]. done.
  - destruct s as [|c s]; cbn [prefix_ignoring_case].
    + split; [done|]. intros [H H2]. by destruct n.
    + split.
      * case_decide as Hc; [|done]. destruct (prefix_ignoring_case text s) as [[read rest]|] eqn:E; [|done]. intros [= <- <-].
        apply IH in E as [-> <-]. split; [done|]. cbn. by rewrite Hc.
      * intros [H H2]. destruct n as [|d n]; [done|]. change (String c s = String d (n +:+ r)) in H. injection H as -> ->. cbn in H2. injection H2 as H2 H3.
        rewrite decide_True by done. by rewrite (proj2 (IH (n +:+ r) n) (conj eq_refl H3)).
Qed.
(** Two texts that differ somewhere. *)
Fixpoint clash (a b : string) : bool :=
  match a, b with String c a, String d b => negb (bool_decide (c = d)) || clash a b | _, _ => false end.
Lemma prefix_clash text n r : clash text (py_lower n) = true → prefix_ignoring_case text (n +:+ r) = None.
Proof.
  revert n. induction text as [|a text IH]; intros n; [done|]. destruct n as [|c n]; [done|]. cbn [py_lower clash].
  change (String c n +:+ r) with (String c (n +:+ r)). cbn [prefix_ignoring_case]. case_decide as Hc; [|done]. subst a. rewrite bool_decide_eq_true_2 by done.
  intros H. by rewrite IH.
Qed.
Lemma secret_name_Some s n r : secret_name s = Some (n, r) → s = n +:+ r ∧ is_secret n.
Proof.
  unfold secret_name, is_secret, secrets.
  assert (∀ text rest, orelse (prefix_ignoring_case text s) rest = Some (n, r) → (s = n +:+ r ∧ py_lower n = text) ∨ rest = Some (n, r)) as Hstep.
  { intros text rest. destruct (prefix_ignoring_case text s) as [[n' r']|] eqn:E; [|by right]. intros [= -> ->]. left. by apply prefix_Some. }
  intros H. repeat (apply Hstep in H as [[-> Hl]|H]; [split; [done|]; rewrite Hl; set_solver|]).
  apply prefix_Some in H as [-> Hl]. split; [done|]. rewrite Hl. set_solver.
Qed.
Lemma secret_name_app n r : is_secret n → secret_name (n +:+ r) = Some (n, r).
Proof.
  unfold is_secret, secrets, secret_name. intros H. rewrite !elem_of_cons, elem_of_nil in H.
  assert (∀ text rest, clash text (py_lower n) = true → orelse (prefix_ignoring_case text (n +:+ r)) rest = rest) as Hskip
    by (intros text rest Hc; by rewrite prefix_clash).
  assert (∀ text, py_lower n = text → prefix_ignoring_case text (n +:+ r) = Some (n, r)) as Hhit by (intros; by apply prefix_Some).
  destruct H as [H|[H|[H|[H|[H|[]]]]]]; repeat (rewrite Hskip by (by rewrite H)); by rewrite (Hhit _ H).
Qed.
(** A name does not occur inside another one. *)
Definition behind_first (s : string) : string := match s with "" => "" | String _ s => s end.
Lemma secrets_apart a n b : is_secret n → is_secret (a +:+ n +:+ b) → a = "".
Proof.
  unfold is_secret. rewrite !py_lower_app. intros Hn H. destruct a as [|c a]; [done|]. exfalso.
  assert (forallb (λ x, forallb (λ y, negb (py_substring x (behind_first y))) secrets) secrets = true) as Hall by (vm_compute; reflexivity).
  rewrite forallb_forall in Hall. apply list_elem_of_In in Hn. specialize (Hall _ Hn). rewrite forallb_forall in Hall. apply list_elem_of_In in H.
  specialize (Hall _ H). apply negb_true_iff in Hall.
  change (py_substring (py_lower n) (py_lower a +:+ py_lower n +:+ py_lower b) = false) in Hall. by rewrite app_substring in Hall.
Qed.

(** ** Matches *)

(** What a match is made of. *)
Record secret_at (s name value rest : string) : Prop := {
  sa_name : is_secret name;
  sa_text : ∃ ws1 c ws2, s = name +:+ ws1 +:+ String c (ws2 +:+ value +:+ rest) ∧ all_chars py_isspace ws1 = true ∧ (c = ":"%char ∨ c = "="%char) ∧
    all_chars py_isspace ws2 = true;
  sa_value : value ≠ "" ∧ all_chars value_char value = true;
  sa_stops : stops rest
}.
Lemma separator_no_space c : c = ":"%char ∨ c = "="%char → py_isspace c = false.
Proof. by intros [-> | ->]. Qed.
Lemma value_no_space c : value_char c = true → py_isspace c = false.
Proof. unfold value_char. by destruct (py_isspace c). Qed.
Lemma match_Some s name value rest : match_secret s = Some (name, value, rest) → secret_at s name value rest.
Proof.
  unfold match_secret, mbind, option_bind. destruct (secret_name s) as [[n s1]|] eqn:En; [|done]. apply secret_name_Some in En as [-> Hn].
  destruct (lstrip_spec s1) as (ws1 & E1 & Hw1). destruct (separator (py_lstrip s1)) as [s2|] eqn:Es; [|done].
  destruct (py_lstrip s1) as [|c t] eqn:El; [done|]. cbn [separator] in Es. case_decide as Hc; [|done]. injection Es as ->.
  destruct (lstrip_spec s2) as (ws2 & E2 & Hw2). pose proof (value_chars_spec (py_lstrip s2)) as Hv. destruct (value_chars (py_lstrip s2)) as [v r].
  destruct Hv as (Ev & Hv & Hr). case_decide as Hne; [done|]. intros [= -> -> ->]. split; [done| |done|done].
  exists ws1, c, ws2. split; [|done]. by rewrite E1, E2 at 1; rewrite Ev.
Qed.
Lemma match_at s name value rest : secret_at s name value rest → match_secret s = Some (name, value, rest).
Proof.
  intros [Hn (ws1 & c & ws2 & -> & H1 & Hc & H2) [Hne Hv] Hr]. unfold match_secret, mbind, option_bind. rewrite secret_name_app by done.
  rewrite lstrip_app by (done || by apply separator_no_space). cbn [separator]. rewrite decide_True by done.
  destruct value as [|d v]; [done|]. rewrite all_chars_cons in Hv. apply andb_true_iff in Hv as [Hd Hv].
  change (String d v +:+ rest) with (String d (v +:+ rest)). rewrite lstrip_app by (done || by apply value_no_space).
  change (String d (v +:+ rest)) with (String d v +:+ rest). rewrite value_chars_app; [by rewrite decide_False| |done]. by rewrite all_chars_cons, Hd.
Qed.

(** ** Names and what is between a name and its value *)

Definition name_letter (c : ascii) : bool := existsb (λ d, bool_decide (c = d)) (String.list_ascii_of_string "apikey_-tokenpassword").
Definition name_char (c : ascii) : bool := value_char c && negb (bool_decide (c = ":"%char)) && negb (bool_decide (c = "="%char)).
Lemma name_letter_char c : name_letter (py_lower_char c) = true → name_char c = true.
Proof. destruct c as [[] [] [] [] [] [] [] []]; vm_compute; done. Qed.
Lemma secret_chars n : is_secret n → all_chars name_char n = true ∧ n ≠ "".
Proof.
  intros H. split; [|intros ->; apply list_elem_of_In in H; vm_compute in H; intuition discriminate].
  assert (all_chars name_letter (py_lower n) = true) as Hl.
  { assert (forallb (all_chars name_letter) secrets = true) as Hall by (vm_compute; reflexivity). rewrite forallb_forall in Hall. apply Hall. by apply list_elem_of_In. }
  clear H. induction n as [|c n IH]; [done|]. cbn [py_lower] in Hl. rewrite all_chars_cons in *. apply andb_true_iff in Hl as [Hc Hl].
  by rewrite (name_letter_char _ Hc), IH.
Qed.
(** A character of a name and one that is none. *)
Definition between (c : ascii) : bool := negb (name_char c).
Lemma between_name s : all_chars between s = true → all_chars name_char s = true → s = "".
Proof.
  destruct s as [|c s]; [done|]. rewrite !all_chars_cons, !andb_true_iff. unfold between. intros [H1 _] [H2 _]. by rewrite H2 in H1.
Qed.
Lemma spaces_between ws : all_chars py_isspace ws = true → all_chars between ws = true.
Proof.
  induction ws as [|c ws IH]; [done|]. rewrite !all_chars_cons, !andb_true_iff. intros [H1 H2]. split; [|by apply IH].
  unfold between, name_char, value_char. by rewrite H1.
Qed.
Lemma separator_between c : c = ":"%char ∨ c = "="%char → between c = true.
Proof. by intros [-> | ->]. Qed.

(** ** The substitution, match by match *)

Lemma redact_skip p r : redact_from (String.length p) (p +:+ r) = redact r.
Proof. induction p as [|c p IH]; [done|]. exact IH. Qed.
Lemma redact_match s name value rest : match_secret s = Some (name, value, rest) → redact s = name +:+ "=" +:+ MARK +:+ redact rest.
Proof.
  intros H. pose proof (match_Some _ _ _ _ H) as [Hn (ws1 & c & ws2 & E & _) _ _].
  destruct name as [|d name]; [by apply secret_chars in Hn as [_ ?]|]. unfold redact.
  set (x := name +:+ ws1 +:+ String c (ws2 +:+ value)). assert (s = String d (x +:+ rest)) as ->.
  { rewrite E. change (String d name +:+ ws1 +:+ String c (ws2 +:+ value +:+ rest)) with (String d (name +:+ ws1 +:+ String c (ws2 +:+ value +:+ rest))). unfold x.
    rewrite !str_app_assoc. do 3 f_equal. exact (f_equal (String c) (eq_sym (str_app_assoc _ _ _))). }
  cbn [redact_from]. rewrite H. do 3 f_equal. replace (_ - _ - 1) with (String.length x); [apply redact_skip|].
  cbn [String.length]. rewrite str_length_app. lia.
Qed.
Lemma redact_none c s : match_secret (String c s) = None → redact (String c s) = String c (redact s).
Proof. intros H. unfold redact. cbn [redact_from]. by rewrite H. Qed.

(** Up to the first name that is matched nothing changes. *)
Lemma redact_first s : redact s = s ∨ ∃ p name r1 r2, s = p +:+ name +:+ r1 ∧ redact s = p +:+ name +:+ "=" +:+ r2 ∧ is_secret name.
Proof.
  induction s as [|c s IH]; [by left|]. destruct (match_secret (String c s)) as [[[name value] rest]|] eqn:E.
  - right. apply redact_match in E as Er. apply match_Some in E as [Hn (ws1 & d & ws2 & Es & _) _ _].
    exists "", name. by repeat eexists.
  - rewrite (redact_none _ _ E). destruct IH as [->|(p & name & r1 & r2 & -> & -> & Hn)]; [by left|right]. by exists (String c p), name, r1, r2.
Qed.
Lemma stops_redact r : stops r → stops (redact r).
Proof.
  destruct r as [|c r]; [done|]. intros Hc. change (value_char c = false) in Hc. rewrite redact_none; [exact Hc|].
  destruct (match_secret (String c r)) as [[[n v] t]|] eqn:E; [|done]. exfalso. apply match_Some in E as [Hn (ws1 & d & ws2 & Es & _) _ _].
  apply secret_chars in Hn as [Hn Hne]. destruct n as [|c' n]; [done|]. injection Es as <- _. rewrite all_chars_cons in Hn. unfold name_char in Hn.
  by rewrite Hc in Hn.
Qed.

(** ** No secret is left *)

(** A match that needs no more than what is common to two texts. *)
Lemma match_prefix n ws1 c ws2 d t : is_secret n → all_chars py_isspace ws1 = true → (c = ":"%char ∨ c = "="%char) → all_chars py_isspace ws2 = true →
  value_char d = true → match_secret ((n +:+ ws1 +:+ String c (ws2 +:+ String d "")) +:+ t) ≠ None.
Proof.
  intros Hn H1 Hc H2 Hd. pose proof (value_chars_spec t) as Hv. destruct (value_chars t) as [v r]. destruct Hv as (-> & Hv & Hr).
  assert (secret_at ((n +:+ ws1 +:+ String c (ws2 +:+ String d "")) +:+ v +:+ r) n (String d v) r) as H.
  { split; [done| |split; [done|by rewrite all_chars_cons, Hd]|done]. exists ws1, c, ws2. split; [|done]. rewrite !str_app_assoc. do 2 f_equal.
    change (String c ((ws2 +:+ String d "") +:+ v +:+ r) = String c (ws2 +:+ String d (v +:+ r))). f_equal. by rewrite str_app_assoc. }
  by rewrite (match_at _ _ _ _ H).
Qed.
(** A name in full behind the beginning stands in the way of a match. *)
Lemma name_in_way c p name w n ws1 c' ws2 d : is_secret name → is_secret n → all_chars py_isspace ws1 = true → (c' = ":"%char ∨ c' = "="%char) →
  all_chars py_isspace ws2 = true → n +:+ ws1 +:+ String c' (ws2 +:+ String d "") = String c p +:+ name +:+ w → w = "".
Proof.
  intros Hname Hn H1 Hc H2 E. destruct (secret_chars _ Hname) as [Hcn Hne]. set (T := ws1 +:+ String c' ws2).
  assert (all_chars between T = true) as HT.
  { unfold T. rewrite all_chars_app, (spaces_between _ H1), all_chars_cons, (separator_between _ Hc). by apply spaces_between. }
  assert (n +:+ T +:+ String d "" = (String c p +:+ name) +:+ w) as E'.
  { rewrite str_app_assoc, <- E. unfold T. rewrite str_app_assoc. done. }
  assert (∀ k, String c p +:+ name = n +:+ k → all_chars between k = true → False) as Hlast.
  { intros k Ek Hk. symmetry in Ek. apply str_app_cases in Ek as [(j & E1 & E2)|(j & E1 & E2)].
    - subst k. rewrite all_chars_app, andb_true_iff in Hk. destruct Hk as [_ Hk]. by apply Hne, between_name.
    - rewrite E2, all_chars_app, andb_true_iff in Hcn. destruct Hcn as [_ Hk']. rewrite (between_name k) in E2 by done. rewrite str_app_nil in E2. subst j.
      rewrite E1 in Hn. change (is_secret (String c p +:+ name)) in Hn. rewrite <- (str_app_nil name) in Hn. by apply secrets_apart in Hn. }
  symmetry in E'. apply str_app_cases in E' as [(k & E1 & E2)|(k & E1 & E2)].
  - rewrite E1, str_app_assoc in Hn. by apply secrets_apart in Hn.
  - symmetry in E2. apply str_app_cases in E2 as [(j & E3 & E4)|(j & E3 & E4)].
    + exfalso. apply (Hlast k E1). rewrite E3, all_chars_app, andb_true_iff in HT. by destruct HT.
    + destruct j as [|x j]; [exfalso; apply (Hlast k E1); by rewrite E3, str_app_nil|]. injection E4 as _ E4. by destruct j, w.
Qed.
(** Nothing starts inside the replacement. *)
Lemma mark_quiet k j x : "=" +:+ MARK = k +:+ j → j ≠ "" → match_secret (j +:+ x) = None.
Proof.
  intros H Hj. assert (secret_name (j +:+ x) = None) as Hs; [|unfold match_secret; by rewrite Hs].
  change ("=[REDACTED]" = k +:+ j) in H.
  repeat (destruct k as [|? k]; [change ("" +:+ j) with j in H; subst j; reflexivity || done|injection H as _ H]).
  by destruct k, j.
Qed.

Definition well_marked (s : string) : Prop := ∀ a t name value rest, s = a +:+ t → match_secret t = Some (name, value, rest) → t = name +:+ "=" +:+ MARK +:+ rest.
(** The replacement and what follows it, when what follows is well marked. *)
Lemma marked_app name r : is_secret name → stops r → well_marked r → well_marked (name +:+ "=" +:+ MARK +:+ r).
Proof.
  intros Hname Hr Hm a t n v r' E Ht. symmetry in E. apply str_app_cases in E as [(k & E1 & E2)|(k & E1 & E2)].
  - destruct (decide (k = "")) as [->|Hk].
    { subst t. exfalso. change ("" +:+ "=" +:+ MARK +:+ r) with (("=" +:+ MARK) +:+ r) in Ht. by rewrite (mark_quiet "" ("=" +:+ MARK)) in Ht. }
    assert (a = "") as ->.
    { apply match_Some in Ht as [Hn (ws1 & c & ws2 & E & _) _ _]. destruct (secret_chars _ Hn) as [Hc _]. rewrite E2 in E. symmetry in E.
      apply str_app_cases in E as [(j & E3 & _)|(j & E3 & E4)]; [rewrite E1, E3 in Hname; exact (secrets_apart _ _ _ Hn Hname)|].
      destruct j as [|d j]; [rewrite str_app_nil in E3; rewrite E1, <- E3, <- (str_app_nil n) in Hname; exact (secrets_apart _ _ _ Hn Hname)|].
      injection E4 as <- _. rewrite E3, all_chars_app, andb_true_iff in Hc. by destruct Hc as [_ Hc]. }
    change ("" +:+ k) with k in E1. subst k t. assert (secret_at (name +:+ "=" +:+ MARK +:+ r) name MARK r) as Hs.
    { split; [done| |done|done]. exists "", "="%char, "". by split_and!; [done|done|right|]. }
    rewrite (match_at _ _ _ _ Hs) in Ht. by injection Ht as <- <- <-.
  - change ("=" +:+ MARK +:+ r) with (("=" +:+ MARK) +:+ r) in E2. apply str_app_cases in E2 as [(j & E3 & E4)|(j & E3 & E4)].
    + by eapply (Hm j).
    + destruct (decide (j = "")) as [->|Hj]; [|exfalso; subst t; by rewrite (mark_quiet k j r E3 Hj) in Ht]. by eapply (Hm "").
Qed.
(** A character that starts no match. *)
Lemma marked_cons c s : match_secret (String c s) = None → well_marked (redact s) → well_marked (String c (redact s)).
Proof.
  intros Hnone Hm a t n v r E Ht. destruct a as [|c' a]; [|injection E as _ E; by eapply Hm]. change ("" +:+ t) with t in E. subst t. exfalso.
  apply match_Some in Ht as [Hn (ws1 & c' & ws2 & E & H1 & Hc & H2) [Hne Hv] _]. destruct v as [|d v]; [done|].
  rewrite all_chars_cons, andb_true_iff in Hv. destruct Hv as [Hd _]. pose proof (match_prefix n ws1 c' ws2 d) as Hpre.
  set (X := n +:+ ws1 +:+ String c' (ws2 +:+ String d "")) in *. assert (String c (redact s) = X +:+ v +:+ r) as E'.
  { rewrite E. unfold X. rewrite !str_app_assoc. do 2 f_equal. change (String c' (ws2 +:+ String d (v +:+ r)) = String c' ((ws2 +:+ String d "") +:+ v +:+ r)).
    f_equal. by rewrite str_app_assoc. }
  destruct (redact_first s) as [Hs|(p & name & r1 & r2 & Hs & Hr & Hname)].
  - rewrite Hs in E'. rewrite E' in Hnone. by eapply Hpre.
  - rewrite Hr in E'. change (String c (p +:+ name +:+ "=" +:+ r2)) with (String c p +:+ name +:+ "=" +:+ r2) in E'. rewrite <- str_app_assoc in E'.
    assert (∀ w, String c p +:+ name = X +:+ w → False) as Hin.
    { intros w Ew. apply (Hpre (w +:+ r1) Hn H1 Hc H2 Hd). rewrite <- Hnone. rewrite <- str_app_assoc. rewrite <- Ew, Hs. by rewrite !str_app_assoc. }
    symmetry in E'. apply str_app_cases in E' as [(k & E1 & _)|(k & E1 & _)]; [by eapply Hin|].
    rewrite str_app_assoc in E1. apply (Hin ""). rewrite str_app_nil, E1.
    rewrite (name_in_way c p name k n ws1 c' ws2 d) by done. by rewrite str_app_nil.
Qed.
Lemma redact_marked s : well_marked (redact s).
Proof.
  assert (∀ n s, String.length s ≤ n → well_marked (redact s)) as H; [|by eapply H]. clear s. induction n as [|n IH]; intros s Hs.
  - destruct s as [|c s]; [|cbn in Hs; lia]. intros a t ? ? ? E Ht. destruct a; [|done]. by destruct t.
  - destruct s as [|c s]; [by apply IH; cbn; lia|]. cbn in Hs. destruct (match_secret (String c s)) as [[[name v] r]|] eqn:E.
    + rewrite (redact_match _ _ _ _ E). apply match_Some in E as [Hn (ws1 & d & ws2 & Es & _) _ Hr]. apply marked_app; [done|by apply stops_redact|].
      apply IH. apply (f_equal String.length) in Es. rewrite !str_length_app in Es. cbn in Es. rewrite !str_length_app in Es. lia.
    + rewrite redact_none by done. apply marked_cons; [done|]. apply IH. lia.
Qed.
Lemma marked_fixed s : well_marked s → redact s = s.
Proof.
  assert (∀ n s, String.length s ≤ n → well_marked s → redact s = s) as H; [|by eapply H]. clear s. induction n as [|n IH]; intros s Hs Hm.
  - destruct s as [|c s]; [done|cbn in Hs; lia].
  - destruct s as [|c s]; [done|]. cbn in Hs. destruct (match_secret (String c s)) as [[[name v] r]|] eqn:E.
    + pose proof (Hm "" _ _ _ _ eq_refl E) as Es. rewrite (redact_match _ _ _ _ E). rewrite Es. do 3 f_equal. apply IH.
      * apply (f_equal String.length) in Es. rewrite !str_length_app in Es. cbn in Es. lia.
      * intros a t ? ? ? Ea. apply (Hm ((name +:+ "=" +:+ MARK) +:+ a)). by rewrite Es, Ea, !str_app_assoc.
    + rewrite redact_none by done. f_equal. apply IH; [lia|]. intros a t ? ? ? Ea. apply (Hm (String c a)). by rewrite Ea.
Qed.

(** C39: Whatever is logged, a logger that was configured writes it through one
    handler, whose record says the redacted message.  In that message every
    place where the pattern for secrets still applies reads [name=[REDACTED]]:
    no value the pattern recognises is left, none comes about by the
    replacement, and redacting once more changes nothing. *)
Theorem secrets_redacted percent_format format_time asctime float_repr level_number level use_json log_format stream_given env l r :
  let message := getMessage percent_format r in
  (∀ a t name value rest, redact message = a +:+ t → match_secret t = Some (name, value, rest) → t = name +:+ "=" +:+ MARK +:+ rest) ∧
  redact (redact message) = redact message ∧
  ∃ h r', handlers (configure_logging level_number level use_json log_format stream_given env l) = [h] ∧ getMessage percent_format r' = redact message ∧
    handle percent_format format_time asctime float_repr h r =
      if json_format h then format_json percent_format format_time float_repr r' else format_text percent_format asctime r'.
Proof.
  intros message. pose proof (redact_marked message) as Hm. split; [exact Hm|]. split; [by apply marked_fixed|].
  eexists _, (filter_record percent_format r). split; [done|]. split; [|done].
  unfold filter_record. fold message. case_decide as H; [by rewrite H|done].
Qed.

(** ** What the pattern does not recognise *)

Definition sample_record (message : string) : log_record :=
  {| levelname := "INFO"; logger_name := "eap"; msg := message; args := []; created := 0; exc_text := Some "ValueError: token=abc";
     extra_step_id := None; extra_tool_name := None |}.
Example secrets_replaced : redact "API_KEY = abc, Token:xyz; password=p w apikeytoken=1" =
  "API_KEY=[REDACTED], Token=[REDACTED]; password=[REDACTED] w apikeytoken=[REDACTED]".
Proof. vm_compute. reflexivity. Qed.
(** A quote behind the name, as in JSON and in printed dictionaries. *)
Example quoted_secret_kept : redact "{'api_key': 'abc'}" = "{'api_key': 'abc'}".
Proof. vm_compute. reflexivity. Qed.
(** Only the scheme of an authorization is taken for the value. *)
Example bearer_secret_kept : redact "token: Bearer abc" = "token=[REDACTED] abc".
Proof. vm_compute. reflexivity. Qed.
(** Tracebacks are written as they are, or by the JSON format not at all. *)
Example traceback_kept : handle (λ m _, m) (λ _, "") (λ _, "") (λ _, "") {| to_stdout := true; json_format := false; redacts := true |} (sample_record "failed") =
  " | INFO | eap | failed" +:+ String (Ascii.ascii_of_nat 10) "ValueError: token=abc".
Proof. vm_compute. reflexivity. Qed.
