(* ===== verification/Doctor.v ===== *)
(** The environment diagnostics ([scripts/eap_doctor.py]): generating an
    environment file, and checking one together with the settings it gives, the
    model servers it names and the storage.

    What is printed and the parsing of the command line are left out.  The
    versions, programs and modules of the installation, opening a connection and
    opening a new database file are parameters; the settings and the state
    manager are those of [Settings] and [StateManager]. *)
From stdpp Require Import options.
From S2P Require Import Prelude Values Json CanonicalJson Url WebTools Settings PointerStore StateManager StateFiles FileSystem FileTools.
Unset Default Proof Using.

Definition CATEGORY_EXIT_BITS (category : string) : Z :=
  if decide (category = "env") then 1%Z else if decide (category = "config") then 2%Z else if decide (category = "connectivity") then 4%Z
  else if decide (category = "storage") then 8%Z else if decide (category = "tools") then 16%Z else 0%Z.
Definition REQUIRED_ENV_KEYS : list string := ["EAP_BASE_URL"; "EAP_MODEL"].
Definition ALLOWED_OPENAI_API_MODES : list string := ["chat_completions"; "responses"].

Record DiagnosticRecord := {
  check_id : string; category : string; status : string; message : string; details : list (string * pyval); remediation : string
}.
Definition to_dict (r : DiagnosticRecord) : pyval :=
  PDict [("check_id", PStr (check_id r)); ("category", PStr (category r)); ("status", PStr (status r)); ("message", PStr (message r));
         ("details", PDict (details r)); ("remediation", PStr (remediation r))].

(** ** Environment files *)

(** A line of the file. *)
Definition env_line (where_ : string) (n : nat) (raw_line : string) (values : list (string * string)) : result (list (string * string)) :=
  let stripped := py_strip raw_line in
  if bool_decide (stripped = "") || py_startswith stripped "#" then Ok values else
  match py_partition "="%char raw_line with
  | (_, None) => Raise (value_error (where_ +:+ ":" +:+ pretty n +:+ " must contain KEY=VALUE format."))
  | (key, Some value) =>
      if py_blank key then Raise (value_error (where_ +:+ ":" +:+ pretty n +:+ " has an empty key."))
      else Ok (dict_set values (py_strip key) (py_strip value))
  end.
Fixpoint env_lines (where_ : string) (n : nat) (values : list (string * string)) (lines : list string) : result (list (string * string)) :=
  match lines with
  | [] => Ok values
  | l :: lines => values ← env_line where_ n l values; env_lines where_ (S n) values lines
  end.
Definition parse_env_text (where_ text : string) : result (list (string * string)) := env_lines where_ 1 [] (splitlines text).
(** [parse_env_file] *)
Definition parse_env_file (fs : file_system) (p : path) : result (list (string * string)) :=
  if negb (path_exists fs p) then Raise (Exn FileNotFoundError ("Environment file was not found: " +:+ path_str p)) else
  text ← open_read fs p;
  parse_env_text (path_str p) (universal_newlines text).

(** [values.get(key, "").strip()] *)
Definition value_of (values : list (string * string)) (key : string) : string := py_strip (default "" (dict_get values key)).
Definition missing_errors (values : list (string * string)) : list string :=
  (λ key, key +:+ " is required and cannot be empty.") <$> List.filter (λ key, bool_decide (value_of values key = "")) REQUIRED_ENV_KEYS.
Definition base_url_errors (values : list (string * string)) : list string :=
  let base_url := value_of values "EAP_BASE_URL" in
  if negb (bool_decide (base_url = "")) && negb (py_startswith base_url "http://" || py_startswith base_url "https://")
  then ["EAP_BASE_URL must start with http:// or https://."] else [].
Definition mode_errors (values : list (string * string)) (mode_key : string) : list string :=
  let raw_mode := value_of values mode_key in
  if bool_decide (raw_mode = "") || bool_decide (py_lower raw_mode ∈ ALLOWED_OPENAI_API_MODES) then []
  else [mode_key +:+ " must be one of: chat_completions, responses (got '" +:+ raw_mode +:+ "')."].
Definition validate_env_values (values : list (string * string)) : list string :=
  missing_errors values ++ base_url_errors values ++
  flat_map (mode_errors values) ["EAP_OPENAI_API_MODE"; "EAP_ARCHITECT_OPENAI_API_MODE"; "EAP_AUDITOR_OPENAI_API_MODE"].

Definition client_lines (prefix base_url model mode : string) : list string :=
  [prefix +:+ "_BASE_URL=" +:+ base_url; prefix +:+ "_MODEL=" +:+ model; prefix +:+ "_TIMEOUT_SECONDS=60"; prefix +:+ "_TEMPERATURE=0.0";
   prefix +:+ "_OPENAI_API_MODE=" +:+ mode; prefix +:+ "_EXTRA_HEADERS_JSON={}"; ""].
Definition rendered_lines (base_url model mode : string) : list string :=
  ["# Generated by scripts/eap_doctor.py init-env"; "# Local mode defaults (update values as needed)."] ++
  client_lines "EAP" base_url model mode ++ client_lines "EAP_ARCHITECT" base_url model mode ++ client_lines "EAP_AUDITOR" base_url model mode ++
  ["EAP_LOG_LEVEL=INFO"; "EAP_LOG_FORMAT=json"; "EAP_LOG_JSON="].
(** [_render_env_file] *)
Definition _render_env_file (base_url model mode : string) : string := py_join newline (rendered_lines base_url model mode) +:+ newline.

(** ** The process *)

Record machine := { environ : gmap string string; files : file_system }.
Abbreviation M := (stm machine).
Definition set_environ (e : gmap string string) (s : machine) : machine := {| environ := e; files := files s |}.
Definition on_files {A} (f : stm file_system A) : M A := λ s, let '(fs, r) := f (files s) in ({| environ := environ s; files := fs |}, r).
Definition with_files {A} (f : file_system → result A) : M A := λ s, (s, f (files s)).
(** [os.environ[key] = value] *)
Definition putenv (kv : string * string) : M unit := λ s,
  if has_char 0 kv.1 || has_char 0 kv.2 then (s, Raise (value_error "embedded null byte")) else (set_environ (<[kv.1 := kv.2]> (environ s)) s, Ok tt).
(** [_temporary_env] around a body *)
Definition restore (previous : gmap string string) (overrides : list (string * string)) (e : gmap string string) : gmap string string :=
  foldl (λ e kv, match previous !! kv.1 with Some v => <[kv.1 := v]> e | None => delete kv.1 e end) e overrides.
Definition temporary_env {A} (overrides : list (string * string)) (body : M A) : M A := λ s,
  let '(s', r) := (st_for_each putenv overrides;; body) s in
  (set_environ (restore (environ s) overrides (environ s')) s', r).

Record init_env_args := {
  i_output : string; i_force : bool; i_interactive : option (string * string * string); i_base_url : string; i_model : string; i_openai_api_mode : string
}.
Record doctor_args := { d_env_file : string; d_state_db_path : string; d_skip_connectivity : bool; d_output_json : string }.

Section doctor.
Context (cwd : path).
(** The numbers, JSON and bracketed hosts that the settings and URLs need. *)
Context (py_int : string → result Z) (py_float : string → result pyfloat) (json_loads : string → result pyval) (check_bracketed_netloc : string → result unit).
Context (float_repr : Q → string) (getsizeof : pyval → Z).
(** [sys.version_info[:2]] and its text, [shutil.which("git")], importing the
    package. *)
Context (version : Z * Z) (version_text : string) (git_path : option string) (import_error : option exn).
(** [socket.create_connection]: the text of an OSError, or another exception. *)
Context (connect : string → Z → result (option string)).
(** Opening a database that does not exist, the clock and a fresh UUID. *)
Context (create_db : path → file_system → file_system * result unit) (now : Z) (uuid_hex : string).

Definition full_path (fs : file_system) (s : string) : result path := FileSystem.resolve fs false (from_base cwd (parse_path s)).

(** *** [init-env] *)

(** [input(...).strip() or value] *)
Definition answered (answer value : string) : string := str_or (Some (py_strip answer)) value.
Definition chosen_values (a : init_env_args) : string * string * string :=
  let base_url := py_strip (i_base_url a) in let model := py_strip (i_model a) in let mode := py_lower (py_strip (i_openai_api_mode a)) in
  match i_interactive a with
  | Some (b, m, o) => (answered b base_url, answered m model, str_or (Some (py_lower (py_strip o))) mode)
  | None => (base_url, model, mode)
  end.
Definition run_init_env (a : init_env_args) : M Z :=
  output_path ← with_files (λ fs, full_path fs (i_output a));
  exists_already ← with_files (λ fs, Ok (path_exists fs output_path));
  if exists_already && negb (i_force a) then mret 1%Z else
  let '(base_url, model, mode) := chosen_values a in
  match validate_env_values [("EAP_BASE_URL", base_url); ("EAP_MODEL", model); ("EAP_OPENAI_API_MODE", mode)] with
  | _ :: _ => mret 1%Z
  | [] =>
      on_files (mkdir_parents (length output_path) (parent output_path));;
      on_files (write_text false output_path (_render_env_file base_url model mode));;
      mret 0%Z
  end.

(** *** The checks *)

Definition _record (id category status message : string) (details : list (string * pyval)) (remediation : string) : DiagnosticRecord :=
  {| check_id := id; category := category; status := status; message := message; details := details; remediation := remediation |}.
Definition version_lt (v w : Z * Z) : bool := (v.1 <? w.1)%Z || (v.1 =? w.1)%Z && (v.2 <? w.2)%Z.
Definition check_python : DiagnosticRecord :=
  if version_lt version (3, 10)%Z || negb (version_lt version (3, 14)%Z)
  then _record "python_version" "tools" "fail" "Unsupported Python version." [("python_version", PStr version_text); ("supported", PStr ">=3.10,<3.14")]
         "Use Python 3.10-3.13 (`docs/troubleshooting.md#bootstrap-fails-with-python-version-error`)."
  else _record "python_version" "tools" "pass" "Python version is supported." [("python_version", PStr version_text)] "".
Definition check_git : DiagnosticRecord :=
  match git_path with
  | None => _record "git_available" "tools" "fail" "Git is not available in PATH." [] "Install git and rerun doctor."
  | Some p => _record "git_available" "tools" "pass" "Git is available." [("git_path", PStr p)] ""
  end.
Definition check_imports : DiagnosticRecord :=
  match import_error with
  | None => _record "eap_imports" "tools" "pass" "EAP runtime modules are importable." [] ""
  | Some e => _record "eap_imports" "tools" "fail" ("EAP runtime modules are not importable: " +:+ exn_str e) []
                "Install dependencies and package first: `python -m pip install -e .`."
  end.
(** The environment file: its values and the record. *)
Definition check_env_file (env_path : path) : M (list (string * string) * DiagnosticRecord) := λ s,
  let file := [("env_file", PStr (path_str env_path))] in
  match parse_env_file (files s) env_path with
  | Ok values => (s, Ok (values, _record "env_parse" "env" "pass" "Environment file parsed successfully." file ""))
  | Raise e =>
      if decide (exn_cls e = FileNotFoundError) then
        (s, Ok ([], _record "env_parse" "env" "fail" (exn_str e) file
          "Generate a fresh .env with `python scripts/eap_doctor.py init-env --output .env --force`."))
      else if is_value_error (exn_cls e) then
        (s, Ok ([], _record "env_parse" "env" "fail" (exn_str e) file
          "Generate a fresh .env with `python scripts/eap_doctor.py init-env --output .env --force`."))
      else (s, Raise e)
  end.
(** [validate_env_values(env_values) if env_values else []] *)
Definition env_errors (values : list (string * string)) : list string := match values with [] => [] | _ => validate_env_values values end.
Definition check_required (values : list (string * string)) : list DiagnosticRecord :=
  match values, env_errors values with
  | _, (_ :: _) as errors =>
      [_record "env_required_keys" "env" "fail" "Environment validation failed." [("errors", PList (PStr <$> errors))]
         "Fix .env values and rerun doctor (`docs/troubleshooting.md#environment-validation-failed-during-bootstrap`)."]
  | [], [] => []
  | _, [] => [_record "env_required_keys" "env" "pass" "Required environment keys are valid." [] ""]
  end.
(** [except ValueError] around [load_settings] *)
Definition load_under (values : list (string * string)) : M EAPSettings :=
  temporary_env values (λ s, (s, load_settings py_int py_float json_loads (λ name, environ s !! name))).
Definition skipped (id category reason : string) : DiagnosticRecord := _record id category "skip" reason [] "".
Definition check_settings (values : list (string * string)) : M (option EAPSettings * DiagnosticRecord) :=
  match values, env_errors values, import_error with
  | _ :: _, [], None => λ s,
      match load_under values s with
      | (s, Ok settings) => (s, Ok (Some settings, _record "settings_load" "config" "pass" "Runtime settings loaded successfully." [] ""))
      | (s, Raise e) =>
          if is_value_error (exn_cls e)
          then (s, Ok (None, _record "settings_load" "config" "fail" ("Settings validation failed: " +:+ exn_str e) []
                  "Fix configuration values based on error details (`docs/configuration.md`)."))
          else (s, Raise e)
      end
  | _ :: _, _, Some _ => mret (None, skipped "settings_load" "config" "Skipped because EAP runtime modules are unavailable.")
  | _, _, _ => mret (None, skipped "settings_load" "config" "Skipped because environment validation failed.")
  end.

Definition _default_port_for_scheme (scheme : string) : Z := if decide (scheme = "https") then 443%Z else 80%Z.
(** [parsed.port or default] *)
Definition port_or (p : option Z) (scheme : string) : Z := match p with Some 0%Z | None => _default_port_for_scheme scheme | Some p => p end.
Definition _check_endpoint_connectivity (base_url : string) : result (option string) :=
  parsed ← urlparse check_bracketed_netloc base_url;
  match hostname parsed with
  | None => Ok (Some ("Invalid host in URL: " +:+ base_url))
  | Some host =>
      p ← port parsed;
      let port := port_or p (scheme parsed) in
      error ← connect host port;
      Ok ((λ text, host +:+ ":" +:+ pretty port +:+ " is unreachable (" +:+ text +:+ ")") <$> error)
  end.
(** [sorted({a, b})] *)
Definition endpoints (s : EAPSettings) : list string := sorted_set {[base_url (architect s); base_url (auditor s)]}.
Definition check_connectivity (skip : bool) (settings : option EAPSettings) : result DiagnosticRecord :=
  match settings with
  | Some s =>
      if skip then Ok (skipped "provider_connectivity" "connectivity" "Connectivity checks skipped by flag.") else
      errors ← map_result _check_endpoint_connectivity (endpoints s);
      Ok (match omap id errors with
          | [] => _record "provider_connectivity" "connectivity" "pass" "Provider endpoint connectivity checks passed."
                    [("base_urls", PList (PStr <$> endpoints s))] ""
          | failures => _record "provider_connectivity" "connectivity" "fail" "Provider endpoint connectivity check failed."
                    [("failures", PList (PStr <$> failures))]
                    "Ensure gateway host/port is reachable and base URL values are correct (`docs/troubleshooting.md#provider-selection-errors`)."
          end)
  | None =>
      Ok (skipped "provider_connectivity" "connectivity"
            (if skip then "Connectivity checks skipped by flag." else "Skipped because config checks failed."))
  end.

(** [path.unlink()] *)
Definition unlink (p : path) : stm file_system unit := λ fs,
  match fs !! p with
  | Some Directory => (fs, Raise (is_a_directory p))
  | Some _ => (delete p fs, Ok tt)
  | None => (fs, Raise (FileSystem.not_found p))
  end.
(** A pointer stored in a new database and read back. *)
Definition fresh_manager : state_manager sqlite :=
  open_state_manager empty_sqlite {| pointer_store := empty_sqlite; sm_closed := true; execution_trace_events := []; execution_run_summaries := ∅;
    execution_run_checkpoints := ∅; execution_run_diagnostics := ∅; conversation_sessions := ∅; conversation_turns := [] |}.
Definition storage_roundtrip : result string :=
  let '(_, (m, stored)) := store_and_point float_repr getsizeof now (_generate_id uuid_hex) (PDict [("doctor", PStr "ok")]) "doctor storage roundtrip"
    [("source", PStr "eap_doctor")] PNone fresh_manager in
  pointer ← stored;
  pointer_id ← match dict_get pointer "pointer_id" with Some (PStr id) => Ok id | _ => Raise (Exn KeyError "'pointer_id'") end;
  payload ← (retrieve pointer_id m).2;
  _ ← raise_if (negb (py_substring "doctor" payload)) (Exn RuntimeError "Unexpected storage payload content.");
  Ok pointer_id.
Definition use_storage (state_db_path : path) : stm file_system string :=
  mkdir_parents (length state_db_path) (parent state_db_path);;
  fs ← st_get;
  (if path_exists fs state_db_path then unlink state_db_path else mret tt);;
  create_db state_db_path;;
  st_lift storage_roundtrip.
Definition check_storage (state_db_path : path) : M DiagnosticRecord :=
  let db := [("state_db_path", PStr (path_str state_db_path))] in
  match import_error with
  | Some _ => mret (_record "storage_roundtrip" "storage" "skip" "Skipped because EAP runtime modules are unavailable." db
                      "Install dependencies and package first: `python -m pip install -e .`.")
  | None => λ s,
      let '(s, r) := on_files (use_storage state_db_path) s in
      (s, Ok (match r with
              | Ok pointer_id => _record "storage_roundtrip" "storage" "pass" "Storage roundtrip check passed." (db ++ [("pointer_id", PStr pointer_id)]) ""
              | Raise e => _record "storage_roundtrip" "storage" "fail" ("Storage roundtrip check failed: " +:+ exn_str e) db
                             "Check filesystem write permissions and rerun (`docs/troubleshooting.md#database--state-issues`)."
              end))
  end.

(** *** The verdict *)

Definition failed_categories (records : list DiagnosticRecord) : list string :=
  sorted_set (list_to_set (category <$> List.filter (λ r, bool_decide (status r = "fail")) records)).
Definition exit_code (records : list DiagnosticRecord) : Z := foldl (λ code c, Z.lor code (CATEGORY_EXIT_BITS c)) 0%Z (failed_categories records).
Definition count_status (s : string) (records : list DiagnosticRecord) : pyval :=
  PInt (Z.of_nat (length (List.filter (λ r, bool_decide (status r = s)) records))).
Definition _build_diagnostics_payload (records : list DiagnosticRecord) : list (string * pyval) :=
  [("ok", PBool (exit_code records =? 0)%Z); ("exit_code", PInt (exit_code records));
   ("summary", PDict [("total_checks", PInt (Z.of_nat (length records))); ("passed", count_status "pass" records); ("failed", count_status "fail" records);
                      ("skipped", count_status "skip" records); ("failed_categories", PList (PStr <$> failed_categories records))]);
   ("checks", PList (to_dict <$> records))].

(** The checks, with the path of the database. *)
Definition diagnose (a : doctor_args) (env_path : path) : M (path * list DiagnosticRecord) :=
  '(values, env) ← check_env_file env_path;
  '(settings, config) ← check_settings values;
  connectivity ← st_lift (check_connectivity (d_skip_connectivity a) settings);
  state_db_path ← with_files (λ fs, full_path fs (d_state_db_path a));
  storage ← check_storage state_db_path;
  mret (state_db_path, [check_python; check_git; check_imports; env] ++ check_required values ++ [config; connectivity; storage]).
(** [run_doctor]: the records and the exit code. *)
Definition run_doctor (a : doctor_args) : M (list DiagnosticRecord * Z) :=
  env_path ← with_files (λ fs, full_path fs (d_env_file a));
  '(state_db_path, records) ← diagnose a env_path;
  let diagnostics := _build_diagnostics_payload records ++ [("env_file", PStr (path_str env_path)); ("state_db_path", PStr (path_str state_db_path))] in
  (if decide (d_output_json a = "") then mret tt else
     output_path ← with_files (λ fs, full_path fs (d_output_json a));
     on_files (mkdir_parents (length output_path) (parent output_path));;
     on_files (write_text false output_path (json_indented float_repr 0 (PDict diagnostics) +:+ newline)));;
  mret (records, exit_code records).

Inductive command := InitEnv (a : init_env_args) | RunDoctor (a : doctor_args).
Definition main (c : command) : M Z :=
  match c with InitEnv a => run_init_env a | RunDoctor a => r ← run_doctor a; mret r.2 end.
End doctor.
