(* ===== verification/DoctorProofs.v ===== *)
(** What the diagnostics say, and that a generated environment file passes
    them. *)
From stdpp Require Import options.
From S2P Require Import Prelude Values Json WebTools Settings PointerStore StateManager FileSystem FileTools FileToolsProofs StateFiles Doctor.
Unset Default Proof Using.

(** ** The exit code *)

(** The bit of each category. *)
Definition exit_bits : list (string * Z) := [("env", 0); ("config", 1); ("connectivity", 2); ("storage", 3); ("tools", 4)]%Z.
Lemma lor_bits (l : list string) z n : (0 <= n)%Z →
  Z.testbit (foldl (λ code c, Z.lor code (CATEGORY_EXIT_BITS c)) z l) n = Z.testbit z n || existsb (λ c, Z.testbit (CATEGORY_EXIT_BITS c) n) l.
Proof.
  intros Hn. revert z. induction l as [|c l IH]; intros z; [by rewrite orb_false_r|]. cbn [foldl existsb]. by rewrite IH, Z.lor_spec, orb_assoc.
Qed.
Lemma category_bit c c' n : (c, n) ∈ exit_bits → Z.testbit (CATEGORY_EXIT_BITS c') n = true ↔ c' = c.
Proof.
  intros Hc. unfold CATEGORY_EXIT_BITS. unfold exit_bits in Hc. rewrite !elem_of_cons, elem_of_nil in Hc.
  destruct Hc as [[= -> ->]|[[= -> ->]|[[= -> ->]|[[= -> ->]|[[= -> ->]|[]]]]]]; repeat case_decide; subst; cbn; split; congruence.
Qed.
Lemma failed_category c records : c ∈ failed_categories records ↔ ∃ r, r ∈ records ∧ category r = c ∧ status r = "fail".
Proof.
  unfold failed_categories. rewrite elem_of_sorted_set, elem_of_list_to_set, list_elem_of_fmap. split.
  - intros (r & -> & H). apply list_elem_of_In, filter_In in H as [H1%list_elem_of_In H2%bool_decide_eq_true]. by exists r.
  - intros (r & H1 & <- & H2). exists r. split; [done|]. apply list_elem_of_In, filter_In. split; [by apply list_elem_of_In|by apply bool_decide_eq_true].
Qed.
Lemma exit_code_bit records c n : (c, n) ∈ exit_bits →
  Z.testbit (exit_code records) n = true ↔ ∃ r, r ∈ records ∧ category r = c ∧ status r = "fail".
Proof.
  intros Hc. assert (0 <= n)%Z as Hn. { unfold exit_bits in Hc. rewrite !elem_of_cons, elem_of_nil in Hc. naive_solver lia. }
  unfold exit_code. rewrite lor_bits by done. rewrite Z.bits_0. cbn [orb]. rewrite <- failed_category, existsb_exists. split.
  - intros (c' & H & Hb). apply (category_bit c c' n Hc) in Hb as ->. by apply list_elem_of_In.
  - intros H. exists c. split; [by apply list_elem_of_In|]. by apply (category_bit c c n Hc).
Qed.
Definition known (r : DiagnosticRecord) : Prop := category r ∈ exit_bits.*1.
Lemma exit_code_zero records : Forall known records → exit_code records = 0%Z ↔ Forall (λ r, status r ≠ "fail") records.
Proof.
  intros Hk. split.
  - intros H. apply Forall_forall. intros r Hr Hf. rewrite Forall_forall in Hk. specialize (Hk r Hr).
    apply list_elem_of_fmap in Hk as ([c n] & Hc & Hin). cbn in Hc. assert (Z.testbit (exit_code records) n = true) as Hb.
    { apply (exit_code_bit records c n Hin). by exists r. }
    by rewrite H, Z.bits_0 in Hb.
  - intros H. unfold exit_code. destruct (failed_categories records) as [|c l] eqn:E; [done|]. exfalso.
    assert (c ∈ failed_categories records) as (r & Hr & _ & Hf)%failed_category by (rewrite E; left). rewrite Forall_forall in H. by eapply H.
Qed.

(** ** The environment while the settings are loaded *)

Definition overlay (values : list (string * string)) (e : gmap string string) : gmap string string := foldl (λ e kv, <[kv.1 := kv.2]> e) e values.
Lemma restore_lookup previous overrides e k :
  restore previous overrides e !! k = if decide (k ∈ overrides.*1) then previous !! k else e !! k.
Proof.
  unfold restore. revert e. induction overrides as [|[k' v'] l IH]; intros e; [done|]. cbn [foldl fmap list_fmap fst]. rewrite IH.
  destruct (decide (k ∈ l.*1)) as [Hk|Hk]; [by rewrite decide_True by (by right)|].
  destruct (decide (k = k')) as [->|Hne].
  - rewrite decide_True by left. destruct (previous !! k') as [v|]; [by rewrite lookup_insert_eq|by rewrite lookup_delete_eq].
  - rewrite decide_False by (by intros [?|?]%elem_of_cons). destruct (previous !! k') as [v|]; [by rewrite lookup_insert_ne|by rewrite lookup_delete_ne].
Qed.
Lemma putenv_effect l s s' r : st_for_each putenv l s = (s', r) →
  files s' = files s ∧ (∀ k, k ∉ l.*1 → environ s' !! k = environ s !! k) ∧ (r = Ok tt → environ s' = overlay l (environ s)).
Proof.
  revert s. induction l as [|[k v] l IH]; intros s; [by intros [= <- <-]|]. cbn [st_for_each]. unfold mbind, stm_bind, putenv at 1. cbn [fst snd].
  destruct (has_char 0 k || has_char 0 v); [by intros [= <- <-]|]. intros H. destruct (IH _ H) as (Hf & Hk & Ho). cbn in Hf, Hk, Ho.
  split; [done|]. split; [|done]. intros k' Hk'. rewrite fmap_cons, not_elem_of_cons in Hk'. destruct Hk' as [Hne Hk']. rewrite Hk by done. by rewrite lookup_insert_ne.
Qed.
Lemma temporary_env_exact {A} overrides (f : machine → result A) s s' r : temporary_env overrides (λ s, (s, f s)) s = (s', r) →
  s' = s ∧ match r with Ok a => f {| environ := overlay overrides (environ s); files := files s |} = Ok a | Raise e => True end.
Proof.
  unfold temporary_env, mbind, stm_bind. destruct (st_for_each putenv overrides s) as [s1 r1] eqn:E. destruct (putenv_effect _ _ _ _ E) as (Hf & Hk & Ho).
  assert (set_environ (restore (environ s) overrides (environ s1)) s1 = s) as Hs.
  { destruct s as [e fs]. unfold set_environ. cbn in *. rewrite Hf. f_equal. apply map_eq. intros k. rewrite restore_lookup. case_decide; [done|by apply Hk]. }
  destruct r1 as [[]|e]; intros [= <- <-]; rewrite Hs; (split; [done|]); [|done].
  destruct (f s1) as [a|] eqn:Ea; [|done]. rewrite <- Ea. f_equal. destruct s1 as [e1 fs1]. cbn in *. by rewrite Ho, Hf.
Qed.

(** ** The verdict *)

Section doctor.
Context (cwd : path) (py_int : string → result Z) (py_float : string → result pyfloat) (json_loads : string → result pyval) (check_bracketed_netloc : string → result unit).
Context (float_repr : Q → string) (getsizeof : pyval → Z) (version : Z * Z) (version_text : string) (git_path : option string) (import_error : option exn).
Context (connect : string → Z → result (option string)) (create_db : path → file_system → file_system * result unit) (now : Z) (uuid_hex : string).
Abbreviation doctor := (run_doctor cwd py_int py_float json_loads check_bracketed_netloc float_repr getsizeof version version_text git_path import_error connect create_db now uuid_hex).
Abbreviation full_path := (full_path cwd).

(** Everything that was checked is as it should be. *)
Record healthy (a : doctor_args) (s : machine) (env_path : path) (values : list (string * string)) : Prop := {
  hl_installed : version_lt version (3, 10)%Z = false ∧ version_lt version (3, 14)%Z = true ∧ git_path ≠ None ∧ import_error = None;
  hl_env : parse_env_file (files s) env_path = Ok values;
  hl_settings : values ≠ [] → validate_env_values values = [] ∧ ∃ settings,
    load_settings py_int py_float json_loads (λ name, overlay values (environ s) !! name) = Ok settings ∧
    (d_skip_connectivity a = false → ∀ u, u ∈ endpoints settings → _check_endpoint_connectivity check_bracketed_netloc connect u = Ok None);
  hl_storage : ∃ p fs id, full_path (files s) (d_state_db_path a) = Ok p ∧ use_storage float_repr getsizeof create_db now uuid_hex p (files s) = (fs, Ok id)
}.

Lemma check_env_file_exact p s s' values r : check_env_file p s = (s', Ok (values, r)) → s' = s ∧ category r = "env" ∧
  (status r ≠ "fail" → parse_env_file (files s) p = Ok values).
Proof.
  unfold check_env_file. destruct (parse_env_file (files s) p) as [v|e]; [by intros [= <- <- <-]|].
  case_decide; [by intros [= <- <- <-]|]. destruct (is_value_error _); [by intros [= <- <- <-]|done].
Qed.
Lemma check_required_exact values : Forall (λ r, category r = "env") (check_required values) ∧
  (Forall (λ r, status r ≠ "fail") (check_required values) → env_errors values = []).
Proof.
  unfold check_required. destruct values as [|kv values], (env_errors _) as [|e l] eqn:E; (split; [by repeat constructor|]); try done;
    intros H; by apply Forall_inv in H.
Qed.
Lemma check_settings_exact values s s' settings r : check_settings py_int py_float json_loads import_error values s = (s', Ok (settings, r)) →
  s' = s ∧ category r = "config" ∧
  (status r ≠ "fail" → values ≠ [] → env_errors values = [] → import_error = None →
   ∃ x, settings = Some x ∧ load_settings py_int py_float json_loads (λ name, overlay values (environ s) !! name) = Ok x).
Proof.
  unfold check_settings. destruct values as [|kv values]; [by destruct import_error; intros [= <- <- <-]|].
  destruct (env_errors (kv :: values)) as [|e l]; [|by destruct import_error; intros [= <- <- <-]]. destruct import_error; [by intros [= <- <- <-]|].
  unfold load_under. destruct (temporary_env _ _ s) as [s1 x] eqn:E. apply temporary_env_exact in E as [-> Hx]. destruct x as [x|e].
  - intros [= <- <- <-]. split; [done|]. split; [done|]. intros _ _ _ _. by exists x.
  - destruct (is_value_error _); [by intros [= <- <- <-]|done].
Qed.
Lemma connectivity_exact skip settings r : check_connectivity check_bracketed_netloc connect skip settings = Ok r → category r = "connectivity" ∧
  (status r ≠ "fail" → skip = false → ∀ x u, settings = Some x → u ∈ endpoints x → _check_endpoint_connectivity check_bracketed_netloc connect u = Ok None).
Proof.
  unfold check_connectivity. destruct settings as [x|]; [|by intros [= <-]]. destruct skip; [by intros [= <-]|].
  intros (errors & He%map_result_Ok & [= <-])%bind_Ok. destruct (omap id errors) as [|f l] eqn:E; [|by destruct errors].
  split; [done|]. intros _ _ x' u [= <-] Hu. apply list_elem_of_lookup in Hu as [i Hi]. destruct (Forall2_lookup_l _ _ _ _ _ He Hi) as (y & Hy & Hc).
  rewrite Hc. destruct y as [f|]; [|done]. exfalso. assert (f ∈ omap id errors) as Hf.
  { apply list_elem_of_omap. exists (Some f). split; [by eapply list_elem_of_lookup_2|done]. }
  rewrite E in Hf. by apply elem_of_nil in Hf.
Qed.
Lemma check_storage_exact p s s' r : check_storage float_repr getsizeof import_error create_db now uuid_hex p s = (s', Ok r) →
  environ s' = environ s ∧ category r = "storage" ∧
  (status r ≠ "fail" → import_error = None → ∃ fs id, use_storage float_repr getsizeof create_db now uuid_hex p (files s) = (fs, Ok id)).
Proof.
  unfold check_storage. destruct import_error; [by intros [= <- <-]|]. unfold on_files. destruct (use_storage _ _ _ _ _ _ _) as [fs x].
  intros [= <- <-]. split; [done|]. destruct x as [id|e]; [|done]. split; [done|]. intros _ _. by exists fs, id.
Qed.

(** The checks of one run, made on the machine as it was found but for the
    storage, which comes last. *)
Lemma diagnose_exact a env_path s s' p records :
  diagnose cwd py_int py_float json_loads check_bracketed_netloc float_repr getsizeof version version_text git_path import_error connect create_db now uuid_hex
    a env_path s = (s', Ok (p, records)) →
  environ s' = environ s ∧ Forall known records ∧ (Forall (λ r, status r ≠ "fail") records → ∃ values, healthy a s env_path values).
Proof.
  unfold diagnose. intros (s1 & [values env] & He & H)%st_bind_Ok. apply check_env_file_exact in He as (-> & Ce & He).
  apply st_bind_Ok in H as (s2 & [settings config] & Hc & H). apply check_settings_exact in Hc as (-> & Cc & Hc).
  apply st_bind_Ok in H as (s3 & connectivity & Hn & H). injection Hn as <- Hn. apply connectivity_exact in Hn as [Cn Hn].
  apply st_bind_Ok in H as (s4 & p' & Hp & H). injection Hp as <- Hp.
  apply st_bind_Ok in H as (s5 & storage & Hs & H). apply check_storage_exact in Hs as (Es & Cs & Hs). injection H as <- <- <-.
  destruct (check_required_exact values) as [Cr Hr]. split; [done|]. split.
  - unfold known. assert (∀ r c, category r = c → c ∈ exit_bits.*1 → known r) as Hknown by (intros r c <-; done).
    repeat (apply Forall_cons; split); [| | |by rewrite Ce; set_solver|].
    + unfold check_python. destruct (_ || _); cbn; set_solver.
    + unfold check_git. destruct git_path; cbn; set_solver.
    + unfold check_imports. destruct import_error; cbn; set_solver.
    + apply Forall_app. split; [eapply Forall_impl; [exact Cr|]; intros r ->; set_solver|].
      repeat (apply Forall_cons; split); [rewrite Cc|rewrite Cn|rewrite Cs|constructor]; set_solver.
  - cbn [app]. rewrite !Forall_cons, Forall_app, !Forall_cons. intros (Hpy & Hgit & Himp & Henv & Hreq & Hconf & Hconn & Hstor & _).
    assert (import_error = None) as Ei. { unfold check_imports in Himp. destruct import_error; [by destruct Himp|done]. }
    exists values. split.
    + unfold check_python in Hpy. destruct (version_lt version (3, 10)%Z); [by destruct Hpy|]. destruct (version_lt version (3, 14)%Z); [|by destruct Hpy].
      unfold check_git in Hgit. split_and!; try done. intros E. rewrite E in Hgit. by destruct Hgit.
    + by apply He.
    + intros Hne. specialize (Hr Hreq). destruct (Hc Hconf Hne Hr Ei) as (x & Hx & Hload). split; [by destruct values|]. exists x. split; [done|].
      intros Hskip u Hu. by eapply Hn.
    + destruct (Hs Hstor Ei) as (fs & id & Hu). by exists p', fs, id.
Qed.

(** C33: A diagnosis leaves the environment as it was.  Its exit code has the bit
    of a category exactly when a check of that category failed, and is zero
    exactly when none failed.  Zero means: a supported Python, git and the
    package are there; the environment file was read; where it defines anything,
    its values are valid, the settings load under them and, unless that was
    skipped, every endpoint they name accepts connections; and a pointer was
    stored in the database and read back. *)
Theorem doctor_verdict a s s' records code : doctor a s = (s', Ok (records, code)) →
  environ s' = environ s ∧
  (∀ c n, (c, n) ∈ exit_bits → Z.testbit code n = true ↔ ∃ r, r ∈ records ∧ category r = c ∧ status r = "fail") ∧
  (code = 0%Z ↔ Forall (λ r, status r ≠ "fail") records) ∧
  (code = 0%Z → ∃ env_path values, full_path (files s) (d_env_file a) = Ok env_path ∧ healthy a s env_path values).
Proof.
  unfold run_doctor. intros (s1 & env_path & He & H)%st_bind_Ok. injection He as <- He.
  apply st_bind_Ok in H as (s2 & [p records'] & Hd & H). apply diagnose_exact in Hd as (Henv & Hk & Hh).
  apply st_bind_Ok in H as (s3 & u & Hw & H). injection H as <- <- <-.
  split; [|split; [intros c n Hc; by apply exit_code_bit|split; [by apply exit_code_zero|]]].
  - rewrite <- Henv. case_decide; [by injection Hw as <- _|]. apply st_bind_Ok in Hw as (s4 & o & Ho & Hw). injection Ho as <- _.
    apply st_bind_Ok in Hw as (s5 & u' & Hm & Hw). unfold on_files in Hm, Hw. destruct (mkdir_parents _ _ _) as [fs x]. injection Hm as <- _. cbn in Hw.
    destruct (write_text _ _ _ _) as [fs' y]. by injection Hw as <- _.
  - intros Hz%exit_code_zero; [|done]. destruct (Hh Hz) as [values Hv]. by exists env_path, values.
Qed.
End doctor.

(** ** A generated file, read back *)

Definition one_line (s : string) : bool := forallb (λ c, negb (line_break c)) (String.list_ascii_of_string s).
Lemma lines_from_line acc l rest : one_line l = true → lines_from acc (l +:+ newline +:+ rest) = (acc +:+ l) :: splitlines rest.
Proof.
  revert acc. induction l as [|c l IH]; intros acc Hl.
  - rewrite str_app_nil. change ("" +:+ newline +:+ rest) with (newline +:+ rest). destruct rest as [|d rest]; [done|].
    change (newline +:+ String d rest) with (String (Ascii.ascii_of_nat 10) (String d rest)). reflexivity.
  - unfold one_line in *. cbn [String.list_ascii_of_string forallb] in Hl. apply andb_true_iff in Hl as [Hc%negb_true_iff Hl].
    change (String c l +:+ newline +:+ rest) with (String c (l +:+ newline +:+ rest)). cbn [lines_from]. rewrite Hc, IH by done. by rewrite str_app_assoc.
Qed.
Lemma join_lines l ls : py_join newline (l :: ls) +:+ newline = l +:+ newline +:+ match ls with [] => "" | _ => py_join newline ls +:+ newline end.
Proof. destruct ls as [|l' ls]; [by rewrite str_app_nil|]. cbn [py_join]. by rewrite !str_app_assoc. Qed.
Lemma split_joined ls : Forall (λ l, one_line l = true) ls → ls ≠ [] → splitlines (py_join newline ls +:+ newline) = ls.
Proof.
  induction 1 as [|l ls Hl Hls IH]; [done|]. intros _. rewrite join_lines. unfold splitlines. rewrite lines_from_line by done. f_equal.
  destruct ls as [|l' ls]; [done|]. by apply IH.
Qed.
Lemma universal_plain s : forallb (λ c, negb (code c =? 13)) (String.list_ascii_of_string s) = true → universal_newlines s = s.
Proof.
  induction s as [|c s IH]; [done|]. cbn [String.list_ascii_of_string forallb]. rewrite andb_true_iff. intros [Hc Hs]. specialize (IH Hs).
  destruct c as [[] [] [] [] [] [] [] []]; try discriminate Hc; cbn [universal_newlines]; by rewrite IH.
Qed.

Lemma strip_head c s : py_isspace c = false → ∃ t, py_strip (String c s) = String c t.
Proof.
  intros Hc. unfold py_strip. cbn [py_lstrip]. rewrite Hc. cbn [py_rstrip]. destruct (py_rstrip s); [rewrite Hc|]; by eexists.
Qed.
Lemma partition_key key v : has_char 61 key = false → py_partition "="%char (key +:+ "=" +:+ v) = (key, Some v).
Proof.
  induction key as [|c key IH]; [done|]. unfold has_char in *. cbn [String.list_ascii_of_string existsb]. intros [Hc Hk]%orb_false_iff.
  change (String c key +:+ "=" +:+ v) with (String c (key +:+ "=" +:+ v)). cbn [py_partition]. rewrite IH by done.
  rewrite decide_False; [done|]. intros ->. discriminate Hc.
Qed.
(** A name an assignment may have. *)
Definition env_name (key : string) : bool :=
  negb (has_char 61 key) && bool_decide (py_strip key = key) && match key with String c _ => negb (py_isspace c) && negb (bool_decide (c = "#"%char)) | "" => false end.
Lemma assignment where_ n key v values : env_name key = true →
  env_line where_ n (key +:+ "=" +:+ v) values = Ok (dict_set values key (py_strip v)).
Proof.
  unfold env_name. rewrite !andb_true_iff, negb_true_iff, bool_decide_eq_true. intros [[Hk Hs] Hc]. unfold env_line.
  destruct key as [|c key]; [done|]. apply andb_true_iff in Hc as [Hc%negb_true_iff Hh%negb_true_iff%bool_decide_eq_false].
  change (String c key +:+ "=" +:+ v) with (String c (key +:+ "=" +:+ v)). destruct (strip_head c (key +:+ "=" +:+ v) Hc) as [t ->].
  rewrite bool_decide_eq_false_2 by done. assert (py_startswith (String c t) "#" = false) as ->.
  { unfold py_startswith. cbn. by rewrite decide_False by congruence. }
  cbn [orb]. change (String c (key +:+ "=" +:+ v)) with (String c key +:+ "=" +:+ v). rewrite partition_key by done.
  unfold py_blank. rewrite Hs. by rewrite bool_decide_eq_false_2.
Qed.

Definition client_values (prefix base_url model mode : string) : list (string * string) :=
  [(prefix +:+ "_BASE_URL", base_url); (prefix +:+ "_MODEL", model); (prefix +:+ "_TIMEOUT_SECONDS", "60"); (prefix +:+ "_TEMPERATURE", "0.0");
   (prefix +:+ "_OPENAI_API_MODE", mode); (prefix +:+ "_EXTRA_HEADERS_JSON", "{}")].
(** What the generated file says. *)
Definition rendered_values (base_url model mode : string) : list (string * string) :=
  client_values "EAP" base_url model mode ++ client_values "EAP_ARCHITECT" base_url model mode ++ client_values "EAP_AUDITOR" base_url model mode ++
  [("EAP_LOG_LEVEL", "INFO"); ("EAP_LOG_FORMAT", "json"); ("EAP_LOG_JSON", "")].
(** Lines that say nothing, and assignments. *)
Definition line_text (l : string + string * string) : string := match l with inl t => t | inr (key, v) => key +:+ "=" +:+ v end.
Definition line_ok (l : string + string * string) : bool :=
  match l with inl t => bool_decide (py_strip t = "") || py_startswith (py_strip t) "#" | inr (key, _) => env_name key end.
Definition line_value (values : list (string * string)) (l : string + string * string) : list (string * string) :=
  match l with inl _ => values | inr (key, v) => dict_set values key (py_strip v) end.
Lemma env_lines_exact where_ n values ls : forallb line_ok ls = true → env_lines where_ n values (line_text <$> ls) = Ok (foldl line_value values ls).
Proof.
  revert n values. induction ls as [|l ls IH]; intros n values; [done|]. cbn [forallb]. intros [Hl Hls]%andb_true_iff. cbn [fmap list_fmap env_lines foldl].
  destruct l as [t|[key v]]; cbn [line_text line_value line_ok] in *; [|rewrite assignment by done; by apply IH].
  unfold env_line. rewrite Hl. by apply IH.
Qed.
Definition client_assignments (prefix base_url model mode : string) : list (string + string * string) :=
  (inr <$> client_values prefix base_url model mode) ++ [inl ""].
Definition rendered_assignments (base_url model mode : string) : list (string + string * string) :=
  [inl "# Generated by scripts/eap_doctor.py init-env"; inl "# Local mode defaults (update values as needed)."] ++
  client_assignments "EAP" base_url model mode ++ client_assignments "EAP_ARCHITECT" base_url model mode ++ client_assignments "EAP_AUDITOR" base_url model mode ++
  [inr ("EAP_LOG_LEVEL", "INFO"); inr ("EAP_LOG_FORMAT", "json"); inr ("EAP_LOG_JSON", "")].
Lemma one_line_app a b : one_line (a +:+ b) = one_line a && one_line b.
Proof. induction a as [|c a IH]; [done|]. unfold one_line in *. change (String c a +:+ b) with (String c (a +:+ b)). cbn [String.list_ascii_of_string forallb]. by rewrite IH, andb_assoc. Qed.
Lemma rendered_lines_plain base_url model mode : one_line base_url = true → one_line model = true → one_line mode = true →
  Forall (λ l, one_line l = true) (rendered_lines base_url model mode).
Proof.
  intros Lb Lm Lo. assert (∀ p v, one_line p = true → one_line v = true → one_line (p +:+ v) = true) as Happ by (intros p v Hp Hv; by rewrite one_line_app, Hp, Hv).
  assert (∀ p, one_line p = true → Forall (λ l, one_line l = true) (client_lines p base_url model mode)) as Hc.
  { intros p Hp. unfold client_lines. repeat (apply Forall_cons; split); try (by repeat apply Happ); done. }
  unfold rendered_lines. repeat (apply Forall_app; split); try (by apply Hc); by repeat constructor.
Qed.
Lemma rendered_parsed where_ base_url model mode : py_strip base_url = base_url → py_strip model = model → py_strip mode = mode →
  one_line base_url = true → one_line model = true → one_line mode = true →
  parse_env_text where_ (_render_env_file base_url model mode) = Ok (rendered_values base_url model mode).
Proof.
  intros Hb Hm Ho Lb Lm Lo. unfold parse_env_text, _render_env_file. rewrite split_joined; [| |done].
  - change (rendered_lines base_url model mode) with (line_text <$> rendered_assignments base_url model mode). rewrite env_lines_exact by done.
    unfold rendered_assignments, client_assignments, client_values. cbn [app fmap list_fmap foldl line_value]. rewrite Hb, Hm, Ho. reflexivity.
  - by apply rendered_lines_plain.
Qed.

(** ** The settings of a generated file *)

Lemma overlay_lookup values e k : NoDup values.*1 → overlay values e !! k = match dict_get values k with Some v => Some v | None => e !! k end.
Proof.
  unfold overlay. revert e. induction values as [|[k' v] l IH]; intros e Hnd; [done|]. rewrite fmap_cons in Hnd. apply NoDup_cons in Hnd as [Hk Hnd].
  cbn [foldl fst snd]. rewrite IH by done. destruct (decide (k' = k)) as [->|Hne].
  - rewrite (proj2 (dict_get_None l k) Hk). cbn [dict_get]. rewrite decide_True by done. by rewrite lookup_insert_eq.
  - cbn [dict_get]. rewrite decide_False by done. destruct (dict_get l k); [done|]. by rewrite lookup_insert_ne.
Qed.

(** What a mode, a model and a URL must be like for the settings. *)
Record usable (base_url model mode : string) : Prop := {
  us_url : py_strip base_url = base_url ∧ one_line base_url = true ∧
    (py_startswith (rstrip_slashes base_url) "http://" = true ∨ py_startswith (rstrip_slashes base_url) "https://" = true);
  us_model : py_strip model = model ∧ one_line model = true ∧ model ≠ "";
  us_mode : mode ∈ ALLOWED_OPENAI_API_MODES
}.
Section loaded.
Context (py_int : string → result Z) (py_float : string → result pyfloat) (json_loads : string → result pyval).
(** What Python's number and JSON parsers make of the defaults. *)
Hypothesis defaults_parse : py_int "60" = Ok 60%Z ∧ py_int "8" = Ok 8%Z ∧ py_int "32" = Ok 32%Z ∧ py_float "0.0" = Ok (Finite 0) ∧ json_loads "{}" = Ok (PDict []).

Definition default_executor : ExecutorLimitSettings :=
  {| set_max_global_concurrency := 8; set_max_total_runtime_seconds := None; set_max_reference_resolution_depth := 32;
     set_global_requests_per_second := None; set_global_burst_capacity := None; per_tool_limits := [] |}.
Definition client (base_url model mode : string) : LLMClientSettings :=
  {| Settings.base_url := rstrip_slashes base_url; model_name := model; api_key := "not-needed"; timeout_seconds := 60; temperature := Finite 0;
     openai_api_mode := mode; extra_headers := [] |}.
Lemma no_object field : json_object json_loads "{}" field = Ok [].
Proof.
  destruct defaults_parse as (_ & _ & _ & _ & J). unfold json_object. cbv zeta.
  change (if decide (py_strip "{}" = "") then "{}" else py_strip "{}") with "{}". by rewrite J.
Qed.
Lemma client_loaded environ prefix base_url model mode : usable base_url model mode →
  (∀ name v d, (name, v) ∈ [("BASE_URL", base_url); ("MODEL", model); ("TIMEOUT_SECONDS", "60"); ("TEMPERATURE", "0.0"); ("OPENAI_API_MODE", mode)] →
     role_env environ prefix name d = v) → role_env environ prefix "API_KEY" "not-needed" = "not-needed" →
  getenv environ "EAP_EXTRA_HEADERS_JSON" "{}" = "{}" → getenv environ (prefix +:+ "_EXTRA_HEADERS_JSON") "{}" = "{}" →
  _build_client_settings py_int py_float json_loads environ prefix = Ok (client base_url model mode).
Proof.
  destruct defaults_parse as (I60 & _ & _ & F0 & _). intros [(Hb & _ & Hu) (Hm & _ & Hne) Ho] Hrole Hkey Hg Hr. unfold _build_client_settings.
  rewrite (Hrole "BASE_URL" base_url _), (Hrole "MODEL" model _), (Hrole "TIMEOUT_SECONDS" "60" _), (Hrole "TEMPERATURE" "0.0" _), (Hrole "OPENAI_API_MODE" mode _) by set_solver.
  rewrite Hkey, Hg, Hr. unfold _validate_base_url, raise_if, mbind, result_bind.
  assert (rstrip_slashes base_url ≠ "") as Hn by (intros E; rewrite E in Hu; by destruct Hu).
  rewrite bool_decide_eq_false_2 by done. assert (py_startswith (rstrip_slashes base_url) "http://" || py_startswith (rstrip_slashes base_url) "https://" = true) as ->
    by (apply orb_true_iff; exact Hu). cbn [negb]. rewrite Hm, bool_decide_eq_false_2 by done. cbn [negb].
  change (py_strip "not-needed") with "not-needed". unfold _parse_int, _parse_float. rewrite I60, F0. cbn.
  assert (_parse_openai_api_mode mode (prefix +:+ "_OPENAI_API_MODE") = Ok mode) as ->.
  { unfold ALLOWED_OPENAI_API_MODES in Ho. rewrite !elem_of_cons, elem_of_nil in Ho. destruct Ho as [->|[->|[]]]; reflexivity. }
  unfold _parse_extra_headers. by rewrite !no_object.
Qed.
Lemma executor_loaded environ : (∀ k, py_startswith k "EAP_EXECUTOR_" = true → environ k = None) →
  _build_executor_limits py_int py_float json_loads environ = Ok default_executor.
Proof.
  destruct defaults_parse as (_ & I8 & I32 & _ & _). intros H. unfold _build_executor_limits, getenv. rewrite !H by reflexivity. cbn [default].
  unfold _parse_int, except. change (pretty DEFAULT_EXECUTOR_MAX_CONCURRENCY) with "8". rewrite I8, I32. cbn. by rewrite no_object.
Qed.
(** No setting of the package is in the process's environment. *)
Definition no_settings (e : gmap string string) : Prop := ∀ k, py_startswith k "EAP_" = true → e !! k = None.
Lemma rendered_loads base_url model mode e : usable base_url model mode → no_settings e →
  load_settings py_int py_float json_loads (λ name, overlay (rendered_values base_url model mode) e !! name) =
  Ok {| architect := client base_url model mode; auditor := client base_url model mode; executor := default_executor |}.
Proof.
  intros Hu He. set (values := rendered_values base_url model mode).
  assert (∀ k, overlay values e !! k = match dict_get values k with Some v => Some v | None => e !! k end) as Hl.
  { intros k. apply overlay_lookup. change values.*1 with (rendered_values "" "" "").*1. apply (bool_decide_unpack _). vm_compute. exact I. }
  assert (∀ k, py_startswith k "EAP_" = true → dict_get values k = None → overlay values e !! k = None) as Hnone.
  { intros k Hk Hd. rewrite Hl, Hd. by apply He. }
  unfold load_settings.
  assert (∀ prefix, prefix = "EAP_ARCHITECT" ∨ prefix = "EAP_AUDITOR" →
    _build_client_settings py_int py_float json_loads (λ name, overlay values e !! name) prefix = Ok (client base_url model mode)) as Hc.
  { intros prefix Hp. apply client_loaded; [done|..]; unfold role_env, getenv.
    - intros name v d Hin. rewrite !elem_of_cons, elem_of_nil in Hin.
      destruct Hp as [->| ->]; destruct Hin as [[= -> ->]|[[= -> ->]|[[= -> ->]|[[= -> ->]|[[= -> ->]|[]]]]]]; by rewrite !Hl.
    - destruct Hp as [->| ->]; by rewrite !Hnone.
    - by rewrite !Hl.
    - destruct Hp as [->| ->]; by rewrite !Hl. }
  rewrite !Hc by auto. rewrite executor_loaded; [done|]. intros k Hk. apply Hnone.
  - apply py_startswith_spec in Hk as [r ->]. apply py_startswith_spec. by exists ("EXECUTOR_" +:+ r).
  - destruct (dict_get values k) as [v|] eqn:E; [|done]. exfalso. apply dict_get_elem, (list_elem_of_fmap_2 fst) in E.
    change values.*1 with (rendered_values "" "" "").*1 in E. cbn [fst] in E.
    assert (Forall (λ x, py_startswith x "EAP_EXECUTOR_" = false) (rendered_values "" "" "").*1) as Hf by (repeat constructor).
    rewrite Forall_forall in Hf. rewrite (Hf _ E) in Hk. done.
Qed.

Definition no_cr (s : string) : bool := forallb (λ c, negb (code c =? 13)) (String.list_ascii_of_string s).
Lemma no_cr_app a b : no_cr (a +:+ b) = no_cr a && no_cr b.
Proof. induction a as [|c a IH]; [done|]. unfold no_cr in *. change (String c a +:+ b) with (String c (a +:+ b)). cbn [String.list_ascii_of_string forallb]. by rewrite IH, andb_assoc. Qed.
Lemma one_line_no_cr s : one_line s = true → no_cr s = true.
Proof.
  unfold one_line, no_cr. induction (String.list_ascii_of_string s) as [|c l IH]; [done|]. cbn [forallb]. rewrite !andb_true_iff, !negb_true_iff. intros [Hc Hl].
  split; [|by apply IH]. destruct (code c =? 13) eqn:E; [|done]. apply Nat.eqb_eq in E. unfold line_break in Hc. by rewrite E in Hc.
Qed.
Lemma joined_no_cr ls : Forall (λ l, one_line l = true) ls → no_cr (py_join newline ls) = true.
Proof.
  induction 1 as [|l ls Hl _ IH]; [done|]. destruct ls as [|l' ls]; [by apply one_line_no_cr|].
  change (no_cr (l +:+ newline +:+ py_join newline (l' :: ls)) = true). by rewrite !no_cr_app, one_line_no_cr, IH.
Qed.
Lemma mode_plain mode : mode ∈ ALLOWED_OPENAI_API_MODES → py_strip mode = mode ∧ one_line mode = true.
Proof. unfold ALLOWED_OPENAI_API_MODES. rewrite !elem_of_cons, elem_of_nil. by intros [->|[->|[]]]. Qed.
Lemma rendered_read fs p base_url model mode : fs_ok fs → canonical fs p → fs !! p = Some (FileSystem.File (_render_env_file base_url model mode)) →
  usable base_url model mode → parse_env_file fs p = Ok (rendered_values base_url model mode).
Proof.
  intros Hok Hcan Hp [(Sb & Lb & _) (Sm & Lm & _) Ho]. apply mode_plain in Ho as [So Lo]. unfold parse_env_file, path_exists. rewrite stat_known, Hp by done. cbn.
  rewrite open_read_known, Hp by done. cbn. rewrite universal_plain; [by apply rendered_parsed|]. unfold _render_env_file.
  change (no_cr (py_join newline (rendered_lines base_url model mode) +:+ newline) = true). by rewrite no_cr_app, joined_no_cr by by apply rendered_lines_plain.
Qed.
Lemma rstrip_slashes_prefix s : ∃ r, s = rstrip_slashes s +:+ r.
Proof.
  induction s as [|c s [r E]]; [by exists ""|]. cbn [rstrip_slashes]. destruct (rstrip_slashes s) as [|d t].
  - case_decide; [by exists (String c s)|]. by exists s.
  - exists r. exact (f_equal (String c) E).
Qed.
Lemma rendered_valid base_url model mode : usable base_url model mode → validate_env_values (rendered_values base_url model mode) = [].
Proof.
  intros [(Sb & _ & Hb) (Sm & _ & Hm) Ho]. assert (base_url ≠ "") as Hne by (intros ->; by destruct Hb).
  assert (py_startswith base_url "http://" || py_startswith base_url "https://" = true) as Hs.
  { apply orb_true_iff. destruct (rstrip_slashes_prefix base_url) as [r Hr]. destruct Hb as [[x E]%py_startswith_spec|[x E]%py_startswith_spec]; [left|right];
      apply py_startswith_spec; exists (x +:+ r); by rewrite Hr, E, str_app_assoc at 1. }
  unfold validate_env_values, missing_errors, base_url_errors, mode_errors.
  assert (∀ k v, dict_get (rendered_values base_url model mode) k = Some v → value_of (rendered_values base_url model mode) k = py_strip v) as Hv
    by (intros k v E; unfold value_of; by rewrite E).
  cbn [REQUIRED_ENV_KEYS List.filter flat_map]. rewrite (Hv "EAP_BASE_URL" base_url), (Hv "EAP_MODEL" model) by reflexivity.
  rewrite (Hv "EAP_OPENAI_API_MODE" mode), (Hv "EAP_ARCHITECT_OPENAI_API_MODE" mode), (Hv "EAP_AUDITOR_OPENAI_API_MODE" mode) by reflexivity.
  rewrite Sb, Sm, !bool_decide_eq_false_2 by done. cbn [negb andb fmap list_fmap app]. rewrite Hs. cbn [negb app].
  apply mode_plain in Ho as Hp. destruct Hp as [-> _]. unfold ALLOWED_OPENAI_API_MODES in *. rewrite !elem_of_cons, elem_of_nil in Ho.
  destruct Ho as [->|[->|[]]]; reflexivity.
Qed.

(** [init-env] writes either nothing at all (and says so by its exit code:
    the file exists and is not to be replaced, or the values are invalid) or
    exactly the file asked for.  For values on one line, a URL that is more than
    its scheme and a mode that is named, the file is one the diagnosis accepts:
    it parses to the values written, they are valid, and where the process's
    environment has no settings of its own the settings load, with that URL and
    model for both roles and defaults everywhere else. *)
Theorem init_env_diagnosed cwd a s s' code : clean cwd → fs_ok (files s) → run_init_env cwd a s = (s', Ok code) →
  environ s' = environ s ∧
  if decide (code = 0%Z) then
    let '(base_url, model, mode) := chosen_values a in
    ∃ p, full_path cwd (files s) (i_output a) = Ok p ∧ export_effect (files s) (files s') p ∧
      files s' !! p = Some (FileSystem.File (_render_env_file base_url model mode)) ∧ (i_force a = true ∨ path_exists (files s) p = false) ∧
      (usable base_url model mode →
        parse_env_file (files s') p = Ok (rendered_values base_url model mode) ∧ validate_env_values (rendered_values base_url model mode) = [] ∧
        ∀ e, no_settings e → load_settings py_int py_float json_loads (λ name, overlay (rendered_values base_url model mode) e !! name) =
          Ok {| architect := client base_url model mode; auditor := client base_url model mode; executor := default_executor |})
  else s' = s.
Proof.
  intros Hcwd Hok. unfold run_init_env. intros (s1 & p & Hp & H)%st_bind_Ok. injection Hp as <- Hp. apply st_bind_Ok in H as (s2 & ex & Hex & H). injection Hex as <- <-.
  destruct (path_exists (files s) p && negb (i_force a)) eqn:Eforce; [by injection H as <- <-|].
  destruct (chosen_values a) as [[base_url model] mode]. destruct (validate_env_values _); [|by injection H as <- <-].
  apply st_bind_Ok in H as (s3 & [] & Hm & H). apply st_bind_Ok in H as (s4 & [] & Hw & H). injection H as <- <-. unfold on_files in Hm, Hw.
  assert (canonical (files s) p) as Hcan.
  { eapply resolve_canonical; [done| |exact Hp]. unfold from_base. destruct (parse_path (i_output a)) as [abs names] eqn:E.
    assert (clean names) as Hn by (injection E as _ <-; apply components_clean). destruct abs; [done|]. by apply Forall_app. }
  destruct (mkdir_parents _ _ (files s)) as [fs1 r1] eqn:Emk. injection Hm as <- ->. cbn [files environ] in Hw.
  destruct (write_text _ _ _ fs1) as [fs2 r2] eqn:Ew. injection Hw as <- ->. cbn [files environ]. split; [done|]. rewrite decide_True by done.
  assert (prepared (files s) true p fs1) as Hprep. { right. split; [done|]. by destruct (mkdir_parents_spec _ _ _ _ _ Hok (canonical_parent _ _ Hcan) Emk). }
  destruct (written_exactly _ _ _ _ _ _ Hok Hcan Hprep Ew) as (He & Hf & Hcan2). exists p. split; [done|]. split; [done|]. split; [done|].
  split; [apply andb_false_iff in Eforce as [?|?%negb_false_iff]; by auto|]. intros Hu. split; [eapply rendered_read; [apply He|done..]|].
  split; [by apply rendered_valid|]. intros e. by apply rendered_loads.
Qed.
End loaded.

(** ** Runs *)

Definition workdir (env : string) : machine :=
  {| environ := {["PATH" := "/bin"]}; files := {[ [] := Directory; ["w"] := Directory; ["w"; ".env"] := FileSystem.File env; ["w"; "state.db"] := FileSystem.File "precious" ]} |}.
Definition new_db (p : path) (fs : file_system) : file_system * result unit := (<[p := FileSystem.File "fresh"]> fs, Ok tt).
Definition all_up (host : string) (port : Z) : result (option string) := Ok None.
Definition sample_doctor (a : doctor_args) : machine → machine * result (list DiagnosticRecord * Z) :=
  run_doctor ["w"] sample_int sample_float sample_json (λ _, Ok tt) (λ _, "") (λ _, 0%Z) (3, 12)%Z "3.12.1" (Some "/bin/git") None all_up new_db 0 "0123456789abcdef" a.
Definition doctor_of (db : string) : doctor_args := {| d_env_file := ".env"; d_state_db_path := db; d_skip_connectivity := false; d_output_json := "" |}.
Definition init_of (output base_url : string) (force : bool) : init_env_args :=
  {| i_output := output; i_force := force; i_interactive := None; i_base_url := base_url; i_model := "m"; i_openai_api_mode := " Responses " |}.
Definition code_of {A} (r : machine * result (A * Z)) : option Z := match r.2 with Ok (_, code) => Some code | Raise _ => None end.

Example unreachable_url_fails : code_of (sample_doctor (doctor_of "x.db") (workdir "EAP_BASE_URL=localhost")) = Some 1%Z.
Proof. vm_compute. reflexivity. Qed.
(** A file that defines nothing passes every check. *)
Example empty_file_passes : code_of (sample_doctor (doctor_of "x.db") (workdir "# nothing")) = Some 0%Z.
Proof. vm_compute. reflexivity. Qed.
(** The storage check replaces the database it is pointed at. *)
Example database_replaced : files (sample_doctor (doctor_of "state.db") (workdir "# nothing")).1 !! ["w"; "state.db"] = Some (FileSystem.File "fresh").
Proof. vm_compute. reflexivity. Qed.
(** A port that is none ends the diagnosis with an exception. *)
Example bad_port_crashes : (sample_doctor (doctor_of "x.db") (workdir ("EAP_BASE_URL=http://h:port" +:+ newline +:+ "EAP_MODEL=m"))).2 =
  Raise (value_error "Port could not be cast to integer value as 'port'").
Proof. vm_compute. reflexivity. Qed.
(** A URL that is only a scheme is written, and refused by the settings. *)
Example bare_scheme_written : (run_init_env ["w"] (init_of "new.env" "http://" false) (workdir "")).2 = Ok 0%Z ∧
  code_of (sample_doctor {| d_env_file := "new.env"; d_state_db_path := "x.db"; d_skip_connectivity := true; d_output_json := "" |}
    (run_init_env ["w"] (init_of "new.env" "http://" false) (workdir "")).1) = Some 2%Z.
Proof. vm_compute. split; reflexivity. Qed.
Example not_overwritten : run_init_env ["w"] (init_of ".env" "http://h" false) (workdir "") = (workdir "", Ok 1%Z).
Proof. vm_compute. reflexivity. Qed.

Definition bad_run : machine * result (list DiagnosticRecord * Z) := sample_doctor (doctor_of "x.db") (workdir "EAP_BASE_URL=localhost").
Lemma doctor_verdict_witness : match bad_run with
  | (s', Ok (records, code)) => code = 1%Z ∧ environ s' = {["PATH" := "/bin"]} ∧ (∃ r, r ∈ records ∧ category r = "env" ∧ status r = "fail") ∧
      ¬ (∃ r, r ∈ records ∧ category r = "storage" ∧ status r = "fail")
  | _ => False
  end.
Proof.
  destruct bad_run as [s' [[records code]|e]] eqn:E; [|vm_compute in E; discriminate].
  pose proof (doctor_verdict ["w"] sample_int sample_float sample_json (λ _, Ok tt) (λ _, "") (λ _, 0%Z) (3, 12)%Z "3.12.1" (Some "/bin/git") None all_up new_db 0
    "0123456789abcdef" (doctor_of "x.db") (workdir "EAP_BASE_URL=localhost") s' records code E) as (He & Hb & _ & _).
  assert (code = 1%Z) as -> by (assert (code_of bad_run = Some 1%Z) as Hc by (vm_compute; reflexivity); rewrite E in Hc; by injection Hc).
  split; [done|]. split; [exact He|]. split.
  - apply (Hb "env" 0%Z); [left|done].
  - intros Hs. apply (Hb "storage" 3%Z) in Hs; [done|]. by do 3 right; left.
Defined.
Definition written_run : machine * result Z := run_init_env ["w"] (init_of ".env" "http://h/" true) (workdir "").
Lemma init_env_diagnosed_witness : match written_run with
  | (s', Ok code) => code = 0%Z ∧ parse_env_file (files s') ["w"; ".env"] = Ok (rendered_values "http://h/" "m" "responses") ∧
      is_ok (load_settings sample_int sample_float sample_json (λ name, overlay (rendered_values "http://h/" "m" "responses") (environ s') !! name)) = true
  | _ => False
  end.
Proof.
  destruct written_run as [s' [code|e]] eqn:E; [|vm_compute in E; discriminate].
  assert (code = 0%Z) as -> by (assert (written_run.2 = Ok 0%Z) as Hc by (vm_compute; reflexivity); rewrite E in Hc; by injection Hc).
  assert (fs_ok (files (workdir ""))) as Hok by (apply fs_check_ok; vm_compute; reflexivity).
  assert (clean ["w"]) as Hcwd by (apply Forall_singleton; by split).
  destruct (init_env_diagnosed sample_int sample_float sample_json (conj eq_refl (conj eq_refl (conj eq_refl (conj eq_refl eq_refl))))
    ["w"] (init_of ".env" "http://h/" true) (workdir "") s' 0%Z Hcwd Hok E) as (He & p & Hp & _ & _ & _ & Hu).
  assert (p = ["w"; ".env"]) as -> by (vm_compute in Hp; by injection Hp).
  destruct Hu as (Hparse & _ & Hload).
  { split; [split_and!; [reflexivity|reflexivity|left; reflexivity]|split_and!; [reflexivity|reflexivity|done]|right; left]. }
  split; [done|]. split; [exact Hparse|]. assert (no_settings (environ s')) as Hno.
  { rewrite He. intros k Hk. apply lookup_singleton_ne. intros <-. discriminate Hk. }
  exact (f_equal is_ok (Hload (environ s') Hno)).
Defined.
