(* ===== verification/HttpApi.v ===== *)
(** The HTTP surface of the runtime, [eap/runtime/http_api.py]: bearer-token
    authentication, rate and concurrency limits, run ownership, bounded bodies,
    the four endpoints and their routing, and the checks of the server's
    constructor.

    A handler is a state transformer that returns a value, answers early (the
    [_HTTPResponse] exception), fails with another exception, or is still
    waiting: for a message of the client or for its run.  What a handler reads
    from outside (clock readings, the request's identifier, the messages of its
    body) is an argument.  Parsing JSON text and pydantic's [model_validate] and
    [model_dump] are parameters. *)
From stdpp Require Import options.
From S2P Require Import Prelude Values Json Text SafeEval ToolRegistry Guardrails Policy PointerStore StateManager Models Executor.
Unset Default Proof Using.

(** ** Answers *)

(** [_HTTPResponse] *)
Record response := {
  status_code : Z;
  rs_payload : payload;
  rs_headers : list (string * string)
}.

Inductive outcome (A : Type) :=
  | Value (a : A)
  | Responded (r : response)
  | Failed (e : exn)
  | Waiting.
Arguments Value {_} _.
Arguments Responded {_} _.
Arguments Failed {_} _.
Arguments Waiting {_}.

(** [_error] *)
Definition _error (status : Z) (error_type message : string) (details : option pyval)
    (headers : list (string * string)) : response :=
  {| status_code := status;
     rs_payload := [("error_type", PStr error_type); ("message", PStr message)] ++
                   match details with Some d => [("details", d)] | None => [] end;
     rs_headers := headers |}.
Definition error (status : Z) (error_type message : string) : response :=
  _error status error_type message None [].

(** ** Tokens *)

(** An entry of the normalized [scoped_bearer_tokens]. *)
Record token_entry := {
  te_actor_id : string;
  te_auth_subject : string;
  te_scopes : list string;
  te_policy_profile : option string;
  te_template : option string
}.

(** [AuthContext] *)
Record auth_context := {
  cx_actor_id : string;
  cx_scopes : gset string;
  cx_auth_subject : string;
  cx_policy_profile : option string;
  cx_template : option string;
  cx_local_dev_auth : bool
}.

Definition non_blank (s : string) : option string := if decide (s = "") then None else Some s.

Section tokens.
Context (float_repr : Q → string).

(** [scopes] of a raw policy, the unknown ones dropped. *)
Definition entry_scopes (scopes_value : pyval) : list string :=
  filter (λ scope, scope ∈ FULL_RUNTIME_SCOPES ∨ scope = "*")
    match scopes_value with
    | PStr s => split_strip ","%char s
    | PList l => filter (λ s, s ≠ "") ((λ scope, py_strip (py_str float_repr scope)) <$> l)
    | _ => []
    end.

(** One turn of the loop of [_normalize_scoped_bearer_tokens]. *)
Definition normalize_token (normalized : list (string * token_entry)) (item : string * pyval)
  : list (string * token_entry) :=
  let token := py_strip item.1 in
  match item.2 with
  | PDict raw_policy =>
      let field k := py_strip (py_str float_repr (default (PStr "") (dict_get raw_policy k))) in
      let scopes := entry_scopes (default (PList []) (dict_get raw_policy "scopes")) in
      if decide (token = "") then normalized
      else if decide (field "actor_id" = "") then normalized
      else if is_nil scopes then normalized
      else dict_set normalized token
        {| te_actor_id := field "actor_id";
           te_auth_subject := str_or (Some (field "auth_subject")) ("scoped_token:" +:+ field "actor_id");
           te_scopes := sorted_set (list_to_set scopes);
           te_policy_profile := non_blank (field "policy_profile");
           te_template := non_blank (field "template") |}
  | _ => normalized
  end.

(** [_normalize_scoped_bearer_tokens] *)
Definition _normalize_scoped_bearer_tokens (scoped_bearer_tokens : list (string * pyval))
  : list (string * token_entry) :=
  foldl normalize_token [] scoped_bearer_tokens.
End tokens.

(** ** The server's configuration *)
Record server_config := {
  required_bearer_token : option string;
  scoped_bearer_tokens : list (string * token_entry);
  rate_limit_rules : list (string * RateLimitRule);
  concurrency_limits : ConcurrencyLimits;
  max_request_body_bytes : Z;
  allow_unauthenticated_local_dev : bool
}.

Definition DEFAULT_MAX_REQUEST_BODY_BYTES : Z := 1000000.
Definition LOCAL_DEV_AUTH_LOOPBACK_HOSTS : list string := ["127.0.0.1"; "localhost"; "::1"].

(** [_is_loopback_host] *)
Definition _is_loopback_host (host : string) : bool :=
  bool_decide (py_lower (py_strip host) ∈ LOCAL_DEV_AUTH_LOOPBACK_HOSTS).

Section constructor.
Context (float_repr : Q → string) (float_of_str : string → option Q).

(** [EAPRuntimeHTTPServer.__init__], up to the ASGI server. *)
Definition new_server (host : string) (port : Z) (required : option string)
    (scoped rate_rules : list (string * pyval)) (limits : pyval) (max_body : Z) (local_dev : bool)
  : result server_config :=
  _ ← raise_if ((port <? 0)%Z || (65535 <? port)%Z) (value_error "port must be between 0 and 65535");
  _ ← raise_if (max_body <=? 0)%Z (value_error "max_request_body_bytes must be greater than 0");
  _ ← raise_if (local_dev && negb (_is_loopback_host host))
        (value_error ("allow_unauthenticated_local_dev requires a loopback host "
           +:+ "(127.0.0.1, localhost, or ::1)."));
  rules ← normalize_rate_limit_rules float_of_str rate_rules;
  concurrency ← normalize_concurrency_limits limits;
  Ok {| required_bearer_token := required;
        scoped_bearer_tokens := _normalize_scoped_bearer_tokens float_repr scoped;
        rate_limit_rules := rules; concurrency_limits := concurrency;
        max_request_body_bytes := max_body; allow_unauthenticated_local_dev := local_dev |}.
End constructor.

(** ** Requests *)

(** A message the ASGI server delivers: its body when that is bytes, and
    whether more follow.  A disconnect is a message without a body. *)
Inductive asgi_message :=
  | NotAMessage
  | Message (body : option string) (more_body : bool).
Definition disconnect : asgi_message := Message (Some "") false.

(** [ASGIScope]; a header that is not a pair of bytes is [None]. *)
Record asgi_scope := {
  sc_type : string;
  sc_method : string;
  sc_path : string;
  sc_headers : option (list (option (string * string)))
}.

(** What one request draws from outside: its identifier, the monotonic clock,
    the time of day and its text. *)
Record request_env := {
  rq_id : string;
  rq_monotonic : Q;
  rq_now : Z;
  rq_timestamp : string
}.

(** [path[len(prefix):-len(suffix)]] *)
Definition between (prefix suffix path : string) : string :=
  String.substring (String.length prefix)
    (String.length path - String.length suffix - String.length prefix) path.
(** [path[len(prefix):]] *)
Definition after (prefix path : string) : string :=
  String.substring (String.length prefix) (String.length path - String.length prefix) path.

(** [_headers_from_scope] *)
Definition _headers_from_scope (scope : asgi_scope) : list (string * string) :=
  foldl (λ normalized item,
    match item with
    | Some (raw_name, raw_value) => dict_set normalized (py_lower raw_name) raw_value
    | None => normalized
    end) [] (default [] (sc_headers scope)).

(** [_parse_bearer_token] *)
Definition _parse_bearer_token (headers : list (string * string)) : option string :=
  let auth_header := py_strip (default "" (dict_get headers "authorization")) in
  match strip_prefix "Bearer " auth_header with
  | Some rest => non_blank (py_strip rest)
  | None => None
  end.

(** ** The application *)

(** What the handlers share. *)
Record runtime_state (S : Type) := {
  st_manager : state_manager S;
  st_guardrails : guardrails;
  guardrail_counters : gmap string Z
}.
Arguments st_manager {_} _.
Arguments st_guardrails {_} _.
Arguments guardrail_counters {_} _.

Definition http (S A : Type) : Type := runtime_state S → runtime_state S * outcome A.

#[global] Instance http_ret S : MRet (http S) := λ A a s, (s, Value a).
#[global] Instance http_bind S : MBind (http S) := λ A B f m s,
  match m s with
  | (s, Value a) => f a s
  | (s, Responded r) => (s, Responded r)
  | (s, Failed e) => (s, Failed e)
  | (s, Waiting) => (s, Waiting)
  end.

Definition answer {S A} (r : response) : http S A := λ s, (s, Responded r).
Definition answer_if {S} (b : bool) (r : response) : http S unit :=
  if b then answer r else mret tt.
Definition on_manager {S A} (m : stm (state_manager S) A) : http S A := λ s,
  let '(x, r) := m (st_manager s) in
  ({| st_manager := x; st_guardrails := st_guardrails s; guardrail_counters := guardrail_counters s |},
   match r with Ok a => Value a | Raise e => Failed e end).
Definition set_guardrails {S} (g : guardrails) (s : runtime_state S) : runtime_state S :=
  {| st_manager := st_manager s; st_guardrails := g; guardrail_counters := guardrail_counters s |}.

(** [record_guardrail_event]; what it prints is left out. *)
Definition record_guardrail_event {S} (event_type : string) : http S unit := λ s,
  ({| st_manager := st_manager s; st_guardrails := st_guardrails s;
      guardrail_counters := <[event_type := (default 0 (guardrail_counters s !! event_type) + 1)%Z]>
                              (guardrail_counters s) |}, Value tt).

(** [round(x, 3)]: halves go to the even neighbour. *)
Definition round3 (x : Q) : Q :=
  let y := (x * 1000)%Q in
  let f := Qfloor y in
  let r := (y - inject_Z f)%Q in
  let n := if Qle_bool (1 # 2) r
           then if Qeq_bool r (1 # 2) then if Z.even f then f else (f + 1)%Z else (f + 1)%Z
           else f in
  (inject_Z n / 1000)%Q.

Definition opt_text (o : option string) : pyval := match o with Some s => PStr s | None => PNone end.

Section app.
Context {S : Type} `{PointerStoreBackend S} {func : Type} `{Runtime func}.
Context (config : server_config).
(** [json.loads(raw_body.decode("utf-8"))] *)
Context (json_loads : string → result pyval).
(** [exc.errors(include_context=False)] *)
Context (validation_errors : exn → pyval).
(** [event.model_dump(mode="json")] *)
Context (dump_event : ExecutionTraceEvent → pyval).

Abbreviation HTTP := (http S).

(** *** Authentication *)

(** [_resolve_auth_context] *)
Definition _resolve_auth_context (headers : list (string * string)) : option auth_context :=
  let token := _parse_bearer_token headers in
  let scoped_policies := scoped_bearer_tokens config in
  let required := default "" (required_bearer_token config) in
  if allow_unauthenticated_local_dev config && bool_decide (required = "") && is_nil scoped_policies
  then Some {| cx_actor_id := "local-dev-anonymous"; cx_scopes := FULL_RUNTIME_SCOPES;
               cx_auth_subject := "unauthenticated_local_dev"; cx_policy_profile := Some "local_dev";
               cx_template := None; cx_local_dev_auth := true |}
  else
    token ← token;
    match dict_get scoped_policies token with
    | Some policy =>
        Some {| cx_actor_id := te_actor_id policy; cx_scopes := list_to_set (te_scopes policy);
                cx_auth_subject := te_auth_subject policy;
                cx_policy_profile := te_policy_profile policy; cx_template := te_template policy;
                cx_local_dev_auth := false |}
    | None =>
        if bool_decide (required ≠ "") && bool_decide (token = required)
        then Some {| cx_actor_id := "runtime-admin"; cx_scopes := FULL_RUNTIME_SCOPES;
                     cx_auth_subject := "required_bearer_token"; cx_policy_profile := Some "trusted";
                     cx_template := None; cx_local_dev_auth := false |}
        else None
    end.

Definition has_scope (context : auth_context) (scope : string) : bool :=
  bool_decide (scope ∈ cx_scopes context) || bool_decide ("*" ∈ cx_scopes context).

(** [_require_auth] *)
Definition _require_auth (headers : list (string * string)) (required_scope : string) : HTTP auth_context :=
  match _resolve_auth_context headers with
  | None => answer (error 401 "unauthorized" "Missing or invalid bearer token.")
  | Some context =>
      answer_if (negb (has_scope context required_scope))
        (error 403 "forbidden" ("Missing required scope '" +:+ required_scope +:+ "'."));;
      mret context
  end.

(** The actor a request counts for. *)
Definition rate_actor (context : auth_context) : string :=
  str_or (Some (py_strip (str_or (Some (cx_actor_id context))
    (str_or (Some (cx_auth_subject context)) "anonymous")))) "anonymous".

(** [_enforce_rate_limit] *)
Definition _enforce_rate_limit (e : request_env) (operation : string) (context : auth_context) : HTTP unit :=
  λ s,
  match check_rate_limit (rate_limit_rules config) (rq_monotonic e) operation (rate_actor context)
          (st_guardrails s) with
  | (g, Raise exc) => (set_guardrails g s, Failed exc)
  | (g, Ok decision) =>
      (if rl_allowed decision then mret tt
       else
         record_guardrail_event "rate_limited";;
         answer (_error 429 "rate_limited" ("Rate limit exceeded for '" +:+ operation +:+ "'.")
           (Some (PDict [("operation", PStr operation); ("actor_id", PStr (rate_actor context));
                         ("limit", PInt (rl_limit decision));
                         ("window_seconds", PFloat (rl_window_seconds decision));
                         ("retry_after_seconds", PFloat (round3 (rl_retry_after_seconds decision)))]))
           [("Retry-After", pretty (retry_after_header_value (rl_retry_after_seconds decision)))]))
        (set_guardrails g s)
  end.

(** [_acquire_concurrency] *)
Definition _acquire_concurrency (operation : string) (run_id : option string) : HTTP ConcurrencyToken :=
  λ s,
  match acquire_concurrency (concurrency_limits config) operation run_id (st_guardrails s) with
  | (g, (decision, Some token)) => (set_guardrails g s, Value token)
  | (g, (decision, None)) =>
      (record_guardrail_event "throttled";;
       answer (_error 429 "throttled" ("Concurrency limit exceeded for '" +:+ operation +:+ "'.")
         (Some (PDict ([("operation", PStr operation);
                        ("limit_type", opt_text (cc_limit_type decision));
                        ("limit", PInt (cc_limit decision));
                        ("current_inflight", PInt (cc_current_inflight decision))] ++
                       match run_id with
                       | Some r => if decide (r = "") then [] else [("run_id", PStr r)]
                       | None => []
                       end))) []))
        (set_guardrails g s)
  end.

(** [release_concurrency] of the shared guardrails. *)
Definition release (token : ConcurrencyToken) : HTTP unit := λ s,
  (set_guardrails (release_concurrency token (st_guardrails s)) s, Value tt).

(** [_to_actor_metadata] *)
Definition _to_actor_metadata (context : auth_context) (operation : string) : payload :=
  let entry k o := match o with
                   | Some t => if decide (t = "") then [] else [(k, PStr t)]
                   | None => []
                   end in
  [("actor_id", PStr (cx_actor_id context)); ("owner_actor_id", PStr (cx_actor_id context));
   ("actor_scopes", PList (PStr <$> sorted_set (cx_scopes context)));
   ("operation", PStr operation); ("auth_subject", PStr (cx_auth_subject context))] ++
  entry "policy_profile" (cx_policy_profile context) ++ entry "policy_template" (cx_template context) ++
  (if cx_local_dev_auth context then [("local_dev_auth", PBool true)] else []).

(** Whether the owner recorded for a run lets the actor in. *)
Definition access_granted (metadata : payload) (context : auth_context) (allow_any_scope : string) : bool :=
  let owner_actor_id := get_or metadata "owner_actor_id" "actor_id" in
  negb (py_truthy owner_actor_id) || py_eqb (PStr (cx_actor_id context)) owner_actor_id ||
  has_scope context allow_any_scope.

(** [_check_run_access] *)
Definition _check_run_access (run_id : string) (context : auth_context) (allow_any_scope : string)
  : HTTP unit :=
  actor_metadata ← on_manager (get_run_actor_metadata run_id);
  answer_if (negb (access_granted actor_metadata context allow_any_scope))
    (error 403 "forbidden" ("Actor '" +:+ cx_actor_id context +:+ "' is not allowed to access run '"
       +:+ run_id +:+ "'.")).

(** *** Bodies *)

(** The loop of [_read_json_body], with what has been read. *)
Fixpoint read_chunks (messages : list asgi_message) (raw_body : string) (total_bytes : Z) : HTTP string :=
  match messages with
  | [] => λ s, (s, Waiting)
  | NotAMessage :: _ => answer (error 400 "validation_error" "Invalid ASGI request body message.")
  | Message None _ :: _ => answer (error 400 "validation_error" "Invalid request body chunk.")
  | Message (Some body) more_body :: messages =>
      let total_bytes := (total_bytes + Z.of_nat (String.length body))%Z in
      answer_if (max_request_body_bytes config <? total_bytes)%Z
        (_error 413 "request_body_too_large"
           ("Request body exceeds " +:+ pretty (max_request_body_bytes config) +:+ " bytes.")
           (Some (PDict [("max_request_body_bytes", PInt (max_request_body_bytes config))])) []);;
      if more_body then read_chunks messages (raw_body +:+ body) total_bytes
      else mret (raw_body +:+ body)
  end.

(** What decoding the body may raise that the handler catches. *)
Definition decode_error (e : exn) : bool :=
  bool_decide (exn_cls e = OtherError "UnicodeDecodeError") ||
  bool_decide (exn_cls e = OtherError "JSONDecodeError").

(** [_read_json_body] *)
Definition _read_json_body (messages : list asgi_message) (required : bool) : HTTP payload :=
  raw_body ← read_chunks messages "" 0;
  if decide (raw_body = "") then
    if required then answer (error 400 "validation_error" "Request body is required.") else mret []
  else
    match json_loads raw_body with
    | Ok (PDict payload) => mret payload
    | Ok _ => answer (error 400 "validation_error" "Request body must be a JSON object.")
    | Raise e =>
        if decode_error e then answer (error 400 "validation_error" "Request body must be valid JSON.")
        else λ s, (s, Failed e)
    end.

(** *** Runs *)

(** What the handlers ask of the executor: run a macro, or resume a run, with
    the caller's metadata.  [None] is a run that does not come to an end. *)
Context (execute_macro : BatchedMacroRequest → payload → state_manager S →
           option (state_manager S * result payload)).
Context (resume_run : string → list (string * pyval) → payload → state_manager S →
           option (state_manager S * result payload)).

(** [await] of a run. *)
Definition await (run : state_manager S → option (state_manager S * result payload))
  : HTTP (result payload) := λ s,
  match run (st_manager s) with
  | Some (x, r) =>
      ({| st_manager := x; st_guardrails := st_guardrails s; guardrail_counters := guardrail_counters s |},
       Value r)
  | None => (s, Waiting)
  end.

(** The entries both handlers answer with. *)
Definition pointer_entries (result : payload) : payload :=
  [("pointer_id", default PNone (dict_get result "pointer_id"));
   ("summary", default (PStr "") (dict_get result "summary"));
   ("metadata", default PNone (dict_get result "metadata"))].
Definition stamp (e : request_env) : payload :=
  [("request_id", PStr (rq_id e)); ("timestamp_utc", PStr (rq_timestamp e))].

(** *** [_handle_execute_macro] *)

(** Up to the first [await]. *)
Definition admit_execute (e : request_env) (headers : list (string * string)) : HTTP auth_context :=
  context ← _require_auth headers SCOPE_RUNS_EXECUTE;
  _enforce_rate_limit e RUNTIME_OPERATION_MACRO_EXECUTE context;;
  mret context.

(** From the body to the run. *)
Definition accept_execute (messages : list asgi_message) : HTTP (ConcurrencyToken * BatchedMacroRequest) :=
  payload ← _read_json_body messages true;
  let macro_payload := default PNone (dict_get payload "macro") in
  answer_if (bool_decide (macro_payload = PNone))
    (error 400 "validation_error" "Field 'macro' is required.");;
  macro ← match rt_load_macro macro_payload with
          | Ok m => mret m
          | Raise exc =>
              if decide (exn_cls exc = ValidationError) then
                answer (_error 400 "validation_error" "Invalid macro payload."
                          (Some (PDict [("errors", validation_errors exc)])) [])
              else λ s, (s, Failed exc)
          end;
  token ← _acquire_concurrency RUNTIME_OPERATION_MACRO_EXECUTE None;
  mret (token, macro).

(** [if not result or "pointer_id" not in result] *)
Definition no_pointer (result : payload) : bool := is_None (dict_get result "pointer_id").

(** From the run's result to the answer. *)
Definition reply_execute (e : request_env) (result : result payload) : HTTP payload :=
  match result with
  | Raise exc => answer (error 500 "execution_error" ("Macro execution failed: " +:+ exn_str exc))
  | Ok result =>
      answer_if (no_pointer result)
        (error 500 "execution_error" "Macro execution did not return a pointer response.");;
      mret (stamp e ++ pointer_entries result)
  end.

Definition _handle_execute_macro (e : request_env) (headers : list (string * string))
    (messages : list asgi_message) : HTTP payload :=
  context ← admit_execute e headers;
  '(token, macro) ← accept_execute messages;
  result ← await (execute_macro macro (_to_actor_metadata context "execute"));
  release token;;
  reply_execute e result.

(** *** [_handle_resume_run] *)

Definition admit_resume (e : request_env) (run_id : string) (headers : list (string * string))
  : HTTP auth_context :=
  context ← _require_auth headers SCOPE_RUNS_RESUME;
  _enforce_rate_limit e RUNTIME_OPERATION_RUN_RESUME context;;
  answer_if (bool_decide (run_id = "")) (error 400 "validation_error" "run_id is required.");;
  _check_run_access run_id context SCOPE_RUNS_RESUME_ANY;;
  mret context.

Definition accept_resume (run_id : string) (messages : list asgi_message)
  : HTTP (ConcurrencyToken * list (string * pyval)) :=
  payload ← _read_json_body messages false;
  approvals ← match default PNone (dict_get payload "approvals") with
              | PNone => mret []
              | PDict approvals => mret approvals
              | _ => answer (error 400 "validation_error" "Field 'approvals' must be a JSON object.")
              end;
  token ← _acquire_concurrency RUNTIME_OPERATION_RUN_RESUME (Some run_id);
  mret (token, approvals).

Definition reply_resume (e : request_env) (run_id : string) (result : result payload) : HTTP payload :=
  match result with
  | Raise exc =>
      if decide (exn_cls exc = KeyError) then
        answer (error 404 "not_found" ("Execution checkpoint for run '" +:+ run_id +:+ "' not found."))
      else if is_value_error (exn_cls exc) then answer (error 400 "validation_error" (exn_str exc))
      else answer (error 500 "execution_error" ("Run resume failed: " +:+ exn_str exc))
  | Ok result =>
      answer_if (no_pointer result)
        (error 500 "execution_error" "Run resume did not return a pointer response.");;
      mret (stamp e ++ ("run_id", PStr run_id) :: pointer_entries result)
  end.

Definition _handle_resume_run (e : request_env) (run_id : string) (headers : list (string * string))
    (messages : list asgi_message) : HTTP payload :=
  context ← admit_resume e run_id headers;
  '(token, approvals) ← accept_resume run_id messages;
  result ← await (resume_run run_id approvals (_to_actor_metadata context "resume"));
  release token;;
  reply_resume e run_id result.

(** *** Reads *)

(** The dictionary [get_execution_summary] returns. *)
Definition summary_value (run_id : string) (row : summary_row) : pyval :=
  PDict [("run_id", PStr run_id);
         ("started_at_utc", PStr (isoformat (sr_started_at_utc row)));
         ("completed_at_utc", PStr (isoformat (sr_completed_at_utc row)));
         ("total_steps", PInt (total_steps row)); ("succeeded_steps", PInt (succeeded_steps row));
         ("failed_steps", PInt (failed_steps row)); ("total_duration_ms", PFloat (total_duration_ms row));
         ("final_pointer_id", opt_text (sr_final_pointer_id row))].

Definition _handle_get_run (e : request_env) (run_id : string) (headers : list (string * string))
  : HTTP payload :=
  context ← _require_auth headers SCOPE_RUNS_READ;
  _enforce_rate_limit e RUNTIME_OPERATION_RUN_READ context;;
  answer_if (bool_decide (run_id = "")) (error 400 "validation_error" "run_id is required.");;
  _check_run_access run_id context SCOPE_RUNS_READ_ANY;;
  summary ← (λ s, match on_manager (get_execution_summary run_id) s with
                  | (s, Failed exc) =>
                      (s, if decide (exn_cls exc = KeyError)
                          then Responded (error 404 "not_found"
                                 ("Execution summary for run '" +:+ run_id +:+ "' not found."))
                          else Failed exc)
                  | ok => ok
                  end);
  events ← on_manager (list_trace_events run_id);
  let trace_events := dump_event <$> events in
  actor_metadata ← on_manager (get_run_actor_metadata run_id);
  mret (stamp e ++
    [("run_id", PStr run_id);
     ("status", PStr (if (0 <? failed_steps summary)%Z then "failed" else "succeeded"));
     ("summary", summary_value run_id summary); ("actor_metadata", PDict actor_metadata);
     ("trace_event_count", PInt (Z.of_nat (length trace_events)));
     ("trace_events", PList trace_events)]).

Definition pointer_value (item : listing) : pyval :=
  PDict [("pointer_id", PStr (ls_pointer_id item)); ("summary", PStr (ls_summary item));
         ("metadata", ls_metadata item); ("created_at_utc", PStr (isoformat (ls_created_at_utc item)));
         ("ttl_seconds", opt_value PInt (ls_ttl_seconds item));
         ("expires_at_utc", opt_value (λ t, PStr (isoformat t)) (ls_expires_at_utc item));
         ("is_expired", PBool (ls_is_expired item))].

(** The run a pointer's metadata names, when it names one. *)
Definition pointer_run (item : listing) : option string :=
  match py_get (ls_metadata item) "execution_run_id" with
  | Some (PStr run_id) => non_blank run_id
  | _ => None
  end.

Definition _handle_get_pointer_summary (e : request_env) (pointer_id : string)
    (headers : list (string * string)) : HTTP payload :=
  context ← _require_auth headers SCOPE_POINTERS_READ;
  _enforce_rate_limit e RUNTIME_OPERATION_POINTER_SUMMARY context;;
  answer_if (bool_decide (pointer_id = "")) (error 400 "validation_error" "pointer_id is required.");;
  listed ← on_manager (sm_list_pointers true (rq_now e) None);
  match List.find (λ item, bool_decide (ls_pointer_id item = pointer_id)) listed with
  | None => answer (error 404 "not_found" ("Pointer '" +:+ pointer_id +:+ "' not found."))
  | Some pointer =>
      match pointer_run pointer with
      | Some run_id =>
          if has_scope context SCOPE_POINTERS_READ_ANY then mret tt
          else _check_run_access run_id context SCOPE_RUNS_READ_ANY
      | None => mret tt
      end;;
      mret (stamp e ++ [("pointer", pointer_value pointer)])
  end.

(** *** Routing *)

(** [_dispatch] *)
Definition _dispatch (e : request_env) (method path : string) (headers : list (string * string))
    (messages : list asgi_message) : HTTP payload :=
  if bool_decide (method = "POST") && bool_decide (path = "/v1/eap/macro/execute") then
    _handle_execute_macro e headers messages
  else if bool_decide (method = "POST") && py_startswith path "/v1/eap/runs/" && py_endswith path "/resume" then
    _handle_resume_run e (py_strip (between "/v1/eap/runs/" "/resume" path)) headers messages
  else if bool_decide (method = "GET") && py_startswith path "/v1/eap/runs/" then
    _handle_get_run e (py_strip (after "/v1/eap/runs/" path)) headers
  else if bool_decide (method = "GET") && py_startswith path "/v1/eap/pointers/" && py_endswith path "/summary" then
    _handle_get_pointer_summary e (py_strip (between "/v1/eap/pointers/" "/summary" path)) headers
  else answer (error 404 "not_found" ("Path '" +:+ path +:+ "' is not registered.")).

(** The path [__call__] dispatches on. *)
Definition request_path (scope : asgi_scope) : string :=
  (py_partition "?"%char (unquote (sc_path scope))).1.

(** [__call__]: what is sent, unless the handler is still waiting. *)
Definition asgi_call (e : request_env) (scope : asgi_scope) (messages : list asgi_message)
    (s : runtime_state S) : runtime_state S * option response :=
  if decide (sc_type scope ≠ "http") then
    (s, Some (error 500 "server_error" "Unsupported ASGI scope type."))
  else
    match _dispatch e (py_upper (sc_method scope)) (request_path scope) (_headers_from_scope scope)
            messages s with
    | (s, Value payload) => (s, Some {| status_code := 200; rs_payload := payload; rs_headers := [] |})
    | (s, Responded r) => (s, Some r)
    | (s, Failed exc) =>
        (s, Some (error 500 "server_error" ("Runtime request failed: " +:+ exn_str exc)))
    | (s, Waiting) => (s, None)
    end.

(** [_send_json]: the status line's code, the headers and the body. *)
Definition _send_json (r : response) : Z * list (string * string) * string :=
  let encoded := json_dumps_sorted rt_float_repr (PDict (rs_payload r)) in
  (status_code r,
   [("content-type", "application/json"); ("content-length", pretty (String.length encoded))] ++
   ((λ kv, (py_lower kv.1, kv.2)) <$> rs_headers r),
   encoded).
End app.
