(* ===== verification/HttpApiProofs.v ===== *)
(** What the HTTP surface guarantees: nothing happens without the endpoint's
    scope, runs are private to their owners, bodies are bounded however they
    are chunked, and the requests in flight are accounted for. *)
From stdpp Require Import options.
From S2P Require Import Prelude Values Json Text SafeEval ToolRegistry Guardrails Policy PointerStore StateManager Models Executor ExecutorSamples HttpApi.
Unset Default Proof Using.

(** ** The handlers' monad *)
Section monad.
Context {S : Type}.
Implicit Types s : runtime_state S.

Lemma http_bind_Value {A B} (m : http S A) (f : A → http S B) s s1 a :
  m s = (s1, Value a) → (m ≫= f) s = f a s1.
Proof. intros E. unfold mbind, http_bind. by rewrite E. Qed.

Lemma http_bind_Responded {A B} (m : http S A) (f : A → http S B) s s1 r :
  m s = (s1, Responded r) → (m ≫= f) s = (s1, Responded r).
Proof. intros E. unfold mbind, http_bind. by rewrite E. Qed.

(** What a part of a handler ensures, of its state and its outcome. *)
Definition hoare {A} (m : http S A) (Q : runtime_state S → outcome A → Prop) (s : runtime_state S) : Prop :=
  Q (m s).1 (m s).2.

Lemma hoare_bind {A B} (m : http S A) (f : A → http S B) Q s :
  hoare m (λ s1 o, match o with
                   | Value a => hoare (f a) Q s1
                   | Responded r => Q s1 (Responded r)
                   | Failed e => Q s1 (Failed e)
                   | Waiting => Q s1 Waiting
                   end) s → hoare (m ≫= f) Q s.
Proof. unfold hoare, mbind, http_bind. by destruct (m s) as [s1 [a|r|e|]]. Qed.

Lemma hoare_ret {A} (a : A) (Q : runtime_state S → outcome A → Prop) s :
  Q s (Value a) → hoare (mret a) Q s.
Proof. done. Qed.

Lemma hoare_answer_if b r (Q : runtime_state S → outcome unit → Prop) s :
  (b = true → Q s (Responded r)) → (b = false → Q s (Value tt)) → hoare (answer_if b r) Q s.
Proof. intros. unfold answer_if. destruct b; unfold hoare; simpl; auto. Qed.

Lemma hoare_mono {A} (m : http S A) (P Q : runtime_state S → outcome A → Prop) s :
  hoare m P s → (∀ s1 o, P s1 o → Q s1 o) → hoare m Q s.
Proof. unfold hoare. auto. Qed.

Lemma hoare_eq {A} (m : http S A) Q s s1 o : hoare m Q s → m s = (s1, o) → Q s1 o.
Proof. unfold hoare. intros HQ E. by rewrite E in HQ. Qed.
End monad.

(** One step of a [hoare] goal. *)
Ltac http_step :=
  lazymatch goal with
  | |- hoare (_ ≫= _) _ _ => apply hoare_bind
  | |- hoare (mret _) _ _ => apply hoare_ret
  | |- hoare (answer _) _ _ => unfold hoare; cbn [answer fst snd]
  | |- hoare (answer_if _ _) _ _ => apply hoare_answer_if; [intros _|intros ?]
  | |- hoare (if ?b then _ else _) _ _ => destruct b
  end.

(** ** Parts of handlers *)
Section parts.
Context {S : Type}.
Implicit Types s : runtime_state S.

(** A handler's part that keeps to [R] and answers early only with one of the
    statuses [l]. *)
Definition conforms (R : relation (runtime_state S)) (l : list Z) {A} (m : http S A) : Prop := ∀ s,
  hoare m (λ s1 o, R s s1 ∧ ∀ r, o = Responded r → status_code r ∈ l) s.

(** The part leaves the state manager alone. *)
Definition same_manager : relation (runtime_state S) := λ s s1, st_manager s1 = st_manager s.
#[export] Instance same_manager_preorder : PreOrder same_manager.
Proof. split; [done|]. unfold same_manager. intros a b c. congruence. Qed.

Section conforms.
Context (R : relation (runtime_state S)) `{!PreOrder R} (l : list Z).

Lemma conforms_bind {A B} (m : http S A) (f : A → http S B) :
  conforms R l m → (∀ a, conforms R l (f a)) → conforms R l (m ≫= f).
Proof.
  intros Hm Hf s. http_step. eapply hoare_mono; [apply Hm|]. intros s1 [a|r|ex|] [E Hr]; try (split; [done|naive_solver]).
  eapply hoare_mono; [apply Hf|]. intros s2 o [E2 Ho]. split; [by etrans|done].
Qed.

Lemma conforms_ret {A} (a : A) : conforms R l (mret a).
Proof. intros s. by split. Qed.
Lemma conforms_answer {A} r : status_code r ∈ l → conforms R l (answer r : http S A).
Proof. intros Hr s. split; [done|]. by intros ? [= <-]. Qed.
Lemma conforms_answer_if b r : status_code r ∈ l → conforms R l (answer_if b r).
Proof. intros Hr. unfold answer_if. destruct b; [by apply conforms_answer|apply conforms_ret]. Qed.
Lemma conforms_failed {A} ex : conforms R l (λ s, (s, Failed ex) : runtime_state S * outcome A).
Proof. intros s. by split. Qed.
Lemma conforms_waiting {A} : conforms R l (λ s, (s, Waiting) : runtime_state S * outcome A).
Proof. intros s. by split. Qed.
Lemma conforms_weaken {A} (m : http S A) : subrelation same_manager R → conforms same_manager l m → conforms R l m.
Proof. intros Hsub Hm s. eapply hoare_mono; [apply Hm|]. intros s1 o [? ?]. split; [by apply Hsub|done]. Qed.
End conforms.

End parts.

(** One part of a handler at a time. *)
Ltac conform :=
  lazymatch goal with
  | |- conforms _ _ (_ ≫= _) => apply conforms_bind; [apply _| |intros ?]
  | |- conforms _ _ (mret _) => apply conforms_ret, _
  | |- conforms _ _ (answer _) => apply conforms_answer; [apply _|]; cbn [status_code error _error]
  | |- conforms _ _ (answer_if _ _) => apply conforms_answer_if; [apply _|]; cbn [status_code error _error]
  | |- conforms _ _ (λ s, (s, Failed _)) => apply conforms_failed, _
  | |- conforms _ _ (λ s, (s, Waiting)) => apply conforms_waiting, _
  | |- conforms _ _ (if ?b then _ else _) => destruct b
  end; try done.

(** ** Routing *)
Inductive endpoint :=
  | ExecuteMacro
  | ResumeRun (run_id : string)
  | GetRun (run_id : string)
  | GetPointer (pointer_id : string).

Definition route (method path : string) : option endpoint :=
  if bool_decide (method = "POST") && bool_decide (path = "/v1/eap/macro/execute") then Some ExecuteMacro
  else if bool_decide (method = "POST") && py_startswith path "/v1/eap/runs/" && py_endswith path "/resume" then
    Some (ResumeRun (py_strip (between "/v1/eap/runs/" "/resume" path)))
  else if bool_decide (method = "GET") && py_startswith path "/v1/eap/runs/" then
    Some (GetRun (py_strip (after "/v1/eap/runs/" path)))
  else if bool_decide (method = "GET") && py_startswith path "/v1/eap/pointers/" && py_endswith path "/summary" then
    Some (GetPointer (py_strip (between "/v1/eap/pointers/" "/summary" path)))
  else None.

Definition required_scope (ep : endpoint) : string :=
  match ep with
  | ExecuteMacro => SCOPE_RUNS_EXECUTE
  | ResumeRun _ => SCOPE_RUNS_RESUME
  | GetRun _ => SCOPE_RUNS_READ
  | GetPointer _ => SCOPE_POINTERS_READ
  end.

Example route_examples :
  route "POST" "/v1/eap/macro/execute" = Some ExecuteMacro ∧
  route "POST" "/v1/eap/runs/r1/resume" = Some (ResumeRun "r1") ∧
  route "POST" "/v1/eap/runs/resume" = Some (ResumeRun "") ∧
  route "GET" "/v1/eap/runs/ r1" = Some (GetRun "r1") ∧
  route "GET" "/v1/eap/pointers/p/summary" = Some (GetPointer "p") ∧
  route "GET" "/v1/eap/macro/execute" = None.
Proof. split_and!; vm_compute; reflexivity. Qed.

(** ** The configuration *)

(** A scope that a token may have. *)
Definition known_scope (scope : string) : Prop := scope ∈ FULL_RUNTIME_SCOPES ∨ scope = "*".

(** A name that is there and carries no blanks around it. *)
Definition well_named (s : string) : Prop := s ≠ "" ∧ py_strip s = s.

Record entry_ok (e : token_entry) : Prop := {
  eo_actor : well_named (te_actor_id e);
  eo_subject : te_auth_subject e ≠ "";
  eo_scopes : te_scopes e ≠ [];
  eo_known : Forall known_scope (te_scopes e)
}.

Record server_ok (c : server_config) : Prop := {
  so_tokens token e : dict_get (scoped_bearer_tokens c) token = Some e → token ≠ "" ∧ entry_ok e;
  so_rules op : op ∈ RUNTIME_OPERATIONS → ∃ rule, dict_get (rate_limit_rules c) op = Some rule ∧
    validate_rule rule op = Ok tt;
  so_limits : validate_limits (concurrency_limits c) = Ok tt;
  so_body : (0 < max_request_body_bytes c)%Z
}.

Lemma sorted_set_not_nil (l : list string) : l ≠ [] → sorted_set (list_to_set l) ≠ [].
Proof.
  intros Hl Hn. destruct l as [|x l]; [done|].
  assert (x ∈ sorted_set (list_to_set (x :: l))) as Hx by (rewrite elem_of_sorted_set; set_solver).
  rewrite Hn in Hx. by apply elem_of_nil in Hx.
Qed.

Lemma normalize_token_ok float_repr normalized item :
  (∀ token e, dict_get normalized token = Some e → token ≠ "" ∧ entry_ok e) →
  ∀ token e, dict_get (normalize_token float_repr normalized item) token = Some e → token ≠ "" ∧ entry_ok e.
Proof.
  intros IH token e. unfold normalize_token. destruct item as [raw [| | | | | |raw_policy]]; try apply IH.
  cbv zeta. cbn [fst snd]. set (field := λ k : string, py_strip (py_str float_repr (default (PStr "") (dict_get raw_policy k)))).
  change (py_strip (py_str float_repr (default (PStr "") (dict_get raw_policy ?k)))) with (field k).
  set (scopes := entry_scopes _ _).
  destruct (decide (py_strip raw = "")) as [|Ht]; [apply IH|].
  destruct (decide (field "actor_id" = "")) as [|Ha]; [apply IH|].
  destruct (is_nil scopes) eqn:Hsc; [apply IH|].
  rewrite dict_get_set. case_decide as Heq; [|apply IH]. intros [= <-]. split; [congruence|].
  constructor; cbn [te_actor_id te_auth_subject te_scopes].
  - split; [done|apply py_strip_idemp].
  - by case_decide.
  - apply sorted_set_not_nil. by destruct scopes.
  - apply Forall_forall. intros x. rewrite elem_of_sorted_set, elem_of_list_to_set.
    subst scopes. unfold entry_scopes. by intros [Hx _]%list_elem_of_filter.
Qed.

Lemma normalized_tokens_ok float_repr scoped token e :
  dict_get (_normalize_scoped_bearer_tokens float_repr scoped) token = Some e → token ≠ "" ∧ entry_ok e.
Proof.
  unfold _normalize_scoped_bearer_tokens.
  assert (∀ acc, (∀ token e, dict_get acc token = Some e → token ≠ "" ∧ entry_ok e) →
    dict_get (foldl (normalize_token float_repr) acc scoped) token = Some e → token ≠ "" ∧ entry_ok e) as Hfold;
    [|by apply Hfold].
  induction scoped as [|item scoped IH]; intros acc Hacc; simpl; [apply Hacc|].
  apply IH, normalize_token_ok, Hacc.
Qed.

Lemma normalized_rules_ok float_of_str raw rules op :
  normalize_rate_limit_rules float_of_str raw = Ok rules → op ∈ RUNTIME_OPERATIONS →
  ∃ rule, dict_get rules op = Some rule ∧ validate_rule rule op = Ok tt.
Proof.
  intros Hr Hop. revert Hr. unfold normalize_rate_limit_rules.
  apply (fold_result_Ok_inv (λ rules, ∃ rule, dict_get rules op = Some rule ∧ validate_rule rule op = Ok tt)).
  - unfold RUNTIME_OPERATIONS in Hop. set_unfold in Hop.
    destruct Hop as [->|[->|[->|[->|[]]]]]; eexists; split; by vm_compute.
  - intros acc [operation raw_rule] acc' _ (rule & Hrule & Hval) Hx. inv_result.
    rewrite dict_get_set. case_decide as Heq; [|by eauto]. subst op. eexists. split; [done|].
    by match goal with u : unit |- _ => destruct u end.
Qed.

Lemma normalized_limits_ok raw limits :
  normalize_concurrency_limits raw = Ok limits → validate_limits limits = Ok tt.
Proof.
  unfold normalize_concurrency_limits. destruct (negb (py_truthy raw)); [by intros [= <-]|].
  intros. inv_result. by match goal with u : unit |- _ => destruct u end.
Qed.

Lemma new_server_ok float_repr float_of_str host port required scoped rates limits max dev c :
  new_server float_repr float_of_str host port required scoped rates limits max dev = Ok c →
  server_ok c ∧ (0 <= port <= 65535)%Z ∧ required_bearer_token c = required ∧
  (allow_unauthenticated_local_dev c = true → _is_loopback_host host = true).
Proof.
  unfold new_server. intros. inv_result. split_and!; [|lia|lia|done|].
  - constructor; simpl; [|by intros; eapply normalized_rules_ok|by eapply normalized_limits_ok|lia].
    intros. by eapply normalized_tokens_ok.
  - intros ->. simpl in *. by destruct (_is_loopback_host host).
Qed.

Section app.
Context {S : Type} `{PointerStoreBackend S} {func : Type} `{Runtime func}.
Context (config : server_config).
Context (json_loads : string → result pyval) (validation_errors : exn → pyval).
Context (dump_event : ExecutionTraceEvent → pyval).
Context (execute_macro : BatchedMacroRequest → payload → state_manager S →
           option (state_manager S * result payload)).
Context (resume_run : string → list (string * pyval) → payload → state_manager S →
           option (state_manager S * result payload)).
Implicit Types s : runtime_state S.

Abbreviation dispatch := (_dispatch config json_loads validation_errors dump_event execute_macro resume_run).
Abbreviation call := (asgi_call config json_loads validation_errors dump_event execute_macro resume_run).
Abbreviation auth := (_resolve_auth_context config).

(** The handler of an endpoint. *)
Definition handle (e : request_env) (ep : endpoint) (headers : list (string * string))
    (messages : list asgi_message) : http S payload :=
  match ep with
  | ExecuteMacro => _handle_execute_macro config json_loads validation_errors execute_macro e headers messages
  | ResumeRun rid => _handle_resume_run config json_loads resume_run e rid headers messages
  | GetRun rid => _handle_get_run config dump_event e rid headers
  | GetPointer pid => _handle_get_pointer_summary config e pid headers
  end.

Lemma dispatch_route e method path headers messages :
  dispatch e method path headers messages =
  match route method path with
  | Some ep => handle e ep headers messages
  | None => answer (error 404 "not_found" ("Path '" +:+ path +:+ "' is not registered."))
  end.
Proof. unfold _dispatch, route. by repeat case_match. Qed.

(** Every handler begins with the check of its own scope. *)
Lemma handle_auth e ep headers messages s :
  match auth headers with
  | None => handle e ep headers messages s =
              (s, Responded (error 401 "unauthorized" "Missing or invalid bearer token."))
  | Some context => has_scope context (required_scope ep) = false →
      handle e ep headers messages s =
        (s, Responded (error 403 "forbidden" ("Missing required scope '" +:+ required_scope ep +:+ "'.")))
  end.
Proof.
  assert (∀ A (f : auth_context → http S A) scope,
    match auth headers with
    | None => (_require_auth config headers scope ≫= f) s =
                (s, Responded (error 401 "unauthorized" "Missing or invalid bearer token."))
    | Some context => has_scope context scope = false → (_require_auth config headers scope ≫= f) s =
        (s, Responded (error 403 "forbidden" ("Missing required scope '" +:+ scope +:+ "'.")))
    end) as Hreq.
  { intros A f scope. unfold _require_auth. destruct (auth headers) as [context|]; [|done].
    intros Hs. apply http_bind_Responded. by rewrite Hs. }
  assert (∀ A B (m : http S A) (f : A → http S B), (∀ r, m s = (s, Responded r) → (m ≫= f) s = (s, Responded r)))
    as Hbind by (intros; by apply http_bind_Responded).
  destruct ep as [|rid|rid|pid]; unfold handle;
    [unfold _handle_execute_macro, admit_execute|unfold _handle_resume_run, admit_resume| |];
    [| |exact (Hreq _ _ SCOPE_RUNS_READ)|exact (Hreq _ _ SCOPE_POINTERS_READ)];
    match goal with |- context [_require_auth config headers ?scope ≫= ?f] =>
      pose proof (Hreq _ f scope) as Hr end;
    (destruct (auth headers) as [context|]; [intros Hs; specialize (Hr Hs)|]; by apply Hbind).
Qed.

(** C17: a request is answered by its endpoint's handler only after its bearer
    token gave it the endpoint's scope (or the wildcard): without a valid token
    the answer is 401, without the scope 403, on an unknown path 404, and in
    none of these cases has anything changed, rate limits included. *)
Theorem requests_authorised e scope messages s s' r :
  sc_type scope = "http" → call e scope messages s = (s', Some r) →
  match route (py_upper (sc_method scope)) (request_path scope) with
  | None => s' = s ∧ status_code r = 404%Z
  | Some ep =>
      match auth (_headers_from_scope scope) with
      | None => s' = s ∧ status_code r = 401%Z
      | Some context => has_scope context (required_scope ep) = false → s' = s ∧ status_code r = 403%Z
      end
  end.
Proof.
  intros Ht. unfold asgi_call. rewrite decide_False by (by intros []). rewrite dispatch_route.
  destruct (route _ _) as [ep|]; [|by intros [= <- <-]].
  pose proof (handle_auth e ep (_headers_from_scope scope) messages s) as Ha.
  destruct (auth _) as [context|]; [intros Hc Hs; specialize (Ha Hs)|intros Hc];
    rewrite Ha in Hc; by injection Hc as <- <-.
Qed.

(** ** Bodies *)

(** A body in pieces, as the ASGI server delivers it. *)
Fixpoint chunked (bodies : list string) : list asgi_message :=
  match bodies with
  | [] => []
  | [body] => [Message (Some body) false]
  | body :: bodies => Message (Some body) true :: chunked bodies
  end.

Definition too_large : response :=
  _error 413 "request_body_too_large"
    ("Request body exceeds " +:+ pretty (max_request_body_bytes config) +:+ " bytes.")
    (Some (PDict [("max_request_body_bytes", PInt (max_request_body_bytes config))])) [].

Lemma read_chunked bodies : ∀ rest acc total s, bodies ≠ [] →
  read_chunks config (chunked bodies ++ rest) acc total s =
  (s, if (max_request_body_bytes config <? total + Z.of_nat (String.length (String.concat "" bodies)))%Z
      then Responded too_large else Value (acc +:+ String.concat "" bodies)).
Proof.
  induction bodies as [|body bodies IH]; intros rest acc total s Hne; [done|].
  destruct bodies as [|body2 bodies].
  - simpl. destruct (_ <? _)%Z; [|done]. by apply http_bind_Responded.
  - assert (chunked (body :: body2 :: bodies) ++ rest =
      Message (Some body) true :: chunked (body2 :: bodies) ++ rest) as -> by done.
    assert (String.concat "" (body :: body2 :: bodies) = body +:+ String.concat "" (body2 :: bodies)) as -> by done.
    cbn [read_chunks]. rewrite str_length_app. unfold answer_if.
    destruct (Z.ltb_spec (max_request_body_bytes config) (total + Z.of_nat (String.length body))) as [Hlt|Hle].
    + rewrite (proj2 (Z.ltb_lt _ _)) by lia. by apply http_bind_Responded.
    + rewrite (http_bind_Value _ _ _ s tt) by done. rewrite IH by done. rewrite str_app_assoc.
      by replace (total + Z.of_nat (String.length body) + Z.of_nat (String.length (String.concat "" (body2 :: bodies))))%Z
        with (total + Z.of_nat (String.length body + String.length (String.concat "" (body2 :: bodies))))%Z by lia.
Qed.

(** How a body is cut into messages, and what comes after it, does not
    matter: it is read as if it had come in one piece; a body longer than
    [max_request_body_bytes] is refused with 413 and never parsed, a shorter
    one is what the JSON parser is given, and reading changes nothing. *)
Theorem bodies_bounded bodies rest required s :
  bodies ≠ [] →
  let body := String.concat "" bodies in
  _read_json_body config json_loads (chunked bodies ++ rest) required s =
  (s, if (max_request_body_bytes config <? Z.of_nat (String.length body))%Z then Responded too_large
      else if decide (body = "") then
        if required then Responded (error 400 "validation_error" "Request body is required.") else Value []
      else match json_loads body with
           | Ok (PDict payload) => Value payload
           | Ok _ => Responded (error 400 "validation_error" "Request body must be a JSON object.")
           | Raise e => if decode_error e
                        then Responded (error 400 "validation_error" "Request body must be valid JSON.")
                        else Failed e
           end).
Proof.
  intros Hne body. unfold _read_json_body, mbind, http_bind.
  rewrite read_chunked by done. change (0 + ?n)%Z with n. change ("" +:+ ?t) with t. fold body.
  destruct (_ <? _)%Z; [done|].
  destruct (decide (body = "")); [by destruct required|].
  destruct (json_loads body) as [[]|ex]; try done. by destruct (decode_error ex).
Qed.

(** ** Who gets in *)

Definition required_token : string := default "" (required_bearer_token config).

(** Where an accepted request's context comes from. *)
Lemma auth_cases headers context :
  auth headers = Some context →
  (allow_unauthenticated_local_dev config = true ∧ required_token = "" ∧ scoped_bearer_tokens config = [] ∧
   well_named (cx_actor_id context) ∧ cx_scopes context = FULL_RUNTIME_SCOPES) ∨
  ∃ token, _parse_bearer_token headers = Some token ∧
    ((∃ e, dict_get (scoped_bearer_tokens config) token = Some e ∧
       cx_actor_id context = te_actor_id e ∧ cx_scopes context = list_to_set (te_scopes e)) ∨
     (required_token ≠ "" ∧ token = required_token ∧
      well_named (cx_actor_id context) ∧ cx_scopes context = FULL_RUNTIME_SCOPES)).
Proof.
  unfold _resolve_auth_context. fold required_token. destruct (_ && _ && _) eqn:Hdev.
  - apply andb_true_iff in Hdev as [[Hd Hr%bool_decide_eq_true]%andb_true_iff Ht].
    intros [= <-]. left. split_and!; try done. by destruct (scoped_bearer_tokens config).
  - destruct (_parse_bearer_token headers) as [token|]; cbn [mbind option_bind]; [|done].
    intros Hc. right. exists token. split; [done|].
    destruct (dict_get _ token) as [e|]; [injection Hc as <-; left; by exists e|right].
    destruct (bool_decide (required_token ≠ "")) eqn:Hr; [|done].
    destruct (bool_decide (token = required_token)) eqn:Ht; [|done]. injection Hc as <-.
    apply bool_decide_eq_true in Hr, Ht. by split_and!.
Qed.

Lemma full_scopes_known : FULL_RUNTIME_SCOPES ≠ ∅ ∧ set_Forall known_scope FULL_RUNTIME_SCOPES.
Proof.
  split; [|intros x Hx; by left]. intros Hn.
  assert (SCOPE_RUNS_READ ∈ FULL_RUNTIME_SCOPES) as Hx by (unfold FULL_RUNTIME_SCOPES; set_solver).
  rewrite Hn in Hx. by apply not_elem_of_empty in Hx.
Qed.

(** A server is only configured with known scopes, named actors, limits
    that can be met and a rate limit for every operation; a request it accepts
    carries a configured token (or the required one), and one without a token
    is accepted only on a loopback host when no token is configured at all. *)
Theorem server_configured float_repr float_of_str host port required scoped rates limits max dev :
  new_server float_repr float_of_str host port required scoped rates limits max dev = Ok config →
  server_ok config ∧ (0 <= port <= 65535)%Z ∧
  ∀ headers context, auth headers = Some context →
    cx_actor_id context ≠ "" ∧ cx_scopes context ≠ ∅ ∧ set_Forall known_scope (cx_scopes context) ∧
    ((∃ token, _parse_bearer_token headers = Some token ∧
       (is_Some (dict_get (scoped_bearer_tokens config) token) ∨ required = Some token)) ∨
     (_is_loopback_host host = true ∧ default "" required = "" ∧ scoped_bearer_tokens config = [])).
Proof.
  intros Hnew. destruct (new_server_ok _ _ _ _ _ _ _ _ _ _ _ Hnew) as (Hok & Hport & Hreq & Hloop).
  destruct full_scopes_known as [Hne Hknown], Hport as [Hp1 Hp2]. split_and!; [done..|].
  intros headers context [(Hd & Hr & Ht & [Ha _] & ->)|(token & Htok & [(e & He & -> & ->)|(Hr & -> & [Ha _] & ->)])]%auth_cases.
  - unfold required_token in Hr. rewrite Hreq in Hr. split_and!; [done..|right]. auto.
  - destruct (so_tokens _ Hok token e He) as [_ [[H1 _] _ H3 H4]]. split_and!; [done| | |].
    + destruct (te_scopes e) as [|x l]; [done|]. intros Hn. apply (not_elem_of_empty (C := gset string) x).
      rewrite <- Hn. apply elem_of_list_to_set. left.
    + intros x Hx. rewrite elem_of_list_to_set in Hx. by eapply Forall_forall in H4.
    + left. exists token. eauto.
  - split_and!; [done..|left]. exists required_token. split; [done|right].
    unfold required_token in *. rewrite Hreq in *. by destruct required.
Qed.

(** ** Whose run it is *)

Abbreviation quiet := (conforms (same_manager (S := S))).

Lemma check_rate_Ok rules now op actor rule (g : guardrails) :
  dict_get rules op = Some rule → validate_rule rule op = Ok tt →
  ∃ g' d, check_rate_limit rules now op actor g = (g', Ok d).
Proof.
  intros Hr Hv. unfold check_rate_limit. rewrite Hr. unfold validate_rule in Hv. inv_result.
  destruct (Z.leb_spec (max_requests rule) (Z.of_nat (length (drop_expired (now - window_seconds rule)
    (default [] (_requests g !! (op, actor))))))); [|by eexists _, _].
  destruct (drop_expired _ _); [simpl in *; lia|by eexists _, _].
Qed.

Lemma quiet_rate l e op context : 429%Z ∈ l → quiet l (_enforce_rate_limit config e op context).
Proof.
  intros Hl s. unfold hoare, _enforce_rate_limit.
  destruct (check_rate_limit _ _ _ _ _) as [g [d|ex]]; [|done]. destruct (rl_allowed d); [done|].
  split; [done|]. by intros ? [= <-].
Qed.

Lemma quiet_acquire l op run_id : 429%Z ∈ l → quiet l (_acquire_concurrency config op run_id).
Proof.
  intros Hl s. unfold hoare, _acquire_concurrency.
  destruct (acquire_concurrency _ _ _ _) as [g [d [t|]]]; [done|].
  split; [done|]. by intros ? [= <-].
Qed.

Lemma read_conforms (R : relation (runtime_state S)) `{!PreOrder R} l messages required :
  400%Z ∈ l → 413%Z ∈ l → conforms R l (_read_json_body config json_loads messages required).
Proof.
  intros Hl Hl'. unfold _read_json_body. conform.
  - generalize (""), 0%Z. induction messages as [|[|[body|] more] messages IH]; intros acc total;
      cbn [read_chunks]; repeat conform.
  - case_decide; repeat conform. destruct (json_loads _) as [[]|ex]; repeat conform.
Qed.

(** A read of the state manager. *)
Lemma on_manager_read {A} (m : stm (state_manager S) A) s r :
  m (st_manager s) = (st_manager s, r) →
  on_manager m s = (s, match r with Ok a => Value a | Raise ex => Failed ex end).
Proof. intros E. unfold on_manager. rewrite E. by destruct s. Qed.

Lemma list_pointers_read b now limit (m : state_manager S) :
  sm_list_pointers b now limit m = (m, list_pointers b now limit (pointer_store m)).
Proof. unfold sm_list_pointers, on_store. by destruct m. Qed.

Lemma check_access rid context any s :
  sm_closed (st_manager s) = false →
  _check_run_access rid context any s =
  (s, if access_granted (run_metadata (st_manager s) rid) context any then Value tt
      else Responded (error 403 "forbidden" ("Actor '" +:+ cx_actor_id context +:+
             "' is not allowed to access run '" +:+ rid +:+ "'."))).
Proof.
  intros Hc. unfold _check_run_access.
  unfold mbind, http_bind. rewrite (on_manager_read _ s (Ok (run_metadata (st_manager s) rid)))
    by (by apply get_run_actor_metadata_spec).
  by destruct (access_granted _ _ _).
Qed.

(** The run whose owner a request has to answer to, with the scope that lets
    anyone in. *)
Definition guarded_run (e : request_env) (ep : endpoint) (context : auth_context) (m : state_manager S)
  : option (string * string) :=
  match ep with
  | ExecuteMacro => None
  | ResumeRun rid => Some (rid, SCOPE_RUNS_RESUME_ANY)
  | GetRun rid => Some (rid, SCOPE_RUNS_READ_ANY)
  | GetPointer pid =>
      match list_pointers true (rq_now e) None (pointer_store m) with
      | Ok items =>
          item ← List.find (λ item, bool_decide (ls_pointer_id item = pid)) items;
          rid ← pointer_run item;
          if has_scope context SCOPE_POINTERS_READ_ANY then None else Some (rid, SCOPE_RUNS_READ_ANY)
      | Raise _ => None
      end
  end.

Definition endpoint_id (ep : endpoint) : string :=
  match ep with ExecuteMacro => "" | ResumeRun id | GetRun id | GetPointer id => id end.

Lemma require_granted headers scope context s :
  auth headers = Some context → has_scope context scope = true →
  _require_auth config headers scope s = (s, Value context).
Proof. intros Ha Hs. unfold _require_auth. rewrite Ha, Hs. done. Qed.

Lemma enforce_hoare e op context s :
  server_ok config → op ∈ RUNTIME_OPERATIONS →
  hoare (_enforce_rate_limit config e op context) (λ s1 o, st_manager s1 = st_manager s ∧
    (o = Value tt ∨ ∃ r, o = Responded r ∧ status_code r = 429%Z)) s.
Proof.
  intros Hok Hop. destruct (so_rules _ Hok op Hop) as (rule & Hrule & Hval).
  destruct (check_rate_Ok _ (rq_monotonic e) op (rate_actor context) rule (st_guardrails s) Hrule Hval) as (g & d & Hc).
  unfold hoare, _enforce_rate_limit. rewrite Hc. destruct (rl_allowed d); split; try done; [by left|right].
  by eexists.
Qed.

(** How a guarded request is settled: by the owner's check, after the rate
    limit. *)
Definition settled_by (granted : bool) (s s1 : runtime_state S) (o : outcome payload) : Prop :=
  (granted = false → st_manager s1 = st_manager s ∧ ∃ r, o = Responded r ∧ status_code r ∈ [403; 429]%Z) ∧
  (granted = true → ∀ r, o = Responded r → status_code r ∈ [400; 404; 413; 429; 500]%Z).

(** The common beginning of the guarded handlers. *)
Lemma guarded_beginning {A} e headers scope op context id r0 (m : auth_context → http S A)
    (Q : runtime_state S → outcome A → Prop) s :
  server_ok config → op ∈ RUNTIME_OPERATIONS → auth headers = Some context →
  has_scope context scope = true → id ≠ "" →
  (∀ s1 r, st_manager s1 = st_manager s → status_code r = 429%Z → Q s1 (Responded r)) →
  (∀ s1, st_manager s1 = st_manager s → hoare (m context) Q s1) →
  hoare (context ← _require_auth config headers scope;
         _enforce_rate_limit config e op context;;
         answer_if (bool_decide (id = "")) r0;; m context) Q s.
Proof.
  intros Hok Hop Ha Hs Hid Hr Hm. http_step. unfold hoare at 1. rewrite (require_granted _ _ _ _ Ha Hs). simpl.
  http_step. eapply hoare_mono; [by apply enforce_hoare|]. intros s1 o [E [->|(r & -> & Hst)]]; [|by apply Hr].
  rewrite bool_decide_eq_false_2 by done. http_step. simpl. by apply Hm.
Qed.

Lemma denied_settled {A} context rid any (f : unit → http S A) (Q : runtime_state S → outcome A → Prop) s s1 :
  sm_closed (st_manager s) = false → st_manager s1 = st_manager s →
  let granted := access_granted (run_metadata (st_manager s) rid) context any in
  (granted = false → ∀ r, status_code r = 403%Z → Q s1 (Responded r)) →
  (granted = true → hoare (f tt) Q s1) →
  hoare (_check_run_access rid context any ≫= f) Q s1.
Proof.
  intros Hc E granted Hd Hg. http_step. unfold hoare at 1. rewrite check_access by congruence. rewrite E.
  fold granted. destruct granted; simpl; auto.
Qed.

Lemma conforms_await l run : conforms (λ _ _ : runtime_state S, True) l (await run).
Proof. intros s. unfold hoare, await. by destruct (run _) as [[? ?]|]. Qed.

Lemma conforms_on_manager {A} l (m : stm (state_manager S) A) : conforms (λ _ _ : runtime_state S, True) l (on_manager m).
Proof. intros s. unfold hoare, on_manager. by destruct (m _) as [? []]. Qed.

Lemma no_relation : PreOrder (λ _ _ : runtime_state S, True).
Proof. by split. Qed.

Lemma handle_settled e ep headers messages context rid any s :
  server_ok config → sm_closed (st_manager s) = false → endpoint_id ep ≠ "" →
  auth headers = Some context → has_scope context (required_scope ep) = true →
  guarded_run e ep context (st_manager s) = Some (rid, any) →
  hoare (handle e ep headers messages)
    (settled_by (access_granted (run_metadata (st_manager s) rid) context any) s) s.
Proof.
  intros Hok Hc Hid Ha Hs Hg. pose proof no_relation as Hno.
  set (granted := access_granted _ _ _).
  assert (∀ l A (m : http S A), conforms (λ _ _ : runtime_state S, True) l m → ∀ s1,
    hoare m (λ _ o, ∀ r, o = Responded r → status_code r ∈ l) s1) as Hconf.
  { intros l A m Hm s1. eapply hoare_mono; [apply Hm|]. naive_solver. }
  assert (∀ s1 r, st_manager s1 = st_manager s → status_code r = 429%Z → settled_by granted s s1 (Responded r)) as H429.
  { intros s1 r E Hr. split; [intros _; split; [done|]; eexists; split; [done|]; rewrite Hr; set_solver|].
    intros _ ? [= <-]. rewrite Hr. set_solver. }
  assert (∀ s1 r, granted = false → st_manager s1 = st_manager s → status_code r = 403%Z →
    settled_by granted s s1 (Responded r)) as H403.
  { intros s1 r -> E Hr. split; [|done]. intros _. split; [done|]. eexists. split; [done|]. rewrite Hr. set_solver. }
  assert (∀ (m : http S payload) s1, granted = true → conforms (λ _ _ : runtime_state S, True) [400; 404; 413; 429; 500]%Z m →
    hoare m (settled_by granted s) s1) as Hrest.
  { intros m s1 Hgr Hm. eapply hoare_mono; [by apply (Hconf _ _ _ Hm)|]. intros s2 o Ho. split; [congruence|auto]. }
  destruct ep as [|id|id|id]; cbn [endpoint_id required_scope guarded_run handle] in *; [done|..].
  - injection Hg as -> <-. unfold _handle_resume_run. http_step. unfold admit_resume.
    eapply guarded_beginning; [done|by vm_compute; set_solver|done..|by eauto|].
    intros s1 E. eapply denied_settled; [done|done|auto|]. intros Hgr. http_step.
    apply Hrest; [done|]. unfold accept_resume, reply_resume. repeat conform.
    + apply read_conforms; [done|set_solver..].
    + destruct (default _ _); repeat conform; set_solver.
    + apply conforms_weaken; [by intros ? ? ?|apply quiet_acquire; set_solver].
    + destruct a as [token approvals]. repeat conform.
      * apply conforms_await.
      * destruct (_ : result payload) as [p|ex]; repeat conform; try set_solver; case_decide; repeat conform; set_solver.
  - injection Hg as -> <-. unfold _handle_get_run.
    eapply guarded_beginning; [done|by vm_compute; set_solver|done..|by eauto|].
    intros s1 E. eapply denied_settled; [done|done|auto|]. intros Hgr. apply Hrest; [done|]. repeat conform.
    + intros s2. unfold hoare, on_manager. destruct (get_execution_summary _ _) as [x [row|ex]]; [done|].
      simpl. case_decide; (split; [done|]); [|done]. intros ? [= <-]. simpl. set_solver.
    + apply conforms_on_manager.
    + apply conforms_on_manager.
  - unfold _handle_get_pointer_summary.
    eapply guarded_beginning; [done|by vm_compute; set_solver|done..|by eauto|].
    intros s1 E. destruct (list_pointers _ _ _ _) as [items|ex] eqn:Hl; [|done].
    http_step. unfold hoare at 1. rewrite (on_manager_read _ s1 (Ok items)) by (by rewrite list_pointers_read, E, Hl).
    simpl. destruct (List.find _ _) as [item|]; [|done]. simpl in Hg.
    destruct (pointer_run item) as [rid'|]; [|done]. simpl in Hg.
    destruct (has_scope context SCOPE_POINTERS_READ_ANY); [done|]. injection Hg as -> <-.
    eapply denied_settled; [done|done|auto|]. intros Hgr. apply Hrest; [done|]. repeat conform.
Qed.

(** What a guarded request comes to. *)
Lemma call_settled e scope ep context messages rid any s s' r :
  server_ok config → sm_closed (st_manager s) = false →
  sc_type scope = "http" → route (py_upper (sc_method scope)) (request_path scope) = Some ep →
  endpoint_id ep ≠ "" → auth (_headers_from_scope scope) = Some context →
  has_scope context (required_scope ep) = true →
  guarded_run e ep context (st_manager s) = Some (rid, any) →
  call e scope messages s = (s', Some r) →
  if access_granted (run_metadata (st_manager s) rid) context any
  then status_code r ≠ 401%Z ∧ status_code r ≠ 403%Z
  else st_manager s' = st_manager s ∧ status_code r ∈ [403; 429]%Z.
Proof.
  intros Hok Hc Ht Hroute Hid Ha Hs Hg. unfold asgi_call. rewrite decide_False by (by intros []).
  rewrite dispatch_route, Hroute.
  pose proof (handle_settled e ep (_headers_from_scope scope) messages context rid any s Hok Hc Hid Ha Hs Hg) as Hh.
  unfold hoare in Hh. destruct (handle _ _ _ _ s) as [s1 o]. simpl in Hh.
  destruct Hh as [H1 H2]. destruct (access_granted _ _ _).
  - specialize (H2 eq_refl). destruct o as [p|r1|ex|]; intros [= <- <-]; try done.
    specialize (H2 r1 eq_refl). clear -H2. set_unfold. lia.
  - destruct (H1 eq_refl) as (E & r1 & -> & Hst). by intros [= <- <-].
Qed.

(** C16: a run, and a pointer a run has stored, answers only to the actor that
    owns the run, to a caller whose scope covers every run, or to anyone when
    no owner is recorded: everyone else gets 403 (429 when over the rate
    limit), with no effect on the stored state; and whoever is let in is never
    refused for the want of rights. *)
Theorem runs_private e scope ep context messages rid any s s' r :
  server_ok config → sm_closed (st_manager s) = false →
  sc_type scope = "http" → route (py_upper (sc_method scope)) (request_path scope) = Some ep →
  endpoint_id ep ≠ "" → auth (_headers_from_scope scope) = Some context →
  has_scope context (required_scope ep) = true →
  guarded_run e ep context (st_manager s) = Some (rid, any) →
  call e scope messages s = (s', Some r) →
  let owner := get_or (run_metadata (st_manager s) rid) "owner_actor_id" "actor_id" in
  if negb (py_truthy owner) || py_eqb (PStr (cx_actor_id context)) owner || has_scope context any
  then status_code r ≠ 401%Z ∧ status_code r ≠ 403%Z
  else st_manager s' = st_manager s ∧ status_code r ∈ [403; 429]%Z.
Proof.
  intros Hok Hc Ht Hroute Hid Ha Hs Hg Hcall. cbv zeta.
  change (_ || _ || _) with (access_granted (run_metadata (st_manager s) rid) context any).
  by eapply call_settled.
Qed.
End app.

(** ** Concrete requests *)

Definition sample_tokens : list (string * pyval) :=
  [("tok-ada", PDict [("actor_id", PStr "ada"); ("scopes", PStr "runs:read, runs:resume")]);
   ("tok-bob", PDict [("actor_id", PStr "bob"); ("scopes", PList [PStr "runs:read"; PStr "bogus"])])].

Definition no_config : server_config :=
  {| required_bearer_token := None; scoped_bearer_tokens := []; rate_limit_rules := [];
     concurrency_limits := DEFAULT_CONCURRENCY_LIMITS; max_request_body_bytes := 1;
     allow_unauthenticated_local_dev := false |}.
Definition sample_new_server : result server_config :=
  new_server (λ _, "0.5") (λ _, None) "127.0.0.1" 8080 None sample_tokens [] PNone 64 false.
Definition sample_server : server_config :=
  match sample_new_server with Ok c => c | Raise _ => no_config end.

Lemma sample_server_ok : server_ok sample_server.
Proof.
  apply (new_server_ok (λ _, "0.5") (λ _, None) "127.0.0.1" 8080 None sample_tokens [] PNone 64 false sample_server).
  vm_compute. reflexivity.
Qed.

(** A run that belongs to [ada]. *)
Definition sample_row : checkpoint_row :=
  {| StateManager.started_at_utc := 0; updated_at_utc := 0; StateManager.status := "active";
     StateManager.macro_payload := PDict []; StateManager.step_status := PDict [];
     StateManager.branch_decisions := PDict []; StateManager.final_pointer_id := None;
     StateManager.actor_metadata := Some (PDict [("owner_actor_id", PStr "ada")]) |}.
Definition sample_manager : state_manager sqlite := set_checkpoints {["r1" := sample_row]} fresh_manager.
Definition sample_state : runtime_state sqlite :=
  {| st_manager := sample_manager; st_guardrails := initial_guardrails; guardrail_counters := ∅ |}.
Definition sample_request : request_env :=
  {| rq_id := "req_1"; rq_monotonic := 5; rq_now := 7; rq_timestamp := "now" |}.
Definition get_run_as (token : string) : asgi_scope :=
  {| sc_type := "http"; sc_method := "get"; sc_path := "/v1/eap/runs/r1";
     sc_headers := Some [Some ("Authorization", "Bearer " +:+ token)] |}.

(** A macro and a JSON text, as the third-party parsers would read them. *)
Definition sample_loads (body : string) : result pyval :=
  if decide (body = "{}") then Ok (PDict []) else Raise (Exn (OtherError "JSONDecodeError") "bad").
Definition sample_call (scope : asgi_scope) (messages : list asgi_message) (s : runtime_state sqlite) :=
  asgi_call sample_server sample_loads (λ _, PList []) (λ _, PNone) (λ _ _ _, None) (λ _ _ _ _, None)
    sample_request scope messages s.
Definition answered (x : runtime_state sqlite * option response) : response :=
  default (error 0 "" "") x.2.

(** Without a token, and with one of a stranger. *)
Lemma requests_authorised_witness :
  let x := sample_call (get_run_as "") [] sample_state in
  x.1 = sample_state ∧ status_code (answered x) = 401%Z.
Proof.
  exact (requests_authorised sample_server sample_loads (λ _, PList []) (λ _, PNone) (λ _ _ _, None) (λ _ _ _ _, None)
    sample_request (get_run_as "") [] sample_state
    (sample_call (get_run_as "") [] sample_state).1 (answered (sample_call (get_run_as "") [] sample_state))
    eq_refl eq_refl).
Defined.

Lemma runs_private_witness :
  let x := sample_call (get_run_as "tok-bob") [] sample_state in
  st_manager x.1 = sample_manager ∧ status_code (answered x) ∈ [403; 429]%Z.
Proof.
  refine (runs_private sample_server sample_loads (λ _, PList []) (λ _, PNone) (λ _ _ _, None) (λ _ _ _ _, None)
    sample_request (get_run_as "tok-bob") (GetRun "r1")
    (default {| cx_actor_id := ""; cx_scopes := ∅; cx_auth_subject := ""; cx_policy_profile := None;
                cx_template := None; cx_local_dev_auth := false |}
       (_resolve_auth_context sample_server (_headers_from_scope (get_run_as "tok-bob")))) []
    "r1" SCOPE_RUNS_READ_ANY sample_state
    (sample_call (get_run_as "tok-bob") [] sample_state).1
    (answered (sample_call (get_run_as "tok-bob") [] sample_state)) sample_server_ok _ _ _ _ _ _ _ _);
    vm_compute; first [reflexivity|discriminate].
Defined.

Lemma bodies_bounded_witness :
  _read_json_body sample_server sample_loads (chunked ["{"; "}"] ++ [NotAMessage]) true sample_state =
    (sample_state, Value []).
Proof.
  exact (bodies_bounded sample_server sample_loads ["{"; "}"] [NotAMessage] true sample_state
    (λ E, match E with end)).
Defined.

Lemma server_configured_witness :
  server_ok sample_server ∧
  ∃ context, _resolve_auth_context sample_server [("authorization", "Bearer tok-bob")] = Some context ∧
    cx_actor_id context ≠ "" ∧ cx_scopes context ≠ ∅.
Proof.
  destruct (server_configured sample_server (λ _, "0.5") (λ _, None) "127.0.0.1" 8080 None sample_tokens [] PNone 64 false
    ltac:(vm_compute; reflexivity)) as (H1 & _ & H3). split; [exact H1|].
  destruct (_resolve_auth_context sample_server [("authorization", "Bearer tok-bob")]) as [context|] eqn:Hc.
  - exists context. destruct (H3 _ _ Hc) as (Ha & Hs & _). by split_and!.
  - exfalso. revert Hc. vm_compute. discriminate.
Defined.
