(* ===== verification/HttpServer.v ===== *)
(** The HTTP server with many requests in flight.  A handler runs without
    interruption between two of its [await]s, so a request is a sequence of
    atomic parts: admission, acceptance of its body, the end of its run; the
    reads are one part each.  The parts of different requests interleave, and
    the state manager changes under them as runs make progress. *)
From stdpp Require Import options.
From S2P Require Import Prelude Values Json Text SafeEval ToolRegistry Guardrails Policy PointerStore StateManager Models Executor ExecutorSamples HttpApi HttpApiProofs.
Unset Default Proof Using.

(** What a request in flight is doing: its body is being read, or its run is
    going on while it holds a concurrency token. *)
Inductive activity :=
  | Reading (ep : endpoint)
  | Running (ep : endpoint) (token : ConcurrencyToken).

Definition held (a : activity) : option ConcurrencyToken :=
  match a with Running _ token => Some token | Reading _ => None end.

Record server (S : Type) := {
  sv_state : runtime_state S;
  sv_requests : gmap nat activity
}.
Arguments sv_state {_} _.
Arguments sv_requests {_} _.

Definition tokens_held {S} (sv : server S) : list ConcurrencyToken :=
  omap held (map_to_list (sv_requests sv)).*2.

Section server.
Context {S : Type} `{PointerStoreBackend S} {func : Type} `{Runtime func}.
Context (config : server_config).
Context (json_loads : string → result pyval) (validation_errors : exn → pyval).
Context (dump_event : ExecutionTraceEvent → pyval).
Implicit Types s : runtime_state S.

(** The part of a handler before its body is read. *)
Definition begin_request (e : request_env) (ep : endpoint) (headers : list (string * string)) : http S auth_context :=
  match ep with
  | ResumeRun rid => admit_resume config e rid headers
  | _ => admit_execute config e headers
  end.

(** The part from the body to the run. *)
Definition accept (ep : endpoint) (messages : list asgi_message) : http S ConcurrencyToken :=
  match ep with
  | ResumeRun rid => '(token, _) ← accept_resume config json_loads rid messages; mret token
  | _ => '(token, _) ← accept_execute config json_loads validation_errors messages; mret token
  end.

(** The two endpoints whose requests wait. *)
Definition waits (ep : endpoint) : bool :=
  match ep with ExecuteMacro | ResumeRun _ => true | GetRun _ | GetPointer _ => false end.

Definition with_manager (x : state_manager S) s : runtime_state S :=
  {| st_manager := x; st_guardrails := st_guardrails s; guardrail_counters := guardrail_counters s |}.

Inductive server_step : server S → server S → Prop :=
  | step_begin s rs id e ep headers s1 context :
      rs !! id = None → waits ep = true → begin_request e ep headers s = (s1, Value context) →
      server_step {| sv_state := s; sv_requests := rs |}
                  {| sv_state := s1; sv_requests := <[id := Reading ep]> rs |}
  | step_refuse s rs e ep headers s1 o :
      waits ep = true → begin_request e ep headers s = (s1, o) → (∀ context, o ≠ Value context) →
      server_step {| sv_state := s; sv_requests := rs |} {| sv_state := s1; sv_requests := rs |}
  | step_accept s rs id ep messages s1 token :
      rs !! id = Some (Reading ep) → accept ep messages s = (s1, Value token) →
      server_step {| sv_state := s; sv_requests := rs |}
                  {| sv_state := s1; sv_requests := <[id := Running ep token]> rs |}
  | step_reject s rs id ep messages s1 o :
      rs !! id = Some (Reading ep) → accept ep messages s = (s1, o) → (∀ token, o ≠ Value token) →
      server_step {| sv_state := s; sv_requests := rs |}
                  {| sv_state := s1; sv_requests := delete id rs |}
  | step_work s rs x :
      server_step {| sv_state := s; sv_requests := rs |}
                  {| sv_state := with_manager x s; sv_requests := rs |}
  | step_finish s rs id ep token s1 :
      rs !! id = Some (Running ep token) → release token s = (s1, Value tt) →
      server_step {| sv_state := s; sv_requests := rs |}
                  {| sv_state := s1; sv_requests := delete id rs |}
  | step_read s rs e ep headers s1 o :
      waits ep = false →
      handle config json_loads validation_errors dump_event (λ _ _ _, None) (λ _ _ _ _, None) e ep headers [] s
        = (s1, o) →
      server_step {| sv_state := s; sv_requests := rs |} {| sv_state := s1; sv_requests := rs |}.

Definition fresh_server (x : state_manager S) : server S :=
  {| sv_state := {| st_manager := x; st_guardrails := initial_guardrails;
                    guardrail_counters := {["rate_limited" := 0%Z; "throttled" := 0%Z]} |};
     sv_requests := ∅ |}.

(** ** The tokens *)

Abbreviation conc := (conc_run (concurrency_limits config)).

(** The part acquires and releases nothing. *)
Definition keeps_tokens : relation (runtime_state S) := λ s s1,
  ∀ tokens, conc (st_guardrails s) tokens → conc (st_guardrails s1) tokens.
#[local] Instance keeps_tokens_preorder : PreOrder keeps_tokens.
Proof.
  split; [intros s tokens Ht; exact Ht|]. intros s1 s2 s3 H12 H23 tokens Ht. apply H23, H12, Ht.
Qed.

Definition any_status : list Z := [200; 400; 401; 403; 404; 413; 429; 500]%Z.
Abbreviation passive := (conforms keeps_tokens any_status).

Lemma passive_rate e op context : passive (_enforce_rate_limit config e op context).
Proof.
  intros s. unfold hoare, _enforce_rate_limit.
  pose proof (λ tokens, conc_rate (concurrency_limits config) (st_guardrails s) tokens
    (rate_limit_rules config) (rq_monotonic e) op (rate_actor context)) as Hr.
  destruct (check_rate_limit _ _ _ _ _) as [g [d|ex]]; [|done]. destruct (rl_allowed d); [done|].
  split; [exact Hr|]. intros ? [= <-]. set_solver.
Qed.

Lemma passive_auth headers scope : passive (_require_auth config headers scope).
Proof.
  unfold _require_auth. destruct (_resolve_auth_context _ _) as [context|]; repeat conform; set_solver.
Qed.

Lemma passive_manager {A} (m : stm (state_manager S) A) : passive (on_manager m).
Proof.
  intros s. unfold hoare, on_manager. destruct (m _) as [? []]; (split; [intros tokens Ht; exact Ht|done]).
Qed.

Lemma passive_access rid context any : passive (_check_run_access rid context any).
Proof. unfold _check_run_access. repeat conform; [apply passive_manager|set_solver]. Qed.

Lemma passive_begin e ep headers : passive (begin_request e ep headers).
Proof.
  assert (passive (admit_execute config e headers)) as He.
  { unfold admit_execute. repeat conform; [apply passive_auth|apply passive_rate]. }
  destruct ep as [|rid|rid|pid]; try exact He. simpl. unfold admit_resume. repeat conform.
  - apply passive_auth.
  - apply passive_rate.
  - set_solver.
  - apply passive_access.
Qed.

Lemma passive_reads e ep headers : waits ep = false →
  passive (handle config json_loads validation_errors dump_event (λ _ _ _, None) (λ _ _ _ _, None) e ep headers []).
Proof.
  intros Hw. destruct ep as [|rid|rid|pid]; try done; simpl.
  - unfold _handle_get_run. repeat conform;
      [apply passive_auth|apply passive_rate|set_solver|apply passive_access| |apply passive_manager..].
    intros s. unfold hoare, on_manager. destruct (get_execution_summary _ _) as [x [row|ex]]; simpl;
      [split; [intros tokens Ht; exact Ht|done]|].
    case_decide; (split; [intros tokens Ht; exact Ht|]); [intros ? [= <-]; simpl; set_solver|done].
  - unfold _handle_get_pointer_summary. repeat conform;
      [apply passive_auth|apply passive_rate|set_solver|apply passive_manager|].
    destruct (List.find _ _) as [item|]; repeat conform; [|set_solver].
    destruct (pointer_run item); repeat conform. apply passive_access.
Qed.

(** Acceptance ends by taking a token, or takes none. *)
Lemma acquire_hoare op run_id s :
  hoare (_acquire_concurrency config op run_id) (λ s1 o, ∀ tokens, conc (st_guardrails s) tokens →
    match o with
    | Value token => conc (st_guardrails s1) (token :: tokens)
    | _ => conc (st_guardrails s1) tokens
    end) s.
Proof.
  unfold hoare, _acquire_concurrency. destruct (acquire_concurrency _ _ _ _) as [g [d [token|]]] eqn:Ha;
    intros tokens Ht; simpl; [by eapply conc_acquire|by eapply conc_denied].
Qed.

Definition takes_token {A} (token_of : A → ConcurrencyToken) (m : http S A) : Prop := ∀ s,
  hoare m (λ s1 o, ∀ tokens, conc (st_guardrails s) tokens →
    match o with
    | Value a => conc (st_guardrails s1) (token_of a :: tokens)
    | _ => conc (st_guardrails s1) tokens
    end) s.

Lemma takes_bind {A B} (token_of : B → ConcurrencyToken) (m : http S A) (f : A → http S B) :
  passive m → (∀ a, takes_token token_of (f a)) → takes_token token_of (m ≫= f).
Proof.
  intros Hm Hf s. http_step. eapply hoare_mono; [apply Hm|]. intros s1 [a|r|ex|] [Hk _]; try (intros; by apply Hk).
  eapply hoare_mono; [apply Hf|]. intros s2 o Ho tokens Ht. by apply Ho, Hk.
Qed.

Lemma takes_acquire {B} (token_of : B → ConcurrencyToken) op run_id (g : ConcurrencyToken → B) :
  (∀ t, token_of (g t) = t) →
  takes_token token_of (token ← _acquire_concurrency config op run_id; mret (g token)).
Proof.
  intros Hg s. http_step. eapply hoare_mono; [apply acquire_hoare|]. intros s1 [token|r|ex|] Ht; try done.
  intros tokens Hc. simpl. rewrite Hg. auto.
Qed.

Lemma takes_accept ep messages : takes_token id (accept ep messages).
Proof.
  assert (∀ A (m : http S (ConcurrencyToken * A)), takes_token fst m →
    takes_token id ('(token, _) ← m; mret token)) as Hfst.
  { intros A m Hm s. http_step. eapply hoare_mono; [apply Hm|]. by intros s1 [[token a]|r|ex|] Ho. }
  assert (takes_token id (accept ExecuteMacro messages)) as He.
  { apply Hfst. unfold accept_execute. apply takes_bind; [apply read_conforms; [apply _|set_solver..]|intros body].
    apply takes_bind; [repeat conform; set_solver|intros _]. apply takes_bind; [|intros m; by apply takes_acquire].
    destruct (rt_load_macro _) as [m|ex]; repeat conform; set_solver. }
  destruct ep as [|rid|rid|pid]; try exact He. apply Hfst. unfold accept_resume.
  apply takes_bind; [apply read_conforms; [apply _|set_solver..]|intros body].
  apply takes_bind; [|intros approvals; by apply takes_acquire].
  destruct (default _ _); repeat conform; set_solver.
Qed.

(** ** The requests in flight *)

Definition tokens_of (rs : gmap nat activity) : list ConcurrencyToken := omap held (map_to_list rs).*2.

Lemma tokens_insert rs id a :
  tokens_of (<[id := a]> rs) ≡ₚ match held a with Some t => [t] | None => [] end ++ tokens_of (delete id rs).
Proof.
  unfold tokens_of. rewrite <- insert_delete_eq.
  rewrite (map_to_list_insert (delete id rs) id a) by apply lookup_delete_eq. csimpl.
  by destruct (held a).
Qed.

Lemma tokens_lookup rs id a : rs !! id = Some a →
  tokens_of rs ≡ₚ match held a with Some t => [t] | None => [] end ++ tokens_of (delete id rs).
Proof. intros Hid. rewrite <- (insert_id rs id a) at 1 by done. apply tokens_insert. Qed.

Lemma tokens_idle rs id a : held a = None →
  (rs !! id = None ∨ ∃ ep, rs !! id = Some (Reading ep)) →
  tokens_of (<[id := a]> rs) ≡ₚ tokens_of rs ∧ tokens_of (delete id rs) ≡ₚ tokens_of rs.
Proof.
  intros Ha Hid. assert (tokens_of (delete id rs) ≡ₚ tokens_of rs) as Hd.
  { destruct Hid as [Hid|[ep Hid]]; [by rewrite delete_id|by rewrite (tokens_lookup rs id _ Hid)]. }
  split; [|done]. rewrite tokens_insert, Ha. done.
Qed.

(** The tokens held are those of the guardrails' history. *)
Definition accounted (sv : server S) : Prop :=
  ∃ tokens, conc (st_guardrails (sv_state sv)) tokens ∧ tokens ≡ₚ tokens_held sv.

Lemma accounted_step sv sv' : server_step sv sv' → accounted sv → accounted sv'.
Proof.
  intros Hstep (tokens & Hc & Hp). unfold accounted, tokens_held in *. fold (tokens_of (sv_requests sv)) in Hp.
  fold (tokens_of (sv_requests sv')).
  destruct Hstep as [s rs id e ep headers s1 context Hid _ Ha|s rs e ep headers s1 o _ Ha _
    |s rs id ep messages s1 token Hid Ha|s rs id ep messages s1 o Hid Ha Hn|s rs x|s rs id ep token s1 Hid Ha
    |s rs e ep headers s1 o Hw Ha]; simpl in *.
  - exists tokens. split; [by apply (hoare_eq _ _ _ _ _ (passive_begin e ep headers s) Ha)|].
    rewrite Hp. symmetry. apply tokens_idle; [done|by left].
  - exists tokens. split; [by apply (hoare_eq _ _ _ _ _ (passive_begin e ep headers s) Ha)|done].
  - exists (token :: tokens). split; [by apply (hoare_eq _ _ _ _ _ (takes_accept ep messages s) Ha)|].
    rewrite tokens_insert, Hp. simpl. f_equiv. by rewrite (tokens_lookup rs id _ Hid).
  - exists tokens. split.
    + pose proof (hoare_eq _ _ _ _ _ (takes_accept ep messages s) Ha tokens Hc) as Ht.
      destruct o as [t|r|ex|]; try done. by destruct (Hn t).
    + rewrite Hp. by rewrite (tokens_lookup rs id _ Hid).
  - by exists tokens.
  - unfold release in Ha. injection Ha as <-. simpl.
    rewrite (tokens_lookup rs id _ Hid) in Hp. simpl in Hp.
    assert (token ∈ tokens) as (l1 & l2 & ->)%list_elem_of_split by (rewrite Hp; left).
    exists (l1 ++ l2). split; [by apply conc_release|]. symmetry. by apply (Permutation_cons_app_inv l1 l2 (a := token)).
  - exists tokens. split; [by apply (hoare_eq _ _ _ _ _ (passive_reads e ep headers Hw s) Ha)|done].
Qed.

Lemma tokens_with_perm f l l' : l ≡ₚ l' → tokens_with f l = tokens_with f l'.
Proof. intros Hp. unfold tokens_with. by rewrite (Permutation_length (filter_Permutation_bool f _ _ Hp)). Qed.

(** C18: however many requests are in flight and however their parts interleave,
    also with refusals, failures and reads, the guardrails' counters are exactly
    the numbers of runs the server is waiting for: their total, those of an
    operation, and the resumptions of one run never exceed the configured
    limits, and no slot is ever lost. *)
Theorem requests_accounted x sv :
  server_ok config → rtc server_step (fresh_server x) sv →
  counters_ok (st_guardrails (sv_state sv)) (tokens_held sv) ∧
  (Z.of_nat (length (tokens_held sv)) <= global_inflight (concurrency_limits config))%Z ∧
  (∀ op, tokens_with (of_operation op) (tokens_held sv) <= op_limit (concurrency_limits config) op)%Z ∧
  ∀ run, (tokens_with (of_resumed_run run) (tokens_held sv) <=
          per_run_resume_inflight (concurrency_limits config))%Z.
Proof.
  intros Hok Hr. assert (accounted sv) as (tokens & Hc & Hp).
  { assert (accounted (fresh_server x)) as H0' by (exists []; split; [apply conc_start|done]).
    revert H0'. induction Hr as [sv|sv1 sv2 sv3 Hs _ IH]; intros Ha; [done|]. by eapply IH, accounted_step. }
  destruct (conc_run_limits _ _ _ (so_limits _ Hok) Hc) as ([C1 C2 C3] & L1 & L2 & L3).
  rewrite C1, (Permutation_length Hp) in L1.
  assert (counters_ok (st_guardrails (sv_state sv)) (tokens_held sv)) as Hcount.
  { split; [by rewrite C1, (Permutation_length Hp)|intros; rewrite C2|intros; rewrite C3]; by apply tokens_with_perm. }
  split_and!; [done|done|intros op; rewrite <- (count_operation _ _ Hcount); apply L2|].
  intros run. rewrite <- (count_run _ _ Hcount). apply L3.
Qed.
End server.

(** ** A concrete request in flight *)

Definition ada_headers : list (string * string) := [("authorization", "Bearer tok-ada")].
Definition fresh_sample : server sqlite := fresh_server sample_manager.
Definition admitted_state : runtime_state sqlite :=
  (begin_request sample_server sample_request (ResumeRun "r1") ada_headers (sv_state fresh_sample)).1.
Definition accepted_state : runtime_state sqlite :=
  (accept (func := nat) sample_server sample_loads (λ _, PList []) (ResumeRun "r1") [disconnect] admitted_state).1.
Definition ada_context : auth_context :=
  default {| cx_actor_id := ""; cx_scopes := ∅; cx_auth_subject := ""; cx_policy_profile := None;
             cx_template := None; cx_local_dev_auth := false |}
    (_resolve_auth_context sample_server ada_headers).
Definition running_sample : server sqlite :=
  {| sv_state := accepted_state;
     sv_requests := <[0 := Running (ResumeRun "r1") {| token_operation := "run_resume"; token_run_id := Some "r1" |}]>
                      (<[0 := Reading (ResumeRun "r1")]> ∅) |}.

Lemma running_reach :
  rtc (server_step (func := nat) sample_server sample_loads (λ _, PList []) (λ _, PNone)) fresh_sample running_sample.
Proof.
  eapply rtc_l; [|apply rtc_once].
  - refine (step_begin (func := nat) _ _ _ _ (sv_state fresh_sample) ∅ 0 sample_request (ResumeRun "r1") ada_headers admitted_state ada_context _ _ _);
      vm_compute; reflexivity.
  - refine (step_accept (func := nat) _ _ _ _ admitted_state (<[0 := Reading (ResumeRun "r1")]> ∅) 0 (ResumeRun "r1") [disconnect]
      accepted_state _ _ _); vm_compute; reflexivity.
Qed.

Lemma requests_accounted_witness :
  tokens_held running_sample = [{| token_operation := "run_resume"; token_run_id := Some "r1" |}] ∧
  counters_ok (st_guardrails (sv_state running_sample)) (tokens_held running_sample) ∧
  (tokens_with (of_resumed_run "r1") (tokens_held running_sample) <= 1)%Z.
Proof.
  destruct (requests_accounted (func := nat) sample_server sample_loads (λ _, PList []) (λ _, PNone) sample_manager running_sample
    sample_server_ok running_reach) as (H1 & _ & _ & H4).
  split; [vm_compute; reflexivity|]. split; [exact H1|exact (H4 "r1")].
Defined.
