(* ===== verification/HttpRuns.v ===== *)
(** The HTTP surface on top of the executor: what a request that starts or
    resumes a run makes of the stored state, whatever the schedule of the run's
    steps and however the run ends. *)
From stdpp Require Import options.
From S2P Require Import Prelude Graph Values Json Text SafeEval ToolRegistry Guardrails Policy PointerStore StateManager Models Executor ExecutorSamples ExecutorProofs ExecutorRuns ExecutorFrame HttpApi HttpApiProofs.
Unset Default Proof Using.

Section runs.
Context {S : Type} `{PointerStoreBackend S} {func : Type} `{Runtime func}.

(** ** Runs by schedule *)

(** The error of the first crashed step, in the order of the macro. *)
Definition first_crash (v : run_env) (c : Executor.config (S := S)) : option exn :=
  head (omap (λ step, match pcs c !! step_id step with Some (Crashed e) => Some e | _ => None end)
          (steps (macro v))).

(** [execute_macro] as one call: the run started, its steps woken in the order
    of the schedule, and what it ends with; [None] when the schedule leaves a
    run without a time bound unfinished. *)
Definition execute_macro_by (d : ExecutionLimits) (m : BatchedMacroRequest) (rid : string) (resume : bool)
    (actor : payload) (t : Q) (n : nat) (chs : list choice) (x : state_manager S)
  : option (state_manager S * result payload) :=
  match start_run d m rid resume (Some (PDict actor)) t n x with
  | (x, Raise e) => Some (x, Raise e)
  | (_, Ok (v, c0)) =>
      c ← fire_all v chs c0;
      match gathered v c, first_crash v c, max_total_runtime_seconds (limits v) with
      | Some results, _, _ => let '(s, r) := finish_run v results (st c) in Some (sm s, r)
      | None, Some e, _ => Some (sm (st c), Raise e)
      | None, None, Some _ =>
          let '(s, r) := (results ← timeout_results v c; finish_run v results) (st c) in Some (sm s, r)
      | None, None, None => None
      end
  end.

(** [resume_run] as one call, with a schedule for every macro. *)
Definition resume_run_by (d : ExecutionLimits) (rid : string) (approvals : list (string * pyval))
    (actor : payload) (t : Q) (n : nat) (plan : BatchedMacroRequest → list choice) (x : state_manager S)
  : option (state_manager S * result payload) :=
  match macro_to_resume rid approvals x with
  | (x, Raise e) => Some (x, Raise e)
  | (x, Ok m) => execute_macro_by d m rid true actor t n (plan m) x
  end.

(** What runs of other identifiers, and conversations, keep. *)
Record others_kept (rid : string) (x x' : state_manager S) : Prop := {
  ok_closed : sm_closed x' = sm_closed x;
  ok_checkpoints other : other ≠ rid → execution_run_checkpoints x' !! other = execution_run_checkpoints x !! other;
  ok_summaries other : other ≠ rid → execution_run_summaries x' !! other = execution_run_summaries x !! other;
  ok_diagnostics other : other ≠ rid → execution_run_diagnostics x' !! other = execution_run_diagnostics x !! other;
  ok_sessions : conversation_sessions x' = conversation_sessions x;
  ok_turns : conversation_turns x' = conversation_turns x
}.

Lemma others_kept_refl rid x : others_kept rid x x.
Proof. by split. Qed.
Lemma frame_others v x x' : frame v x x' → others_kept (env_run_id v) x x'.
Proof. by intros []. Qed.
Lemma others_metadata rid other x x' : others_kept rid x x' → other ≠ rid → run_metadata x' other = run_metadata x other.
Proof. intros [] Hne. unfold run_metadata. by rewrite ok_checkpoints0, ok_diagnostics0. Qed.

Lemma first_crash_Some v c e : first_crash v c = Some e → ∃ sid, pcs c !! sid = Some (Crashed e).
Proof.
  unfold first_crash. intros Hh%head_Some_elem_of. apply list_elem_of_omap in Hh as (step & _ & Hp).
  exists (step_id step). destruct (pcs c !! step_id step) as [[]|]; by simplify_eq.
Qed.

(** A run, once started, ends in an outcome of its schedule. *)
Lemma execute_by_outcome d m rid resume actor t n chs x x' r :
  execute_macro_by d m rid resume actor t n chs x = Some (x', r) →
  (∃ e, start_run d m rid resume (Some (PDict actor)) t n x = (x', Raise e) ∧ r = Raise e) ∨
  ∃ x0 v c0 c s, start_run d m rid resume (Some (PDict actor)) t n x = (x0, Ok (v, c0)) ∧
    rtc (cstep v) c0 c ∧ run_outcome v c s r ∧ x' = sm s.
Proof.
  unfold execute_macro_by. destruct (start_run _ _ _ _ _ _ _ _) as [x0 [[v c0]|e]]; [|intros [= <- <-]; eauto].
  intros Hrun. right. destruct (fire_all v chs c0) as [c|] eqn:Hf; [|done]. apply fire_all_run in Hf.
  exists x0, v, c0, c. cbn [mbind option_bind] in Hrun.
  destruct (gathered v c) as [results|] eqn:Hg.
  - destruct (finish_run v results (st c)) as [s r'] eqn:Hfin. injection Hrun as <- <-. exists s. eauto using out_gathered.
  - destruct (first_crash v c) as [e|] eqn:Hcr.
    + injection Hrun as <- <-. apply first_crash_Some in Hcr as [sid Hcr]. exists (st c). eauto using out_crashed.
    + destruct (max_total_runtime_seconds (limits v)) as [b|] eqn:Hb; [|done].
      destruct ((results ← timeout_results v c; finish_run v results) (st c)) as [s r'] eqn:Ht.
      injection Hrun as <- <-. exists s. eauto using out_timeout.
Qed.

(** A run that cannot be started leaves everything as it was. *)
Lemma start_refused d m rid resume actor t n (x x' : state_manager S) e :
  sm_closed x = false → start_run d m rid resume actor t n x = (x', Raise e) → x' = x ∧ resume = true.
Proof.
  intros Hopen. unfold start_run.
  set (q := if resume then _ else _ : state_manager S * result (option checkpoint_row)). intros Hs.
  assert (q.1 = x ∧ (resume = false → q.2 = Ok None)) as [Hq Hr].
  { subst q. destruct resume; [|done]. unfold get_run_checkpoint, _connection, mbind, stm_bind, raise_if.
    rewrite Hopen. simpl. destruct (execution_run_checkpoints x !! rid) as [cp|]; simpl; [|done].
    by destruct (bool_decide _). }
  destruct q as [x1 [o|e1]]; simpl in Hq, Hr; subst x1.
  - exfalso. match type of Hs with context [_persist_checkpoint ?v0 _ _ ?s0] =>
      destruct (persist_core v0 "active" None s0 Hopen) as (s2 & _ & Hp); rewrite Hp in Hs end. done.
  - injection Hs as <- _. split; [done|]. destruct resume; [done|by specialize (Hr eq_refl)].
Qed.

(** What a whole run leaves and records. *)
Lemma execute_by_frame d m rid resume actor t n chs x x' r :
  sm_closed x = false → execute_macro_by d m rid resume actor t n chs x = Some (x', r) →
  (x' = x ∧ resume = true) ∨
  (others_kept rid x x' ∧ run_metadata x' rid = actor_of_start resume (Some (PDict actor)) x rid).
Proof.
  intros Hopen [(e & Hs & _)|(x0 & v & c0 & c & s & Hs & Hc & Hr & ->)]%execute_by_outcome.
  - left. by eapply start_refused.
  - right. destruct (whole_run_frame _ _ _ _ _ _ _ _ _ _ _ _ _ _ Hopen Hs Hc Hr) as (<- & Hf & Ha).
    split; [by apply frame_others|done].
Qed.

Lemma macro_to_resume_reads rid approvals (x : state_manager S) : (macro_to_resume rid approvals x).1 = x.
Proof.
  unfold macro_to_resume, get_run_checkpoint, _connection, mbind, stm_bind, raise_if.
  destruct (sm_closed x); [done|]. simpl. destruct (execution_run_checkpoints x !! rid) as [cp|]; simpl; [|done].
  by destruct (bool_decide _).
Qed.

Lemma resume_by_frame d rid approvals actor t n plan x x' r :
  sm_closed x = false → resume_run_by d rid approvals actor t n plan x = Some (x', r) →
  x' = x ∨ (others_kept rid x x' ∧ run_metadata x' rid = actor_of_start true (Some (PDict actor)) x rid).
Proof.
  intros Hopen. unfold resume_run_by. pose proof (macro_to_resume_reads rid approvals x) as Hm.
  destruct (macro_to_resume _ _ _) as [x1 [m|e]]; simpl in Hm; subst x1; [|intros [= <- _]; by left].
  intros [[-> _]|?]%execute_by_frame; auto.
Qed.
End runs.

(** ** The two endpoints that run macros *)
Section requests.
Context {S : Type} `{PointerStoreBackend S} {func : Type} `{Runtime func}.
Context (config : server_config).
Context (json_loads : string → result pyval) (validation_errors : exn → pyval).
Context (dump_event : ExecutionTraceEvent → pyval).
(** The run's limits by default, its identifier, the clock, the identifiers
    drawn before it, and its schedule. *)
Context (d : ExecutionLimits) (rid : string) (t : Q) (n : nat) (plan : BatchedMacroRequest → list choice).
Implicit Types s : runtime_state S.

Definition executes (m : BatchedMacroRequest) (actor : payload) (x : state_manager S) :=
  execute_macro_by d m rid false actor t n (plan m) x.
Definition resumes (run_id : string) (approvals : list (string * pyval)) (actor : payload) (x : state_manager S) :=
  resume_run_by d run_id approvals actor t n plan x.

Abbreviation auth := (_resolve_auth_context config).
Abbreviation call := (asgi_call config json_loads validation_errors dump_event executes resumes).
Abbreviation handle := (handle config json_loads validation_errors dump_event executes resumes).
Abbreviation owner_of x r := (get_or (run_metadata x r) "owner_actor_id" "actor_id").

Lemma auth_named headers context :
  server_ok config → auth headers = Some context → well_named (cx_actor_id context).
Proof.
  intros Hok [(_ & _ & _ & Ha & _)|(token & _ & [(e & He & -> & _)|(_ & _ & Ha & _)])]%auth_cases; [done| |done].
  apply (so_tokens _ Hok token e He).
Qed.

(** The part keeps the manager [x], and gives a value of which [P] holds. *)
Definition stays (x : state_manager S) {A} (P : A → Prop) (m : http S A) : Prop := ∀ s, st_manager s = x →
  hoare m (λ s1 o, st_manager s1 = x ∧ ∀ a, o = Value a → P a) s.

Lemma stays_bind x {A B} (P : A → Prop) (Q : B → Prop) (m : http S A) (f : A → http S B) :
  stays x P m → (∀ a, P a → stays x Q (f a)) → stays x Q (m ≫= f).
Proof.
  intros Hm Hf s E. http_step. eapply hoare_mono; [by apply Hm|].
  intros s1 [a|r|ex|] [E1 HP]; try by (split; [done|]). by apply Hf; [apply HP|].
Qed.
Lemma stays_ret x {A} (P : A → Prop) a : P a → stays x P (mret a : http S A).
Proof. intros HP s E. split; [done|]. by intros ? [= <-]. Qed.
Lemma stays_quiet x l {A} (m : http S A) : conforms same_manager l m → stays x (λ _, True) m.
Proof. intros Hm s E. eapply hoare_mono; [apply Hm|]. unfold same_manager. intros s1 o [-> _]. done. Qed.

Abbreviation any_status := [400; 401; 403; 404; 413; 429; 500]%Z.

Lemma stays_auth x headers scope :
  stays x (λ context, auth headers = Some context ∧ has_scope context scope = true) (_require_auth config headers scope).
Proof.
  intros s E. unfold _require_auth. destruct (auth headers) as [context|]; [|done].
  apply hoare_bind. unfold hoare, answer_if. destruct (has_scope context scope) eqn:Hs; simpl; [|done].
  split; [done|]. by intros ? [= <-].
Qed.

(** Before a run and after it, the handlers leave the manager alone. *)
Lemma stays_admit_execute x e headers :
  stays x (λ context, auth headers = Some context ∧ has_scope context SCOPE_RUNS_EXECUTE = true)
    (admit_execute config e headers).
Proof.
  unfold admit_execute. eapply stays_bind; [apply stays_auth|]. intros context Hc.
  eapply stays_bind; [apply (stays_quiet _ any_status), quiet_rate; set_solver|]. intros _ _. by apply stays_ret.
Qed.

Lemma stays_accept_execute x messages :
  stays x (λ _, True) (accept_execute config json_loads validation_errors messages : http S _).
Proof.
  apply (stays_quiet _ any_status). unfold accept_execute. repeat conform.
  - apply read_conforms; [apply _|set_solver..].
  - set_solver.
  - destruct (rt_load_macro _); repeat conform; set_solver.
  - apply quiet_acquire. set_solver.
Qed.

Lemma stays_release x token {A} (m : http S A) : conforms same_manager any_status m → stays x (λ _, True) (release token;; m).
Proof. intros Hm. eapply (stays_bind _ (λ _, True)); [by intros s|]. intros _ _. by eapply stays_quiet. Qed.

Lemma quiet_reply_execute e r : conforms (same_manager (S := S)) any_status (reply_execute e r).
Proof. unfold reply_execute. destruct r; repeat conform; set_solver. Qed.

Lemma quiet_reply_resume e run_id r : conforms (same_manager (S := S)) any_status (reply_resume e run_id r).
Proof. unfold reply_resume. destruct r; repeat conform; set_solver. Qed.

(** A handler whose parts around the run keep the manager changes it as the
    run does. *)
Lemma around_run {A B} (P : A → Prop) (before : http S A) (accept : A → http S B)
    (run : A → B → state_manager S → option (state_manager S * result payload))
    (after : B → result payload → http S payload) (body : A → B → http S payload)
    (R : A → state_manager S → Prop) s :
  stays (st_manager s) P before → (∀ x a, stays x (λ _, True) (accept a)) →
  (∀ x b r, stays x (λ _, True) (after b r)) →
  (∀ a b, body a b = (r ← await (run a b); after b r)) →
  (∀ a b x r, P a → run a b (st_manager s) = Some (x, r) → x = st_manager s ∨ R a x) →
  hoare (a ← before; b ← accept a; body a b)
    (λ s' _, st_manager s' = st_manager s ∨ ∃ a, P a ∧ R a (st_manager s')) s.
Proof.
  intros Hb Hacc Hafter Hbody Hrun. http_step. eapply hoare_mono; [by apply Hb|].
  intros s1 [a|r|ex|] [E HP]; try by left. specialize (HP a eq_refl). http_step.
  eapply hoare_mono; [by eapply Hacc|]. intros s2 [b|r|ex|] [E2 _]; try by left.
  rewrite Hbody. http_step. unfold hoare at 1, await. rewrite E2.
  destruct (run a b (st_manager s)) as [[x r]|] eqn:Hr; simpl; [|by left].
  eapply hoare_mono; [by eapply Hafter|]. simpl. intros s3 o [-> _].
  destruct (Hrun a b x r HP Hr) as [->|HQ]; [by left|right]. by exists a.
Qed.

Lemma owner_of_field (x : state_manager S) r o :
  field (run_metadata x r) "owner_actor_id" = o → py_truthy o = true → owner_of x r = o.
Proof.
  unfold field, get_or. intros -> Ht. by rewrite Ht.
Qed.

Lemma named_truthy a : well_named a → py_truthy (PStr a) = true.
Proof. intros [Hne _]. simpl. by rewrite bool_decide_eq_false_2. Qed.

(** What [execute_macro] records for a caller. *)
Lemma executes_owned context op m (x x' : state_manager S) r :
  well_named (cx_actor_id context) → sm_closed x = false →
  executes m (_to_actor_metadata context op) x = Some (x', r) →
  others_kept rid x x' ∧ owner_of x' rid = PStr (cx_actor_id context).
Proof.
  intros Hn Hopen [[_ ?]|[Hk Ha]]%execute_by_frame; [done| |done]. split; [done|].
  apply owner_of_field; [|by apply named_truthy]. rewrite Ha.
  destruct Hn as [Hne Hs]. apply owner_fresh; [done|done|by eexists].
Qed.

Lemma execute_effect e headers messages s :
  server_ok config → sm_closed (st_manager s) = false →
  hoare (handle e ExecuteMacro headers messages) (λ s' _, st_manager s' = st_manager s ∨
    ∃ context, (auth headers = Some context ∧ has_scope context SCOPE_RUNS_EXECUTE = true) ∧
      others_kept rid (st_manager s) (st_manager s') ∧
      owner_of (st_manager s') rid = PStr (cx_actor_id context)) s.
Proof.
  intros Hok Hopen. cbn [HttpApiProofs.handle]. unfold _handle_execute_macro.
  refine (around_run _ _ (λ _, accept_execute config json_loads validation_errors messages)
    (λ context tm, executes tm.2 (_to_actor_metadata context "execute"))
    (λ tm r, release tm.1;; reply_execute e r) _
    (λ context x, others_kept rid (st_manager s) x ∧ owner_of x rid = PStr (cx_actor_id context)) s _ _ _ _ _).
  - apply stays_admit_execute.
  - intros x _. apply stays_accept_execute.
  - intros x tm r. apply stays_release, quiet_reply_execute.
  - by intros context [token m].
  - intros context [token m] x r [Ha _] Hr. right. by eapply executes_owned; [eapply auth_named| |].
Qed.

(** Who may resume a run of the manager [x]. *)
Definition may_resume (headers : list (string * string)) (x : state_manager S) (run_id : string)
    (context : auth_context) : Prop :=
  (auth headers = Some context ∧ has_scope context SCOPE_RUNS_RESUME = true) ∧ run_id ≠ "" ∧
  access_granted (run_metadata x run_id) context SCOPE_RUNS_RESUME_ANY = true.

Lemma stays_admit_resume x e run_id headers :
  sm_closed x = false → stays x (may_resume headers x run_id) (admit_resume config e run_id headers).
Proof.
  intros Hopen. unfold admit_resume. eapply stays_bind; [apply stays_auth|]. intros context Hc.
  eapply stays_bind; [apply (stays_quiet _ any_status), quiet_rate; set_solver|]. intros _ _.
  eapply (stays_bind _ (λ _, run_id ≠ "")).
  { intros s E. apply hoare_answer_if; intros Hb; (split; [done|]); [done|].
    intros _ _. by apply bool_decide_eq_false in Hb. }
  intros _ Hne. eapply (stays_bind _ (λ _, access_granted (run_metadata x run_id) context SCOPE_RUNS_RESUME_ANY = true)).
  { intros s E. unfold hoare. rewrite check_access by congruence. rewrite E.
    by destruct (access_granted _ _ _). }
  intros _ Hg. by apply stays_ret.
Qed.

Lemma stays_accept_resume x run_id messages :
  stays x (λ _, True) (accept_resume config json_loads run_id messages : http S _).
Proof.
  apply (stays_quiet _ any_status). unfold accept_resume. repeat conform.
  - apply read_conforms; [apply _|set_solver..].
  - destruct (default _ _); repeat conform; set_solver.
  - apply quiet_acquire. set_solver.
Qed.

(** The owner the checkpoint records for a run, if it records one. *)
Definition recorded_owner (x : state_manager S) (run_id : string) (o : pyval) : Prop :=
  ∃ stored, execution_run_checkpoints x !! run_id ≫= StateManager.actor_metadata = Some (PDict stored) ∧
    field stored "owner_actor_id" = o ∧ py_truthy o = true.

Lemma resume_effect e run_id headers messages s :
  sm_closed (st_manager s) = false →
  hoare (handle e (ResumeRun run_id) headers messages) (λ s' _, st_manager s' = st_manager s ∨
    ∃ context, may_resume headers (st_manager s) run_id context ∧
      others_kept run_id (st_manager s) (st_manager s') ∧
      ∀ o, recorded_owner (st_manager s) run_id o → owner_of (st_manager s') run_id = o) s.
Proof.
  intros Hopen. cbn [HttpApiProofs.handle]. unfold _handle_resume_run.
  refine (around_run _ _ (λ _, accept_resume config json_loads run_id messages)
    (λ context tm, resumes run_id tm.2 (_to_actor_metadata context "resume"))
    (λ tm r, release tm.1;; reply_resume e run_id r) _
    (λ context x, others_kept run_id (st_manager s) x ∧
       ∀ o, recorded_owner (st_manager s) run_id o → owner_of x run_id = o) s _ _ _ _ _).
  - by apply stays_admit_resume.
  - intros x _. apply stays_accept_resume.
  - intros x tm r. apply stays_release, quiet_reply_resume.
  - by intros context [token m].
  - intros context [token m] x r _ [->|[Hk Ha]]%resume_by_frame; [by left| |done]. right. split; [done|].
    intros o (stored & Hst & Ho & Ht). apply owner_of_field; [|done].
    rewrite Ha, (owner_resumed _ _ _ stored); [done|done|by rewrite Ho].
Qed.

Lemma call_handled e scope messages s s' o ep :
  sc_type scope = "http" → route (py_upper (sc_method scope)) (request_path scope) = Some ep →
  call e scope messages s = (s', o) →
  s' = (handle e ep (_headers_from_scope scope) messages s).1.
Proof.
  intros Ht Hr. unfold asgi_call. rewrite decide_False by (by intros []). rewrite dispatch_route, Hr.
  destruct (HttpApiProofs.handle _ _ _ _ _ _ _ _ _ _ s) as [s1 []]; by intros [= <- _].
Qed.

(** C13: the one thing a request to execute a macro can do to the stored state
    is to run it, under its own identifier and as the property of the caller
    whose token carried the scope, however the run's steps are scheduled and
    however it ends; from then on a request about that run by anybody else,
    unless entitled to every run, is refused and changes nothing. *)
Theorem submissions_owned e scope messages s s' o :
  server_ok config → sm_closed (st_manager s) = false → sc_type scope = "http" →
  route (py_upper (sc_method scope)) (request_path scope) = Some ExecuteMacro →
  call e scope messages s = (s', o) →
  st_manager s' = st_manager s ∨
  ∃ context, auth (_headers_from_scope scope) = Some context ∧ has_scope context SCOPE_RUNS_EXECUTE = true ∧
    others_kept rid (st_manager s) (st_manager s') ∧
    owner_of (st_manager s') rid = PStr (cx_actor_id context) ∧
    ∀ e2 scope2 ep2 context2 any messages2 s2 s2' r2,
      st_manager s2 = st_manager s' → sc_type scope2 = "http" →
      route (py_upper (sc_method scope2)) (request_path scope2) = Some ep2 → endpoint_id ep2 ≠ "" →
      auth (_headers_from_scope scope2) = Some context2 → has_scope context2 (required_scope ep2) = true →
      guarded_run e2 ep2 context2 (st_manager s2) = Some (rid, any) →
      cx_actor_id context2 ≠ cx_actor_id context → has_scope context2 any = false →
      call e2 scope2 messages2 s2 = (s2', Some r2) →
      st_manager s2' = st_manager s2 ∧ status_code r2 ∈ [403; 429]%Z.
Proof.
  intros Hok Hopen Ht Hroute Hcall. rewrite (call_handled _ _ _ _ _ _ _ Ht Hroute Hcall).
  destruct (execute_effect e (_headers_from_scope scope) messages s Hok Hopen)
    as [?|(context & [Ha Hs] & Hk & Ho)]; [by left|right]. exists context. split_and!; [done..|].
  intros e2 scope2 ep2 context2 any messages2 s2 s2' r2 E Ht2 Hroute2 Hid Ha2 Hs2 Hg Hne Hany Hcall2.
  assert (access_granted (run_metadata (st_manager s2) rid) context2 any = false) as Hdenied.
  { unfold access_granted. rewrite E, Ho, Hany, (named_truthy _ (auth_named _ _ Hok Ha)). simpl.
    by rewrite bool_decide_eq_false_2 by congruence. }
  assert (sm_closed (st_manager s2) = false) as Hopen2 by (by rewrite E, (ok_closed _ _ _ Hk)).
  pose proof (call_settled config json_loads validation_errors dump_event executes resumes _ _ _ _ _ _ _ _ _ _
    Hok Hopen2 Ht2 Hroute2 Hid Ha2 Hs2 Hg Hcall2) as Hset. by rewrite Hdenied in Hset.
Qed.

(** C14: a request to resume a run changes nothing unless its token carried the
    scope and the run belongs to the caller (or to nobody, or the caller is
    entitled to every run); it never touches another run, and the run keeps
    the owner its checkpoint records. *)
Theorem resumes_entitled e scope messages run_id s s' o :
  sm_closed (st_manager s) = false → sc_type scope = "http" →
  route (py_upper (sc_method scope)) (request_path scope) = Some (ResumeRun run_id) →
  call e scope messages s = (s', o) →
  st_manager s' = st_manager s ∨
  ∃ context, may_resume (_headers_from_scope scope) (st_manager s) run_id context ∧
    others_kept run_id (st_manager s) (st_manager s') ∧
    ∀ o, recorded_owner (st_manager s) run_id o → owner_of (st_manager s') run_id = o.
Proof.
  intros Hopen Ht Hroute Hcall. rewrite (call_handled _ _ _ _ _ _ _ Ht Hroute Hcall). by apply resume_effect.
Qed.
End requests.

(** ** Concrete requests: [eve] submits the sample, [bob] asks for its run,
    [ada] resumes a run of hers. *)
Definition run_tokens : list (string * pyval) :=
  sample_tokens ++ [("tok-eve", PDict [("actor_id", PStr " eve "); ("scopes", PStr "runs:execute")])].
Definition run_server : server_config :=
  match new_server (λ _, "0.5") (λ _, None) "127.0.0.1" 8080 None run_tokens [] PNone 64 false with
  | Ok c => c
  | Raise _ => HttpApiProofs.no_config
  end.
Lemma run_server_ok : server_ok run_server.
Proof.
  apply (new_server_ok (λ _, "0.5") (λ _, None) "127.0.0.1" 8080 None run_tokens [] PNone 64 false run_server).
  vm_compute. reflexivity.
Qed.

(** A reader of the one body sent here. *)
Definition macro_loads (body : string) : result pyval :=
  if decide (body = "macro") then Ok (PDict [("macro", rt_dump_macro sample_macro)])
  else Raise (Exn (OtherError "JSONDecodeError") "bad").
Definition run_call (scope : asgi_scope) (messages : list asgi_message) (s : runtime_state sqlite) :=
  asgi_call run_server macro_loads (λ _, PList []) (λ _, PNone)
    (executes default_execution_limits "r2" 3 0 (λ _, to_end))
    (resumes default_execution_limits 3 0 (λ _, to_end)) sample_request scope messages s.
Definition post_as (token path : string) : asgi_scope :=
  {| sc_type := "http"; sc_method := "post"; sc_path := path;
     sc_headers := Some [Some ("Authorization", "Bearer " +:+ token)] |}.
Definition submitted := run_call (post_as "tok-eve" "/v1/eap/macro/execute") [Message (Some "macro") false] sample_state.

Definition bob_asks : asgi_scope :=
  {| sc_type := "http"; sc_method := "get"; sc_path := "/v1/eap/runs/r2";
     sc_headers := Some [Some ("Authorization", "Bearer tok-bob")] |}.
Definition bob_context : auth_context :=
  {| cx_actor_id := "bob"; cx_scopes := {[ "runs:read" ]}; cx_auth_subject := "scoped_token:bob";
     cx_policy_profile := None; cx_template := None; cx_local_dev_auth := false |}.
Definition refused := run_call bob_asks [] submitted.1.

(** [eve]'s submission is hers, and refused to [bob]. *)
Lemma submissions_owned_witness :
  get_or (run_metadata (st_manager submitted.1) "r2") "owner_actor_id" "actor_id" = PStr "eve" ∧
  st_manager refused.1 = st_manager submitted.1 ∧ status_code (answered refused) ∈ [403; 429]%Z.
Proof.
  destruct (submissions_owned run_server macro_loads (λ _, PList []) (λ _, PNone) default_execution_limits "r2" 3 0
    (λ _, to_end) sample_request (post_as "tok-eve" "/v1/eap/macro/execute") [Message (Some "macro") false]
    sample_state submitted.1 submitted.2) as [E|(context & Ha & _ & _ & Ho & Hprivate)].
  - apply run_server_ok.
  - vm_compute. reflexivity.
  - reflexivity.
  - vm_compute. reflexivity.
  - unfold submitted, run_call. apply surjective_pairing.
  - exfalso. apply (f_equal (λ x, is_None (execution_run_checkpoints x !! "r2"))) in E. revert E. vm_compute. discriminate.
  - assert (cx_actor_id context = "eve") as Heve.
    { revert Ha. clear. vm_compute. by intros [= <-]. }
    split; [by rewrite Ho, Heve|].
    apply (Hprivate sample_request bob_asks (GetRun "r2") bob_context SCOPE_RUNS_READ_ANY [] submitted.1 refused.1
      (answered refused)); [reflexivity|reflexivity|vm_compute; reflexivity|discriminate
      |vm_compute; reflexivity|vm_compute; reflexivity|vm_compute; reflexivity|by rewrite Heve|vm_compute; reflexivity
      |vm_compute; reflexivity].
Defined.

Definition ada_resumes := run_call (post_as "tok-ada" "/v1/eap/runs/r1/resume") [Message (Some "") false] sample_state.

Lemma resumes_entitled_witness :
  status_code (answered ada_resumes) = 200%Z ∧
  get_or (run_metadata (st_manager ada_resumes.1) "r1") "owner_actor_id" "actor_id" = PStr "ada".
Proof.
  split; [vm_compute; reflexivity|].
  destruct (resumes_entitled run_server macro_loads (λ _, PList []) (λ _, PNone) default_execution_limits "r2" 3 0
    (λ _, to_end) sample_request (post_as "tok-ada" "/v1/eap/runs/r1/resume") [Message (Some "") false] "r1"
    sample_state ada_resumes.1 ada_resumes.2) as [E|(context & _ & _ & Ho)].
  - vm_compute. reflexivity.
  - reflexivity.
  - vm_compute. reflexivity.
  - unfold ada_resumes, run_call. apply surjective_pairing.
  - rewrite E. vm_compute. reflexivity.
  - apply Ho. exists [("owner_actor_id", PStr "ada")]. split_and!; reflexivity.
Defined.
